(* ===== verification/_CoqProject ===== *)
-Q . S2P
Prelude.v
TargetAbi.v
StopGate.v
Counters.v
CallerEntry.v
Discovery.v
Bytes.v
Bisect.v
Maps.v
Tickets.v
Export.v
Budgets.v
ObjectPolicy.v
ObjectWire.v
ObjectJournal.v
Scheduler.v
Capture.v
CaptureBoundary.v
RequestEquiv.v
CaptureGet.v
GetEquiv.v
ObjectFlow.v
ObjectProgram.v
ObjectEmission.v
Semantics.v
SemanticsStep.v
SemanticsRefine.v
SemanticsProps.v
SemanticsFork.v
Lifetime.v
LifetimeHistory.v
LifetimeProps.v
Reservations.v
ReservationIndex.v
ReservationState.v
ReservationSpec.v
ReservationRefine.v
ReservationMerge.v
ReservationProps.v
Promotion.v
Kinds.v
Pool.v
Ledger.v
LedgerInv.v
LedgerProps.v
Edge.v
EdgeInv.v
EdgeFrame.v
EdgeGrow.v
EdgeStep.v
EdgeAsync.v
EdgeContract.v
EdgeProps.v
