(* ===== verification/Prelude.v ===== *)
(** * p11scope: a verification development

    p11scope observes PKCS#11 providers through eBPF probes.  Probes attached to
    the exported functions of a provider decide in the kernel what may be
    captured, count what they see in shared cells, and send fixed-layout records
    through a ring.  The host discovers providers in process maps, attaches the
    probes, validates every record it receives, allocates the identities and
    budgets of a capture and exports the evidence.  This library models the
    decisions of both sides that are pure functions, small state machines or
    programs over one atomic cell, and proves what the rest of the program
    relies on.

    ** The files, in dependency order

    - [Prelude] (this file): machine integers, boolean reflection, the error
      monads, shared tactics and list lemmas.
    - [TargetAbi]: [crates/ebpf-common/src/lib.rs] and [object_capture.rs].
      Module [Abi] has the target layouts and stack-argument addresses
      ([target_stack_arg_address], [ia32_arg_address]); [Cookie] the attachment,
      export and inventory cookies; [Span] the target-memory spans and attribute
      header addresses.
    - [StopGate]: [stop_gate_admit_with] of [lib.rs] and [src/attach/stop_gate.rs].
      Both sides are programs of atomic accesses, interleaved by a step relation.
    - [Counters]: [counter_policy.rs] and [inventory_mark_used_with].
    - [CallerEntry]: [inventory_callers.rs] and [inventory_callers/entry.rs]; the
      trait [CallerEntryIo] is a type class.
    - [Discovery]: the discovery records of [lib.rs] ([valid_discovery_record],
      [classify_exec_task], the interface-list continuation).
    - [Bytes]: the part of Rust's standard library the parsers use.
    - [Bisect]: [bisect_attach_counted] of [crates/bpf-multi/src/lib.rs].
    - [Maps]: [parse_maps], [MapIndex] and [resolve] of
      [crates/manifest/src/maps.rs].
    - [Tickets], [Export], [Budgets]: [src/capacity.rs].  Modules [FirstTouch],
      [Slots], [Tickets], [Live] and [Overlap] are the identity allocators;
      [Session], [Rotation], [Segments], [Lifecycle] and [Fence] the evidence
      side; [Endpoint], [Detailed], [Gauge] and [Preflight] the budgets.
    - [ObjectPolicy]: [object_policy.rs], the descriptors of the named functions.
    - [ObjectWire]: [object_wire.rs], the frozen table and the 240-byte tail.
    - [ObjectJournal]: [object_journal.rs], the BEGIN, END and ABANDON records,
      the compact END form and the ring decoder ([decode_journal_record]).
    - [Scheduler]: [src/discovery/scheduler.rs], the schedule of discovery work.
    - [Capture], [CaptureGet]: [object_capture.rs], the capture protocols over
      target memory, array-based and streamed, as computations of a reader monad
      with an abstract target ([TargetReader]).  Where the source chooses by
      target between a BPF global and its shared core, the model is the BPF arm.
    - [CaptureBoundary]: the packed words of those globals lose nothing.
    - [RequestEquiv], [GetEquiv]: the streamed protocols against the array-based
      ones.
    - [ObjectFlow]: [object_flow.rs], the adapters on the owner row and the tail.
    - [ObjectProgram]: the object part of [crates/ebpf/src/main.rs]: the entry
      chain [run_entry] and the return [object_return_ordinary].
    - [ObjectEmission]: the row and tail invariants of that program, and the
      proof that the host's validator accepts what it submits.
    - [Semantics]: [src/semantics.rs], the reducer of completed events.  [State] has
      the source's tables; [observe_process], [fork_process], [retire_process],
      [sync_plan] and [purge_modules] are its methods.
    - [SemanticsStep]: an abstract specification of the reducer, small steps
      confined to a process and a module ([step]), and the invariant they keep
      ([wf]).
    - [SemanticsRefine]: every handler of the reducer is a sequence of steps.
    - [SemanticsProps], [SemanticsFork]: its guarantees over all histories
      ([Command], [run]), forks and asynchronous ids.
    - [Lifetime]: [src/discovery/loader_lifetime.rs], the registry of loader
      contexts; a method is a computation on [LifetimeRegistry] that may stop with
      a [LifetimeError] or a failed [expect].  [LifetimeHistory] has its invariant
      ([registry_wf]), the order between a registry and its later states
      ([registry_rel]) and the calls of a driver ([call], [exec], [run]);
      [LifetimeProps] the guarantees over all histories.
    - [Reservations]: [src/semantics_objects/journal/reservations.rs], the
      reservation table with its intrusive hash chains and free list.
      [ReservationIndex] is the theory of the chains, [ReservationState] relates
      the links of a table to its contents, [ReservationSpec] is the reference (a
      list of operations), [ReservationRefine] and [ReservationMerge] show that
      every method implements it, [ReservationProps] composes them.
    - [Promotion]: [src/inventory/promotion/state.rs], the promotion mailbox.
    - [Kinds]: [src/kinds.rs], the capture descriptor of each standard function.
    - [Pool]: [src/semantics_edge/resources.rs], the capture-wide resource pool.
    - [Ledger]: [src/semantics_objects/journal/ledger.rs], the staging ledger: a
      method is a computation on the pool and the ledger ([LedgerRun]) that may
      refuse or panic.  [LedgerInv] ties the table of the ledger, through the
      reference of [ReservationSpec], to the leases it holds ([linv]);
      [LedgerProps] runs any calls among the other users of the pool ([Capture],
      [capture_run]).
    - [Edge]: [src/semantics_edge.rs], the per-edge reducer.  A method is a
      computation on the pool, the reducer and the sink of its effects ([Run]),
      which may be refused by the pool or panic.  [EdgeInv] has the invariant of a
      run ([inv]) and the methods that only end things ([ends]); [EdgeFrame] what
      methods leave alone ([stable]); [EdgeGrow], [EdgeStep] and [EdgeAsync] pay
      for what a call adds out of its reservation; [EdgeContract] is the contract
      of the public methods; [EdgeProps] runs any number of reducers on one pool
      ([World], [exec]).

    ** Conventions

    A Rust integer is a [Z] with its width as a hypothesis where it matters;
    casts wrap, [checked_*] returns an option, and a plain [+=] on a counter wraps
    as in a build without overflow checks.  An [&mut self] method takes the state
    and returns its result with the new state.  A [Result] is [result] or a sum,
    with the error constructors and payloads of the source.  A failed [assert!]
    or [expect] is [None].  Closures that reach the kernel, and traits, are
    arguments or type classes.

    ** What the theorems show

    - Concurrency.  Over every interleaving the gate word counts the admitted
      probe bodies, no body runs after a quiescent stop, the first stop is
      latched and a stopped gate drains; a counter addition lands exactly once
      under interference; a counter is replaced by concurrent replacers without
      losing an increment or splitting a writer's critical section.
    - Wire contracts.  An accepted discovery record carries only what its kind
      owns.  The byte-offset validator of an object tail decides a contract on
      the fields; table publication and verification agree; START markers and
      the continuation word decode exactly.  A decoded journal record is what its
      kind promises, and the compact and full END forms are interchangeable.
    - Object capture.  The streamed inspection, Get, Find and handle protocols
      agree with their array-based references, read for read or on memory that
      does not change.  A call that enters with a verified table leaves a row
      from which the return always emits a tail the validator of [ObjectWire]
      accepts, whatever target memory and registers answer, and every return
      removes its start once and settles its ring reservation once.
    - Semantics.  Over every history of events, forks, exits and plan changes the
      reducer stays within its key and call budgets, its tables are well typed
      and pseudonyms name one session.  An event touches only the state of its
      process and module; retiring a scope removes exactly that scope; a fork
      passes on exactly the fork-safe state; an async id minted twice credits
      nobody.
    - Per-edge reduction.  Over every history of calls on reducers that share a
      pool nothing panics, the charge of the pool is what they retain to the
      byte, a call is refused exactly when its growth does not fit, the tables
      stay bounded, the effects of a reducer that was always heard replay to its
      live operations, and a delayed completion that does not end the session
      reaches only the machines its call was queued for.
    - Loader lifetimes.  Over every history of calls tokens and export cookies
      name one context and one export for ever, quarantine is permanent, the
      charges stay within their ceilings, a fence is acknowledged exactly when
      all custody is settled, an active context can always be retired, and no
      [expect] fails.
    - Reservations.  The indexed and the scanning table answer as the reference
      does, refusals included, without a failed assertion, and a released id
      stays released.
    - Staging.  Over every history of the ledger, beside other borrowers of the
      pool, nothing panics, the charge of the pool is exact to the byte and given
      back by the drop, the ceilings hold but for copies that are live twice, and
      an association ticket is never issued twice.
    - Promotion.  A ticket is taken at most once and as requested, only genuine
      reports activate or end work in runtime hands, and shutdown is final.
    - Scheduling.  Newcomers are attempted in cyclic order across ticks of any
      size, rotation windows walk the unscanned set, the eviction cooldown is
      exact, the scan classes alternate, and a pressure pass consumes no share.
    - Identities and evidence.  Slot ids, tickets and first touches are issued
      once; live admission keeps its cap; unacknowledged export records are
      never dropped; evidence stores and segments partition what was appended.
    - Parsing and attachment.  The map parser inverts the kernel's rendering and
      the index finds the unique mapping; bisection partitions every group of
      sites within [2n - 1] attempts and isolates poisoned sites.
    - Arithmetic.  Addresses, spans, cookies and resource totals are exact and
      produced exactly when they fit.
    - Five theorems record behaviour that departs from the documentation:
      [spans_overlap_misses_top_byte], [slot_ids_wrap_at_max],
      [stale_old_retirement_hits_new_domain], [empty_store_release_refused],
      [refused_call_strands_operations].

    ** Bounds and fuel

    The compare-exchange loops have the source's retry bounds.  [bisect_loop]
    gets fuel [2n + 2] for [n] sites, one unit per popped group, and is shown to stop
    within it.  The binary search of [Bytes] runs on the length of the slice.
    The fault script of [allocate_with_faults] and the segment scan are
    structural, as are the loops of the reducer, over the finite contents of its
    tables.  A chain walk of [Reservations] gets one unit per node and one more
    ([walk_fuel]); running out is a panic of the model, which the refinement
    excludes.  No theorem assumes that a loop returned.

    ** Parameters

    Target reads ([TargetReader]) answer from an arbitrary state, so that memory
    may change between reads; what they return is limited to machine words and
    bytes ([TargetReaderOk]).  The equivalences of [RequestEquiv] and the return
    half of [GetEquiv] are about the reader of an unchanging memory.  The owner
    map queries of the return are the [custody] answers.  The catalogs of the
    [pkcs11-module] crate ([FunctionNames], [FunctionIds], [FunctionCatalog]), the
    return codes of [pkcs11-types] ([RvCodes], [EdgeCodes]), the kernel attach call, the clock, the caller maps,
    the allocator's answers ([l_allocs]) and the compiled struct sizes ([SlotLayout]) are arguments; witnesses instantiate them.

    ** Not modelled

    The eBPF programs outside the object calls, the owner map transactions of
    [native/task_owner.c], system calls, procfs and ptrace access, threads and
    links, ELF parsing, rendering and the command line are input and output
    around these decisions.  The discovery shards, the inventory coordinator,
    the promotion runtime, the replay of object records ([src/semantics_objects.rs] and its
    companions) and the metrics projection are decisions this development does
    not cover yet. *)
From stdpp Require Export base tactics numbers list option strings relations gmap.
From Stdlib Require Export ZArith Lia.
From Stdlib Require Import Sorted.
Open Scope Z_scope.

(** ** Machine integers

    Every Rust integer is a [Z]; [in_width w x] says that it fits an unsigned
    [w]-bit word.  Operations that can leave the range are written with the
    behaviour the source chose: [wrap] for [as] casts and wrapping arithmetic,
    [checked_*] for the [Option]-returning ones, [saturating_*] for the
    clamping ones. *)

Definition in_width (w x : Z) : Prop := 0 <= x < 2 ^ w.

Abbreviation is_u8 := (in_width 8).
Abbreviation is_u16 := (in_width 16).
Abbreviation is_u32 := (in_width 32).
Abbreviation is_u64 := (in_width 64).

Definition U8_MAX : Z := 2 ^ 8 - 1.
Definition U16_MAX : Z := 2 ^ 16 - 1.
Definition U32_MAX : Z := 2 ^ 32 - 1.
Definition U64_MAX : Z := 2 ^ 64 - 1.
Definition I32_MAX : Z := 2 ^ 31 - 1.

Definition wrap (w x : Z) : Z := x mod 2 ^ w.
Definition as_u8 : Z → Z := wrap 8.
Definition as_u16 : Z → Z := wrap 16.
Definition as_u32 : Z → Z := wrap 32.
Definition as_u64 : Z → Z := wrap 64.

(** [x as i32 as i64]: the low word read back as a signed integer. *)
Definition as_i32 (x : Z) : Z :=
  let low := wrap 32 x in if low <? 2 ^ 31 then low else low - 2 ^ 32.

Definition checked (w x : Z) : option Z :=
  if (0 <=? x) && (x <? 2 ^ w) then Some x else None.
Definition checked_add (w a b : Z) : option Z := checked w (a + b).
Definition checked_mul (w a b : Z) : option Z := checked w (a * b).
Definition checked_sub (w a b : Z) : option Z := checked w (a - b).
Definition saturating_add (w a b : Z) : Z := Z.min (a + b) (2 ^ w - 1).
Definition saturating_sub (a b : Z) : Z := Z.max (a - b) 0.

Declare Scope word_scope.
Delimit Scope word_scope with word.
Infix "&'" := Z.land (at level 40, left associativity) : word_scope.
Infix "&~" := Z.ldiff (at level 40, left associativity) : word_scope.
Infix "|'" := Z.lor (at level 50, left associativity) : word_scope.
Infix "<<" := Z.shiftl (at level 35, right associativity) : word_scope.
Infix ">>" := Z.shiftr (at level 35, right associativity) : word_scope.
Open Scope word_scope.

(** [x != 0] of the source. *)
Definition nz (x : Z) : bool := negb (x =? 0).

(** ** Boolean reflection *)

Create Rewrite HintDb bprop.
#[export] Hint Rewrite andb_true_iff andb_false_iff orb_true_iff orb_false_iff
  negb_true_iff negb_false_iff Z.eqb_eq Z.eqb_neq Z.leb_le Z.leb_gt Z.ltb_lt
  Z.ltb_ge Bool.eqb_true_iff : bprop.

(** Read boolean hypotheses and goals as propositions. *)
Ltac bprop := unfold nz in *; autorewrite with bprop in *.

(** Split the conjunctions a validator accepted. *)
Ltac bsplit := repeat match goal with
  | H : _ && _ = true |- _ => apply andb_true_iff in H as [? ?]
  | H : _ ∧ _ |- _ => destruct H
  end.

Ltac width := unfold in_width, as_u8, as_u16, as_u32, as_u64, wrap,
  U8_MAX, U16_MAX, U32_MAX, U64_MAX, I32_MAX in *.

Lemma checked_spec w x :
  (checked w x = Some x ∧ in_width w x) ∨ (checked w x = None ∧ ¬ in_width w x).
Proof.
  unfold checked, in_width.
  destruct (Z.leb_spec 0 x), (Z.ltb_spec x (2 ^ w)); simpl; auto with lia.
Qed.

Lemma checked_Some w x y : checked w x = Some y ↔ y = x ∧ in_width w x.
Proof. destruct (checked_spec w x) as [[-> ?]|[-> ?]]; naive_solver. Qed.

Lemma checked_None w x : checked w x = None ↔ ¬ in_width w x.
Proof. destruct (checked_spec w x) as [[-> ?]|[-> ?]]; naive_solver. Qed.

Lemma checked_small w x : in_width w x → checked w x = Some x.
Proof. intros. by apply checked_Some. Qed.

Lemma wrap_small w x : in_width w x → wrap w x = x.
Proof. apply Z.mod_small. Qed.

Lemma wrap_width w x : 0 <= w → in_width w (wrap w x).
Proof. intros. apply Z.mod_pos_bound. by apply Z.pow_pos_nonneg. Qed.

(** ** Fields of a word *)

(** A multiple of [2 ^ k] joined with a [k]-bit field is a sum. *)
Lemma lor_add k q x b :
  0 <= k → in_width k b → x = q * 2 ^ k → x |' b = x + b.
Proof.
  intros Hk Hb ->.
  assert ((q * 2 ^ k) &' b = 0) as Hd; [|by rewrite Z.add_nocarry_lxor, Z.lxor_lor].
  rewrite <- Z.shiftl_mul_pow2 by done.
  apply Z.bits_inj'; intros i Hi.
  rewrite Z.land_spec, Z.bits_0.
  destruct (Z.lt_ge_cases i k).
  - by rewrite Z.shiftl_spec_low by lia.
  - rewrite <- (Z.mod_small b (2 ^ k)) by done.
    rewrite Z.mod_pow2_bits_high by lia. apply andb_false_r.
Qed.

Lemma shiftl_lor_add k a b : 0 <= k → in_width k b → (a << k) |' b = a * 2 ^ k + b.
Proof. intros. rewrite (lor_add k a), Z.shiftl_mul_pow2; auto using Z.shiftl_mul_pow2. Qed.

Lemma lor_shiftl_add k a b : 0 <= k → in_width k a → a |' (b << k) = a + b * 2 ^ k.
Proof. intros. rewrite Z.lor_comm, shiftl_lor_add by done. lia. Qed.

(** Evaluate the powers of two of a statement about words, so that [lia] sees
    constants. *)
Ltac pow2 := repeat match goal with
  | |- context [2 ^ ?k] =>
      is_ground k; let v := eval vm_compute in (2 ^ k) in change (2 ^ k) with v
  | H : context [2 ^ ?k] |- _ =>
      is_ground k; let v := eval vm_compute in (2 ^ k) in change (2 ^ k) with v in H
  end.
Ltac word_lia := width; rewrite ?Z.shiftl_mul_pow2, ?Z.shiftr_div_pow2 in * by lia;
  pow2; Z.div_mod_to_equations; lia.

Lemma land_ones_mod x k : 0 <= k → x &' (2 ^ k - 1) = x mod 2 ^ k.
Proof. intros. by rewrite <- Z.land_ones, Z.ones_equiv by done. Qed.

(** A single-bit test of the source, [x & (1 << k) != 0]. *)
Lemma land_bit x k : 0 <= k → x &' (2 ^ k) = if Z.testbit x k then 2 ^ k else 0.
Proof.
  intros Hk. apply Z.bits_inj'; intros i Hi.
  rewrite Z.land_spec. destruct (Z.eq_dec i k) as [->|Hne].
  - rewrite Z.pow2_bits_true by lia. destruct (Z.testbit x k);
      rewrite ?Z.pow2_bits_true, ?Z.bits_0 by lia; done.
  - rewrite Z.pow2_bits_false by lia. destruct (Z.testbit x k);
      rewrite ?Z.pow2_bits_false, ?Z.bits_0, andb_false_r by lia; done.
Qed.

(** [x & !mask == 0]: [x] has no bit outside the mask, so it is at most the mask. *)
Lemma ldiff_le x m : 0 <= x → 0 <= m → x &~ m = 0 → x <= m.
Proof.
  intros Hx Hm H. apply Z.ldiff_le; done.
Qed.

(** Case split on a checked operation. *)
Ltac chk := unfold checked_add, checked_mul, checked_sub in *; simpl; repeat match goal with
  | |- context [checked ?w ?x] => destruct (checked_spec w x) as [[-> ?]|[-> ?]]; simpl
  end.
(** Case split on the comparisons of the goal. *)
Ltac zif := repeat match goal with
  | |- context [?a =? ?b] => destruct (Z.eqb_spec a b); simpl
  | |- context [?a <=? ?b] => destruct (Z.leb_spec a b); simpl
  | |- context [?a <? ?b] => destruct (Z.ltb_spec a b); simpl
  end.

(** ** Finite enumeration

    A decidable fact about every value below a bound, checked by evaluation. *)
Definition below (n : Z) (P : Z → bool) : bool := forallb P (seqZ 0 n).

Lemma below_correct n P : below n P = true → ∀ x, 0 <= x < n → P x = true.
Proof.
  unfold below. rewrite forallb_forall. intros H x Hx.
  apply H, list_elem_of_In, elem_of_seqZ. lia.
Qed.

(** ** Sums over lists *)

Definition zsum {A} (f : A → Z) (l : list A) : Z := foldr (λ x a, f x + a) 0 l.

Lemma zsum_app {A} (f : A → Z) l k : zsum f (l ++ k) = zsum f l + zsum f k.
Proof. unfold zsum. induction l as [|x l IH]; simpl; lia. Qed.

(** Updating one element changes the sum by the difference of its weights. *)
Lemma zsum_insert {A} (f : A → Z) l i x y :
  l !! i = Some y → zsum f (<[i := x]> l) = zsum f l - f y + f x.
Proof.
  unfold zsum. revert i. induction l as [|z l IH]; intros [|i] Hi; simplify_eq/=; [lia|].
  rewrite IH by done. lia.
Qed.

Lemma zsum_bounds {A} (f : A → Z) lo hi l :
  (∀ x, lo <= f x <= hi) →
  lo * Z.of_nat (length l) <= zsum f l <= hi * Z.of_nat (length l).
Proof.
  intros H. unfold zsum. induction l as [|x l IH]; simpl; [lia|].
  specialize (H x). lia.
Qed.

Lemma zsum_nonneg {A} (f : A → Z) l : (∀ x, 0 <= f x) → 0 <= zsum f l.
Proof. intros H. unfold zsum. induction l as [|x l IH]; simpl; [lia|]. specialize (H x). lia. Qed.

Lemma zsum_zero {A} (f : A → Z) l :
  (∀ x, 0 <= f x) → zsum f l = 0 → ∀ i x, l !! i = Some x → f x = 0.
Proof.
  intros H. induction l as [|y l IH]; intros Hs [|i] x Hx; simplify_eq/=;
    pose proof (zsum_nonneg f l H); unfold zsum in *; simpl in *.
  - specialize (H x). lia.
  - specialize (H y). eapply IH; [lia|done].
Qed.

#[export] Instance zsum_proper {A} (f : A → Z) : Proper ((≡ₚ) ==> (=)) (zsum f).
Proof. intros l l' H. unfold zsum. induction H; simpl; lia. Qed.

(** ** Sums over maps *)

Definition sum_by {K A} `{Countable K} (f : A → Z) (m : gmap K A) : Z :=
  map_fold (λ _ x n, f x + n) 0 m.

Lemma sum_by_insert_new {K A} `{Countable K} (f : A → Z) (m : gmap K A) i x :
  m !! i = None → sum_by f (<[i := x]> m) = f x + sum_by f m.
Proof. intros Hi. unfold sum_by. rewrite map_fold_insert_L; [done | intros; lia | done]. Qed.

Lemma sum_by_insert_old {K A} `{Countable K} (f : A → Z) (m : gmap K A) i x y :
  m !! i = Some y → sum_by f (<[i := x]> m) = sum_by f m - f y + f x.
Proof.
  intros Hi. rewrite <- insert_delete_eq, sum_by_insert_new by apply lookup_delete_eq.
  rewrite <- (insert_delete_id m i y Hi) at 2.
  rewrite sum_by_insert_new by apply lookup_delete_eq. lia.
Qed.

Lemma sum_by_empty {K A} `{Countable K} (f : A → Z) : sum_by f (∅ : gmap K A) = 0.
Proof. apply map_fold_empty. Qed.

Lemma sum_by_nonneg {K A} `{Countable K} (f : A → Z) (m : gmap K A) :
  (∀ x, 0 <= f x) → 0 <= sum_by f m.
Proof.
  intros Hf. induction m as [|i x m Hi IH] using map_ind; [by rewrite sum_by_empty|].
  rewrite sum_by_insert_new by done. specialize (Hf x). lia.
Qed.

(** The size of a map after an insertion. *)
Lemma size_insert {K A} `{Countable K} (m : gmap K A) i x :
  Z.of_nat (size (<[i := x]> m)) = Z.of_nat (size m) + Z.b2z (negb (bool_decide (is_Some (m !! i)))).
Proof.
  case_bool_decide as Hi; cbn.
  - rewrite map_size_insert_Some by done. lia.
  - rewrite map_size_insert_None by by apply eq_None_not_Some. lia.
Qed.

Lemma size_delete_le {K A} `{Countable K} (m : gmap K A) i : (size (delete i m) <= size m)%nat.
Proof. apply map_subseteq_size, delete_subseteq. Qed.

Lemma size_set_insert {K} `{Countable K} (m : gset K) k :
  Z.of_nat (size ({[k]} ∪ m)) = Z.of_nat (size m) + Z.b2z (negb (bool_decide (k ∈ m))).
Proof.
  case_bool_decide as Hk; cbn.
  - replace ({[k]} ∪ m) with m by set_solver. lia.
  - rewrite size_union, size_singleton by set_solver. lia.
Qed.

Lemma sum_by_delete {K A} `{Countable K} (f : A → Z) (m : gmap K A) i x :
  m !! i = Some x → sum_by f (delete i m) = sum_by f m - f x.
Proof.
  intros Hi. rewrite <- (insert_delete_id m i x Hi) at 2. rewrite sum_by_insert_new by apply lookup_delete_eq. lia.
Qed.

Lemma sum_by_filter {K A} `{Countable K} (f : A → Z) (P : K * A → Prop) `{!∀ x, Decision (P x)} (m : gmap K A) :
  sum_by f (filter P m) + sum_by f (filter (λ kv, ¬ P kv) m) = sum_by f m.
Proof.
  induction m as [|i x m Hi IH] using map_ind; [by rewrite !map_filter_empty, !sum_by_empty|].
  rewrite sum_by_insert_new by done. rewrite !map_filter_insert. destruct (decide (P (i, x))) as [HP|HP];
    rewrite ?(decide_True (P := ¬ ¬ P (i, x))), ?(decide_False (P := ¬ ¬ P (i, x))) by tauto.
  - rewrite sum_by_insert_new by (apply map_lookup_filter_None_2; by left).
    destruct (decide (¬ P (i, x))); [done|]. rewrite delete_id by done. lia.
  - destruct (decide (¬ P (i, x))); [|done]. rewrite (sum_by_insert_new f (filter _ m) i x) by (apply map_lookup_filter_None_2; by left).
    rewrite delete_id by done. lia.
Qed.

Lemma sum_by_fmap {K A} `{Countable K} (f : A → Z) (g : A → A) (m : gmap K A) :
  (∀ x, f (g x) = f x) → sum_by f (g <$> m) = sum_by f m.
Proof.
  intros Hg. induction m as [|i x m Hi IH] using map_ind; [by rewrite fmap_empty|].
  rewrite fmap_insert, !sum_by_insert_new by (rewrite ?lookup_fmap, ?Hi; done). rewrite Hg. lia.
Qed.

Lemma sum_by_lookup {K A} `{Countable K} (f : A → Z) (m : gmap K A) i x :
  (∀ x, 0 <= f x) → m !! i = Some x → f x <= sum_by f m.
Proof. intros Hf Hi. pose proof (sum_by_delete f m i x Hi). pose proof (sum_by_nonneg f (delete i m) Hf). lia. Qed.

(** ** Searching and ordering lists *)

(** [Iterator::position]. *)
Fixpoint position {A} (p : A → bool) (l : list A) : option nat :=
  match l with
  | [] => None
  | x :: l => if p x then Some 0%nat else S <$> position p l
  end.

Lemma position_Some {A} (p : A → bool) l i :
  position p l = Some i → ∃ x, l !! i = Some x ∧ p x = true.
Proof.
  revert i. induction l as [|x l IH]; intros i H; simpl in H; [done|].
  destruct (p x) eqn:E; [injection H as <-; eauto|].
  apply fmap_Some in H as (j & Hj & ->). simpl. eauto.
Qed.

Lemma position_None {A} (p : A → bool) l : position p l = None → Forall (λ x, p x = false) l.
Proof.
  induction l as [|x l IH]; intros H; simpl in H; [constructor|]. destruct (p x) eqn:E; [done|].
  apply fmap_None in H. constructor; [done|by apply IH].
Qed.

Lemma StronglySorted_snoc (cs : list Z) c :
  StronglySorted Z.lt cs → (∀ x, x ∈ cs → x < c) → StronglySorted Z.lt (cs ++ [c]).
Proof.
  intros Hs Hc. induction Hs as [|x cs Hs IH Hx]; simpl; [by repeat constructor|].
  constructor; [apply IH; set_solver|]. apply Forall_app. split; [done|].
  repeat constructor. apply Hc. set_solver.
Qed.

(** ** Stateful fallible code

    Functions of the source that take [&mut self] and return a [Result]: the
    state is returned on both outcomes. *)

Definition SE (S E A : Type) : Type := S → (E + A) * S.

Definition se_ret {S E A} (a : A) : SE S E A := λ s, (inr a, s).
Definition se_err {S E A} (e : E) : SE S E A := λ s, (inl e, s).
Definition se_bind {S E A B} (m : SE S E A) (k : A → SE S E B) : SE S E B := λ s,
  match m s with
  | (inr a, s) => k a s
  | (inl e, s) => (inl e, s)
  end.
(** A call that cannot fail. *)
Definition se_lift {S E A} (f : S → A * S) : SE S E A := λ s, let '(a, s) := f s in (inr a, s).
(** [option.ok_or(e)?] *)
Definition se_some {S E A} (e : E) (o : option A) : SE S E A :=
  match o with Some a => se_ret a | None => se_err e end.

#[export] Instance se_mret {S E} : MRet (SE S E) := λ A, se_ret.
#[export] Instance se_mbind {S E} : MBind (SE S E) := λ A B k m, se_bind m k.

Lemma bind_ok {S E A B} (m : SE S E A) (k : A → SE S E B) s a s' :
  m s = (inr a, s') → (m ≫= k) s = k a s'.
Proof. unfold mbind, se_mbind, se_bind. by intros ->. Qed.

Lemma bind_err {S E A B} (m : SE S E A) (k : A → SE S E B) s e s' :
  m s = (inl e, s') → (m ≫= k) s = (inl e, s').
Proof. unfold mbind, se_mbind, se_bind. by intros ->. Qed.

(** ** Results

    Rust's [Result], the error type first so that [result E] is a monad. *)
Inductive result (E A : Type) :=
| Ok (a : A)
| Err (e : E).
Arguments Ok {E A} a.
Arguments Err {E A} e.

#[export] Instance result_mret E : MRet (result E) := λ A a, Ok a.
#[export] Instance result_mbind E : MBind (result E) :=
  λ A B f r, match r with Ok a => f a | Err e => Err e end.

(** [Option::ok_or]. *)
Definition ok_or {E A} (o : option A) (e : E) : result E A :=
  match o with Some a => Ok a | None => Err e end.

Definition is_ok {E A} (r : result E A) : bool :=
  match r with Ok _ => true | Err _ => false end.

Lemma result_bind_ok {E A B} (r : result E A) (f : A → result E B) b :
  (r ≫= f) = Ok b ↔ ∃ a, r = Ok a ∧ f a = Ok b.
Proof. destruct r; cbn; naive_solver. Qed.

Lemma ok_or_ok {E A} (o : option A) (e : E) a : ok_or o e = Ok a ↔ o = Some a.
Proof. destruct o; simpl; naive_solver. Qed.

(** ** Booleans and arrays *)

Lemma nth_insert {A} (l : list A) i j v d :
  (j < length l)%nat → nth j (<[i := v]> l) d = if decide (i = j) then v else nth j l d.
Proof.
  intros Hj. case_decide as E.
  - subst. apply nth_lookup_Some. by rewrite list_lookup_insert_eq.
  - destruct (lookup_lt_is_Some_2 l j Hj) as [y Hy]. rewrite (nth_lookup_Some _ _ _ _ Hy).
    apply nth_lookup_Some. by rewrite list_lookup_insert_ne.
Qed.

Lemma existsb_ext_in {A} (f g : A → bool) l : (∀ x, In x l → f x = g x) → existsb f l = existsb g l.
Proof.
  induction l as [|x l IH]; intros Hl; [done|]. cbn [existsb]. rewrite (Hl x) by by left.
  f_equal. apply IH. intros y Hy. apply Hl. by right.
Qed.

Lemma bool_eq_iff (a b : bool) : (a = true ↔ b = true) → a = b.
Proof. destruct a, b; intuition. Qed.

Lemma nth_replicate_lt {A} (n i : nat) (x d : A) : (i < n)%nat → nth i (replicate n x) d = x.
Proof. intros Hi. apply nth_lookup_Some. by apply lookup_replicate_2. Qed.
