(* ===== verification/TargetAbi.v ===== *)
(** * Target words, argument addresses and attachment cookies

    The ABI half of [crates/ebpf-common/src/lib.rs]: the two x86 layouts the
    observer accepts, the checked addresses of stack arguments, and the
    attachment cookies that name a slot, an export hook or an inventory
    endpoint; with the span arithmetic of [object_capture.rs] that every
    target-memory access goes through.  All functions are pure and are
    translated branch by branch. *)
From S2P Require Import Prelude.

(** The two layouts of [pkcs11_module::layout::LinuxLayout] that the code
    matches exhaustively. *)
Inductive LinuxLayout := Lp64 | Ilp32.

#[export] Instance LinuxLayout_eq_dec : EqDecision LinuxLayout.
Proof. solve_decision. Defined.

(** [LinuxLayout::word_bytes] is provided by the [pkcs11-module] crate. *)
Class TargetWidth := word_bytes : LinuxLayout → Z.

(** What the crate documents of it, and what the constant strides of
    [attribute_table_span] rely on. *)
Class TargetWidthOk (W : TargetWidth) : Prop := {
  word_bytes_lp64 : word_bytes Lp64 = 8;
  word_bytes_ilp32 : word_bytes Ilp32 = 4;
}.

Module Abi.

Definition target_layout_from_cs (cs : Z) : option LinuxLayout :=
  if cs =? 0x33 then Some Lp64
  else if cs =? 0x23 then Some Ilp32
  else None.

Definition normalize_target_word (value : Z) (layout : LinuxLayout) : Z :=
  match layout with
  | Lp64 => value
  | Ilp32 => as_u32 value
  end.

Definition target_word_end (address : Z) (layout : LinuxLayout) : option Z :=
  match layout with
  | Lp64 => checked_add 64 address 7
  | Ilp32 => if address <=? U32_MAX - 3 then Some (address + 3) else None
  end.

Definition IA32_ARG_READ_FAILURE : Z := 1 << 32.

Definition ia32_arg_address (stack_pointer index : Z) : option Z :=
  if 6 <? index then None else
  let sp := stack_pointer &' U32_MAX in
  offset ← checked_mul 64 (index + 1) 4;
  address ← checked_add 64 sp offset;
  _ ← target_word_end address Ilp32;
  Some address.

(** [read] is the caller's four-byte read; [None] is its [Err(())]. *)
Definition read_ia32_arg_with (stack_pointer index : Z) (read : Z → option Z) : Z :=
  match ia32_arg_address stack_pointer index with
  | None => IA32_ARG_READ_FAILURE
  | Some address =>
      match read address with
      | Some value => value
      | None => IA32_ARG_READ_FAILURE
      end
  end.

Definition target_stack_arg_address (stack_pointer index : Z) (layout : LinuxLayout)
    : option Z :=
  if decide (layout = Ilp32) then ia32_arg_address stack_pointer index else
  if index =? 6 then
    address ← checked_add 64 (normalize_target_word stack_pointer layout) 8;
    _ ← target_word_end address layout;
    Some address
  else None.

End Abi.

(** ** Attachment cookies *)

Module Cookie.

Definition MAX_DESCRIPTORS : Z := 105.
Definition EXPORT_HOOK_ID_MASK : Z := 0x00ffffff.

Definition attach_cookie (slot descriptor : Z) : Z := slot |' (descriptor << 32).

Definition cookie_slot (cookie : Z) : Z := as_u32 cookie.

Definition cookie_descriptor (cookie : Z) : Z := as_u32 (cookie >> 32).

Definition export_attach_cookie (object_id context_case_id hook_id : Z) : option Z :=
  if (hook_id =? 0) || (EXPORT_HOOK_ID_MASK <? hook_id) then None
  else Some (((object_id << 32) |' (context_case_id << 24)) |' hook_id).

Definition decode_export_attach_cookie (cookie : Z) : option (Z * Z * Z) :=
  let hook_id := as_u32 cookie &' EXPORT_HOOK_ID_MASK in
  if hook_id =? 0 then None
  else Some (as_u32 (cookie >> 32), as_u8 (cookie >> 24), hook_id).

Definition INVENTORY_COOKIE_TAG : Z := 0x50555347.

Definition inventory_cookie_endpoint (cookie capacity : Z) : option Z :=
  let endpoint := as_u32 cookie in
  if negb (cookie >> 32 =? INVENTORY_COOKIE_TAG) || (capacity <=? endpoint) then None
  else Some endpoint.

End Cookie.

(** ** Target spans ([object_capture.rs]) *)

Module Span.

Definition attribute_table_span (count : Z) (layout : LinuxLayout) : option Z :=
  match layout with
  | Lp64 => if count <=? U64_MAX / 24 then Some ((count << 4) + (count << 3)) else None
  | Ilp32 => if count <=? U64_MAX / 12 then Some ((count << 3) + (count << 2)) else None
  end.

Definition validate_target_span (base len : Z) (layout : LinuxLayout) : option Z :=
  if len =? 0 then Some base else
  if base =? 0 then None else
  match layout with
  | Lp64 =>
      _ ← checked_add 64 base (len - 1);
      Some (saturating_add 64 base len)
  | Ilp32 =>
      stop ← checked_add 64 base len;
      if (U32_MAX <? base) || (0x100000000 <? stop) then None else Some stop
  end.

Definition spans_overlap (a_base a_len b_base b_len : Z) : bool :=
  if (a_len =? 0) || (b_len =? 0) then false else
  let a_end := saturating_add 64 a_base a_len in
  let b_end := saturating_add 64 b_base b_len in
  (a_base <? b_end) && (b_base <? a_end).

Definition attribute_header_addresses `{TargetWidth} (base index : Z)
    (layout : LinuxLayout) : option (Z * Z * Z) :=
  let w := word_bytes layout in
  table ← attribute_table_span index layout;
  slot ← checked_add 64 base table;
  _ ← validate_target_span slot (3 * w) layout;
  ptr_addr ← checked_add 64 slot w;
  len_addr ← checked_add 64 slot (2 * w);
  Some (slot, ptr_addr, len_addr).

Definition unavailable_len (layout : LinuxLayout) : Z :=
  match layout with
  | Lp64 => U64_MAX
  | Ilp32 => U32_MAX
  end.

End Span.

(** ** Argument addresses stay inside the target *)

(** One past the last addressable byte. *)
Definition space (layout : LinuxLayout) : Z :=
  match layout with Lp64 => 2 ^ 64 | Ilp32 => 2 ^ 32 end.

Lemma ia32_arg_address_eq sp index :
  is_u64 sp → is_u32 index →
  Abi.ia32_arg_address sp index =
    let address := sp mod 2 ^ 32 + 4 * (index + 1) in
    if (index <=? 6) && (address + 4 <=? 2 ^ 32) then Some address else None.
Proof.
  intros Hsp Hi. unfold Abi.ia32_arg_address, Abi.target_word_end, U32_MAX.
  rewrite land_ones_mod by lia.
  pose proof (Z.mod_pos_bound sp (2 ^ 32) ltac:(lia)).
  chk; zif; width; pow2; try lia; try done; f_equal; lia.
Qed.

(** The address of a stack argument.  For ILP32 the seven arguments follow
    the four-byte return address, for LP64 only argument seven is on the
    stack; an address is returned exactly when the whole word it names lies in
    the target's address space. *)
Theorem target_stack_arg_address_spec sp index layout :
  is_u64 sp → is_u8 index →
  Abi.target_stack_arg_address sp index layout =
    let address := match layout with
                   | Ilp32 => sp mod 2 ^ 32 + 4 * (index + 1)
                   | Lp64 => sp + 8 end in
    let width := match layout with Ilp32 => 4 | Lp64 => 8 end in
    let on_stack := match layout with Ilp32 => index <=? 6 | Lp64 => index =? 6 end in
    if on_stack && (address + width <=? space layout) then Some address else None.
Proof.
  intros Hsp Hi. unfold Abi.target_stack_arg_address. destruct layout; simpl.
  - unfold Abi.normalize_target_word, Abi.target_word_end.
    chk; zif; width; pow2; try lia; done.
  - rewrite ia32_arg_address_eq; [done..|]. width; lia.
Qed.

Lemma target_stack_arg_address_spec_witness :
  Abi.target_stack_arg_address (2 ^ 32 - 12) 1 Ilp32 = Some (2 ^ 32 - 4).
Proof. apply (target_stack_arg_address_spec (2 ^ 32 - 12) 1 Ilp32); width; lia. Defined.

(** The sentinel of a failed read is distinct from every four-byte value. *)
Lemma read_ia32_arg_with_sentinel sp index (read : Z → option Z) :
  is_u64 sp → is_u32 index → (∀ a v, read a = Some v → is_u32 v) →
  Abi.read_ia32_arg_with sp index read = Abi.IA32_ARG_READ_FAILURE ↔
  (Abi.ia32_arg_address sp index ≫= read) = None.
Proof.
  intros _ _ Hread. unfold Abi.read_ia32_arg_with, Abi.IA32_ARG_READ_FAILURE.
  destruct (Abi.ia32_arg_address sp index) as [a|]; simpl; [|done].
  destruct (read a) as [v|] eqn:Hv; [|done].
  apply Hread in Hv. width. pow2. split; [|done]. change (1 << 32) with 4294967296. lia.
Qed.

(** ** Cookies *)

Lemma export_cookie_sum o c h :
  is_u32 o → is_u8 c → in_width 24 h →
  ((o << 32) |' (c << 24)) |' h = o * 2 ^ 32 + c * 2 ^ 24 + h.
Proof.
  intros. rewrite shiftl_lor_add by word_lia.
  rewrite (lor_add 24 (o * 2 ^ 8 + c)); rewrite ?Z.shiftl_mul_pow2; word_lia.
Qed.

Lemma decode_export_eq ck :
  is_u64 ck →
  Cookie.decode_export_attach_cookie ck =
    if ck mod 2 ^ 24 =? 0 then None
    else Some (ck / 2 ^ 32, (ck / 2 ^ 24) mod 2 ^ 8, ck mod 2 ^ 24).
Proof.
  intros H. unfold Cookie.decode_export_attach_cookie, Cookie.EXPORT_HOOK_ID_MASK.
  change 0x00ffffff with (2 ^ 24 - 1). rewrite land_ones_mod by lia.
  assert (as_u32 ck mod 2 ^ 24 = ck mod 2 ^ 24) as -> by word_lia.
  assert (as_u32 (ck >> 32) = ck / 2 ^ 32) as -> by word_lia.
  unfold as_u8, wrap. by rewrite Z.shiftr_div_pow2 by lia.
Qed.

(** The dynamic export cookie is a bijection between the admissible
    identities (a 24-bit nonzero hook, an 8-bit context, a 32-bit object) and
    the 64-bit words with a nonzero hook field: encoding then decoding gives the
    identity back, and every word that decodes is the encoding of what it
    decodes to. *)
Theorem export_cookie_bijection :
  (∀ o c h, is_u32 o → is_u8 c → is_u32 h →
     match Cookie.export_attach_cookie o c h with
     | Some ck => is_u64 ck ∧ Cookie.decode_export_attach_cookie ck = Some (o, c, h)
     | None => h = 0 ∨ 2 ^ 24 <= h
     end) ∧
  (∀ ck o c h, is_u64 ck → Cookie.decode_export_attach_cookie ck = Some (o, c, h) →
     is_u32 o ∧ is_u8 c ∧ Cookie.export_attach_cookie o c h = Some ck).
Proof.
  split.
  - intros o c h Ho Hc Hh. unfold Cookie.export_attach_cookie, Cookie.EXPORT_HOOK_ID_MASK.
    zif; try word_lia. rewrite export_cookie_sum by word_lia.
    assert (is_u64 (o * 2 ^ 32 + c * 2 ^ 24 + h)) by word_lia.
    split; [done|]. rewrite decode_export_eq by done. zif; [word_lia|].
    repeat f_equal; word_lia.
  - intros ck o c h Hck. rewrite decode_export_eq by done. zif; [done|].
    intros [= <- <- <-]. split_and!; [word_lia..|].
    unfold Cookie.export_attach_cookie, Cookie.EXPORT_HOOK_ID_MASK.
    rewrite export_cookie_sum by word_lia. zif; try word_lia. simpl. f_equal. word_lia.
Qed.

Lemma attach_cookie_fields slot descriptor :
  is_u32 slot → is_u32 descriptor →
  is_u64 (Cookie.attach_cookie slot descriptor) ∧
  Cookie.cookie_slot (Cookie.attach_cookie slot descriptor) = slot ∧
  Cookie.cookie_descriptor (Cookie.attach_cookie slot descriptor) = descriptor.
Proof.
  intros. unfold Cookie.cookie_slot, Cookie.cookie_descriptor, Cookie.attach_cookie.
  rewrite lor_shiftl_add by word_lia. split_and!; word_lia.
Qed.

(** Static-slot cookies carry their slot and descriptor in separate words,
    and no static cookie is ever read as an inventory endpoint, whatever the
    inventory capacity: an inventory cookie is exactly the tag word over an
    endpoint below the capacity. *)
Theorem cookie_domains_disjoint slot descriptor capacity :
  is_u32 slot → 0 <= descriptor < Cookie.MAX_DESCRIPTORS → is_u32 capacity →
  Cookie.cookie_slot (Cookie.attach_cookie slot descriptor) = slot ∧
  Cookie.cookie_descriptor (Cookie.attach_cookie slot descriptor) = descriptor ∧
  Cookie.inventory_cookie_endpoint (Cookie.attach_cookie slot descriptor) capacity = None ∧
  (∀ ck e, is_u64 ck →
     Cookie.inventory_cookie_endpoint ck capacity = Some e ↔
     ck = Cookie.INVENTORY_COOKIE_TAG * 2 ^ 32 + e ∧ 0 <= e < capacity).
Proof.
  unfold Cookie.MAX_DESCRIPTORS. intros Hs Hd Hc.
  destruct (attach_cookie_fields slot descriptor) as (Hw & ? & ?); [word_lia..|].
  split_and!; [done..| |].
  - unfold Cookie.inventory_cookie_endpoint, Cookie.INVENTORY_COOKIE_TAG,
      Cookie.attach_cookie in *.
    rewrite lor_shiftl_add by word_lia. zif; try done. word_lia.
  - intros ck e Hck. unfold Cookie.inventory_cookie_endpoint, Cookie.INVENTORY_COOKIE_TAG.
    zif; (split; [intros H'; simplify_eq|intros [-> ?]; try f_equal]); word_lia.
Qed.

Lemma cookie_domains_disjoint_witness :
  Cookie.inventory_cookie_endpoint (Cookie.attach_cookie 7 104) 1024 = None ∧
  Cookie.inventory_cookie_endpoint (Cookie.INVENTORY_COOKIE_TAG * 2 ^ 32 + 9) 1024 = Some 9.
Proof.
  destruct (cookie_domains_disjoint 7 104 1024) as (_ & _ & H & Hi); [by vm_compute..|].
  split; [exact H|]. by apply Hi.
Defined.

(** ** Spans *)

Lemma valid_span_end base len :
  is_u64 base → is_u64 len → Span.validate_target_span base len Lp64 ≠ None →
  base + len <= 2 ^ 64.
Proof.
  intros Hb Hl. unfold Span.validate_target_span, checked_add, checked. zif; try word_lia.
  all: unfold mbind, option_bind; zif; try done; word_lia.
Qed.

(** Two target spans are reported as overlapping exactly when they share a
    byte other than the very last byte of the 64-bit address space. *)
Theorem spans_overlap_exact a_base a_len b_base b_len :
  is_u64 a_base → is_u64 a_len → is_u64 b_base → is_u64 b_len →
  Span.spans_overlap a_base a_len b_base b_len = true ↔
  ∃ addr, addr < U64_MAX ∧
    a_base <= addr < a_base + a_len ∧ b_base <= addr < b_base + b_len.
Proof.
  intros. unfold Span.spans_overlap, saturating_add, U64_MAX. split.
  - intros H'. exists (Z.max a_base b_base). revert H'. zif; word_lia.
  - intros (addr & ? & ? & ?). zif; word_lia.
Qed.

Lemma spans_overlap_exact_witness :
  Span.spans_overlap 100 8 104 8 = true.
Proof.
  apply (spans_overlap_exact 100 8 104 8); [done..|]. exists 105. unfold U64_MAX. lia.
Defined.

(** C36: the saturated ends hide an alias at the top of the address space: two
    valid spans that share a byte are reported as disjoint exactly when the only
    byte they share is the last one, so the saturation is not an
    over-approximation. *)
Theorem spans_overlap_misses_top_byte a la b lb :
  is_u64 a → is_u64 la → is_u64 b → is_u64 lb →
  Span.validate_target_span a la Lp64 ≠ None → Span.validate_target_span b lb Lp64 ≠ None →
  let common x := a <= x < a + la ∧ b <= x < b + lb in
  (∃ x, common x) →
  Span.spans_overlap a la b lb = false ↔ ∀ x, common x → x = U64_MAX.
Proof.
  intros Ha Hla Hb Hlb Hva%valid_span_end Hvb%valid_span_end common (x & Hx1 & Hx2); try done.
  rewrite <- not_true_iff_false, spans_overlap_exact by done. unfold U64_MAX in *. split.
  - intros Hno y [Hy1 Hy2]. destruct (decide (y < 2 ^ 64 - 1)); [|lia].
    destruct Hno. by exists y.
  - intros Htop (y & Hy & Hy1 & Hy2). rewrite (Htop y) in Hy by done. lia.
Qed.

Lemma spans_overlap_misses_top_byte_witness :
  Span.spans_overlap (U64_MAX - 7) 8 U64_MAX 1 = false.
Proof.
  apply (spans_overlap_misses_top_byte (U64_MAX - 7) 8 U64_MAX 1); [done..| |].
  - exists U64_MAX. unfold U64_MAX. lia.
  - unfold U64_MAX. lia.
Defined.

Section Headers.
Context `{W : TargetWidth} {Wok : TargetWidthOk W}.

Lemma word_bytes_cases layout :
  word_bytes layout = match layout with Lp64 => 8 | Ilp32 => 4 end.
Proof. destruct layout; [apply word_bytes_lp64 | apply word_bytes_ilp32]. Qed.

Lemma attribute_table_span_eq index layout :
  is_u64 index →
  Span.attribute_table_span index layout = checked 64 (index * (3 * word_bytes layout)).
Proof.
  intros. rewrite word_bytes_cases.
  destruct layout; simpl; chk; zif; try done;
    first [f_equal; word_lia | word_lia].
Qed.

Lemma validate_target_span_eq base len layout :
  is_u64 base → is_u64 len → 0 < len →
  Span.validate_target_span base len layout =
    if negb (base =? 0) && (base + len <=? space layout)
    then Some (Z.min (base + len) U64_MAX) else None.
Proof.
  intros. unfold Span.validate_target_span, saturating_add, space.
  destruct layout; zif; chk; zif; try done; try word_lia; f_equal; word_lia.
Qed.

(** The three word addresses of the [index]-th attribute header are
    [base + index * 3W] and the next two words, and they are produced exactly
    when the complete header is a non-null span of the target's address
    space; no intermediate product or sum wraps. *)
Theorem attribute_header_addresses_spec base index layout :
  is_u64 base → is_u64 index →
  let w := word_bytes layout in
  let slot := base + index * (3 * w) in
  Span.attribute_header_addresses base index layout =
    if negb (slot =? 0) && (slot + 3 * w <=? space layout)
    then Some (slot, slot + w, slot + 2 * w) else None.
Proof.
  intros Hb Hi w slot. unfold Span.attribute_header_addresses.
  rewrite attribute_table_span_eq by done. fold w.
  assert (w = 8 ∧ space layout = 2 ^ 64 ∨ w = 4 ∧ space layout = 2 ^ 32) as Hw.
  { unfold w. rewrite word_bytes_cases. destruct layout; auto. }
  assert (slot = base + index * (3 * w)) as Hslot by done. clearbody slot w.
  destruct (checked_spec 64 (index * (3 * w))) as [[-> ?]|[-> ?]]; simpl.
  2: { zif; try done. word_lia. }
  unfold checked_add. rewrite <- Hslot.
  destruct (checked_spec 64 slot) as [[-> ?]|[-> ?]]; simpl.
  2: { zif; try done. word_lia. }
  rewrite validate_target_span_eq by word_lia.
  zif; try done. chk; try done; word_lia.
Qed.
End Headers.

(** The word widths the [pkcs11-module] crate documents. *)
Definition linux_widths : TargetWidth := λ layout, match layout with Lp64 => 8 | Ilp32 => 4 end.

Lemma attribute_header_addresses_spec_witness :
  @Span.attribute_header_addresses linux_widths 4096 2 Ilp32 = Some (4120, 4124, 4128).
Proof.
  assert (TargetWidthOk linux_widths) as Hw by (by split).
  apply (attribute_header_addresses_spec (W := linux_widths) 4096 2 Ilp32); done.
Defined.
