(* ===== verification/StopGate.v ===== *)
(** * The stop gate

    One shared 64-bit word separates the BPF probes from the session that wants
    to tear the capture down: bit 63 is the stop request, the low 63 bits count
    the probe bodies inside the guarded region.  [stop_gate_admit_with]
    ([crates/ebpf-common/src/lib.rs]) is the probe side,
    [src/attach/stop_gate.rs] the host side.

    Every closure call of the source is one atomic access of the shared cell, so
    the code is a [prog]: a tree of atomic accesses whose continuations receive
    what they read.  [run] executes a program alone; the relation [step]
    interleaves the accesses of any number of probes and host threads. *)
From S2P Require Import Prelude.

Definition STOP_GATE_STOP : Z := 1 << 63.
Definition STOP_GATE_COUNT_MASK : Z := STOP_GATE_STOP - 1.
Definition FIRST_STOP_UNKNOWN : Z := U64_MAX.

(** The mapped cell and the host's first-stop latch. *)
Record StopGate := mkGate { cell : Z; first_stop_word : Z }.

(** [from_map_fd] accepts only a zero cell. *)
Definition from_map_fd (initial : Z) : option StopGate :=
  if negb (initial =? 0) then None else Some (mkGate initial 0).

Inductive prog :=
  | Load (k : Z → prog)               (* CAS(p, 0, 0) or an atomic load of the cell *)
  | Add (delta : Z) (k : prog)        (* non-fetch atomic add *)
  | FetchOr (bits : Z) (k : prog)     (* fetch_or on the cell *)
  | Latch (stamp : Z) (k : prog)      (* compare_exchange(0, stamp) on first_stop *)
  | Ret (admitted : bool).

(** The probe side. *)
Definition stop_gate_admit_with : prog :=
  Load (λ w,
    if nz (w &' STOP_GATE_STOP) then Ret false else
    Add 1 (Load (λ w,
      if nz (w &' STOP_GATE_STOP) then Add (-1) (Ret false)
      else Ret true))).

(** The host side: latch the first instant, then set the stop bit. *)
Definition stamp_of (now : option Z) : Z :=
  match now with
  | Some ns => Z.min (Z.max ns 1) (FIRST_STOP_UNKNOWN - 1)
  | None => FIRST_STOP_UNKNOWN
  end.

Definition request_stop_with (now : option Z) : prog :=
  Latch (stamp_of now) (FetchOr STOP_GATE_STOP (Ret false)).

Inductive FirstStop := NotRequested | Unknown | Known (ns : Z).

#[export] Instance FirstStop_eq_dec : EqDecision FirstStop.
Proof. solve_decision. Defined.

Definition first_stop (g : StopGate) : FirstStop :=
  if first_stop_word g =? 0 then NotRequested
  else if first_stop_word g =? FIRST_STOP_UNKNOWN then Unknown
  else Known (first_stop_word g).

Definition stop_requested (g : StopGate) : bool := nz (cell g &' STOP_GATE_STOP).
Definition quiescent (g : StopGate) : bool := cell g =? STOP_GATE_STOP.
Definition in_flight (g : StopGate) : Z := cell g &' STOP_GATE_COUNT_MASK.

(** One atomic access: the new gate and the rest of the program. *)
Definition access (p : prog) (g : StopGate) : option (StopGate * prog) :=
  match p with
  | Load k => Some (g, k (cell g))
  | Add d k => Some (mkGate (as_u64 (cell g + d)) (first_stop_word g), k)
  | FetchOr bits k => Some (mkGate (cell g |' bits) (first_stop_word g), k)
  | Latch stamp k =>
      Some (mkGate (cell g)
              (if first_stop_word g =? 0 then stamp else first_stop_word g), k)
  | Ret _ => None
  end.

(** A program executed without interference; the guard is its number of accesses. *)
Fixpoint run (fuel : nat) (p : prog) (g : StopGate) : option (bool * StopGate) :=
  match p, fuel with
  | Ret b, _ => Some (b, g)
  | _, O => None
  | _, S fuel => match access p g with Some (g', p') => run fuel p' g' | None => None end
  end.

(** ** Interleavings *)

(** A probe is outside, inside the admission protocol, or in its guarded body; a
    host thread executes a stop request. *)
Inductive thread := Outside | Admitting (p : prog) | Body | Host (p : prog).

Record system := mkSys { gate : StopGate; threads : list thread }.

Inductive thread_step (g : StopGate) : thread → StopGate → thread → Prop :=
  | ts_enter : thread_step g Outside g (Admitting stop_gate_admit_with)
  | ts_admit p g' p' :
      access p g = Some (g', p') → thread_step g (Admitting p) g' (Admitting p')
  | ts_admitted : thread_step g (Admitting (Ret true)) g Body
  | ts_denied : thread_step g (Admitting (Ret false)) g Outside
  | ts_leave g' p' :
      access (Add (-1) (Ret false)) g = Some (g', p') → thread_step g Body g' Outside
  | ts_stop now : thread_step g Outside g (Host (request_stop_with now))
  | ts_host p g' p' : access p g = Some (g', p') → thread_step g (Host p) g' (Host p')
  | ts_host_done b : thread_step g (Host (Ret b)) g Outside.

Inductive step : system → system → Prop :=
  | step_thread s i t g' t' :
      threads s !! i = Some t → thread_step (gate s) t g' t' →
      step s (mkSys g' (<[i := t']> (threads s))).

Definition initial (n : nat) : system := mkSys (mkGate 0 0) (replicate n Outside).

(** ** Program points

    The residual programs that are reachable, named; a thread is always at one
    of them. *)
Inductive pc :=
  | Out | Read1 | Incr | Read2 | Undo | Deny | Grant | In
  | HostLatch (now : option Z) | HostOr | HostDone.

Definition second_read : prog :=
  Load (λ w, if nz (w &' STOP_GATE_STOP) then Add (-1) (Ret false) else Ret true).

Definition thread_at (p : pc) : thread :=
  match p with
  | Out => Outside
  | Read1 => Admitting stop_gate_admit_with
  | Incr => Admitting (Add 1 second_read)
  | Read2 => Admitting second_read
  | Undo => Admitting (Add (-1) (Ret false))
  | Deny => Admitting (Ret false)
  | Grant => Admitting (Ret true)
  | In => Body
  | HostLatch now => Host (request_stop_with now)
  | HostOr => Host (FetchOr STOP_GATE_STOP (Ret false))
  | HostDone => Host (Ret false)
  end.

(** The points at which a probe owes the cell one decrement. *)
Definition holds (p : pc) : Z :=
  match p with Read2 | Undo | Grant | In => 1 | _ => 0 end.

Lemma holds_bounds p : 0 <= holds p <= 1.
Proof. destruct p; simpl; lia. Qed.

(** What every reachable system satisfies, with the abstract state it
    represents: whether stop was requested, and each thread's point. *)
Record represents (s : system) (stopped : bool) (pcs : list pc) : Prop := {
  rep_threads : threads s = thread_at <$> pcs;
  rep_small : Z.of_nat (length pcs) < 2 ^ 63;
  rep_cell : cell (gate s) = (if stopped then 2 ^ 63 else 0) + zsum holds pcs;
  rep_latched : stopped = true ∨ HostOr ∈ pcs → first_stop_word (gate s) ≠ 0;
}.

Lemma rep_count s b pcs : represents s b pcs → 0 <= zsum holds pcs < 2 ^ 63.
Proof.
  intros H. pose proof (rep_small _ _ _ H).
  pose proof (zsum_bounds holds 0 1 pcs holds_bounds). lia.
Qed.

Lemma stop_bit s b pcs : represents s b pcs → nz (cell (gate s) &' STOP_GATE_STOP) = b.
Proof.
  intros H. pose proof (rep_count _ _ _ H). rewrite (rep_cell _ _ _ H).
  change STOP_GATE_STOP with (2 ^ 63). rewrite land_bit by lia.
  assert (Z.testbit ((if b then 2 ^ 63 else 0) + zsum holds pcs) 63 = b) as ->;
    [|by destruct b].
  rewrite Z.testbit_eqb by lia. destruct b; zif; try done; word_lia.
Qed.

Lemma lor_stop c : is_u64 c → c |' STOP_GATE_STOP = 2 ^ 63 + c mod 2 ^ 63.
Proof.
  intros. change STOP_GATE_STOP with (2 ^ 63).
  rewrite Z.lor_comm.
  rewrite <- (lor_add 63 1) by word_lia.
  apply Z.bits_inj'; intros i Hi. rewrite !Z.lor_spec.
  destruct (Z.lt_ge_cases i 63).
  - by rewrite Z.mod_pow2_bits_low by lia.
  - rewrite (Z.mod_pow2_bits_high _ 63) by lia.
    destruct (Z.eq_dec i 63) as [->|]; [by rewrite Z.pow2_bits_true by lia|].
    rewrite <- (Z.mod_small c (2 ^ 64)) by done.
    by rewrite (Z.mod_pow2_bits_high c 64) by lia.
Qed.

Lemma rep_initial n : Z.of_nat n < 2 ^ 63 → represents (initial n) false (replicate n Out).
Proof.
  intros Hn. split; simpl.
  - by rewrite fmap_replicate.
  - by rewrite length_replicate.
  - induction n as [|n IH]; simpl; [done|]. rewrite <- IH by lia. done.
  - intros [|[? ?]%elem_of_replicate]; done.
Qed.

(** The abstract effect of one atomic step: the point a thread moves to and
    whether the stop bit is set afterwards. *)
Inductive pc_step (stopped : bool) : pc → bool → pc → Prop :=
  | pc_enter : pc_step stopped Out stopped Read1
  | pc_read1 : pc_step stopped Read1 stopped (if stopped then Deny else Incr)
  | pc_incr : pc_step stopped Incr stopped Read2
  | pc_read2 : pc_step stopped Read2 stopped (if stopped then Undo else Grant)
  | pc_undo : pc_step stopped Undo stopped Deny
  | pc_deny : pc_step stopped Deny stopped Out
  | pc_grant : pc_step stopped Grant stopped In
  | pc_leave : pc_step stopped In stopped Out
  | pc_stop now : pc_step stopped Out stopped (HostLatch now)
  | pc_latch now : pc_step stopped (HostLatch now) stopped HostOr
  | pc_or : pc_step stopped HostOr true HostDone
  | pc_done : pc_step stopped HostDone stopped Out.

Lemma stamp_nonzero now : stamp_of now ≠ 0.
Proof. destruct now; simpl; unfold FIRST_STOP_UNKNOWN, U64_MAX; lia. Qed.

(** The other threads hold between zero and all but one of the counts. *)
Lemma rest_bounds pcs i p :
  pcs !! i = Some p →
  0 <= zsum holds pcs - holds p ∧ zsum holds pcs - holds p < Z.of_nat (length pcs).
Proof.
  intros Hi.
  pose proof (zsum_nonneg holds (<[i:=Out]> pcs) (λ p, proj1 (holds_bounds p))) as Hlo.
  pose proof (zsum_bounds holds 0 1 (<[i:=In]> pcs) holds_bounds) as Hhi.
  rewrite (zsum_insert _ _ _ _ _ Hi) in Hlo. rewrite length_insert, (zsum_insert _ _ _ _ _ Hi) in Hhi.
  simpl in *. lia.
Qed.

Tactic Notation "moves" constr(b') constr(p') :=
  exists b', p'; split_and!;
  [ first [reflexivity | match goal with R : represents _ ?b _ |- _ => rewrite (stop_bit _ _ _ R); by destruct b end]
  | once constructor
  | match goal with R : represents _ ?b _ |- _ => destruct b end;
    simpl in *; rewrite ?lor_stop; word_lia
  | intros; zif; done
  | destruct b'; intros [?|?]; zif; auto using stamp_nonzero; naive_solver ].

Lemma thread_step_pc s b pcs i p g' t' :
  represents s b pcs → pcs !! i = Some p → thread_step (gate s) (thread_at p) g' t' →
  ∃ b' p', t' = thread_at p' ∧ pc_step b p b' p' ∧
    cell g' = (if b' then 2 ^ 63 else 0) + (zsum holds pcs - holds p + holds p') ∧
    (first_stop_word (gate s) ≠ 0 → first_stop_word g' = first_stop_word (gate s)) ∧
    (b' = true ∨ p' = HostOr → first_stop_word g' ≠ 0).
Proof.
  intros R Hi Hstep.
  pose proof (rep_count _ _ _ R) as Hcount. pose proof (rep_cell _ _ _ R) as Hcell.
  pose proof (rep_latched _ _ _ R) as Hl. pose proof (rep_small _ _ _ R) as Hsmall.
  destruct (rest_bounds pcs i p Hi) as [Hlo Hhi].
  assert (p = HostOr → first_stop_word (gate s) ≠ 0) as Hor.
  { intros ->. apply Hl. right. by eapply list_elem_of_lookup_2. }
  destruct p; inversion Hstep; simplify_eq/=.
  - moves b Read1.
  - moves b (HostLatch now).
  - moves b (if b then Deny else Incr).
  - moves b Read2.
  - moves b (if b then Undo else Grant).
  - moves b Deny.
  - moves b Out.
  - moves b In.
  - moves b Out.
  - moves b HostOr.
  - moves true HostDone.
  - moves b Out.
Qed.

Lemma rep_thread_step s b pcs i p g' t' :
  represents s b pcs → pcs !! i = Some p → thread_step (gate s) (thread_at p) g' t' →
  ∃ b' p', pc_step b p b' p' ∧
    represents (mkSys g' (<[i := t']> (threads s))) b' (<[i := p']> pcs) ∧
    (first_stop_word (gate s) ≠ 0 → first_stop_word g' = first_stop_word (gate s)).
Proof.
  intros R Hi Ht.
  destruct (thread_step_pc _ _ _ _ _ _ _ R Hi Ht) as (b' & p' & -> & Hpc & Hcell & Hkeep & Hl).
  exists b', p'. split_and!; [done| |done].
  split; simpl.
  - by rewrite (rep_threads _ _ _ R), list_fmap_insert.
  - rewrite length_insert. apply (rep_small _ _ _ R).
  - by rewrite (zsum_insert holds _ _ _ _ Hi).
  - intros [Hb|Ho]; [by apply Hl; left|].
    apply list_elem_of_lookup in Ho as [j Hj].
    destruct (decide (i = j)) as [<-|Hne].
    + rewrite list_lookup_insert_eq in Hj by eauto using lookup_lt_Some.
      apply Hl. right. congruence.
    + rewrite list_lookup_insert_ne in Hj by done.
      rewrite Hkeep; apply (rep_latched _ _ _ R); right; by eapply list_elem_of_lookup_2.
Qed.

Lemma step_pc s s' b pcs :
  represents s b pcs → step s s' →
  ∃ i p b' p', pcs !! i = Some p ∧ pc_step b p b' p' ∧
    represents s' b' (<[i := p']> pcs) ∧
    (first_stop_word (gate s) ≠ 0 → first_stop_word (gate s') = first_stop_word (gate s)).
Proof.
  intros R Hstep. destruct Hstep as [s i t g' t' Hi Ht].
  rewrite (rep_threads _ _ _ R), list_lookup_fmap in Hi.
  apply fmap_Some in Hi as (p & Hi & ->).
  destruct (rep_thread_step _ _ _ _ _ _ _ R Hi Ht) as (b' & p' & ? & ? & ?).
  by exists i, p, b', p'.
Qed.

Lemma reachable_rep n s :
  Z.of_nat n < 2 ^ 63 → rtc step (initial n) s → ∃ b pcs, represents s b pcs.
Proof.
  intros Hn Hr. assert (∃ b pcs, represents (initial n) b pcs) as H by eauto using rep_initial.
  induction Hr as [|s1 s2 s3 Hs Hr IH]; [done|]. apply IH.
  destruct H as (b & pcs & R).
  destruct (step_pc _ _ _ _ R Hs) as (?&?&?&?&?&?&?&?). eauto.
Qed.

Lemma rep_in_flight s b pcs : represents s b pcs → in_flight (gate s) = zsum holds pcs.
Proof.
  intros R. pose proof (rep_count _ _ _ R). unfold in_flight, STOP_GATE_COUNT_MASK.
  rewrite (rep_cell _ _ _ R). change STOP_GATE_STOP with (2 ^ 63).
  rewrite land_ones_mod by lia. destruct b; word_lia.
Qed.

Lemma rep_quiescent s b pcs :
  represents s b pcs → quiescent (gate s) = true ↔ b = true ∧ zsum holds pcs = 0.
Proof.
  intros R. pose proof (rep_count _ _ _ R). unfold quiescent.
  rewrite (rep_cell _ _ _ R). change STOP_GATE_STOP with (2 ^ 63).
  bprop. destruct b; word_lia || naive_solver lia.
Qed.

Lemma first_stop_requested g : first_stop_word g ≠ 0 → first_stop g ≠ NotRequested.
Proof. unfold first_stop. intros. zif; done. Qed.

(** in every interleaving of any number of probes and stop requests the
    count field is the number of probes that still owe a decrement (never
    wrapping into the stop bit), the gate is quiescent exactly when stop was
    requested and no probe owes one, and a requested stop always has a latched
    first instant (known or explicitly unknown). *)
Theorem stop_gate_count_exact n s :
  Z.of_nat n < 2 ^ 63 → rtc step (initial n) s →
  ∃ pcs, threads s = thread_at <$> pcs ∧
    in_flight (gate s) = zsum holds pcs ∧
    (quiescent (gate s) = true ↔
       stop_requested (gate s) = true ∧ in_flight (gate s) = 0) ∧
    (stop_requested (gate s) = true → first_stop (gate s) ≠ NotRequested).
Proof.
  intros Hn Hr. destruct (reachable_rep _ _ Hn Hr) as (b & pcs & R). exists pcs.
  unfold stop_requested. rewrite (stop_bit _ _ _ R), (rep_in_flight _ _ _ R).
  split_and!; [apply R|done|by eapply rep_quiescent|].
  intros ->. apply first_stop_requested, (rep_latched _ _ _ R). by left.
Qed.

(** Once stop is set and no probe is granted or inside, no probe gets in again. *)
Definition closed (b : bool) (pcs : list pc) : Prop :=
  b = true ∧ Forall (λ p, p ≠ Grant ∧ p ≠ In) pcs.

Lemma closed_step s s' b pcs :
  represents s b pcs → closed b pcs → step s s' →
  ∃ b' pcs', represents s' b' pcs' ∧ closed b' pcs'.
Proof.
  intros R [-> Hc] Hs. destruct (step_pc _ _ _ _ R Hs) as (i & p & b' & p' & Hi & Hp & R' & _).
  exists b', (<[i := p']> pcs). split; [done|].
  pose proof (Forall_lookup_1 _ _ _ _ Hc Hi) as [Hg Hin].
  split; [by inversion Hp|]. apply Forall_insert; [done|].
  inversion Hp; subst; done.
Qed.

Lemma closed_rtc s s' b pcs :
  represents s b pcs → closed b pcs → rtc step s s' →
  ∃ b' pcs', represents s' b' pcs' ∧ closed b' pcs'.
Proof.
  intros R Hc Hr. revert b pcs R Hc. induction Hr as [|s1 s2 s3 Hs Hr IH]; intros b pcs R Hc.
  - eauto.
  - destruct (closed_step _ _ _ _ R Hc Hs) as (b' & pcs' & R' & Hc'). eauto.
Qed.

Lemma quiescent_closed s b pcs : represents s b pcs → quiescent (gate s) = true → closed b pcs.
Proof.
  intros R [-> Hz]%(rep_quiescent _ _ _ R). split; [done|].
  apply Forall_lookup_2. intros i p Hi.
  pose proof (zsum_zero holds pcs (λ p, proj1 (holds_bounds p)) Hz _ _ Hi).
  split; intros ->; done.
Qed.

(** C1: after the host has observed the gate quiescent, no probe is in its
    guarded body and no continuation of any interleaving ever lets one in,
    including a probe that had passed its first check before the stop. *)
Theorem stop_gate_no_body_after_quiescence n s s' i :
  Z.of_nat n < 2 ^ 63 → rtc step (initial n) s → quiescent (gate s) = true →
  rtc step s s' → threads s' !! i ≠ Some Body.
Proof.
  intros Hn Hr Hq Hr' Hb. destruct (reachable_rep _ _ Hn Hr) as (b & pcs & R).
  destruct (closed_rtc _ _ _ _ R (quiescent_closed _ _ _ R Hq) Hr') as (b' & pcs' & R' & _ & Hc).
  rewrite (rep_threads _ _ _ R'), list_lookup_fmap in Hb.
  apply fmap_Some in Hb as (p & Hp & Heq).
  pose proof (Forall_lookup_1 _ _ _ _ Hc Hp) as [? ?]. by destruct p.
Qed.

(** The first stop request decides the recorded instant once and for all;
    neither a later request nor a failed clock read replaces it. *)
Theorem first_stop_latched n s s' :
  Z.of_nat n < 2 ^ 63 → rtc step (initial n) s → first_stop (gate s) ≠ NotRequested →
  rtc step s s' → first_stop (gate s') = first_stop (gate s).
Proof.
  intros Hn Hr Hf Hr'. destruct (reachable_rep _ _ Hn Hr) as (b & pcs & R).
  assert (first_stop_word (gate s) ≠ 0) as Hw.
  { intros H. apply Hf. unfold first_stop. by rewrite H. }
  assert (first_stop_word (gate s') = first_stop_word (gate s)) as Heq;
    [|unfold first_stop; by rewrite Heq].
  clear Hf Hr Hn. revert b pcs R Hw.
  induction Hr' as [|s1 s2 s3 Hs Hr' IH]; intros b pcs R Hw; [done|].
  destruct (step_pc _ _ _ _ R Hs) as (i & p & b' & p' & _ & _ & R' & Hkeep).
  rewrite (IH _ _ R'); rewrite Hkeep; done.
Qed.

(** ** Draining *)

(** The accesses a thread still performs before it is outside, once stop is set. *)
Definition todo (p : pc) : Z :=
  match p with
  | Out => 0 | Read1 => 2 | Incr => 4 | Read2 => 3 | Undo => 2 | Deny => 1
  | Grant => 2 | In => 1 | HostLatch _ => 3 | HostOr => 2 | HostDone => 1
  end.

Lemma todo_nonneg p : 0 <= todo p.
Proof. destruct p; simpl; lia. Qed.

Lemma todo_decreases p b' p' : p ≠ Out → pc_step true p b' p' → b' = true ∧ todo p' < todo p.
Proof. intros Hp H. inversion H; subst; simpl; try done; split; done || lia. Qed.

(** A thread inside is never blocked. *)
Lemma thread_progress g p : p ≠ Out → ∃ g' t', thread_step g (thread_at p) g' t'.
Proof. destruct p; [done|..]; intros _; do 2 eexists; simpl; by econstructor. Qed.

Lemma drain s pcs (m : nat) :
  represents s true pcs → zsum todo pcs <= Z.of_nat m →
  ∃ k s' pcs', (k <= m)%nat ∧ nsteps step k s s' ∧ represents s' true pcs' ∧
    zsum todo pcs' = 0.
Proof.
  revert s pcs. induction m as [|m IH]; intros s pcs R Hm.
  - exists 0%nat, s, pcs. pose proof (zsum_nonneg todo pcs todo_nonneg).
    split_and!; [done|constructor|done|lia].
  - destruct (decide (zsum todo pcs = 0)) as [|Hne].
    { exists 0%nat, s, pcs. split_and!; [lia|constructor|done..]. }
    assert (∃ i p, pcs !! i = Some p ∧ p ≠ Out) as (i & p & Hi & Hp).
    { clear -Hne. induction pcs as [|q pcs IH]; [done|]. unfold zsum in *; simpl in *.
      destruct (decide (todo q = 0)) as [H0|H0].
      - destruct IH as (i & p & ? & ?); [lia|]. by exists (S i), p.
      - exists 0%nat, q. split; [done|]. by intros ->. }
    destruct (thread_progress (gate s) p Hp) as (g' & t' & Ht).
    destruct (rep_thread_step _ _ _ _ _ _ _ R Hi Ht) as (b' & p' & Hpc & R' & _).
    destruct (todo_decreases _ _ _ Hp Hpc) as [-> Hlt].
    destruct (IH _ _ R') as (k & s' & pcs' & ? & Hr & ? & ?).
    { rewrite (zsum_insert _ _ _ _ _ Hi). lia. }
    exists (S k), s', pcs'. split_and!; [lia| |done..]. econstructor; [|exact Hr].
    econstructor; [|done]. by rewrite (rep_threads _ _ _ R), list_lookup_fmap, Hi.
Qed.

(** A requested stop drains: from every reachable state with the stop bit
    set, letting the threads that are already inside finish reaches a quiescent
    gate in at most four atomic accesses per thread; no thread is ever blocked. *)
Theorem stop_gate_drains n s :
  Z.of_nat n < 2 ^ 63 → rtc step (initial n) s → stop_requested (gate s) = true →
  ∃ k s', (k <= 4 * length (threads s))%nat ∧ nsteps step k s s' ∧
    quiescent (gate s') = true.
Proof.
  intros Hn Hr Hs. destruct (reachable_rep _ _ Hn Hr) as (b & pcs & R).
  unfold stop_requested in Hs. rewrite (stop_bit _ _ _ R) in Hs. subst b.
  destruct (drain s pcs (4 * length pcs) R) as (k & s' & pcs' & Hk & Hst & R' & Hz).
  { pose proof (zsum_bounds todo 0 4 pcs) as Hb. lapply Hb; [lia|].
    intros p; destruct p; simpl; lia. }
  exists k, s'. split_and!; [|done|].
  - by rewrite (rep_threads _ _ _ R), length_fmap.
  - apply (rep_quiescent _ _ _ R'). split; [done|].
    clear -Hz. induction pcs' as [|p pcs IH]; [done|]. unfold zsum in *; simpl in *.
    pose proof (zsum_nonneg todo pcs todo_nonneg) as H. unfold zsum in H.
    pose proof (todo_nonneg p). rewrite IH by lia. destruct p; simpl in *; lia.
Qed.

(** *** A concrete run: a probe passes its first check, then stop is requested. *)

Definition gate_demo : system :=
  mkSys (mkGate STOP_GATE_STOP 5) [Admitting (Add 1 second_read); Host (Ret false)].

Tactic Notation "thread" constr(i) "by" tactic3(t) :=
  eapply rtc_l; [eapply (step_thread _ i); [reflexivity|t]|]; simpl.

Lemma gate_demo_reachable : rtc step (initial 2) gate_demo.
Proof.
  thread 0%nat by (apply ts_enter).
  thread 0%nat by (apply ts_admit; reflexivity).
  thread 1%nat by (apply (ts_stop _ (Some 5))).
  thread 1%nat by (apply ts_host; reflexivity).
  thread 1%nat by (apply ts_host; reflexivity).
  apply rtc_refl.
Qed.

Lemma stop_gate_count_exact_witness : in_flight (gate gate_demo) = 0.
Proof.
  destruct (stop_gate_count_exact 2 gate_demo) as (pcs & _ & _ & [H _] & _);
    [lia | apply gate_demo_reachable | apply H; reflexivity].
Defined.

Lemma stop_gate_no_body_after_quiescence_witness : threads gate_demo !! 0%nat ≠ Some Body.
Proof.
  apply (stop_gate_no_body_after_quiescence 2 gate_demo gate_demo 0);
    [lia | apply gate_demo_reachable | reflexivity | apply rtc_refl].
Defined.

Lemma first_stop_latched_witness :
  first_stop (gate gate_demo) = Known 5 ∧
  first_stop (gate (mkSys (gate gate_demo) [Admitting (Add 1 second_read); Outside])) = Known 5.
Proof.
  split; [reflexivity|].
  rewrite (first_stop_latched 2 gate_demo);
    [reflexivity | lia | apply gate_demo_reachable | discriminate |].
  thread 1%nat by (apply ts_host_done). apply rtc_refl.
Defined.

Lemma stop_gate_drains_witness :
  ∃ k s', (k <= 8)%nat ∧ nsteps step k gate_demo s' ∧ quiescent (gate s') = true.
Proof. apply (stop_gate_drains 2 gate_demo); [lia | apply gate_demo_reachable | reflexivity]. Defined.
