(* ===== verification/Counters.v ===== *)
(** * Bounded lock-free counters

    [crates/ebpf-common/src/counter_policy.rs] and the usage bit of
    [lib.rs] ([inventory_mark_used_with]).  The kernel supplies the atomic
    accesses as closures; here they are the operations [CellIo] of an arbitrary
    state, and the policies are state-passing functions over them.  The
    theorems run the policies on [shared], a cell that other producers update
    an arbitrary number of times before each of our accesses. *)
From S2P Require Import Prelude.

(** The closures a policy receives: an atomic load and a compare-exchange. *)
Record CellIo (S : Type) := {
  load : S → Z * S;
  compare_exchange : Z → Z → S → bool * S;
}.
Arguments load {S}. Arguments compare_exchange {S}.

Module Policy.

Inductive CounterMode := Counts | Timestamps | Latency.

Definition name (m : CounterMode) : string :=
  match m with
  | Counts => "counts" | Timestamps => "timestamps" | Latency => "latency"
  end.

Definition parse (value : string) : option CounterMode :=
  if decide (value = "counts") then Some Counts
  else if decide (value = "timestamps") then Some Timestamps
  else if decide (value = "latency") then Some Latency
  else None.

Definition has_timing (m : CounterMode) : bool :=
  match m with Counts => false | _ => true end.

Definition has_histogram (m : CounterMode) : bool :=
  match m with Latency => true | _ => false end.

Definition stats_bytes (m : CounterMode) : Z :=
  match m with Counts => 24 | Timestamps => 40 | Latency => 296 end.

Inductive CounterUpdate := Added | Saturated | AddContended.

(** [for _ in 0..tries] of [add_counter_with]. *)
Fixpoint add_loop {S} (tries : nat) (delta : Z) (io : CellIo S) (s : S)
    : CounterUpdate * S :=
  match tries with
  | O => (AddContended, s)
  | S tries =>
      let '(before, s) := load io s in
      let after := saturating_add 64 before delta in
      let '(won, s) := compare_exchange io before after s in
      if won : bool then
        (if U64_MAX - before <? delta then Saturated else Added, s)
      else add_loop tries delta io s
  end.

Definition add_counter_with {S} (delta : Z) (io : CellIo S) (s : S) : CounterUpdate * S :=
  add_loop 8 delta io s.

Inductive CounterMaxUpdate := Raised | Kept | MaxContended.

Fixpoint max_loop {S} (tries : nat) (candidate : Z) (io : CellIo S) (s : S)
    : CounterMaxUpdate * S :=
  match tries with
  | O => (MaxContended, s)
  | S tries =>
      let '(before, s) := load io s in
      if candidate <=? before then (Kept, s) else
      let '(won, s) := compare_exchange io before candidate s in
      if won : bool then (Raised, s) else max_loop tries candidate io s
  end.

Definition max_counter_with {S} (candidate : Z) (io : CellIo S) (s : S)
    : CounterMaxUpdate * S :=
  max_loop 8 candidate io s.

(** [set_if_zero] is the compare-exchange of exactly 0 to 1; it returns the
    previous value. *)
Definition inventory_mark_used_with {S} (load : S → Z * S) (set_if_zero : S → Z * S) (s : S)
    : bool * S :=
  let '(cell, s) := load s in
  if cell =? 0 then
    let '(previous, s) := set_if_zero s in
    ((previous =? 0) || (previous =? 1), s)
  else if cell =? 1 then (true, s)
  else (false, s).

End Policy.

(** ** A cell with interference *)

Section Shared.
(** How another producer's update [d] changes the cell. *)
Context (upd : Z → Z → Z).

(** [pending] lists, for each coming access of ours, the updates that other
    producers complete just before it. *)
Record shared := mkShared { value : Z; pending : list (list Z) }.

Definition interfere (s : shared) : shared :=
  match pending s with
  | [] => s
  | ds :: rest => mkShared (foldl upd (value s) ds) rest
  end.

Definition shared_io : CellIo shared := {|
  load s := let s := interfere s in (value s, s);
  compare_exchange before after s :=
    let s := interfere s in
    if value s =? before then (true, mkShared after (pending s)) else (false, s);
|}.
End Shared.

Definition adders_io : CellIo shared := shared_io (saturating_add 64).
Definition maxers_io : CellIo shared := shared_io Z.max.

Definition u64_updates (p : list (list Z)) : Prop := Forall (Forall is_u64) p.

(** All the updates of a prefix of the schedule. *)
Abbreviation total p := (zsum id (concat p)).

Lemma total_app p q : total (p ++ q) = total p + total q.
Proof. by rewrite concat_app, zsum_app. Qed.

Lemma total_nonneg p : u64_updates p → 0 <= total p.
Proof.
  induction 1 as [|ds p Hds Hp IH]; simpl; [done|]. rewrite zsum_app.
  assert (0 <= zsum id ds); [|lia]. clear -Hds. unfold zsum.
  induction Hds as [|d ds Hd Hds IH]; simpl; [done|]. unfold id in *. word_lia.
Qed.

Lemma foldl_saturating v ds :
  is_u64 v → Forall is_u64 ds →
  foldl (saturating_add 64) v ds = Z.min (v + zsum id ds) U64_MAX.
Proof.
  intros Hv Hds. revert v Hv. unfold zsum.
  induction Hds as [|d ds Hd Hds IH]; intros v Hv; simpl; [word_lia|].
  rewrite IH by (unfold saturating_add; word_lia).
  assert (0 <= zsum id ds).
  { clear -Hds. unfold zsum. induction Hds; simpl; unfold id in *; word_lia. }
  unfold saturating_add, id, zsum in *. word_lia.
Qed.

(** One access: the schedule entry it consumes and the value it sees. *)
Lemma interfere_adders s :
  is_u64 (value s) → u64_updates (pending s) →
  ∃ pre, pending s = pre ++ pending (interfere (saturating_add 64) s) ∧
    (length pre <= 1)%nat ∧ u64_updates pre ∧
    is_u64 (value (interfere (saturating_add 64) s)) ∧
    u64_updates (pending (interfere (saturating_add 64) s)) ∧
    value (interfere (saturating_add 64) s) = Z.min (value s + total pre) U64_MAX.
Proof.
  intros Hv Hp. unfold interfere. destruct s as [v [|ds rest]]; simpl in *.
  - exists []. split_and!; simpl; try (done || lia || constructor); word_lia.
  - inversion Hp as [|? ? Hds Hrest]; subst. exists [ds].
    rewrite foldl_saturating by done. simpl. rewrite app_nil_r.
    pose proof (total_nonneg [ds] ltac:(by constructor)) as Ht. simpl in Ht.
    rewrite app_nil_r in Ht.
    split_and!; try (done || by constructor); word_lia.
Qed.

Lemma add_loop_spec tries delta s r s' :
  is_u64 delta → is_u64 (value s) → u64_updates (pending s) →
  Policy.add_loop tries delta adders_io s = (r, s') →
  ∃ pre, pending s = pre ++ pending s' ∧ (length pre <= 2 * tries)%nat ∧
    match r with
    | Policy.Added =>
        value s' = Z.min (value s + total pre + delta) U64_MAX ∧
        (0 < delta → value s + total pre + delta <= U64_MAX)
    | Policy.Saturated => U64_MAX < value s + total pre + delta ∧ value s' = U64_MAX
    | Policy.AddContended =>
        value s' = Z.min (value s + total pre) U64_MAX ∧ Z.of_nat tries <= total pre
    end.
Proof.
  intros Hd. revert s. induction tries as [|tries IH]; intros s Hv Hp Hrun; simpl in Hrun.
  { simplify_eq. exists []. split_and!; simpl; try done; word_lia. }
  destruct (interfere_adders s Hv Hp) as (pre1 & Hpend1 & Hlen1 & Hu1 & Hv1 & Hp1 & Hval1).
  set (s1 := interfere (saturating_add 64) s) in *.
  destruct (interfere_adders s1 Hv1 Hp1) as (pre2 & Hpend2 & Hlen2 & Hu2 & Hv2 & Hp2 & Hval2).
  set (s2 := interfere (saturating_add 64) s1) in *.
  pose proof (total_nonneg pre1 Hu1). pose proof (total_nonneg pre2 Hu2).
  destruct (Z.eqb_spec (value s2) (value s1)) as [Heq|Hne].
  - simplify_eq. exists (pre1 ++ pre2). rewrite total_app, length_app. simpl.
    split_and!; [by rewrite <- app_assoc, <- Hpend2|lia|].
    unfold saturating_add in *. zif; word_lia.
  - destruct (IH s2 Hv2 Hp2 Hrun) as (pre3 & Hpend3 & Hlen3 & Hr).
    exists (pre1 ++ pre2 ++ pre3). rewrite !total_app, !length_app.
    split_and!; [by rewrite <- !app_assoc, <- Hpend3, <- Hpend2|lia|].
    assert (u64_updates pre3) as Hu3.
    { unfold u64_updates in *. rewrite Hpend3 in Hp2. by apply Forall_app in Hp2 as [? _]. }
    pose proof (total_nonneg pre3 Hu3). destruct r; word_lia.
Qed.

(** A counter update among concurrent producers.  Whatever they do between
    our accesses, the final cell is the saturated sum of the initial value, all
    of their updates and ours if and only if the update reports that it was made.
    A nonzero [Added] is exact, [Saturated] says that the mathematical sum
    passed the maximum and the cell holds the maximum, and [AddContended] (no
    write of ours) is only reported after the others added at least eight. *)
Theorem add_counter_exact delta s :
  is_u64 delta → is_u64 (value s) → u64_updates (pending s) →
  let '(r, s') := Policy.add_counter_with delta adders_io s in
  ∃ others, pending s = others ++ pending s' ∧ (length others <= 16)%nat ∧
    value s' = Z.min (value s + total others +
                      match r with Policy.AddContended => 0 | _ => delta end) U64_MAX ∧
    match r with
    | Policy.Added => 0 < delta → value s + total others + delta <= U64_MAX
    | Policy.Saturated => U64_MAX < value s + total others + delta
    | Policy.AddContended => 8 <= total others
    end.
Proof.
  intros Hd Hv Hp. destruct (Policy.add_counter_with delta adders_io s) as [r s'] eqn:Hrun.
  destruct (add_loop_spec 8 _ _ _ _ Hd Hv Hp Hrun) as (pre & Hpre & Hlen & Hr).
  exists pre. split_and!; [done|lia|..]; destruct r; try (intros; lia); destruct Hr; auto; lia.
Qed.

Lemma add_counter_exact_witness :
  ∃ others, [[1]; []; [2; 2]] = others ++ [[2; 2]] ∧ (length others <= 16)%nat ∧
    9 = Z.min (5 + total others + 3) U64_MAX ∧ (0 < 3 → 5 + total others + 3 <= U64_MAX).
Proof.
  apply (add_counter_exact 3 (mkShared 5 [[1]; []; [2; 2]]));
    [done..|repeat constructor; done].
Defined.

(** ** Maxima *)

Lemma foldl_max v ds : v <= foldl Z.max v ds.
Proof. revert v. induction ds as [|d ds IH]; intros v; simpl; [lia|]. specialize (IH (v `max` d)). lia. Qed.

Lemma interfere_maxers s : value s <= value (interfere Z.max s).
Proof. destruct s as [v [|ds rest]]; simpl; [lia|apply foldl_max]. Qed.

Lemma max_loop_spec tries candidate s r s' :
  Policy.max_loop tries candidate maxers_io s = (r, s') →
  value s <= value s' ∧ (r ≠ Policy.MaxContended → candidate <= value s') ∧
  (r = Policy.Raised → value s' = candidate) ∧
  (r = Policy.MaxContended → Z.of_nat tries <= value s' - value s).
Proof.
  revert s. induction tries as [|tries IH]; intros s Hrun; simpl in Hrun.
  { simplify_eq. split_and!; done || lia. }
  pose proof (interfere_maxers s). set (s1 := interfere Z.max s) in *.
  pose proof (interfere_maxers s1). set (s2 := interfere Z.max s1) in *.
  destruct (Z.leb_spec candidate (value s1)).
  { simplify_eq. split_and!; done || lia. }
  destruct (Z.eqb_spec (value s2) (value s1)).
  - simplify_eq/=. split_and!; done || lia.
  - apply IH in Hrun as (? & Hc & Hr & Hn). split_and!; [lia|done|done|].
    intros Hk. specialize (Hn Hk). lia.
Qed.

(** An exact-maximum update among concurrent raises never lowers the cell.
    [Raised] left the candidate in it, [Kept] wrote nothing because it already
    covered the candidate, and [MaxContended] is only reported after the other
    producers raised it by at least eight. *)
Theorem max_counter_exact candidate s :
  let '(r, s') := Policy.max_counter_with candidate maxers_io s in
  value s <= value s' ∧
  match r with
  | Policy.Raised => value s' = candidate
  | Policy.Kept => candidate <= value s'
  | Policy.MaxContended => 8 <= value s' - value s
  end.
Proof.
  destruct (Policy.max_counter_with candidate maxers_io s) as [r s'] eqn:Hrun.
  destruct (max_loop_spec 8 _ _ _ _ Hrun) as (? & ? & Hr & Hn).
  split; [done|]. destruct r; auto.
Qed.

(** ** The usage bit *)

(** Other producers only run the same protocol, so between our accesses the cell
    may go from 0 to 1 and never otherwise ([raises] says before which accesses
    it does). *)
Record usage := mkUsage { bit : Z; raises : list bool }.

Definition usage_tick (s : usage) : usage :=
  match raises s with
  | [] => s
  | r :: rest => mkUsage (if r && (bit s =? 0) then 1 else bit s) rest
  end.

Definition usage_load (s : usage) : Z * usage := let s := usage_tick s in (bit s, s).
Definition usage_set_if_zero (s : usage) : Z * usage :=
  let s := usage_tick s in
  (bit s, if bit s =? 0 then mkUsage 1 (raises s) else s).

(** Marking an endpoint used succeeds exactly when its cell is well formed
    (0 or 1), and then the cell holds 1 afterwards; a corrupt cell is refused
    and left untouched. *)
Theorem inventory_mark_used_exact s :
  let '(ok, s') := Policy.inventory_mark_used_with usage_load usage_set_if_zero s in
  (ok = true ↔ bit s = 0 ∨ bit s = 1) ∧
  bit s' = (if ok then 1 else bit s).
Proof.
  destruct s as [b rs]. unfold Policy.inventory_mark_used_with, usage_load, usage_set_if_zero,
    usage_tick.
  destruct (Z.eq_dec b 0) as [->|H0]; [|destruct (Z.eq_dec b 1) as [->|H1]].
  - destruct rs as [|[] [|[] rs]]; simpl; split; auto; split; auto.
  - destruct rs as [|[] [|[] rs]]; simpl; split; auto; split; auto.
  - rewrite <- Z.eqb_neq in H0, H1. destruct rs as [|[] rs]; simpl;
      rewrite ?H0, ?H1; simpl; rewrite ?H0, ?H1; simpl; bprop; split; auto; lia.
Qed.

Lemma counter_mode_roundtrip m : Policy.parse (Policy.name m) = Some m.
Proof. by destruct m. Qed.
