(* ===== verification/CallerEntry.v ===== *)
(** * Caller/object usage rows

    [crates/ebpf-common/src/inventory_callers.rs] and [inventory_callers/entry.rs]:
    the wire records of positive caller evidence and the decision function
    [record_caller_use_with] that every inventory probe runs.  The map and helper
    boundary of the source, the trait [CallerEntryIo], is the type class of the
    same name; the decision is proved against the interface alone (through an
    instrumented implementation that logs what reached the maps) and then on a
    concrete bounded store. *)
From S2P Require Import Prelude.

Definition ENDPOINT_OBJECT_COMMITTED_PHYSICAL : Z := 1.
Definition CALLER_USE_POSITIVE : Z := 1.
Definition CALLER_EVIDENCE_KNOWN_MASK : Z := 0x0f.
Definition CALLER_ENTRY_COUNT_SATURATED : Z := 1 << 63.

Record ImageIdentity := { task_cookie : Z; exec_id : Z }.

Record CallerObjectKey := { image : ImageIdentity; key_object_id : Z; key_reserved : Z }.

Definition CallerObjectKey_is_valid (k : CallerObjectKey) : bool :=
  nz (task_cookie (image k)) && (key_reserved k =? 0).

Record CallerObjectUse := {
  recorded_at_ns : Z; recent_bucket : Z; host_tgid : Z; witness_endpoint : Z;
  flags : Z; use_reserved : Z; entry_count : Z;
}.

Definition CallerObjectUse_is_valid (u : CallerObjectUse) (endpoint_capacity : Z) : bool :=
  (flags u =? CALLER_USE_POSITIVE)
  && (recent_bucket u =? 0)
  && nz (host_tgid u)
  && (witness_endpoint u <? endpoint_capacity)
  && (use_reserved u =? 0).

Definition counts_another_entry (u : CallerObjectUse) : bool :=
  entry_count u <? CALLER_ENTRY_COUNT_SATURATED.

Definition saturated_entry_count (u : CallerObjectUse) : Z :=
  if entry_count u <? CALLER_ENTRY_COUNT_SATURATED then entry_count u
  else CALLER_ENTRY_COUNT_SATURATED.

Record EndpointObject := { object_id : Z; class : Z }.

Definition is_uncommitted (o : EndpointObject) : bool := (object_id o =? 0) && (class o =? 0).

Definition committed_object_id (o : EndpointObject) : option Z :=
  if class o =? ENDPOINT_OBJECT_COMMITTED_PHYSICAL then Some (object_id o) else None.

Inductive CallerEvidence :=
  | InvalidEndpointObject | IdentityUnavailable | PairInsertFailure | PairIntegrityFailure.

Definition counter_index (e : CallerEvidence) : Z :=
  match e with
  | InvalidEndpointObject => 0 | IdentityUnavailable => 1
  | PairInsertFailure => 2 | PairIntegrityFailure => 3
  end.

Definition sticky_mask (e : CallerEvidence) : Z := 1 << counter_index e.

Definition from_index (index : Z) : option CallerEvidence :=
  if index =? 0 then Some InvalidEndpointObject
  else if index =? 1 then Some IdentityUnavailable
  else if index =? 2 then Some PairInsertFailure
  else if index =? 3 then Some PairIntegrityFailure
  else None.

Definition valid_caller_evidence_mask (bits : Z) : bool :=
  bits &~ CALLER_EVIDENCE_KNOWN_MASK =? 0.

(** ** The decision *)

Inductive PairInsertError := Exists | Failed.
Inductive CallerEntryFailure := GlobalStateInvalid | Caller (e : CallerEvidence).

(** The trait: one method per map or helper operation. *)
Class CallerEntryIo (S Row : Type) := {
  endpoint_object : Z → S → option EndpointObject * S;
  mark_usage : Z → S → bool * S;
  current_identity : S → option ImageIdentity * S;
  lookup_row : CallerObjectKey → S → option (Row * CallerObjectUse) * S;
  insert_noexist : CallerObjectKey → CallerObjectUse → S → option PairInsertError * S;
  now_ns : S → Z * S;
  count_entry : Row → S → unit * S;
}.

Section Decision.
Context {S Row : Type} `{CallerEntryIo S Row}.

(** The short-circuiting [&&] reads the witness endpoint only for a row that
    passed the field checks. *)
Definition count_pair_with (key : CallerObjectKey) (row : Row) (value : CallerObjectUse)
    (endpoint_capacity tgid : Z) : SE S CallerEntryFailure unit :=
  if CallerObjectUse_is_valid value endpoint_capacity && (host_tgid value =? tgid) then
    o ← se_lift (endpoint_object (witness_endpoint value));
    if decide ((o ≫= committed_object_id) = Some (key_object_id key)) then
      if counts_another_entry value then se_lift (count_entry row) else se_ret tt
    else se_err (Caller PairIntegrityFailure)
  else se_err (Caller PairIntegrityFailure).

Definition record_caller_use_with (endpoint endpoint_capacity tgid : Z)
    : SE S CallerEntryFailure unit :=
  if endpoint_capacity <=? endpoint then se_err (Caller InvalidEndpointObject) else
  o ← se_lift (endpoint_object endpoint);
  oid ← se_some (Caller InvalidEndpointObject) (o ≫= committed_object_id);
  marked ← se_lift (mark_usage endpoint);
  if negb marked then se_err GlobalStateInvalid else
  identity ← se_lift current_identity;
  img ← se_some (Caller IdentityUnavailable)
            (i ← identity; if nz (task_cookie i) then Some i else None);
  let key := {| image := img; key_object_id := oid; key_reserved := 0 |} in
  found ← se_lift (lookup_row key);
  match found with
  | Some (row, value) => count_pair_with key row value endpoint_capacity tgid
  | None =>
      let value at_ns := {|
        recorded_at_ns := at_ns; recent_bucket := 0; host_tgid := tgid;
        witness_endpoint := endpoint; flags := CALLER_USE_POSITIVE;
        use_reserved := 0; entry_count := 1 |} in
      if negb (CallerObjectUse_is_valid (value 0) endpoint_capacity)
      then se_err (Caller PairIntegrityFailure) else
      at_ns ← se_lift now_ns;
      inserted ← se_lift (insert_noexist key (value at_ns));
      match inserted with
      | None => se_ret tt
      | Some Failed => se_err (Caller PairInsertFailure)
      | Some Exists =>
          again ← se_lift (lookup_row key);
          '(row, winner) ← se_some (Caller PairIntegrityFailure) again;
          count_pair_with key row winner endpoint_capacity tgid
      end
  end.
End Decision.

(** ** The decision counts once

    An implementation of the interface that behaves as the given one and logs
    the rows it found and the writes that reached the map. *)
Section Counting.
Context {S Row : Type} {io : CallerEntryIo S Row}.

Inductive event :=
  | Found (key : CallerObjectKey) (row : Row) (value : CallerObjectUse)
  | Inserted (key : CallerObjectKey) (value : CallerObjectUse)
  | Counted (row : Row).

Definition logged_lookup (key : CallerObjectKey) (s : S * list event)
    : option (Row * CallerObjectUse) * (S * list event) :=
  let '(r, s') := lookup_row key s.1 in
  (r, (s', s.2 ++ match r with Some (row, v) => [Found key row v] | None => [] end)).

Definition logged_insert (key : CallerObjectKey) (v : CallerObjectUse) (s : S * list event)
    : option PairInsertError * (S * list event) :=
  let '(r, s') := insert_noexist key v s.1 in
  (r, (s', s.2 ++ match r with None => [Inserted key v] | Some _ => [] end)).

#[local] Instance logged : CallerEntryIo (S * list event) Row := {|
  endpoint_object e s := let '(r, s') := endpoint_object e s.1 in (r, (s', s.2));
  mark_usage e s := let '(r, s') := mark_usage e s.1 in (r, (s', s.2));
  current_identity s := let '(r, s') := current_identity s.1 in (r, (s', s.2));
  lookup_row := logged_lookup;
  insert_noexist := logged_insert;
  now_ns s := let '(r, s') := now_ns s.1 in (r, (s', s.2));
  count_entry row s :=
    let '(r, s') := count_entry row s.1 in (r, (s', s.2 ++ [Counted row]));
|}.

Definition is_write (e : event) : bool :=
  match e with Found _ _ _ => false | _ => true end.
Definition writes (log : list event) : list event := List.filter is_write log.

(** The row a caller may be counted on. *)
Definition countable (cap tgid : Z) (key : CallerObjectKey) (v : CallerObjectUse) : Prop :=
  CallerObjectKey_is_valid key = true ∧ CallerObjectUse_is_valid v cap = true ∧
  host_tgid v = tgid.

(** What a successful entry left in the log. *)
Inductive outcome (e cap tgid : Z) (log : list event) : Prop :=
  | counted_in_place key row v :
      countable cap tgid key v → counts_another_entry v = true →
      Found key row v ∈ log → writes log = [Counted row] → outcome e cap tgid log
  | counted_by_insert key v :
      countable cap tgid key v → witness_endpoint v = e → entry_count v = 1 →
      writes log = [Inserted key v] → outcome e cap tgid log
  | at_ceiling key row v :
      countable cap tgid key v → counts_another_entry v = false →
      Found key row v ∈ log → writes log = [] → outcome e cap tgid log.

Lemma count_pair_outcome e cap tgid key row v s log r s' log' :
  CallerObjectKey_is_valid key = true → Found key row v ∈ log → writes log = [] →
  count_pair_with key row v cap tgid (s, log) = (r, (s', log')) →
  match r with inl _ => writes log' = [] | inr _ => outcome e cap tgid log' end.
Proof.
  intros Hk Hf Hw. unfold count_pair_with.
  destruct (CallerObjectUse_is_valid v cap) eqn:Hv, (host_tgid v =? tgid) eqn:Ht; simpl;
    try (intros [= <- <- <-]; done).
  unfold mbind, se_mbind, se_bind, se_lift; simpl.
  destruct (endpoint_object _ s) as [o s1]; simpl. case_decide; [|by intros [= <- <- <-]].
  bprop. destruct (counts_another_entry v) eqn:Hc; simpl.
  - destruct (count_entry row s1) as [u s2]; simpl. intros [= <- <- <-].
    eapply (counted_in_place _ _ _ _ key row v); [done|done|set_solver|].
    unfold writes in *. by rewrite List.filter_app, Hw.
  - intros [= <- <- <-]. by eapply (at_ceiling _ _ _ _ key row v).
Qed.

(** Whatever the maps and helpers answer, an entry that is reported as
    recorded was counted exactly once: in place on a row of a valid key whose
    immutable fields were checked, or by inserting a valid row with count one
    for this endpoint and process, or not at all because the checked row is at
    the saturation ceiling.  No failure path creates a row or counts
    anything. *)
Theorem record_caller_use_counts_once (endpoint cap tgid : Z) (s : S) :
  let '(r, (_, log)) := record_caller_use_with endpoint cap tgid (s, []) in
  match r with
  | inl _ => writes log = []
  | inr _ => outcome endpoint cap tgid log
  end.
Proof.
  unfold record_caller_use_with, mbind, se_mbind, se_bind, se_lift.
  destruct (cap <=? endpoint); simpl; [done|].
  destruct (endpoint_object endpoint s) as [o s1]; simpl.
  destruct (option_bind _ _ _ _) as [oid|]; simpl; [|done].
  destruct (mark_usage endpoint s1) as [[] s2]; simpl; [|done].
  destruct (current_identity s2) as [[i|] s3]; simpl; [|done].
  destruct (nz (task_cookie i)) eqn:Hi; simpl; [|done].
  set (key := {| image := i; key_object_id := oid; key_reserved := 0 |}).
  assert (CallerObjectKey_is_valid key = true) as Hkey.
  { unfold CallerObjectKey_is_valid. simpl. by rewrite Hi. }
  unfold logged_lookup at 1. simpl.
  destruct (lookup_row key s3) as [[[row v]|] s4]; simpl.
  { destruct (count_pair_with key row v cap tgid _) as [r [s5 log]] eqn:Hc.
    eapply count_pair_outcome in Hc; [exact Hc|done|set_solver|done]. }
  match goal with |- context [CallerObjectUse_is_valid ?v cap] =>
    destruct (CallerObjectUse_is_valid v cap) eqn:Hv; simpl; [|done] end.
  destruct (now_ns s4) as [at_ns s5]; simpl. unfold logged_insert. simpl.
  destruct (insert_noexist key _ s5) as [[[]|] s6]; simpl; [|done|].
  2: { eapply counted_by_insert; cycle 3; [by reflexivity|done..]. }
  unfold logged_lookup. simpl.
  destruct (lookup_row key s6) as [[[row v]|] s7]; simpl; [|done].
  destruct (count_pair_with key row v cap tgid _) as [r [s8 log]] eqn:Hc.
  eapply count_pair_outcome in Hc; [exact Hc|done|set_solver|done].
Qed.
End Counting.

(** ** A bounded store *)

#[export] Instance ImageIdentity_eq_dec : EqDecision ImageIdentity.
Proof. solve_decision. Defined.
#[export] Instance ImageIdentity_countable : Countable ImageIdentity :=
  inj_countable' (λ i, (task_cookie i, exec_id i)) (λ '(c, e), {| task_cookie := c; exec_id := e |})
    ltac:(by intros []).
#[export] Instance CallerObjectKey_eq_dec : EqDecision CallerObjectKey.
Proof. solve_decision. Defined.
#[export] Instance CallerObjectKey_countable : Countable CallerObjectKey :=
  inj_countable' (λ k, (image k, key_object_id k, key_reserved k))
    (λ '(i, o, r), {| image := i; key_object_id := o; key_reserved := r |})
    ltac:(by intros []).

(** One probe entry against the maps: the CALLER_USE rows with their capacity,
    the committed endpoint objects, the usage cells, the current task and clock,
    and a row another probe may insert between our lookup and our insertion. *)
Record store := mkStore {
  rows : gmap CallerObjectKey CallerObjectUse;
  row_capacity : nat;
  objects : gmap Z EndpointObject;
  usage_bits : gmap Z Z;
  current : option ImageIdentity;
  clock : Z;
  racer : option (CallerObjectKey * CallerObjectUse);
}.

Definition with_rows (s : store) (m : gmap CallerObjectKey CallerObjectUse) : store :=
  mkStore m (row_capacity s) (objects s) (usage_bits s) (current s) (clock s) None.

Definition bump (u : CallerObjectUse) : CallerObjectUse :=
  {| recorded_at_ns := recorded_at_ns u; recent_bucket := recent_bucket u;
     host_tgid := host_tgid u; witness_endpoint := witness_endpoint u; flags := flags u;
     use_reserved := use_reserved u; entry_count := as_u64 (entry_count u + 1) |}.

Definition store_mark (e : Z) (s : store) : bool * store :=
  let b := default 0 (usage_bits s !! e) in
  ((b =? 0) || (b =? 1),
   mkStore (rows s) (row_capacity s) (objects s)
     (if b =? 0 then <[e := 1]> (usage_bits s) else usage_bits s)
     (current s) (clock s) (racer s)).

(** The rows once the other probe's insertion has happened. *)
Definition raced (s : store) : gmap CallerObjectKey CallerObjectUse :=
  match racer s with
  | Some (k, u) => match rows s !! k with None => <[k := u]> (rows s) | Some _ => rows s end
  | None => rows s
  end.

Definition store_insert (k : CallerObjectKey) (v : CallerObjectUse) (s : store)
    : option PairInsertError * store :=
  let m := raced s in
  match m !! k with
  | Some _ => (Some Exists, with_rows s m)
  | None => if (row_capacity s <=? size m)%nat then (Some Failed, with_rows s m)
            else (None, with_rows s (<[k := v]> m))
  end.

#[export] Instance store_io : CallerEntryIo store CallerObjectKey := {|
  endpoint_object e s := (objects s !! e, s);
  mark_usage := store_mark;
  current_identity s := (current s, s);
  lookup_row k s := ((λ v, (k, v)) <$> rows s !! k, s);
  insert_noexist := store_insert;
  now_ns s := (clock s, s);
  count_entry k s := (tt, with_rows s (alter bump k (rows s)));
|}.

(** A row records a valid key and witness, and its count is in range. *)
Definition row_ok (objs : gmap Z EndpointObject) (cap : Z) (k : CallerObjectKey)
    (u : CallerObjectUse) : Prop :=
  CallerObjectKey_is_valid k = true ∧ CallerObjectUse_is_valid u cap = true ∧
  (objs !! witness_endpoint u ≫= committed_object_id) = Some (key_object_id k) ∧
  1 <= entry_count u <= CALLER_ENTRY_COUNT_SATURATED.

Record store_ok (cap : Z) (s : store) : Prop := {
  rows_ok : map_Forall (row_ok (objects s) cap) (rows s);
  racer_ok : ∀ k u, racer s = Some (k, u) → row_ok (objects s) cap k u;
}.

Definition count_of (m : gmap CallerObjectKey CallerObjectUse) (k : CallerObjectKey) : Z :=
  default 0 (entry_count <$> m !! k).

Definition caller_key (i : ImageIdentity) (oid : Z) : CallerObjectKey :=
  {| image := i; key_object_id := oid; key_reserved := 0 |}.

Lemma raced_ok cap s : store_ok cap s → map_Forall (row_ok (objects s) cap) (raced s).
Proof.
  intros [Hr Hk]. unfold raced. destruct (racer s) as [[k u]|]; [|done].
  destruct (rows s !! k) eqn:?; [done|]. apply map_Forall_insert_2; auto.
Qed.

Lemma with_rows_ok cap s m :
  map_Forall (row_ok (objects s) cap) m → store_ok cap (with_rows s m).
Proof. intros H. by split. Qed.

Lemma bump_ok objs cap k u :
  row_ok objs cap k u → counts_another_entry u = true →
  row_ok objs cap k (bump u) ∧ entry_count (bump u) = entry_count u + 1.
Proof.
  unfold row_ok, counts_another_entry, CALLER_ENTRY_COUNT_SATURATED.
  change (1 << 63) with (2 ^ 63). intros (? & ? & ? & ?) ?. bprop.
  assert (entry_count (bump u) = entry_count u + 1) as Hb by (simpl; word_lia).
  rewrite Hb. split_and!; auto; lia.
Qed.

Definition counted_on (m m' : gmap CallerObjectKey CallerObjectUse) (k : CallerObjectKey) : Prop :=
  (∀ k', k' ≠ k → m' !! k' = m !! k') ∧
  count_of m' k = Z.min (count_of m k + 1) CALLER_ENTRY_COUNT_SATURATED.

Lemma count_pair_store cap tgid k u s r s' :
  store_ok cap s → rows s !! k = Some u →
  count_pair_with k k u cap tgid s = (r, s') →
  store_ok cap s' ∧
  match r with inl _ => rows s' = rows s | inr _ => counted_on (rows s) (rows s') k end.
Proof.
  intros Hok Hk. pose proof (map_Forall_lookup_1 _ _ _ _ (rows_ok _ _ Hok) Hk) as Hu.
  unfold count_pair_with.
  destruct (CallerObjectUse_is_valid u cap && _); [|by intros [= <- <-]].
  unfold mbind, se_mbind, se_bind, se_lift; simpl.
  case_decide; [|by intros [= <- <-]].
  destruct (counts_another_entry u) eqn:Hc; intros [= <- <-]; simpl.
  - destruct (bump_ok _ _ _ _ Hu Hc) as [Hb Hcnt]. split.
    + apply with_rows_ok. intros k' u'. rewrite lookup_alter. case_decide; subst.
      * rewrite Hk. by intros [= <-].
      * apply (rows_ok _ _ Hok).
    + split; [intros k' ?; by rewrite lookup_alter_ne|].
      unfold count_of. rewrite lookup_alter_eq, Hk.
      change (entry_count (bump u) = Z.min (entry_count u + 1) CALLER_ENTRY_COUNT_SATURATED).
      rewrite Hcnt.
      unfold counts_another_entry in Hc. bprop. lia.
  - split; [done|]. split; [done|]. unfold count_of. rewrite Hk. simpl.
    unfold counts_another_entry in Hc. destruct Hu as (_ & _ & _ & ?). bprop. lia.
Qed.

Lemma store_mark_frame cap e s :
  store_ok cap s → let s1 := (store_mark e s).2 in
  store_ok cap s1 ∧ rows s1 = rows s ∧ raced s1 = raced s ∧ objects s1 = objects s ∧
  current s1 = current s ∧ row_capacity s1 = row_capacity s ∧ clock s1 = clock s.
Proof. intros [? ?]. by split_and!. Qed.

Lemma rows_with_rows s m : rows (with_rows s m) = m.
Proof. done. Qed.

Ltac red_store := cbn -[store_mark store_insert raced with_rows count_pair_with
  committed_object_id CallerObjectUse_is_valid nz].

(** On a bounded store with a concurrent probe, the rows stay well formed,
    and a recorded entry adds exactly one to the count of the row of the current
    image and the endpoint's committed object (saturating at the ceiling) and
    changes no other row; an entry that is refused leaves every row as it was,
    apart from the row the other probe inserted. *)
Theorem record_caller_use_store endpoint cap tgid s :
  store_ok cap s →
  let '(r, s') := record_caller_use_with endpoint cap tgid s in
  store_ok cap s' ∧
  match r with
  | inl _ => rows s' = rows s ∨ rows s' = raced s
  | inr _ => ∃ i oid, current s = Some i ∧
      (objects s !! endpoint ≫= committed_object_id) = Some oid ∧
      (counted_on (rows s) (rows s') (caller_key i oid) ∨
       counted_on (raced s) (rows s') (caller_key i oid))
  end.
Proof.
  intros Hok. unfold record_caller_use_with, mbind, se_mbind, se_bind, se_lift.
  destruct (Z.leb_spec cap endpoint) as [|Hlt]; red_store; [by auto|].
  destruct (option_bind _ _ _ _) as [oid|] eqn:Hoid; red_store; [|by auto].
  destruct (store_mark_frame cap endpoint s Hok) as (Hok1 & Hr1 & Hrc1 & Ho1 & Hc1 & _ & _).
  destruct (store_mark endpoint s) as [marked s1]; simpl in *.
  destruct marked; red_store; [|rewrite Hr1; by auto].
  destruct (current s1) as [i|] eqn:Hi; red_store; [|rewrite Hr1; by auto].
  destruct (nz (task_cookie i)) eqn:Hz; red_store; [|rewrite Hr1; by auto].
  fold (caller_key i oid). set (k := caller_key i oid).
  destruct (rows s1 !! k) as [u|] eqn:Hk; red_store.
  { destruct (count_pair_with k k u cap tgid s1) as [r s2] eqn:Hc.
    destruct (count_pair_store _ _ _ _ _ _ _ Hok1 Hk Hc) as [? Hm]. split; [done|].
    rewrite Hr1 in Hm. destruct r; [by auto|]. exists i, oid. auto. }
  match goal with |- context [CallerObjectUse_is_valid ?v cap] =>
    destruct (CallerObjectUse_is_valid v cap) eqn:Hv; red_store; [|rewrite Hr1; by auto] end.
  unfold store_insert. pose proof (raced_ok _ _ Hok1) as Hm.
  destruct (raced s1 !! k) as [u|] eqn:Hrk; red_store.
  - rewrite rows_with_rows, Hrk. red_store.
    destruct (count_pair_with k k u cap tgid _) as [r s2] eqn:Hc.
    destruct (count_pair_store _ _ _ _ _ _ _ (with_rows_ok _ _ _ Hm) Hrk Hc) as [? Hm2].
    split; [done|]. rewrite rows_with_rows, Hrc1 in Hm2. destruct r; [by auto|]. exists i, oid. auto.
  - destruct (_ <=? _)%nat; red_store; [split; [by apply with_rows_ok|]; rewrite rows_with_rows, Hrc1; auto|].
    split.
    + apply with_rows_ok, map_Forall_insert_2; [|done].
      split_and!; [|done|by simpl; rewrite Ho1|simpl; done..].
      unfold CallerObjectKey_is_valid. simpl. by rewrite Hz.
    + exists i, oid. split_and!; [done..|]. right. rewrite <- Hrc1, rows_with_rows. split.
      * intros k' ?. by rewrite lookup_insert_ne.
      * unfold count_of. fold k. by rewrite lookup_insert_eq, Hrk.
Qed.

Definition demo_store : store :=
  mkStore ∅ 8 {[ 3 := {| object_id := 7; class := 1 |} ]} ∅
    (Some {| task_cookie := 11; exec_id := 0 |}) 900 None.

Lemma record_caller_use_store_witness :
  ∃ i oid, current demo_store = Some i ∧
    (objects demo_store !! 3 ≫= committed_object_id) = Some oid ∧
    counted_on ∅ (rows (record_caller_use_with 3 16 4242 demo_store).2) (caller_key i oid).
Proof.
  destruct (record_caller_use_store 3 16 4242 demo_store) as
    [_ (i & oid & Hi & Ho & [Hc|Hc])]; [by split|exists i, oid; auto..].
Defined.
