(* ===== verification/Discovery.v ===== *)
(** * The discovery transport

    The discovery half of [crates/ebpf-common/src/lib.rs]: EXEC classification,
    loader cookies and tokens, the interface-list continuation word carried
    through BPF tail calls, and the structural validation of the 920-byte
    [DiscoveryRecord] that crosses the ring. *)
From S2P Require Import Prelude.

Definition DISCOVERY_KIND_FUNCTION_LIST_RETURN : Z := 1.
Definition DISCOVERY_KIND_INTERFACE_LIST_ELEMENT_RETURN : Z := 2.
Definition DISCOVERY_KIND_LOADER : Z := 3.
Definition DISCOVERY_KIND_INTERFACE_RETURN : Z := 4.
Definition DISCOVERY_KIND_EXEC : Z := 5.
Definition DISCOVERY_KIND_LEADER_EXIT : Z := 6.
Definition DISCOVERY_KIND_LEADER_EXIT_MAPPINGS : Z := 7.

Definition DISCOVERY_EXEC_UNKNOWN : Z := 0.
Definition DISCOVERY_EXEC_SAME_TASK_CANDIDATE : Z := 1.
Definition DISCOVERY_EXEC_TASK_REPLACED : Z := 2.

Definition DISCOVERY_NAME_NA : Z := 0.
Definition DISCOVERY_NAME_EXACT_STANDARD : Z := 1.
Definition DISCOVERY_NAME_OTHER : Z := 2.
Definition DISCOVERY_NAME_NULL : Z := 3.
Definition DISCOVERY_NAME_UNREADABLE : Z := 4.

Definition DISCOVERY_VERSION_NULL : Z := 0.
Definition DISCOVERY_VERSION_UNREADABLE : Z := 1.
Definition DISCOVERY_VERSION_V2_40 : Z := 2.
Definition DISCOVERY_VERSION_V3_0 : Z := 3.
Definition DISCOVERY_VERSION_V3_1 : Z := 4.
Definition DISCOVERY_VERSION_V3_2 : Z := 5.
Definition DISCOVERY_VERSION_OTHER : Z := 6.

Definition DISCOVERY_STATUS_READ_FAILURE : Z := 0x01.
Definition DISCOVERY_STATUS_COALESCED_NO_HELPER : Z := 0x02.
Definition DISCOVERY_STATUS_LOADER_CONTEXT_INVALID : Z := 0x04.
Definition DISCOVERY_STATUS_EXIT_MAP_SHARED_MM : Z := 0x08.
Definition DISCOVERY_STATUS_EXIT_MAP_OVERFLOW : Z := 0x10.
Definition DISCOVERY_STATUS_EXIT_MAP_LOCAL_FAULT : Z := 0x20.
Definition DISCOVERY_STATUS_EXIT_MAP_HOOKS_REFUSED : Z := 0x40.
Definition DISCOVERY_STATUS_LOADER_ACK_PENDING : Z := 0x80.

Definition PAUSE_REQUESTED : Z := 2.
Definition FLAG_PAUSE_ENABLED : Z := 1 << 5.
(** [i64::MIN] *)
Definition COALESCED_NO_HELPER_RC : Z := - 2 ^ 63.
Definition DISCOVERY_POINTERS : Z := 104.
Definition DISCOVERY_INTERFACES : Z := 16.
Definition LOADER_STATE_PRESENT : Z := 1 << 8.
Definition LOADER_STATE_SHIFT : Z := 9.
Definition LOADER_STATE_ABSENT_SENTINEL : Z := 1.
Definition LOADER_TOKEN_MAX : Z := 0xffffffffff.
Definition IMAGE_IDENTITY_TICKET_LIMIT : Z := 16384.
Definition FILE_SLOTS : Z := 1024.
Definition RECORD_SLOTS : nat := 8.

(** ** EXEC classification *)

Definition valid_exec_leader (pid_tgid : Z) : bool :=
  let tid := as_u32 pid_tgid in
  nz tid && (tid <=? I32_MAX) && (tid =? as_u32 (pid_tgid >> 32)).

Definition classify_exec_task (old_pid pid_tgid user_dumpable : Z) : Z :=
  if (old_pid =? 0) || (I32_MAX <? old_pid) || negb (valid_exec_leader pid_tgid)
  then DISCOVERY_EXEC_UNKNOWN
  else if negb (old_pid =? as_u32 pid_tgid) then DISCOVERY_EXEC_TASK_REPLACED
  else if user_dumpable =? 1 then DISCOVERY_EXEC_SAME_TASK_CANDIDATE
  else DISCOVERY_EXEC_UNKNOWN.

(** ** Acquisition bounds *)

Definition discovery_table_slots (kind version_major version_minor : Z) : Z :=
  if kind =? DISCOVERY_KIND_FUNCTION_LIST_RETURN then 68
  else if (kind =? DISCOVERY_KIND_INTERFACE_LIST_ELEMENT_RETURN)
       || (kind =? DISCOVERY_KIND_INTERFACE_RETURN) then
    if (version_major =? 3) && ((version_minor =? 0) || (version_minor =? 1)) then 92
    else if (version_major =? 3) && (2 <=? version_minor) then 104
    else 68
  else 0.

Definition discovery_version_class (major minor : Z) : Z :=
  if (major =? 2) && (minor =? 40) then DISCOVERY_VERSION_V2_40
  else if (major =? 3) && (minor =? 0) then DISCOVERY_VERSION_V3_0
  else if (major =? 3) && (minor =? 1) then DISCOVERY_VERSION_V3_1
  else if (major =? 3) && (minor =? 2) then DISCOVERY_VERSION_V3_2
  else DISCOVERY_VERSION_OTHER.

Definition discovery_usable_prefix (_read_failed : bool) (completed : Z) : Z := completed.

(** ** Loader cookies *)

Definition valid_loader_cookie (cookie : Z) : bool :=
  let state_present := nz (cookie &' LOADER_STATE_PRESENT) in
  let payload := cookie >> LOADER_STATE_SHIFT in
  nz cookie && (state_present || (payload =? LOADER_STATE_ABSENT_SENTINEL)).

Definition valid_loader_token (cookie : Z) : bool :=
  nz cookie && (cookie <=? LOADER_TOKEN_MAX) && nz (cookie >> 8).

Definition valid_loader_binding (binding : Z) : bool :=
  (binding =? 0) || valid_loader_cookie binding || valid_loader_token binding.

Definition discovery_pause_enabled (eligible : bool) (flags generation_token : Z) : bool :=
  eligible && nz (flags &' FLAG_PAUSE_ENABLED) && nz generation_token.

Definition discovery_pause_coalesced (previous : Z) (won : bool) : bool :=
  negb won && (previous =? PAUSE_REQUESTED).

Definition discovery_state_take_failed (state_present removed : bool) : bool :=
  negb state_present || negb removed.

Definition discovery_state_take_scope_lost (state_present removed scoped : bool) : bool :=
  state_present && removed && negb scoped.

(** ** The interface-list continuation *)

Definition interface_continuation_pack (announced_count index symbol_id : Z) : option Z :=
  if (symbol_id =? 0) || (0x00ffffff <? symbol_id) then None else
  let saturated_count := if U32_MAX <? announced_count then U32_MAX else as_u32 announced_count in
  Some (((symbol_id << 40) |' (saturated_count << 8)) |' index).

Definition active_count (announced_count : Z) : Z :=
  if announced_count <? DISCOVERY_INTERFACES then announced_count else DISCOVERY_INTERFACES.

Definition interface_continuation_unpack (value : Z) : option (Z * Z * Z) :=
  let symbol_id := as_u32 (value >> 40) in
  if symbol_id =? 0 then None else
  let announced_count := as_u32 ((value >> 8) &' U32_MAX) in
  let index := as_u8 value in
  if (DISCOVERY_INTERFACES <=? index) || (active_count announced_count <=? index) then None
  else Some (announced_count, index, symbol_id).

Definition interface_continuation_next (value : Z) : option Z :=
  '(announced_count, index, symbol_id) ← interface_continuation_unpack value;
  let next := index + 1 in
  if active_count announced_count <=? next then None
  else interface_continuation_pack announced_count next symbol_id.

(** ** Records *)

(** [pointers] is the array of 104 words; [reserved_zero] and
    [reserved_tail_zero] are the explicit padding bytes. *)
Record DiscoveryRecord := mkDiscoveryRecord {
  hook_ts_ns : Z;
  pid_tgid : Z;
  table_ptr : Z;
  interface_flags : Z;
  pointers : list Z;
  kind : Z;
  case_id : Z;
  interface_index : Z;
  name_class : Z;
  status_flags : Z;
  usable_n : Z;
  pointers_attempted : Z;
  completed_prefix : Z;
  version_major : Z;
  version_minor : Z;
  selection_version_class : Z;
  reserved_zero : list Z;
  symbol_id : Z;
  announced_count : Z;
  reserved_tail_zero : list Z;
  send_signal_rc : Z;
  return_rv : Z;
  request_flags : Z;
  binding_id : Z;
}.

Definition exec_task_ticket (r : DiscoveryRecord) : option Z :=
  if (kind r =? DISCOVERY_KIND_EXEC) && nz (binding_id r)
     && (binding_id r <=? IMAGE_IDENTITY_TICKET_LIMIT)
  then Some (binding_id r) else None.

Definition all_zero (l : list Z) : bool := forallb (λ p, p =? 0) l.

Definition zero_discovery_scalar_payload (r : DiscoveryRecord) : bool :=
  (table_ptr r =? 0)
  && (interface_flags r =? 0)
  && (interface_index r =? 0)
  && (name_class r =? DISCOVERY_NAME_NA)
  && (usable_n r =? 0)
  && (pointers_attempted r =? 0)
  && (completed_prefix r =? 0)
  && (version_major r =? 0)
  && (version_minor r =? 0)
  && (selection_version_class r =? 0)
  && (symbol_id r =? 0)
  && (return_rv r =? 0)
  && (request_flags r =? 0).

Definition zero_discovery_payload_except_binding (r : DiscoveryRecord) : bool :=
  zero_discovery_scalar_payload r && all_zero (pointers r).

Definition zero_discovery_payload (r : DiscoveryRecord) : bool :=
  (binding_id r =? 0) && zero_discovery_payload_except_binding r.

Definition zero_discovery_exec_tail (r : DiscoveryRecord) : bool :=
  zero_discovery_scalar_payload r && all_zero (drop 2 (pointers r)).

Definition zero_selection_payload (r : DiscoveryRecord) : bool :=
  (return_rv r =? 0)
  && (request_flags r =? 0)
  && (binding_id r =? 0)
  && (selection_version_class r =? 0).

Definition valid_export_prefix (r : DiscoveryRecord) : bool :=
  let pointer_limit :=
    if kind r =? DISCOVERY_KIND_FUNCTION_LIST_RETURN then 68 else DISCOVERY_POINTERS in
  if (pointer_limit <? pointers_attempted r)
     || (pointers_attempted r <? completed_prefix r)
     || negb (usable_n r =? completed_prefix r)
  then false
  else all_zero (drop (Z.to_nat (completed_prefix r)) (pointers r)).

Definition DISCOVERY_INTERFACE_FLAGS_ZERO : Z := 0.
Definition DISCOVERY_INTERFACE_FLAGS_FORK_SAFE : Z := 1.
Definition DISCOVERY_INTERFACE_FLAGS_OTHER : Z := 2.

Definition interface_flags_class (flags : Z) : Z :=
  if DISCOVERY_INTERFACE_FLAGS_FORK_SAFE <? flags then DISCOVERY_INTERFACE_FLAGS_OTHER
  else flags.

(** The four name classes of an interface name. *)
Definition interface_name (c : Z) : bool :=
  (c =? DISCOVERY_NAME_EXACT_STANDARD)
  || (c =? DISCOVERY_NAME_OTHER)
  || (c =? DISCOVERY_NAME_NULL)
  || (c =? DISCOVERY_NAME_UNREADABLE).

(** The arms of [valid_discovery_record]'s [match record.kind]. *)

Definition valid_function_list_return (r : DiscoveryRecord) : bool :=
  (status_flags r <=? 0x03)
  && (case_id r =? 0)
  && (interface_index r =? 0)
  && (name_class r =? DISCOVERY_NAME_NA)
  && (interface_flags r =? 0)
  && nz (symbol_id r)
  && (announced_count r =? 0)
  && (nz (table_ptr r) || nz (status_flags r &' DISCOVERY_STATUS_READ_FAILURE))
  && zero_selection_payload r
  && valid_export_prefix r.

Definition valid_interface_list_element_return (r : DiscoveryRecord) : bool :=
  (status_flags r <=? 0x03)
  && (case_id r =? 0)
  && (interface_index r <? DISCOVERY_INTERFACES)
  && (interface_index r <? announced_count r)
  && interface_name (name_class r)
  && nz (symbol_id r)
  && zero_selection_payload r
  && valid_export_prefix r
  && ((name_class r =? DISCOVERY_NAME_EXACT_STANDARD)
      || ((usable_n r =? 0)
          && (pointers_attempted r =? 0)
          && (completed_prefix r =? 0)
          && (version_major r =? 0)
          && (version_minor r =? 0))).

Definition valid_loader (r : DiscoveryRecord) : bool :=
  (interface_flags r =? 0)
  && all_zero (pointers r)
  && (interface_index r =? 0)
  && (name_class r =? DISCOVERY_NAME_NA)
  && (usable_n r =? 0)
  && (pointers_attempted r =? 0)
  && (completed_prefix r =? 0)
  && (version_major r =? 0)
  && (version_minor r =? 0)
  && (symbol_id r =? 0)
  && (return_rv r =? 0)
  && (request_flags r =? 0)
  && valid_loader_binding (binding_id r)
  && (selection_version_class r =? 0)
  && if (status_flags r =? 0) || (status_flags r =? DISCOVERY_STATUS_COALESCED_NO_HELPER) then
       nz (table_ptr r) && (announced_count r <=? 2)
     else if status_flags r =? DISCOVERY_STATUS_LOADER_CONTEXT_INVALID then
       (table_ptr r =? 0)
       && (case_id r =? 0)
       && (announced_count r =? 0)
       && (send_signal_rc r =? 0)
       && (binding_id r =? 0)
     else if status_flags r =? DISCOVERY_STATUS_LOADER_ACK_PENDING then
       nz (table_ptr r) && (announced_count r =? 0) && valid_loader_token (binding_id r)
     else false.

Definition valid_interface_return (r : DiscoveryRecord) : bool :=
  (status_flags r <=? 0x03)
  && interface_name (case_id r)
  && (interface_index r <=? DISCOVERY_VERSION_OTHER)
  && (symbol_id r =? 0)
  && nz (binding_id r)
  && (announced_count r =? 0)
  && (version_major r =? 0)
  && (version_minor r =? 0)
  && (selection_version_class r <=? DISCOVERY_VERSION_OTHER)
  && valid_export_prefix r
  && if nz (return_rv r) then
       (status_flags r =? 0)
       && (table_ptr r =? 0)
       && (interface_flags r =? 0)
       && all_zero (pointers r)
       && (name_class r =? DISCOVERY_NAME_NA)
       && (selection_version_class r =? DISCOVERY_VERSION_NULL)
       && (usable_n r =? 0)
       && (pointers_attempted r =? 0)
       && (completed_prefix r =? 0)
     else
       interface_name (name_class r)
       && ((name_class r =? DISCOVERY_NAME_EXACT_STANDARD)
           || ((usable_n r =? 0)
               && (pointers_attempted r =? 0)
               && (completed_prefix r =? 0)))
       && (negb (name_class r =? DISCOVERY_NAME_UNREADABLE)
           || nz (status_flags r &' DISCOVERY_STATUS_READ_FAILURE))
       && ((DISCOVERY_VERSION_NULL <? selection_version_class r)
           || (nz (status_flags r &' DISCOVERY_STATUS_READ_FAILURE) && (table_ptr r =? 0)))
       && ((selection_version_class r =? DISCOVERY_VERSION_NULL)
           || (selection_version_class r =? DISCOVERY_VERSION_UNREADABLE)
           || nz (table_ptr r))
       && (negb (selection_version_class r =? DISCOVERY_VERSION_UNREADABLE)
           || nz (status_flags r &' DISCOVERY_STATUS_READ_FAILURE)).

Definition valid_exec (r : DiscoveryRecord) : bool :=
  ((status_flags r =? 0) || (status_flags r =? DISCOVERY_STATUS_COALESCED_NO_HELPER))
  && ((case_id r =? DISCOVERY_EXEC_UNKNOWN)
      || (case_id r =? DISCOVERY_EXEC_SAME_TASK_CANDIDATE)
      || (case_id r =? DISCOVERY_EXEC_TASK_REPLACED))
  && valid_exec_leader (pid_tgid r)
  && (announced_count r =? 0)
  && (binding_id r <=? IMAGE_IDENTITY_TICKET_LIMIT)
  && zero_discovery_exec_tail r.

Definition valid_leader_exit (r : DiscoveryRecord) : bool :=
  (status_flags r =? 0)
  && (case_id r =? 0)
  && (announced_count r =? 0)
  && (send_signal_rc r =? 0)
  && zero_discovery_payload r.

Definition EXIT_MAP_STATUS : Z :=
  ((DISCOVERY_STATUS_EXIT_MAP_SHARED_MM |' DISCOVERY_STATUS_EXIT_MAP_OVERFLOW)
   |' DISCOVERY_STATUS_EXIT_MAP_LOCAL_FAULT) |' DISCOVERY_STATUS_EXIT_MAP_HOOKS_REFUSED.

Definition valid_leader_exit_mappings (r : DiscoveryRecord) : bool :=
  (status_flags r &~ EXIT_MAP_STATUS =? 0)
  && (case_id r =? 0)
  && (announced_count r =? 0)
  && (send_signal_rc r =? 0)
  && (binding_id r =? 0)
  && forallb (λ cell, cell <=? FILE_SLOTS) (take RECORD_SLOTS (pointers r))
  && all_zero (drop RECORD_SLOTS (pointers r))
  && zero_discovery_scalar_payload r.

Definition valid_discovery_record (r : DiscoveryRecord) : bool :=
  if DISCOVERY_INTERFACE_FLAGS_OTHER <? interface_flags r then false else
  if negb (all_zero (reserved_zero r))
     || negb (all_zero (reserved_tail_zero r))
     || negb (Bool.eqb (nz (status_flags r &' DISCOVERY_STATUS_COALESCED_NO_HELPER))
                       (send_signal_rc r =? COALESCED_NO_HELPER_RC))
     || (negb (send_signal_rc r =? COALESCED_NO_HELPER_RC)
         && negb (send_signal_rc r =? as_i32 (send_signal_rc r)))
  then false else
  if kind r =? DISCOVERY_KIND_FUNCTION_LIST_RETURN then valid_function_list_return r
  else if kind r =? DISCOVERY_KIND_INTERFACE_LIST_ELEMENT_RETURN then
    valid_interface_list_element_return r
  else if kind r =? DISCOVERY_KIND_LOADER then valid_loader r
  else if kind r =? DISCOVERY_KIND_INTERFACE_RETURN then valid_interface_return r
  else if kind r =? DISCOVERY_KIND_EXEC then valid_exec r
  else if kind r =? DISCOVERY_KIND_LEADER_EXIT then valid_leader_exit r
  else if kind r =? DISCOVERY_KIND_LEADER_EXIT_MAPPINGS then valid_leader_exit_mappings r
  else false.

(** ** The continuation walks the bounded interface list *)

Lemma pack_sum sym cnt idx :
  in_width 24 sym → is_u32 cnt → is_u8 idx →
  ((sym << 40) |' (cnt << 8)) |' idx = sym * 2 ^ 40 + cnt * 2 ^ 8 + idx.
Proof.
  intros. rewrite shiftl_lor_add by word_lia.
  rewrite (lor_add 8 (sym * 2 ^ 32 + cnt)); rewrite ?Z.shiftl_mul_pow2; word_lia.
Qed.

Lemma pack_eq count idx sym :
  is_u64 count → is_u8 idx → 0 < sym < 2 ^ 24 →
  interface_continuation_pack count idx sym =
    Some (sym * 2 ^ 40 + Z.min count U32_MAX * 2 ^ 8 + idx).
Proof.
  intros. unfold interface_continuation_pack. zif; try word_lia.
  - rewrite pack_sum by word_lia. f_equal. word_lia.
  - assert (as_u32 count = count) as -> by word_lia.
    rewrite pack_sum by word_lia. f_equal. word_lia.
Qed.

Lemma unpack_eq sym cnt idx :
  0 < sym < 2 ^ 24 → is_u32 cnt → is_u8 idx →
  interface_continuation_unpack (sym * 2 ^ 40 + cnt * 2 ^ 8 + idx) =
    if active_count cnt <=? idx then None else Some (cnt, idx, sym).
Proof.
  intros. unfold interface_continuation_unpack, U32_MAX.
  rewrite land_ones_mod by lia.
  set (v := sym * 2 ^ 40 + cnt * 2 ^ 8 + idx).
  assert (as_u32 (v >> 40) = sym) as -> by (unfold v; word_lia).
  assert (as_u32 ((v >> 8) mod 2 ^ 32) = cnt) as -> by (unfold v; word_lia).
  assert (as_u8 v = idx) as -> by (unfold v; word_lia).
  unfold active_count, DISCOVERY_INTERFACES.
  destruct (Z.ltb_spec cnt 16); zif; try done; lia.
Qed.

(** The indices the tail-called worker is run with, starting from a word. *)
Fixpoint walk (fuel : nat) (value : Z) : list Z :=
  match fuel with
  | O => []
  | S fuel =>
      match interface_continuation_unpack value with
      | None => []
      | Some (_, index, _) =>
          index :: match interface_continuation_next value with
                   | Some value' => walk fuel value'
                   | None => []
                   end
      end
  end.

Lemma walk_from fuel sym cnt idx :
  0 < sym < 2 ^ 24 → is_u32 cnt → 0 <= idx < active_count cnt →
  active_count cnt - idx <= Z.of_nat fuel →
  walk fuel (sym * 2 ^ 40 + cnt * 2 ^ 8 + idx) = seqZ idx (active_count cnt - idx).
Proof.
  intros Hs Hc. revert idx. induction fuel as [|fuel IH]; intros idx Hi Hf; [lia|].
  assert (active_count cnt <= 16) by (unfold active_count, DISCOVERY_INTERFACES; zif; lia).
  cbn [walk]. unfold interface_continuation_next.
  rewrite unpack_eq by word_lia. destruct (Z.leb_spec (active_count cnt) idx); [lia|].
  cbn [mbind option_bind].
  rewrite (seqZ_cons idx) by lia. f_equal.
  destruct (Z.leb_spec (active_count cnt) (idx + 1)).
  - by rewrite seqZ_nil by lia.
  - rewrite pack_eq by word_lia.
    replace (Z.min cnt U32_MAX) with cnt by word_lia.
    rewrite IH by lia. f_equal; lia.
Qed.

(** The interface-list continuation visits every announced interface once,
    in order, and never more than sixteen: from the first packed word, unpacking
    and advancing yields exactly the indices [0 .. min(count, 16) - 1] and then
    stops, whatever the announced count. *)
Theorem interface_continuation_walk count sym :
  is_u64 count → 0 < sym < 2 ^ 24 →
  ∃ first, interface_continuation_pack count 0 sym = Some first ∧ is_u64 first ∧
    ∀ fuel, (16 <= fuel)%nat → walk fuel first = seqZ 0 (Z.min count 16).
Proof.
  intros Hc Hs. rewrite pack_eq by (done || word_lia). eexists; split; [done|].
  split; [word_lia|]. intros fuel Hf.
  destruct (Z.eq_dec count 0) as [->|Hnz].
  - destruct fuel as [|fuel]; [lia|]. cbn [walk].
    replace (Z.min 0 U32_MAX) with 0 by done. rewrite unpack_eq by word_lia. done.
  - assert (active_count (Z.min count U32_MAX) = Z.min count 16) as Ha.
    { unfold active_count, DISCOVERY_INTERFACES. zif; word_lia. }
    rewrite walk_from; rewrite ?Ha; try word_lia. f_equal; lia.
Qed.

Lemma interface_continuation_walk_witness :
  ∃ first, interface_continuation_pack 3 0 7 = Some first ∧ is_u64 first ∧
    ∀ fuel, (16 <= fuel)%nat → walk fuel first = [0; 1; 2].
Proof. apply (interface_continuation_walk 3 7); [done|lia]. Defined.

(** ** EXEC candidates *)

(** An EXEC is a same-task candidate exactly when the checked old pid, the
    thread id and the thread-group id are one positive 31-bit number and the
    dumpability predicate is exactly 1; a replaced task is reported exactly when
    the ids are well formed and the old pid differs. *)
Theorem classify_exec_task_spec old tid tgid dumpable :
  is_u64 old → is_u32 tid → is_u32 tgid →
  let c := classify_exec_task old (tgid * 2 ^ 32 + tid) dumpable in
  (c = DISCOVERY_EXEC_SAME_TASK_CANDIDATE ↔
     old = tid ∧ tid = tgid ∧ 0 < tid < 2 ^ 31 ∧ dumpable = 1) ∧
  (c = DISCOVERY_EXEC_TASK_REPLACED ↔
     old ≠ tid ∧ tid = tgid ∧ 0 < tid < 2 ^ 31 ∧ 0 < old < 2 ^ 31).
Proof.
  intros Ho Ht Hg. unfold classify_exec_task, valid_exec_leader,
    DISCOVERY_EXEC_SAME_TASK_CANDIDATE, DISCOVERY_EXEC_TASK_REPLACED, DISCOVERY_EXEC_UNKNOWN, nz.
  assert (as_u32 (tgid * 2 ^ 32 + tid) = tid) as -> by word_lia.
  assert (as_u32 ((tgid * 2 ^ 32 + tid) >> 32) = tgid) as -> by word_lia.
  cbv zeta. zif; word_lia.
Qed.

Lemma classify_exec_task_spec_witness :
  classify_exec_task 77 (77 * 2 ^ 32 + 77) 1 = DISCOVERY_EXEC_SAME_TASK_CANDIDATE.
Proof. apply (classify_exec_task_spec 77 77 77 1); [done..|lia]. Defined.

(** ** Accepted records own what they carry *)

Lemma all_zero_lookup l i x : all_zero l = true → l !! i = Some x → x = 0.
Proof.
  unfold all_zero. rewrite forallb_forall. intros H Hi.
  apply Z.eqb_eq, H, list_elem_of_In. by eapply list_elem_of_lookup_2.
Qed.

Lemma all_zero_drop l (n : nat) i x :
  all_zero (drop n l) = true → (n <= i)%nat → l !! i = Some x → x = 0.
Proof.
  intros H Hi Hx. apply (all_zero_lookup _ (i - n) x H).
  rewrite lookup_drop. by replace (n + (i - n))%nat with i by lia.
Qed.

(** How many pointer words the record's kind may populate. *)
Definition owned (r : DiscoveryRecord) : Z :=
  if kind r =? DISCOVERY_KIND_EXEC then 2
  else if kind r =? DISCOVERY_KIND_LEADER_EXIT_MAPPINGS then 8
  else completed_prefix r.

Definition pointers_bounded (r : DiscoveryRecord) : Prop :=
  usable_n r = completed_prefix r ∧
  completed_prefix r <= pointers_attempted r <= DISCOVERY_POINTERS.

Lemma valid_export_prefix_bounds r :
  valid_export_prefix r = true →
  pointers_bounded r ∧ all_zero (drop (Z.to_nat (completed_prefix r)) (pointers r)) = true.
Proof.
  unfold valid_export_prefix, pointers_bounded, DISCOVERY_POINTERS.
  destruct (kind r =? _); zif; try done; intros; split; auto; lia.
Qed.

(** What the arm of each kind guarantees. *)
Definition arm_ok (r : DiscoveryRecord) : Prop :=
  pointers_bounded r ∧
  all_zero (drop (Z.to_nat (owned r)) (pointers r)) = true ∧
  (binding_id r ≠ 0 → 3 <= kind r <= 5) ∧
  (kind r = DISCOVERY_KIND_EXEC → binding_id r <= IMAGE_IDENTITY_TICKET_LIMIT ∧
                                  valid_exec_leader (pid_tgid r) = true).

Lemma arm_prefix r :
  kind r = 1 ∨ kind r = 2 ∨ kind r = 4 → valid_export_prefix r = true →
  (kind r ≠ 4 → binding_id r = 0) → arm_ok r.
Proof.
  intros Hk Hp Hb. apply valid_export_prefix_bounds in Hp as [Hp Hz].
  unfold arm_ok, owned, DISCOVERY_KIND_EXEC, DISCOVERY_KIND_LEADER_EXIT_MAPPINGS.
  split_and!; [done| |lia|lia]. zif; try done; lia.
Qed.

Lemma arm_function_list r :
  kind r = DISCOVERY_KIND_FUNCTION_LIST_RETURN → valid_function_list_return r = true → arm_ok r.
Proof.
  intros Hk. unfold valid_function_list_return, zero_selection_payload. bprop. intros.
  apply arm_prefix; [by left|tauto|tauto].
Qed.

Lemma arm_interface_list r :
  kind r = DISCOVERY_KIND_INTERFACE_LIST_ELEMENT_RETURN →
  valid_interface_list_element_return r = true → arm_ok r.
Proof.
  intros Hk. unfold valid_interface_list_element_return, zero_selection_payload.
  rewrite !andb_true_iff. bprop. intros.
  apply arm_prefix; [by right; left|tauto|tauto].
Qed.

Lemma arm_interface r :
  kind r = DISCOVERY_KIND_INTERFACE_RETURN → valid_interface_return r = true → arm_ok r.
Proof.
  intros Hk. unfold valid_interface_return. rewrite !andb_true_iff. intros.
  apply arm_prefix; [by right; right|tauto|intros []; done].
Qed.

(** The kinds without a prefix: the scalar payload is zero, so only the pointer
    words and the binding remain. *)
Lemma arm_plain r :
  3 <= kind r <= 7 → kind r ≠ 4 →
  usable_n r = 0 → pointers_attempted r = 0 → completed_prefix r = 0 →
  all_zero (drop (Z.to_nat (owned r)) (pointers r)) = true →
  (kind r ≠ 3 → kind r ≠ 5 → binding_id r = 0) →
  (kind r = 5 → binding_id r <= IMAGE_IDENTITY_TICKET_LIMIT ∧
                valid_exec_leader (pid_tgid r) = true) →
  arm_ok r.
Proof.
  intros. unfold arm_ok, pointers_bounded, DISCOVERY_POINTERS. split_and!; auto; lia.
Qed.

Lemma arm_loader r :
  kind r = DISCOVERY_KIND_LOADER → valid_loader r = true → arm_ok r.
Proof.
  intros Hk. unfold valid_loader. rewrite !andb_true_iff, !Z.eqb_eq. intros.
  destruct_and!. apply arm_plain; unfold DISCOVERY_KIND_LOADER in Hk; try lia; auto.
  unfold owned. rewrite Hk. simpl. by replace (completed_prefix r) with 0.
Qed.

Lemma arm_exec r :
  kind r = DISCOVERY_KIND_EXEC → valid_exec r = true → arm_ok r.
Proof.
  intros Hk. unfold valid_exec, zero_discovery_exec_tail, zero_discovery_scalar_payload.
  rewrite !andb_true_iff, !Z.eqb_eq, Z.leb_le. intros. destruct_and!.
  apply arm_plain; unfold DISCOVERY_KIND_EXEC in Hk; try lia; auto.
  unfold owned. by rewrite Hk.
Qed.

Lemma arm_leader_exit r :
  kind r = DISCOVERY_KIND_LEADER_EXIT → valid_leader_exit r = true → arm_ok r.
Proof.
  intros Hk. unfold valid_leader_exit, zero_discovery_payload,
    zero_discovery_payload_except_binding, zero_discovery_scalar_payload.
  rewrite !andb_true_iff, !Z.eqb_eq. intros. destruct_and!.
  apply arm_plain; unfold DISCOVERY_KIND_LEADER_EXIT in Hk; try lia; auto.
  unfold owned. rewrite Hk. simpl. by replace (completed_prefix r) with 0.
Qed.

Lemma arm_leader_exit_mappings r :
  kind r = DISCOVERY_KIND_LEADER_EXIT_MAPPINGS → valid_leader_exit_mappings r = true → arm_ok r.
Proof.
  intros Hk. unfold valid_leader_exit_mappings, zero_discovery_scalar_payload.
  rewrite !andb_true_iff, !Z.eqb_eq. intros. destruct_and!.
  apply arm_plain; unfold DISCOVERY_KIND_LEADER_EXIT_MAPPINGS in Hk; try lia; auto.
  unfold owned. by rewrite Hk.
Qed.

(** The decision of [valid_discovery_record], one arm per kind. *)
Lemma valid_discovery_record_arm r :
  valid_discovery_record r = true → 1 <= kind r <= 7 ∧ arm_ok r.
Proof.
  unfold valid_discovery_record. intros H.
  destruct (_ <? _); [done|]. destruct (_ || _); [done|].
  repeat match type of H with
  | (if ?a =? ?k then _ else _) = true =>
      destruct (Z.eqb_spec a k) as [Hk|_];
      [split; [rewrite Hk; done|];
       eauto using arm_function_list, arm_interface_list, arm_loader, arm_interface,
         arm_exec, arm_leader_exit, arm_leader_exit_mappings|]
  end; done.
Qed.

(** A record the validator accepts carries a known kind, at most three
    interface-flag classes and zero reserved bytes; its pointer prefix is
    bounded and every pointer word beyond the part its kind owns is zero; only
    LOADER, INTERFACE_RETURN and EXEC records bind an id, an EXEC's within the
    ticket range and from a thread-group leader; and its helper result is an
    [i32] or the coalesced sentinel, which appears exactly under its status. *)
Theorem valid_discovery_record_owns r :
  valid_discovery_record r = true →
  1 <= kind r <= 7 ∧
  interface_flags r <= 2 ∧
  pointers_bounded r ∧
  (∀ i x, pointers r !! i = Some x → owned r <= Z.of_nat i → x = 0) ∧
  (binding_id r ≠ 0 → 3 <= kind r <= 5) ∧
  (kind r = DISCOVERY_KIND_EXEC →
     binding_id r <= IMAGE_IDENTITY_TICKET_LIMIT ∧ valid_exec_leader (pid_tgid r) = true) ∧
  (∀ i x, reserved_zero r !! i = Some x → x = 0) ∧
  (send_signal_rc r = as_i32 (send_signal_rc r) ∨
   send_signal_rc r = COALESCED_NO_HELPER_RC ∧
   status_flags r &' DISCOVERY_STATUS_COALESCED_NO_HELPER ≠ 0).
Proof.
  intros H. pose proof (valid_discovery_record_arm _ H) as (Hk & Hb & Hz & Hbind & Hexec).
  revert H. unfold valid_discovery_record, DISCOVERY_INTERFACE_FLAGS_OTHER.
  destruct (Z.ltb_spec 2 (interface_flags r)); [done|].
  destruct (all_zero (reserved_zero r)) eqn:Hres; [|done].
  match goal with |- (if ?b then false else _) = true → _ => destruct b eqn:Hrc; [done|] end.
  intros _. split_and!; auto; try lia; [|by eauto using all_zero_lookup|].
  - intros i x Hx Hi. eapply all_zero_drop; [exact Hz| |exact Hx]. lia.
  - apply orb_false_iff in Hrc as [[_ Hc]%orb_false_iff Hi].
    destruct (Z.eqb_spec (send_signal_rc r) COALESCED_NO_HELPER_RC) as [e|].
    + right. split; [done|]. intros Hz0. unfold nz in Hc. by rewrite Hz0 in Hc.
    + left. cbn [negb andb] in Hi.
      by destruct (Z.eqb_spec (send_signal_rc r) (as_i32 (send_signal_rc r))).
Qed.

(** An EXEC of leader 77 that binds ticket 5. *)
Definition exec_record : DiscoveryRecord :=
  mkDiscoveryRecord 9 (77 * 2 ^ 32 + 77) 0 0 (replicate 104 0) DISCOVERY_KIND_EXEC
    DISCOVERY_EXEC_SAME_TASK_CANDIDATE 0 0 0 0 0 0 0 0 0 [0] 0 0 [0; 0; 0; 0] (-1) 0 0 5.

Lemma valid_discovery_record_owns_witness :
  valid_discovery_record exec_record = true ∧ binding_id exec_record <= IMAGE_IDENTITY_TICKET_LIMIT.
Proof.
  assert (valid_discovery_record exec_record = true) as H by (vm_compute; reflexivity).
  split; [exact H|].
  destruct (valid_discovery_record_owns exec_record H) as (_ & _ & _ & _ & _ & He & _).
  exact (proj1 (He eq_refl)).
Defined.
