(* ===== verification/Bytes.v ===== *)
(** * Byte slices and number text

    The parts of Rust's standard library on [&[u8]] and integers that the
    parsers and the wire formats use: splitting, trimming and searching slices,
    UTF-8 validity, [from_str_radix], the binary search behind
    [partition_point], and little-endian words.  A byte is a [Z] below 256. *)
From S2P Require Import Prelude.

Definition is_byte (b : Z) : Prop := 0 <= b < 256.

Definition is_ascii_whitespace (b : Z) : bool :=
  (b =? 32) || (b =? 9) || (b =? 10) || (b =? 12) || (b =? 13).

Fixpoint trim_ascii_start (l : list Z) : list Z :=
  match l with
  | b :: t => if is_ascii_whitespace b then trim_ascii_start t else l
  | [] => []
  end.

(** [iter().position(pred).unwrap_or(len)]. *)
Fixpoint position_or_len (pred : Z → bool) (l : list Z) : nat :=
  match l with
  | b :: t => if pred b then O else S (position_or_len pred t)
  | [] => O
  end.

(** [slice::split]: the pieces between the delimiters, one more than there are
    delimiters. *)
Fixpoint split_on (pred : Z → bool) (l : list Z) : list (list Z) :=
  match l with
  | [] => [[]]
  | b :: t => if pred b then [] :: split_on pred t
              else match split_on pred t with
                   | piece :: more => (b :: piece) :: more
                   | [] => [[b]]
                   end
  end.

Fixpoint starts_with (l prefix : list Z) : bool :=
  match prefix, l with
  | [], _ => true
  | p :: prefix, b :: l => (p =? b) && starts_with l prefix
  | _ :: _, [] => false
  end.

Definition ends_with (l suffix : list Z) : bool := starts_with (rev l) (rev suffix).

(** [l.windows(w.len()).any(|window| window == w)]. *)
Fixpoint any_window (w l : list Z) : bool :=
  match l with
  | [] => match w with [] => true | _ => false end
  | _ :: t => starts_with l w || any_window w t
  end.

Definition between (lo hi b : Z) : bool := (lo <=? b) && (b <=? hi).

Definition continuation (b : Z) : bool := between 0x80 0xBF b.

(** [std::str::from_utf8(l).is_ok()]. *)
Fixpoint valid_utf8 (l : list Z) : bool :=
  match l with
  | [] => true
  | b :: t =>
    if b <? 0x80 then valid_utf8 t else
    match t with
    | [] => false
    | c1 :: t1 =>
      if between 0xC2 0xDF b then continuation c1 && valid_utf8 t1 else
      match t1 with
      | [] => false
      | c2 :: t2 =>
        if between 0xE0 0xEF b then
          (if b =? 0xE0 then between 0xA0 0xBF c1
           else if b =? 0xED then between 0x80 0x9F c1
           else continuation c1)
          && continuation c2 && valid_utf8 t2
        else
        match t2 with
        | [] => false
        | c3 :: t3 =>
          between 0xF0 0xF4 b
          && (if b =? 0xF0 then between 0x90 0xBF c1
              else if b =? 0xF4 then between 0x80 0x8F c1
              else continuation c1)
          && continuation c2 && continuation c3 && valid_utf8 t3
        end
      end
    end
  end.

(** [char::to_digit], for a radix of at most 16. *)
Definition to_digit (radix b : Z) : option Z :=
  let d := if between 48 57 b then b - 48
           else if between 97 102 b then b - 87
           else if between 65 70 b then b - 55
           else radix in
  if d <? radix then Some d else None.

(** The checked accumulation of [u64::from_str_radix]. *)
Fixpoint accumulate (radix acc : Z) (l : list Z) : option Z :=
  match l with
  | [] => Some acc
  | b :: t =>
    d ← to_digit radix b;
    scaled ← checked_mul 64 acc radix;
    acc ← checked_add 64 scaled d;
    accumulate radix acc t
  end.

(** One leading [+] is accepted before at least one digit. *)
Definition u64_from_str_radix (l : list Z) (radix : Z) : option Z :=
  match l with
  | [] => None
  | b :: t =>
      if b =? 43 then match t with [] => None | _ => accumulate radix 0 t end
      else accumulate radix 0 l
  end.

(** [slice::partition_point]: the binary search loop of the standard library. *)
Fixpoint search_base {A} (fuel : nat) (pred : A → bool) (l : list A) (base size : nat) : nat :=
  match fuel with
  | O => base
  | S fuel =>
    if (1 <? Z.of_nat size) then
      let half := Nat.div2 size in
      let mid := (base + half)%nat in
      let base := match l !! mid with
                  | Some x => if pred x then mid else base
                  | None => base end in
      search_base fuel pred l base (size - half)
    else base
  end.

Definition partition_point {A} (pred : A → bool) (l : list A) : nat :=
  match l with
  | [] => O
  | _ =>
    let base := search_base (length l) pred l 0 (length l) in
    match l !! base with
    | Some x => if pred x then S base else base
    | None => base
    end
  end.

(** Little-endian words of [n] bytes. *)
Fixpoint le_bytes (n : nat) (v : Z) : list Z :=
  match n with
  | O => []
  | S n => (v mod 256) :: le_bytes n (v / 256)
  end.

Fixpoint le_word (l : list Z) : Z :=
  match l with
  | [] => 0
  | b :: t => b + 256 * le_word t
  end.

(** ** The search finds the boundary of a partitioned slice *)

Definition boundary {A} (pred : A → bool) (l : list A) (k : nat) : Prop :=
  (k <= length l)%nat ∧
  ∀ i x, l !! i = Some x → pred x = true ↔ (i < k)%nat.

(** The boundary lies in [[base, base + size]], at [base] only when it is 0. *)
Lemma search_base_spec {A} (pred : A → bool) l k fuel base size :
  boundary pred l k → (size <= fuel)%nat → (1 <= size)%nat → (base + size <= length l)%nat →
  (base < k ∨ base = O)%nat → (k <= base + size)%nat →
  let b := search_base fuel pred l base size in
  (b < length l)%nat ∧ (b < k ∨ b = O)%nat ∧ (k <= b + 1)%nat.
Proof.
  intros Hb. revert base size. induction fuel as [|fuel IH]; intros base size Hf H1 Hr Hlo Hhi;
    [lia|]. cbn [search_base]. destruct (Z.ltb_spec 1 (Z.of_nat size)); [|simpl; lia].
  assert (1 <= Nat.div2 size < size)%nat as Hhalf.
  { rewrite Nat.div2_div. pose proof (Nat.div_mod_eq size 2).
    pose proof (Nat.mod_upper_bound size 2). lia. }
  destruct (l !! (base + Nat.div2 size)%nat) as [x|] eqn:Hx.
  2: { apply lookup_ge_None in Hx. lia. }
  destruct Hb as [Hk Hb]. pose proof (Hb _ _ Hx) as Hiff.
  assert (Nat.div2 size <= size - Nat.div2 size)%nat.
  { rewrite Nat.div2_div. pose proof (Nat.div_mod_eq size 2). lia. }
  destruct (pred x); apply IH; try lia.
Qed.

Lemma partition_point_spec {A} (pred : A → bool) l k :
  boundary pred l k → partition_point pred l = k.
Proof.
  intros Hb. destruct (decide (l = [])) as [->|Hl]; [destruct Hb; simpl in *; lia|].
  assert (1 <= length l)%nat by (destruct l; simpl; [done|lia]).
  destruct (search_base_spec pred l k (length l) 0 (length l) Hb) as (Hlt & Hlo & Hhi);
    [lia..|destruct Hb; lia|].
  unfold partition_point. replace (match l with [] => _ | _ => _ end) with
    (match l !! search_base (length l) pred l 0 (length l) with
     | Some x => if pred x then S (search_base (length l) pred l 0 (length l))
                 else search_base (length l) pred l 0 (length l)
     | None => search_base (length l) pred l 0 (length l) end) by (by destruct l).
  set (b := search_base _ _ _ _ _) in *.
  destruct (lookup_lt_is_Some_2 l b Hlt) as [y Hy].
  rewrite Hy. destruct Hb as [_ Hb]. specialize (Hb _ _ Hy). destruct (pred y); lia.
Qed.

(** A predicate that holds downwards has a boundary. *)
Lemma boundary_exists {A} (pred : A → bool) l :
  (∀ i j x y, (i <= j)%nat → l !! i = Some x → l !! j = Some y → pred y = true → pred x = true) →
  ∃ k, boundary pred l k.
Proof.
  induction l as [|a l IH]; intros Hdown; [exists O; by split|].
  destruct (pred a) eqn:Ha.
  - destruct IH as (k & Hk & Hiff).
    { intros i j x y Hij Hi Hj. by apply (Hdown (S i) (S j)); [lia|..]. }
    exists (S k). split; [simpl; lia|]. intros [|i] x Hx; simplify_eq/=; [split; [lia|done]|].
    rewrite (Hiff _ _ Hx). lia.
  - exists O. split; [simpl; lia|]. intros i x Hx. split; [|lia]. intros Hp.
    assert (pred a = true) by (by apply (Hdown 0%nat i a x); [lia|..]). congruence.
Qed.

(** ** Little-endian words *)

Lemma le_bytes_length n v : length (le_bytes n v) = n.
Proof. revert v. induction n as [|n IH]; intros v; simpl; auto. Qed.

Lemma le_bytes_byte n v : Forall is_byte (le_bytes n v).
Proof.
  revert v. induction n as [|n IH]; intros v; simpl; constructor; auto.
  unfold is_byte. pose proof (Z.mod_pos_bound v 256). lia.
Qed.

Lemma le_word_bytes n v : 0 <= v < 256 ^ Z.of_nat n → le_word (le_bytes n v) = v.
Proof.
  revert v. induction n as [|n IH]; intros v Hv; [simpl in *; lia|].
  rewrite Nat2Z.inj_succ, Z.pow_succ_r in Hv by lia. cbn [le_bytes le_word].
  pose proof (Z.div_mod v 256). pose proof (Z.mod_pos_bound v 256). rewrite IH; nia.
Qed.

Lemma le_word_width n v : in_width (8 * Z.of_nat n) v → le_word (le_bytes n v) = v.
Proof.
  intros Hv. apply le_word_bytes. unfold in_width in Hv.
  rewrite Z.pow_mul_r in Hv by lia. exact Hv.
Qed.

Lemma le_word_range l : Forall is_byte l → 0 <= le_word l < 256 ^ Z.of_nat (length l).
Proof.
  induction 1 as [|b l Hb _ IH]; [simpl; lia|]. cbn [length le_word]. unfold is_byte in Hb.
  rewrite Nat2Z.inj_succ, Z.pow_succ_r by lia. lia.
Qed.

Lemma le_bytes_word l : Forall is_byte l → le_bytes (length l) (le_word l) = l.
Proof.
  induction 1 as [|b l Hb _ IH]; [done|]. cbn [length le_word le_bytes]. unfold is_byte in Hb.
  f_equal; [Z.div_mod_to_equations; lia|].
  by replace ((b + 256 * le_word l) / 256) with (le_word l) by (Z.div_mod_to_equations; lia).
Qed.

(** ** Number text *)

(** The positional value of digits, most significant first. *)
Fixpoint digits_value (radix acc : Z) (ds : list Z) : Z :=
  match ds with
  | [] => acc
  | d :: t => digits_value radix (acc * radix + d) t
  end.

Lemma digits_value_mono radix acc ds :
  1 <= radix → 0 <= acc → Forall (λ d, 0 <= d) ds → acc <= digits_value radix acc ds.
Proof.
  intros Hr Ha Hd. revert acc Ha. induction Hd as [|d ds Hd _ IH]; intros acc Ha; simpl; [lia|].
  specialize (IH (acc * radix + d)). nia.
Qed.

(** Text made of digits parses to its value exactly when the value fits. *)
Lemma accumulate_digits radix acc l ds :
  1 <= radix <= 16 → is_u64 acc →
  Forall2 (λ b d, to_digit radix b = Some d ∧ 0 <= d) l ds →
  accumulate radix acc l = checked 64 (digits_value radix acc ds).
Proof.
  intros Hr Ha Hl. revert acc Ha.
  induction Hl as [|b d l ds [Hb Hd] Hl IH]; intros acc Ha.
  { symmetry. by apply checked_Some. }
  cbn [accumulate digits_value]. rewrite Hb. cbn [mbind option_bind].
  assert (Forall (λ d, 0 <= d) ds) as Hds.
  { clear -Hl. induction Hl as [|??????]; constructor; naive_solver. }
  unfold in_width in Ha.
  assert (acc * radix + d <= digits_value radix (acc * radix + d) ds)
    by (apply digits_value_mono; [lia|nia|done]).
  unfold checked_mul, checked_add.
  destruct (checked_spec 64 (acc * radix)) as [[-> ?]|[-> ?]]; cbn [mbind option_bind].
  2: { symmetry. apply checked_None. unfold in_width in *. lia. }
  destruct (checked_spec 64 (acc * radix + d)) as [[-> ?]|[-> ?]]; cbn [mbind option_bind].
  2: { symmetry. apply checked_None. unfold in_width in *. lia. }
  by apply IH.
Qed.

Lemma digits_value_app radix acc a b :
  digits_value radix acc (a ++ b) = digits_value radix (digits_value radix acc a) b.
Proof. revert acc. induction a as [|d a IH]; intros acc; simpl; auto. Qed.

(** The digits of [n], most significant first. *)
Fixpoint digits (fuel : nat) (radix n : Z) : list Z :=
  match fuel with
  | O => []
  | S fuel => if n <? radix then [n] else digits fuel radix (n / radix) ++ [n mod radix]
  end.

Lemma digits_spec fuel radix n :
  2 <= radix → 0 <= n < radix ^ Z.of_nat fuel → (0 < fuel)%nat →
  digits_value radix 0 (digits fuel radix n) = n ∧
  Forall (λ d, 0 <= d < radix) (digits fuel radix n) ∧ digits fuel radix n ≠ [].
Proof.
  intros Hr. revert n. induction fuel as [|fuel IH]; intros n Hn Hf; [lia|].
  cbn [digits]. destruct (Z.ltb_spec n radix).
  { split_and!; [simpl; lia|repeat constructor; lia|done]. }
  rewrite Nat2Z.inj_succ, Z.pow_succ_r in Hn by lia.
  pose proof (Z.div_mod n radix). pose proof (Z.mod_pos_bound n radix).
  destruct (decide (fuel = O)) as [->|]; [simpl in Hn; lia|].
  destruct (IH (n / radix)) as (Hv & Hd & Hne); [|lia|].
  { split; [apply Z.div_pos; lia|apply Z.div_lt_upper_bound; lia]. }
  rewrite digits_value_app, Hv. split_and!.
  - simpl. lia.
  - apply Forall_app. split; [done|repeat constructor; lia].
  - by destruct (digits fuel radix (n / radix)).
Qed.

#[global] Arguments digits : simpl never.

Lemma digits_value_zeros radix k ds :
  digits_value radix 0 (replicate k 0 ++ ds) = digits_value radix 0 ds.
Proof. induction k as [|k IH]; simpl; auto. Qed.

(** A number in [radix], zero-padded to [width] digits. *)
Definition digit_char (d : Z) : Z := if d <? 10 then 48 + d else 87 + d.

Definition number_text (radix : Z) (width : nat) (n : Z) : list Z :=
  let ds := digits 64 radix n in
  digit_char <$> (replicate (width - length ds) 0 ++ ds).

Lemma number_text_digits radix width n :
  2 <= radix <= 16 → is_u64 n →
  ∃ ds, number_text radix width n = digit_char <$> ds ∧ ds ≠ [] ∧
    Forall (λ d, 0 <= d < radix) ds ∧ digits_value radix 0 ds = n.
Proof.
  intros Hr Hn. unfold in_width in Hn.
  destruct (digits_spec 64 radix n) as (Hv & Hd & Hne); [lia| |lia|].
  { split; [lia|]. eapply Z.lt_le_trans; [apply Hn|]. apply Z.pow_le_mono_l. lia. }
  eexists. split; [done|]. split_and!.
  - by intros [_ ?]%app_eq_nil.
  - apply Forall_app. split; [|done]. apply Forall_replicate. lia.
  - by rewrite digits_value_zeros.
Qed.

(** The characters of number text: never a sign, a delimiter or whitespace. *)
Definition digit_text (b : Z) : Prop := 48 <= b <= 57 ∨ 97 <= b <= 102.

Lemma digit_char_text d : 0 <= d < 16 → digit_text (digit_char d).
Proof. unfold digit_text, digit_char. destruct (Z.ltb_spec d 10); lia. Qed.

Lemma number_text_chars radix width n :
  2 <= radix <= 16 → is_u64 n →
  Forall digit_text (number_text radix width n) ∧ number_text radix width n ≠ [].
Proof.
  intros Hr Hn. destruct (number_text_digits radix width n Hr Hn) as (ds & -> & Hne & Hd & _).
  split; [|by destruct ds]. apply Forall_fmap. eapply Forall_impl; [exact Hd|].
  intros d Hx. simpl in Hx. apply digit_char_text. lia.
Qed.

Lemma to_digit_char radix d :
  2 <= radix <= 16 → 0 <= d < radix → to_digit radix (digit_char d) = Some d.
Proof.
  intros Hr Hd. unfold to_digit, digit_char, between.
  destruct (Z.ltb_spec d 10).
  - rewrite (proj2 (Z.leb_le 48 _)), (proj2 (Z.leb_le _ 57)) by lia. simpl.
    rewrite (proj2 (Z.ltb_lt _ radix)) by lia. f_equal. lia.
  - rewrite (proj2 (Z.leb_gt _ 57)), andb_false_r by lia.
    rewrite (proj2 (Z.leb_le 97 _)), (proj2 (Z.leb_le _ 102)) by lia. simpl.
    rewrite (proj2 (Z.ltb_lt _ radix)) by lia. f_equal. lia.
Qed.

(** Number text parses to its number. *)
Lemma from_str_radix_text radix width n :
  2 <= radix <= 16 → is_u64 n →
  u64_from_str_radix (number_text radix width n) radix = Some n.
Proof.
  intros Hr Hn. destruct (number_text_chars radix width n Hr Hn) as [Hc Hne].
  assert (accumulate radix 0 (number_text radix width n) = Some n) as Hacc.
  { destruct (number_text_digits radix width n Hr Hn) as (ds & -> & _ & Hd & Hv).
    rewrite (accumulate_digits radix 0 _ ds); [|lia|done|].
    { rewrite Hv. by apply checked_Some. }
    apply Forall2_fmap_l, Forall_Forall2_diag. eapply Forall_impl; [exact Hd|].
    intros d Hx. simpl in *. split; [by apply to_digit_char|lia]. }
  destruct (number_text radix width n) as [|b t]; [done|]. apply Forall_cons in Hc as [Hb _].
  unfold digit_text in Hb. unfold u64_from_str_radix.
  destruct (Z.eqb_spec b 43); [lia|done].
Qed.

Lemma valid_utf8_ascii l : Forall (λ b, b < 0x80) l → valid_utf8 l = true.
Proof.
  induction 1 as [|b l Hb _ IH]; [done|]. simpl. by rewrite (proj2 (Z.ltb_lt _ _) Hb).
Qed.
