(* ===== verification/Bisect.v ===== *)
(** * Attaching a group of sites by bisection

    [bisect_attach] of [crates/bpf-multi/src/lib.rs] and the error classes it
    uses.  The caller's [attach] closure is a parameter: a function of the slice
    and of its own state.  The worklist loop runs on fuel; [bisect_attach_total]
    and the theorems show the fuel it is started with is always enough. *)
From stdpp Require Import sorting.
From S2P Require Import Prelude.
Open Scope Z_scope.

(** [std::io::Error]: an OS error number, or a kind with its text. *)
Inductive io_error :=
| OsError (errno : Z)
| OtherError (kind text : string).

#[export] Instance io_error_eq_dec : EqDecision io_error.
Proof. solve_decision. Defined.

Definition raw_os_error (e : io_error) : option Z :=
  match e with OsError errno => Some errno | OtherError _ _ => None end.

(** The [libc] numbers for Linux. *)
Definition EPERM : Z := 1.
Definition EACCES : Z := 13.
Definition EMFILE : Z := 24.
Definition ENOTSUP : Z := 95.
Definition EOPNOTSUPP : Z := 95.

Definition is_permission_err (e : io_error) : bool :=
  match raw_os_error e with
  | Some errno => (errno =? EACCES) || (errno =? EPERM)
  | None => false
  end.

Definition is_exhaustion_err (e : io_error) : bool :=
  match raw_os_error e with
  | Some errno => errno =? EMFILE
  | None => false
  end.

Definition is_unsupported_kernel_errno (errno : Z) : bool :=
  (errno =? ENOTSUP) || (errno =? EOPNOTSUPP).

Inductive GroupHalt :=
| Unsupported (error : io_error)
| Exhausted (error : io_error).

Record BisectHalt := mkHalt { halt : GroupHalt; closed_leaves : nat }.

Record RefusedSite := mkRefused { index : nat; error : io_error }.

Definition split_error (e : io_error) : io_error :=
  match raw_os_error e with
  | Some errno => OsError errno
  | None => match e with
            | OtherError kind text => OtherError kind text
            | OsError errno => OsError errno
            end
  end.

Definition index_le (a b : RefusedSite) : Prop := (index a <= index b)%nat.

#[export] Instance index_le_dec : RelDecision index_le.
Proof. intros a b. unfold index_le. apply _. Defined.

#[export] Instance index_le_total : Total index_le.
Proof. intros a b. unfold index_le. lia. Qed.

#[export] Instance index_le_trans : Transitive index_le.
Proof. intros a b c. unfold index_le. lia. Qed.

Section Loop.
Context {T S : Type}.
Variable attach : list (Z * Z) → S → (T + io_error) * S.
Variable sites : list (Z * Z).

(** The [while let Some(idxs) = stack.pop()] loop; the head of [stack] is its
    top.  [None] is a run out of fuel or an index outside [sites]. *)
Fixpoint bisect_loop (fuel : nat) (stack : list (list nat)) (links : list T)
    (bad : list RefusedSite) (s : S)
    : option ((list T * list RefusedSite + BisectHalt) * S) :=
  match fuel with
  | O => None
  | Datatypes.S fuel =>
    match stack with
    | [] => Some (inl (links, merge_sort index_le bad), s)
    | [] :: stack => bisect_loop fuel stack links bad s
    | idxs :: stack =>
      slice ← mapM (λ i, sites !! i) idxs;
      match attach slice s with
      | (inl l, s) => bisect_loop fuel stack (links ++ [l]) bad s
      | (inr error, s) =>
        if default false (is_unsupported_kernel_errno <$> raw_os_error error) then
          Some (inr (mkHalt (Unsupported error) (length links)), s)
        else if is_exhaustion_err error then
          Some (inr (mkHalt (Exhausted error) (length links)), s)
        else if (1 <? Z.of_nat (length idxs)) && negb (is_permission_err error) then
          let mid := Nat.div2 (length idxs) in
          bisect_loop fuel (take mid idxs :: drop mid idxs :: stack) links bad s
        else if decide (length idxs = 1%nat) then
          bisect_loop fuel stack links (bad ++ [mkRefused (List.hd O idxs) error]) s
        else
          bisect_loop fuel stack links
            (bad ++ ((λ i, mkRefused i (split_error error)) <$> idxs)) s
      end
    end
  end.

(** Every pop of a nonempty index list attempts it once; a list of [n] indices
    is popped, together with its halves, at most [2n - 1] times. *)
Definition bisect_attach_counted (s : S)
    : option ((list T * list RefusedSite + BisectHalt) * S) :=
  bisect_loop (2 * length sites + 2) [seq 0 (length sites)] [] [] s.

Definition bisect_attach (s : S)
    : option ((list T * list RefusedSite + GroupHalt) * S) :=
  match bisect_attach_counted s with
  | Some (inl ok, s) => Some (inl ok, s)
  | Some (inr halted, s) => Some (inr (halt halted), s)
  | None => None
  end.
End Loop.

(** ** What the loop maintains *)

Section Spec.
Context {T S : Type}.
Variable attach : list (Z * Z) → S → (T + io_error) * S.
Variable sites : list (Z * Z).

Abbreviation attempts := (list (list (Z * Z) * (T + io_error))).

(** [attach] with a record of every attempt it made. *)
Definition logged (slice : list (Z * Z)) (s : S * attempts) : (T + io_error) * (S * attempts) :=
  let '(r, s') := attach slice (s.1) in (r, (s', s.2 ++ [(slice, r)])).

Definition slice_of (g : list nat) : option (list (Z * Z)) := mapM (λ i, sites !! i) g.

(** A link covers the sites of [g] by one successful attempt. *)
Definition linked (log : attempts) (g : list nat) (l : T) : Prop :=
  ∃ slice, slice_of g = Some slice ∧ (slice, inl l) ∈ log.

(** A site is refused by its own attempt, or by a permission error of a slice
    that contains it. *)
Definition refused (log : attempts) (r : RefusedSite) : Prop :=
  ∃ g slice, index r ∈ g ∧ slice_of g = Some slice ∧ (slice, inr (error r)) ∈ log ∧
    (g = [index r] ∨ is_permission_err (error r) = true).

Definition succeeded (a : list (Z * Z) * (T + io_error)) : bool :=
  match a.2 with inl _ => true | inr _ => false end.

Definition successes (log : attempts) : nat := length (List.filter succeeded log).

Definition weight (stack : list (list nat)) : nat :=
  sum_list_with (λ g, 2 * length g - 1)%nat stack.

Definition pops (stack : list (list nat)) : nat :=
  sum_list_with (λ g, Nat.max 1 (2 * length g - 1)) stack.

Record inv (groups : list (list nat)) (links : list T) (bad : list RefusedSite)
    (stack : list (list nat)) (log : attempts) : Prop := {
  inv_partition : concat groups ++ (index <$> bad) ++ concat stack ≡ₚ seq 0 (length sites);
  inv_linked : Forall2 (linked log) groups links;
  inv_refused : Forall (refused log) bad;
  inv_attempts : (length log + weight stack <= 2 * length sites - 1)%nat;
  inv_successes : successes log = length links;
}.

Lemma linked_more log a g l : linked log g l → linked (log ++ [a]) g l.
Proof. intros (slice & ? & ?). exists slice. set_solver. Qed.

Lemma refused_more log a r : refused log r → refused (log ++ [a]) r.
Proof. intros (g & slice & ? & ? & ? & ?). exists g, slice. set_solver. Qed.

Lemma successes_snoc log a : successes (log ++ [a]) = (successes log + Nat.b2n (succeeded a))%nat.
Proof.
  unfold successes. rewrite List.filter_app, length_app. simpl. by destruct (succeeded a).
Qed.

Lemma inv_in_range groups links bad g stack log :
  inv groups links bad (g :: stack) log → ∃ slice, slice_of g = Some slice.
Proof.
  intros [Hp _ _ _ _]. apply mapM_is_Some_2, Forall_forall. intros i Hi.
  apply lookup_lt_is_Some_2. enough (i ∈ seq 0 (length sites)) as ?%elem_of_seq by lia.
  rewrite <- Hp. set_solver.
Qed.

Lemma inv_link groups links bad g stack log slice l :
  g ≠ [] → slice_of g = Some slice → inv groups links bad (g :: stack) log →
  inv (groups ++ [g]) (links ++ [l]) bad stack (log ++ [(slice, inl l)]).
Proof.
  intros Hg Hs [Hp Hl Hr Ha Hc]. split.
  - rewrite concat_app. simpl in *. rewrite app_nil_r, <- Hp. solve_Permutation.
  - apply Forall2_app; [eapply Forall2_impl; eauto using linked_more|].
    constructor; [|done]. exists slice. set_solver.
  - eapply Forall_impl; eauto using refused_more.
  - rewrite length_app. simpl in *. destruct g; [done|]. simpl in *. lia.
  - rewrite successes_snoc, length_app, Hc. done.
Qed.

Lemma inv_split groups links bad g stack log slice e :
  (1 < length g)%nat → inv groups links bad (g :: stack) log →
  inv groups links bad (take (Nat.div2 (length g)) g :: drop (Nat.div2 (length g)) g :: stack)
    (log ++ [(slice, inr e)]).
Proof.
  intros Hg [Hp Hl Hr Ha Hc]. split.
  - simpl in *. by rewrite (app_assoc (take _ _)), take_drop.
  - eapply Forall2_impl; eauto using linked_more.
  - eapply Forall_impl; eauto using refused_more.
  - rewrite length_app. simpl in *. rewrite length_take, length_drop.
    rewrite Nat.div2_div in *. pose proof (Nat.div_mod_eq (length g) 2).
    pose proof (Nat.mod_upper_bound (length g) 2). lia.
  - rewrite successes_snoc, Hc. simpl. lia.
Qed.

Lemma inv_refuse groups links bad g stack log slice e :
  g ≠ [] → slice_of g = Some slice → (length g = 1%nat ∨ is_permission_err e = true) →
  inv groups links bad (g :: stack) log →
  inv groups links (bad ++ ((λ i, mkRefused i e) <$> g)) stack (log ++ [(slice, inr e)]).
Proof.
  intros Hg Hs Hcase [Hp Hl Hr Ha Hc]. split.
  - rewrite fmap_app, <- list_fmap_compose. simpl in *.
    rewrite (list_fmap_ext (index ∘ _) id g) by done. rewrite list_fmap_id, <- Hp.
    solve_Permutation.
  - eapply Forall2_impl; eauto using linked_more.
  - apply Forall_app; split; [eapply Forall_impl; eauto using refused_more|].
    apply Forall_fmap, Forall_forall. intros i Hi. exists g, slice.
    split_and!; simpl; [done|done|set_solver|].
    destruct Hcase as [H1|]; [left|by right]. destruct g as [|? []]; set_solver.
  - rewrite length_app. simpl in *. destruct g; [done|]. simpl in *. lia.
  - rewrite successes_snoc, Hc. simpl. lia.
Qed.

Lemma inv_skip groups links bad stack log :
  inv groups links bad ([] :: stack) log → inv groups links bad stack log.
Proof. by intros []. Qed.

(** What a finished run returns. *)
Definition halts_with (h : GroupHalt) (e : io_error) : Prop :=
  match h with
  | Unsupported e' => e' = e ∧ raw_os_error e = Some ENOTSUP
  | Exhausted e' => e' = e ∧ raw_os_error e = Some EMFILE
  end.

Definition finished (result : list T * list RefusedSite + BisectHalt) (log : attempts) : Prop :=
  match result with
  | inl (links, bad) => ∃ groups, inv groups links bad [] log ∧ StronglySorted index_le bad
  | inr h => ∃ before slice e, log = before ++ [(slice, inr e)] ∧ halts_with (halt h) e ∧
               closed_leaves h = successes log ∧ (length log <= 2 * length sites - 1)%nat
  end.

Lemma split_error_same e : split_error e = e.
Proof. by destruct e. Qed.

Lemma inv_sorted groups links bad stack log :
  inv groups links bad stack log → inv groups links (merge_sort index_le bad) stack log.
Proof.
  intros [Hp Hl Hr Ha Hc]. pose proof (merge_sort_Permutation index_le bad) as Hm. split; auto.
  - by rewrite Hm.
  - by rewrite Hm.
Qed.

Lemma inv_halted groups links bad g stack log slice e h :
  g ≠ [] → inv groups links bad (g :: stack) log → halts_with h e →
  finished (inr (mkHalt h (length links))) (log ++ [(slice, inr e)]).
Proof.
  intros Hg [_ _ _ Ha Hc] Hh. exists log, slice, e. split_and!; [done|done| |].
  - rewrite successes_snoc, Hc. simpl. lia.
  - rewrite length_app. simpl in *. destruct g; [done|]. simpl in *. lia.
Qed.

Lemma is_unsupported_errno e :
  default false (is_unsupported_kernel_errno <$> raw_os_error e) = true →
  raw_os_error e = Some ENOTSUP.
Proof.
  destruct e; simpl; [|done]. unfold is_unsupported_kernel_errno, ENOTSUP, EOPNOTSUPP.
  intros H. f_equal. lia.
Qed.

Lemma is_exhaustion_errno e : is_exhaustion_err e = true → raw_os_error e = Some EMFILE.
Proof.
  destruct e; cbn; [|done]. unfold is_exhaustion_err, raw_os_error. intros H.
  f_equal. by apply Z.eqb_eq.
Qed.

Lemma bisect_loop_spec fuel stack groups links bad s log :
  inv groups links bad stack log → (pops stack < fuel)%nat →
  ∃ result s' log',
    bisect_loop logged sites fuel stack links bad (s, log) = Some (result, (s', log')) ∧
    finished result log'.
Proof.
  revert stack groups links bad s log.
  induction fuel as [|fuel IH]; intros stack groups links bad s log Hinv Hfuel; [lia|].
  destruct stack as [|g stack]; [|destruct (decide (g = [])) as [->|Hg]].
  - eexists _, _, _. split; [done|]. exists groups.
    split; [by apply inv_sorted|apply (StronglySorted_merge_sort index_le)].
  - simpl in *. eapply IH; [by apply inv_skip|lia].
  - destruct (inv_in_range _ _ _ _ _ _ Hinv) as [slice Hslice].
    destruct g as [|i g']; [done|]. cbn [bisect_loop].
    remember (i :: g') as g eqn:Eg. unfold slice_of in Hslice.
    assert (length g ≠ O) as Hlen by (by rewrite Eg).
    rewrite Hslice. cbn [mbind option_bind]. unfold logged at 1. cbn [fst snd].
    destruct (attach slice s) as [[l|e] s'] eqn:Hattach.
    { eapply IH; [by eapply inv_link|]. simpl in Hfuel. lia. }
    destruct (default _ _) eqn:Hunsup.
    { eexists _, _, _. split; [done|]. eapply inv_halted; eauto. simpl.
      eauto using is_unsupported_errno. }
    destruct (is_exhaustion_err e) eqn:Hexh.
    { eexists _, _, _. split; [done|]. eapply inv_halted; eauto. simpl.
      eauto using is_exhaustion_errno. }
    simpl in Hfuel.
    destruct (Z.ltb_spec 1 (Z.of_nat (length g))), (is_permission_err e) eqn:Hperm; cbn [andb negb].
    2: { eapply IH; [apply inv_split; [lia|done]|]. simpl.
         rewrite length_take, length_drop, Nat.div2_div.
         pose proof (Nat.div_mod_eq (length g) 2).
         pose proof (Nat.mod_upper_bound (length g) 2). lia. }
    all: destruct (decide (length g = 1%nat)); try lia.
    + eapply IH; [|lia]. rewrite split_error_same. eapply inv_refuse; eauto.
    + eapply IH; [|lia]. rewrite Eg in *. destruct g'; [|done].
      eapply (inv_refuse _ _ _ [i]); eauto.
    + eapply IH; [|lia]. rewrite Eg in *. destruct g'; [|done].
      eapply (inv_refuse _ _ _ [i]); eauto.
Qed.
End Spec.

(** Recording the attempts does not change the run. *)
Lemma bisect_loop_erase {T S} (attach : list (Z * Z) → S → (T + io_error) * S)
    sites fuel stack links bad s log :
  bisect_loop attach sites fuel stack links bad s =
    (λ '(r, (s', _)), (r, s')) <$>
      bisect_loop (logged attach) sites fuel stack links bad (s, log).
Proof.
  revert stack links bad s log.
  induction fuel as [|fuel IH]; intros stack links bad s log; [done|].
  destruct stack as [|[|i g] stack]; cbn [bisect_loop]; [done|apply IH|].
  destruct (mapM _ _) as [slice|]; [|done]. cbn [mbind option_bind].
  unfold logged at 1. cbn [fst snd]. destruct (attach slice s) as [[l|e] s']; [apply IH|].
  repeat case_match; try done; apply IH.
Qed.

Lemma bisect_start {T} (sites : list (Z * Z)) :
  inv (T := T) sites [] [] [] [seq 0 (length sites)] [].
Proof.
  split; simpl; try done.
  - by rewrite app_nil_r.
  - rewrite length_seq. lia.
Qed.

(** C16: for every group of sites and every behaviour of the kernel,
    bisection returns after at most [2n - 1] attach attempts.  A returned result
    partitions the sites: each site is covered by exactly one returned link, made
    by one successful attempt on the link's slice, or is refused exactly once,
    in index order, with the error of its own attempt or of a permission failure
    of its slice.  A halt carries the last attempt's error under its class and
    counts exactly the links made before it. *)
Theorem bisect_attach_partition {T S} (attach : list (Z * Z) → S → (T + io_error) * S) sites s :
  ∃ result s' log,
    bisect_attach_counted attach sites s = Some (result, s') ∧
    bisect_attach_counted (logged attach) sites (s, []) = Some (result, (s', log)) ∧
    (length log <= 2 * length sites - 1)%nat ∧
    match result with
    | inl (links, bad) =>
        ∃ groups, concat groups ++ (index <$> bad) ≡ₚ seq 0 (length sites) ∧
          Forall2 (linked sites log) groups links ∧
          Forall (refused sites log) bad ∧ StronglySorted index_le bad ∧
          successes log = length links
    | inr h => ∃ before slice e, log = before ++ [(slice, inr e)] ∧ halts_with (halt h) e ∧
                 closed_leaves h = successes log
    end.
Proof.
  destruct (bisect_loop_spec attach sites (2 * length sites + 2) [seq 0 (length sites)]
              [] [] [] s []) as (result & s' & log & Hrun & Hfin).
  { apply bisect_start. }
  { simpl. rewrite length_seq. lia. }
  exists result, s', log.
  split; [unfold bisect_attach_counted; by rewrite bisect_loop_erase with (log := []), Hrun|].
  split; [done|]. destruct result as [[links bad]|h]; simpl in Hfin.
  - destruct Hfin as (groups & [Hp Hl Hr Ha Hc] & Hs). simpl in *.
    rewrite app_nil_r in Hp. split; [lia|]. eauto 10.
  - destruct Hfin as (before & slice & e & ? & ? & ? & ?). eauto 10.
Qed.

(** What holds of every attempt of [attach] holds of the recorded ones. *)
Lemma bisect_loop_log {T S} (attach : list (Z * Z) → S → (T + io_error) * S) P
    sites fuel stack links bad s log r s' log' :
  (∀ slice s, P (slice, (attach slice s).1)) → Forall P log →
  bisect_loop (logged attach) sites fuel stack links bad (s, log) = Some (r, (s', log')) →
  Forall P log'.
Proof.
  intros HP. revert stack links bad s log.
  induction fuel as [|fuel IH]; intros stack links bad s log Hlog; [done|].
  destruct stack as [|[|i g] stack]; cbn [bisect_loop]; [naive_solver|by apply IH|].
  destruct (mapM _ _) as [slice|]; [|done]. cbn [mbind option_bind].
  unfold logged at 1. cbn [fst snd]. specialize (HP slice s).
  destruct (attach slice s) as [a s2]. simpl in HP.
  assert (Forall P (log ++ [(slice, a)])) as Hlog' by (by apply Forall_app; auto).
  destruct a; [by apply IH|]. repeat case_match; intros; simplify_eq; eauto.
Qed.

(** A kernel that rejects exactly the slices that contain a poisoned site. *)
Definition poisoned_kernel (poison : Z * Z → bool) (slice : list (Z * Z)) (s : unit)
    : (list (Z * Z) + io_error) * unit :=
  (if existsb poison slice then inr (OsError 22) else inl slice, s).

Section Isolation.
Variable poison : Z * Z → bool.
Variable sites : list (Z * Z).

Definition poisoned (i : nat) : Prop := ∃ site, sites !! i = Some site ∧ poison site = true.

#[local] Instance poisoned_dec i : Decision (poisoned i).
Proof.
  refine (match sites !! i as o return sites !! i = o → _ with
          | Some site => λ H, if decide (poison site = true) then left _ else right _
          | None => λ H, right _ end eq_refl); unfold poisoned; naive_solver.
Defined.

Definition faithful_attempt (a : list (Z * Z) * (list (Z * Z) + io_error)) : Prop :=
  a.2 = (poisoned_kernel poison (a.1) ()).1.

Lemma refused_poisoned log r :
  Forall faithful_attempt log → refused sites log r → poisoned (index r).
Proof.
  intros Hlog (g & slice & _ & Hs & Ha & Hcase).
  rewrite Forall_forall in Hlog. apply Hlog in Ha. unfold faithful_attempt in Ha. simpl in Ha.
  destruct (existsb poison slice) eqn:Hp; [|done]. simplify_eq.
  destruct Hcase as [->|Hperm]; [|by rewrite Ha in Hperm].
  unfold slice_of in Hs. simpl in Hs. destruct (sites !! index r) as [site|] eqn:Hi; [|done].
  injection Hs as <-. exists site. split; [done|]. simpl in Hp. by destruct (poison site).
Qed.

Lemma linked_clean log g l :
  Forall faithful_attempt log → linked sites log g l →
  slice_of sites g = Some l ∧ existsb poison l = false.
Proof.
  intros Hlog (slice & Hs & Ha). rewrite Forall_forall in Hlog. apply Hlog in Ha.
  unfold faithful_attempt in Ha. simpl in Ha. destruct (existsb poison slice) eqn:?; naive_solver.
Qed.
Lemma linked_member log groups links i site :
  Forall faithful_attempt log → Forall2 (linked sites log) groups links →
  i ∈ concat groups → sites !! i = Some site → site ∈ concat links.
Proof.
  intros Hlog Hl Hi Hsite. induction Hl as [|g l groups links Hgl _ IH]; [set_solver|].
  simpl in *. apply elem_of_app in Hi as [Hi|Hi]; apply elem_of_app; [left|auto].
  apply (linked_clean _ _ _ Hlog) in Hgl as [Hs _]. apply mapM_Some in Hs.
  apply list_elem_of_lookup in Hi as [k Hk].
  destruct (Forall2_lookup_l _ _ _ _ _ Hs Hk) as (y & Hy & Hsame).
  apply list_elem_of_lookup. naive_solver.
Qed.

Lemma linked_from log groups links x :
  Forall faithful_attempt log → Forall2 (linked sites log) groups links →
  x ∈ concat links → x ∈ sites ∧ poison x = false.
Proof.
  intros Hlog Hl. induction Hl as [|g l groups links Hgl _ IH]; [set_solver|]. simpl.
  intros [Hx|Hx]%elem_of_app; [|auto].
  apply (linked_clean _ _ _ Hlog) in Hgl as [Hs Hp]. apply mapM_Some in Hs. split.
  - apply list_elem_of_lookup in Hx as [k Hk].
    destruct (Forall2_lookup_r _ _ _ _ _ Hs Hk) as (y & _ & Hy).
    by eapply list_elem_of_lookup_2.
  - destruct (poison x) eqn:E; [|done]. enough (existsb poison l = true) by congruence.
    apply existsb_exists. exists x. by rewrite <- list_elem_of_In.
Qed.

Lemma index_le_sorted bad :
  StronglySorted index_le bad → StronglySorted (≤)%nat (index <$> bad).
Proof.
  induction 1 as [|a bad _ IH Hle]; simpl; constructor; auto. by apply Forall_fmap.
Qed.

Lemma seq_sorted k n : StronglySorted (≤)%nat (seq k n).
Proof.
  revert k. induction n as [|n IH]; intros k; simpl; constructor; auto.
  apply Forall_forall. intros i ?%elem_of_seq. lia.
Qed.

Lemma filter_sorted (P : nat → Prop) `{∀ x, Decision (P x)} l :
  StronglySorted (≤)%nat l → StronglySorted (≤)%nat (filter P l).
Proof.
  induction 1 as [|a l _ IH Hle]; [constructor|]. rewrite filter_cons. case_decide; [|done].
  constructor; [done|]. rewrite Forall_forall in *. intros x [_ ?]%list_elem_of_filter. auto.
Qed.

Lemma refused_are_poisoned log groups links bad :
  Forall faithful_attempt log →
  concat groups ++ (index <$> bad) ≡ₚ seq 0 (length sites) →
  Forall2 (linked sites log) groups links → Forall (refused sites log) bad →
  StronglySorted index_le bad →
  index <$> bad = filter poisoned (seq 0 (length sites)).
Proof.
  intros Hlog Hp Hl Hr Hs.
  assert (NoDup (concat groups ++ (index <$> bad))) as (_ & Hdis & Hnd)%NoDup_app.
  { rewrite Hp. apply NoDup_seq. }
  eapply (StronglySorted_unique (≤)%nat).
  1: by apply index_le_sorted. 1: apply filter_sorted, seq_sorted.
  apply NoDup_Permutation; [done|apply NoDup_filter, NoDup_seq|]. intros i.
  rewrite list_elem_of_filter, <- Hp, elem_of_app. split.
  - intros Hi. split; [|by right]. apply list_elem_of_fmap in Hi as (r & -> & Hin).
    rewrite Forall_forall in Hr. eauto using refused_poisoned.
  - intros [(site & Hsite & Hpoison) [Hi|Hi]]; [|done]. exfalso.
    pose proof (linked_member _ _ _ _ _ Hlog Hl Hi Hsite) as Hm.
    destruct (linked_from _ _ _ _ Hlog Hl Hm) as [_ ?]. congruence.
Qed.

(** Poisoned sites cannot sink their siblings.  Against a kernel that
    rejects exactly the slices containing a poisoned site, bisection refuses
    exactly the poisoned indices, in order, and the links it returns cover
    exactly the other sites. *)
Theorem bisect_attach_isolates :
  ∃ links bad,
    bisect_attach (poisoned_kernel poison) sites () = Some (inl (links, bad), ()) ∧
    index <$> bad = filter poisoned (seq 0 (length sites)) ∧
    ∀ site, site ∈ concat links ↔ site ∈ sites ∧ poison site = false.
Proof.
  destruct (bisect_loop_spec (poisoned_kernel poison) sites (2 * length sites + 2)
    [seq 0 (length sites)] [] [] [] () []) as (result & [] & log & Hrun & Hfin).
  { apply bisect_start. }
  { simpl. rewrite length_seq. lia. }
  assert (Forall faithful_attempt log) as Hlog.
  { eapply bisect_loop_log; [|constructor|exact Hrun]. by intros slice []. }
  destruct result as [[links bad]|h].
  2: { destruct Hfin as (before & slice & e & -> & Hh & _). exfalso.
       apply Forall_app, proj2, Forall_inv in Hlog.
       unfold faithful_attempt in Hlog. simpl in Hlog. destruct (existsb poison slice); [|done].
       simplify_eq. destruct (halt h); destruct Hh; done. }
  destruct Hfin as (groups & [Hp Hl Hr _ _] & Hs). simpl in Hp. rewrite app_nil_r in Hp.
  exists links, bad. split_and!.
  - unfold bisect_attach, bisect_attach_counted.
    by rewrite bisect_loop_erase with (log := []), Hrun.
  - eauto using refused_are_poisoned.
  - intros site. split; [by eapply linked_from|]. intros [Hin Hgood].
    apply list_elem_of_lookup in Hin as [i Hi].
    eapply linked_member; eauto.
    assert (i ∈ seq 0 (length sites)) as Hi'.
    { apply elem_of_seq. apply lookup_lt_Some in Hi. lia. }
    rewrite <- Hp in Hi'. apply elem_of_app in Hi' as [?|Hbad]; [done|]. exfalso.
    apply list_elem_of_fmap in Hbad as (r & -> & Hin). rewrite Forall_forall in Hr.
    destruct (refused_poisoned _ _ Hlog (Hr _ Hin)) as (? & ? & ?). congruence.
Qed.
End Isolation.
