(* ===== verification/Maps.v ===== *)
(** * Process map snapshots

    [crates/manifest/src/maps.rs]: the strict parser of [/proc/<pid>/maps], the
    index over a validated snapshot with its binary search, and the resolution
    of an address to a file offset.  Errors carry the source's texts; the
    [expect] of [resolved_for] is the [None] of the model. *)
From stdpp Require Import pretty sorting.
From S2P Require Import Prelude Bytes.
Open Scope Z_scope.

Record Device := mkDevice { major : Z; minor : Z }.

Record ObjectKey := mkObjectKey { key_device : Device; key_inode : Z }.

Record MapEntry := mkMapEntry {
  start : Z;
  end_ : Z;
  file_offset : Z;
  permissions : list Z;
  device : Device;
  inode : Z;
  raw_path : option (list Z);
}.

Definition of_entry (entry : MapEntry) : ObjectKey := mkObjectKey (device entry) (inode entry).

#[export] Instance Device_eq_dec : EqDecision Device.
Proof. solve_decision. Defined.
#[export] Instance MapEntry_eq_dec : EqDecision MapEntry.
Proof. solve_decision. Defined.

(** [field]: the next whitespace-delimited field and the rest of the input. *)
Definition field (input : list Z) (name : string) : result string (list Z * list Z) :=
  let input := trim_ascii_start input in
  let end_ := position_or_len is_ascii_whitespace input in
  match end_ with
  | O => Err ("missing " +:+ name)%string
  | _ => Ok (take end_ input, drop end_ input)
  end.

Definition split_once (bytes : list Z) (delimiter : Z) (name : string)
    : result string (list Z * list Z) :=
  match split_on (λ byte, byte =? delimiter) bytes with
  | [before; after] =>
      if bool_decide (before = []) || bool_decide (after = [])
      then Err ("invalid " +:+ name)%string
      else Ok (before, after)
  | _ => Err ("invalid " +:+ name)%string
  end.

Definition parse_radix (radix : Z) (bytes : list Z) (name : string) : result string Z :=
  if valid_utf8 bytes
  then ok_or (u64_from_str_radix bytes radix) ("invalid " +:+ name)%string
  else Err ("invalid " +:+ name)%string.

Definition parse_hex : list Z → string → result string Z := parse_radix 16.

Definition parse_decimal : list Z → string → result string Z := parse_radix 10.

(** The characters of a permissions field. *)
Definition valid_permissions (p : list Z) : bool :=
  match p with
  | [r; w; x; s] =>
      ((r =? 114) || (r =? 45)) && ((w =? 119) || (w =? 45))
      && ((x =? 120) || (x =? 45)) && ((s =? 112) || (s =? 115))
  | _ => false
  end.

Definition parse_line (line : list Z) : result string MapEntry :=
  ' (range, line) ← field line "address range";
  ' (permissions, line) ← field line "permissions";
  if negb (Z.of_nat (length permissions) =? 4)
  then Err "permissions must contain four bytes"%string
  else if negb (valid_permissions permissions) then Err "invalid permissions"%string else
  ' (offset, line) ← field line "file offset";
  file_offset ← parse_hex offset "file offset";
  ' (device, line) ← field line "device";
  ' (inode, line) ← field line "inode";
  inode ← parse_decimal inode "inode";
  ' (start, end_) ← split_once range 45 "address range";
  start ← parse_hex start "mapping start";
  end_ ← parse_hex end_ "mapping end";
  if end_ <=? start then Err "mapping start must be less than end"%string else
  ' (major, minor) ← split_once device 58 "device";
  major ← parse_hex major "device major";
  minor ← parse_hex minor "device minor";
  let raw_path := trim_ascii_start line in
  Ok (mkMapEntry start end_ file_offset permissions (mkDevice major minor) inode
        (if bool_decide (raw_path = []) then None else Some raw_path)).

Fixpoint parse_lines (index : nat) (lines : list (list Z)) : result string (list MapEntry) :=
  match lines with
  | [] => Ok []
  | [] :: lines => parse_lines (S index) lines
  | line :: lines =>
      match parse_line line with
      | Ok entry => entries ← parse_lines (S index) lines; Ok (entry :: entries)
      | Err error =>
          Err ("invalid /proc maps line " +:+ pretty (index + 1)%nat +:+ ": " +:+ error)%string
      end
  end.

Definition parse_maps (bytes : list Z) : result string (list MapEntry) :=
  parse_lines 0 (split_on (λ byte, byte =? 10) bytes).

(** [MappingFileKey] of [identity.rs]. *)
Record MappingFileKey := mkFileKey {
  mount_id : Z;
  device_major : Z;
  device_minor : Z;
  mapping_inode : Z;
}.

#[export] Instance MappingFileKey_eq_dec : EqDecision MappingFileKey.
Proof. solve_decision. Defined.
#[export] Instance MappingFileKey_countable : Countable MappingFileKey.
Proof.
  refine (inj_countable' (λ k, (mount_id k, device_major k, device_minor k, mapping_inode k))
            (λ '(a, b, c, d), mkFileKey a b c d) _); by intros [].
Defined.

Definition executable_file_keys (entries : list MapEntry) : gset MappingFileKey :=
  list_to_set
    ((λ entry, mkFileKey 0 (major (device entry)) (minor (device entry)) (inode entry)) <$>
      List.filter (λ entry, bool_decide (permissions entry !! 2%nat = Some 120)
                            && negb (inode entry =? 0)) entries).

Inductive MappedPath :=
| Usable (path : list Z)
| Unusable (reason : string).

Inductive Resolved :=
| File (path : MappedPath) (raw_path : list Z) (file_offset : Z) (device : Device)
    (inode : Z) (permissions : list Z)
| Anonymous
| Unmapped.

Inductive InvalidMapSnapshot :=
| InvalidRange (index : nat)
| UnsortedOrOverlapping (left right : nat)
| FileOffsetOverflow (index : nat).

(** An absolute path. *)
Definition absolute (entry : MapEntry) : bool :=
  match raw_path entry with Some raw => starts_with raw [47] | None => false end.

(** The two validation loops of [MapIndex::new]. *)
Fixpoint check_ranges (index : nat) (entries : list MapEntry) : option InvalidMapSnapshot :=
  match entries with
  | [] => None
  | entry :: entries =>
      if end_ entry <=? start entry then Some (InvalidRange index)
      else if absolute entry &&
              bool_decide (checked_add 64 (file_offset entry) (end_ entry - start entry - 1) = None)
      then Some (FileOffsetOverflow index)
      else check_ranges (S index) entries
  end.

Fixpoint check_order (left : nat) (entries : list MapEntry) : option InvalidMapSnapshot :=
  match entries with
  | a :: (b :: _) as rest =>
      if start b <? end_ a then Some (UnsortedOrOverlapping left (left + 1))
      else check_order (S left) rest
  | _ => None
  end.

(** [MapIndex] holds the validated slice. *)
Definition MapIndex_new (entries : list MapEntry) : result InvalidMapSnapshot (list MapEntry) :=
  match check_ranges 0 entries with
  | Some invalid => Err invalid
  | None => match check_order 0 entries with
            | Some invalid => Err invalid
            | None => Ok entries
            end
  end.

Definition containing (entries : list MapEntry) (vaddr : Z) : option MapEntry :=
  let index := partition_point (λ entry, start entry <=? vaddr) entries in
  match index with
  | O => None
  | S index =>
      entry ← entries !! index;
      if vaddr <? end_ entry then Some entry else None
  end.

Definition mapped_path (raw : list Z) : MappedPath :=
  if any_window [92; 48; 49; 50] raw then Unusable "ambiguous \012 pathname"
  else if ends_with raw [32; 40; 100; 101; 108; 101; 116; 101; 100; 41]
  then Unusable "deleted mapping"
  else if valid_utf8 raw then Usable raw
  else Unusable "non-UTF-8 pathname".

(** [None] is the panic of the [expect]. *)
Definition resolved_for (entry : option MapEntry) (vaddr : Z) : option Resolved :=
  match entry with
  | None => Some Unmapped
  | Some m =>
      match raw_path m with
      | Some raw =>
          if starts_with raw [47] then
            offset ← checked_add 64 (file_offset m) (vaddr - start m);
            Some (File (mapped_path raw) raw offset (device m) (inode m) (permissions m))
          else Some Anonymous
      | None => Some Anonymous
      end
  end.

Definition MapIndex_resolve (entries : list MapEntry) (vaddr : Z) : option Resolved :=
  resolved_for (containing entries vaddr) vaddr.

Definition resolve (maps : list MapEntry) (vaddr : Z)
    : result InvalidMapSnapshot (option Resolved) :=
  entries ← MapIndex_new maps; Ok (MapIndex_resolve entries vaddr).

(** ** A validated snapshot *)

Definition valid_entry (entry : MapEntry) : Prop :=
  start entry < end_ entry ∧
  (absolute entry = true → in_width 64 (file_offset entry + (end_ entry - start entry - 1))).

Definition before (a b : MapEntry) : Prop := end_ a <= start b.

Lemma check_ranges_None index entries :
  check_ranges index entries = None ↔ Forall valid_entry entries.
Proof.
  revert index. induction entries as [|e entries IH]; intros index; simpl.
  { split; [constructor|done]. }
  rewrite Forall_cons. unfold valid_entry at 1. destruct (Z.leb_spec (end_ e) (start e)).
  { split; [done|]. intros [[? _] _]. lia. }
  case_bool_decide as Hc; rewrite ?andb_true_r, ?andb_false_r.
  - unfold checked_add in Hc. apply checked_None in Hc. destruct (absolute e).
    + split; [done|]. intros [[_ Hw] _]. by destruct Hc, Hw.
    + rewrite IH. naive_solver.
  - rewrite IH. unfold checked_add in Hc. rewrite checked_None in Hc. split; [|naive_solver].
    intros. split; [split; [done|]|done]. intros _. by apply dec_stable.
Qed.

Lemma check_order_None index entries :
  Forall valid_entry entries → check_order index entries = None ↔ StronglySorted before entries.
Proof.
  intros Hv. revert index. induction Hv as [|a entries Ha Hv IH]; intros index; simpl.
  { split; [constructor|done]. }
  destruct entries as [|b entries]; [split; [by repeat constructor|done]|].
  destruct (Z.ltb_spec (start b) (end_ a)) as [Hlt|Hle].
  { split; [done|]. intros [_ Hs]%StronglySorted_inv. apply Forall_inv in Hs.
    unfold before in Hs. lia. }
  rewrite IH. split; [|by intros [? _]%StronglySorted_inv].
  intros Hs. constructor; [done|]. apply StronglySorted_inv in Hs as [_ Hs].
  apply Forall_cons in Hv as [[Hb _] _]. constructor; [done|].
  eapply Forall_impl; [exact Hs|]. unfold before in *. intros. lia.
Qed.

Lemma MapIndex_new_ok entries index :
  MapIndex_new entries = Ok index ↔
  index = entries ∧ Forall valid_entry entries ∧ StronglySorted before entries.
Proof.
  unfold MapIndex_new. destruct (check_ranges 0 entries) eqn:Hr.
  { split; [done|]. intros (_ & H%(check_ranges_None 0) & _). congruence. }
  apply check_ranges_None in Hr. pose proof (check_order_None 0 _ Hr) as Ho.
  destruct (check_order 0 entries); naive_solver.
Qed.

Lemma sorted_lookup {A} (R : A → A → Prop) l i j x y :
  StronglySorted R l → (i < j)%nat → l !! i = Some x → l !! j = Some y → R x y.
Proof.
  intros Hs. revert i j. induction Hs as [|a l _ IH Hf]; intros i j Hij Hi Hj; [done|].
  destruct j as [|j]; [lia|]. destruct i as [|i]; simplify_eq/=.
  - by eapply Forall_lookup_1.
  - apply (IH i j); [lia|done..].
Qed.

(** Where the binary search lands: the last entry that starts at or below. *)
Lemma containing_boundary entries vaddr :
  Forall valid_entry entries → StronglySorted before entries →
  ∃ k, boundary (λ e, start e <=? vaddr) entries k ∧
       partition_point (λ e, start e <=? vaddr) entries = k.
Proof.
  intros Hv Hs. destruct (boundary_exists (λ e, start e <=? vaddr) entries) as [k Hk].
  - intros i j x y Hij Hi Hj Hy. destruct (decide (i = j)) as [->|]; [congruence|].
    assert (before x y) as Hxy by (eapply (sorted_lookup before entries i j); eauto; lia).
    destruct (Forall_lookup_1 _ _ _ _ Hv Hi). unfold before in Hxy.
    apply Z.leb_le in Hy. apply Z.leb_le. lia.
  - exists k. split; [done|]. by apply partition_point_spec.
Qed.

Lemma containing_iff entries vaddr e :
  Forall valid_entry entries → StronglySorted before entries →
  containing entries vaddr = Some e ↔ e ∈ entries ∧ start e <= vaddr < end_ e.
Proof.
  intros Hv Hs. destruct (containing_boundary entries vaddr Hv Hs) as (k & [Hk Hb] & Hpp).
  unfold containing. rewrite Hpp. split.
  - destruct k as [|k]; [done|]. destruct (entries !! k) as [x|] eqn:Hx; [|done]. simpl.
    destruct (Z.ltb_spec vaddr (end_ x)); [|done]. intros [= <-].
    split; [by eapply list_elem_of_lookup_2|].
    pose proof (proj2 (Hb _ _ Hx)) as Hle. split; [apply Z.leb_le, Hle; lia|done].
  - intros [Hin [Hlo Hhi]]. apply list_elem_of_lookup in Hin as [i Hi].
    assert (i < k)%nat as Hik by (apply (Hb _ _ Hi), Z.leb_le; lia).
    destruct k as [|k]; [lia|].
    destruct (decide (i = k)) as [->|].
    { rewrite Hi. simpl. by rewrite (proj2 (Z.ltb_lt _ _) Hhi). }
    destruct (lookup_lt_is_Some_2 entries k) as [x Hx]; [lia|].
    pose proof (sorted_lookup before entries i k e x Hs ltac:(lia) Hi Hx) as Hbx.
    assert ((start x <=? vaddr) = true) as Hle by (apply (Hb _ _ Hx); lia).
    unfold before in Hbx. apply Z.leb_le in Hle. lia.
Qed.

(** On a snapshot that [MapIndex::new] accepts, [containing] is exact: it
    returns the entry whose half-open range holds the address when there is
    one, which is then the only one, and nothing otherwise. *)
Theorem containing_exact entries index vaddr :
  MapIndex_new entries = Ok index →
  match containing index vaddr with
  | Some e => e ∈ entries ∧ start e <= vaddr < end_ e ∧
              ∀ e', e' ∈ entries → start e' <= vaddr < end_ e' → e' = e
  | None => ∀ e, e ∈ entries → ¬ (start e <= vaddr < end_ e)
  end.
Proof.
  intros (-> & Hv & Hs)%MapIndex_new_ok. destruct (containing entries vaddr) as [e|] eqn:He.
  - pose proof (proj1 (containing_iff _ _ _ Hv Hs) He) as [Hin Hr]. split_and!; [done|lia|lia|].
    intros e' Hin' Hr'. pose proof (proj2 (containing_iff _ _ _ Hv Hs) (conj Hin' Hr')).
    congruence.
  - intros e Hin Hr. pose proof (proj2 (containing_iff _ _ _ Hv Hs) (conj Hin Hr)). congruence.
Qed.

(** Two adjacent mappings of one library and an anonymous one after them. *)
Definition demo_entries : list MapEntry :=
  [mkMapEntry 4096 8192 0 [114; 45; 120; 112] (mkDevice 8 1) 9 (Some [47; 97]);
   mkMapEntry 8192 12288 4096 [114; 119; 45; 112] (mkDevice 8 1) 9 (Some [47; 97]);
   mkMapEntry 16384 20480 0 [114; 119; 45; 112] (mkDevice 0 0) 0 None].

Lemma containing_exact_witness :
  MapIndex_new demo_entries = Ok demo_entries ∧
  ∀ e, e ∈ demo_entries → ¬ (start e <= 12288 < end_ e).
Proof.
  split; [done|].
  exact (containing_exact demo_entries demo_entries 12288 eq_refl).
Defined.

(** Resolving an address never reaches the [expect]: on an accepted
    snapshot of 64-bit entries the address is unmapped, anonymous, or lies in
    a file at its entry's offset plus its distance from the entry's start, a
    64-bit offset. *)
Theorem resolve_total entries vaddr :
  Forall (λ e, 0 <= file_offset e) entries → is_ok (MapIndex_new entries) = true →
  match resolve entries vaddr with
  | Ok (Some Unmapped) => ∀ e, e ∈ entries → ¬ (start e <= vaddr < end_ e)
  | Ok (Some Anonymous) =>
      ∃ e, e ∈ entries ∧ start e <= vaddr < end_ e ∧ absolute e = false
  | Ok (Some (File path raw offset dev ino perms)) =>
      ∃ e, e ∈ entries ∧ start e <= vaddr < end_ e ∧ raw_path e = Some raw ∧
        path = mapped_path raw ∧ offset = file_offset e + (vaddr - start e) ∧ is_u64 offset ∧
        dev = device e ∧ ino = inode e ∧ perms = permissions e
  | _ => False
  end.
Proof.
  intros Ho Hnew. unfold resolve. destruct (MapIndex_new entries) as [index|] eqn:Hi; [|done].
  apply MapIndex_new_ok in Hi as (-> & Hv & Hs). cbn [mbind result_mbind].
  unfold MapIndex_resolve, resolved_for. destruct (containing entries vaddr) as [e|] eqn:He.
  2: { intros e Hin Hr. pose proof (proj2 (containing_iff _ _ _ Hv Hs) (conj Hin Hr)). congruence. }
  apply (containing_iff _ _ _ Hv Hs) in He as [Hin Hr].
  rewrite Forall_forall in Hv, Ho. destruct (Hv _ Hin) as [_ Hw]. specialize (Ho _ Hin).
  unfold absolute in Hw. destruct (raw_path e) as [raw|] eqn:Hraw.
  2: { exists e. unfold absolute. by rewrite Hraw. }
  destruct (starts_with raw [47]) eqn:Hsw.
  2: { exists e. unfold absolute. by rewrite Hraw, Hsw. }
  specialize (Hw eq_refl). unfold checked_add.
  destruct (checked_spec 64 (file_offset e + (vaddr - start e))) as [[-> ?]|[_ Hno]].
  - cbn [mbind option_bind]. exists e. split_and!; done || lia.
  - destruct Hno. unfold in_width in *. lia.
Qed.

Lemma resolve_total_witness :
  is_ok (MapIndex_new demo_entries) = true ∧
  ∃ e, e ∈ demo_entries ∧ start e <= 17000 < end_ e ∧ absolute e = false.
Proof.
  split; [done|].
  apply (resolve_total demo_entries 17000); [|done]. repeat constructor; done.
Defined.

(** ** Parsing what the kernel prints *)

(** [show_map_vma]: padded numbers, and the path after [pad] more spaces. *)
Definition render_entry (pad : nat) (e : MapEntry) : list Z :=
  (number_text 16 8 (start e) ++ 45 :: number_text 16 8 (end_ e)) ++ 32 ::
  permissions e ++ 32 ::
  number_text 16 8 (file_offset e) ++ 32 ::
  (number_text 16 2 (major (device e)) ++ 58 :: number_text 16 2 (minor (device e))) ++ 32 ::
  number_text 10 0 (inode e) ++
  match raw_path e with Some raw => replicate (S pad) 32 ++ raw | None => [] end.

Definition render_maps (pad : nat) (entries : list MapEntry) : list Z :=
  concat ((λ e, render_entry pad e ++ [10]) <$> entries).

(** What the kernel prints: 64-bit numbers, a nonempty range, permission
    characters, and a path that is one nonempty line without leading blanks. *)
Definition path_text (raw : list Z) : Prop :=
  (∃ b t, raw = b :: t ∧ is_ascii_whitespace b = false) ∧ Forall (λ b, b ≠ 10) raw.

Record printable (e : MapEntry) : Prop := {
  pr_start : is_u64 (start e);
  pr_end : is_u64 (end_ e);
  pr_range : start e < end_ e;
  pr_offset : is_u64 (file_offset e);
  pr_major : is_u64 (major (device e));
  pr_minor : is_u64 (minor (device e));
  pr_inode : is_u64 (inode e);
  pr_permissions : valid_permissions (permissions e) = true;
  pr_path : match raw_path e with Some raw => path_text raw | None => True end;
}.

(** A word of a line: nonempty and without whitespace. *)
Definition word (w : list Z) : Prop := w ≠ [] ∧ Forall (λ b, is_ascii_whitespace b = false) w.

Definition blank_first (rest : list Z) : Prop :=
  match rest with b :: _ => is_ascii_whitespace b = true | [] => True end.

Lemma position_word w rest :
  Forall (λ b, is_ascii_whitespace b = false) w → blank_first rest →
  position_or_len is_ascii_whitespace (w ++ rest) = length w.
Proof.
  intros Hw Hr. induction Hw as [|b w Hb _ IH]; simpl.
  - destruct rest; simpl in *; [done|by rewrite Hr].
  - by rewrite Hb, IH.
Qed.

Lemma field_word w rest name : word w → blank_first rest → field (w ++ rest) name = Ok (w, rest).
Proof.
  intros [Hne Hw] Hr. unfold field.
  assert (trim_ascii_start (w ++ rest) = w ++ rest) as ->.
  { destruct Hw as [|b w Hb ?]; [done|]. simpl. by rewrite Hb. }
  rewrite position_word, take_app_length, drop_app_length by done. by destruct w.
Qed.

Lemma field_space input name : field (32 :: input) name = field input name.
Proof. done. Qed.

Lemma digit_text_word l : Forall digit_text l → l ≠ [] → word l.
Proof.
  intros Hl Hne. split; [done|]. eapply Forall_impl; [exact Hl|].
  unfold digit_text, is_ascii_whitespace. intros b Hb. simpl in Hb. zif; lia.
Qed.

Lemma joined_word a b d :
  Forall digit_text a → a ≠ [] → Forall digit_text b → b ≠ [] →
  is_ascii_whitespace d = false → word (a ++ d :: b).
Proof.
  intros Ha Hane Hb Hbne Hd. destruct (digit_text_word a Ha Hane) as [_ Wa].
  destruct (digit_text_word b Hb Hbne) as [_ Wb]. split; [by destruct a|].
  apply Forall_app; auto.
Qed.

Lemma split_on_none d l : Forall (λ b, b ≠ d) l → split_on (λ b, b =? d) l = [l].
Proof.
  induction 1 as [|b l Hb _ IH]; [done|]. simpl. rewrite IH.
  by rewrite (proj2 (Z.eqb_neq _ _) Hb).
Qed.

Lemma split_on_app d l rest :
  Forall (λ b, b ≠ d) l →
  split_on (λ b, b =? d) (l ++ d :: rest) = l :: split_on (λ b, b =? d) rest.
Proof.
  induction 1 as [|b l Hb _ IH]; simpl; [by rewrite Z.eqb_refl|].
  by rewrite (proj2 (Z.eqb_neq _ _) Hb), IH.
Qed.

Lemma digit_text_ne d l : ¬ digit_text d → Forall digit_text l → Forall (λ b, b ≠ d) l.
Proof. intros Hd Hl. eapply Forall_impl; [exact Hl|]. by intros b Hb ->. Qed.

Lemma split_once_text a b d name :
  ¬ digit_text d → Forall digit_text a → a ≠ [] → Forall digit_text b → b ≠ [] →
  split_once (a ++ d :: b) d name = Ok (a, b).
Proof.
  intros Hd Ha Hane Hb Hbne. unfold split_once.
  rewrite split_on_app, split_on_none by eauto using digit_text_ne.
  by rewrite !bool_decide_false by done.
Qed.

Lemma parse_radix_text radix width n name :
  2 <= radix <= 16 → is_u64 n → parse_radix radix (number_text radix width n) name = Ok n.
Proof.
  intros Hr Hn. unfold parse_radix.
  rewrite valid_utf8_ascii, from_str_radix_text; [done|done|done|].
  eapply Forall_impl; [by apply number_text_chars|]. unfold digit_text. simpl. lia.
Qed.

Lemma valid_permissions_word p : valid_permissions p = true → word p ∧ length p = 4%nat.
Proof.
  destruct p as [|r [|w [|x [|s []]]]]; try done. unfold valid_permissions.
  rewrite !andb_true_iff, !orb_true_iff, !Z.eqb_eq. intros H.
  destruct_and!. destruct_or!; subst; repeat constructor; done.
Qed.

Lemma trim_spaces k l : trim_ascii_start (replicate k 32 ++ l) = trim_ascii_start l.
Proof. induction k; simpl; auto. Qed.

(** The tail of a rendered line gives back the path. *)
Lemma path_of_tail pad raw :
  match raw with Some raw => path_text raw | None => True end →
  let tail := match raw with Some raw => replicate (S pad) 32 ++ raw | None => [] end in
  blank_first tail ∧
  (if bool_decide (trim_ascii_start tail = []) then None else Some (trim_ascii_start tail)) = raw.
Proof.
  destruct raw as [raw|]; [|done]. intros [(b & t & -> & Hb) _]. split; [done|].
  rewrite trim_spaces. simpl. rewrite Hb. done.
Qed.

Lemma parse_line_render pad e : printable e → parse_line (render_entry pad e) = Ok e.
Proof.
  intros [Hs He Hr Ho Hma Hmi Hi Hp Hraw].
  destruct (number_text_chars 16 8 (start e)) as [Cs Ns]; [lia|done|].
  destruct (number_text_chars 16 8 (end_ e)) as [Ce Ne]; [lia|done|].
  destruct (number_text_chars 16 8 (file_offset e)) as [Co No]; [lia|done|].
  destruct (number_text_chars 16 2 (major (device e))) as [Cma Nma]; [lia|done|].
  destruct (number_text_chars 16 2 (minor (device e))) as [Cmi Nmi]; [lia|done|].
  destruct (number_text_chars 10 0 (inode e)) as [Ci Ni]; [lia|done|].
  destruct (valid_permissions_word _ Hp) as [Wp Lp].
  destruct (path_of_tail pad (raw_path e) Hraw) as [Hb Hpath].
  assert (word (number_text 16 8 (start e) ++ 45 :: number_text 16 8 (end_ e))) as Wr
    by eauto using joined_word.
  assert (word (number_text 16 2 (major (device e)) ++ 58 :: number_text 16 2 (minor (device e))))
    as Wd by eauto using joined_word.
  unfold parse_line, render_entry, parse_hex, parse_decimal.
  rewrite field_word by done. cbn [mbind result_mbind].
  rewrite field_space, field_word by done. cbn [mbind result_mbind].
  rewrite Lp, Hp. cbn [negb Z.eqb Z.of_nat].
  rewrite field_space, field_word by (done || eauto using digit_text_word). cbn [mbind result_mbind].
  rewrite parse_radix_text by (done || lia). cbn [mbind result_mbind].
  rewrite field_space, field_word by done. cbn [mbind result_mbind].
  rewrite field_space, field_word by (done || eauto using digit_text_word). cbn [mbind result_mbind].
  rewrite parse_radix_text by (done || lia). cbn [mbind result_mbind].
  rewrite !split_once_text by (done || unfold digit_text; lia). cbn [mbind result_mbind].
  rewrite !parse_radix_text by (done || lia). cbn [mbind result_mbind].
  rewrite (proj2 (Z.leb_gt _ _) Hr).
  cbv zeta. rewrite Hpath. by destruct e as [? ? ? ? [] ? ?].
Qed.

Lemma render_entry_line pad e :
  printable e → Forall (λ b, b ≠ 10) (render_entry pad e) ∧ render_entry pad e ≠ [].
Proof.
  intros [Hs He Hr Ho Hma Hmi Hi Hp Hraw]. unfold render_entry. split.
  2: { by destruct (number_text 16 8 (start e)). }
  assert (∀ r w n, 2 <= r <= 16 → is_u64 n → Forall (λ b, b ≠ 10) (number_text r w n)) as Hn.
  { intros r w n Hr' Hn'. apply (digit_text_ne 10); [unfold digit_text; lia|].
    by apply number_text_chars. }
  destruct (valid_permissions_word _ Hp) as [[_ Wp] _].
  assert (Forall (λ b, b ≠ 10) (permissions e)) as Hperm.
  { eapply Forall_impl; [exact Wp|]. intros b Hb ->. done. }
  repeat first [rewrite Forall_app | rewrite Forall_cons].
  split_and!; try done; try (apply Hn; done || lia).
  destruct (raw_path e) as [raw|]; [|done]. destruct Hraw as [_ Hraw].
  apply Forall_app. split; [by apply Forall_replicate|done].
Qed.

Lemma parse_lines_render pad entries index :
  Forall printable entries →
  parse_lines index (split_on (λ byte, byte =? 10) (render_maps pad entries)) = Ok entries.
Proof.
  intros Hp. revert index. induction Hp as [|e entries He _ IH]; intros index; [done|].
  destruct (render_entry_line pad e He) as [Hl Hne]. unfold render_maps in *. cbn [fmap list_fmap concat].
  rewrite <- app_assoc. cbn [app]. rewrite split_on_app by done.
  cbn [parse_lines]. destruct (render_entry pad e) as [|b t] eqn:Ht; [done|].
  rewrite <- Ht, parse_line_render by done. by rewrite IH.
Qed.

(** C34: the parser inverts the kernel's rendering: printing any list of
    printable mappings, with any column padding before the path, and parsing
    the bytes gives back exactly those mappings. *)
Theorem parse_maps_render pad entries :
  Forall printable entries → parse_maps (render_maps pad entries) = Ok entries.
Proof. apply parse_lines_render. Qed.

Lemma parse_maps_render_witness :
  parse_maps (render_maps 24 demo_entries) = Ok demo_entries.
Proof.
  apply (parse_maps_render 24 demo_entries). unfold demo_entries.
  repeat (apply Forall_cons; split); try apply Forall_nil; try done;
    split; try done; split; try (by repeat constructor); by eexists _, _.
Defined.

(** ** What an accepted snapshot guarantees *)

Lemma parse_radix_range radix bytes name n :
  parse_radix radix bytes name = Ok n → 1 <= radix → is_u64 n.
Proof.
  unfold parse_radix. destruct (valid_utf8 bytes); [|done]. rewrite ok_or_ok.
  intros H Hr. assert (∀ l acc, is_u64 acc → accumulate radix acc l = Some n → is_u64 n) as Ha.
  { induction l as [|b l IH]; intros acc Hacc; simpl; [by intros [= ->]|].
    destruct (to_digit radix b); [|done]. simpl. unfold checked_mul, checked_add.
    destruct (checked_spec 64 (acc * radix)) as [[-> ?]|[-> ?]]; [|done]. simpl.
    destruct (checked_spec 64 (acc * radix + z)) as [[-> ?]|[-> ?]]; [|done]. simpl. by apply IH. }
  destruct bytes as [|b bytes]; [done|]. cbn [u64_from_str_radix] in H.
  destruct (b =? 43); [destruct bytes; [done|]|]; by eapply Ha.
Qed.

(** An accepted entry: 64-bit numbers, a nonempty range and known permissions. *)
Record accepted (e : MapEntry) : Prop := {
  ac_start : is_u64 (start e);
  ac_end : is_u64 (end_ e);
  ac_range : start e < end_ e;
  ac_offset : is_u64 (file_offset e);
  ac_major : is_u64 (major (device e));
  ac_minor : is_u64 (minor (device e));
  ac_inode : is_u64 (inode e);
  ac_permissions : valid_permissions (permissions e) = true;
  ac_path : raw_path e ≠ Some [];
}.

Ltac step_ok := repeat match goal with
  | H : (_ ≫= _) = Ok _ |- _ => apply result_bind_ok in H as (? & ? & ?)
  | H : (let '(_, _) := ?p in _) = Ok _ |- _ => destruct p
  | H : (if ?b then Err _ else _) = Ok _ |- _ => destruct b eqn:?; [done|]
  end.

Lemma parse_line_accepted line e : parse_line line = Ok e → accepted e.
Proof.
  intros H. unfold parse_line, parse_hex, parse_decimal in H. step_ok.
  match goal with H : Ok _ = Ok e |- _ => injection H as <- end.
  split; simpl; try (by eapply parse_radix_range; eauto; lia).
  - by apply Z.leb_gt.
  - by apply negb_false_iff.
  - case_bool_decide; congruence.
Qed.

Lemma parse_lines_accepted index lines entries :
  parse_lines index lines = Ok entries → Forall accepted entries.
Proof.
  revert index entries. induction lines as [|line lines IH]; intros index entries H; simpl in H.
  { injection H as <-. constructor. }
  destruct line as [|b line]; [eauto|].
  destruct (parse_line (b :: line)) as [e|] eqn:He; [|done]. step_ok.
  match goal with H : Ok _ = Ok _ |- _ => injection H as <- end.
  constructor; eauto using parse_line_accepted.
Qed.

(** Whatever bytes are parsed, an accepted snapshot has only well-formed
    entries, so it lands in the domain of [resolve]: once [MapIndex::new]
    accepts it too, no address makes the resolution panic. *)
Theorem parse_maps_resolves bytes entries vaddr :
  parse_maps bytes = Ok entries →
  Forall accepted entries ∧
  (∀ r, resolve entries vaddr = Ok r → r ≠ None).
Proof.
  intros Hp. pose proof (parse_lines_accepted _ _ _ Hp) as Ha. split; [done|].
  intros r Hr ->. unfold resolve in Hr. step_ok.
  match goal with H : MapIndex_new _ = Ok _ |- _ => apply MapIndex_new_ok in H as (-> & Hv & Hs) end.
  match goal with H : Ok _ = Ok _ |- _ => injection H as H; revert H end.
  unfold MapIndex_resolve, resolved_for. destruct (containing entries vaddr) as [e|] eqn:He; [|done].
  apply (containing_iff _ _ _ Hv Hs) in He as [Hin Hrange].
  rewrite Forall_forall in Hv, Ha. destruct (Hv _ Hin) as [_ Hw]. destruct (Ha _ Hin).
  unfold absolute in Hw. destruct (raw_path e) as [raw|]; [|done].
  destruct (starts_with raw [47]); [|done]. specialize (Hw eq_refl). unfold checked_add.
  destruct (checked_spec 64 (file_offset e + (vaddr - start e))) as [[-> ?]|[_ Hno]]; [done|].
  destruct Hno. unfold in_width in *. lia.
Qed.

Lemma parse_maps_resolves_witness :
  parse_maps (render_maps 0 demo_entries) = Ok demo_entries ∧ Forall accepted demo_entries.
Proof.
  assert (parse_maps (render_maps 0 demo_entries) = Ok demo_entries) as H
    by (vm_compute; reflexivity).
  split; [exact H|]. exact (proj1 (parse_maps_resolves _ _ 0 H)).
Defined.
