(* ===== verification/Tickets.v ===== *)
(** * Capture-lifetime identities

    The identity allocators of [src/capacity.rs]: the first-touch ledger, the
    append-only slot identities, the identity tickets with their fault script,
    the live-admission budget, and the pair of overlapping identity domains.
    An [&mut self] method is a function of the state that returns its result
    and the new state.  Counters are [u64] with the wrap of a build without
    overflow checks; a failed [assert!] is [None]. *)
From stdpp Require Import sorting.
From S2P Require Import Prelude Discovery.
Open Scope Z_scope.

(** [x += 1] on a [u64]. *)
Definition incr64 (x : Z) : Z := as_u64 (x + 1).

(** ** The first-touch ledger *)
Module FirstTouch.

(** The set behind the mutex, and the four atomic counters. *)
Record FirstTouchLedger := mkLedger {
  cap : Z;
  inner : gset Z;
  initializations : Z;
  relookups : Z;
  insert_failures : Z;
  relookup_failures : Z;
}.

Record FirstTouchExhausted := mkExhausted { key : Z; at_cap : Z }.

Definition new (cap : Z) : FirstTouchLedger := mkLedger cap ∅ 0 0 0 0.

(** The whole call runs under the lock, so concurrent calls are a sequence of
    these steps. *)
Definition first_touch_or_relookup (k : Z) (l : FirstTouchLedger)
    : result FirstTouchExhausted bool * FirstTouchLedger :=
  if bool_decide (k ∈ inner l) then
    (Ok false, mkLedger (cap l) (inner l) (initializations l) (incr64 (relookups l))
                 (insert_failures l) (relookup_failures l))
  else if cap l <=? Z.of_nat (size (inner l)) then
    (Err (mkExhausted k (cap l)),
     mkLedger (cap l) (inner l) (initializations l) (relookups l)
       (incr64 (insert_failures l)) (relookup_failures l))
  else
    (Ok true, mkLedger (cap l) ({[k]} ∪ inner l) (incr64 (initializations l)) (relookups l)
                (insert_failures l) (relookup_failures l)).

(** The calls of all racing callers, in the order the lock serves them. *)
Fixpoint calls (ks : list Z) (l : FirstTouchLedger)
    : list (result FirstTouchExhausted bool) * FirstTouchLedger :=
  match ks with
  | [] => ([], l)
  | k :: ks =>
      let '(r, l) := first_touch_or_relookup k l in
      let '(rs, l) := calls ks l in (r :: rs, l)
  end.
End FirstTouch.

(** ** Slot identities *)

Inductive SlotIdentity := Active | Retired | ConsumedWithoutIdentity | Unknown.

#[export] Instance SlotIdentity_eq_dec : EqDecision SlotIdentity.
Proof. solve_decision. Defined.

Module Slots.

Record SlotIdentityAllocator := mkSlots { max_id : Z; next : Z; retired : gset Z }.

(** [SlotIdentityError::Exhausted]. *)
Record SlotIdentityError := Exhausted { wanted : Z; budget : Z }.

Definition new (lifetime_max_id : Z) : SlotIdentityAllocator := mkSlots lifetime_max_id 0 ∅.

(** [self.next += 1] is on a [u32]. *)
Definition allocate (a : SlotIdentityAllocator)
    : result SlotIdentityError Z * SlotIdentityAllocator :=
  if max_id a <? next a then (Err (Exhausted (next a) (max_id a)), a)
  else (Ok (next a), mkSlots (max_id a) (as_u32 (next a + 1)) (retired a)).

Definition retire (id : Z) (a : SlotIdentityAllocator) : SlotIdentityAllocator :=
  if id <? next a then mkSlots (max_id a) (next a) ({[id]} ∪ retired a) else a.

Definition resolve (id : Z) (a : SlotIdentityAllocator) : SlotIdentity :=
  if next a <=? id then Unknown
  else if bool_decide (id ∈ retired a) then Retired
  else Active.

Inductive op := Allocate | Retire (id : Z).

(** A history of operations, and the ids it handed out. *)
Fixpoint history (ops : list op) (a : SlotIdentityAllocator)
    : list Z * SlotIdentityAllocator :=
  match ops with
  | [] => ([], a)
  | Retire id :: ops => history ops (retire id a)
  | Allocate :: ops =>
      let '(r, a) := allocate a in
      let '(ids, a) := history ops a in
      (match r with Ok id => id :: ids | Err _ => ids end, a)
  end.
End Slots.

(** ** Identity tickets *)
Module Tickets.

Record TicketPolicy := mkPolicy { limit : Z; version : Z }.

Definition v1_c1 : TicketPolicy := mkPolicy IMAGE_IDENTITY_TICKET_LIMIT 1.

(** [None] is a refusal. *)
Definition reviewed (limit version : Z) : option TicketPolicy :=
  if version =? 0 then None
  else if limit =? 0 then None
  else if (version =? 1) && negb (limit =? IMAGE_IDENTITY_TICKET_LIMIT) then None
  else Some (mkPolicy limit version).

(** The control words [COOKIE_CTL] is loaded with. *)
Record ImageIdentityControl := mkControl {
  ctl_limit : Z;
  ctl_next_ticket : Z;
  ctl_unavailable : Z;
  ctl_create_failures : Z;
  ctl_retry_exhausted : Z;
}.

Definition control_image (p : TicketPolicy) : ImageIdentityControl := mkControl (limit p) 0 0 0 0.

Definition validate_control (control : ImageIdentityControl) (policy : TicketPolicy) : bool :=
  negb (negb (ctl_limit control =? limit policy)
        || nz (ctl_next_ticket control)
        || nz (ctl_unavailable control)
        || nz (ctl_create_failures control)
        || nz (ctl_retry_exhausted control)).

Definition TICKET_CAS_TRIES : Z := 8.

Inductive InjectedFault := CasContention | CreateFailedFault.

Record FaultScript := mkScript { script : list InjectedFault; cursor : nat }.

Definition next_fault (f : FaultScript) : option InjectedFault * FaultScript :=
  match script f !! cursor f with
  | Some fault => (Some fault, mkScript (script f) (S (cursor f)))
  | None => (None, f)
  end.

Inductive TicketError :=
| Quota (wanted_cookie limit : Z)
| CreateFailed (consumed_cookie : Z)
| RetryExhausted.

Record TicketAllocator := mkTickets {
  policy : TicketPolicy;
  next_ticket : Z;
  retired : gset Z;
  consumed_without_identity : gset Z;
  attempted : Z;
  admitted : Z;
  quota_refusals : Z;
  create_failures : Z;
  retries_exhausted : Z;
}.

Definition new (p : TicketPolicy) : TicketAllocator := mkTickets p 0 ∅ ∅ 0 0 0 0 0.

(** [None] is a refusal of the restored counter or of a tombstone. *)
Definition restore (p : TicketPolicy) (next : Z) (tombstones : list Z) : option TicketAllocator :=
  if limit p <? next then None
  else if existsb (λ cookie, (cookie =? 0) || (next <? cookie)) tombstones then None
  else Some (mkTickets p next (list_to_set tombstones) ∅ 0 0 0 0 0).

Definition refuse_quota (a : TicketAllocator) : result TicketError Z * TicketAllocator :=
  (Err (Quota (saturating_add 64 (next_ticket a) 1) (limit (policy a))),
   mkTickets (policy a) (next_ticket a) (retired a) (consumed_without_identity a)
     (incr64 (attempted a)) (admitted a) (incr64 (quota_refusals a)) (create_failures a)
     (retries_exhausted a)).

(** [next_ticket < limit] leaves room for the successor, so the [expect] of
    [checked_add] is the [+ 1]. *)
Definition allocate (a : TicketAllocator) : result TicketError Z * TicketAllocator :=
  if limit (policy a) <=? next_ticket a then refuse_quota a
  else
    (Ok (next_ticket a + 1),
     mkTickets (policy a) (next_ticket a + 1) (retired a) (consumed_without_identity a)
       (incr64 (attempted a)) (incr64 (admitted a)) (quota_refusals a) (create_failures a)
       (retries_exhausted a)).

(** The create-failure branch. *)
Definition create_failed (a : TicketAllocator) : result TicketError Z * TicketAllocator :=
  if limit (policy a) <=? next_ticket a then refuse_quota a
  else
    let cookie := next_ticket a + 1 in
    (Err (CreateFailed cookie),
     mkTickets (policy a) (next_ticket a + 1) (retired a)
       ({[cookie]} ∪ consumed_without_identity a)
       (incr64 (attempted a)) (admitted a) (quota_refusals a) (incr64 (create_failures a))
       (retries_exhausted a)).

Definition exhaust_retries (a : TicketAllocator) : result TicketError Z * TicketAllocator :=
  (Err RetryExhausted,
   mkTickets (policy a) (next_ticket a) (retired a) (consumed_without_identity a)
     (incr64 (attempted a)) (admitted a) (quota_refusals a) (create_failures a)
     (incr64 (retries_exhausted a))).

(** The loop of [allocate_with_faults]; every round but the last burns one CAS
    attempt, so [TICKET_CAS_TRIES] rounds are enough. *)
Fixpoint fault_loop (fuel : nat) (attempts : Z) (f : FaultScript) (a : TicketAllocator)
    : option (result TicketError Z * FaultScript * TicketAllocator) :=
  match fuel with
  | O => None
  | S fuel =>
    match next_fault f with
    | (None, f) => let '(r, a) := allocate a in Some (r, f, a)
    | (Some CasContention, f) =>
        if TICKET_CAS_TRIES <=? attempts + 1
        then let '(r, a) := exhaust_retries a in Some (r, f, a)
        else fault_loop fuel (attempts + 1) f a
    | (Some CreateFailedFault, f) => let '(r, a) := create_failed a in Some (r, f, a)
    end
  end.

Definition allocate_with_faults (f : FaultScript) (a : TicketAllocator)
    : option (result TicketError Z * FaultScript * TicketAllocator) :=
  fault_loop (Z.to_nat TICKET_CAS_TRIES) 0 f a.

Definition retire (cookie : Z) (a : TicketAllocator) : TicketAllocator :=
  if nz cookie && (cookie <=? next_ticket a)
     && negb (bool_decide (cookie ∈ consumed_without_identity a))
  then mkTickets (policy a) (next_ticket a) ({[cookie]} ∪ retired a)
         (consumed_without_identity a) (attempted a) (admitted a) (quota_refusals a)
         (create_failures a) (retries_exhausted a)
  else a.

Definition resolve (cookie : Z) (a : TicketAllocator) : SlotIdentity :=
  if (cookie =? 0) || (next_ticket a <? cookie) then Unknown
  else if bool_decide (cookie ∈ consumed_without_identity a) then ConsumedWithoutIdentity
  else if bool_decide (cookie ∈ retired a) then Retired
  else Active.

(** [accounting().live_unretired]. *)
Definition live_unretired (a : TicketAllocator) : Z :=
  saturating_sub
    (saturating_sub (next_ticket a) (Z.of_nat (size (retired a))))
    (Z.of_nat (size (consumed_without_identity a))).
End Tickets.

(** ** Live admission *)
Module Live.

Inductive AdmissionError :=
| LiveBudgetExhausted (cookie cap : Z)
| DuplicateReservation (cookie : Z).

Record LiveAdmission := mkLive {
  cap : Z;
  reserved : gset Z;
  live : gset Z;
  peak_live : Z;
  admitted_total : Z;
  refused_total : Z;
  rollbacks : Z;
  releases : Z;
}.

(** Opaque, non-copyable witnesses: only [reserve] and [LiveAdmission_admit] mint them. *)
Record AdmissionReservation := mkReservation { reservation_cookie : Z }.
Record StorageToken := mkToken { token_cookie : Z }.

Definition new (cap : Z) : option LiveAdmission :=
  if cap =? 0 then None else Some (mkLive cap ∅ ∅ 0 0 0 0 0).

Definition reserve (cookie : Z) (a : LiveAdmission)
    : result AdmissionError AdmissionReservation * LiveAdmission :=
  if bool_decide (cookie ∈ reserved a) || bool_decide (cookie ∈ live a) then
    (Err (DuplicateReservation cookie), a)
  else if cap a <=? Z.of_nat (size (reserved a)) + Z.of_nat (size (live a)) then
    (Err (LiveBudgetExhausted cookie (cap a)),
     mkLive (cap a) (reserved a) (live a) (peak_live a) (admitted_total a)
       (incr64 (refused_total a)) (rollbacks a) (releases a))
  else
    (Ok (mkReservation cookie),
     mkLive (cap a) ({[cookie]} ∪ reserved a) (live a) (peak_live a) (admitted_total a)
       (refused_total a) (rollbacks a) (releases a)).

Definition LiveAdmission_admit (r : AdmissionReservation) (a : LiveAdmission)
    : option (StorageToken * LiveAdmission) :=
  let cookie := reservation_cookie r in
  if bool_decide (cookie ∈ reserved a) then
    let live' := {[cookie]} ∪ live a in
    Some (mkToken cookie,
          mkLive (cap a) (reserved a ∖ {[cookie]}) live'
            (Z.max (peak_live a) (Z.of_nat (size live'))) (incr64 (admitted_total a))
            (refused_total a) (rollbacks a) (releases a))
  else None.

Definition rollback (r : AdmissionReservation) (a : LiveAdmission) : option LiveAdmission :=
  let cookie := reservation_cookie r in
  if bool_decide (cookie ∈ reserved a) then
    Some (mkLive (cap a) (reserved a ∖ {[cookie]}) (live a) (peak_live a) (admitted_total a)
            (refused_total a) (incr64 (rollbacks a)) (releases a))
  else None.

Definition release (t : StorageToken) (a : LiveAdmission) : option LiveAdmission :=
  let cookie := token_cookie t in
  if bool_decide (cookie ∈ live a) then
    Some (mkLive (cap a) (reserved a) (live a ∖ {[cookie]}) (peak_live a) (admitted_total a)
            (refused_total a) (rollbacks a) (incr64 (releases a)))
  else None.

(** A client of the budget: the admission state with the reservations and
    tokens it was handed and has not given back.  The [None] target of a step
    is a failed assertion. *)
Record client := mkClient {
  admission : LiveAdmission;
  held : list AdmissionReservation;
  tokens : list StorageToken;
}.

Inductive step : client → option client → Prop :=
| step_reserve cookie a a' h t r :
    reserve cookie a = (r, a') →
    step (mkClient a h t)
      (Some (mkClient a' (match r with Ok x => x :: h | Err _ => h end) t))
| step_admit x a h1 h2 t :
    step (mkClient a (h1 ++ x :: h2) t)
      ('(y, a') ← LiveAdmission_admit x a; Some (mkClient a' (h1 ++ h2) (y :: t)))
| step_rollback x a h1 h2 t :
    step (mkClient a (h1 ++ x :: h2) t)
      (a' ← rollback x a; Some (mkClient a' (h1 ++ h2) t))
| step_release y a h t1 t2 :
    step (mkClient a h (t1 ++ y :: t2))
      (a' ← release y a; Some (mkClient a' h (t1 ++ t2))).

Definition start (cap : Z) : client := mkClient (mkLive cap ∅ ∅ 0 0 0 0 0) [] [].

Inductive reachable (cap : Z) : client → nat → Prop :=
| reach_start : reachable cap (start cap) 0
| reach_step c c' n : reachable cap c n → step c (Some c') → reachable cap c' (S n).
End Live.

(** ** Two overlapping identity domains *)
Module Overlap.
Import Tickets.

Inductive DomainSide := Old | New.

Inductive OverlapError := OverlapInProgress | OldDomainStillProducing | TerminalEvidenceUnacked.

(** [DurableAck] of the export session. *)
Record DurableAck := mkAck { through_id : Z; ack_checksum : Z }.

Record ClosedDomain := mkClosed { retired_cookies : Z; aliases_preserved : Z }.

Record OverlapPair := mkPair {
  old : TicketAllocator;
  new_ : option TicketAllocator;
  aliases : gmap Z Z;
  old_sealed : bool;
  terminal_ack : option DurableAck;
}.

Definition single (p : TicketPolicy) : OverlapPair := mkPair (Tickets.new p) None ∅ false None.

Definition allocate (p : OverlapPair) : DomainSide * result TicketError Z * OverlapPair :=
  match new_ p with
  | Some n => let '(r, n) := Tickets.allocate n in
              (New, r, mkPair (old p) (Some n) (aliases p) (old_sealed p) (terminal_ack p))
  | None => let '(r, o) := Tickets.allocate (old p) in
            (Old, r, mkPair o None (aliases p) (old_sealed p) (terminal_ack p))
  end.

Definition retire (side : DomainSide) (cookie : Z) (p : OverlapPair) : OverlapPair :=
  match side, new_ p with
  | New, Some n =>
      mkPair (old p) (Some (Tickets.retire cookie n)) (aliases p) (old_sealed p) (terminal_ack p)
  | _, n => mkPair (Tickets.retire cookie (old p)) n (aliases p) (old_sealed p) (terminal_ack p)
  end.

Definition begin_overlap (policy : TicketPolicy) (p : OverlapPair)
    : result OverlapError unit * OverlapPair :=
  match new_ p with
  | Some _ => (Err OverlapInProgress, p)
  | None => (Ok (), mkPair (old p) (Some (Tickets.new policy)) (aliases p) (old_sealed p)
                      (terminal_ack p))
  end.

Definition alias_same_task (old_cookie new_cookie : Z) (p : OverlapPair) : OverlapPair :=
  mkPair (old p) (new_ p) (<[old_cookie := new_cookie]> (aliases p)) (old_sealed p)
    (terminal_ack p).

Definition link_factor (p : OverlapPair) : Z :=
  match new_ p with Some _ => 1 | None => 0 end + 1.

Definition seal_old_domain (p : OverlapPair) : OverlapPair :=
  mkPair (old p) (new_ p) (aliases p) true (terminal_ack p).

Definition ack_old_terminal (ack : DurableAck) (p : OverlapPair) : OverlapPair :=
  mkPair (old p) (new_ p) (aliases p) (old_sealed p) (Some ack).

Definition close_old_domain (p : OverlapPair) : result OverlapError ClosedDomain * OverlapPair :=
  if negb (old_sealed p) then (Err OldDomainStillProducing, p)
  else match terminal_ack p with
  | None => (Err TerminalEvidenceUnacked, p)
  | Some _ =>
    match new_ p with
    | None => (Err OldDomainStillProducing, p)
    | Some n =>
        (Ok (mkClosed (admitted (old p)) (Z.of_nat (size (aliases p)))),
         mkPair n None (aliases p) false None)
    end
  end.
End Overlap.

(** ** First touch: one winner per key *)

Lemma incr64_small x : 0 <= x < 2 ^ 64 - 1 → incr64 x = x + 1.
Proof. intros. unfold incr64. apply wrap_small. unfold in_width. lia. Qed.

Section FirstTouchSpec.
Import FirstTouch.

(** How often key [k] was told it initialized. *)
Fixpoint wins (k : Z) (ks : list Z) (rs : list (result FirstTouchExhausted bool)) : nat :=
  match ks, rs with
  | k' :: ks, Ok true :: rs => (if decide (k' = k) then 1 else 0) + wins k ks rs
  | _ :: ks, _ :: rs => wins k ks rs
  | _, _ => O
  end.

(** What the counters account for. *)
Record ledger_ok (l : FirstTouchLedger) (n : Z) : Prop := {
  lo_cap : Z.of_nat (size (inner l)) <= cap l;
  lo_init : initializations l = Z.of_nat (size (inner l));
  lo_look : 0 <= relookups l;
  lo_fail : 0 <= insert_failures l;
  lo_never : relookup_failures l = 0;
  lo_total : initializations l + relookups l + insert_failures l = n;
}.

Lemma first_touch_step k l n r l' :
  ledger_ok l n → 0 <= n < 2 ^ 64 - 1 → first_touch_or_relookup k l = (r, l') →
  ledger_ok l' (n + 1) ∧ inner l ⊆ inner l' ∧
  (r = Ok true → (k ∉ inner l) ∧ inner l' = {[k]} ∪ inner l) ∧
  (r ≠ Ok true → inner l' = inner l) ∧
  (is_ok r = true → k ∈ inner l').
Proof.
  intros [Hc Hi Hl Hf Hz Ht] Hn. unfold first_touch_or_relookup.
  case_bool_decide as Hk; [|destruct (Z.leb_spec (cap l) (Z.of_nat (size (inner l))))];
    intros [= <- <-]; simpl.
  - split_and!; [split; simpl; rewrite ?incr64_small by lia; lia|set_solver..].
  - split_and!; [split; simpl; rewrite ?incr64_small by lia; lia|set_solver..].
  - assert (size ({[k]} ∪ inner l) = S (size (inner l))) as Hs.
    { rewrite size_union by set_solver. by rewrite size_singleton. }
    split_and!; [split; simpl; rewrite ?Hs, ?incr64_small by lia; lia|set_solver..].
Qed.

Lemma calls_spec ks l n rs l' :
  ledger_ok l n → 0 <= n → n + Z.of_nat (length ks) < 2 ^ 64 → calls ks l = (rs, l') →
  ledger_ok l' (n + Z.of_nat (length ks)) ∧ inner l ⊆ inner l' ∧
  ∀ k, (wins k ks rs + Nat.b2n (bool_decide (k ∈ inner l)) =
        Nat.b2n (bool_decide (k ∈ inner l')))%nat.
Proof.
  revert l n rs l'. induction ks as [|k ks IH]; intros l n rs l' Hok Hn Hlt Hrun.
  { injection Hrun as <- <-. rewrite Z.add_0_r. done. }
  cbn [calls length] in *. destruct (first_touch_or_relookup k l) as [r l1] eqn:H1.
  destruct (calls ks l1) as [rs1 l2] eqn:H2. injection Hrun as <- <-.
  destruct (first_touch_step k l n r l1 Hok ltac:(lia) H1) as (Hok1 & Hsub & Hwin & Hno & _).
  destruct (IH l1 (n + 1) rs1 l2 Hok1 ltac:(lia) ltac:(lia) H2) as (Hok2 & Hsub2 & Hcount).
  split_and!; [by replace (n + Z.of_nat (S (length ks))) with (n + 1 + Z.of_nat (length ks)) by lia
              |set_solver|].
  intros x. specialize (Hcount x). rewrite <- Hcount. cbn [wins].
  assert (r = Ok true ∨ r ≠ Ok true) as [->|Hr] by (destruct r as [[]|]; auto).
  - destruct Hwin as [Hk Hin]; [done|]. rewrite Hin.
    destruct (decide (k = x)) as [->|Hx].
    + rewrite (bool_decide_false (x ∈ inner l)), (bool_decide_true (x ∈ _)) by set_solver. simpl. lia.
    + rewrite (bool_decide_ext (x ∈ {[k]} ∪ inner l) (x ∈ inner l)) by set_solver. lia.
  - rewrite Hno by done. destruct r as [[]|]; done.
Qed.

(** However the calls of racing callers are interleaved, a key is
    initialized by exactly one caller when it ends up in the ledger and by none
    otherwise; the ledger never exceeds its cap, a lookup never fails for a
    present key, and every call is accounted for in exactly one counter. *)
Theorem first_touch_exactly_once cap ks rs l :
  0 <= cap → Z.of_nat (length ks) < 2 ^ 64 → calls ks (new cap) = (rs, l) →
  (∀ k, wins k ks rs = Nat.b2n (bool_decide (k ∈ inner l))) ∧
  Z.of_nat (size (inner l)) <= cap ∧
  initializations l = Z.of_nat (size (inner l)) ∧
  relookup_failures l = 0 ∧
  initializations l + relookups l + insert_failures l = Z.of_nat (length ks).
Proof.
  intros Hcap Hlen Hrun.
  assert (ledger_ok (new cap) 0) as H0 by (split; unfold new; cbn -[size]; rewrite ?size_empty; lia).
  assert (FirstTouch.cap l = cap) as Hc.
  { clear H0 Hlen Hcap. assert (∀ ks l0 rs l, calls ks l0 = (rs, l) → FirstTouch.cap l = FirstTouch.cap l0)
      as Hgen; [|by eapply Hgen in Hrun].
    clear. induction ks as [|k ks IH]; intros l0 rs l Hrun; [by injection Hrun as <- <-|].
    cbn [calls] in Hrun. destruct (first_touch_or_relookup k l0) as [r l1] eqn:H1.
    destruct (calls ks l1) as [rs1 l2] eqn:H2. injection Hrun as <- <-. apply IH in H2 as ->.
    unfold first_touch_or_relookup in H1. by repeat case_match; simplify_eq. }
  destruct (calls_spec ks (new cap) 0 rs l H0 ltac:(lia) ltac:(lia) Hrun)
    as ([? ? ? ? ? ?] & _ & Hw).
  split_and!; try lia. intros k. specialize (Hw k).
  rewrite bool_decide_false in Hw by set_solver. simpl in Hw. lia.
Qed.

Lemma first_touch_exactly_once_witness :
  wins 7 [7; 9; 7; 11; 9] [Ok true; Ok true; Ok false; Err (mkExhausted 11 2); Ok false] = 1%nat.
Proof.
  destruct (calls [7; 9; 7; 11; 9] (new 2)) as [rs l] eqn:Hrun.
  assert (rs = [Ok true; Ok true; Ok false; Err (mkExhausted 11 2); Ok false]) as <-
    by (vm_compute in Hrun; by injection Hrun).
  rewrite (proj1 (first_touch_exactly_once 2 [7; 9; 7; 11; 9] rs l ltac:(lia) ltac:(done) Hrun) 7).
  vm_compute in Hrun. injection Hrun as _ <-. reflexivity.
Defined.
End FirstTouchSpec.

(** ** Slot identities: append-only below the id space *)

Section SlotsSpec.
Import Slots.

(** The ids handed out so far are [0, 1, ..., next - 1]. *)
Definition slots_ok (a : SlotIdentityAllocator) : Prop :=
  0 <= next a <= max_id a + 1 ∧ 0 <= max_id a < U32_MAX ∧
  ∀ id, id ∈ retired a → id < next a.

Lemma history_spec ops a ids a' :
  slots_ok a → Forall (λ o, match o with Retire id => 0 <= id | Allocate => True end) ops →
  history ops a = (ids, a') →
  slots_ok a' ∧ max_id a' = max_id a ∧ next a <= next a' ∧
  ids = seqZ (next a) (next a' - next a) ∧
  retired a ⊆ retired a'.
Proof.
  intros Hok Hops. revert a ids Hok. induction Hops as [|o ops Ho Hops IH]; intros a ids Hok Hrun.
  { injection Hrun as <- <-. rewrite Z.sub_diag. by split_and!. }
  destruct Hok as (Hn & Hm & Hr). destruct o as [|id]; cbn [history] in Hrun.
  - unfold allocate in Hrun. destruct (Z.ltb_spec (max_id a) (next a)).
    { destruct (history ops a) as [ids1 a1] eqn:H1. injection Hrun as <- <-. by apply IH. }
    destruct (history ops _) as [ids1 a1] eqn:H1. injection Hrun as <- <-.
    assert (as_u32 (next a + 1) = next a + 1) as Hw by (unfold U32_MAX in Hm; word_lia).
    rewrite Hw in H1. apply IH in H1 as (Hok & Hmax & Hle & -> & Hsub); simpl in *.
    + split_and!; try done; try lia. rewrite (seqZ_cons (next a)) by lia.
      f_equal. f_equal; lia.
    + split_and!; simpl; try lia. intros i Hi. specialize (Hr i Hi). lia.
  - apply IH in Hrun as (Hok & Hmax & Hle & -> & Hsub).
    + unfold retire in *. destruct (id <? next a); simpl in *; split_and!; try done; set_solver.
    + unfold retire. destruct (Z.ltb_spec id (next a)); [|split_and!; done || lia].
      split_and!; simpl; try lia. intros i [->%elem_of_singleton|]%elem_of_union; auto.
Qed.

(** With a lifetime budget below the top of the [u32] id space, slot ids
    are append-only: any two consecutive histories together hand out
    [0, 1, 2, ...] without a gap or a repeat and never more than the budget; an
    id is known exactly when it was handed out, and one that resolves to its
    tombstone resolves to it after any later history. *)
Theorem slot_ids_append_only m ops1 ops2 ids1 ids2 a1 a2 :
  0 <= m < U32_MAX →
  Forall (λ o, match o with Retire id => 0 <= id | Allocate => True end) (ops1 ++ ops2) →
  history ops1 (new m) = (ids1, a1) → history ops2 a1 = (ids2, a2) →
  ids1 ++ ids2 = seqZ 0 (next a2) ∧ next a2 <= m + 1 ∧
  (∀ id, 0 <= id → resolve id a2 = Unknown ↔ id ∉ ids1 ++ ids2) ∧
  (∀ id, resolve id a1 = Retired → resolve id a2 = Retired).
Proof.
  intros Hm [Ho1 Ho2]%Forall_app H1 H2.
  apply history_spec in H1 as (Hok1 & Hmax1 & Hle1 & -> & Hsub1);
    [|split_and!; simpl; set_solver by lia|done].
  apply history_spec in H2 as ((Hn2 & _ & Hr2) & Hmax2 & Hle2 & -> & Hsub2); [|done..].
  simpl in *. rewrite Z.sub_0_r in *.
  assert (seqZ 0 (next a1) ++ seqZ (next a1) (next a2 - next a1) = seqZ 0 (next a2)) as Happ.
  { replace (next a2) with (next a1 + (next a2 - next a1)) at 2 by lia.
    by rewrite seqZ_app by lia. }
  rewrite Happ. split_and!; [done|lia| |].
  - intros id Hid. rewrite elem_of_seqZ. unfold resolve.
    destruct (Z.leb_spec (next a2) id); [split; [lia|done]|].
    destruct (bool_decide _); split; try done; lia.
  - intros id. unfold resolve. destruct (Z.leb_spec (next a1) id); [done|].
    case_bool_decide as Hin; [|done]. intros _.
    rewrite bool_decide_true by set_solver.
    destruct (Z.leb_spec (next a2) id); [lia|done].
Qed.

Lemma slot_ids_append_only_witness :
  history [Allocate; Allocate; Retire 0; Allocate] (new 5) =
    ([0; 1; 2], mkSlots 5 3 ({[0]} ∪ ∅)) ∧
  [0; 1; 2] ++ [3] = seqZ 0 4.
Proof.
  split; [vm_compute; reflexivity|].
  apply (slot_ids_append_only 5 [Allocate; Allocate; Retire 0; Allocate] [Allocate] [0; 1; 2] [3]
           (mkSlots 5 3 ({[0]} ∪ ∅)) (mkSlots 5 4 ({[0]} ∪ ∅)));
    [done|repeat constructor; done|vm_compute; reflexivity|vm_compute; reflexivity].
Defined.

Lemma history_allocates n k m R :
  0 <= k → k + Z.of_nat n < 2 ^ 32 → k + Z.of_nat n <= m + 1 →
  history (replicate n Allocate) (mkSlots m k R) =
    (seqZ k (Z.of_nat n), mkSlots m (k + Z.of_nat n) R).
Proof.
  revert k. induction n as [|n IH]; intros k Hk Hw Hm.
  { cbn [replicate history]. by rewrite Z.add_0_r. }
  cbn [replicate history]. unfold allocate. cbn [max_id next Slots.retired].
  destruct (Z.ltb_spec m k); [lia|].
  assert (as_u32 (k + 1) = k + 1) as -> by word_lia.
  rewrite IH by lia. rewrite (seqZ_cons k) by lia. f_equal; [|f_equal; lia].
  f_equal. f_equal; lia.
Qed.

Lemma history_app ops1 ops2 a :
  history (ops1 ++ ops2) a =
    let '(ids1, a1) := history ops1 a in
    let '(ids2, a2) := history ops2 a1 in (ids1 ++ ids2, a2).
Proof.
  revert a. induction ops1 as [|o ops1 IH]; intros a; cbn [app history].
  { by destruct (history ops2 a). }
  destruct o as [|id]; [|apply IH]. destruct (allocate a) as [r a1]. rewrite IH.
  destruct (history ops1 a1) as [ids1 a2]. destruct (history ops2 a2). by destruct r.
Qed.

(** The allocations asked for by a history. *)
Fixpoint allocations (ops : list op) : nat :=
  match ops with
  | [] => O
  | Allocate :: ops => S (allocations ops)
  | Retire _ :: ops => allocations ops
  end.

Lemma allocations_replicate n : allocations (replicate n Allocate) = n.
Proof. induction n as [|n IH]; simpl; congruence. Qed.

Lemma history_wraps ops k R :
  0 <= k →
  (history ops (mkSlots U32_MAX (k mod 2 ^ 32) R)).1 =
    (λ i, i mod 2 ^ 32) <$> seqZ k (Z.of_nat (allocations ops)).
Proof.
  revert k R. induction ops as [|[|id] ops IH]; intros k R Hk; [done| |].
  - cbn [history]. unfold allocate. cbn [max_id next Slots.retired].
    destruct (Z.ltb_spec U32_MAX (k mod 2 ^ 32)); [unfold U32_MAX in *; word_lia|].
    assert (as_u32 (k mod 2 ^ 32 + 1) = (k + 1) mod 2 ^ 32) as -> by word_lia.
    specialize (IH (k + 1) R ltac:(lia)). destruct (history ops _) as [ids a].
    cbn [fst allocations] in *. rewrite seqZ_cons by lia. rewrite fmap_cons, IH.
    unfold Z.succ. do 3 f_equal; lia.
  - cbn [history allocations]. unfold retire. cbn [next]. destruct (id <? k mod 2 ^ 32); by apply IH.
Qed.

Lemma wrapped_lookup n len :
  Z.of_nat n mod 2 ^ 32 = 0 → Z.of_nat n < len →
  ((λ i, i mod 2 ^ 32) <$> seqZ 0 len) !! n = Some 0.
Proof. intros Hn Hlen. rewrite list_lookup_fmap, lookup_seqZ_lt by lia. cbn. f_equal. exact Hn. Qed.

(** C38: at the top of the id space the budget does not stop the allocator: with
    a lifetime budget of [u32::MAX] no allocation of any history is ever refused,
    the counter wraps after the last id, and a history of more than 2^32
    allocations hands out id 0 a second time, at position 2^32. *)
Theorem slot_ids_wrap_at_max ops :
  let ids := (history ops (new U32_MAX)).1 in
  ids = (λ i, i mod 2 ^ 32) <$> seqZ 0 (Z.of_nat (allocations ops)) ∧
  (2 ^ 32 < Z.of_nat (allocations ops) →
     ids !! 0%nat = Some 0 ∧ ids !! Z.to_nat (2 ^ 32) = Some 0).
Proof.
  intros ids. assert (ids = (λ i, i mod 2 ^ 32) <$> seqZ 0 (Z.of_nat (allocations ops))) as ->
    by exact (history_wraps ops 0 ∅ ltac:(lia)).
  split; [reflexivity|]. intros Hlen.
  split; apply wrapped_lookup; rewrite ?Z2Nat.id by done; done || lia.
Qed.

Lemma slot_ids_wrap_at_max_witness :
  (history (replicate (S (Z.to_nat (2 ^ 32))) Allocate) (new U32_MAX)).1 !! Z.to_nat (2 ^ 32) = Some 0.
Proof.
  destruct (slot_ids_wrap_at_max (replicate (S (Z.to_nat (2 ^ 32))) Allocate)) as [_ H].
  apply H. rewrite allocations_replicate. lia.
Defined.
End SlotsSpec.

(** ** Identity tickets *)

Section TicketsSpec.
Import Tickets.

(** The contentions at the head of a script. *)
Fixpoint contentions (l : list InjectedFault) : nat :=
  match l with CasContention :: l => S (contentions l) | _ => O end.

Lemma fault_loop_spec fuel attempts f a :
  0 <= attempts → attempts + Z.of_nat fuel = TICKET_CAS_TRIES → (0 < fuel)%nat →
  let k := contentions (drop (cursor f) (script f)) in
  fault_loop fuel attempts f a =
    if decide (fuel <= k)%nat
    then Some ((exhaust_retries a).1, mkScript (script f) (cursor f + fuel), (exhaust_retries a).2)
    else match script f !! (cursor f + k)%nat with
         | None => Some ((allocate a).1, mkScript (script f) (cursor f + k), (allocate a).2)
         | Some _ => Some ((create_failed a).1, mkScript (script f) (S (cursor f + k)),
                           (create_failed a).2)
         end.
Proof.
  revert attempts f. induction fuel as [|fuel IH]; intros attempts [l c] Ha Hf Hpos; [lia|].
  cbn [script cursor] in *. cbn [fault_loop]. unfold next_fault. cbn [script cursor].
  destruct (l !! c) as [[]|] eqn:Hl.
  - rewrite (drop_S l CasContention c) by done. cbn [contentions].
    destruct (Z.leb_spec TICKET_CAS_TRIES (attempts + 1)).
    + assert (fuel = 0%nat) as -> by lia. rewrite decide_True by lia.
      destruct (exhaust_retries a). simpl. repeat f_equal. lia.
    + rewrite IH by lia. cbn [script cursor].
      rewrite <- !Nat.add_succ_comm. destruct (decide _), (decide _); try lia; done.
  - rewrite (drop_S l CreateFailedFault c) by done. cbn [contentions].
    rewrite decide_False by lia. rewrite Nat.add_0_r, Hl. by destruct (create_failed a).
  - rewrite drop_ge by (by apply lookup_ge_None). cbn [contentions].
    rewrite decide_False by lia. rewrite Nat.add_0_r, Hl. by destruct (allocate a).
Qed.

(** An allocation under a fault script always returns, and does exactly
    one thing: after eight contentions it gives up without a ticket; otherwise
    the first fault that is not a contention consumes one ticket without an
    identity, and a script that runs out lets the allocation through. *)
Theorem allocate_with_faults_spec f a :
  let k := contentions (drop (cursor f) (script f)) in
  allocate_with_faults f a =
    if decide (8 <= k)%nat
    then Some ((exhaust_retries a).1, mkScript (script f) (cursor f + 8), (exhaust_retries a).2)
    else match script f !! (cursor f + k)%nat with
         | None => Some ((allocate a).1, mkScript (script f) (cursor f + k), (allocate a).2)
         | Some _ => Some ((create_failed a).1, mkScript (script f) (S (cursor f + k)),
                           (create_failed a).2)
         end.
Proof. unfold allocate_with_faults. apply (fault_loop_spec 8 0); done || lia. Qed.

Inductive ticket_op := TAllocate | TFaults (l : list InjectedFault) | TRetire (cookie : Z).

(** One operation: the cookie it issued, and the new allocator. *)
Definition ticket_step (o : ticket_op) (a : TicketAllocator) : option Z * TicketAllocator :=
  let issue := λ r : result TicketError Z, match r with Ok c => Some c | Err _ => None end in
  match o with
  | TAllocate => (issue (allocate a).1, (allocate a).2)
  | TFaults l => match allocate_with_faults (mkScript l 0) a with
                 | Some (r, _, a) => (issue r, a)
                 | None => (None, a)
                 end
  | TRetire cookie => (None, retire cookie a)
  end.

Fixpoint ticket_run (ops : list ticket_op) (a : TicketAllocator) : list Z * TicketAllocator :=
  match ops with
  | [] => ([], a)
  | o :: ops =>
      let '(c, a) := ticket_step o a in
      let '(cs, a) := ticket_run ops a in (option_list c ++ cs, a)
  end.

(** [n] bounds the operations so far; [cs] are the cookies issued so far. *)
Record tickets_ok (a : TicketAllocator) (n : Z) (cs : list Z) : Prop := {
  to_limit : is_u64 (limit (policy a));
  to_next : 0 <= next_ticket a <= limit (policy a);
  to_issued : cs ++ elements (consumed_without_identity a) ≡ₚ seqZ 1 (next_ticket a);
  to_sorted : StronglySorted Z.lt cs;
  to_retired : ∀ c, c ∈ retired a → c ∈ cs;
  to_counts : 0 <= admitted a ∧ 0 <= quota_refusals a ∧ 0 <= create_failures a ∧
              0 <= retries_exhausted a;
  to_attempted : attempted a = admitted a + quota_refusals a + create_failures a + retries_exhausted a;
  to_bound : attempted a <= n;
  to_admitted : admitted a = Z.of_nat (length cs);
}.

Lemma incr64_bound x n : 0 <= x <= n → n < 2 ^ 64 - 1 → incr64 x = x + 1.
Proof. intros. apply incr64_small. lia. Qed.

Lemma tickets_refuse a n cs :
  tickets_ok a n cs → 0 <= n < 2 ^ 64 - 1 → tickets_ok (refuse_quota a).2 (n + 1) cs.
Proof.
  intros [Hl Hn Hi Hs Hr (H1 & H2 & H3 & H4) Ha Hb Hadm] Hlt.
  split; simpl; try done; rewrite ?(incr64_bound _ n) by lia; try lia.
Qed.

Lemma tickets_exhaust a n cs :
  tickets_ok a n cs → 0 <= n < 2 ^ 64 - 1 → tickets_ok (exhaust_retries a).2 (n + 1) cs.
Proof.
  intros [Hl Hn Hi Hs Hr (H1 & H2 & H3 & H4) Ha Hb Hadm] Hlt.
  split; simpl; try done; rewrite ?(incr64_bound _ n) by lia; try lia.
Qed.

Lemma issued_below a n cs c : tickets_ok a n cs → c ∈ cs → 1 <= c <= next_ticket a.
Proof.
  intros [_ _ Hi _ _ _ _ _ _] Hc. assert (c ∈ seqZ 1 (next_ticket a)) as ?%elem_of_seqZ; [|lia].
  rewrite <- Hi. set_solver.
Qed.

Lemma seqZ_one k : seqZ k 1 = [k].
Proof. by rewrite (seqZ_cons k) by lia. Qed.

Lemma seqZ_next n : 0 <= n → seqZ 1 (n + 1) ≡ₚ (n + 1) :: seqZ 1 n.
Proof.
  intros. rewrite (seqZ_app 1 n 1) by lia. rewrite Permutation_app_comm.
  by rewrite (Z.add_comm 1 n), seqZ_one.
Qed.

Lemma tickets_allocate a n cs :
  tickets_ok a n cs → 0 <= n < 2 ^ 64 - 1 →
  tickets_ok (allocate a).2 (n + 1)
    (cs ++ match (allocate a).1 with Ok c => [c] | Err _ => [] end).
Proof.
  intros Hok Hlt. pose proof (λ x, issued_below a n cs x Hok) as Hbelow. unfold allocate.
  destruct (Z.leb_spec (limit (policy a)) (next_ticket a)).
  { simpl. rewrite app_nil_r. by apply tickets_refuse. }
  destruct Hok as [Hl Hn Hi Hs Hr (H1 & H2 & H3 & H4) Ha Hb Hadm].
  split; simpl; try done; rewrite ?(incr64_bound _ n) by lia; try lia.
  - rewrite seqZ_next, <- Hi by lia. solve_Permutation.
  - apply StronglySorted_snoc; [done|]. intros x Hx. specialize (Hbelow x Hx). lia.
  - set_solver.
  - rewrite length_app. simpl. lia.
Qed.

Lemma tickets_create_failed a n cs :
  tickets_ok a n cs → 0 <= n < 2 ^ 64 - 1 →
  tickets_ok (create_failed a).2 (n + 1) cs ∧
  match (create_failed a).1 with Ok _ => False | Err _ => True end.
Proof.
  intros Hok Hlt. unfold create_failed.
  destruct (Z.leb_spec (limit (policy a)) (next_ticket a)).
  { split; [by apply tickets_refuse|done]. }
  destruct Hok as [Hl Hn Hi Hs Hr (H1 & H2 & H3 & H4) Ha Hb Hadm].
  split; [|done].
  assert (next_ticket a + 1 ∉ consumed_without_identity a) as Hfresh.
  { intros Hc%elem_of_elements. assert (next_ticket a + 1 ∈ seqZ 1 (next_ticket a)) as ?%elem_of_seqZ.
    { rewrite <- Hi. set_solver. } lia. }
  split; simpl; try done; rewrite ?(incr64_bound _ n) by lia; try lia.
  rewrite elements_union_singleton by done. rewrite seqZ_next, <- Hi by lia. solve_Permutation.
Qed.

Lemma tickets_retire a n cs c :
  tickets_ok a n cs → 0 <= c → tickets_ok (retire c a) n cs.
Proof.
  intros [Hl Hn Hi Hs Hr Hc Ha Hb Hadm] Hpos. unfold retire, nz.
  destruct (Z.eqb_spec c 0); [done|]. destruct (Z.leb_spec c (next_ticket a)); [|done].
  case_bool_decide as Hcons; [done|]. simpl. split; simpl; try done.
  intros x [->%elem_of_singleton|]%elem_of_union; [|auto].
  assert (c ∈ cs ++ elements (consumed_without_identity a)) as Hin.
  { rewrite Hi. apply elem_of_seqZ. lia. }
  set_solver.
Qed.

Lemma ticket_step_ok o a n cs :
  tickets_ok a n cs → 0 <= n < 2 ^ 64 - 1 →
  match o with TRetire c => 0 <= c | _ => True end →
  tickets_ok (ticket_step o a).2 (n + 1) (cs ++ option_list (ticket_step o a).1).
Proof.
  intros Hok Hn Ho.
  assert (∀ a cs, tickets_ok a n cs → tickets_ok a (n + 1) cs) as Hmore.
  { intros ? ? []. split; try done. lia. }
  destruct o as [|l|c]; cbn [ticket_step].
  - pose proof (tickets_allocate a n cs Hok Hn) as H. simpl in *. by destruct (allocate a).1.
  - rewrite allocate_with_faults_spec. cbn [cursor script]. rewrite drop_0.
    destruct (decide (8 <= contentions l)%nat).
    { simpl. rewrite app_nil_r. by apply tickets_exhaust. }
    destruct (l !! (0 + contentions l)%nat).
    + destruct (tickets_create_failed a n cs Hok Hn) as [H Herr]. simpl.
      destruct (create_failed a).1; [done|]. simpl. by rewrite app_nil_r.
    + pose proof (tickets_allocate a n cs Hok Hn) as H. simpl in *. by destruct (allocate a).1.
  - simpl. rewrite app_nil_r. apply Hmore. by apply tickets_retire.
Qed.

Lemma ticket_run_ok ops a n cs cs' a' :
  tickets_ok a n cs → 0 <= n → n + Z.of_nat (length ops) < 2 ^ 64 →
  Forall (λ o, match o with TRetire c => 0 <= c | _ => True end) ops →
  ticket_run ops a = (cs', a') → tickets_ok a' (n + Z.of_nat (length ops)) (cs ++ cs').
Proof.
  intros Hok Hn Hlen Hops. revert a n cs cs' Hok Hn Hlen.
  induction Hops as [|o ops Ho _ IH]; intros a n cs cs' Hok Hn Hlen Hrun.
  { injection Hrun as <- <-. by rewrite app_nil_r, Z.add_0_r. }
  cbn [ticket_run length] in *. destruct (ticket_step o a) as [c a1] eqn:Hs.
  destruct (ticket_run ops a1) as [cs1 a2] eqn:Hr. injection Hrun as <- <-.
  pose proof (ticket_step_ok o a n cs Hok ltac:(lia) Ho) as H1. rewrite Hs in H1. simpl in H1.
  rewrite app_assoc. replace (n + Z.of_nat (S (length ops))) with (n + 1 + Z.of_nat (length ops)) by lia.
  apply (IH a1); auto; lia.
Qed.

Lemma tickets_new p : is_u64 (limit p) → tickets_ok (new p) 0 [].
Proof.
  intros Hl. split; simpl; try done; try lia.
  - unfold in_width in Hl. lia.
  - constructor.
Qed.

(** The counted live cookies are those that resolve to a live identity. *)
Lemma live_unretired_count a n cs :
  tickets_ok a n cs →
  live_unretired a =
    Z.of_nat (length (filter (λ c, resolve c a = Active) (seqZ 1 (next_ticket a)))).
Proof.
  intros [Hl Hn Hi Hs Hr Hc Ha Hb Hadm].
  assert (NoDup (cs ++ elements (consumed_without_identity a))) as Hnd
    by (rewrite Hi; apply NoDup_seqZ).
  apply NoDup_app in Hnd as (Hnd & Hdis & _).
  assert (filter (λ c, resolve c a = Active) (seqZ 1 (next_ticket a)) ≡ₚ
          elements ((list_to_set cs : gset Z) ∖ retired a)) as ->.
  { apply NoDup_Permutation; [apply NoDup_filter, NoDup_seqZ|apply NoDup_elements|]. intros c.
    rewrite list_elem_of_filter, elem_of_elements, elem_of_difference, elem_of_list_to_set.
    rewrite <- Hi, elem_of_app, elem_of_elements. unfold resolve.
    assert (c ∈ cs ∨ c ∈ consumed_without_identity a → 1 <= c <= next_ticket a) as Hrange.
    { intros Hin. assert (c ∈ seqZ 1 (next_ticket a)) as ?%elem_of_seqZ; [|lia].
      rewrite <- Hi. set_solver. }
    split.
    - intros [Hres Hin]. specialize (Hrange Hin).
      destruct (Z.eqb_spec c 0), (Z.ltb_spec (next_ticket a) c); try lia.
      simpl in Hres. do 2 (case_bool_decide; try done). naive_solver.
    - intros [Hin Hret]. split; [|by left]. specialize (Hrange (or_introl Hin)).
      destruct (Z.eqb_spec c 0), (Z.ltb_spec (next_ticket a) c); try lia. simpl.
      rewrite !bool_decide_false; [done|done|]. intros Hx%elem_of_elements. by eapply Hdis. }
  assert (length cs + size (consumed_without_identity a) = Z.to_nat (next_ticket a))%nat as Hlen.
  { apply Permutation_length in Hi. rewrite length_app, length_seqZ in Hi. done. }
  change (length (elements ?X)) with (size X).
  rewrite size_difference by (intros c Hc'; apply elem_of_list_to_set; auto).
  rewrite size_list_to_set by done.
  assert (size (retired a) <= length cs)%nat.
  { rewrite <- (size_list_to_set (C := gset Z) cs) by done. apply subseteq_size.
    intros c Hc'. apply elem_of_list_to_set. auto. }
  unfold live_unretired, saturating_sub. lia.
Qed.

(** over any sequence of allocations, scripted faults and retirements from
    a fresh allocator, cookies are issued in increasing order from 1 and never
    reused, and each ticket up to the counter is either an issued cookie or one
    consumed without an identity; the counter stays within the policy limit,
    every attempt is counted in exactly one outcome, and [live_unretired] is the
    number of cookies that resolve to a live identity. *)
Theorem tickets_lifetime p ops cs a :
  is_u64 (limit p) → Z.of_nat (length ops) < 2 ^ 64 →
  Forall (λ o, match o with TRetire c => 0 <= c | _ => True end) ops →
  ticket_run ops (new p) = (cs, a) →
  StronglySorted Z.lt cs ∧
  cs ++ elements (consumed_without_identity a) ≡ₚ seqZ 1 (next_ticket a) ∧
  next_ticket a <= limit (policy a) ∧
  admitted a = Z.of_nat (length cs) ∧
  attempted a = admitted a + quota_refusals a + create_failures a + retries_exhausted a ∧
  live_unretired a =
    Z.of_nat (length (filter (λ c, resolve c a = Active) (seqZ 1 (next_ticket a)))).
Proof.
  intros Hl Hlen Hops Hrun.
  pose proof (ticket_run_ok ops _ 0 [] cs a (tickets_new p Hl) ltac:(lia) ltac:(lia) Hops Hrun) as Hok.
  pose proof (live_unretired_count _ _ _ Hok). destruct Hok. simpl in *. split_and!; done || lia.
Qed.

Lemma tickets_lifetime_witness :
  StronglySorted Z.lt [1; 3].
Proof.
  destruct (ticket_run [TAllocate; TFaults [CasContention; CreateFailedFault]; TAllocate; TRetire 1]
              (new v1_c1)) as [cs a] eqn:Hrun.
  assert (cs = [1; 3]) as <- by (vm_compute in Hrun; by injection Hrun).
  apply (tickets_lifetime v1_c1 _ cs a) in Hrun as [H _]; [exact H|done|done|].
  repeat constructor. lia.
Defined.
End TicketsSpec.

(** ** Live admission *)

Section LiveSpec.
Import Live.

(** What a client holds is what the admission state has outstanding. *)
Record client_ok (cap0 : Z) (c : client) (n : nat) : Prop := {
  co_cap : cap (admission c) = cap0;
  co_held : (reservation_cookie <$> held c) ≡ₚ elements (reserved (admission c));
  co_tokens : (token_cookie <$> tokens c) ≡ₚ elements (live (admission c));
  co_disjoint : reserved (admission c) ## live (admission c);
  co_budget : Z.of_nat (size (reserved (admission c))) + Z.of_nat (size (live (admission c))) <= cap0;
  co_peak : Z.of_nat (size (live (admission c))) <= peak_live (admission c) <= cap0;
  co_total : admitted_total (admission c) =
               Z.of_nat (size (live (admission c))) + releases (admission c);
  co_steps : 0 <= releases (admission c) ∧ admitted_total (admission c) <= Z.of_nat n;
}.

Lemma elements_remove {A} (f : A → Z) (X : gset Z) x l1 l2 (y : A) :
  (f <$> l1 ++ y :: l2) ≡ₚ elements X → f y = x →
  x ∈ X ∧ (f <$> l1 ++ l2) ≡ₚ elements (X ∖ {[x]}) ∧ size X = S (size (X ∖ {[x]})).
Proof.
  intros Hp <-. assert (f y ∈ X) as Hin.
  { apply elem_of_elements. rewrite <- Hp, fmap_app. set_solver. }
  assert (X = {[f y]} ∪ X ∖ {[f y]}) as Hx by (apply union_difference_singleton_L; done).
  split_and!; [done| |].
  - rewrite Hx, elements_union_singleton in Hp by set_solver. rewrite fmap_app in *. simpl in Hp.
    rewrite <- Permutation_middle in Hp. by apply Permutation_cons_inv in Hp.
  - rewrite Hx at 1. rewrite size_union by set_solver. by rewrite size_singleton.
Qed.

Lemma step_ok cap0 c o n :
  client_ok cap0 c n → Z.of_nat n < 2 ^ 64 - 1 → step c o →
  ∃ c', o = Some c' ∧ client_ok cap0 c' (S n).
Proof.
  intros [Hcap Hh Ht Hd Hb Hp Htot [Hrel Hn]] Hlt Hstep.
  destruct Hstep as [cookie a a' h t r Hres|x a h1 h2 t|x a h1 h2 t|y a h t1 t2]; simpl in *.
  - unfold reserve in Hres.
    destruct (bool_decide _ || _) eqn:Hdup; [|destruct (Z.leb_spec (cap a)
      (Z.of_nat (size (reserved a)) + Z.of_nat (size (live a))))];
      injection Hres as <- <-; eexists; (split; [done|]); try (split; simpl; try done; lia).
    apply orb_false_iff in Hdup as [H1%bool_decide_eq_false H2%bool_decide_eq_false].
    split; simpl; try done; try lia; [|set_solver|].
    + rewrite elements_union_singleton, <- Hh by done. done.
    + rewrite size_union, size_singleton by set_solver. lia.
  - destruct (elements_remove _ (reserved a) _ h1 h2 x Hh eq_refl) as (Hin & Hh' & Hs).
    unfold LiveAdmission_admit. rewrite bool_decide_true by done. eexists. split; [done|].
    assert (reservation_cookie x ∉ live a) by set_solver.
    assert (size ({[reservation_cookie x]} ∪ live a) = S (size (live a))) as Hs'
      by (rewrite size_union, size_singleton; set_solver).
    split; simpl; rewrite ?Hs', ?incr64_small by lia; try done; try lia; [|set_solver].
    rewrite elements_union_singleton, <- Ht by done. done.
  - destruct (elements_remove _ (reserved a) _ h1 h2 x Hh eq_refl) as (Hin & Hh' & Hs).
    unfold rollback. rewrite bool_decide_true by done. eexists. split; [done|].
    split; simpl; try done; try lia. set_solver.
  - destruct (elements_remove _ (live a) _ t1 t2 y Ht eq_refl) as (Hin & Ht' & Hs).
    unfold release. rewrite bool_decide_true by done. eexists. split; [done|].
    split; simpl; rewrite ?incr64_small by lia; try done; try lia. set_solver.
Qed.

(** For a client that gives back only the reservations and tokens it was
    handed, in any order, no assertion of the admission state ever fails:
    reserved and live admissions together stay within the cap, no cookie is
    both, the peak bounds the live count and stays within the cap, and every
    admission is live or released. *)
Theorem live_admission_sound cap0 c n :
  0 <= cap0 → reachable cap0 c n → Z.of_nat n < 2 ^ 64 - 1 →
  let a := admission c in
  ¬ step c None ∧
  Z.of_nat (size (reserved a)) + Z.of_nat (size (live a)) <= cap0 ∧
  reserved a ## live a ∧
  Z.of_nat (size (live a)) <= peak_live a <= cap0 ∧
  admitted_total a = Z.of_nat (size (live a)) + releases a.
Proof.
  intros Hcap Hr Hn a. assert (client_ok cap0 c n) as Hok.
  { clear a. induction Hr as [|c c' n Hr IH Hs].
    - split; simpl; rewrite ?size_empty; try done; lia.
    - destruct (step_ok cap0 c (Some c') n) as (c'' & [= <-] & Hok); [apply IH; lia|lia|done|].
      done. }
  split; [|destruct Hok; subst a; split_and!; done || lia].
  intros Hs. by destruct (step_ok cap0 c None n Hok Hn Hs) as (? & [=] & _).
Qed.

Lemma live_admission_sound_witness :
  reachable 2 (mkClient (mkLive 2 ({[5]} ∪ ∅) ∅ 0 0 0 0 0) [mkReservation 5] []) 1 ∧
  ¬ step (mkClient (mkLive 2 ({[5]} ∪ ∅) ∅ 0 0 0 0 0) [mkReservation 5] []) None.
Proof.
  assert (reachable 2 (mkClient (mkLive 2 ({[5]} ∪ ∅) ∅ 0 0 0 0 0) [mkReservation 5] []) 1) as Hr.
  { eapply reach_step; [apply reach_start|].
    exact (step_reserve 5 (mkLive 2 ∅ ∅ 0 0 0 0 0) _ [] [] (Ok (mkReservation 5)) eq_refl). }
  split; [exact Hr|].
  exact (proj1 (live_admission_sound 2 _ 1 ltac:(lia) Hr ltac:(done))).
Defined.
End LiveSpec.

(** ** Overlapping domains *)

Section OverlapSpec.
Import Tickets Overlap.

(** A domain rollover is bounded and gated: there are at most two domains,
    a second overlap is refused while one is open, and the old domain closes
    exactly when it is sealed, its terminal evidence is acknowledged and the new
    domain exists; closing keeps the aliases, leaves the new domain's
    allocator untouched as the only one, and reports the old admissions. *)
Theorem close_old_domain_spec p :
  (is_ok (begin_overlap v1_c1 p).1 = true ↔ new_ p = None) ∧
  1 <= link_factor p <= 2 ∧
  (is_ok (close_old_domain p).1 = true ↔
     old_sealed p = true ∧ terminal_ack p ≠ None ∧ new_ p ≠ None) ∧
  match (close_old_domain p) with
  | (Ok closed, p') =>
      new_ p = Some (old p') ∧ new_ p' = None ∧ aliases p' = aliases p ∧
      old_sealed p' = false ∧ terminal_ack p' = None ∧ link_factor p' = 1 ∧
      retired_cookies closed = admitted (old p) ∧
      aliases_preserved closed = Z.of_nat (size (aliases p))
  | (Err _, p') => p' = p
  end.
Proof.
  unfold begin_overlap, link_factor, close_old_domain.
  destruct (new_ p), (old_sealed p), (terminal_ack p); simpl; split_and!; try done; try lia;
    naive_solver.
Qed.

Lemma resolve_retire c a :
  Tickets.resolve c a = Active → Tickets.resolve c (Tickets.retire c a) = Retired.
Proof.
  unfold Tickets.resolve, Tickets.retire, nz. intros H.
  destruct (Z.eqb_spec c 0), (Z.ltb_spec (next_ticket a) c); simpl in H; try done.
  destruct (bool_decide (c ∈ consumed_without_identity a)) eqn:Hc; [done|].
  rewrite (proj2 (Z.leb_le _ _)) by lia. simpl. rewrite Hc.
  destruct (Z.eqb_spec c 0), (Z.ltb_spec (next_ticket a) c); try lia. simpl.
  by rewrite bool_decide_true by set_solver.
Qed.

(** C39: once the old domain of an overlap is closed, a late retirement that
    still names it lands on the domain that replaced it: whatever cookie is live
    there resolves to a tombstone afterwards, although the same retirement before
    the close left the new domain as it was. *)
Theorem stale_old_retirement_hits_new_domain p n c :
  new_ p = Some n → old_sealed p = true → terminal_ack p ≠ None → Tickets.resolve c n = Active →
  new_ (Overlap.retire Old c p) = Some n ∧
  let p' := (close_old_domain p).2 in
  Tickets.resolve c (old p') = Active ∧
  Tickets.resolve c (old (Overlap.retire Old c p')) = Retired.
Proof.
  intros Hn Hs Ht Hc. unfold close_old_domain, Overlap.retire. rewrite Hn, Hs. simpl.
  destruct (terminal_ack p); [|done]. simpl. split_and!; [done..|]. by apply resolve_retire.
Qed.

(** A task holds cookie 1 of the old domain and another holds cookie 1 of the new one. *)
Lemma stale_old_retirement_hits_new_domain_witness :
  let '(side0, c0, p1) := Overlap.allocate (single v1_c1) in
  let '(side1, c1, p2) := Overlap.allocate (begin_overlap v1_c1 p1).2 in
  let p3 := (close_old_domain (ack_old_terminal (mkAck 0 0) (seal_old_domain p2))).2 in
  side0 = Old ∧ c0 = Ok 1 ∧ side1 = New ∧ c1 = Ok 1 ∧
  Tickets.resolve 1 (old (Overlap.retire side0 1 p3)) = Retired.
Proof.
  destruct (Overlap.allocate (single v1_c1)) as [[side0 c0] p1] eqn:H1.
  destruct (Overlap.allocate (begin_overlap v1_c1 p1).2) as [[side1 c1] p2] eqn:H2.
  vm_compute in H1. injection H1 as <- <- <-. vm_compute in H2. injection H2 as <- <- <-.
  do 4 (split; [done|]).
  eapply (stale_old_retirement_hits_new_domain
    (ack_old_terminal (mkAck 0 0) (seal_old_domain _)) _ 1); [reflexivity|done|done|by vm_compute].
Defined.
End OverlapSpec.
