(* ===== verification/Export.v ===== *)
(** * Durable export and evidence rotation

    The evidence half of [src/capacity.rs]: the export session with its
    two-phase acknowledgement, the rotation of evidence stores, the directory
    of appended segments, the allocation lifecycle and the writer fence around
    a live counter.  Conventions are those of [Tickets]: a method returns its
    result and the new state, and [u64] additions wrap. *)
From stdpp Require Import sorting.
From S2P Require Import Prelude Bytes Tickets.
Open Scope Z_scope.

(** [BTreeMap]: an association list in key order. *)
Module BTree.
Section Map.
Context {A : Type}.

Fixpoint insert (k : Z) (v : A) (m : list (Z * A)) : list (Z * A) :=
  match m with
  | [] => [(k, v)]
  | (k', v') :: m' =>
      if k <? k' then (k, v) :: m
      else if k =? k' then (k, v) :: m'
      else (k', v') :: insert k v m'
  end.

Definition remove (k : Z) (m : list (Z * A)) : list (Z * A) :=
  List.filter (λ kv, negb (kv.1 =? k)) m.

Definition contains_key (k : Z) (m : list (Z * A)) : bool :=
  existsb (λ kv, kv.1 =? k) m.

Definition values (m : list (Z * A)) : list A := m.*2.
End Map.
End BTree.

(** ** The export session *)
Module Session.
Import Overlap.

Inductive ExportKind := PositiveEvidence | CounterSnapshot | OmissionHistory.

#[export] Instance ExportKind_eq_dec : EqDecision ExportKind.
Proof. solve_decision. Defined.

(** [kind as u64]. *)
Definition kind_word (k : ExportKind) : Z :=
  match k with PositiveEvidence => 0 | CounterSnapshot => 1 | OmissionHistory => 2 end.

Record ExportRecord := mkRecord { id : Z; kind : ExportKind; bytes : Z }.

#[export] Instance ExportRecord_eq_dec : EqDecision ExportRecord.
Proof. solve_decision. Defined.

(** One byte of FNV-1a. *)
Definition fnv_byte (hash byte : Z) : Z := as_u64 (Z.lxor hash byte * 0x0100000001b3).

Definition export_checksum (records : list ExportRecord) : Z :=
  foldl (λ hash record,
    foldl (λ hash word, foldl fnv_byte hash (le_bytes 8 word)) hash
      [id record; kind_word (kind record); bytes record])
    0xcbf29ce484222325 records.

Record FinalSnapshot := mkSnapshot { records : Z; checksum : Z }.

#[export] Instance FinalSnapshot_eq_dec : EqDecision FinalSnapshot.
Proof. solve_decision. Defined.

Definition compute (rs : list ExportRecord) : FinalSnapshot :=
  mkSnapshot (Z.of_nat (length rs)) (export_checksum rs).

Inductive ExportError :=
| ProducersStillOpen (open : Z)
| FinalSnapshotMissing
| FinalSnapshotMismatch (expected actual : FinalSnapshot)
| NothingStaged
| AckThroughMismatch (expected actual : Z)
| AckChecksumMismatch (expected actual : Z).

Record ExportSession := mkSession {
  next_id : Z;
  pending : list (Z * ExportRecord);
  producers_cut_off : bool;
  snapshot : option FinalSnapshot;
  staged : option (list ExportRecord);
  acked_through : option Z;
}.

Definition new : ExportSession := mkSession 0 [] false None None None.

Definition append (k : ExportKind) (b : Z) (s : ExportSession) : Z * ExportSession :=
  let i := next_id s in
  (i, mkSession (incr64 i) (BTree.insert i (mkRecord i k b) (pending s))
        (producers_cut_off s) (snapshot s) (staged s) (acked_through s)).

Definition pending_batch (s : ExportSession) : list ExportRecord := BTree.values (pending s).

Definition cutoff_producers (open_producers : Z) (s : ExportSession)
    : result ExportError unit * ExportSession :=
  if 0 <? open_producers then (Err (ProducersStillOpen open_producers), s)
  else (Ok (), mkSession (next_id s) (pending s) true (snapshot s) (staged s) (acked_through s)).

Definition include_final_snapshot (snap : FinalSnapshot) (s : ExportSession)
    : result ExportError unit * ExportSession :=
  let actual := compute (pending_batch s) in
  if bool_decide (snap = actual)
  then (Ok (), mkSession (next_id s) (pending s) (producers_cut_off s) (Some snap) (staged s)
                 (acked_through s))
  else (Err (FinalSnapshotMismatch snap actual), s).

Definition stage_batch (s : ExportSession)
    : result ExportError (list ExportRecord) * ExportSession :=
  if negb (producers_cut_off s) then (Err (ProducersStillOpen U64_MAX), s)
  else match snapshot s with
  | None => (Err FinalSnapshotMissing, s)
  | Some snap =>
    let batch := pending_batch s in
    match batch with
    | [] => (Err NothingStaged, s)
    | _ =>
      let actual := compute batch in
      if bool_decide (snap = actual)
      then (Ok batch, mkSession (next_id s) (pending s) (producers_cut_off s) (snapshot s)
                        (Some batch) (acked_through s))
      else (Err (FinalSnapshotMismatch snap actual), s)
    end
  end.

Definition commit_ack (ack : DurableAck) (s : ExportSession)
    : result ExportError Z * ExportSession :=
  match staged s with
  | None => (Err NothingStaged, s)
  | Some batch =>
    match last batch with
    | None => (Err NothingStaged, s)
    | Some l =>
      let expected_id := id l in
      let expected_checksum := export_checksum batch in
      let count := Z.of_nat (length batch) in
      if negb (through_id ack =? expected_id)
      then (Err (AckThroughMismatch expected_id (through_id ack)), s)
      else if negb (ack_checksum ack =? expected_checksum)
      then (Err (AckChecksumMismatch expected_checksum (ack_checksum ack)), s)
      else
        (Ok count,
         mkSession (next_id s) (foldl (λ p i, BTree.remove i p) (pending s) (id <$> batch))
           (producers_cut_off s) (snapshot s) None (Some (through_id ack)))
    end
  end.

Record ReplayReport := mkReplay { duplicates : Z; unaccounted : Z }.

Definition replay_step (s : ExportSession) (r : ReplayReport) (entry : Z * Z) : ReplayReport :=
  if match acked_through s with Some through => entry.1 <=? through | None => false end
  then mkReplay (incr64 (duplicates r)) (unaccounted r)
  else if BTree.contains_key (entry.1) (pending s) then r
  else mkReplay (duplicates r) (incr64 (unaccounted r)).

Definition replay_report (s : ExportSession) (durable_log : list (Z * Z)) : ReplayReport :=
  foldl (replay_step s) (mkReplay 0 0) durable_log.
End Session.

(** ** Rotation of evidence stores *)
Module Rotation.
Import Overlap.

Record SealedStore := mkStore { epoch : Z; base_id : Z; records : Z; writers_at_seal : Z }.

Inductive StoreError :=
| RotationInProgress
| WriterCountMismatch (at_seal redirected : Z)
| UnackedRelease (covered_through needed_through : Z)
| NothingToRelease.

Record EvidenceRotation := mkRotation {
  active_epoch : Z;
  active_next_id : Z;
  active_records : Z;
  retired : option SealedStore;
  redirected : option Z;
}.

Definition new : EvidenceRotation := mkRotation 0 0 0 None None.

Definition append (n : Z) (r : EvidenceRotation) : EvidenceRotation :=
  mkRotation (active_epoch r) (as_u64 (active_next_id r + n)) (as_u64 (active_records r + n))
    (retired r) (redirected r).

Definition rotate (writers : Z) (r : EvidenceRotation)
    : result StoreError unit * EvidenceRotation :=
  match retired r with
  | Some _ => (Err RotationInProgress, r)
  | None =>
      let base := as_u64 (active_next_id r - active_records r) in
      (Ok (), mkRotation (incr64 (active_epoch r)) (active_next_id r) 0
                (Some (mkStore (active_epoch r) base (active_records r) writers)) None)
  end.

Definition redirect_writers (n : Z) (r : EvidenceRotation)
    : result StoreError unit * EvidenceRotation :=
  match retired r with
  | None => (Err NothingToRelease, r)
  | Some store =>
      if negb (n =? writers_at_seal store)
      then (Err (WriterCountMismatch (writers_at_seal store) n), r)
      else (Ok (), mkRotation (active_epoch r) (active_next_id r) (active_records r) (retired r)
                     (Some n))
  end.

Definition release_retired (ack : DurableAck) (r : EvidenceRotation)
    : result StoreError SealedStore * EvidenceRotation :=
  match retired r with
  | None => (Err NothingToRelease, r)
  | Some store =>
      if negb (bool_decide (redirected r = Some (writers_at_seal store)))
      then (Err (WriterCountMismatch (writers_at_seal store) (default 0 (redirected r))), r)
      else
        let needed := as_u64 (base_id store + saturating_sub (records store) 1) in
        if through_id ack <? needed
        then (Err (UnackedRelease (through_id ack) needed), r)
        else (Ok store, mkRotation (active_epoch r) (active_next_id r) (active_records r) None None)
  end.
End Rotation.

(** ** The directory of appended segments *)
Module Segments.

Definition MAX_SEGMENTS : Z := 16.

Inductive InnerMapKind := PerCpuArray | Hash.

#[export] Instance InnerMapKind_eq_dec : EqDecision InnerMapKind.
Proof. solve_decision. Defined.

Record SegmentSpec := mkSpec {
  kind : InnerMapKind;
  key_bytes : Z;
  value_bytes : Z;
  max_entries : Z;
}.

Definition compatible_with (a b : SegmentSpec) : bool :=
  bool_decide (kind a = kind b) && (key_bytes a =? key_bytes b) && (value_bytes a =? value_bytes b).

Inductive SegmentError :=
| DirectoryFull (cap : Z)
| IncompatibleSpec
| EmptySegment
| LengthOverflow
| UnknownEndpoint (endpoint : Z).

Record AppendedSegment := mkSegment { base : Z; len : Z; segment_value_bytes : Z }.

Record SegmentDirectory := mkDirectory {
  cap : Z;
  spec : option SegmentSpec;
  segments : list AppendedSegment;
  next_base : Z;
}.

Definition new (cap : Z) : option SegmentDirectory :=
  if (cap =? 0) || (MAX_SEGMENTS <? cap) then None else Some (mkDirectory cap None [] 0).

Definition append (s : SegmentSpec) (n : Z) (d : SegmentDirectory)
    : result SegmentError Z * SegmentDirectory :=
  if cap d <=? Z.of_nat (length (segments d)) then (Err (DirectoryFull (cap d)), d)
  else if n =? 0 then (Err EmptySegment, d)
  else if match spec d with Some first => negb (compatible_with first s) | None => false end
  then (Err IncompatibleSpec, d)
  else match checked_add 64 (next_base d) n with
  | None => (Err LengthOverflow, d)
  | Some next =>
      (Ok (as_u32 (Z.of_nat (length (segments d)))),
       mkDirectory (cap d) (match spec d with Some first => Some first | None => Some s end)
         (segments d ++ [mkSegment (next_base d) n (value_bytes s)]) next)
  end.

(** The scan of [resolve]; the [expect] of the index conversion is [None] of
    the inner option. *)
Fixpoint scan (id : nat) (endpoint : Z) (l : list AppendedSegment) : option (option (Z * Z)) :=
  match l with
  | [] => Some None
  | s :: l =>
      let end_ := as_u64 (base s + len s) in
      if (base s <=? endpoint) && (endpoint <? end_) then
        if endpoint - base s <=? U32_MAX
        then Some (Some (as_u32 (Z.of_nat id), endpoint - base s)) else None
      else scan (S id) endpoint l
  end.

Definition resolve (endpoint : Z) (d : SegmentDirectory) : option (option (Z * Z)) :=
  scan 0 endpoint (segments d).

(** The touched segment ids, in order and without repeats. *)
Fixpoint check_cross_segment (endpoints : list Z) (touched : list (Z * unit))
    (d : SegmentDirectory) : option (result SegmentError (list Z)) :=
  match endpoints with
  | [] => Some (Ok touched.*1)
  | e :: endpoints =>
      r ← resolve e d;
      match r with
      | None => Some (Err (UnknownEndpoint e))
      | Some (segment, _) => check_cross_segment endpoints (BTree.insert segment () touched) d
      end
  end.
End Segments.

(** ** The allocation lifecycle *)
Module Lifecycle.

Inductive AllocState :=
  Reserved | Initialized | Published | ProducersEnabled | Retired | Quarantined | SettlementAcked.

#[export] Instance AllocState_eq_dec : EqDecision AllocState.
Proof. solve_decision. Defined.

Record Allocation := mkAllocation { id : Z; state : AllocState; payload_bytes : Z }.

Record AllocTransitionError := mkTransitionError { from : AllocState; to : AllocState }.

Definition reserve (id payload_bytes : Z) : Allocation := mkAllocation id Reserved payload_bytes.

Definition legal (from to : AllocState) : bool :=
  match from, to with
  | Reserved, Initialized
  | Initialized, Published
  | Initialized, Quarantined
  | Published, ProducersEnabled
  | Published, Quarantined
  | ProducersEnabled, Retired
  | ProducersEnabled, Quarantined
  | Retired, SettlementAcked
  | Quarantined, SettlementAcked => true
  | _, _ => false
  end.

Definition transition (to : AllocState) (a : Allocation)
    : result AllocTransitionError unit * Allocation :=
  if negb (legal (state a) to) then (Err (mkTransitionError (state a) to), a)
  else (Ok (), mkAllocation (id a) to (payload_bytes a)).

(** The requests made of one allocation, and how many succeeded. *)
Fixpoint transitions (tos : list AllocState) (a : Allocation) : nat * Allocation :=
  match tos with
  | [] => (O, a)
  | to :: tos =>
      let '(r, a) := transition to a in
      let '(n, a) := transitions tos a in
      ((if is_ok r then S n else n), a)
  end.
End Lifecycle.

(** ** The writer fence of a live counter *)
Module Fence.

(** The counter's word, the [RwLock] of its [WriterSet] (the read guards held and
    whether the write guard is) and the in-flight word. The lock is never poisoned:
    only a panic under the write guard would, and the swap under it cannot panic. *)
Record cell := mkCell { value : Z; readers : nat; writing : bool; in_flight : Z }.

(** A writer: [hold] takes the read lock and then counts itself; dropping the
    guard uncounts it before the lock is released. *)
Inductive phase := Idle | Locked | Held | Leaving.

#[export] Instance phase_eq_dec : EqDecision phase.
Proof. solve_decision. Defined.

(** [lock.read()] waits, [None], while the write guard is held. *)
Definition hold_lock (c : cell) : option cell :=
  if writing c then None else Some (mkCell (value c) (S (readers c)) false (in_flight c)).
Definition hold_count (c : cell) : cell :=
  mkCell (value c) (readers c) (writing c) (incr64 (in_flight c)).
Definition increment (c : cell) : cell :=
  mkCell (incr64 (value c)) (readers c) (writing c) (in_flight c).
Definition drop_count (c : cell) : cell :=
  mkCell (value c) (readers c) (writing c) (as_u64 (in_flight c - 1)).
Definition drop_lock (c : cell) : cell :=
  mkCell (value c) (pred (readers c)) (writing c) (in_flight c).

(** [CounterError::WritersActive]. *)
Record CounterError := WritersActive { active : Z }.

(** [lock.try_write()]: refused while any guard is held, a reader's or another
    replacer's. *)
Definition try_write (c : cell) : option cell :=
  match readers c, writing c with
  | O, false => Some (mkCell (value c) O true (in_flight c))
  | _, _ => None
  end.

Definition drop_write (c : cell) : cell := mkCell (value c) (readers c) false (in_flight c).

Definition swap (new : Z) (c : cell) : Z * cell :=
  (value c, mkCell new (readers c) (writing c) (in_flight c)).

(** How far a call of [try_replace_quiesced] has come: entered, with the write
    guard, with the swapped-out value, refused, returned. *)
Inductive attempt :=
| Entered
| Acquired
| Swapped (old : Z)
| Refused
| Returned (r : result CounterError Z).

(** One shared access of the call: [try_write], then the swap and the drop of the
    guard, or the load of the in-flight count. *)
Definition try_replace_quiesced (new : Z) (p : attempt) (c : cell) : attempt * cell :=
  match p with
  | Entered =>
      match try_write c with
      | Some c => (Acquired, c)
      | None => (Refused, c)
      end
  | Acquired => let '(old, c) := swap new c in (Swapped old, c)
  | Swapped old => (Returned (Ok old), drop_write c)
  | Refused => (Returned (Err (WritersActive (in_flight c))), c)
  | Returned _ => (p, c)
  end.

(** The swap of an attempt was done. *)
Definition swapped (a : Z * attempt) : bool :=
  match a.2 with Swapped _ | Returned (Ok _) => true | _ => false end.

Definition swaps (l : list (Z * attempt)) : nat := length (List.filter swapped l).

(** A writer, and the number of swaps done when it last took the lock. *)
Record writer := mkWriter { at_ : phase; since : nat }.

(** The whole system: the cell, its writers, every replacement ever called with
    the value it brings, and the increments made so far. *)
Record system := mkSystem {
  shared : cell;
  writers : list writer;
  attempts : list (Z * attempt);
  made : Z;
}.

Inductive step : system → system → Prop :=
| step_lock c c' w1 w2 e a m :
    hold_lock c = Some c' →
    step (mkSystem c (w1 ++ mkWriter Idle e :: w2) a m)
         (mkSystem c' (w1 ++ mkWriter Locked (swaps a) :: w2) a m)
| step_count c w1 w2 e a m :
    step (mkSystem c (w1 ++ mkWriter Locked e :: w2) a m)
         (mkSystem (hold_count c) (w1 ++ mkWriter Held e :: w2) a m)
| step_increment c w1 w2 e a m :
    step (mkSystem c (w1 ++ mkWriter Held e :: w2) a m)
         (mkSystem (increment c) (w1 ++ mkWriter Held e :: w2) a (m + 1))
| step_uncount c w1 w2 e a m :
    step (mkSystem c (w1 ++ mkWriter Held e :: w2) a m)
         (mkSystem (drop_count c) (w1 ++ mkWriter Leaving e :: w2) a m)
| step_unlock c w1 w2 e a m :
    step (mkSystem c (w1 ++ mkWriter Leaving e :: w2) a m)
         (mkSystem (drop_lock c) (w1 ++ mkWriter Idle e :: w2) a m)
| step_call c w a m new :
    is_u64 new →
    step (mkSystem c w a m) (mkSystem c w (a ++ [(new, Entered)]) m)
| step_replace c c' w a1 a2 m new p p' :
    try_replace_quiesced new p c = (p', c') →
    step (mkSystem c w (a1 ++ (new, p) :: a2) m) (mkSystem c' w (a1 ++ (new, p') :: a2) m).

Definition initial (n : nat) : system :=
  mkSystem (mkCell 0 0 false 0) (replicate n (mkWriter Idle 0)) [] 0.
End Fence.

(** ** The export session keeps what is not acknowledged *)

Section BTreeSpec.
Context {A : Type}.
Implicit Types m : list (Z * A).

Lemma insert_last k v m : Forall (λ kv, kv.1 < k) m → BTree.insert k v m = m ++ [(k, v)].
Proof.
  induction 1 as [|[k' v'] m Hk _ IH]; [done|]. simpl in *. rewrite IH.
  destruct (Z.ltb_spec k k'), (Z.eqb_spec k k'); done || lia.
Qed.

Lemma remove_all ids m :
  foldl (λ p i, BTree.remove i p) m ids =
    List.filter (λ kv, negb (existsb (Z.eqb kv.1) ids)) m.
Proof.
  revert m. induction ids as [|i ids IH]; intros m; simpl.
  { induction m as [|kv m IHm]; simpl; [done|by f_equal]. }
  rewrite IH. unfold BTree.remove. induction m as [|kv m IHm]; [done|]. simpl.
  destruct (kv.1 =? i); simpl; [done|]. by rewrite IHm.
Qed.

Lemma remove_prefix m1 m2 :
  NoDup (m1 ++ m2).*1 → foldl (λ p i, BTree.remove i p) (m1 ++ m2) m1.*1 = m2.
Proof.
  intros Hnd. rewrite remove_all, List.filter_app.
  rewrite fmap_app in Hnd. apply NoDup_app in Hnd as (_ & Hdis & _).
  assert (∀ k, existsb (Z.eqb k) m1.*1 = true ↔ k ∈ m1.*1) as Hex.
  { intros k. rewrite existsb_exists. setoid_rewrite <- list_elem_of_In.
    setoid_rewrite Z.eqb_eq. naive_solver. }
  assert (∀ m, (∀ kv, kv ∈ m → kv.1 ∈ m1.*1) →
    List.filter (λ kv, negb (existsb (Z.eqb kv.1) m1.*1)) m = []) as Hall.
  { induction m as [|kv m IH]; intros Hin; [done|]. simpl.
    rewrite (proj2 (Hex _)) by set_solver. apply IH. set_solver. }
  assert (∀ m, (∀ kv, kv ∈ m → kv.1 ∉ m1.*1) →
    List.filter (λ kv, negb (existsb (Z.eqb kv.1) m1.*1)) m = m) as Hnone.
  { induction m as [|kv m IH]; intros Hin; [done|]. simpl.
    destruct (existsb _ _) eqn:He; [apply Hex in He; set_solver|]. simpl. f_equal. set_solver. }
  rewrite Hall, Hnone; [done| |].
  - intros kv Hkv Hin. apply (Hdis (kv.1)); [done|]. by apply list_elem_of_fmap_2.
  - intros kv Hkv. by apply list_elem_of_fmap_2.
Qed.
End BTreeSpec.

Section SessionSpec.
Import Overlap Session.

Inductive op :=
| Append (k : ExportKind) (b : Z)
| Cutoff (open : Z)
| Include (snap : FinalSnapshot)
| Stage
| Commit (ack : DurableAck).

Definition session_step (s : ExportSession) (o : op) : ExportSession :=
  match o with
  | Append k b => (append k b s).2
  | Cutoff n => (cutoff_producers n s).2
  | Include snap => (include_final_snapshot snap s).2
  | Stage => (stage_batch s).2
  | Commit ack => (commit_ack ack s).2
  end.

Definition session_run (ops : list op) : ExportSession := foldl session_step Session.new ops.

Definition is_append (o : op) : bool := match o with Append _ _ => true | _ => false end.

Definition appended (ops : list op) : Z := Z.of_nat (length (List.filter is_append ops)).

(** The first id that is not acknowledged. *)
Definition frontier (s : ExportSession) : Z :=
  match acked_through s with Some t => t + 1 | None => 0 end.

(** [n] records were appended; those from the frontier on are pending, and a
    staged batch is a prefix of them, staged after the cutoff. *)
Record session_ok (s : ExportSession) (n : Z) : Prop := {
  so_next : next_id s = n;
  so_frontier : 0 <= frontier s <= n;
  so_keys : (pending s).*1 = seqZ (frontier s) (n - frontier s);
  so_ids : Forall (λ kv, id kv.2 = kv.1) (pending s);
  so_staged : match staged s with
              | Some b => b ≠ [] ∧ (∃ rest, pending_batch s = b ++ rest) ∧ producers_cut_off s = true
              | None => True end;
}.

Lemma session_append k b s n :
  session_ok s n → 0 <= n < 2 ^ 64 - 1 → session_ok (append k b s).2 (n + 1).
Proof.
  intros [Hn Hf Hk Hi Hs] Hlt. unfold append. simpl.
  assert (BTree.insert (next_id s) (mkRecord (next_id s) k b) (pending s) =
          pending s ++ [(next_id s, mkRecord (next_id s) k b)]) as Hins.
  { apply insert_last, Forall_forall. intros kv Hkv.
    assert (kv.1 ∈ (pending s).*1) as Hin by (by apply list_elem_of_fmap_2).
    rewrite Hk in Hin. apply elem_of_seqZ in Hin. lia. }
  split; unfold frontier in *; simpl; rewrite ?Hins.
  - rewrite incr64_small by lia. lia.
  - lia.
  - rewrite fmap_app, Hk. simpl. destruct (acked_through s) as [t|];
      (rewrite Hn; match goal with |- seqZ ?f _ ++ _ = _ =>
         replace (n + 1 - f) with ((n - f) + 1) by lia; rewrite (seqZ_app f (n - f) 1) by lia;
         replace (f + (n - f)) with n by lia end; done).
  - apply Forall_app. split; [done|by repeat constructor].
  - destruct (staged s) as [bt|]; [|done]. destruct Hs as (? & [rest Hr] & ?).
    split_and!; [done| |done]. unfold pending_batch, BTree.values in *. simpl.
    rewrite fmap_app, Hr. exists (rest ++ [mkRecord (next_id s) k b]).
    by rewrite <- app_assoc.
Qed.

(** What a successful commit did. *)
Definition committed (ack : DurableAck) (s s' : ExportSession) (count : Z) : Prop :=
  ∃ batch rest,
    staged s = Some batch ∧ pending_batch s = batch ++ rest ∧ pending_batch s' = rest ∧
    count = Z.of_nat (length batch) ∧ 0 < count ∧
    through_id ack = frontier s + count - 1 ∧ frontier s' = frontier s + count ∧
    ack_checksum ack = export_checksum batch ∧ producers_cut_off s = true.

Lemma session_commit ack s n :
  session_ok s n →
  session_ok (commit_ack ack s).2 n ∧
  match commit_ack ack s with
  | (Ok count, s') => committed ack s s' count
  | (Err _, s') => s' = s
  end.
Proof.
  intros Hok. unfold commit_ack. destruct (staged s) as [batch|] eqn:Hst; [|done].
  destruct (last batch) as [l|] eqn:Hlast; [|done].
  destruct (Z.eqb_spec (through_id ack) (id l)) as [Ht|]; [|done].
  destruct (Z.eqb_spec (ack_checksum ack) (export_checksum batch)) as [Hc|]; [|done].
  cbn [negb fst snd]. destruct Hok as [Hn Hf Hk Hi Hs]. rewrite Hst in Hs.
  destruct Hs as (Hne & [rest Hr] & Hcut). unfold pending_batch, BTree.values in Hr.
  apply fmap_app_inv in Hr as (m1 & m2 & Hb & Hrest & Hp).
  rewrite Hp in Hk, Hi. rewrite Hp. apply Forall_app in Hi as [Hi1 Hi2].
  assert (id <$> batch = m1.*1) as Hids.
  { rewrite Hb, <- list_fmap_compose. clear -Hi1. induction Hi1; simpl; [done|]. by f_equal. }
  assert (foldl (λ p i, BTree.remove i p) (m1 ++ m2) (id <$> batch) = m2) as Hrem.
  { rewrite Hids. apply remove_prefix. rewrite Hk. apply NoDup_seqZ. }
  rewrite Hrem. rewrite fmap_app in Hk.
  assert (length batch = length m1) as Hlen by (by rewrite Hb, length_fmap).
  assert (length m1 + length m2 = Z.to_nat (n - frontier s))%nat as Htotal.
  { apply (f_equal length) in Hk. by rewrite length_app, !length_fmap, length_seqZ in Hk. }
  set (c := Z.of_nat (length m1)).
  assert (0 < c) as Hpos by (unfold c; rewrite <- Hlen; destruct batch; [done|simpl; lia]).
  assert (seqZ (frontier s) (n - frontier s) =
          seqZ (frontier s) c ++ seqZ (frontier s + c) (n - frontier s - c)) as Hsplit.
  { rewrite <- seqZ_app by lia. f_equal. lia. }
  rewrite Hsplit in Hk.
  apply app_inj_1 in Hk as [Hk1 Hk2]; [|rewrite length_fmap, length_seqZ; lia].
  assert (id l = frontier s + c - 1) as Hid.
  { assert (last (id <$> batch) = Some (id l)) as Hl by (by rewrite fmap_last, Hlast).
    rewrite Hids, Hk1 in Hl. replace c with ((c - 1) + 1) in Hl by lia.
    rewrite seqZ_app, seqZ_one, last_snoc in Hl by lia. injection Hl as <-. lia. }
  assert (frontier (mkSession (next_id s) m2 (producers_cut_off s) (snapshot s) None
            (Some (through_id ack))) = frontier s + c) as Hfr
    by (change (through_id ack + 1 = frontier s + c); lia).
  split.
  - split; simpl; rewrite ?Hfr; try done; [lia|]. rewrite Hk2. f_equal. lia.
  - exists batch, rest. rewrite Hfr. split_and!; try done; try (unfold c in *; lia).
    unfold pending_batch, BTree.values. by rewrite Hp, fmap_app, Hb, Hrest.
Qed.

Lemma session_step_ok o s n :
  session_ok s n → 0 <= n < 2 ^ 64 - 1 →
  session_ok (session_step s o) (n + if is_append o then 1 else 0).
Proof.
  intros Hok Hn. destruct o as [k b|k|snap| |ack]; cbn [session_step is_append];
    rewrite ?Z.add_0_r.
  - by apply session_append.
  - unfold cutoff_producers. destruct (0 <? k); [done|]. destruct Hok as [? ? ? ? Hs].
    split; try done. simpl. destruct (staged s); [naive_solver|done].
  - unfold include_final_snapshot. case_bool_decide; [|done]. by destruct Hok.
  - unfold stage_batch. destruct (producers_cut_off s) eqn:Hcut; [|done]. cbn [negb].
    destruct (snapshot s); [|done]. destruct (pending_batch s) as [|r b] eqn:Hb; [done|].
    case_bool_decide; [|done]. destruct Hok. split; try done. simpl.
    split_and!; [done| |done]. exists []. by rewrite app_nil_r.
  - by apply session_commit.
Qed.

Lemma session_run_ok ops : Z.of_nat (length ops) < 2 ^ 64 → session_ok (session_run ops) (appended ops).
Proof.
  unfold session_run, appended. induction ops as [|o ops IH] using rev_ind; intros Hlen.
  { by split. }
  rewrite length_app in Hlen. simpl in Hlen. rewrite foldl_snoc, List.filter_app, length_app.
  specialize (IH ltac:(lia)).
  pose proof (List.filter_length_le is_append ops).
  pose proof (session_step_ok o _ _ IH ltac:(lia)) as H'. rewrite Nat2Z.inj_add.
  cbn [List.filter]. by destruct (is_append o).
Qed.

(** C19: the export session never drops an unacknowledged record.  After any
    sequence of appends, cutoffs, snapshots, stagings and commits, the pending
    ids are exactly those from the first unacknowledged one up to the next id,
    in order, and the ids handed out are the appended records. *)
Theorem export_session_retains ops :
  Z.of_nat (length ops) < 2 ^ 64 →
  let s := session_run ops in
  next_id s = appended ops ∧
  0 <= frontier s <= next_id s ∧
  (id <$> pending_batch s) = seqZ (frontier s) (next_id s - frontier s).
Proof.
  intros Hlen s. destruct (session_run_ok ops Hlen) as [Hn Hf Hk Hi _]. fold s in Hn, Hf, Hk, Hi.
  split_and!; try lia. unfold pending_batch, BTree.values. rewrite Hn, <- Hk.
  rewrite <- list_fmap_compose. clear -Hi. induction Hi; simpl; [done|]. by f_equal.
Qed.

Definition demo_ops : list op :=
  [Append PositiveEvidence 10; Append OmissionHistory 4; Cutoff 0;
   Include (compute [mkRecord 0 PositiveEvidence 10; mkRecord 1 OmissionHistory 4]);
   Stage; Append CounterSnapshot 8].

Definition demo_ack : DurableAck :=
  mkAck 1 (export_checksum [mkRecord 0 PositiveEvidence 10; mkRecord 1 OmissionHistory 4]).

Lemma export_session_retains_witness :
  (id <$> pending_batch (session_run (demo_ops ++ [Commit demo_ack]))) = [2].
Proof.
  etransitivity; [apply (export_session_retains (demo_ops ++ [Commit demo_ack])); done|].
  vm_compute. reflexivity.
Defined.

(** An acknowledgement retires exactly the staged batch, and only under
    its own terms: in any reachable session a commit succeeds only with the
    staged batch's last id and checksum, after the producers were cut off; it
    removes that prefix of the pending records and moves the frontier past it.
    A refused commit changes nothing. *)
Theorem commit_ack_exact ops ack :
  Z.of_nat (length ops) < 2 ^ 64 →
  match commit_ack ack (session_run ops) with
  | (Ok count, s') => committed ack (session_run ops) s' count
  | (Err _, s') => s' = session_run ops
  end.
Proof. intros Hlen. eapply session_commit, session_run_ok, Hlen. Qed.

Lemma commit_ack_exact_witness :
  committed demo_ack (session_run demo_ops) (session_run (demo_ops ++ [Commit demo_ack])) 2.
Proof. exact (commit_ack_exact demo_ops demo_ack ltac:(done)). Defined.

(** Counting by a boolean. *)
Definition count_ids (f : Z → bool) (log : list (Z * Z)) : Z :=
  Z.of_nat (length (List.filter (λ e, f e.1) log)).

Lemma contains_key_iff {A} k (m : list (Z * A)) : BTree.contains_key k m = true ↔ k ∈ m.*1.
Proof.
  unfold BTree.contains_key. rewrite existsb_exists, list_elem_of_fmap.
  setoid_rewrite <- list_elem_of_In. setoid_rewrite Z.eqb_eq. naive_solver.
Qed.

(** Replaying a durable log against a reachable session classifies every
    entry: the duplicates are the ids below the frontier and the unaccounted
    ones are those that were never handed out; the rest are pending. *)
Theorem replay_report_exact ops log :
  Z.of_nat (length ops) < 2 ^ 64 → Z.of_nat (length log) < 2 ^ 64 →
  Forall (λ e, 0 <= e.1) log →
  let s := session_run ops in
  replay_report s log =
    mkReplay (count_ids (λ i, i <? frontier s) log) (count_ids (λ i, next_id s <=? i) log).
Proof.
  intros Hops Hlog Hpos s. destruct (session_run_ok ops Hops) as [Hn Hf Hk _ _].
  fold s in Hn, Hf, Hk. clearbody s. unfold replay_report.
  induction log as [|e log IH] using rev_ind; [done|].
  apply Forall_app in Hpos as [Hpos He%Forall_inv]. rewrite length_app in Hlog. simpl in Hlog.
  rewrite foldl_snoc, IH by (done || lia). unfold count_ids.
  rewrite !List.filter_app, !length_app. simpl.
  pose proof (List.filter_length_le (λ e, e.1 <? frontier s) log).
  pose proof (List.filter_length_le (λ e, next_id s <=? e.1) log).
  assert (match acked_through s with Some through => e.1 <=? through | None => false end =
          (e.1 <? frontier s)) as Hdup.
  { unfold frontier. destruct (acked_through s); zif; done || lia. }
  assert (frontier s <= e.1 → BTree.contains_key e.1 (pending s) = negb (next_id s <=? e.1)) as Hin.
  { intros Hle. apply eq_true_iff_eq. rewrite contains_key_iff, Hk, elem_of_seqZ, negb_true_iff.
    destruct (Z.leb_spec (next_id s) e.1); split; intros; try done; lia. }
  unfold replay_step. rewrite Hdup. cbn [duplicates unaccounted].
  destruct (Z.ltb_spec e.1 (frontier s)).
  - rewrite (proj2 (Z.leb_gt _ _)) by lia. simpl. rewrite incr64_small by lia.
    f_equal; lia.
  - rewrite Hin by done. destruct (Z.leb_spec (next_id s) e.1); simpl;
      [rewrite incr64_small by lia|]; f_equal; lia.
Qed.

Lemma replay_report_exact_witness :
  replay_report (session_run (demo_ops ++ [Commit demo_ack])) [(0, 10); (1, 4); (2, 8); (7, 1)] =
    mkReplay 2 1.
Proof.
  etransitivity; [apply (replay_report_exact (demo_ops ++ [Commit demo_ack])); [done|done|]|].
  - repeat constructor; simpl; lia.
  - vm_compute. reflexivity.
Defined.
End SessionSpec.

(** ** Rotation loses no record and releases none early *)

Section RotationSpec.
Import Overlap Rotation.

Inductive rotation_op :=
| RAppend (n : Z)
| RRotate (writers : Z)
| RRedirect (n : Z)
| RRelease (ack : DurableAck).

Abbreviation released := (list (SealedStore * DurableAck)).

Definition rotation_step (st : EvidenceRotation * released) (o : rotation_op)
    : EvidenceRotation * released :=
  let '(r, out) := st in
  match o with
  | RAppend n => (append n r, out)
  | RRotate w => ((rotate w r).2, out)
  | RRedirect n => ((redirect_writers n r).2, out)
  | RRelease ack =>
      match release_retired ack r with
      | (Ok store, r) => (r, out ++ [(store, ack)])
      | (Err _, r) => (r, out)
      end
  end.

Definition rotation_run (ops : list rotation_op) : EvidenceRotation * released :=
  foldl rotation_step (new, []) ops.

Definition appended_by (o : rotation_op) : Z := match o with RAppend n => n | _ => 0 end.
Definition total_appended (ops : list rotation_op) : Z := zsum appended_by ops.

(** Stores that follow each other without a gap, in ids and in epochs. *)
Fixpoint chained (b e : Z) (stores : list SealedStore) (b' e' : Z) : Prop :=
  match stores with
  | [] => b = b' ∧ e = e'
  | s :: stores => base_id s = b ∧ epoch s = e ∧ 0 <= records s ∧
                   chained (b + records s) (e + 1) stores b' e'
  end.

Lemma chained_snoc b e stores s b' e' :
  chained b e (stores ++ [s]) b' e' ↔
  chained b e stores (base_id s) (epoch s) ∧ 0 <= records s ∧ b' = base_id s + records s ∧
  e' = epoch s + 1.
Proof.
  revert b e. induction stores as [|x stores IH]; intros b e; simpl; [naive_solver lia|].
  rewrite IH. naive_solver.
Qed.

(** The acknowledgement of a released store covers each of its records. *)
Definition covered (p : SealedStore * DurableAck) : Prop :=
  ∀ i, base_id p.1 <= i < base_id p.1 + records p.1 → i <= through_id p.2.

Record rotation_ok (r : EvidenceRotation) (out : released) (total n : Z) : Prop := {
  ro_next : active_next_id r = total;
  ro_records : 0 <= active_records r <= total;
  ro_epoch : 0 <= active_epoch r <= n;
  ro_chain : chained 0 0 (out.*1 ++ option_list (retired r))
               (active_next_id r - active_records r) (active_epoch r);
  ro_covered : Forall covered out;
  ro_base : match retired r with
            | Some s => 0 <= base_id s ∧ 0 <= records s ∧ base_id s + records s <= total
            | None => True end;
}.

Lemma rotation_step_ok r out total n o :
  rotation_ok r out total n → 0 <= appended_by o → total + appended_by o < 2 ^ 64 →
  0 <= n < 2 ^ 64 - 1 →
  rotation_ok (rotation_step (r, out) o).1 (rotation_step (r, out) o).2
    (total + appended_by o) (n + 1).
Proof.
  intros [Hn Hr He Hc Hcov Hb] Ho Ht Hlt.
  destruct o as [k|w|k|ack]; cbn [rotation_step appended_by] in *; rewrite ?Z.add_0_r.
  - split; simpl; rewrite ?(wrap_small 64), ?Hn by (unfold in_width; lia); try done; try lia.
    + rewrite Hn in Hc. by replace (total + k - (active_records r + k)) with (total - active_records r) by lia.
    + destruct (retired r); [lia|done].
  - unfold rotate. destruct (retired r) as [s|] eqn:Hret; simpl.
    { split; rewrite ?Hret; simpl; try done; lia. }
    assert (as_u64 (active_next_id r - active_records r) = total - active_records r) as Hbase
      by (rewrite Hn; apply wrap_small; unfold in_width; lia).
    simpl in Hc. rewrite app_nil_r, Hn in Hc.
    split; simpl; rewrite ?Hbase, ?incr64_small by lia; try done; try lia.
    rewrite chained_snoc. simpl. split_and!; try done; lia.
  - unfold redirect_writers. destruct (retired r) as [s|] eqn:Hret; simpl.
    + destruct (k =? writers_at_seal s); simpl; split; simpl; rewrite ?Hret; try done; lia.
    + split; rewrite ?Hret; try done; lia.
  - unfold release_retired. destruct (retired r) as [s|] eqn:Hret; simpl.
    2: { split; rewrite ?Hret; try done; lia. }
    destruct (negb _); simpl; [split; rewrite ?Hret; try done; lia|].
    assert (as_u64 (base_id s + saturating_sub (records s) 1) = base_id s + Z.max (records s - 1) 0)
      as -> by (apply wrap_small; unfold in_width, saturating_sub; lia).
    destruct (Z.ltb_spec (through_id ack) (base_id s + Z.max (records s - 1) 0)); simpl.
    { split; rewrite ?Hret; try done; lia. }
    split; simpl; try done; try lia.
    + by rewrite fmap_app, app_nil_r.
    + apply Forall_app. split; [done|]. repeat constructor. unfold covered. simpl. lia.
Qed.

Lemma rotation_run_ok ops r out :
  Forall (λ o, 0 <= appended_by o) ops → total_appended ops < 2 ^ 64 →
  Z.of_nat (length ops) < 2 ^ 64 → rotation_run ops = (r, out) →
  rotation_ok r out (total_appended ops) (Z.of_nat (length ops)).
Proof.
  revert r out. unfold rotation_run, total_appended.
  induction ops as [|o ops IH] using rev_ind; intros r out Hpos Htot Hlen Hrun.
  { injection Hrun as <- <-. split; simpl; try done; lia. }
  apply Forall_app in Hpos as [Hpos Ho%Forall_inv]. rewrite foldl_snoc in Hrun.
  rewrite zsum_app in *. rewrite length_app in *. simpl in *. rewrite Z.add_0_r in *.
  assert (0 <= zsum appended_by ops) as Hz.
  { clear -Hpos. unfold zsum. induction Hpos; simpl in *; lia. }
  destruct (foldl rotation_step (new, []) ops) as [r0 out0] eqn:H0.
  specialize (IH r0 out0 Hpos ltac:(lia) ltac:(lia) eq_refl).
  pose proof (rotation_step_ok r0 out0 _ _ o IH Ho ltac:(lia) ltac:(lia)) as H1.
  rewrite Hrun in H1. simpl in H1. by rewrite Nat2Z.inj_add.
Qed.

(** Whatever is appended, rotated, redirected and acknowledged, the
    evidence stores partition the record ids: the released stores, the retired
    one and the active one follow each other without a gap or an overlap from
    record 0 to the last appended record, in epoch order, and a store is released
    only under an acknowledgement that covers each of its records. *)
Theorem rotation_partitions_records ops r out :
  Forall (λ o, 0 <= appended_by o) ops → total_appended ops < 2 ^ 64 →
  Z.of_nat (length ops) < 2 ^ 64 → rotation_run ops = (r, out) →
  active_next_id r = total_appended ops ∧
  chained 0 0 (out.*1 ++ option_list (retired r))
    (active_next_id r - active_records r) (active_epoch r) ∧
  0 <= active_records r <= active_next_id r ∧
  Forall covered out.
Proof.
  intros Hpos Htot Hlen Hrun. destruct (rotation_run_ok ops r out Hpos Htot Hlen Hrun) as [].
  split_and!; try done; lia.
Qed.

Lemma rotation_partitions_records_witness :
  chained 0 0 [mkStore 0 0 5 2; mkStore 1 5 3 2] 8 2.
Proof.
  destruct (rotation_run [RAppend 5; RRotate 2; RRedirect 2; RRelease (mkAck 4 0); RAppend 3;
                          RRotate 2; RAppend 1]) as [r out] eqn:Hrun.
  pose proof Hrun as H.
  apply (rotation_partitions_records _ r out) in H as (_ & Hc & _);
    [|repeat constructor; simpl; lia|done|done].
  vm_compute in Hrun. injection Hrun as <- <-. exact Hc.
Defined.


End RotationSpec.

(** ** Routing an endpoint to its segment *)

Section SegmentsSpec.
Import Segments.

(** Nonempty segments laid end to end from [b] to [b']. *)
Fixpoint tiled (b : Z) (l : list AppendedSegment) (b' : Z) : Prop :=
  match l with
  | [] => b = b'
  | s :: l => base s = b ∧ 1 <= len s < 2 ^ 32 ∧ tiled (b + len s) l b'
  end.

Lemma tiled_le b l b' : tiled b l b' → b <= b'.
Proof. revert b. induction l as [|s l IH]; intros b; simpl; [lia|]. intros (? & ? & ?%IH). lia. Qed.

Lemma tiled_snoc b l s b' :
  tiled b l b' → base s = b' → 1 <= len s < 2 ^ 32 → tiled b (l ++ [s]) (b' + len s).
Proof.
  revert b. induction l as [|x l IH]; intros b; simpl; [naive_solver|].
  intros (? & ? & ?) ? ?. auto.
Qed.

(** The scan of tiled segments routes every endpoint below the end. *)
Lemma scan_spec k b l b' e :
  0 <= b → tiled b l b' → b' < 2 ^ 64 → Z.of_nat k + Z.of_nat (length l) < 2 ^ 32 →
  if decide (b <= e < b') then
    ∃ i s, l !! i = Some s ∧ base s <= e < base s + len s ∧
      scan k e l = Some (Some (Z.of_nat (k + i), e - base s))
  else scan k e l = Some None.
Proof.
  intros Hb Ht Hlt Hk. revert k b Hb Ht Hk.
  induction l as [|s l IH]; intros k b Hb Ht Hk; simpl in *; [by rewrite decide_False by lia|].
  destruct Ht as (Hs & Hlen & Ht). pose proof (tiled_le _ _ _ Ht).
  rewrite Hs.
  assert (as_u64 (b + len s) = b + len s) as -> by (apply wrap_small; unfold in_width; lia).
  destruct (Z.leb_spec b e), (Z.ltb_spec e (b + len s)); simpl.
  - rewrite decide_True by lia. rewrite (proj2 (Z.leb_le _ _)) by (unfold U32_MAX; lia).
    exists O, s. split_and!; [done|lia|lia|].
    rewrite Nat.add_0_r, Hs. do 3 f_equal. apply wrap_small. unfold in_width. lia.
  - specialize (IH (S k) (b + len s) ltac:(lia) Ht ltac:(lia)).
    destruct (decide (b + len s <= e < b')), (decide (b <= e < b')); try lia; [|done].
    destruct IH as (i & x & Hi & Hx & ->). exists (S i), x. split_and!; try done; try lia.
    by rewrite Nat.add_succ_comm.
  - specialize (IH (S k) (b + len s) ltac:(lia) Ht ltac:(lia)).
    destruct (decide (b + len s <= e < b')), (decide (b <= e < b')); try lia; done.
  - lia.
Qed.

Lemma scan_app k e l1 l2 :
  scan k e (l1 ++ l2) =
    match scan k e l1 with Some None => scan (k + length l1) e l2 | found => found end.
Proof.
  revert k. induction l1 as [|s l1 IH]; intros k; simpl; [by rewrite Nat.add_0_r|].
  destruct (_ && _); [by destruct (_ <=? _)|]. rewrite IH. by rewrite Nat.add_succ_comm.
Qed.

Definition directory_ok (d : SegmentDirectory) : Prop :=
  tiled 0 (segments d) (next_base d) ∧ next_base d < 2 ^ 64 ∧
  Z.of_nat (length (segments d)) <= cap d <= MAX_SEGMENTS.

(** Directories built by appends. *)
Inductive directory : SegmentDirectory → Prop :=
| directory_new cap d : is_u32 cap → new cap = Some d → directory d
| directory_append s n d r d' :
    directory d → is_u32 n → append s n d = (r, d') → directory d'.

Lemma append_ok s n d r d' :
  directory_ok d → is_u32 n → append s n d = (r, d') →
  directory_ok d' ∧
  match r with
  | Ok id => id = Z.of_nat (length (segments d)) ∧ next_base d' = next_base d + n ∧
             segments d' = segments d ++ [mkSegment (next_base d) n (value_bytes s)]
  | Err _ => d' = d
  end.
Proof.
  intros Hok Hn Hrun. pose proof Hok as (Ht & Hlt & Hcap). unfold append in Hrun. unfold in_width in Hn.
  destruct (Z.leb_spec (cap d) (Z.of_nat (length (segments d)))); [by injection Hrun as <- <-|].
  destruct (Z.eqb_spec n 0); [by injection Hrun as <- <-|].
  match type of Hrun with (if ?b then _ else _) = _ => destruct b end;
    [by injection Hrun as <- <-|].
  unfold checked_add in Hrun.
  destruct (checked_spec 64 (next_base d + n)) as [[Hc Hw]|[Hc _]]; rewrite Hc in Hrun;
    injection Hrun as <- <-; [|done].
  unfold MAX_SEGMENTS, in_width in *. split; [split_and!; simpl|split_and!; simpl]; try done.
  all: rewrite ?length_app; unfold MAX_SEGMENTS; cbn [length]; try lia.
  - apply (tiled_snoc 0 _ (mkSegment _ n _)); simpl; try done; lia.
  - apply wrap_small. unfold in_width. lia.
Qed.

Lemma directory_is_ok d : directory d → directory_ok d.
Proof.
  induction 1 as [cap d Hc Hnew|s n d r d' _ IH Hn Hrun].
  - unfold new in Hnew. destruct (Z.eqb_spec cap 0), (Z.ltb_spec MAX_SEGMENTS cap); try done.
    injection Hnew as <-. unfold in_width in Hc. split_and!; simpl; try done; lia.
  - by destruct (append_ok _ _ _ _ _ IH Hn Hrun).
Qed.

(** In every directory built by appends, endpoint routing is total and
    exact: an endpoint below the total resolves to the one segment whose range
    holds it, at its offset there, and any other endpoint resolves to nothing;
    the index conversion never fails.  A later append never reroutes an
    endpoint, and it routes exactly its own new endpoints to the new segment. *)
Theorem segment_routing_exact d s n r d' e :
  directory d → is_u32 n → append s n d = (r, d') → 0 <= e →
  (if decide (e < next_base d) then
     ∃ i seg, segments d !! i = Some seg ∧ base seg <= e < base seg + len seg ∧
       resolve e d = Some (Some (Z.of_nat i, e - base seg)) ∧ resolve e d' = resolve e d
   else resolve e d = Some None ∧
     match r with
     | Ok id => resolve e d' = if e <? next_base d + n then Some (Some (id, e - next_base d))
                               else Some None
     | Err _ => resolve e d' = Some None
     end).
Proof.
  intros Hd Hn Hrun He. pose proof (directory_is_ok d Hd) as Hok.
  pose proof (append_ok _ _ _ _ _ Hok Hn Hrun) as [(_ & Hlt' & _) Hr].
  destruct Hok as (Ht & Hlt & Hcap). unfold MAX_SEGMENTS in *. unfold in_width in Hn.
  pose proof (scan_spec 0 0 _ _ e ltac:(lia) Ht Hlt ltac:(lia)) as Hs.
  pose proof (tiled_le _ _ _ Ht). unfold resolve.
  assert (segments d' = segments d ++ match r with
            Ok _ => [mkSegment (next_base d) n (value_bytes s)] | Err _ => [] end) as ->.
  { destruct r; [by destruct Hr as (_ & _ & ?)|]. subst d'. by rewrite app_nil_r. }
  rewrite scan_app. destruct (decide (e < next_base d)).
  - rewrite decide_True in Hs by lia. destruct Hs as (i & seg & Hi & Hrange & Hscan).
    exists i, seg. rewrite Hscan. split_and!; done || lia.
  - rewrite decide_False in Hs by lia. rewrite Hs. split; [done|].
    destruct r as [id|]; [|done]. destruct Hr as (-> & Hnext & _). rewrite Hnext in Hlt'.
    cbn [scan base len].
    assert (as_u64 (next_base d + n) = next_base d + n) as ->
      by (apply wrap_small; unfold in_width; lia).
    rewrite (proj2 (Z.leb_le _ _)) by lia. destruct (Z.ltb_spec e (next_base d + n)); [|done].
    cbn [andb]. rewrite (proj2 (Z.leb_le _ _)) by (unfold U32_MAX; lia).
    do 3 f_equal. apply wrap_small. unfold in_width. simpl. lia.
Qed.

Lemma segment_routing_exact_witness :
  directory (mkDirectory 4 None [] 0) ∧
  resolve 7 (mkDirectory 4 (Some (mkSpec Hash 8 16 0)) [mkSegment 0 10 16] 10) =
    Some (Some (0, 7)).
Proof.
  assert (directory (mkDirectory 4 None [] 0)) as Hd by (by eapply (directory_new 4)).
  split; [exact Hd|].
  exact (proj2 (segment_routing_exact _ (mkSpec Hash 8 16 0) 10 (Ok 0)
    (mkDirectory 4 (Some (mkSpec Hash 8 16 0)) [mkSegment 0 10 16] 10) 7 Hd
    ltac:(done) eq_refl ltac:(done))).
Defined.
End SegmentsSpec.

(** ** The allocation lifecycle moves forward only *)

Section LifecycleSpec.
Import Lifecycle.

(** How far a state is from the start. *)
Definition rank (s : AllocState) : nat :=
  match s with
  | Reserved => 0 | Initialized => 1 | Published => 2 | ProducersEnabled => 3
  | Retired => 4 | Quarantined => 4 | SettlementAcked => 5
  end.

Lemma transition_rank to a r a' :
  transition to a = (r, a') →
  id a' = id a ∧ payload_bytes a' = payload_bytes a ∧
  if is_ok r then state a' = to ∧ (rank (state a) < rank to)%nat else a' = a.
Proof.
  unfold transition. destruct (legal (state a) to) eqn:Hl; intros [= <- <-]; simpl; [|done].
  destruct (state a), to; simpl in *; try done; split_and!; done || lia.
Qed.

Lemma transitions_rank tos a n a' :
  transitions tos a = (n, a') →
  id a' = id a ∧ payload_bytes a' = payload_bytes a ∧
  (rank (state a) + n <= rank (state a'))%nat.
Proof.
  revert a n. induction tos as [|to tos IH]; intros a n; simpl; [intros [= <- <-]; split_and!; done || lia|].
  destruct (transition to a) as [r a1] eqn:H1. destruct (transitions tos a1) as [k a2] eqn:H2.
  intros [= <- <-]. apply IH in H2 as (Hi & Hp & Hr).
  apply transition_rank in H1 as (Hi1 & Hp1 & H1). rewrite Hi, Hp.
  destruct (is_ok r); [destruct H1 as [Hs ?]; rewrite Hs in Hr|subst a1]; split_and!; done || lia.
Qed.

(** Once quarantined, an allocation leaves only towards settlement. *)
Lemma quarantined_stays tos a n a' :
  state a = Quarantined → transitions tos a = (n, a') →
  state a' = Quarantined ∨ state a' = SettlementAcked.
Proof.
  intros Hq Hrun. assert (∀ tos a, state a = SettlementAcked → (transitions tos a).2 = a) as Hend.
  { clear. induction tos as [|to tos IH]; intros a Ha; [done|]. simpl. unfold transition.
    rewrite Ha. destruct to; simpl; specialize (IH a Ha); by destruct (transitions tos a). }
  revert a n Hq Hrun. induction tos as [|to tos IH]; intros a n Hq Hrun; simpl in Hrun.
  { injection Hrun as _ <-. by left. }
  unfold transition in Hrun. rewrite Hq in Hrun. destruct to; simpl in Hrun;
    destruct (transitions tos _) as [k a1] eqn:H1; injection Hrun as _ <-; try by eapply IH.
  right. apply (f_equal snd) in H1. rewrite Hend in H1 by done. simpl in H1. by subst a1.
Qed.

(** An allocation only moves forward: any sequence of transition requests
    keeps its id and payload, performs at most five transitions, and a refused
    one leaves it unchanged; an allocation that was quarantined is afterwards
    quarantined or settled. *)
Theorem allocation_lifecycle id bytes tos1 tos2 n1 n2 a1 a2 :
  transitions tos1 (reserve id bytes) = (n1, a1) → transitions tos2 a1 = (n2, a2) →
  Lifecycle.id a2 = id ∧ payload_bytes a2 = bytes ∧ (n1 + n2 <= 5)%nat ∧
  (rank (state a1) <= rank (state a2))%nat ∧
  (state a1 = Quarantined → state a2 = Quarantined ∨ state a2 = SettlementAcked) ∧
  (state a1 = SettlementAcked → n2 = O).
Proof.
  intros H1 H2.
  pose proof (λ H, quarantined_stays tos2 a1 n2 a2 H H2) as Hq.
  apply transitions_rank in H1 as (Hi1 & Hp1 & Hr1), H2 as (Hi2 & Hp2 & Hr2). simpl in *.
  assert (∀ s, (rank s <= 5)%nat) as Hmax by (intros []; simpl; lia).
  specialize (Hmax (state a2)).
  split_and!; [congruence|congruence|lia|lia|done|]. intros Hs. rewrite Hs in Hr2. simpl in Hr2. lia.
Qed.

Lemma allocation_lifecycle_witness :
  transitions [Initialized; Retired; Quarantined] (reserve 3 64) =
    (2%nat, mkAllocation 3 Quarantined 64) ∧ (2 + 1 <= 5)%nat.
Proof.
  split; [reflexivity|].
  exact (proj1 (proj2 (proj2 (allocation_lifecycle 3 64 [Initialized; Retired; Quarantined]
    [SettlementAcked] 2 1 _ (mkAllocation 3 SettlementAcked 64) eq_refl eq_refl)))).
Defined.
End LifecycleSpec.

(** ** Replacing a live counter loses no increment *)

Section FenceSpec.
Import Fence.

Definition busy (w : writer) : Z := match at_ w with Idle => 0 | _ => 1 end.
Definition counted (w : writer) : Z := match at_ w with Held => 1 | _ => 0 end.

(** What an attempt contributes: the write guard, the value it took out of the
    cell and the value it put there. *)
Definition holding (a : Z * attempt) : Z :=
  match a.2 with Acquired | Swapped _ => 1 | _ => 0 end.
Definition taken (a : Z * attempt) : Z :=
  match a.2 with Swapped old | Returned (Ok old) => old | _ => 0 end.
Definition given (a : Z * attempt) : Z := if swapped a then a.1 else 0.

Definition idle (w : writer) : Prop := at_ w = Idle.

#[export] Instance idle_dec w : Decision (idle w).
Proof. unfold idle. apply _. Defined.

Record fence_ok (n : Z) (s : system) : Prop := {
  fo_writers : Z.of_nat (length (writers s)) = n;
  fo_readers : Z.of_nat (readers (shared s)) = zsum busy (writers s);
  fo_flight : in_flight (shared s) = zsum counted (writers s);
  fo_lock : Z.b2z (writing (shared s)) = zsum holding (attempts s);
  fo_exclusive : writing (shared s) = true → readers (shared s) = O;
  fo_since : Forall (λ w, ¬ idle w → since w = swaps (attempts s)) (writers s);
  fo_value : (value (shared s) + zsum taken (attempts s)) mod 2 ^ 64 =
             (made s + zsum given (attempts s)) mod 2 ^ 64;
}.

Lemma zsum_middle {A} (f : A → Z) l1 x l2 :
  zsum f (l1 ++ x :: l2) = zsum f l1 + f x + zsum f l2.
Proof. rewrite zsum_app. change (zsum f (x :: l2)) with (f x + zsum f l2). lia. Qed.

Lemma zsum_range {A} (f : A → Z) l :
  (∀ x, 0 <= f x <= 1) → 0 <= zsum f l <= Z.of_nat (length l).
Proof. intros H. pose proof (zsum_bounds f 0 1 l H). lia. Qed.

Lemma busy_range w : 0 <= busy w <= 1.
Proof. destruct w as [[] ?]; unfold busy; simpl; lia. Qed.
Lemma counted_range w : 0 <= counted w <= 1.
Proof. destruct w as [[] ?]; unfold counted; simpl; lia. Qed.
Lemma holding_range a : 0 <= holding a <= 1.
Proof. destruct a as [? []]; unfold holding; simpl; lia. Qed.

Lemma zsum_busy_idle l : zsum busy l = 0 ↔ Forall idle l.
Proof.
  split.
  - intros Hz. apply Forall_lookup. intros i w Hw.
    pose proof (zsum_zero busy l (λ w, proj1 (busy_range w)) Hz i w Hw). by destruct w as [[] ?].
  - induction 1 as [|[p e] l Hw _ IH]; [done|]. unfold idle in Hw. simpl in Hw. subst p.
    change (0 + zsum busy l = 0). lia.
Qed.

Lemma counted_busy l : 0 <= zsum counted l <= zsum busy l.
Proof.
  induction l as [|[p e] l IH]; [done|].
  change (0 <= counted (mkWriter p e) + zsum counted l <= busy (mkWriter p e) + zsum busy l).
  destruct p; unfold counted, busy; cbn [at_]; fold counted busy; lia.
Qed.

Lemma swaps_app l1 l2 : swaps (l1 ++ l2) = (swaps l1 + swaps l2)%nat.
Proof. unfold swaps. by rewrite List.filter_app, length_app. Qed.

Lemma swaps_middle l1 a l2 :
  swaps (l1 ++ a :: l2) = (swaps l1 + Nat.b2n (swapped a) + swaps l2)%nat.
Proof. rewrite swaps_app. unfold swaps. simpl. destruct (swapped a); simpl; lia. Qed.

(** A writer moves on: the counts follow its phase. *)
Lemma writer_move n c c' w1 p e q e' w2 a m m' :
  fence_ok n (mkSystem c (w1 ++ mkWriter p e :: w2) a m) →
  Z.of_nat (readers c') = Z.of_nat (readers c) + busy (mkWriter q e') - busy (mkWriter p e) →
  in_flight c' = in_flight c + counted (mkWriter q e') - counted (mkWriter p e) →
  writing c' = writing c → (writing c = true → readers c' = O) →
  (q ≠ Idle → e' = swaps a ∨ (p ≠ Idle ∧ e' = e)) →
  (value c' - m') mod 2 ^ 64 = (value c - m) mod 2 ^ 64 →
  fence_ok n (mkSystem c' (w1 ++ mkWriter q e' :: w2) a m').
Proof.
  intros [Hw Hr Hf Hl Hx Hs Hv] Hr' Hf' Hl' Hx' He Hv'.
  split; cbn [shared writers attempts made] in *; rewrite ?zsum_middle, ?Hl' in *; try lia.
  - rewrite length_app in *. simpl in *. lia.
  - auto.
  - apply Forall_app in Hs as [Hs1 [Hs Hs2]%Forall_cons].
    apply Forall_app. split; [done|]. constructor; [|done]. intros Hq. simpl in *.
    destruct (He Hq) as [|[Hp ->]]; [done|]. by apply Hs.
  - clear -Hv Hv'. word_lia.
Qed.

(** The contribution of one attempt, computed. *)
Local Ltac contributions :=
  cbn [holding taken given swapped fst snd Nat.b2n Z.b2z] in *.

Lemma replace_step n c c' w a1 a2 m new p p' :
  fence_ok n (mkSystem c w (a1 ++ (new, p) :: a2) m) →
  try_replace_quiesced new p c = (p', c') →
  fence_ok n (mkSystem c' w (a1 ++ (new, p') :: a2) m).
Proof.
  intros [Hw Hr Hf Hl Hx Hs Hv] Hrep. cbn [shared writers attempts made] in *.
  pose proof (zsum_range holding a1 holding_range). pose proof (zsum_range holding a2 holding_range).
  rewrite zsum_middle in Hl. rewrite !zsum_middle in Hv. rewrite swaps_middle in Hs.
  destruct p as [| |old| |r]; simpl in Hrep.
  - unfold try_write in Hrep. destruct (readers c) eqn:Hrd, (writing c) eqn:Hwr; simplify_eq;
      split; cbn [shared writers attempts made value readers writing in_flight];
      rewrite ?zsum_middle, ?swaps_middle, ?Hwr, ?Hrd; contributions; try done; lia.
  - simplify_eq. assert (writing c = true) as Hwr.
    { destruct (writing c); [done|]. contributions. lia. }
    split; cbn [shared writers attempts made value readers writing in_flight];
      rewrite ?zsum_middle, ?swaps_middle; try done.
    + assert (Forall idle w) as Hidle by (apply zsum_busy_idle; rewrite <- Hr, Hx; done).
      eapply Forall_impl; [exact Hidle|]. intros x Hi Hni. done.
    + contributions. clear -Hv. word_lia.
  - simplify_eq. assert (writing c = true) as Hwr.
    { destruct (writing c); [done|]. contributions. lia. }
    rewrite Hwr in Hl. split; cbn [shared writers attempts made value readers writing in_flight drop_write];
      rewrite ?zsum_middle, ?swaps_middle; contributions; try done; lia.
  - simplify_eq. split; cbn [shared writers attempts made];
      rewrite ?zsum_middle, ?swaps_middle; contributions; done.
  - simplify_eq. split; cbn [shared writers attempts made]; rewrite ?zsum_middle, ?swaps_middle; done.
Qed.

Lemma fence_step n s s' : n < 2 ^ 64 → fence_ok n s → step s s' → fence_ok n s'.
Proof.
  intros Hn Hok Hs.
  destruct Hs as [c c' w1 w2 e a m Hlock|c w1 w2 e a m|c w1 w2 e a m|c w1 w2 e a m|c w1 w2 e a m
                 |c w a m new Hnew|c c' w a1 a2 m new p p' Hrep]; [..|by eapply replace_step].
  6: { destruct Hok as [Hw Hr Hf Hl Hx Hs Hv]. cbn [shared writers attempts made] in *.
       split; cbn [shared writers attempts made]; rewrite ?zsum_middle, ?swaps_middle;
         contributions; rewrite ?Nat.add_0_r, ?Z.add_0_r; done. }
  all: pose proof Hok as [Hw Hr Hf _ Hx _ _]; cbn [shared writers] in *;
    rewrite zsum_middle in Hr, Hf; rewrite length_app in Hw; cbn [length] in Hw;
    pose proof (zsum_range counted w1 counted_range); pose proof (zsum_range counted w2 counted_range);
    pose proof (zsum_range busy w1 busy_range); pose proof (zsum_range busy w2 busy_range);
    unfold busy at 2 in Hr; unfold counted at 2 in Hf; cbn [at_] in Hr, Hf;
    apply (writer_move n c _ w1 _ e _ _ w2 a m _ Hok);
    try (unfold hold_lock in Hlock; destruct (writing c) eqn:Hwr; [done|]; simplify_eq);
    cbn [readers in_flight value writing hold_count increment drop_count drop_lock busy counted at_];
    try done; try lia; auto; try (intros Hwr; specialize (Hx Hwr); lia).
  - rewrite incr64_small by lia. lia.
  - unfold incr64, as_u64, wrap. word_lia.
  - unfold as_u64. rewrite wrap_small by (unfold in_width; lia). lia.
Qed.

Lemma fence_reached n s :
  Z.of_nat n < 2 ^ 64 → rtc step (initial n) s → fence_ok (Z.of_nat n) s.
Proof.
  intros Hn Hrun. assert (fence_ok (Z.of_nat n) (initial n)) as H0.
  { assert (Forall idle (replicate n (mkWriter Idle 0))) as Hidle by (by apply Forall_replicate).
    pose proof (proj2 (zsum_busy_idle _) Hidle).
    pose proof (counted_busy (replicate n (mkWriter Idle 0))).
    split; cbn [initial shared writers attempts made readers in_flight writing value]; try done; try lia.
    - by rewrite length_replicate.
    - eapply Forall_impl; [exact Hidle|]. by intros w Hw []. }
  revert H0. induction Hrun; [done|]. intros. by eauto using fence_step.
Qed.

(** C35: replacing a live counter loses no increment, under any interleaving of
    the shared accesses of any number of writers and of concurrent replacers: the
    cell plus the values handed out is the increments made plus the values brought
    in; no replacement falls inside a writer's critical section; the write guard
    has at most one holder, and while it has one every writer is idle and none is
    counted; an attempt gets the guard exactly when every writer is idle and no
    other attempt holds it, and otherwise is refused, leaves the cell as it was and
    reports the writers counted at its load. *)
Theorem counter_replace_conserves n s :
  Z.of_nat n < 2 ^ 64 → rtc step (initial n) s →
  let c := shared s in
  (value c + zsum taken (attempts s)) mod 2 ^ 64 = (made s + zsum given (attempts s)) mod 2 ^ 64 ∧
  (∀ w, w ∈ writers s → at_ w ≠ Idle → since w = swaps (attempts s)) ∧
  zsum holding (attempts s) <= 1 ∧
  (zsum holding (attempts s) = 1 → Forall idle (writers s) ∧ in_flight c = 0) ∧
  ∀ new,
    try_replace_quiesced new Entered c =
      (if decide (Forall idle (writers s) ∧ zsum holding (attempts s) = 0)
       then (Acquired, mkCell (value c) 0 true 0) else (Refused, c)) ∧
    try_replace_quiesced new Refused c =
      (Returned (Err (WritersActive (zsum counted (writers s)))), c).
Proof.
  intros Hn Hrun c. destruct (fence_reached n s Hn Hrun) as [Hw Hr Hf Hl Hx Hs Hv].
  subst c. generalize dependent (shared s). intros c Hr Hf Hl Hx Hv.
  pose proof (counted_busy (writers s)). rewrite Forall_forall in Hs. split_and!; [done|exact Hs|..].
  - rewrite <- Hl. by destruct (writing c).
  - intros H1. assert (writing c = true) as Hwr by (destruct (writing c); [done|simpl in Hl; lia]).
    rewrite (Hx Hwr) in Hr. split; [by apply zsum_busy_idle|lia].
  - intros new. cbn [try_replace_quiesced]. rewrite Hf. split; [|done].
    unfold try_write. rewrite Hf. destruct (decide _) as [[Hi%zsum_busy_idle Hh]|Hno].
    + destruct (readers c) eqn:E, (writing c); simpl in *; try lia. do 2 f_equal. lia.
    + destruct (readers c) eqn:E, (writing c); try done. destruct Hno. split; [|done].
      apply zsum_busy_idle. lia.
Qed.

(** Two replacements race past one another and a writer: the second is refused
    while the first holds the guard. *)
Definition race : system :=
  mkSystem (mkCell 0 0 true 0) [mkWriter Idle 0] [(5, Acquired); (9, Entered)] 0.

Lemma counter_replace_conserves_witness :
  try_replace_quiesced 9 Entered (shared race) = (Refused, shared race).
Proof.
  assert (rtc step (initial 1) race) as Hrun.
  { eapply rtc_l; [exact (step_call _ _ _ _ 5 ltac:(done))|].
    eapply rtc_l; [exact (step_call _ _ _ _ 9 ltac:(done))|].
    eapply rtc_l; [exact (step_replace (mkCell 0 0 false 0) (mkCell 0 0 true 0) [mkWriter Idle 0] []
      [(9, Entered)] 0 5 Entered Acquired eq_refl)|]. apply rtc_refl. }
  destruct (counter_replace_conserves 1 race ltac:(done) Hrun) as (_ & _ & _ & _ & H).
  destruct (H 9) as [-> _]. by destruct (decide _) as [[_ [=]]|_].
Defined.
End FenceSpec.
