(* ===== verification/Budgets.v ===== *)
(** * Capacity budgets

    The checked budgets of [src/capacity.rs]: the endpoint budgets of the
    counter and inventory planners, the caller-pair budget, the resource
    calculator of the detailed maps, the live RAM, history and disk budgets, and
    the FD preflight.  A refusal is a value that carries the numbers its message
    prints. *)
From S2P Require Import Prelude TargetAbi.

(** ** Endpoint budgets *)
Module Endpoint.

Definition MAX_COUNTER_ENDPOINT_LIMIT : Z := 8192.
Definition INVENTORY_ENDPOINT_BYTES : Z := 8.
Definition DEFAULT_INVENTORY_ENDPOINT_LIMIT : Z := 32768.
Definition MAX_INVENTORY_ENDPOINT_LIMIT : Z := 131072.
Definition CALLER_PAIR_BYTES : Z := 64.

Inductive refusal :=
| CounterLimit (requested : Z)
| CounterCount (endpoints limit : Z)
| MaxEndpoints (requested : Z)
| InventoryZero
| InventoryIdSpace (requested : Z)
| InventoryOverflow
| InventoryPayload (payload endpoints required : Z)
| InventoryCount (endpoints payload limit limit_payload : Z)
| PairLimit (requested : Z)
| CallerOverflow
| CallerPayload (payload required : Z).

Record CounterBudget := mkCounterBudget { counter_limit : Z }.

Definition CounterBudget_new (endpoint_limit : Z) : result refusal CounterBudget :=
  if negb ((1 <=? endpoint_limit) && (endpoint_limit <=? MAX_COUNTER_ENDPOINT_LIMIT))
  then Err (CounterLimit endpoint_limit)
  else Ok (mkCounterBudget endpoint_limit).

Definition CounterBudget_validate_count (b : CounterBudget) (endpoints : Z) : result refusal unit :=
  if counter_limit b <? endpoints then Err (CounterCount endpoints (counter_limit b)) else Ok ().

Record InventoryBudget := mkInventoryBudget { endpoint_limit : Z; payload_bytes : Z }.

Definition InventoryBudget_new (endpoints payload : Z) : result refusal InventoryBudget :=
  if endpoints =? 0 then Err InventoryZero
  else if U32_MAX <? endpoints then Err (InventoryIdSpace endpoints)
  else
    required ← ok_or (checked_mul 64 endpoints INVENTORY_ENDPOINT_BYTES) InventoryOverflow;
    if negb (payload =? required) then Err (InventoryPayload payload endpoints required)
    else Ok (mkInventoryBudget endpoints payload).

Definition InventoryBudget_validate_count (b : InventoryBudget) (endpoints : Z)
    : result refusal unit :=
  payload ← ok_or (checked_mul 64 endpoints INVENTORY_ENDPOINT_BYTES) InventoryOverflow;
  if (endpoint_limit b <? endpoints) || (payload_bytes b <? payload)
  then Err (InventoryCount endpoints payload (endpoint_limit b) (payload_bytes b))
  else Ok ().

Definition inventory_endpoint_budget (requested : option Z) : result refusal InventoryBudget :=
  let endpoints := default DEFAULT_INVENTORY_ENDPOINT_LIMIT requested in
  if negb ((1 <=? endpoints) && (endpoints <=? MAX_INVENTORY_ENDPOINT_LIMIT))
  then Err (MaxEndpoints endpoints)
  else
    payload ← ok_or (checked_mul 64 endpoints INVENTORY_ENDPOINT_BYTES) InventoryOverflow;
    InventoryBudget_new endpoints payload.

Record CallerBudget := mkCallerBudget {
  endpoint_budget : InventoryBudget;
  pair_limit : Z;
  additional_payload_bytes : Z;
}.

Definition CallerBudget_new (b : InventoryBudget) (pairs additional : Z)
    : result refusal CallerBudget :=
  if (pairs =? 0) || (U32_MAX <? pairs) then Err (PairLimit pairs)
  else
    required ← ok_or (endpoints ← checked_mul 64 (endpoint_limit b) 8;
                      pair_bytes ← checked_mul 64 pairs CALLER_PAIR_BYTES;
                      checked_add 64 endpoints pair_bytes) CallerOverflow;
    if negb (additional =? required) then Err (CallerPayload additional required)
    else Ok (mkCallerBudget b pairs additional).
End Endpoint.

(** ** The detailed resource calculator *)
Module Detailed.

(** The default build. *)
Definition START_ENTRIES : Z := 16384.

Record DetailedResourceInputs := mkInputs {
  slots : Z;
  rv_capacity : Z;
  possible_cpus : Z;
  start_capacity : Z;
  descriptor_capacity : Z;
}.

(** The [size_of] of the compiled ABI types. *)
Record DetailedAbiSizes := mkSizes {
  stats_value_bytes : Z;
  rv_key_bytes : Z;
  rv_value_bytes : Z;
  start_key_bytes : Z;
  start_value_bytes : Z;
  descriptor_value_bytes : Z;
  slot_file_value_bytes : Z;
}.

Record DetailedResourcePayloads := mkPayloads {
  stats_values_bytes : Z;
  rv_keys_bytes : Z;
  rv_values_bytes : Z;
  start_keys_bytes : Z;
  start_values_bytes : Z;
  descriptor_declared_values_bytes : Z;
  descriptor_aligned_values_bytes : Z;
  slot_file_declared_values_bytes : Z;
  slot_file_aligned_values_bytes : Z;
  static_singles_links : Z;
  component_payload_bytes : Z;
}.

Record DetailedResources := mkResources {
  inputs : DetailedResourceInputs;
  abi_sizes : DetailedAbiSizes;
  resources : DetailedResourcePayloads;
}.

Inductive refusal :=
| MustBeNonZero (name : string)
| DoesNotFitMap (name : string)
| AlignmentOverflowed
| PayloadOverflowed (name : string)
| SumOverflowed.

(** A 64-bit [usize] holds every [u32]. *)
Definition capacity (name : string) (value : Z) : result refusal unit :=
  if value =? 0 then Err (MustBeNonZero name)
  else if U32_MAX <? value then Err (DoesNotFitMap name)
  else Ok ().

Definition aligned (value : Z) : result refusal Z :=
  rounded ← ok_or (checked_add 64 value 7) AlignmentOverflowed; Ok (rounded / 8 * 8).

Fixpoint payload_from (name : string) (total : Z) (factors : list Z) : result refusal Z :=
  match factors with
  | [] => Ok total
  | factor :: factors =>
      total ← ok_or (checked_mul 64 total factor) (PayloadOverflowed name);
      payload_from name total factors
  end.

Definition payload (name : string) (factors : list Z) : result refusal Z :=
  payload_from name 1 factors.

Fixpoint sum_from (total : Z) (l : list Z) : result refusal Z :=
  match l with
  | [] => Ok total
  | bytes :: l =>
      total ← ok_or (checked_add 64 total bytes) SumOverflowed; sum_from total l
  end.

Definition new (abi : DetailedAbiSizes) (n_slots rv cpus : Z) : result refusal DetailedResources :=
  let i := mkInputs n_slots rv cpus START_ENTRIES Cookie.MAX_DESCRIPTORS in
  _ ← capacity "slots" n_slots;
  _ ← capacity "RV capacity" rv;
  _ ← capacity "possible CPUs" cpus;
  _ ← capacity "START capacity" (start_capacity i);
  _ ← capacity "descriptor capacity" (descriptor_capacity i);
  stats ← aligned (stats_value_bytes abi);
  stats_values ← payload "STATS values" [n_slots; stats; cpus];
  rv_keys ← payload "RV keys" [rv; rv_key_bytes abi];
  rv_value ← aligned (rv_value_bytes abi);
  rv_values ← payload "RV values" [rv; rv_value; cpus];
  start_keys ← payload "START keys" [start_capacity i; start_key_bytes abi];
  start_values ← payload "START values" [start_capacity i; start_value_bytes abi];
  descriptor_declared ← payload "descriptor declared values"
    [descriptor_capacity i; descriptor_value_bytes abi];
  descriptor ← aligned (descriptor_value_bytes abi);
  descriptor_aligned ← payload "descriptor aligned values" [descriptor_capacity i; descriptor];
  slot_file_declared ← payload "SLOT_FILE declared values" [n_slots; slot_file_value_bytes abi];
  slot_file ← aligned (slot_file_value_bytes abi);
  slot_file_aligned ← payload "SLOT_FILE aligned values" [n_slots; slot_file];
  links ← payload "static Singles links" [n_slots; 2];
  component ← sum_from 0 [stats_values; rv_keys; rv_values; start_keys; start_values;
                          descriptor_aligned; slot_file_aligned];
  Ok (mkResources i abi
        (mkPayloads stats_values rv_keys rv_values start_keys start_values descriptor_declared
           descriptor_aligned slot_file_declared slot_file_aligned links component)).
End Detailed.

(** ** Live byte and record budgets *)
Module Gauge.

Inductive BudgetError :=
| RamExhausted (wanted available : Z)
| HistoryExhausted (wanted cap : Z)
| DiskExhausted (wanted available : Z).

Record RamBudget := mkRam { ram_limit : Z; ram_current : Z; ram_peak : Z }.

Definition RamBudget_new (limit : Z) : option RamBudget :=
  if limit =? 0 then None else Some (mkRam limit 0 0).

Definition RamBudget_acquire (bytes : Z) (b : RamBudget) : result BudgetError unit * RamBudget :=
  if as_u64 (ram_limit b - ram_current b) <? bytes
  then (Err (RamExhausted bytes (as_u64 (ram_limit b - ram_current b))), b)
  else let current := as_u64 (ram_current b + bytes) in
       (Ok (), mkRam (ram_limit b) current (Z.max (ram_peak b) current)).

Definition RamBudget_release (bytes : Z) (b : RamBudget) : RamBudget :=
  mkRam (ram_limit b) (saturating_sub (ram_current b) bytes) (ram_peak b).

Record HistoryBudget := mkHistory { history_cap : Z; history_current : Z; history_peak : Z }.

Definition HistoryBudget_new (cap : Z) : option HistoryBudget :=
  if cap =? 0 then None else Some (mkHistory cap 0 0).

Definition acquire_records (records : Z) (b : HistoryBudget)
    : result BudgetError unit * HistoryBudget :=
  if as_u64 (history_cap b - history_current b) <? records
  then (Err (HistoryExhausted records (history_cap b)), b)
  else let current := as_u64 (history_current b + records) in
       (Ok (), mkHistory (history_cap b) current (Z.max (history_peak b) current)).

Definition release_records (records : Z) (b : HistoryBudget) : HistoryBudget :=
  mkHistory (history_cap b) (saturating_sub (history_current b) records) (history_peak b).

Record DiskBudget := mkDisk { disk_limit : Z; disk_used : Z; disk_peak : Z }.

Definition DiskBudget_new (limit : Z) : option DiskBudget :=
  if limit =? 0 then None else Some (mkDisk limit 0 0).

Definition DiskBudget_acquire (bytes : Z) (b : DiskBudget) : result BudgetError unit * DiskBudget :=
  if as_u64 (disk_limit b - disk_used b) <? bytes
  then (Err (DiskExhausted bytes (as_u64 (disk_limit b - disk_used b))), b)
  else let used := as_u64 (disk_used b + bytes) in
       (Ok (), mkDisk (disk_limit b) used (Z.max (disk_peak b) used)).

Definition DiskBudget_release (bytes : Z) (b : DiskBudget) : DiskBudget :=
  mkDisk (disk_limit b) (saturating_sub (disk_used b) bytes) (disk_peak b).

Definition available (b : DiskBudget) : Z := as_u64 (disk_limit b - disk_used b).
End Gauge.

(** ** FD preflight *)
Module Preflight.

Definition T7_ENVELOPE_RESERVE_FDS : Z := 64.

Record T7BoundaryPreflight := mkPreflight {
  endpoints : Z;
  required_links : Z;
  required_fds : Z;
  rlimit_soft : Z;
  open_fds : Z;
}.

(** [None] is the out-of-envelope refusal. *)
Definition t7_boundary_preflight (n rlimit open : Z) : option T7BoundaryPreflight :=
  let links := saturating_add 64 n 2 in
  let fds := saturating_add 64 links T7_ENVELOPE_RESERVE_FDS in
  let available := saturating_sub rlimit open in
  if available <? fds then None else Some (mkPreflight n links fds rlimit open).
End Preflight.

(** ** Endpoint budgets *)

Import Endpoint.

(** The inventory budget resolved for a request is the request (or the
    default) exactly when it lies in [1..=131072], with eight payload bytes per
    endpoint, and an accepted budget admits exactly the counts up to its limit:
    its two conditions never disagree. *)
Theorem inventory_budget_exact requested :
  (∀ n, requested = Some n → is_u64 n) →
  let endpoints := default DEFAULT_INVENTORY_ENDPOINT_LIMIT requested in
  match inventory_endpoint_budget requested with
  | Ok b => 1 <= endpoints <= MAX_INVENTORY_ENDPOINT_LIMIT ∧
            endpoint_limit b = endpoints ∧ payload_bytes b = 8 * endpoints ∧
            ∀ count, is_u64 count →
              is_ok (InventoryBudget_validate_count b count) = (count <=? endpoint_limit b)
  | Err e => e = MaxEndpoints endpoints ∧
             ¬ (1 <= endpoints <= MAX_INVENTORY_ENDPOINT_LIMIT)
  end.
Proof.
  intros Hreq endpoints. unfold inventory_endpoint_budget. fold endpoints.
  assert (is_u64 endpoints) as He by (unfold endpoints; destruct requested; [by apply Hreq|done]).
  unfold in_width, MAX_INVENTORY_ENDPOINT_LIMIT, INVENTORY_ENDPOINT_BYTES, checked_mul in *.
  destruct (Z.leb_spec 1 endpoints), (Z.leb_spec endpoints 131072); simpl; try (split; [done|lia]).
  rewrite (checked_small 64 (endpoints * 8)) by (unfold in_width; lia).
  cbn [ok_or mbind result_mbind]. unfold InventoryBudget_new, checked_mul, INVENTORY_ENDPOINT_BYTES.
  destruct (Z.eqb_spec endpoints 0), (Z.ltb_spec U32_MAX endpoints); try (unfold U32_MAX in *; lia).
  rewrite (checked_small 64 (endpoints * 8)) by (unfold in_width; lia).
  cbn [ok_or mbind result_mbind]. rewrite Z.eqb_refl. cbn [negb endpoint_limit payload_bytes].
  split_and!; [lia|lia|done|lia|]. intros count Hc. unfold in_width in Hc.
  unfold InventoryBudget_validate_count, checked_mul, INVENTORY_ENDPOINT_BYTES.
  destruct (checked_spec 64 (count * 8)) as [[-> Hw]|[-> Hw]]; unfold in_width in Hw.
  - cbn [ok_or mbind result_mbind endpoint_limit payload_bytes].
    destruct (Z.ltb_spec endpoints count), (Z.ltb_spec (endpoints * 8) (count * 8)),
      (Z.leb_spec count endpoints); done || lia.
  - cbn [ok_or mbind result_mbind is_ok]. destruct (Z.leb_spec count endpoints); done || lia.
Qed.

Lemma inventory_budget_exact_witness :
  is_ok (InventoryBudget_validate_count (mkInventoryBudget 4096 32768) 4097) = false.
Proof.
  pose proof (inventory_budget_exact (Some 4096)) as H.
  destruct H as (_ & _ & _ & H); [by intros n [= <-]|]. by apply H.
Defined.

(** ** The resource calculator *)

Section DetailedSpec.
Import Detailed.

Definition round8 (x : Z) : Z := (x + 7) / 8 * 8.

(** The exact total, over the integers. *)
Definition exact_total (abi : DetailedAbiSizes) (s rv cpus : Z) : Z :=
  s * round8 (stats_value_bytes abi) * cpus + rv * rv_key_bytes abi +
  rv * round8 (rv_value_bytes abi) * cpus + START_ENTRIES * start_key_bytes abi +
  START_ENTRIES * start_value_bytes abi +
  Cookie.MAX_DESCRIPTORS * round8 (descriptor_value_bytes abi) +
  s * round8 (slot_file_value_bytes abi).

(** Compiled struct sizes: positive and far below the word size. *)
Record sizes_ok (abi : DetailedAbiSizes) : Prop := {
  sz_stats : 0 < stats_value_bytes abi < 2 ^ 32;
  sz_rv_key : 0 < rv_key_bytes abi < 2 ^ 32;
  sz_rv_value : 0 < rv_value_bytes abi < 2 ^ 32;
  sz_start_key : 0 < start_key_bytes abi < 2 ^ 32;
  sz_start_value : 0 < start_value_bytes abi < 2 ^ 32;
  sz_descriptor : 0 < descriptor_value_bytes abi < 2 ^ 31;
  sz_slot_file : 0 < slot_file_value_bytes abi < 2 ^ 32;
}.

Lemma capacity_ok name v : 0 <= v → capacity name v = Ok () ↔ 1 <= v <= U32_MAX.
Proof.
  intros. unfold capacity. destruct (Z.eqb_spec v 0), (Z.ltb_spec U32_MAX v); split; try done; lia.
Qed.

Lemma capacity_accepts name v : 1 <= v <= U32_MAX → capacity name v = Ok ().
Proof. intros. apply capacity_ok; lia. Qed.

Lemma round8_bounds x : x <= round8 x <= x + 7.
Proof. unfold round8. Z.div_mod_to_equations. lia. Qed.

Lemma aligned_ok x : 0 <= x < 2 ^ 32 → aligned x = Ok (round8 x).
Proof.
  intros. unfold aligned, checked_add.
  by rewrite (checked_small 64 (x + 7)) by (unfold in_width; lia).
Qed.

Lemma payload_from_ok name total l :
  0 <= total → Forall (λ x, 0 < x) l → total * foldr Z.mul 1 l < 2 ^ 64 →
  payload_from name total l = Ok (total * foldr Z.mul 1 l).
Proof.
  intros Ht Hl. revert total Ht. induction Hl as [|x l Hx Hl IH]; intros total Ht Hlt; simpl in *.
  { by rewrite Z.mul_1_r. }
  assert (1 <= foldr Z.mul 1 l) by (clear -Hl; induction Hl; simpl; nia).
  unfold checked_mul. rewrite checked_small by (unfold in_width; nia).
  cbn [ok_or mbind result_mbind]. rewrite IH by nia. f_equal. lia.
Qed.

Lemma payload_from_inv name total l v :
  payload_from name total l = Ok v → v = total * foldr Z.mul 1 l.
Proof.
  revert total. induction l as [|x l IH]; intros total; simpl; [intros [= <-]; lia|].
  rewrite result_bind_ok. intros (t & Ht%ok_or_ok & Hv). apply checked_Some in Ht as [-> _].
  apply IH in Hv. lia.
Qed.

Lemma aligned_inv x v : aligned x = Ok v → v = round8 x.
Proof.
  unfold aligned. rewrite result_bind_ok. intros (t & Ht%ok_or_ok & Hv).
  apply checked_Some in Ht as [-> _]. by injection Hv.
Qed.

Lemma sum_from_ok total l :
  is_u64 total → Forall (λ x, 0 <= x) l →
  sum_from total l =
    if total + zsum id l <? 2 ^ 64 then Ok (total + zsum id l) else Err SumOverflowed.
Proof.
  intros Ht Hl. revert total Ht. induction Hl as [|x l Hx Hl IH]; intros total Ht.
  { cbn [sum_from]. change (zsum id []) with 0. rewrite Z.add_0_r.
    unfold in_width in Ht. by rewrite (proj2 (Z.ltb_lt _ _)) by lia. }
  assert (0 <= zsum id l) by (clear -Hl; unfold zsum; induction Hl; simpl in *; lia).
  change (zsum id (x :: l)) with (x + zsum id l). cbn [sum_from]. unfold checked_add.
  rewrite Z.add_assoc.
  destruct (checked_spec 64 (total + x)) as [[-> Hw]|[-> Hw]]; cbn [ok_or mbind result_mbind].
  - by apply IH.
  - unfold in_width in *. by rewrite (proj2 (Z.ltb_ge _ _)) by lia.
Qed.

(** The terms of the exact total are nonnegative. *)
Lemma term_nonneg a b c : 0 <= a → 0 <= b → 0 <= c → 0 <= a * b * c.
Proof. intros. nia. Qed.

(** An accepted calculation is exact. *)
Lemma new_inv abi s rv cpus r :
  sizes_ok abi → 0 <= s → 0 <= rv → 0 <= cpus → new abi s rv cpus = Ok r →
  1 <= s <= U32_MAX ∧ 1 <= rv <= U32_MAX ∧ 1 <= cpus <= U32_MAX ∧
  component_payload_bytes (resources r) = exact_total abi s rv cpus ∧
  exact_total abi s rv cpus < 2 ^ 64 ∧
  stats_values_bytes (resources r) = s * round8 (stats_value_bytes abi) * cpus ∧
  rv_values_bytes (resources r) = rv * round8 (rv_value_bytes abi) * cpus ∧
  static_singles_links (resources r) = 2 * s.
Proof.
  intros [H1 H2 H3 H4 H5 H6 H7] Hs Hrv Hc E. unfold new in E.
  pose proof (round8_bounds (stats_value_bytes abi)).
  pose proof (round8_bounds (rv_value_bytes abi)).
  pose proof (round8_bounds (descriptor_value_bytes abi)).
  pose proof (round8_bounds (slot_file_value_bytes abi)).
  repeat match goal with
  | H : (_ ≫= _) = Ok _ |- _ => apply result_bind_ok in H as ([] & ?%capacity_ok & H); [|done || lia]
  | H : (_ ≫= _) = Ok _ |- _ => apply result_bind_ok in H as (? & ?%aligned_inv & H)
  | H : (_ ≫= _) = Ok _ |- _ => apply result_bind_ok in H as (? & ?%payload_from_inv & H)
  end.
  cbn [foldr start_capacity descriptor_capacity] in *. subst.
  unfold START_ENTRIES, Cookie.MAX_DESCRIPTORS in *.
  apply result_bind_ok in E as (total & Hsum & [= <-]).
  assert (0 <= s * round8 (stats_value_bytes abi) * cpus) by (apply term_nonneg; lia).
  assert (0 <= rv * round8 (rv_value_bytes abi) * cpus) by (apply term_nonneg; lia).
  assert (0 <= rv * rv_key_bytes abi) by nia.
  assert (0 <= s * round8 (slot_file_value_bytes abi)) by nia.
  rewrite sum_from_ok in Hsum; [|done|repeat first [apply Forall_nil_2 | apply Forall_cons_2; [lia|]]].
  match type of Hsum with (if ?a <? _ then _ else _) = _ => destruct (Z.ltb_spec a (2 ^ 64)) end;
    [|done]. injection Hsum as <-.
  unfold zsum in *. cbn [foldr id] in *.
  cbn [resources component_payload_bytes stats_values_bytes rv_values_bytes static_singles_links].
  unfold exact_total, START_ENTRIES, Cookie.MAX_DESCRIPTORS.
  split_and!; lia.
Qed.

(** Capacities in range whose exact total fits are accepted. *)
Lemma new_accepts abi s rv cpus :
  sizes_ok abi → 1 <= s <= U32_MAX → 1 <= rv <= U32_MAX → 1 <= cpus <= U32_MAX →
  exact_total abi s rv cpus < 2 ^ 64 → is_ok (new abi s rv cpus) = true.
Proof.
  intros [H1 H2 H3 H4 H5 H6 H7] Hs Hrv Hc Htot. unfold new.
  pose proof (round8_bounds (stats_value_bytes abi)).
  pose proof (round8_bounds (rv_value_bytes abi)).
  pose proof (round8_bounds (descriptor_value_bytes abi)).
  pose proof (round8_bounds (slot_file_value_bytes abi)).
  unfold exact_total, START_ENTRIES, Cookie.MAX_DESCRIPTORS in Htot. unfold U32_MAX in *.
  cbn [start_capacity descriptor_capacity]. unfold START_ENTRIES, Cookie.MAX_DESCRIPTORS.
  rewrite !capacity_accepts by (unfold U32_MAX; lia). cbn [mbind result_mbind].
  assert (0 <= s * round8 (stats_value_bytes abi) * cpus) by (apply term_nonneg; lia).
  assert (0 <= rv * round8 (rv_value_bytes abi) * cpus) by (apply term_nonneg; lia).
  assert (0 <= rv * rv_key_bytes abi) by nia.
  assert (0 <= s * round8 (slot_file_value_bytes abi)) by nia.
  assert (s * slot_file_value_bytes abi < 2 ^ 64) by nia.
  rewrite !aligned_ok by lia. cbn [mbind result_mbind]. unfold payload.
  repeat (rewrite payload_from_ok by (first [lia | cbn [foldr]; lia |
     repeat first [apply Forall_nil_2 | apply Forall_cons_2; [lia|]]]); cbn [mbind result_mbind]).
  cbn [foldr]. rewrite sum_from_ok; [|done|].
  2: { repeat first [apply Forall_nil_2 | apply Forall_cons_2; [lia|]]. }
  unfold zsum. cbn [foldr id]. rewrite (proj2 (Z.ltb_lt _ _)) by lia. reflexivity.
Qed.

(** The resource calculator is exact and total: for compiled struct sizes,
    it accepts exactly the capacities in [1..=u32::MAX] whose exact total fits
    64 bits, and then every component is the exact product and the sum is the
    exact total, with no wrap anywhere. *)
Theorem detailed_resources_exact abi s rv cpus :
  sizes_ok abi → is_u64 s → is_u64 rv → is_u64 cpus →
  match new abi s rv cpus with
  | Ok r =>
      1 <= s <= U32_MAX ∧ 1 <= rv <= U32_MAX ∧ 1 <= cpus <= U32_MAX ∧
      component_payload_bytes (resources r) = exact_total abi s rv cpus ∧
      exact_total abi s rv cpus < 2 ^ 64 ∧
      stats_values_bytes (resources r) = s * round8 (stats_value_bytes abi) * cpus ∧
      rv_values_bytes (resources r) = rv * round8 (rv_value_bytes abi) * cpus ∧
      static_singles_links (resources r) = 2 * s
  | Err _ => ¬ (1 <= s <= U32_MAX ∧ 1 <= rv <= U32_MAX ∧ 1 <= cpus <= U32_MAX ∧
                exact_total abi s rv cpus < 2 ^ 64)
  end.
Proof.
  intros Habi Hs Hrv Hc. unfold in_width in *.
  destruct (new abi s rv cpus) as [r|e] eqn:E; [apply new_inv in E; tauto || lia|].
  intros (H1 & H2 & H3 & H4). pose proof (new_accepts _ _ _ _ Habi H1 H2 H3 H4) as H.
  by rewrite E in H.
Qed.

(** Sizes like those of the default build. *)
Definition demo_sizes : DetailedAbiSizes := mkSizes 232 16 8 16 176 24 4.

Lemma detailed_resources_exact_witness :
  match new demo_sizes 512 4096 8 with
  | Ok r => component_payload_bytes (resources r) = exact_total demo_sizes 512 4096 8
  | Err _ => False
  end.
Proof.
  pose proof (detailed_resources_exact demo_sizes 512 4096 8 ltac:(split; simpl; lia)
    ltac:(done) ltac:(done) ltac:(done)) as H.
  destruct (new demo_sizes 512 4096 8) as [r|e] eqn:E; [tauto|].
  vm_compute in E. discriminate E.
Defined.
End DetailedSpec.

(** ** The three live budgets behind one interface *)

Section GaugeSpec.
Import Gauge.

(** What the capture promises of a live budget: a limit, the current use and
    its peak, with checked acquisition and saturating release. *)
Class Budget (B : Type) := {
  b_limit : B → Z;
  b_current : B → Z;
  b_peak : B → Z;
  b_acquire : Z → B → result BudgetError unit * B;
  b_release : Z → B → B;
}.

Definition within {B} `{Budget B} (b : B) : Prop :=
  0 <= b_current b <= b_peak b ∧ b_peak b <= b_limit b < 2 ^ 64.

Class BudgetLaws (B : Type) `{Budget B} : Prop := {
  acquire_law x (b : B) :
    within b → is_u64 x →
    match b_acquire x b with
    | (Ok _, b') => x <= b_limit b - b_current b ∧ b_limit b' = b_limit b ∧
                    b_current b' = b_current b + x ∧
                    b_peak b' = Z.max (b_peak b) (b_current b + x)
    | (Err _, b') => b_limit b - b_current b < x ∧ b' = b
    end;
  release_law x (b : B) :
    b_limit (b_release x b) = b_limit b ∧ b_peak (b_release x b) = b_peak b ∧
    b_current (b_release x b) = Z.max (b_current b - x) 0;
}.

#[export] Instance ram_budget : Budget RamBudget := {|
  b_limit := ram_limit; b_current := ram_current; b_peak := ram_peak;
  b_acquire := RamBudget_acquire; b_release := RamBudget_release |}.
#[export] Instance history_budget : Budget HistoryBudget := {|
  b_limit := history_cap; b_current := history_current; b_peak := history_peak;
  b_acquire := acquire_records; b_release := release_records |}.
#[export] Instance disk_budget : Budget DiskBudget := {|
  b_limit := disk_limit; b_current := disk_used; b_peak := disk_peak;
  b_acquire := DiskBudget_acquire; b_release := DiskBudget_release |}.

Ltac budget_laws acquire :=
  split; [|intros x [l c p]; split_and!; reflexivity];
  intros x [l c p] [Hc Hl] Hx; simpl in *; unfold in_width in *; unfold acquire, as_u64; simpl;
  rewrite (wrap_small 64 (l - c)) by (unfold in_width; lia);
  destruct (Z.ltb_spec (l - c) x); simpl; [done|];
  rewrite (wrap_small 64 (c + x)) by (unfold in_width; lia); split_and!; done || lia.

#[export] Instance ram_budget_laws : BudgetLaws RamBudget.
Proof. budget_laws RamBudget_acquire. Qed.
#[export] Instance history_budget_laws : BudgetLaws HistoryBudget.
Proof. budget_laws acquire_records. Qed.
#[export] Instance disk_budget_laws : BudgetLaws DiskBudget.
Proof. budget_laws DiskBudget_acquire. Qed.

(** A client: acquisitions and releases in any order. *)
Inductive budget_op := Acquire (x : Z) | Release (x : Z).

Definition budget_step {B} `{Budget B} (b : B) (o : budget_op) : B :=
  match o with Acquire x => (b_acquire x b).2 | Release x => b_release x b end.

(** each of the RAM, history and disk budgets stays within its limit for
    every sequence of acquisitions and releases: the use never exceeds the
    peak nor the peak the limit, the limit is fixed, and an acquisition succeeds
    exactly when what it asks for is available, the available amount never
    underflowing. *)
Theorem budget_within_limit {B} `{BudgetLaws B} (ops : list budget_op) (b : B) x :
  within b → Forall (λ o, match o with Acquire x | Release x => is_u64 x end) ops → is_u64 x →
  let b' := foldl budget_step b ops in
  within b' ∧ b_limit b' = b_limit b ∧
  is_ok (b_acquire x b').1 = (x <=? b_limit b' - b_current b').
Proof.
  intros Hb Hops Hx b'. assert (within b' ∧ b_limit b' = b_limit b) as [Hw Hl].
  { subst b'. revert b Hb. induction Hops as [|o ops Ho _ IH]; intros b Hb; [done|].
    simpl. assert (within (budget_step b o) ∧ b_limit (budget_step b o) = b_limit b) as [Hw <-].
    { unfold within in *. destruct o as [y|y]; simpl; unfold in_width in Ho.
      - pose proof (acquire_law y b Hb Ho) as Ha. destruct (b_acquire y b) as [[]].
        + destruct Ha as (? & ? & ? & ?). simpl. split; [split|]; lia.
        + destruct Ha as [? ->]. simpl. split; [split|]; lia.
      - destruct (release_law y b) as (? & ? & ?). split; [split|]; lia. }
    auto. }
  split_and!; [done|done|]. pose proof (acquire_law x b' Hw Hx) as Ha.
  destruct (b_acquire x b') as [[]]; destruct Ha; simpl;
    destruct (Z.leb_spec x (b_limit b' - b_current b')); done || lia.
Qed.

Lemma budget_within_limit_witness :
  is_ok (b_acquire 51 (foldl budget_step (mkDisk 100 0 0) [Acquire 60; Release 10; Acquire 51])).1 =
    false.
Proof.
  etransitivity; [apply (budget_within_limit (B := DiskBudget)
    [Acquire 60; Release 10; Acquire 51] (mkDisk 100 0 0) 51)|].
  - unfold within. simpl. lia.
  - repeat (apply Forall_cons_2; [done|]). apply Forall_nil_2.
  - done.
  - reflexivity.
Defined.
End GaugeSpec.
