(* ===== verification/ObjectPolicy.v ===== *)
(** * The object capture policy

    [crates/ebpf-common/src/object_policy.rs]: the finite vocabulary of
    attributes and curves, the named functions that take part in object
    capture with the arguments they may contribute, and the guard that decides
    which result pointers may be retained.  The names of function ordinals
    come from the [pkcs11-module] crate and are a parameter. *)
From S2P Require Import Prelude TargetAbi.

Definition ARG_NONE : Z := 0xff.
Definition FUNCTION_NONE : Z := U32_MAX.

(** [pkcs11_module::function_name]. *)
Class FunctionNames := function_name : Z → option string.

Inductive SafeAttributeKind := Class_ | KeyType | Token | ValueLen | ModulusBits | EcParams.

#[export] Instance SafeAttributeKind_eq_dec : EqDecision SafeAttributeKind.
Proof. solve_decision. Defined.

Inductive SafeCurve := Secp256r1 | Secp384r1 | Secp521r1.

Definition safe_attribute_kind (raw : Z) : option SafeAttributeKind :=
  if raw =? 0x0000 then Some Class_
  else if raw =? 0x0001 then Some Token
  else if raw =? 0x0100 then Some KeyType
  else if raw =? 0x0121 then Some ModulusBits
  else if raw =? 0x0161 then Some ValueLen
  else if raw =? 0x0180 then Some EcParams
  else None.

Definition valid_safe_attribute_length `{TargetWidth} (kind : SafeAttributeKind) (len : Z)
    (layout : LinuxLayout) : bool :=
  match kind with
  | Token => len =? 1
  | EcParams => (len =? 7) || (len =? 10)
  | _ => len =? word_bytes layout
  end.

(** Membership in a finite list of words. *)
Definition one_of (v : Z) (l : list Z) : bool := existsb (Z.eqb v) l.

Definition classify_attribute_scalar (kind : SafeAttributeKind) (value : Z) : option Z :=
  if match kind with
     | Class_ => (0 <=? value) && (value <=? 4)
     | KeyType => (0x00 <=? value) && (value <=? 0x04) || one_of value [0x10; 0x1f; 0x40; 0x41]
     | Token => one_of value [0; 1]
     | ValueLen => one_of value [16; 24; 32]
     | ModulusBits => one_of value [1024; 2048; 3072; 4096; 8192]
     | EcParams => false
     end
  then Some (as_u16 value) else None.

Definition classify_ec_params (bytes : list Z) : option SafeCurve :=
  if bool_decide (bytes = [0x06; 0x08; 0x2a; 0x86; 0x48; 0xce; 0x3d; 0x03; 0x01; 0x07])
  then Some Secp256r1
  else if bool_decide (bytes = [0x06; 0x05; 0x2b; 0x81; 0x04; 0x00; 0x22]) then Some Secp384r1
  else if bool_decide (bytes = [0x06; 0x05; 0x2b; 0x81; 0x04; 0x00; 0x23]) then Some Secp521r1
  else None.

Inductive ObjectAction :=
| Create | Copy | Generate | GeneratePair | Derive | Unwrap | Destroy | Access
| OperationImport | Find | GetAttributes | SetAttributes | Encapsulate | Decapsulate.

#[export] Instance ObjectAction_eq_dec : EqDecision ObjectAction.
Proof. solve_decision. Defined.

Inductive ResultProtocolGuard := NamedFunction | ScalarDeriveMechanismGuard.

#[export] Instance ResultProtocolGuard_eq_dec : EqDecision ResultProtocolGuard.
Proof. solve_decision. Defined.

Record ObjectCaptureDescriptor := mkDescriptor {
  input_args : list Z;
  result_pointer_args : list Z;
  template_args : list (Z * Z);
  find_capacity_arg : Z;
  find_count_ptr_arg : Z;
  action : ObjectAction;
  result_protocol_guard : ResultProtocolGuard;
}.

#[export] Instance ObjectCaptureDescriptor_eq_dec : EqDecision ObjectCaptureDescriptor.
Proof. solve_decision. Defined.

(** [ObjectCaptureDescriptor::new] with the fields the table overrides. *)
Definition descriptor_with (a : ObjectAction) (inputs results : list Z)
    (templates : list (Z * Z)) : ObjectCaptureDescriptor :=
  mkDescriptor inputs results templates ARG_NONE ARG_NONE a NamedFunction.

Definition NO_ARGS : list Z := [ARG_NONE; ARG_NONE].
Definition NO_TEMPLATES : list (Z * Z) := [(ARG_NONE, ARG_NONE); (ARG_NONE, ARG_NONE)].
Definition one (a : Z) : list Z := [a; ARG_NONE].
Definition template (p n : Z) : list (Z * Z) := [(p, n); (ARG_NONE, ARG_NONE)].

(** The match on the function's name. *)
Definition named_descriptor (name : string) : option ObjectCaptureDescriptor :=
  let named := λ s : string, bool_decide (name = s) in
  if named "C_CreateObject" then Some (descriptor_with Create NO_ARGS (one 3) (template 1 2))
  else if named "C_CopyObject" then Some (descriptor_with Copy (one 1) (one 4) (template 2 3))
  else if named "C_GenerateKey" then Some (descriptor_with Generate NO_ARGS (one 4) (template 2 3))
  else if named "C_GenerateKeyPair" then
    Some (descriptor_with GeneratePair NO_ARGS [6; 7] [(2, 3); (4, 5)])
  else if named "C_DeriveKey" then
    Some (mkDescriptor (one 2) (one 5) (template 3 4) ARG_NONE ARG_NONE Derive
            ScalarDeriveMechanismGuard)
  else if named "C_UnwrapKey" then Some (descriptor_with Unwrap (one 2) (one 7) (template 5 6))
  else if named "C_EncapsulateKey" then
    Some (descriptor_with Encapsulate (one 2) (one 7) NO_TEMPLATES)
  else if named "C_DecapsulateKey" then
    Some (descriptor_with Decapsulate (one 2) (one 7) NO_TEMPLATES)
  else if named "C_DestroyObject" then Some (descriptor_with Destroy (one 1) NO_ARGS NO_TEMPLATES)
  else if named "C_GetObjectSize" || named "C_DigestKey" then
    Some (descriptor_with Access (one 1) NO_ARGS NO_TEMPLATES)
  else if named "C_GetAttributeValue" then
    Some (descriptor_with GetAttributes (one 1) NO_ARGS (template 2 3))
  else if named "C_SetAttributeValue" then
    Some (descriptor_with SetAttributes (one 1) NO_ARGS NO_TEMPLATES)
  else if named "C_EncryptInit" || named "C_DecryptInit" || named "C_SignInit" || named "C_SignRecoverInit"
          || named "C_VerifyInit" || named "C_VerifyRecoverInit" || named "C_MessageEncryptInit"
          || named "C_MessageDecryptInit" || named "C_MessageSignInit" || named "C_MessageVerifyInit"
          || named "C_VerifySignatureInit" then
    Some (descriptor_with Access (one 2) NO_ARGS NO_TEMPLATES)
  else if named "C_WrapKey" then Some (descriptor_with Access [2; 3] NO_ARGS NO_TEMPLATES)
  else if named "C_SetOperationState" then
    Some (descriptor_with OperationImport [3; 4] NO_ARGS NO_TEMPLATES)
  else if named "C_FindObjects" then
    Some (mkDescriptor NO_ARGS (one 1) NO_TEMPLATES 2 3 Find NamedFunction)
  else None.

Definition object_descriptor `{FunctionNames} (function : Z) : option ObjectCaptureDescriptor :=
  name ← function_name function; named_descriptor name.

Definition valid_object_descriptor `{FunctionNames} (function : Z)
    (candidate : ObjectCaptureDescriptor) : bool :=
  bool_decide (object_descriptor function = Some candidate).

Inductive ScalarDeriveMechanism := DhPkcs | Sha256 | Ecdh1 | Ecdh1Cofactor.

#[export] Instance ScalarDeriveMechanism_eq_dec : EqDecision ScalarDeriveMechanism.
Proof. solve_decision. Defined.

Inductive DeriveResultProtocol :=
| Unavailable
| ScalarHandle (m : ScalarDeriveMechanism).

#[export] Instance DeriveResultProtocol_eq_dec : EqDecision DeriveResultProtocol.
Proof. solve_decision. Defined.

Definition derive_result_protocol (mechanism : Z) : DeriveResultProtocol :=
  if mechanism =? 0x21 then ScalarHandle DhPkcs
  else if mechanism =? 0x393 then ScalarHandle Sha256
  else if mechanism =? 0x1050 then ScalarHandle Ecdh1
  else if mechanism =? 0x1051 then ScalarHandle Ecdh1Cofactor
  else Unavailable.

Definition authorized_result_pointer_args `{FunctionNames} (function : Z) (mechanism : option Z)
    : list Z :=
  match object_descriptor function with
  | None => NO_ARGS
  | Some d =>
      if bool_decide (result_protocol_guard d = ScalarDeriveMechanismGuard) then
        match mechanism with
        | None => NO_ARGS
        | Some m => if bool_decide (derive_result_protocol m = Unavailable) then NO_ARGS
                    else result_pointer_args d
        end
      else result_pointer_args d
  end.

(** ** What the policy can authorize *)

(** The shape every descriptor of the table has: two positions each, every
    argument position a PKCS#11 argument index or none, templates as complete
    pairs, and no argument used twice. *)
Definition arg_ok (a : Z) : Prop := a = ARG_NONE ∨ 1 <= a <= 7.

Definition used (d : ObjectCaptureDescriptor) : list Z :=
  filter (λ a, a ≠ ARG_NONE)
    (input_args d ++ result_pointer_args d ++ ((template_args d).*1 ++ (template_args d).*2) ++
     [find_capacity_arg d; find_count_ptr_arg d]).

Record descriptor_ok (d : ObjectCaptureDescriptor) : Prop := {
  do_inputs : length (input_args d) = 2%nat ∧ Forall arg_ok (input_args d);
  do_results : length (result_pointer_args d) = 2%nat ∧ Forall arg_ok (result_pointer_args d);
  do_templates : length (template_args d) = 2%nat ∧
    Forall (λ p, p = (ARG_NONE, ARG_NONE) ∨ 1 <= p.1 ∧ p.2 = p.1 + 1 ∧ p.2 <= 7) (template_args d);
  do_find : action d = Find ↔ find_capacity_arg d ≠ ARG_NONE;
  do_find_pair : find_capacity_arg d = ARG_NONE ↔ find_count_ptr_arg d = ARG_NONE;
  do_guard : result_protocol_guard d = ScalarDeriveMechanismGuard ↔ action d = Derive;
  do_distinct : NoDup (used d);
}.

Ltac named_cases := repeat match goal with
  | H : (if bool_decide (?n = ?s) then _ else _) = Some _ |- _ =>
      destruct (bool_decide (n = s)); [injection H as <-|]
  | H : (if _ || _ then _ else _) = Some _ |- _ =>
      match type of H with (if ?b then _ else _) = _ => destruct b; [injection H as <-|] end
  end.

Lemma named_descriptor_ok name d : named_descriptor name = Some d → descriptor_ok d.
Proof.
  unfold named_descriptor. cbv zeta. intros H. named_cases; try done.
  all: split; try (by vm_compute); try (vm_compute; intuition congruence);
    try (split; [reflexivity|]);
    try (unfold arg_ok, ARG_NONE; repeat (apply Forall_cons_2; [cbn; lia|]); apply Forall_nil_2);
    try (repeat (apply Forall_cons_2; [first [left; reflexivity|right; cbn; lia]|]); apply Forall_nil_2);
    try (vm_compute; repeat (apply NoDup_cons_2; [set_solver by lia|]); apply NoDup_nil_2).
Qed.

Section Policy.
Context `{FunctionNames}.

(** The mechanisms under which a derived key handle is a scalar result. *)
Definition scalar_mechanism (m : option Z) : Prop :=
  m = Some 0x21 ∨ m = Some 0x393 ∨ m = Some 0x1050 ∨ m = Some 0x1051.

#[local] Instance scalar_mechanism_dec m : Decision (scalar_mechanism m).
Proof. unfold scalar_mechanism. apply _. Defined.

Lemma derive_result_protocol_scalar m :
  derive_result_protocol m = Unavailable ↔ ¬ scalar_mechanism (Some m).
Proof.
  unfold derive_result_protocol, scalar_mechanism.
  destruct (Z.eqb_spec m 0x21), (Z.eqb_spec m 0x393), (Z.eqb_spec m 0x1050), (Z.eqb_spec m 0x1051);
    simplify_eq; naive_solver.
Qed.

(** Whatever function a call names, the result pointers the policy lets the
    capture retain are those of the function's descriptor, except that a derived
    key's is withheld unless the mechanism is one of the four approved ones; a
    function outside the catalog retains none.  Every descriptor has two input,
    result and template positions, names only arguments 1 to 7, pairs each
    template with its count, and uses no argument twice. *)
Theorem object_policy_authorizes function mechanism :
  match object_descriptor function with
  | None => authorized_result_pointer_args function mechanism = NO_ARGS
  | Some d =>
      descriptor_ok d ∧
      authorized_result_pointer_args function mechanism =
        if bool_decide (action d = Derive) && negb (bool_decide (scalar_mechanism mechanism))
        then NO_ARGS else result_pointer_args d
  end.
Proof.
  unfold authorized_result_pointer_args.
  destruct (object_descriptor function) as [d|] eqn:Hd; [|done].
  assert (descriptor_ok d) as Hok.
  { unfold object_descriptor in Hd. destruct (function_name function); [|done].
    by eapply named_descriptor_ok. }
  split; [done|]. destruct Hok as [_ _ _ _ _ Hg _].
  rewrite (bool_decide_ext (result_protocol_guard d = ScalarDeriveMechanismGuard) _ Hg).
  case_bool_decide; [|done]. destruct mechanism as [m|]; cbn [andb].
  - rewrite (bool_decide_ext _ _ (derive_result_protocol_scalar m)).
    rewrite bool_decide_not. by destruct (negb _).
  - rewrite bool_decide_false; [done|]. unfold scalar_mechanism. intuition congruence.
Qed.
End Policy.

(** Every scalar the classification can put in a record. *)
Definition published_scalars : list Z :=
  [0; 1; 2; 3; 4; 0x10; 0x1f; 0x40; 0x41; 16; 24; 32; 1024; 2048; 3072; 4096; 8192].

Lemma one_of_spec v l : one_of v l = true ↔ v ∈ l.
Proof.
  unfold one_of. rewrite existsb_exists. setoid_rewrite <- list_elem_of_In.
  setoid_rewrite Z.eqb_eq. naive_solver.
Qed.

(** An attribute value leaves the target only as one of seventeen published
    scalars, and then unchanged: classifying any 64-bit word gives nothing or
    the word itself, never a truncation of a longer one; and no value is
    classified for the curve parameters, whose bytes must match a curve
    exactly. *)
Theorem attribute_scalars_published kind value :
  is_u64 value →
  match classify_attribute_scalar kind value with
  | Some v => v = value ∧ v ∈ published_scalars ∧ kind ≠ EcParams
  | None => True
  end.
Proof.
  intros Hv. unfold classify_attribute_scalar.
  match goal with |- context [if ?b then _ else None] => destruct b eqn:Hc; [|done] end.
  assert (value ∈ published_scalars ∧ kind ≠ EcParams) as [Hin Hk].
  { destruct kind; try done; (split; [|done]);
      repeat first [rewrite orb_true_iff in Hc | rewrite andb_true_iff in Hc
                   | rewrite one_of_spec in Hc | rewrite Z.leb_le in Hc].
    - assert (value = 0 ∨ value = 1 ∨ value = 2 ∨ value = 3 ∨ value = 4) as Hr by lia.
      unfold published_scalars. destruct_or!; subst; set_solver.
    - destruct Hc as [Hc|Hc]; [|unfold published_scalars; set_solver].
      assert (value = 0 ∨ value = 1 ∨ value = 2 ∨ value = 3 ∨ value = 4) as Hr by lia.
      unfold published_scalars. destruct_or!; subst; set_solver.
    - unfold published_scalars; set_solver.
    - unfold published_scalars; set_solver.
    - unfold published_scalars; set_solver. }
  assert (in_width 16 value) as Hw.
  { apply (proj1 (Forall_forall (in_width 16) published_scalars)); [|done].
    unfold published_scalars. repeat (apply Forall_cons_2; [done|]). apply Forall_nil_2. }
  assert (as_u16 value = value) as -> by (by apply wrap_small). done.
Qed.

Lemma attribute_scalars_published_witness :
  classify_attribute_scalar ModulusBits 4096 = Some 4096 ∧ 4096 ∈ published_scalars.
Proof.
  split; [reflexivity|].
  exact (proj1 (proj2 (attribute_scalars_published ModulusBits 4096 ltac:(done)))).
Defined.
