(* ===== verification/ObjectWire.v ===== *)
(** * The object wire contract

    [crates/ebpf-common/src/object_wire.rs]: the frozen descriptor rows, the
    240-byte object tail of a completed call with its byte-offset validator,
    the record-form dispatch, the START marker and the address of the seventh
    argument.  [call_bytes] is the [repr(C)] image of [ObjectCallWire], the
    bytes the kernel side writes; the validator is shown to decide, on those
    bytes, a contract stated on the fields. *)
From S2P Require Import Prelude TargetAbi Bytes ObjectPolicy.

Definition MAX_DESCRIPTORS : Z := Cookie.MAX_DESCRIPTORS.

Definition OBJECT_CALL_VERSION : Z := 1.
Definition OBJECT_CALL_BYTES : Z := 240.
Definition OBJECT_RECORD_BYTES : Z := 608.
Definition OBJECT_TAIL_BYTES : Z := 240.
Definition START_MARKER_MAX : Z := MAX_DESCRIPTORS.

Definition OBJECT_ACTION_NONE : Z := 0.
Definition OBJECT_ACTION_CREATE : Z := 1.
Definition OBJECT_ACTION_COPY : Z := 2.
Definition OBJECT_ACTION_GENERATE : Z := 3.
Definition OBJECT_ACTION_PAIR : Z := 4.
Definition OBJECT_ACTION_DERIVE : Z := 5.
Definition OBJECT_ACTION_UNWRAP : Z := 6.
Definition OBJECT_ACTION_DESTROY : Z := 7.
Definition OBJECT_ACTION_ACCESS : Z := 8.
Definition OBJECT_ACTION_IMPORT : Z := 9.
Definition OBJECT_ACTION_FIND : Z := 10.
Definition OBJECT_ACTION_GET : Z := 11.
Definition OBJECT_ACTION_SET : Z := 12.
Definition OBJECT_ACTION_ENCAPSULATE : Z := 13.
Definition OBJECT_ACTION_DECAPSULATE : Z := 14.
Definition OBJECT_ACTION_MAX : Z := OBJECT_ACTION_DECAPSULATE.

Definition OBJECT_GUARD_NONE : Z := 0.
Definition OBJECT_GUARD_NAMED : Z := 1.
Definition OBJECT_GUARD_SCALAR_DERIVE : Z := 2.

Definition OBJECT_LAYOUT_LP64 : Z := 1.
Definition OBJECT_LAYOUT_ILP32 : Z := 2.

Definition OBJECT_DERIVE_UNAVAILABLE : Z := 0.
Definition OBJECT_DERIVE_ECDH1_COFACTOR : Z := 4.

Definition OBJECT_ATTR_KIND_MAX : Z := 6.
Definition OBJECT_ATTR_STATUS_MAX : Z := 10.
Definition OBJECT_HANDLE_STATUS_MAX : Z := 9.
Definition OBJECT_FLAGS_MASK : Z := 0xFF.
Definition OBJECT_FIND_FLAGS_MASK : Z := 0x3F.
Definition OBJECT_ATTR_LIST_FLAGS_MASK : Z := 0x1F.
Definition OBJECT_ATTR_LIST_UNINSPECTED : Z := 0x10.
Definition OBJECT_FIND_HANDLES_MAX : Z := 8.

Record ObjectDescriptorWire := mkRow {
  row_function : Z;
  row_input_args : list Z;
  row_result_args : list Z;
  row_template_args : list Z;
  row_find_capacity_arg : Z;
  row_find_count_arg : Z;
  row_action : Z;
  row_guard : Z;
}.

#[export] Instance ObjectDescriptorWire_eq_dec : EqDecision ObjectDescriptorWire.
Proof. solve_decision. Defined.

Record ObjectAttributeWire := mkAttr { attr_kind : Z; attr_status : Z; attr_value : Z }.

Record ObjectAttributeListWire := mkAttrs {
  cells : list ObjectAttributeWire;
  inspected : Z;
  list_flags : Z;
  list_reserved : Z;
}.

Record ObjectCallWire := mkCall {
  version : Z;
  bytes : Z;
  descriptor_index : Z;
  flags : Z;
  layout : Z;
  call_action : Z;
  entry_derive : Z;
  reserved0 : Z;
  input_handles : list Z;
  result_handles : list Z;
  find_handles : list Z;
  input_status : list Z;
  result_status : list Z;
  find_status : list Z;
  find_len : Z;
  find_flags : Z;
  find_valid : Z;
  reserved1 : Z;
  requested : list ObjectAttributeListWire;
  result_attributes : ObjectAttributeListWire;
  reserved2 : Z;
}.

Definition none_object_wire : ObjectDescriptorWire :=
  mkRow FUNCTION_NONE [ARG_NONE; ARG_NONE] [ARG_NONE; ARG_NONE]
    [ARG_NONE; ARG_NONE; ARG_NONE; ARG_NONE] ARG_NONE ARG_NONE OBJECT_ACTION_NONE OBJECT_GUARD_NONE.

Definition action_code (a : ObjectAction) : Z :=
  match a with
  | Create => OBJECT_ACTION_CREATE
  | Copy => OBJECT_ACTION_COPY
  | Generate => OBJECT_ACTION_GENERATE
  | GeneratePair => OBJECT_ACTION_PAIR
  | Derive => OBJECT_ACTION_DERIVE
  | Unwrap => OBJECT_ACTION_UNWRAP
  | Encapsulate => OBJECT_ACTION_ENCAPSULATE
  | Decapsulate => OBJECT_ACTION_DECAPSULATE
  | Destroy => OBJECT_ACTION_DESTROY
  | Access => OBJECT_ACTION_ACCESS
  | OperationImport => OBJECT_ACTION_IMPORT
  | Find => OBJECT_ACTION_FIND
  | GetAttributes => OBJECT_ACTION_GET
  | SetAttributes => OBJECT_ACTION_SET
  end.

Definition guard_code (g : ResultProtocolGuard) : Z :=
  match g with
  | NamedFunction => OBJECT_GUARD_NAMED
  | ScalarDeriveMechanismGuard => OBJECT_GUARD_SCALAR_DERIVE
  end.

Definition canonical_object_wire `{FunctionNames} (function : Z) : ObjectDescriptorWire :=
  match object_descriptor function with
  | None => none_object_wire
  | Some policy =>
      mkRow function (input_args policy) (result_pointer_args policy)
        (concat ((λ p, [p.1; p.2]) <$> template_args policy))
        (find_capacity_arg policy) (find_count_ptr_arg policy)
        (action_code (action policy)) (guard_code (result_protocol_guard policy))
  end.

(** Row 0 is NONE; row [i + 1] is the canonical row of function [i]. *)
Definition publish_object_descriptors `{FunctionNames} : list ObjectDescriptorWire :=
  none_object_wire :: (canonical_object_wire <$> seqZ 0 (MAX_DESCRIPTORS - 1)).

(** [rows] is the 105-row array; a row outside it reads as NONE. *)
Definition row (rows : list ObjectDescriptorWire) (i : Z) : ObjectDescriptorWire :=
  nth (Z.to_nat i) rows none_object_wire.

Definition verify_object_descriptors `{FunctionNames} (rows : list ObjectDescriptorWire) : bool :=
  bool_decide (row rows 0 = none_object_wire)
  && forallb (λ function, bool_decide (row rows (function + 1) = canonical_object_wire function))
       (seqZ 0 (MAX_DESCRIPTORS - 1)).

(** ** Reading the tail *)

Definition byte (l : list Z) (i : nat) : Z := nth i l 0.

Definition tail_u16 (tail : list Z) (o : nat) : Z := le_word [byte tail o; byte tail (o + 1)].

Definition tail_u32 (tail : list Z) (o : nat) : Z :=
  le_word [byte tail o; byte tail (o + 1); byte tail (o + 2); byte tail (o + 3)].

Definition tail_u64 (tail : list Z) (o : nat) : Z :=
  le_word [byte tail o; byte tail (o + 1); byte tail (o + 2); byte tail (o + 3);
           byte tail (o + 4); byte tail (o + 5); byte tail (o + 6); byte tail (o + 7)].

Definition all_zero (l : list Z) : bool := forallb (λ b, b =? 0) l.

Definition valid_handle_word (status word layout : Z) : bool :=
  if (layout =? OBJECT_LAYOUT_ILP32) && (U32_MAX <? word) then false
  else if status =? 1 then negb (word =? 0) else word =? 0.

(** Each [if … return false] is a conjunct. *)
Definition valid_find_section (tail : list Z) (action layout : Z) : bool :=
  let find_len := byte tail 124 in
  let find_flags := byte tail 125 in
  let find_valid := byte tail 126 in
  (byte tail 127 =? 0)
  && (find_len <=? OBJECT_FIND_HANDLES_MAX)
  && (find_flags &~ OBJECT_FIND_FLAGS_MASK =? 0)
  && (find_valid <=? 1)
  && if negb (action =? OBJECT_ACTION_FIND) then
       (find_len =? 0) && (find_flags =? 0) && (find_valid =? 0)
       && forallb (λ i, (byte tail (116 + i) =? 0) && (tail_u64 tail (48 + 8 * i) =? 0)) (seq 0 8)
     else
       negb ((find_valid =? 0) && negb (find_len =? 0))
       && negb (nz (find_flags &' 1) && negb (find_len =? OBJECT_FIND_HANDLES_MAX))
       && forallb (λ i,
            let status := byte tail (116 + i) in
            (status <=? OBJECT_HANDLE_STATUS_MAX)
            && (if Z.of_nat i <? find_len then negb (status =? 0) else status =? 0)
            && valid_handle_word status (tail_u64 tail (48 + 8 * i)) layout) (seq 0 8).

(** The body of the cell loop of [valid_attribute_list]. *)
Definition cell_check (l : list Z) (n : Z) (i : nat) : bool :=
  let kind := byte l (4 * i) in
  let status := byte l (4 * i + 1) in
  let value := le_word [byte l (4 * i + 2); byte l (4 * i + 3)] in
  (kind <=? OBJECT_ATTR_KIND_MAX) && (status <=? OBJECT_ATTR_STATUS_MAX)
  && negb (negb (status =? 1) && negb (value =? 0))
  && negb ((n <=? Z.of_nat i) && (negb (kind =? 0) || negb (status =? 0) || negb (value =? 0))).

Definition valid_attribute_list (l : list Z) : bool :=
  let inspected := byte l 32 in
  let flags := byte l 33 in
  (inspected <=? 8) && (byte l 34 =? 0) && (byte l 35 =? 0)
  && (flags &~ OBJECT_ATTR_LIST_FLAGS_MASK =? 0)
  && if nz (flags &' OBJECT_ATTR_LIST_UNINSPECTED) then
       (inspected =? 0) && (flags =? OBJECT_ATTR_LIST_UNINSPECTED)
       && all_zero (take 32 l)
     else
       negb ((0 <? inspected) && (flags &' 1 =? 0))
       && negb (nz (flags &' 2) && negb (inspected =? 8))
       && forallb (cell_check l inspected) (seq 0 8).

Definition slice (l : list Z) (from to : nat) : list Z := take (to - from) (drop from l).

Definition validate_object_tail (tail : list Z) (descriptor : ObjectDescriptorWire) : bool :=
  let index := tail_u32 tail 4 in
  let layout := byte tail 12 in
  let action := byte tail 13 in
  let entry_derive := byte tail 14 in
  (Z.of_nat (length tail) =? OBJECT_TAIL_BYTES)
  && (tail_u16 tail 0 =? OBJECT_CALL_VERSION) && (tail_u16 tail 2 =? OBJECT_CALL_BYTES)
  && negb (index =? 0) && (index <? MAX_DESCRIPTORS)
  && (row_function descriptor =? index - 1)
  && negb (row_action descriptor =? OBJECT_ACTION_NONE)
  && (row_action descriptor <=? OBJECT_ACTION_MAX)
  && negb (row_guard descriptor =? OBJECT_GUARD_NONE)
  && (row_guard descriptor <=? OBJECT_GUARD_SCALAR_DERIVE)
  && (action =? row_action descriptor)
  && (tail_u32 tail 8 &~ OBJECT_FLAGS_MASK =? 0)
  && ((layout =? OBJECT_LAYOUT_LP64) || (layout =? OBJECT_LAYOUT_ILP32))
  && (action <=? OBJECT_ACTION_MAX)
  && (entry_derive <=? OBJECT_DERIVE_ECDH1_COFACTOR)
  && negb (negb (action =? OBJECT_ACTION_DERIVE)
           && negb (entry_derive =? OBJECT_DERIVE_UNAVAILABLE))
  && (byte tail 15 =? 0)
  && forallb (λ i,
       let status := byte tail (112 + i) in
       (status <=? OBJECT_HANDLE_STATUS_MAX)
       && (if nth i (row_input_args descriptor) 0 =? ARG_NONE then status =? 0
           else negb (negb (action =? OBJECT_ACTION_IMPORT) && (status =? 0)))
       && valid_handle_word status (tail_u64 tail (16 + 8 * i)) layout) (seq 0 2)
  && forallb (λ i,
       let status := byte tail (114 + i) in
       (status <=? OBJECT_HANDLE_STATUS_MAX)
       && (if nth i (row_result_args descriptor) 0 =? ARG_NONE then status =? 0
           else negb (status =? 0))
       && valid_handle_word status (tail_u64 tail (32 + 8 * i)) layout) (seq 0 2)
  && valid_find_section tail action layout
  && forallb (λ i,
       let p := nth (2 * i) (row_template_args descriptor) 0 in
       let n := nth (2 * i + 1) (row_template_args descriptor) 0 in
       let list := slice tail (128 + 36 * i) (128 + 36 * (i + 1)) in
       Bool.eqb (negb (p =? ARG_NONE)) (negb (n =? ARG_NONE))
       && if negb (negb (p =? ARG_NONE) && negb (n =? ARG_NONE))
          then all_zero list else valid_attribute_list list) (seq 0 2)
  && (if negb (action =? OBJECT_ACTION_GET)
      then all_zero (slice tail 200 236)
      else valid_attribute_list (slice tail 200 236))
  && (tail_u32 tail 236 =? 0).

Inductive ObjectRecordForm := Ordinary | Object.

(** The size of [EventRecord]. *)
Definition EVENT_RECORD_BYTES : Z := 368.

Definition object_record_form (record : list Z) (descriptors : list ObjectDescriptorWire)
    : option ObjectRecordForm :=
  if Z.of_nat (length record) =? EVENT_RECORD_BYTES then Some Ordinary
  else if negb (Z.of_nat (length record) =? OBJECT_RECORD_BYTES) then None
  else
    let index := tail_u32 record 372 in
    if (index =? 0) || (MAX_DESCRIPTORS <=? index) then None
    else if validate_object_tail (drop 368 record) (row descriptors index) then Some Object
    else None.

Inductive StartMarkerVerdict :=
| OrdinaryStart
| Required (index : Z)
| Invalid.

Definition validate_start_marker (marker : Z) (descriptors : list ObjectDescriptorWire)
    : StartMarkerVerdict :=
  if marker =? 0 then OrdinaryStart
  else if START_MARKER_MAX <? marker then Invalid
  else
    let r := row descriptors (marker - 1) in
    let action_ok := negb (row_action r =? OBJECT_ACTION_NONE) && (row_action r <=? OBJECT_ACTION_MAX) in
    let guard_ok := negb (row_guard r =? OBJECT_GUARD_NONE)
                    && (row_guard r <=? OBJECT_GUARD_SCALAR_DERIVE) in
    if (2 <=? marker) && (row_function r =? marker - 2) && action_ok && guard_ok
    then Required (as_u32 (marker - 1)) else Invalid.

Definition object_result_arg7_address (descriptor : ObjectDescriptorWire) (stack_pointer : Z)
    (l : LinuxLayout) : option Z :=
  let a := row_action descriptor in
  let named_seven := (a =? OBJECT_ACTION_PAIR) || (a =? OBJECT_ACTION_UNWRAP)
                     || (a =? OBJECT_ACTION_ENCAPSULATE) || (a =? OBJECT_ACTION_DECAPSULATE) in
  if negb named_seven || negb (one_of 7 (row_result_args descriptor)) then None
  else match l with
  | Lp64 =>
      address ← checked_add 64 stack_pointer 16;
      _ ← Abi.target_word_end address l;
      Some address
  | Ilp32 =>
      address ← checked_add 64 (stack_pointer &' U32_MAX) 32;
      _ ← Abi.target_word_end address l;
      Some address
  end.

(** ** The [repr(C)] image of a tail *)

Definition cell_bytes (c : ObjectAttributeWire) : list Z :=
  attr_kind c :: attr_status c :: le_bytes 2 (attr_value c).

Definition attrs_bytes (a : ObjectAttributeListWire) : list Z :=
  concat (cell_bytes <$> cells a)
  ++ [inspected a; list_flags a] ++ le_bytes 2 (list_reserved a).

(** The 128 bytes before the attribute lists. *)
Definition head_bytes (w : ObjectCallWire) : list Z :=
  le_bytes 2 (version w) ++ le_bytes 2 (bytes w) ++ le_bytes 4 (descriptor_index w)
  ++ le_bytes 4 (flags w) ++ [layout w; call_action w; entry_derive w; reserved0 w]
  ++ concat (le_bytes 8 <$> input_handles w) ++ concat (le_bytes 8 <$> result_handles w)
  ++ concat (le_bytes 8 <$> find_handles w)
  ++ input_status w ++ result_status w ++ find_status w
  ++ [find_len w; find_flags w; find_valid w; reserved1 w].

Definition call_bytes (w : ObjectCallWire) : list Z :=
  head_bytes w ++ concat (attrs_bytes <$> requested w)
  ++ attrs_bytes (result_attributes w) ++ le_bytes 4 (reserved2 w).

(** A value of the Rust types: array lengths and integer widths. *)
Record attrs_widths (a : ObjectAttributeListWire) : Prop := {
  aw_cells : length (cells a) = 8%nat;
  aw_values : Forall (λ c, is_u8 (attr_kind c) ∧ is_u8 (attr_status c) ∧ is_u16 (attr_value c))
                (cells a);
  aw_inspected : is_u8 (inspected a);
  aw_flags : is_u8 (list_flags a);
  aw_reserved : is_u16 (list_reserved a);
}.

Record call_widths (w : ObjectCallWire) : Prop := {
  cw_version : is_u16 (version w);
  cw_bytes : is_u16 (bytes w);
  cw_index : is_u32 (descriptor_index w);
  cw_flags : is_u32 (flags w);
  cw_inputs : length (input_handles w) = 2%nat ∧ Forall is_u64 (input_handles w);
  cw_results : length (result_handles w) = 2%nat ∧ Forall is_u64 (result_handles w);
  cw_finds : length (find_handles w) = 8%nat ∧ Forall is_u64 (find_handles w);
  cw_input_status : length (input_status w) = 2%nat;
  cw_result_status : length (result_status w) = 2%nat;
  cw_find_status : length (find_status w) = 8%nat;
  cw_requested : length (requested w) = 2%nat ∧ Forall attrs_widths (requested w);
  cw_result_attributes : attrs_widths (result_attributes w);
  cw_reserved2 : is_u32 (reserved2 w);
}.

(** ** The contract, on the fields *)

(** A value status carries a nonzero word, any other status a zero one; a
    32-bit target has 32-bit words. *)
Definition handle_ok (layout status word : Z) : Prop :=
  status <= OBJECT_HANDLE_STATUS_MAX ∧
  (status = 1 ↔ word ≠ 0) ∧
  (layout = OBJECT_LAYOUT_ILP32 → word <= U32_MAX).

Definition attrs_zero (a : ObjectAttributeListWire) : Prop :=
  Forall (λ c, c = mkAttr 0 0 0) (cells a) ∧ inspected a = 0 ∧ list_flags a = 0 ∧
  list_reserved a = 0.

(** Cell [i] of a list with [n] inspected cells. *)
Definition cell_ok (n : Z) (i : nat) (c : ObjectAttributeWire) : Prop :=
  attr_kind c <= OBJECT_ATTR_KIND_MAX ∧ attr_status c <= OBJECT_ATTR_STATUS_MAX ∧
  (attr_status c ≠ 1 → attr_value c = 0) ∧ (n <= Z.of_nat i → c = mkAttr 0 0 0).

(** An attribute list was never inspected, or carries finite cells up to the
    inspected count: only a value status has a value, and truncation means all
    eight cells. *)
Definition attrs_ok (a : ObjectAttributeListWire) : Prop :=
  list_reserved a = 0 ∧ inspected a <= 8 ∧
  list_flags a &~ OBJECT_ATTR_LIST_FLAGS_MASK = 0 ∧
  if bool_decide (list_flags a &' OBJECT_ATTR_LIST_UNINSPECTED ≠ 0) then
    inspected a = 0 ∧ list_flags a = OBJECT_ATTR_LIST_UNINSPECTED ∧
    Forall (λ c, c = mkAttr 0 0 0) (cells a)
  else
    (0 < inspected a → list_flags a &' 1 ≠ 0) ∧
    (list_flags a &' 2 ≠ 0 → inspected a = 8) ∧
    ∀ i c, cells a !! i = Some c → cell_ok (inspected a) i c.

(** Only Find has a Find section. *)
Definition find_ok (w : ObjectCallWire) : Prop :=
  reserved1 w = 0 ∧ find_len w <= OBJECT_FIND_HANDLES_MAX ∧
  find_flags w &~ OBJECT_FIND_FLAGS_MASK = 0 ∧ find_valid w <= 1 ∧
  if bool_decide (call_action w = OBJECT_ACTION_FIND) then
    (find_valid w = 0 → find_len w = 0) ∧
    (find_flags w &' 1 ≠ 0 → find_len w = OBJECT_FIND_HANDLES_MAX) ∧
    ∀ i, (i < 8)%nat →
      let status := nth i (find_status w) 0 in
      handle_ok (layout w) status (nth i (find_handles w) 0) ∧
      (Z.of_nat i < find_len w ↔ status ≠ 0)
  else
    find_len w = 0 ∧ find_flags w = 0 ∧ find_valid w = 0 ∧
    ∀ i, (i < 8)%nat → nth i (find_status w) 0 = 0 ∧ nth i (find_handles w) 0 = 0.

Record call_ok (w : ObjectCallWire) (d : ObjectDescriptorWire) : Prop := {
  ok_version : version w = OBJECT_CALL_VERSION ∧ bytes w = OBJECT_CALL_BYTES;
  ok_row : 1 <= descriptor_index w < MAX_DESCRIPTORS ∧ row_function d = descriptor_index w - 1 ∧
           row_action d ≠ OBJECT_ACTION_NONE ∧ row_action d <= OBJECT_ACTION_MAX ∧
           row_guard d ≠ OBJECT_GUARD_NONE ∧ row_guard d <= OBJECT_GUARD_SCALAR_DERIVE;
  ok_action : call_action w = row_action d;
  ok_codes : flags w &~ OBJECT_FLAGS_MASK = 0 ∧
             (layout w = OBJECT_LAYOUT_LP64 ∨ layout w = OBJECT_LAYOUT_ILP32) ∧
             entry_derive w <= OBJECT_DERIVE_ECDH1_COFACTOR ∧
             (call_action w ≠ OBJECT_ACTION_DERIVE → entry_derive w = OBJECT_DERIVE_UNAVAILABLE);
  ok_padding : reserved0 w = 0 ∧ reserved2 w = 0;
  ok_inputs : ∀ i, (i < 2)%nat →
    let status := nth i (input_status w) 0 in
    handle_ok (layout w) status (nth i (input_handles w) 0) ∧
    (nth i (row_input_args d) 0 = ARG_NONE → status = 0) ∧
    (nth i (row_input_args d) 0 ≠ ARG_NONE → call_action w ≠ OBJECT_ACTION_IMPORT → status ≠ 0);
  ok_results : ∀ i, (i < 2)%nat →
    let status := nth i (result_status w) 0 in
    handle_ok (layout w) status (nth i (result_handles w) 0) ∧
    (nth i (row_result_args d) 0 = ARG_NONE ↔ status = 0);
  ok_find : find_ok w;
  ok_requested : ∀ i a, requested w !! i = Some a →
    let p := nth (2 * i) (row_template_args d) 0 in
    let n := nth (2 * i + 1) (row_template_args d) 0 in
    (p = ARG_NONE ↔ n = ARG_NONE) ∧
    (p = ARG_NONE → attrs_zero a) ∧ (p ≠ ARG_NONE → attrs_ok a);
  ok_result_attributes :
    (call_action w = OBJECT_ACTION_GET → attrs_ok (result_attributes w)) ∧
    (call_action w ≠ OBJECT_ACTION_GET → attrs_zero (result_attributes w));
}.

(** ** The accessors read the fields *)

Lemma byte_skip pre l k : (length pre <= k)%nat → byte (pre ++ l) k = byte l (k - length pre).
Proof. apply app_nth2. Qed.

Lemma byte_app_l l post k : (k < length l)%nat → byte (l ++ post) k = byte l k.
Proof. apply app_nth1. Qed.

Lemma tail_u64_skip pre l k :
  (length pre <= k)%nat → tail_u64 (pre ++ l) k = tail_u64 l (k - length pre).
Proof.
  intros Hk. unfold tail_u64. rewrite !byte_skip by lia.
  by rewrite <- !Nat.add_sub_swap by lia.
Qed.

Lemma tail_u64_at l post k i :
  k = (8 * i)%nat → Forall is_u64 l → (i < length l)%nat →
  tail_u64 (concat (le_bytes 8 <$> l) ++ post) k = nth i l 0.
Proof.
  intros -> Hall. revert i.
  induction Hall as [|x l Hx Hall IH]; intros i Hi; [cbn in Hi; lia|].
  cbn [fmap list_fmap concat]. rewrite <- app_assoc. destruct i as [|i].
  - transitivity (le_word (le_bytes 8 x)); [reflexivity|]. by apply le_word_width.
  - rewrite tail_u64_skip by (rewrite le_bytes_length; lia). rewrite le_bytes_length.
    replace (8 * S i - 8)%nat with (8 * i)%nat by lia. apply IH. cbn in Hi. lia.
Qed.

Lemma concat_le_bytes_length n l :
  length (concat (le_bytes n <$> l)) = (n * length l)%nat.
Proof.
  induction l as [|x l IH]; [cbn; lia|].
  rewrite fmap_cons. cbn [concat length]. rewrite length_app, le_bytes_length, IH. lia.
Qed.

(** Peel the segments of the head before the one an accessor reads. *)
Ltac lengths := rewrite ?length_app, ?le_bytes_length, ?concat_le_bytes_length.

Ltac peel Hw :=
  destruct Hw as [???? [??] [??] [??] ??? _ _ _]; unfold head_bytes; rewrite <- !app_assoc;
  repeat first [rewrite byte_skip by (lengths; cbn [length]; lia)
               |rewrite tail_u64_skip by (lengths; cbn [length]; lia)];
  lengths; cbn [length];
  first [apply tail_u64_at; [lia|done|lia]
        |rewrite byte_app_l by (cbn [length]; lia); unfold byte; f_equal; lia
        |idtac].

Section Reads.
Context (w : ObjectCallWire) (Hw : call_widths w) (rest : list Z).

Lemma head_scalars :
  let t := head_bytes w ++ rest in
  (tail_u16 t 0 = version w ∧ tail_u16 t 2 = bytes w ∧
   tail_u32 t 4 = descriptor_index w ∧ tail_u32 t 8 = flags w) ∧
  (byte t 12 = layout w ∧ byte t 13 = call_action w ∧
   byte t 14 = entry_derive w ∧ byte t 15 = reserved0 w).
Proof.
  destruct Hw as [Hv Hb Hi Hf]. cbn zeta. split_and!; try reflexivity.
  - transitivity (le_word (le_bytes 2 (version w))); [reflexivity | by apply le_word_width].
  - transitivity (le_word (le_bytes 2 (bytes w))); [reflexivity | by apply le_word_width].
  - transitivity (le_word (le_bytes 4 (descriptor_index w))); [reflexivity | by apply le_word_width].
  - transitivity (le_word (le_bytes 4 (flags w))); [reflexivity | by apply le_word_width].
Qed.

Lemma input_reads i :
  (i < 2)%nat →
  byte (head_bytes w ++ rest) (112 + i) = nth i (input_status w) 0 ∧
  tail_u64 (head_bytes w ++ rest) (16 + 8 * i) = nth i (input_handles w) 0.
Proof. intros Hi. split; peel Hw. Qed.

Lemma result_reads i :
  (i < 2)%nat →
  byte (head_bytes w ++ rest) (114 + i) = nth i (result_status w) 0 ∧
  tail_u64 (head_bytes w ++ rest) (32 + 8 * i) = nth i (result_handles w) 0.
Proof. intros Hi. split; peel Hw. Qed.

Lemma find_reads i :
  (i < 8)%nat →
  byte (head_bytes w ++ rest) (116 + i) = nth i (find_status w) 0 ∧
  tail_u64 (head_bytes w ++ rest) (48 + 8 * i) = nth i (find_handles w) 0.
Proof. intros Hi. split; peel Hw. Qed.

Lemma find_scalars :
  let t := head_bytes w ++ rest in
  byte t 124 = find_len w ∧ byte t 125 = find_flags w ∧ byte t 126 = find_valid w ∧
  byte t 127 = reserved1 w.
Proof.
  cbn zeta. split_and!; peel Hw;
    repeat match goal with H : length _ = _ |- _ => rewrite H; clear H end; reflexivity.
Qed.

End Reads.

(** ** Attribute lists *)

Lemma forallb_seq (f : nat → bool) n :
  forallb f (seq 0 n) = true ↔ ∀ i, (i < n)%nat → f i = true.
Proof.
  rewrite forallb_forall. setoid_rewrite in_seq. split; intros H i Hi; apply H; lia.
Qed.

Lemma forallb_seq_iff (Q : nat → Prop) (f : nat → bool) n :
  (∀ i, (i < n)%nat → f i = true ↔ Q i) →
  forallb f (seq 0 n) = true ↔ ∀ i, (i < n)%nat → Q i.
Proof. intros H. rewrite forallb_seq. split; intros HQ i Hi; by apply H, HQ. Qed.

Lemma all_zero_Forall l : all_zero l = true ↔ Forall (λ b, b = 0) l.
Proof.
  unfold all_zero. rewrite forallb_forall, List.Forall_forall. by setoid_rewrite Z.eqb_eq.
Qed.

Lemma le_bytes_2_zero v : is_u16 v → Forall (λ b, b = 0) (le_bytes 2 v) ↔ v = 0.
Proof.
  intros Hv. split; [|by intros ->; vm_compute; auto].
  unfold le_bytes. rewrite !Forall_cons. intros (H1 & H2 & _). width.
  Z.div_mod_to_equations. lia.
Qed.

Section Lists.
Context (a : ObjectAttributeListWire) (Ha : attrs_widths a).

Lemma cell_lookup i c : cells a !! i = Some c →
  is_u8 (attr_kind c) ∧ is_u8 (attr_status c) ∧ is_u16 (attr_value c).
Proof. intros Hc. destruct Ha as [_ Hv _ _ _]. exact (Forall_lookup_1 _ _ _ _ Hv Hc). Qed.

Lemma cells_bytes_length l : length (concat (cell_bytes <$> l)) = (4 * length l)%nat.
Proof. induction l as [|c l IH]; [done|]. rewrite fmap_cons. cbn [concat length]. cbn. lia. Qed.

Lemma cell_read post i k c :
  cells a !! i = Some c → (k < 4)%nat →
  byte (concat (cell_bytes <$> cells a) ++ post) (4 * i + k) = byte (cell_bytes c) k.
Proof.
  clear Ha. generalize (cells a). intros l. revert i. induction l as [|x l IH]; intros i Hi Hk; [done|].
  rewrite fmap_cons. cbn [concat]. rewrite <- app_assoc. destruct i as [|i].
  - injection Hi as ->. by apply byte_app_l.
  - rewrite byte_skip by (cbn [length cell_bytes le_bytes]; lia).
    rewrite <- (IH i Hi Hk). f_equal. cbn [length cell_bytes le_bytes]. lia.
Qed.

Lemma cells_zero :
  all_zero (concat (cell_bytes <$> cells a)) = true ↔ Forall (λ c, c = mkAttr 0 0 0) (cells a).
Proof.
  rewrite all_zero_Forall, Forall_concat, Forall_fmap, !Forall_lookup.
  split; intros H i c Hc; specialize (H i c Hc);
    destruct (cell_lookup i c Hc) as (_ & _ & Hv); destruct c as [k s v]; unfold compose, cell_bytes in *;
    cbn [attr_kind attr_status attr_value] in *.
  - rewrite !Forall_cons in H. destruct H as (-> & -> & H). f_equal. by apply le_bytes_2_zero.
  - injection H as -> -> ->. vm_compute. auto.
Qed.

Lemma attrs_bytes_length : length (attrs_bytes a) = 36%nat.
Proof.
  unfold attrs_bytes. destruct Ha as [Hl _ _ _ _].
  by rewrite !length_app, cells_bytes_length, Hl, le_bytes_length.
Qed.

Lemma attrs_zero_bytes : all_zero (attrs_bytes a) = true ↔ attrs_zero a.
Proof.
  unfold attrs_bytes, attrs_zero. unfold all_zero at 1. rewrite !forallb_app, !andb_true_iff.
  fold (all_zero (concat (cell_bytes <$> cells a))). fold (all_zero (le_bytes 2 (list_reserved a))).
  rewrite cells_zero, all_zero_Forall, le_bytes_2_zero by apply Ha.
  cbn [forallb]. rewrite !andb_true_iff, !Z.eqb_eq. tauto.
Qed.

Lemma attrs_scalars :
  byte (attrs_bytes a) 32 = inspected a ∧ byte (attrs_bytes a) 33 = list_flags a ∧
  (byte (attrs_bytes a) 34 = 0 ∧ byte (attrs_bytes a) 35 = 0 ↔ list_reserved a = 0) ∧
  take 32 (attrs_bytes a) = concat (cell_bytes <$> cells a).
Proof.
  destruct Ha as [Hl _ _ _ Hr].
  assert (Hn : length (concat (cell_bytes <$> cells a)) = 32%nat)
    by (rewrite cells_bytes_length; lia).
  unfold attrs_bytes. rewrite (byte_skip _ _ 32), (byte_skip _ _ 33), (byte_skip _ _ 34),
    (byte_skip _ _ 35), !Hn by lia.
  split_and!; [done|done| |by apply take_app_length'].
  rewrite <- (le_bytes_2_zero _ Hr). unfold le_bytes. rewrite !Forall_cons, Forall_nil. cbn. tauto.
Qed.

Lemma cell_loop i c :
  cells a !! i = Some c →
  byte (attrs_bytes a) (4 * i) = attr_kind c ∧
  byte (attrs_bytes a) (4 * i + 1) = attr_status c ∧
  le_word [byte (attrs_bytes a) (4 * i + 2); byte (attrs_bytes a) (4 * i + 3)] = attr_value c.
Proof.
  intros Hc. unfold attrs_bytes. pose proof (cell_lookup i c Hc) as (_ & _ & Hv).
  rewrite <- (Nat.add_0_r (4 * i)) at 1. rewrite !(cell_read _ i _ c Hc) by lia.
  split_and!; [done|done|]. by apply (le_word_width 2).
Qed.

Lemma cell_check_ok i c :
  cells a !! i = Some c →
  cell_check (attrs_bytes a) (inspected a) i = true ↔ cell_ok (inspected a) i c.
Proof.
  intros Hc. destruct (cell_loop i c Hc) as (E1 & E2 & E3). unfold cell_check, cell_ok.
  rewrite E1, E2, E3. destruct c as [k s v]. cbn [attr_kind attr_status attr_value]. bprop.
  split.
  - intros [[[Hk Hs] H1] H2]. split_and!; try done; [lia|]. intros Hn. f_equal; lia.
  - intros (Hk & Hs & H1 & H2). split_and!; try done; [lia|].
    destruct (Z.le_gt_cases (inspected a) (Z.of_nat i)) as [Hn|]; [|lia].
    injection (H2 Hn) as -> -> ->. lia.
Qed.

Lemma cell_checks_ok :
  forallb (cell_check (attrs_bytes a) (inspected a)) (seq 0 8) = true ↔
  ∀ i c, cells a !! i = Some c → cell_ok (inspected a) i c.
Proof.
  rewrite forallb_seq. destruct Ha as [Hl _ _ _ _]. split.
  - intros H i c Hc. apply cell_check_ok, H; [done|]. apply lookup_lt_Some in Hc. lia.
  - intros H i Hi. destruct (lookup_lt_is_Some_2 (cells a) i) as [c Hc]; [lia|].
    by eapply cell_check_ok, H.
Qed.

Lemma valid_attribute_list_ok : valid_attribute_list (attrs_bytes a) = true ↔ attrs_ok a.
Proof.
  destruct attrs_scalars as (E1 & E2 & E3 & E4). unfold valid_attribute_list, attrs_ok.
  rewrite E1, E2, E4, <- E3.
  case_bool_decide as Hf.
  - replace (nz _) with true by (symmetry; by bprop). rewrite !andb_true_iff, cells_zero.
    bprop. tauto.
  - replace (nz _) with false by (symmetry; bprop; lia).
    rewrite !andb_true_iff, cell_checks_ok. bprop. intuition lia.
Qed.

End Lists.

(** ** The validator decides the contract *)

Lemma handle_check_ok status word l :
  (status <= OBJECT_HANDLE_STATUS_MAX ∧ valid_handle_word status word l = true) ↔
  handle_ok l status word.
Proof.
  unfold valid_handle_word, handle_ok.
  destruct (Z.eqb_spec l OBJECT_LAYOUT_ILP32), (Z.ltb_spec U32_MAX word),
    (Z.eqb_spec status 1); cbn [andb]; bprop; intuition lia.
Qed.

Lemma slice_app pre l post from to :
  length pre = from → (from + length l = to)%nat → slice (pre ++ l ++ post) from to = l.
Proof.
  intros <- <-. unfold slice. rewrite drop_app_length.
  apply take_app_length'. lia.
Qed.

Section Validator.
Context (w : ObjectCallWire) (Hw : call_widths w).

Lemma head_bytes_length : length (head_bytes w) = 128%nat.
Proof.
  destruct Hw as [???? [??] [??] [??] ??? _ _ _]. unfold head_bytes. lengths. cbn [length]. lia.
Qed.

Lemma tail_segments :
  ∃ a0 a1, requested w = [a0; a1] ∧ attrs_widths a0 ∧ attrs_widths a1 ∧
    slice (call_bytes w) 128 164 = attrs_bytes a0 ∧
    slice (call_bytes w) 164 200 = attrs_bytes a1 ∧
    slice (call_bytes w) 200 236 = attrs_bytes (result_attributes w) ∧
    length (call_bytes w) = 240%nat ∧
    tail_u32 (call_bytes w) 236 = reserved2 w.
Proof.
  pose proof head_bytes_length as Hh. destruct Hw as [_ _ _ _ _ _ _ _ _ _ [Hl Hr] Hra H2].
  destruct (requested w) as [|a0 [|a1 [|]]] eqn:E; try discriminate Hl. exists a0, a1.
  apply Forall_cons in Hr as [H0 [H1 _]%Forall_cons].
  pose proof (attrs_bytes_length a0 H0) as L0. pose proof (attrs_bytes_length a1 H1) as L1.
  pose proof (attrs_bytes_length _ Hra) as L2.
  assert (Ec : call_bytes w = head_bytes w ++ attrs_bytes a0 ++ attrs_bytes a1
    ++ attrs_bytes (result_attributes w) ++ le_bytes 4 (reserved2 w)).
  { unfold call_bytes. rewrite E. cbn [fmap list_fmap concat]. by rewrite app_nil_r, <- app_assoc. }
  rewrite Ec. split_and!; try done.
  - apply slice_app; lia.
  - rewrite app_assoc. apply slice_app; rewrite ?length_app; lia.
  - do 2 rewrite app_assoc. apply slice_app; rewrite ?length_app; lia.
  - rewrite !length_app, le_bytes_length. lia.
  - rewrite !app_assoc. unfold tail_u32. rewrite !byte_skip by (rewrite !length_app; lia).
    rewrite !length_app, Hh, L0, L1, L2. by apply (le_word_width 4).
Qed.

Let rest := concat (attrs_bytes <$> requested w)
  ++ attrs_bytes (result_attributes w) ++ le_bytes 4 (reserved2 w).

Lemma find_section_ok :
  valid_find_section (call_bytes w) (call_action w) (layout w) = true ↔ find_ok w.
Proof.
  unfold valid_find_section, find_ok. change (call_bytes w) with (head_bytes w ++ rest).
  destruct (find_scalars w Hw rest) as (-> & -> & -> & ->).
  pose proof (find_reads w Hw rest) as Hr.
  revert Hr. generalize (head_bytes w ++ rest). intros t Hr.
  case_bool_decide as Ha.
  - replace (call_action w =? _) with true by (symmetry; by apply Z.eqb_eq). cbn [negb].
    rewrite !andb_true_iff, (forallb_seq_iff (λ i, handle_ok (layout w) (nth i (find_status w) 0)
      (nth i (find_handles w) 0) ∧ (Z.of_nat i < find_len w ↔ nth i (find_status w) 0 ≠ 0))).
    { bprop. intuition lia. }
    intros i Hi. destruct (Hr i Hi) as [-> ->]. rewrite <- handle_check_ok.
    rewrite !andb_true_iff. destruct (Z.ltb_spec (Z.of_nat i) (find_len w)); bprop; intuition lia.
  - replace (call_action w =? _) with false by (symmetry; by apply Z.eqb_neq). cbn [negb].
    rewrite !andb_true_iff, (forallb_seq_iff (λ i, nth i (find_status w) 0 = 0 ∧
      nth i (find_handles w) 0 = 0)); [bprop; tauto|].
    intros i Hi. destruct (Hr i Hi) as [-> ->]. by bprop.
Qed.

Lemma inputs_ok d :
  forallb (λ i,
    let status := byte (call_bytes w) (112 + i) in
    (status <=? OBJECT_HANDLE_STATUS_MAX)
    && (if nth i (row_input_args d) 0 =? ARG_NONE then status =? 0
        else negb (negb (call_action w =? OBJECT_ACTION_IMPORT) && (status =? 0)))
    && valid_handle_word status (tail_u64 (call_bytes w) (16 + 8 * i)) (layout w)) (seq 0 2) = true ↔
  ∀ i, (i < 2)%nat →
    let status := nth i (input_status w) 0 in
    handle_ok (layout w) status (nth i (input_handles w) 0) ∧
    (nth i (row_input_args d) 0 = ARG_NONE → status = 0) ∧
    (nth i (row_input_args d) 0 ≠ ARG_NONE → call_action w ≠ OBJECT_ACTION_IMPORT → status ≠ 0).
Proof.
  apply forallb_seq_iff. intros i Hi. cbn zeta. change (call_bytes w) with (head_bytes w ++ rest).
  destruct (input_reads w Hw rest i Hi) as [-> ->]. rewrite <- handle_check_ok, !andb_true_iff.
  destruct (Z.eqb_spec (nth i (row_input_args d) 0) ARG_NONE); bprop; intuition lia.
Qed.

Lemma results_ok d :
  forallb (λ i,
    let status := byte (call_bytes w) (114 + i) in
    (status <=? OBJECT_HANDLE_STATUS_MAX)
    && (if nth i (row_result_args d) 0 =? ARG_NONE then status =? 0 else negb (status =? 0))
    && valid_handle_word status (tail_u64 (call_bytes w) (32 + 8 * i)) (layout w)) (seq 0 2) = true ↔
  ∀ i, (i < 2)%nat →
    let status := nth i (result_status w) 0 in
    handle_ok (layout w) status (nth i (result_handles w) 0) ∧
    (nth i (row_result_args d) 0 = ARG_NONE ↔ status = 0).
Proof.
  apply forallb_seq_iff. intros i Hi. cbn zeta. change (call_bytes w) with (head_bytes w ++ rest).
  destruct (result_reads w Hw rest i Hi) as [-> ->]. rewrite <- handle_check_ok, !andb_true_iff.
  destruct (Z.eqb_spec (nth i (row_result_args d) 0) ARG_NONE); bprop; intuition lia.
Qed.

Lemma requested_ok d :
  forallb (λ i,
    let p := nth (2 * i) (row_template_args d) 0 in
    let n := nth (2 * i + 1) (row_template_args d) 0 in
    let list := slice (call_bytes w) (128 + 36 * i) (128 + 36 * (i + 1)) in
    Bool.eqb (negb (p =? ARG_NONE)) (negb (n =? ARG_NONE))
    && if negb (negb (p =? ARG_NONE) && negb (n =? ARG_NONE))
       then all_zero list else valid_attribute_list list) (seq 0 2) = true ↔
  ∀ i a, requested w !! i = Some a →
    let p := nth (2 * i) (row_template_args d) 0 in
    let n := nth (2 * i + 1) (row_template_args d) 0 in
    (p = ARG_NONE ↔ n = ARG_NONE) ∧
    (p = ARG_NONE → attrs_zero a) ∧ (p ≠ ARG_NONE → attrs_ok a).
Proof.
  destruct tail_segments as (a0 & a1 & E & W0 & W1 & S0 & S1 & _).
  assert (Hone : ∀ p n l a, attrs_widths a → l = attrs_bytes a →
    Bool.eqb (negb (p =? ARG_NONE)) (negb (n =? ARG_NONE))
    && (if negb (negb (p =? ARG_NONE) && negb (n =? ARG_NONE))
        then all_zero l else valid_attribute_list l) = true ↔
    (p = ARG_NONE ↔ n = ARG_NONE) ∧ (p = ARG_NONE → attrs_zero a) ∧ (p ≠ ARG_NONE → attrs_ok a)).
  { intros p n l a Wa ->. rewrite andb_true_iff.
    destruct (Z.eqb_spec p ARG_NONE), (Z.eqb_spec n ARG_NONE); cbn [negb andb Bool.eqb];
      rewrite ?attrs_zero_bytes, ?valid_attribute_list_ok by done; intuition (congruence || lia). }
  rewrite forallb_seq. cbn zeta. rewrite E. split.
  - intros H [|[|i]] a Ha; [..|done]; injection Ha as <-.
    + apply (Hone _ _ _ a0 W0 S0), (H 0%nat). lia.
    + apply (Hone _ _ _ a1 W1 S1), (H 1%nat). lia.
  - intros H [|[|i]] Hi; [..|lia].
    + by apply (Hone _ _ _ a0 W0 S0), (H 0%nat a0).
    + by apply (Hone _ _ _ a1 W1 S1), (H 1%nat a1).
Qed.

Lemma result_attributes_ok :
  (if negb (call_action w =? OBJECT_ACTION_GET)
   then all_zero (attrs_bytes (result_attributes w))
   else valid_attribute_list (attrs_bytes (result_attributes w))) = true ↔
  (call_action w = OBJECT_ACTION_GET → attrs_ok (result_attributes w)) ∧
  (call_action w ≠ OBJECT_ACTION_GET → attrs_zero (result_attributes w)).
Proof.
  destruct (Z.eqb_spec (call_action w) OBJECT_ACTION_GET); cbn [negb];
    rewrite ?attrs_zero_bytes, ?valid_attribute_list_ok by apply Hw; tauto.
Qed.

End Validator.

(** On the 240 bytes of any object tail the byte-offset validator accepts exactly
    the tails whose fields satisfy the contract. *)
Lemma validate_tail_contract w d :
  call_widths w → validate_object_tail (call_bytes w) d = true ↔ call_ok w d.
Proof.
  intros Hw. destruct (tail_segments w Hw) as (_ & _ & _ & _ & _ & _ & _ & SR & Hl & H2).
  destruct (head_scalars w Hw (concat (attrs_bytes <$> requested w)
    ++ attrs_bytes (result_attributes w) ++ le_bytes 4 (reserved2 w)))
    as ((E0 & E2 & E4 & E8) & E12 & E13 & E14 & E15). fold (call_bytes w) in *.
  unfold validate_object_tail. rewrite Hl, E0, E2, E4, E8, E12, E13, E14, E15, SR, H2.
  cbn zeta. rewrite !andb_true_iff, (inputs_ok w Hw), (results_ok w Hw), (requested_ok w Hw),
    (find_section_ok w Hw), (result_attributes_ok w Hw).
  pose proof (cw_index w Hw) as Hi. width. bprop. split.
  - intros H. destruct_and! H. constructor; try done; try lia; split_and!; try done; try lia.
  - intros []. destruct_and?. split_and!; try done; try lia.
Qed.

Definition zero_attrs : ObjectAttributeListWire := mkAttrs (replicate 8 (mkAttr 0 0 0)) 0 0 0.

(** A Find of two objects on an LP64 target. *)
Definition find_tail : ObjectCallWire :=
  mkCall 1 240 30 0 1 OBJECT_ACTION_FIND 0 0 [0; 0] [0; 0] [7; 9; 0; 0; 0; 0; 0; 0]
    [0; 0] [2; 0] [1; 1; 0; 0; 0; 0; 0; 0] 2 0 1 0 [zero_attrs; zero_attrs] zero_attrs 0.

Lemma zero_attrs_widths : attrs_widths zero_attrs.
Proof. split; cbn; width; try lia. repeat (apply Forall_cons_2; [cbn; lia|]). apply Forall_nil_2. Qed.

Ltac words := repeat (apply Forall_cons_2; [width; lia|]); apply Forall_nil_2.

Lemma find_tail_widths : call_widths find_tail.
Proof.
  split; cbn; try done; try (width; lia); try (split; [done|words]).
  - split; [done|]. repeat (apply Forall_cons_2; [apply zero_attrs_widths|]). apply Forall_nil_2.
  - apply zero_attrs_widths.
Qed.

(** ** The frozen table *)

Section Table.
Context `{FunctionNames}.

Lemma canonical_some function d :
  object_descriptor function = Some d →
  let r := canonical_object_wire function in
  row_function r = function ∧ 1 <= row_action r <= OBJECT_ACTION_MAX ∧
  1 <= row_guard r <= OBJECT_GUARD_SCALAR_DERIVE ∧ row_result_args r = result_pointer_args d.
Proof.
  intros Hd. unfold canonical_object_wire. rewrite Hd. cbn.
  split_and!; try done; destruct (action d), (result_protocol_guard d); vm_compute; congruence.
Qed.

Lemma canonical_none function :
  object_descriptor function = None → canonical_object_wire function = none_object_wire.
Proof. intros Hd. unfold canonical_object_wire. by rewrite Hd. Qed.

Lemma verified_rows rows i :
  verify_object_descriptors rows = true → 1 <= i < MAX_DESCRIPTORS →
  row rows i = canonical_object_wire (i - 1).
Proof.
  unfold verify_object_descriptors. rewrite andb_true_iff, forallb_forall.
  intros [_ Hall] Hi. specialize (Hall (i - 1)). rewrite bool_decide_eq_true in Hall.
  rewrite Z.sub_add in Hall. apply Hall. rewrite <- list_elem_of_In, elem_of_seqZ. lia.
Qed.

Lemma verified_none rows :
  verify_object_descriptors rows = true → row rows 0 = none_object_wire.
Proof.
  unfold verify_object_descriptors. rewrite andb_true_iff, bool_decide_eq_true. tauto.
Qed.

Lemma publish_row function :
  0 <= function < MAX_DESCRIPTORS - 1 →
  row publish_object_descriptors (function + 1) = canonical_object_wire function.
Proof.
  intros Hf. unfold row, publish_object_descriptors.
  replace (Z.to_nat (function + 1)) with (S (Z.to_nat function)) by lia. cbn [nth].
  apply nth_lookup_Some. rewrite list_lookup_fmap, lookup_seqZ_lt by lia. cbn. f_equal. f_equal. lia.
Qed.

(** The publisher and the verifier of the frozen descriptor table agree:
    the verifier accepts a 105-row table if and only if it is the published
    one. *)
Theorem verify_object_descriptors_exact rows :
  Z.of_nat (length rows) = MAX_DESCRIPTORS →
  verify_object_descriptors rows = true ↔ rows = publish_object_descriptors.
Proof.
  intros Hl. split.
  - intros Hv. unfold publish_object_descriptors.
    apply list_eq. intros [|i].
    + pose proof (verified_none rows Hv) as H0. destruct rows as [|r rows]; [done|].
      change (r = none_object_wire) in H0. by subst.
    + change (rows !! S i = (canonical_object_wire <$> seqZ 0 (MAX_DESCRIPTORS - 1)) !! i).
      rewrite list_lookup_fmap. destruct (decide (Z.of_nat i < MAX_DESCRIPTORS - 1)) as [Hi|Hi].
      * rewrite lookup_seqZ_lt by lia. cbn. destruct (lookup_lt_is_Some_2 rows (S i)) as [r Hr]; [lia|].
        rewrite Hr. f_equal. pose proof (verified_rows rows (Z.of_nat i + 1) Hv) as Hrow.
        unfold row in Hrow. replace (Z.to_nat (Z.of_nat i + 1)) with (S i) in Hrow by lia.
        rewrite (nth_lookup_Some _ _ _ _ Hr) in Hrow. rewrite Hrow by lia. f_equal. lia.
      * rewrite lookup_seqZ_ge, lookup_ge_None_2 by lia. done.
  - intros ->. unfold verify_object_descriptors. apply andb_true_iff. split.
    + by apply bool_decide_eq_true.
    + apply forallb_forall. intros f Hf. apply bool_decide_eq_true, publish_row.
      rewrite <- list_elem_of_In, elem_of_seqZ in Hf. lia.
Qed.

(** Against a verified table a START marker is ordinary at zero, names the
    table index of a function that has an object protocol, and is invalid
    otherwise. *)
Theorem validate_start_marker_exact rows marker :
  verify_object_descriptors rows = true → is_u64 marker →
  validate_start_marker marker rows =
    if bool_decide (marker = 0) then OrdinaryStart
    else if bool_decide (2 <= marker <= MAX_DESCRIPTORS ∧ is_Some (object_descriptor (marker - 2)))
    then Required (marker - 1) else Invalid.
Proof.
  intros Hv Hm. unfold validate_start_marker, START_MARKER_MAX.
  case_bool_decide as E0; [by subst|]. rewrite (proj2 (Z.eqb_neq _ _) E0).
  destruct (Z.ltb_spec MAX_DESCRIPTORS marker) as [Hbig|Hsmall].
  { rewrite bool_decide_false by lia. done. }
  destruct (decide (2 <= marker)) as [H2|H1].
  - rewrite (verified_rows rows (marker - 1) Hv) by lia.
    replace (marker - 1 - 1) with (marker - 2) by lia.
    destruct (object_descriptor (marker - 2)) as [d|] eqn:Ed.
    + destruct (canonical_some _ d Ed) as (-> & Ha & Hg & _).
      rewrite bool_decide_true by (split; [lia|done]).
      replace (_ && _) with true; [unfold as_u32; rewrite wrap_small; [done|]|].
      * unfold MAX_DESCRIPTORS, Cookie.MAX_DESCRIPTORS in *. width. lia.
      * symmetry. unfold OBJECT_ACTION_NONE, OBJECT_GUARD_NONE. bprop. lia.
    + rewrite (canonical_none _ Ed), bool_decide_false by (intros [_ [? ?]]; done).
      cbn. by rewrite !andb_false_r.
  - rewrite (proj2 (Z.leb_gt 2 marker)), bool_decide_false by lia. done.
Qed.

Lemma record_form_contract rows base w :
  verify_object_descriptors rows = true →
  Z.of_nat (length base) = EVENT_RECORD_BYTES → call_widths w →
  object_record_form (base ++ call_bytes w) rows = Some Object ↔
  is_Some (object_descriptor (descriptor_index w - 1)) ∧
  call_ok w (canonical_object_wire (descriptor_index w - 1)).
Proof.
  intros Hv Hb Hw. unfold object_record_form.
  destruct (tail_segments w Hw) as (_ & _ & _ & _ & _ & _ & _ & _ & Hl & _).
  destruct (head_scalars w Hw (concat (attrs_bytes <$> requested w)
    ++ attrs_bytes (result_attributes w) ++ le_bytes 4 (reserved2 w)))
    as ((_ & _ & E4 & _) & _). fold (call_bytes w) in E4.
  unfold EVENT_RECORD_BYTES in *. assert (Hn : length base = 368%nat) by lia.
  rewrite length_app, Hl, Hn.
  replace (tail_u32 _ 372) with (descriptor_index w).
  2:{ unfold tail_u32 in *. rewrite !byte_skip by lia. by rewrite Hn. }
  rewrite drop_app_length' by done. change (_ =? 368) with false.
  change (negb _) with false. cbn iota.
  assert (Hs : call_ok w (canonical_object_wire (descriptor_index w - 1)) →
    is_Some (object_descriptor (descriptor_index w - 1))).
  { intros [_ (_ & _ & Hne & _)]. destruct (object_descriptor _) as [d|] eqn:Ed; [done|].
    rewrite (canonical_none _ Ed) in Hne. by destruct Hne. }
  pose proof (cw_index w Hw) as Hi. unfold in_width in Hi.
  destruct (Z.eqb_spec (descriptor_index w) 0), (Z.leb_spec MAX_DESCRIPTORS (descriptor_index w));
    cbn [orb]; try (split; [done | intros [_ [_ [? _]]]; lia]).
  rewrite (verified_rows rows (descriptor_index w) Hv) by lia.
  rewrite <- (validate_tail_contract w _ Hw) in *.
  destruct (validate_object_tail _ _); split; intuition discriminate.
Qed.

(** C15: Against a verified table the 608-byte form of a record is accepted
    exactly when its tail names a function with an object protocol and
    satisfies the contract of that function's canonical row. *)
Theorem object_record_form_exact rows base w :
  verify_object_descriptors rows = true →
  Z.of_nat (length base) = EVENT_RECORD_BYTES → call_widths w →
  object_record_form (base ++ call_bytes w) rows = Some Object ↔
  is_Some (object_descriptor (descriptor_index w - 1)) ∧
  call_ok w (canonical_object_wire (descriptor_index w - 1)).
Proof. apply record_form_contract. Qed.

(** Only four named protocols have a seventh-argument result. *)
Lemma seven_action name d :
  named_descriptor name = Some d → one_of 7 (result_pointer_args d) = true →
  (action_code (action d) =? OBJECT_ACTION_PAIR) || (action_code (action d) =? OBJECT_ACTION_UNWRAP)
  || (action_code (action d) =? OBJECT_ACTION_ENCAPSULATE)
  || (action_code (action d) =? OBJECT_ACTION_DECAPSULATE) = true.
Proof. unfold named_descriptor. cbv zeta. intros Hd. named_cases; by vm_compute. Qed.

Lemma seven_named function :
  let r := canonical_object_wire function in
  ((row_action r =? OBJECT_ACTION_PAIR) || (row_action r =? OBJECT_ACTION_UNWRAP)
   || (row_action r =? OBJECT_ACTION_ENCAPSULATE) || (row_action r =? OBJECT_ACTION_DECAPSULATE))
  && one_of 7 (row_result_args r) =
  match object_descriptor function with
  | Some d => one_of 7 (result_pointer_args d)
  | None => false
  end.
Proof.
  unfold canonical_object_wire. destruct (object_descriptor function) as [d|] eqn:Ed; [|done].
  cbn [row_action row_result_args]. destruct (one_of 7 _) eqn:E7; [|apply andb_false_r].
  rewrite andb_true_r. unfold object_descriptor in Ed.
  destruct (function_name function) as [name|]; [|done]. by apply (seven_action name).
Qed.

(** The address of the seventh argument exists for exactly the functions
    whose frozen row names argument 7 as a result, and then is SP+16 on LP64 and
    the 32-bit SP+32 on ia32, with the whole target word inside the address
    space. *)
Theorem object_result_arg7_address_exact function sp l address :
  is_u64 sp →
  object_result_arg7_address (canonical_object_wire function) sp l = Some address ↔
  (∃ d, object_descriptor function = Some d ∧ 7 ∈ result_pointer_args d) ∧
  match l with
  | Lp64 => address = sp + 16 ∧ address + 7 <= U64_MAX
  | Ilp32 => address = sp mod 2 ^ 32 + 32 ∧ address + 3 <= U32_MAX
  end.
Proof.
  intros Hsp. unfold object_result_arg7_address. rewrite <- negb_andb.
  rewrite (seven_named function). destruct (object_descriptor function) as [d|].
  2:{ cbn. split; [done|]. intros [(d & ? & _) _]. done. }
  destruct (one_of 7 (result_pointer_args d)) eqn:E7; cbn [negb].
  - apply one_of_spec in E7. transitivity (match l with
      | Lp64 => address = sp + 16 ∧ address + 7 <= U64_MAX
      | Ilp32 => address = sp mod 2 ^ 32 + 32 ∧ address + 3 <= U32_MAX end); [|by naive_solver].
    pose proof (Z.mod_pos_bound sp (2 ^ 32) ltac:(lia)).
    destruct l; unfold Abi.target_word_end, U32_MAX; rewrite ?land_ones_mod by lia;
      chk; zif; width; pow2; (split; [intros [= <-] | intros [-> ?]]); try done; try lia; f_equal; lia.
  - split; [done|]. intros [(d' & [= <-] & H7) _]. apply one_of_spec in H7. congruence.
Qed.

End Table.

(** Names for two ordinals. *)
Definition two_names : FunctionNames := λ f,
  if f =? 29 then Some "C_FindObjects"%string
  else if f =? 61 then Some "C_UnwrapKey"%string else None.

Lemma verify_object_descriptors_exact_witness :
  @verify_object_descriptors two_names (@publish_object_descriptors two_names) = true.
Proof. by apply (@verify_object_descriptors_exact two_names). Defined.

Lemma validate_start_marker_exact_witness :
  validate_start_marker 31 (@publish_object_descriptors two_names) = Required 30 ∧
  validate_start_marker 32 (@publish_object_descriptors two_names) = Invalid.
Proof.
  split; rewrite (@validate_start_marker_exact two_names);
    first [vm_compute; reflexivity | width; lia | vm_compute; done].
Defined.

Lemma object_record_form_exact_witness :
  call_ok find_tail (@canonical_object_wire two_names 29).
Proof.
  apply (@object_record_form_exact two_names (@publish_object_descriptors two_names)
    (replicate 368 0) find_tail); [vm_compute; reflexivity..|apply find_tail_widths|].
  vm_compute. reflexivity.
Defined.

Lemma object_result_arg7_address_exact_witness :
  object_result_arg7_address (@canonical_object_wire two_names 61) 4096 Lp64 = Some 4112.
Proof.
  apply (@object_result_arg7_address_exact two_names); [width; lia|].
  split; [|width; lia]. eexists. split; [reflexivity|]. cbn. set_solver.
Defined.
