(* ===== verification/ObjectJournal.v ===== *)
(** * The object journal records

    [crates/ebpf-common/src/object_journal.rs]: the BEGIN, END and ABANDON
    records of the object journal with their validators, the compact form of END
    and the decoder of raw ring records.  A record is its list of bytes; a
    validated record keeps exactly the bytes it was validated from. *)
From S2P Require Import Prelude TargetAbi Bytes ObjectPolicy ObjectWire.

Definition JOURNAL_VERSION : Z := 1.
Definition JOURNAL_COMMON_BYTES : nat := 24.
Definition JOURNAL_BEGIN_BYTES : nat := 224.
Definition JOURNAL_END_FULL_BYTES : nat := 632.
Definition JOURNAL_END_COMPACT_BYTES : nat := 472.
Definition JOURNAL_ABANDON_BYTES : nat := 64.

Definition JOURNAL_KIND_BEGIN : Z := 1.
Definition JOURNAL_KIND_END : Z := 2.
Definition JOURNAL_KIND_ABANDON : Z := 3.

Definition JOURNAL_BEGIN_NO_END : Z := 0x01.
Definition JOURNAL_END_TAIL_ABSENT : Z := 0x02.
Definition JOURNAL_END_UNJOURNALED : Z := 0x04.

Record JournalEndHeader := mkEndHeader {
  header_version : Z;
  header_length : Z;
  header_kind : Z;
  header_flags : Z;
  header_reserved : Z;
  header_thread : Z;
  header_sequence : Z;
}.

Definition JOURNAL_REASON_ENTRY_COLLISION : Z := 1.
Definition JOURNAL_REASON_INSERT_FAILED : Z := 2.
Definition JOURNAL_REASON_SCOPE_LOST : Z := 3.
Definition JOURNAL_REASON_ABI_REFUSED : Z := 4.
Definition JOURNAL_REASON_IDENTITY_REFUSED : Z := 5.
Definition JOURNAL_REASON_EXEC_EXIT : Z := 6.
Definition JOURNAL_REASON_STOP_CLEANUP : Z := 7.
Definition JOURNAL_REASON_PARTIAL_TRANSACTION : Z := 8.
Definition JOURNAL_REASON_SYNC_RETURN_RESULT_LOST : Z := 9.

Definition reason_name (reason : Z) : option string :=
  if reason =? JOURNAL_REASON_ENTRY_COLLISION then Some "entry-collision"%string
  else if reason =? JOURNAL_REASON_INSERT_FAILED then Some "insert-failed"%string
  else if reason =? JOURNAL_REASON_SCOPE_LOST then Some "scope-lost"%string
  else if reason =? JOURNAL_REASON_ABI_REFUSED then Some "abi-refused"%string
  else if reason =? JOURNAL_REASON_IDENTITY_REFUSED then Some "identity-refused"%string
  else if reason =? JOURNAL_REASON_EXEC_EXIT then Some "exec-exit"%string
  else if reason =? JOURNAL_REASON_STOP_CLEANUP then Some "stop-cleanup"%string
  else if reason =? JOURNAL_REASON_PARTIAL_TRANSACTION then Some "partial-transaction"%string
  else if reason =? JOURNAL_REASON_SYNC_RETURN_RESULT_LOST then Some "sync-return-result-lost"%string
  else None.

Definition COMPACT_OMIT_START : nat := 120.
Definition COMPACT_OMIT_END : nat := 280.

(** [capture::*] and [instance::STAMP_*] of [lib.rs], as the journal combines
    them. *)
Definition CAPTURE_MASK : Z := 0x3 |' (0x3 << 2) |' (1 << 4) |' (1 << 5) |' (1 << 6).
Definition STAMP_VALID : Z := 1 << 15.
Definition STAMP_MASK : Z :=
  STAMP_VALID |' (1 << 0) |' (1 << 1) |' (1 << 2) |' (1 << 3) |' (1 << 4).

Definition EVENT_TYPE_CALL : Z := 0.

Definition journal_u16 (l : list Z) (o : nat) : Z := le_word [byte l o; byte l (o + 1)].

Definition journal_u32 (l : list Z) (o : nat) : Z :=
  le_word [byte l o; byte l (o + 1); byte l (o + 2); byte l (o + 3)].

Definition journal_u64 (l : list Z) (o : nat) : Z :=
  le_word [byte l o; byte l (o + 1); byte l (o + 2); byte l (o + 3);
           byte l (o + 4); byte l (o + 5); byte l (o + 6); byte l (o + 7)].

(** ** Validated records *)

Record ValidatedJournalBegin := mkBegin { begin_bytes : list Z }.

Module Begin.

Definition thread (b : ValidatedJournalBegin) : Z := journal_u64 (begin_bytes b) 8.
Definition sequence (b : ValidatedJournalBegin) : Z := journal_u64 (begin_bytes b) 16.
Definition no_end (b : ValidatedJournalBegin) : bool :=
  nz (byte (begin_bytes b) 5 &' JOURNAL_BEGIN_NO_END).
Definition descriptor (b : ValidatedJournalBegin) : Z := journal_u32 (begin_bytes b) 108.
Definition session_word (b : ValidatedJournalBegin) : Z := journal_u64 (begin_bytes b) 80.
Definition session_status (b : ValidatedJournalBegin) : Z := byte (begin_bytes b) 125.
Definition input_word (b : ValidatedJournalBegin) (index : nat) : Z :=
  journal_u64 (begin_bytes b) (88 + 8 * (index mod 2)).
Definition input_status (b : ValidatedJournalBegin) (index : nat) : Z :=
  byte (begin_bytes b) (126 + index mod 2).
Definition capture (b : ValidatedJournalBegin) : Z := journal_u32 (begin_bytes b) 120.
Definition layout (b : ValidatedJournalBegin) : Z := byte (begin_bytes b) 124.
Definition entry_stamp (b : ValidatedJournalBegin) : list Z := slice (begin_bytes b) 64 80.
Definition requested_pair (b : ValidatedJournalBegin) (index : nat) : list Z :=
  slice (begin_bytes b) (128 + 36 * (index mod 2)) (128 + 36 * (index mod 2) + 36).

End Begin.

(** [raw] is the 632-byte buffer, of which [raw_len] bytes are used. *)
Record ValidatedJournalEnd := mkEnd { raw : list Z; raw_len : nat }.

Module End_.

Definition thread (e : ValidatedJournalEnd) : Z := journal_u64 (raw e) 8.
Definition sequence (e : ValidatedJournalEnd) : Z := journal_u64 (raw e) 16.
Definition compact (e : ValidatedJournalEnd) : bool := (raw_len e =? JOURNAL_END_COMPACT_BYTES)%nat.
Definition tail_absent (e : ValidatedJournalEnd) : bool :=
  nz (byte (raw e) 5 &' JOURNAL_END_TAIL_ABSENT).
Definition unjournaled (e : ValidatedJournalEnd) : bool :=
  nz (byte (raw e) 5 &' JOURNAL_END_UNJOURNALED).
Definition raw_bytes (e : ValidatedJournalEnd) : list Z := take (raw_len e) (raw e).

(** The two [copy_from_slice] of the compact form leave the omitted span of the
    zeroed buffer untouched. *)
Definition payload_bytes (e : ValidatedJournalEnd) : list Z :=
  if compact e then
    slice (raw e) JOURNAL_COMMON_BYTES (JOURNAL_COMMON_BYTES + COMPACT_OMIT_START)
    ++ replicate (COMPACT_OMIT_END - COMPACT_OMIT_START) 0
    ++ slice (raw e) (JOURNAL_COMMON_BYTES + COMPACT_OMIT_START) (raw_len e)
  else slice (raw e) JOURNAL_COMMON_BYTES (raw_len e).

Definition payload_tail (e : ValidatedJournalEnd) : list Z := drop 368 (payload_bytes e).

End End_.

Record ValidatedJournalAbandon := mkAbandon { abandon_bytes : list Z }.

Module Abandon.

Definition thread (a : ValidatedJournalAbandon) : Z := journal_u64 (abandon_bytes a) 8.
Definition sequence (a : ValidatedJournalAbandon) : Z := journal_u64 (abandon_bytes a) 16.
Definition reason (a : ValidatedJournalAbandon) : Z := journal_u32 (abandon_bytes a) 52.

End Abandon.

(** ** Validators *)

(** [len as u16]. *)
Definition valid_common_header_shape (l : list Z) (len : nat) (kind : Z) : bool :=
  (journal_u16 l 0 =? JOURNAL_VERSION) && (journal_u16 l 2 =? as_u16 (Z.of_nat len))
  && (byte l 4 =? kind) && (journal_u16 l 6 =? 0).

Definition valid_common_header (l : list Z) (len : nat) (kind : Z) : bool :=
  valid_common_header_shape l len kind
  && negb (journal_u64 l 8 =? 0) && negb (journal_u64 l 16 =? 0).

Definition valid_end_identity (flags thread sequence : Z) : bool :=
  if nz (flags &~ (JOURNAL_END_TAIL_ABSENT |' JOURNAL_END_UNJOURNALED)) then false
  else if nz (flags &' JOURNAL_END_UNJOURNALED) then (thread =? 0) && (sequence =? 0)
  else negb (thread =? 0) && negb (sequence =? 0).

Definition valid_word (status word layout : Z) : bool :=
  if OBJECT_HANDLE_STATUS_MAX <? status then false
  else if (layout =? OBJECT_LAYOUT_ILP32) && (U32_MAX <? word) then false
  else if status =? 1 then negb (word =? 0) else word =? 0.

(** The requested lists of a BEGIN under an object row. *)
Definition begin_lists (l : list Z) (r : ObjectDescriptorWire) : bool :=
  forallb (λ pair,
    let p := nth (2 * pair) (row_template_args r) 0 in
    let n := nth (2 * pair + 1) (row_template_args r) 0 in
    let list := slice l (128 + 36 * pair) (128 + 36 * (pair + 1)) in
    Bool.eqb (negb (p =? ARG_NONE)) (negb (n =? ARG_NONE))
    && if negb (negb (p =? ARG_NONE) && negb (n =? ARG_NONE))
       then all_zero list else valid_attribute_list list) (seq 0 2).

Definition begin_row `{FunctionNames} (l : list Z) (function : Z)
    (descriptor : option ObjectDescriptorWire) : bool :=
  match descriptor with
  | Some r =>
      (row_function r =? function)
      && negb (row_action r =? 0) && (row_action r <=? OBJECT_ACTION_MAX)
      && negb (row_guard r =? 0) && (row_guard r <=? OBJECT_GUARD_SCALAR_DERIVE)
      && begin_lists l r
  | None =>
      match object_descriptor function with
      | Some _ => false
      | None => all_zero (slice l 128 200)
      end
  end.

(** Each [if … return None] is a conjunct; [usize::try_from] of a [u32] succeeds
    on the supported 64-bit hosts. *)
Definition validate_begin `{FunctionNames} (l : list Z) (descriptor : option ObjectDescriptorWire)
    : option ValidatedJournalBegin :=
  let layout := byte l 124 in
  let stamp_flags := journal_u16 l 78 in
  let index := journal_u32 l 108 in
  let function := index - 1 in
  if (length l =? JOURNAL_BEGIN_BYTES)%nat
     && valid_common_header l JOURNAL_BEGIN_BYTES JOURNAL_KIND_BEGIN
     && negb (nz (byte l 5 &~ JOURNAL_BEGIN_NO_END))
     && ((layout =? OBJECT_LAYOUT_LP64) || (layout =? OBJECT_LAYOUT_ILP32))
     && valid_word (byte l 125) (journal_u64 l 80) layout
     && valid_word (byte l 126) (journal_u64 l 88) layout
     && valid_word (byte l 127) (journal_u64 l 96) layout
     && negb ((stamp_flags &' STAMP_VALID =? 0) || nz (stamp_flags &~ STAMP_MASK))
     && negb (nz (journal_u32 l 120 &~ CAPTURE_MASK))
     && negb ((index =? 0) || (MAX_DESCRIPTORS <=? index))
     && match function_name function with Some _ => true | None => false end
     && begin_row l function descriptor
     && (journal_u32 l 220 =? 0)
  then Some (mkBegin l) else None.

Definition validate_end (l : list Z) (descriptor : option ObjectDescriptorWire)
    : option ValidatedJournalEnd :=
  if negb (length l =? JOURNAL_END_FULL_BYTES)%nat && negb (length l =? JOURNAL_END_COMPACT_BYTES)%nat
  then None
  else if negb (valid_common_header_shape l (length l) JOURNAL_KIND_END)
          || negb (valid_end_identity (byte l 5) (journal_u64 l 8) (journal_u64 l 16))
  then None
  else
    let tail_absent := nz (byte l 5 &' JOURNAL_END_TAIL_ABSENT) in
    let end_ := mkEnd (l ++ replicate (JOURNAL_END_FULL_BYTES - length l) 0) (length l) in
    let payload := End_.payload_bytes end_ in
    if negb (journal_u32 payload 284 =? EVENT_TYPE_CALL) then None
    else if 1 <? journal_u64 payload 320 then None
    else
      let tail := drop 368 payload in
      if tail_absent then
        if match descriptor with Some _ => true | None => false end || negb (all_zero tail)
        then None else Some end_
      else
        r ← descriptor;
        if negb (validate_object_tail tail r) then None else Some end_.

Definition validate_abandon (l : list Z) : option ValidatedJournalAbandon :=
  if negb (length l =? JOURNAL_ABANDON_BYTES)%nat then None
  else if negb (valid_common_header l JOURNAL_ABANDON_BYTES JOURNAL_KIND_ABANDON) then None
  else if negb (byte l 5 =? 0) then None
  else _ ← reason_name (journal_u32 l 52); Some (mkAbandon l).

Definition end_compact_eligible (payload : list Z) : bool :=
  (Z.of_nat (length payload) =? OBJECT_TAIL_BYTES + 368)
  && all_zero (slice payload COMPACT_OMIT_START COMPACT_OMIT_END).

(** The bytes the slice copies write, in order. *)
Definition pack_compact_end (thread sequence flags : Z) (payload : list Z) : option (list Z) :=
  if negb (valid_end_identity flags thread sequence) then None
  else if negb (end_compact_eligible payload) then None
  else Some (le_bytes 2 JOURNAL_VERSION ++ le_bytes 2 (as_u16 (Z.of_nat JOURNAL_END_COMPACT_BYTES))
             ++ [JOURNAL_KIND_END; flags] ++ [0; 0] ++ le_bytes 8 thread ++ le_bytes 8 sequence
             ++ take COMPACT_OMIT_START payload ++ drop COMPACT_OMIT_END payload).

Inductive JournalRecord :=
| RecordBegin (b : ValidatedJournalBegin)
| RecordEnd (e : ValidatedJournalEnd)
| RecordAbandon (a : ValidatedJournalAbandon).

Definition live_row (index : Z) (descriptors : list ObjectDescriptorWire)
    : option ObjectDescriptorWire :=
  if (index =? 0) || (MAX_DESCRIPTORS <=? index) then None
  else
    let r := row descriptors index in
    if negb (row_action r =? 0) then Some r else None.

Definition compact_tail_index_offset : nat := JOURNAL_COMMON_BYTES + COMPACT_OMIT_START + 48 + 40 + 4.

Definition decode_journal_record `{FunctionNames} (l : list Z)
    (descriptors : list ObjectDescriptorWire) : option JournalRecord :=
  if (length l =? JOURNAL_BEGIN_BYTES)%nat then
    RecordBegin <$> validate_begin l (live_row (journal_u32 l 108) descriptors)
  else if (length l =? JOURNAL_END_FULL_BYTES)%nat || (length l =? JOURNAL_END_COMPACT_BYTES)%nat then
    if nz (byte l 5 &' JOURNAL_END_TAIL_ABSENT) then RecordEnd <$> validate_end l None
    else
      let index := if (length l =? JOURNAL_END_FULL_BYTES)%nat
                   then journal_u32 l (JOURNAL_COMMON_BYTES + 372)
                   else journal_u32 l compact_tail_index_offset in
      RecordEnd <$> validate_end l (live_row index descriptors)
  else if (length l =? JOURNAL_ABANDON_BYTES)%nat then RecordAbandon <$> validate_abandon l
  else None.

(** ** The two forms of END *)

(** The [repr(C)] header with a given length, and the full END record. *)
Definition end_header (len thread sequence flags : Z) : list Z :=
  le_bytes 2 JOURNAL_VERSION ++ le_bytes 2 len ++ [JOURNAL_KIND_END; flags] ++ [0; 0]
  ++ le_bytes 8 thread ++ le_bytes 8 sequence.

Definition full_end (thread sequence flags : Z) (payload : list Z) : list Z :=
  end_header 632 thread sequence flags ++ payload.

(** What END validation asks beyond the header's shape. *)
Definition end_check (flags thread sequence : Z) (payload : list Z)
    (descriptor : option ObjectDescriptorWire) : bool :=
  valid_end_identity flags thread sequence
  && (journal_u32 payload 284 =? EVENT_TYPE_CALL) && (journal_u64 payload 320 <=? 1)
  && if nz (flags &' JOURNAL_END_TAIL_ABSENT)
     then match descriptor with Some _ => false | None => all_zero (drop 368 payload) end
     else match descriptor with Some r => validate_object_tail (drop 368 payload) r | None => false end.

Definition end_of (l : list Z) : ValidatedJournalEnd :=
  mkEnd (l ++ replicate (JOURNAL_END_FULL_BYTES - length l) 0) (length l).

Lemma validate_end_check l d :
  validate_end l d =
    if ((length l =? JOURNAL_END_FULL_BYTES)%nat || (length l =? JOURNAL_END_COMPACT_BYTES)%nat)
       && valid_common_header_shape l (length l) JOURNAL_KIND_END
       && end_check (byte l 5) (journal_u64 l 8) (journal_u64 l 16) (End_.payload_bytes (end_of l)) d
    then Some (end_of l) else None.
Proof.
  unfold validate_end, end_check. fold (end_of l). rewrite <- negb_orb. cbv zeta.
  destruct (_ || _); [|done]. cbn [negb andb].
  destruct (valid_common_header_shape _ _ _); [|done].
  destruct (valid_end_identity _ _ _); [|done]. cbn [negb andb orb].
  destruct (_ =? EVENT_TYPE_CALL); [|done]. cbn [negb andb].
  rewrite Z.ltb_antisym. destruct (_ <=? 1); [|done]. cbn [negb andb].
  destruct (nz _), d; cbn [mbind option_bind orb]; try done; [|by destruct (validate_object_tail _ _)].
  by destruct (all_zero _).
Qed.

Section Forms.
Context (thread sequence flags : Z) (payload packed : list Z).
Context (Ht : is_u64 thread) (Hs : is_u64 sequence).
Context (Hpack : pack_compact_end thread sequence flags payload = Some packed).

Lemma pack_inv :
  packed = end_header 472 thread sequence flags ++ take 120 payload ++ drop 280 payload ∧
  valid_end_identity flags thread sequence = true ∧ length payload = 608%nat ∧
  payload = take 120 payload ++ replicate 160 0 ++ drop 280 payload.
Proof.
  unfold pack_compact_end in Hpack. destruct (valid_end_identity _ _ _); [|done].
  destruct (end_compact_eligible payload) eqn:He; [|done]. cbn [negb] in Hpack.
  injection Hpack as <-. unfold end_compact_eligible in He.
  apply andb_true_iff in He as [Hl Hz]. apply Z.eqb_eq in Hl.
  assert (length payload = 608%nat) as Hlen by (unfold OBJECT_TAIL_BYTES in Hl; lia).
  split_and!; try done.
  rewrite <- (take_drop 120 payload) at 1. f_equal.
  rewrite <- (take_drop 160 (drop 120 payload)) at 1. rewrite drop_drop. f_equal.
  apply all_zero_Forall in Hz. unfold slice in Hz.
  apply (list_eq_same_length _ _ 160); rewrite ?length_replicate, ?length_take, ?length_drop; [lia..|].
  intros i x y Hi Hx Hy. apply lookup_replicate in Hy as [-> _].
  exact (Forall_lookup_1 _ _ _ _ Hz Hx).
Qed.
Lemma header_reads len body :
  is_u16 len →
  let l := end_header len thread sequence flags ++ body in
  valid_common_header_shape l (Z.to_nat len) JOURNAL_KIND_END = true ∧
  byte l 5 = flags ∧ journal_u64 l 8 = thread ∧ journal_u64 l 16 = sequence.
Proof.
  intros Hlen. cbn zeta. split_and!; [|done|..].
  - unfold valid_common_header_shape. rewrite !andb_true_iff. split_and!; try done.
    apply Z.eqb_eq. transitivity (le_word (le_bytes 2 len)); [reflexivity|].
    rewrite le_word_width by done. unfold as_u16. rewrite Z2Nat.id by (width; lia).
    symmetry. by apply wrap_small.
  - transitivity (le_word (le_bytes 8 thread)); [reflexivity | by apply le_word_width].
  - transitivity (le_word (le_bytes 8 sequence)); [reflexivity | by apply le_word_width].
Qed.

Lemma full_form : 
  let l := full_end thread sequence flags payload in
  length l = 632%nat ∧ End_.payload_bytes (end_of l) = payload ∧
  journal_u32 l (JOURNAL_COMMON_BYTES + 372) = journal_u32 payload 372.
Proof.
  destruct pack_inv as (_ & _ & Hl & _). cbn zeta.
  assert (Hn : length (full_end thread sequence flags payload) = 632%nat).
  { unfold full_end. rewrite length_app, Hl. reflexivity. }
  split_and!; [done|..].
  - unfold End_.payload_bytes, End_.compact, end_of. cbn [raw raw_len]. rewrite Hn.
    cbn [Nat.eqb JOURNAL_END_COMPACT_BYTES]. unfold full_end. rewrite <- app_assoc.
    apply slice_app; [reflexivity|]. rewrite Hl. reflexivity.
  - unfold journal_u32, full_end. rewrite !byte_skip by (cbn; lia). reflexivity.
Qed.

Lemma compact_form :
  length packed = 472%nat ∧ End_.payload_bytes (end_of packed) = payload ∧
  journal_u32 packed compact_tail_index_offset = journal_u32 payload 372.
Proof.
  destruct pack_inv as (-> & _ & Hl & Hp).
  assert (H1 : length (take 120 payload) = 120%nat) by (rewrite length_take; lia).
  assert (H2 : length (drop 280 payload) = 328%nat) by (rewrite length_drop; lia).
  set (pre := take 120 payload) in *. set (post := drop 280 payload) in *.
  assert (Hn : length (end_header 472 thread sequence flags ++ pre ++ post) = 472%nat).
  { rewrite !length_app, H1, H2. reflexivity. }
  split_and!; [done|..].
  - unfold End_.payload_bytes, End_.compact, end_of. cbn [raw raw_len]. rewrite Hn.
    cbn [Nat.eqb JOURNAL_END_COMPACT_BYTES]. rewrite Hp at 1. f_equal; [|f_equal].
    + rewrite <- app_assoc, <- app_assoc. apply slice_app; [reflexivity|]. rewrite H1. reflexivity.
    + rewrite app_assoc, <- app_assoc. apply slice_app; rewrite ?length_app, ?H1, ?H2; reflexivity.
  - rewrite Hp. unfold journal_u32. rewrite !byte_skip by (rewrite ?H1; cbn; lia).
    rewrite !H1, length_replicate. reflexivity.
Qed.

End Forms.

(** The two forms of one END, decoded. *)
Definition same_end (thread sequence : Z) (payload : list Z) (c f : ValidatedJournalEnd) : Prop :=
  End_.compact c = true ∧ End_.compact f = false ∧
  End_.payload_bytes c = payload ∧ End_.payload_bytes f = payload ∧
  End_.thread c = thread ∧ End_.thread f = thread ∧
  End_.sequence c = sequence ∧ End_.sequence f = sequence ∧
  End_.tail_absent c = End_.tail_absent f ∧ End_.unjournaled c = End_.unjournaled f.

Lemma end_of_reads (len thread sequence flags : Z) body :
  is_u64 thread → is_u64 sequence → is_u16 len →
  let e := end_of (end_header len thread sequence flags ++ body) in
  End_.thread e = thread ∧ End_.sequence e = sequence ∧
  End_.tail_absent e = nz (flags &' JOURNAL_END_TAIL_ABSENT) ∧
  End_.unjournaled e = nz (flags &' JOURNAL_END_UNJOURNALED).
Proof.
  intros Ht Hs Hl. unfold end_of, End_.thread, End_.sequence, End_.tail_absent, End_.unjournaled.
  cbn [raw]. rewrite <- app_assoc.
  by destruct (header_reads thread sequence flags Ht Hs len
    (body ++ replicate (JOURNAL_END_FULL_BYTES - length (end_header len thread sequence flags ++ body)) 0) Hl)
    as (_ & -> & -> & ->).
Qed.

(** The word that selects the row of an END. *)
Definition end_index (l : list Z) : Z :=
  if (length l =? JOURNAL_END_FULL_BYTES)%nat then journal_u32 l (JOURNAL_COMMON_BYTES + 372)
  else journal_u32 l compact_tail_index_offset.

(** The row the decoder validates an END against. *)
Definition end_row (flags index : Z) (rows : list ObjectDescriptorWire) : option ObjectDescriptorWire :=
  if nz (flags &' JOURNAL_END_TAIL_ABSENT) then None else live_row index rows.

Lemma decode_end `{FunctionNames} l rows :
  length l = 632%nat ∨ length l = 472%nat →
  decode_journal_record l rows =
    if valid_common_header_shape l (length l) JOURNAL_KIND_END
       && end_check (byte l 5) (journal_u64 l 8) (journal_u64 l 16)
            (End_.payload_bytes (end_of l)) (end_row (byte l 5) (end_index l) rows)
    then Some (RecordEnd (end_of l)) else None.
Proof.
  intros Hl. unfold decode_journal_record, end_row, end_index. rewrite !validate_end_check.
  destruct Hl as [-> | ->]; cbn [Nat.eqb orb andb JOURNAL_BEGIN_BYTES JOURNAL_END_FULL_BYTES
    JOURNAL_END_COMPACT_BYTES]; destruct (nz _); by destruct (_ && _).
Qed.

(** C22: The compact END form is faithful.  When a completed payload can be
    packed, the ring decoder accepts the compact record if and only if it
    accepts the full record with the same key, flags and payload, against any
    descriptor table; both decode to the same key and flags, and the payload
    reconstructed from each is byte for byte the original 608 bytes. *)
Theorem compact_end_equivalent `{FunctionNames} thread sequence flags payload packed rows :
  is_u64 thread → is_u64 sequence →
  pack_compact_end thread sequence flags payload = Some packed →
  match decode_journal_record packed rows,
        decode_journal_record (full_end thread sequence flags payload) rows with
  | Some (RecordEnd c), Some (RecordEnd f) => same_end thread sequence payload c f
  | None, None => True
  | _, _ => False
  end.
Proof.
  intros Ht Hs Hp.
  destruct (full_form _ _ _ _ _ Hp) as (LF & PF & IF).
  destruct (compact_form _ _ _ _ _ Hp) as (LC & PC & IC).
  destruct (pack_inv _ _ _ _ _ Hp) as (E & _ & _ & _).
  destruct (header_reads thread sequence flags Ht Hs 472 (take 120 payload ++ drop 280 payload)
    ltac:(width; lia)) as (SC & C5 & C8 & C16).
  destruct (header_reads thread sequence flags Ht Hs 632 payload ltac:(width; lia))
    as (SF & F5 & F8 & F16).
  rewrite <- E in SC, C5, C8, C16. fold (full_end thread sequence flags payload) in SF, F5, F8, F16.
  rewrite !decode_end by auto. unfold end_index.
  rewrite LC, LF, C5, F5, C8, F8, C16, F16, PC, PF. rewrite (SC : _ packed 472%nat _ = _).
  rewrite (SF : _ _ 632%nat _ = _). cbn [Nat.eqb JOURNAL_END_FULL_BYTES]. rewrite IC, IF.
  destruct (_ && _); [|done]. unfold same_end. rewrite PC, PF.
  pose proof (end_of_reads 632 thread sequence flags payload Ht Hs ltac:(width; lia)) as RF.
  pose proof (end_of_reads 472 thread sequence flags (take 120 payload ++ drop 280 payload) Ht Hs
    ltac:(width; lia)) as RC.
  rewrite <- E in RC. fold (full_end thread sequence flags payload) in RF.
  destruct RC as (-> & -> & -> & ->), RF as (-> & -> & -> & ->).
  unfold End_.compact, end_of. cbn [raw_len]. by rewrite LC, LF.
Qed.

(** A Find of two objects, completed with key (5, 7). *)
Definition demo_payload : list Z := replicate 368 0 ++ call_bytes find_tail.

Definition demo_packed : list Z :=
  end_header 472 5 7 0 ++ take 120 demo_payload ++ drop 280 demo_payload.

Lemma compact_end_equivalent_witness :
  same_end 5 7 demo_payload (end_of demo_packed) (end_of (full_end 5 7 0 demo_payload)).
Proof.
  pose proof (@compact_end_equivalent two_names 5 7 0 demo_payload demo_packed
    (@publish_object_descriptors two_names) ltac:(width; lia) ltac:(width; lia)
    ltac:(vm_compute; reflexivity)) as H.
  replace (decode_journal_record demo_packed _) with (Some (RecordEnd (end_of demo_packed))) in H
    by (vm_compute; reflexivity).
  replace (decode_journal_record (full_end 5 7 0 demo_payload) _)
    with (Some (RecordEnd (end_of (full_end 5 7 0 demo_payload)))) in H by (vm_compute; reflexivity).
  exact H.
Defined.

(** ** What a decoded record guarantees *)

Section Sound.
Context `{FunctionNames}.

(** One requested list of a BEGIN, by the template of the function. *)
Definition requested_sound (b : ValidatedJournalBegin) (i : nat) : Prop :=
  match object_descriptor (Begin.descriptor b - 1) with
  | None => all_zero (Begin.requested_pair b i) = true
  | Some d =>
      match template_args d !! i with
      | None => False
      | Some (p, _) =>
          if bool_decide (p = ARG_NONE) then all_zero (Begin.requested_pair b i) = true
          else valid_attribute_list (Begin.requested_pair b i) = true
      end
  end.

Record begin_sound (b : ValidatedJournalBegin) : Prop := {
  bs_key : Begin.thread b ≠ 0 ∧ Begin.sequence b ≠ 0;
  bs_function : 1 <= Begin.descriptor b < MAX_DESCRIPTORS ∧
                is_Some (function_name (Begin.descriptor b - 1));
  bs_session : handle_ok (Begin.layout b) (Begin.session_status b) (Begin.session_word b);
  bs_inputs : ∀ i, (i < 2)%nat →
    handle_ok (Begin.layout b) (Begin.input_status b i) (Begin.input_word b i);
  bs_requested : ∀ i, (i < 2)%nat → requested_sound b i;
}.

Record end_sound (e : ValidatedJournalEnd) : Prop := {
  es_length : length (End_.payload_bytes e) = 608%nat;
  es_key : (End_.unjournaled e = true ↔ End_.thread e = 0) ∧
           (End_.thread e = 0 ↔ End_.sequence e = 0);
  es_tail :
    if End_.tail_absent e then all_zero (End_.payload_tail e) = true
    else
      let function := tail_u32 (End_.payload_tail e) 4 - 1 in
      is_Some (object_descriptor function) ∧
      validate_object_tail (End_.payload_tail e) (canonical_object_wire function) = true;
}.

Definition abandon_sound (a : ValidatedJournalAbandon) : Prop :=
  Abandon.thread a ≠ 0 ∧ Abandon.sequence a ≠ 0 ∧ 1 <= Abandon.reason a <= 9.

Lemma live_row_verified rows i :
  verify_object_descriptors rows = true → 0 <= i →
  live_row i rows =
    if bool_decide (1 <= i < MAX_DESCRIPTORS ∧ is_Some (object_descriptor (i - 1)))
    then Some (canonical_object_wire (i - 1)) else None.
Proof.
  intros Hv Hi. unfold live_row.
  destruct (Z.eqb_spec i 0), (Z.leb_spec MAX_DESCRIPTORS i); cbn [orb];
    try (rewrite bool_decide_false by lia; done).
  rewrite (verified_rows rows i Hv) by lia. cbv zeta.
  destruct (object_descriptor (i - 1)) as [d|] eqn:Ed.
  - destruct (canonical_some _ d Ed) as (_ & Ha & _). rewrite bool_decide_true by (split; [lia|done]).
    rewrite (proj2 (Z.eqb_neq _ _)) by lia. done.
  - rewrite (canonical_none _ Ed), bool_decide_false by (intros [_ [? ?]]; done). done.
Qed.

Lemma valid_word_ok status word l : valid_word status word l = true ↔ handle_ok l status word.
Proof.
  rewrite <- handle_check_ok. unfold valid_word, valid_handle_word.
  destruct (Z.ltb_spec OBJECT_HANDLE_STATUS_MAX status); intuition (done || lia).
Qed.

Lemma journal_u32_range l o : Forall is_byte l → 0 <= journal_u32 l o.
Proof.
  intros Hl. apply le_word_range. assert (Hb : ∀ k, is_byte (byte l k)).
  { intros k. unfold byte. destruct (nth_lookup_or_length l k 0) as [Hk|Hk].
    - exact (Forall_lookup_1 _ _ _ _ Hl Hk).
    - rewrite nth_overflow by done. unfold is_byte. lia. }
  by repeat constructor; apply Hb.
Qed.

Lemma descriptor_templates function d :
  object_descriptor function = Some d →
  ∃ p0 n0 p1 n1, template_args d = [(p0, n0); (p1, n1)].
Proof.
  unfold object_descriptor. destruct (function_name function) as [name|]; [|done]. cbn. intros Hd.
  destruct (named_descriptor_ok name d Hd) as [_ _ [Ht _] _ _ _ _].
  destruct (template_args d) as [|[p0 n0] [|[p1 n1] [|]]]; try done. eauto.
Qed.

Lemma zero_pairs l i :
  (i < 2)%nat → all_zero (slice l 128 200) = true →
  all_zero (Begin.requested_pair (mkBegin l) i) = true.
Proof.
  intros Hi. rewrite !all_zero_Forall. unfold Begin.requested_pair, slice. cbn [begin_bytes].
  rewrite Nat.mod_small by done. intros Hz.
  assert (E : take (128 + 36 * i + 36 - (128 + 36 * i)) (drop (128 + 36 * i) l) =
    take 36 (drop (36 * i) (take (200 - 128) (drop 128 l)))).
  { rewrite <- drop_drop, !take_drop_commute, take_take. do 3 f_equal. lia. }
  rewrite E. by apply Forall_take, Forall_drop.
Qed.

Lemma begin_row_requested l i :
  (i < 2)%nat → 1 <= journal_u32 l 108 < MAX_DESCRIPTORS →
  begin_row l (journal_u32 l 108 - 1)
    (if bool_decide (1 <= journal_u32 l 108 < MAX_DESCRIPTORS ∧
                     is_Some (object_descriptor (journal_u32 l 108 - 1)))
     then Some (canonical_object_wire (journal_u32 l 108 - 1)) else None) = true →
  requested_sound (mkBegin l) i.
Proof.
  intros Hi Hr. unfold requested_sound, Begin.descriptor. cbn [begin_bytes].
  destruct (object_descriptor (journal_u32 l 108 - 1)) as [d|] eqn:Ed.
  - rewrite bool_decide_true by (split; [lia|done]). cbn [begin_row].
    rewrite !andb_true_iff. intros [_ Hlists]. unfold begin_lists in Hlists.
    rewrite forallb_seq in Hlists. specialize (Hlists i Hi). revert Hlists.
    destruct (descriptor_templates _ d Ed) as (p0 & n0 & p1 & n1 & Et).
    unfold canonical_object_wire. rewrite Ed, Et. cbn [row_template_args].
    rewrite andb_true_iff. unfold Begin.requested_pair. rewrite Nat.mod_small by done.
    replace (128 + 36 * (i + 1))%nat with (128 + 36 * i + 36)%nat by lia. cbn [begin_bytes].
    destruct i as [|[|]]; [..|lia]; cbn [nth Nat.mul Nat.add concat fmap list_fmap app lookup list_lookup fst snd].
    all: case_bool_decide as Hp; [rewrite Hp, Z.eqb_refl | rewrite (proj2 (Z.eqb_neq _ _) Hp)];
      cbn [negb andb]; [tauto|]; intros [Hn Hv]; destruct (_ =? ARG_NONE); done.
  - rewrite bool_decide_false by (intros [_ [? ?]]; done). cbn [begin_row]. rewrite Ed.
    by apply zero_pairs.
Qed.

Lemma begin_sound_intro l b rows :
  Forall is_byte l → verify_object_descriptors rows = true →
  validate_begin l (live_row (journal_u32 l 108) rows) = Some b → begin_bytes b = l ∧ begin_sound b.
Proof.
  intros Hl Hv Hb. pose proof (journal_u32_range l 108 Hl) as Hpos.
  rewrite (live_row_verified _ _ Hv Hpos) in Hb.
  unfold validate_begin, valid_common_header in Hb. cbv zeta in Hb.
  destruct (_ && _) eqn:E in Hb; [|done]. injection Hb as <-. split; [done|].
  rewrite !andb_true_iff, !valid_word_ok in E. destruct_and! E. bprop. destruct_and?.
  assert (1 <= journal_u32 l 108 < MAX_DESCRIPTORS) by lia.
  split; unfold Begin.thread, Begin.sequence, Begin.descriptor; cbn [begin_bytes]; auto.
  - split; [done|]. destruct (function_name _); done.
  - intros [|[|i]] Hi; [done|done|lia].
  - intros i Hi. by apply begin_row_requested.
Qed.

Lemma end_of_header l :
  (24 <= length l)%nat →
  byte (raw (end_of l)) 5 = byte l 5 ∧ End_.thread (end_of l) = journal_u64 l 8 ∧
  End_.sequence (end_of l) = journal_u64 l 16.
Proof.
  intros Hl. unfold End_.thread, End_.sequence, journal_u64, end_of. cbn [raw].
  by rewrite !byte_app_l by lia.
Qed.

Lemma end_payload_length l :
  length l = 632%nat ∨ length l = 472%nat → length (End_.payload_bytes (end_of l)) = 608%nat.
Proof.
  intros Hl. unfold End_.payload_bytes, End_.compact, end_of, slice. cbn [raw raw_len].
  destruct Hl as [E|E]; rewrite E; cbn [Nat.eqb JOURNAL_END_COMPACT_BYTES];
    rewrite ?length_app, ?length_replicate, !length_take, !length_drop, !length_app, E, !length_replicate;
    reflexivity.
Qed.

Lemma end_sound_intro l rows :
  Forall is_byte l → verify_object_descriptors rows = true →
  length l = 632%nat ∨ length l = 472%nat →
  end_check (byte l 5) (journal_u64 l 8) (journal_u64 l 16)
    (End_.payload_bytes (end_of l)) (end_row (byte l 5) (end_index l) rows) = true →
  End_.raw_bytes (end_of l) = l ∧ end_sound (end_of l).
Proof.
  intros Hb Hv Hl Hc. split; [by apply take_app_length|].
  destruct (end_of_header l ltac:(lia)) as (E5 & E8 & E16).
  unfold end_check in Hc. rewrite !andb_true_iff in Hc. destruct Hc as (((Hid & _) & _) & Ht).
  split; [by apply end_payload_length|..].
  - unfold End_.unjournaled. rewrite E5, E8, E16. unfold valid_end_identity in Hid.
    destruct (nz (byte l 5 &~ _)); [done|]. destruct (nz _); bprop; intuition done.
  - unfold End_.tail_absent. rewrite E5. unfold end_row in Ht. cbv zeta.
    destruct (nz (byte l 5 &' JOURNAL_END_TAIL_ABSENT)); [done|].
    assert (Hi : 0 <= end_index l) by (unfold end_index; destruct (_ =? _)%nat; by apply journal_u32_range).
    rewrite (live_row_verified rows _ Hv Hi) in Ht.
    case_bool_decide as Hrow; [|done]. destruct Hrow as (_ & d & Hd).
    assert (Ef : tail_u32 (End_.payload_tail (end_of l)) 4 = end_index l).
    { destruct (canonical_some _ d Hd) as (Hf & _). pose proof Ht as Hval.
      unfold validate_object_tail in Hval. rewrite !andb_true_iff in Hval. destruct_and! Hval.
      bprop. unfold End_.payload_tail. lia. }
    rewrite Ef. split; [by exists d|done].
Qed.

Lemma abandon_sound_intro l a :
  validate_abandon l = Some a → abandon_bytes a = l ∧ abandon_sound a.
Proof.
  unfold validate_abandon, valid_common_header. destruct (_ =? _)%nat; [|done].
  destruct (valid_common_header_shape _ _ _); [|done]. cbn [negb andb].
  destruct (Z.eqb_spec (journal_u64 l 8) 0), (Z.eqb_spec (journal_u64 l 16) 0); try done. cbn [negb andb].
  destruct (_ =? 0); [|done]. cbn [negb].
  destruct (reason_name (journal_u32 l 52)) eqn:Er; [|done]. cbn. intros [= <-].
  split; [done|]. unfold abandon_sound, Abandon.reason. cbn [abandon_bytes]. split_and!; try done.
  all: revert Er; unfold reason_name, JOURNAL_REASON_ENTRY_COLLISION, JOURNAL_REASON_INSERT_FAILED,
    JOURNAL_REASON_SCOPE_LOST, JOURNAL_REASON_ABI_REFUSED, JOURNAL_REASON_IDENTITY_REFUSED,
    JOURNAL_REASON_EXEC_EXIT, JOURNAL_REASON_STOP_CLEANUP, JOURNAL_REASON_PARTIAL_TRANSACTION,
    JOURNAL_REASON_SYNC_RETURN_RESULT_LOST; zif; lia || done.
Qed.

(** C33: Whatever bytes arrive, a record the journal decoder accepts against a
    verified table keeps exactly those bytes and is what its kind promises.  A
    BEGIN has a nonzero key, names a known function, carries session and input
    words that agree with their statuses, and has an attribute list only where
    that function's descriptor has a template.  An END reconstructs a 608-byte
    payload, has a zero key exactly when it is marked unjournaled, and its tail
    is absent and zero or valid for the canonical row of the function it names,
    wherever the form put the index.  An ABANDON has a nonzero key and one of
    the nine reasons. *)
Theorem decode_journal_record_sound rows l r :
  Forall is_byte l → verify_object_descriptors rows = true →
  decode_journal_record l rows = Some r →
  match r with
  | RecordBegin b => begin_bytes b = l ∧ begin_sound b
  | RecordEnd e => End_.raw_bytes e = l ∧ end_sound e
  | RecordAbandon a => abandon_bytes a = l ∧ abandon_sound a
  end.
Proof.
  intros Hl Hv Hr. destruct (decide (length l = 632%nat ∨ length l = 472%nat)) as [He|He].
  - rewrite (decode_end l rows He) in Hr. destruct (_ && _) eqn:E; [|done].
    apply andb_true_iff in E as [_ E]. injection Hr as <-. by apply (end_sound_intro l rows).
  - unfold decode_journal_record in Hr.
    destruct (Nat.eqb_spec (length l) JOURNAL_BEGIN_BYTES) as [_|_].
    { destruct (validate_begin _ _) as [b|] eqn:Eb; [|done]. injection Hr as <-.
      by apply (begin_sound_intro l b rows). }
    rewrite (proj2 (Nat.eqb_neq (length l) _)), (proj2 (Nat.eqb_neq (length l) _)) in Hr
      by (unfold JOURNAL_END_FULL_BYTES, JOURNAL_END_COMPACT_BYTES; lia).
    cbn [orb] in Hr. destruct (_ =? _)%nat; [|done].
    destruct (validate_abandon l) as [a|] eqn:Ea; [|done]. injection Hr as <-.
    by apply abandon_sound_intro.
Qed.

End Sound.

Lemma bytes_checked l : forallb (λ b, (0 <=? b) && (b <? 256)) l = true → Forall is_byte l.
Proof.
  rewrite forallb_forall, List.Forall_forall. intros Hl b Hb. specialize (Hl b Hb).
  unfold is_byte. bprop. lia.
Qed.

Lemma decode_journal_record_sound_witness : @end_sound two_names (end_of demo_packed).
Proof.
  refine (proj2 (@decode_journal_record_sound two_names (@publish_object_descriptors two_names)
    demo_packed (RecordEnd (end_of demo_packed)) _ _ _)).
  - apply bytes_checked. vm_compute. reflexivity.
  - vm_compute. reflexivity.
  - vm_compute. reflexivity.
Defined.
