(* ===== verification/Scheduler.v ===== *)
(** * Bounded discovery scheduling

    [src/discovery/scheduler.rs]: the per-capture schedule of discovery work:
    the reconcile and polling cadences, the round-robin cursors, the eviction
    cooldown, the alternation of scan classes, the tick deadline and the
    fairness checkpoint.  A method on [&mut self] returns the new state.  Pid
    lists are sorted ascending, as the callers guarantee. *)
From stdpp Require Import sorting.
From S2P Require Import Prelude Bytes.
Open Scope Z_scope.

Definition RECONCILE_EVERY_N_OVER_CAP_PASSES : Z := 2.
Definition UNDER_CAP_POLL_EVERY_N_TICKS : Z := 4.
Definition RECONCILE_SLICE_PIDS : Z := 64.
Definition RECONCILE_QUANTUM_NS : Z := 50000000.
Definition MAX_EXPLORATORY_EVICTIONS_PER_PASS : Z := 32.
Definition RECONCILE_EVICTION_COOLDOWN_SWEEPS : Z := 2.
Definition MAX_NEW_VIEWS_PER_TICK : Z := 64.
Definition TICK_DEEP_SCAN_QUANTUM_NS : Z := 200000000.

Inductive InventoryCadence := OrdinaryPass | Reconcile.

Inductive InventoryScanClass := Retained | Newcomer.

#[export] Instance InventoryScanClass_eq_dec : EqDecision InventoryScanClass.
Proof. solve_decision. Defined.

Record FairnessCheckpoint := mkCheckpoint {
  fc_over_cap_passes : Z;
  fc_cursor : option Z;
  fc_reconcile_sweeps : Z;
  fc_new_view_cursor : option Z;
  fc_retained_view_cursor : option Z;
  fc_first_scan_class : InventoryScanClass;
  fc_tick_scan_started : bool;
  fc_tick_deadline_ns : option Z;
  fc_under_cap_ticks : Z;
  fc_poll_cursor : option Z;
}.

Record DiscoveryScheduler := mkScheduler {
  over_cap_passes : Z;
  cursor : option Z;
  quantum_ns : Z;
  slice_pids : Z;
  reconcile_sweeps : Z;
  cooling : gmap Z Z;
  max_evictions : Z;
  cooldown_sweeps : Z;
  max_new_views : Z;
  new_view_cursor : option Z;
  retained_view_cursor : option Z;
  first_scan_class : InventoryScanClass;
  tick_scan_started : bool;
  tick_quantum_ns : Z;
  under_cap_ticks : Z;
  poll_cursor : option Z;
  tick_deadline_ns : option Z;
}.

Definition scheduler_new : DiscoveryScheduler := {|
  over_cap_passes := 0;
  cursor := None;
  quantum_ns := RECONCILE_QUANTUM_NS;
  slice_pids := RECONCILE_SLICE_PIDS;
  reconcile_sweeps := 0;
  cooling := ∅;
  max_evictions := MAX_EXPLORATORY_EVICTIONS_PER_PASS;
  cooldown_sweeps := RECONCILE_EVICTION_COOLDOWN_SWEEPS;
  max_new_views := MAX_NEW_VIEWS_PER_TICK;
  new_view_cursor := None;
  retained_view_cursor := None;
  first_scan_class := Retained;
  tick_scan_started := false;
  tick_quantum_ns := TICK_DEEP_SCAN_QUANTUM_NS;
  under_cap_ticks := 0;
  poll_cursor := None;
  tick_deadline_ns := None;
|}.

(** Field updates. *)
Definition set_passes (v w : Z) (s : DiscoveryScheduler) : DiscoveryScheduler :=
  let 'mkScheduler _ b c d _ f g h i j k l m n o p q := s in
  mkScheduler v b c d w f g h i j k l m n o p q.
Definition set_cursor (v : option Z) (s : DiscoveryScheduler) : DiscoveryScheduler :=
  let 'mkScheduler a _ c d e f g h i j k l m n o p q := s in
  mkScheduler a v c d e f g h i j k l m n o p q.
Definition set_cooling (v : gmap Z Z) (s : DiscoveryScheduler) : DiscoveryScheduler :=
  let 'mkScheduler a b c d e _ g h i j k l m n o p q := s in
  mkScheduler a b c d e v g h i j k l m n o p q.
Definition set_new_view_cursor (v : option Z) (s : DiscoveryScheduler) : DiscoveryScheduler :=
  let 'mkScheduler a b c d e f g h i _ k l m n o p q := s in
  mkScheduler a b c d e f g h i v k l m n o p q.
Definition set_retained_view_cursor (v : option Z) (s : DiscoveryScheduler) : DiscoveryScheduler :=
  let 'mkScheduler a b c d e f g h i j _ l m n o p q := s in
  mkScheduler a b c d e f g h i j v l m n o p q.
Definition set_scan_class (v : InventoryScanClass) (w : bool) (s : DiscoveryScheduler)
    : DiscoveryScheduler :=
  let 'mkScheduler a b c d e f g h i j k _ _ n o p q := s in
  mkScheduler a b c d e f g h i j k v w n o p q.
Definition set_under_cap_ticks (v : Z) (s : DiscoveryScheduler) : DiscoveryScheduler :=
  let 'mkScheduler a b c d e f g h i j k l m n _ p q := s in
  mkScheduler a b c d e f g h i j k l m n v p q.
Definition set_poll_cursor (v : option Z) (s : DiscoveryScheduler) : DiscoveryScheduler :=
  let 'mkScheduler a b c d e f g h i j k l m n o _ q := s in
  mkScheduler a b c d e f g h i j k l m n o v q.
Definition set_tick_deadline (v : option Z) (s : DiscoveryScheduler) : DiscoveryScheduler :=
  let 'mkScheduler a b c d e f g h i j k l m n o p _ := s in
  mkScheduler a b c d e f g h i j k l m n o p v.

(** [u64::is_multiple_of] with a nonzero divisor. *)
Definition is_multiple_of (x n : Z) : bool := x mod n =? 0.

Definition begin_over_cap_pass (s : DiscoveryScheduler) : InventoryCadence * DiscoveryScheduler :=
  let passes := saturating_add 64 (over_cap_passes s) 1 in
  if is_multiple_of passes RECONCILE_EVERY_N_OVER_CAP_PASSES then
    (Reconcile, set_passes passes (saturating_add 64 (reconcile_sweeps s) 1) s)
  else (OrdinaryPass, set_passes passes (reconcile_sweeps s) s).

Definition note_evicted (pid : Z) (s : DiscoveryScheduler) : DiscoveryScheduler :=
  set_cooling (<[pid := reconcile_sweeps s]> (cooling s)) s.

Definition note_admitted (pid : Z) (s : DiscoveryScheduler) : DiscoveryScheduler :=
  set_cooling (delete pid (cooling s)) s.

Definition prune_stale_to_enumerated (enumerated : gset Z) (s : DiscoveryScheduler)
    : DiscoveryScheduler :=
  set_cooling (filter (λ kv, kv.1 ∈ enumerated) (cooling s)) s.

Definition cooling_down (s : DiscoveryScheduler) (pid : Z) : bool :=
  match cooling s !! pid with
  | Some evicted_at => saturating_sub (reconcile_sweeps s) evicted_at <? cooldown_sweeps s
  | None => false
  end.

Definition stale_pids (s : DiscoveryScheduler) : list Z := merge_sort Z.le (elements (dom (cooling s))).

Definition cooling_len (s : DiscoveryScheduler) : Z :=
  Z.of_nat (length (filter
    (λ kv : Z * Z, saturating_sub (reconcile_sweeps s) kv.2 < cooldown_sweeps s)
    (map_to_list (cooling s)))).

Definition rotation_window (pids : list Z) (exclude : gset Z) (slots : nat) : list Z :=
  take slots (filter (λ pid, pid ∉ exclude) pids).

Definition rotated_after (pids : list Z) (c : option Z) : list Z :=
  match c with
  | None => pids
  | Some c =>
      let start := partition_point (λ pid, pid <=? c) pids in
      drop start pids ++ take start pids
  end.

Definition new_view_order (s : DiscoveryScheduler) (pids : list Z) : list Z :=
  rotated_after pids (new_view_cursor s).

(** [Iterator::partition] keeps the order of both halves. *)
Definition new_view_order_pending_first (s : DiscoveryScheduler) (pids : list Z) (pending : gset Z)
    : list Z :=
  rotated_after (filter (λ pid, pid ∈ pending) pids) (new_view_cursor s)
  ++ rotated_after (filter (λ pid, pid ∉ pending) pids) (new_view_cursor s).

Definition note_scan_attempt (class : InventoryScanClass) (s : DiscoveryScheduler)
    : DiscoveryScheduler :=
  if tick_scan_started s then s
  else set_scan_class (match class with Retained => Newcomer | Newcomer => Retained end) true s.

Definition note_new_view_attempt (pid : Z) (s : DiscoveryScheduler) : DiscoveryScheduler :=
  note_scan_attempt Newcomer (set_new_view_cursor (Some pid) s).

Definition retained_view_order (s : DiscoveryScheduler) (ids : list Z) : list Z :=
  rotated_after ids (retained_view_cursor s).

Definition note_retained_view_attempt (id : Z) (s : DiscoveryScheduler) : DiscoveryScheduler :=
  note_scan_attempt Retained (set_retained_view_cursor (Some id) s).

Definition newcomers_first (s : DiscoveryScheduler) (retained_ready newcomer_ready : bool) : bool :=
  newcomer_ready && (negb retained_ready || bool_decide (first_scan_class s = Newcomer)).

Definition begin_under_cap_tick (s : DiscoveryScheduler) : bool * DiscoveryScheduler :=
  let ticks := saturating_add 64 (under_cap_ticks s) 1 in
  (is_multiple_of ticks UNDER_CAP_POLL_EVERY_N_TICKS, set_under_cap_ticks ticks s).

Definition poll_order (s : DiscoveryScheduler) (pids : list Z) : list Z :=
  rotated_after pids (poll_cursor s).

Definition advance_poll_cursor (last_queued : Z) (s : DiscoveryScheduler) : DiscoveryScheduler :=
  set_poll_cursor (Some last_queued) s.

Definition begin_deep_scan_tick (now_ns : option Z) (s : DiscoveryScheduler) : DiscoveryScheduler :=
  set_tick_deadline
    (Some match now_ns with Some now => saturating_add 64 now (tick_quantum_ns s) | None => 0 end)
    (set_scan_class (first_scan_class s) false s).

Definition tick_expired (s : DiscoveryScheduler) (now_ns : option Z) : bool :=
  match tick_deadline_ns s, now_ns with
  | Some deadline, Some now => deadline <=? now
  | Some _, None => true
  | None, _ => false
  end.

Definition advance_cursor (last_read : Z) (s : DiscoveryScheduler) : DiscoveryScheduler :=
  set_cursor (Some last_read) s.

Definition fairness_checkpoint (s : DiscoveryScheduler) : FairnessCheckpoint :=
  mkCheckpoint (over_cap_passes s) (cursor s) (reconcile_sweeps s) (new_view_cursor s)
    (retained_view_cursor s) (first_scan_class s) (tick_scan_started s) (tick_deadline_ns s)
    (under_cap_ticks s) (poll_cursor s).

Definition restore_fairness (c : FairnessCheckpoint) (s : DiscoveryScheduler) : DiscoveryScheduler :=
  {| over_cap_passes := fc_over_cap_passes c;
     cursor := fc_cursor c;
     quantum_ns := quantum_ns s;
     slice_pids := slice_pids s;
     reconcile_sweeps := fc_reconcile_sweeps c;
     cooling := cooling s;
     max_evictions := max_evictions s;
     cooldown_sweeps := cooldown_sweeps s;
     max_new_views := max_new_views s;
     new_view_cursor := fc_new_view_cursor c;
     retained_view_cursor := fc_retained_view_cursor c;
     first_scan_class := fc_first_scan_class c;
     tick_scan_started := fc_tick_scan_started c;
     tick_quantum_ns := tick_quantum_ns s;
     under_cap_ticks := fc_under_cap_ticks c;
     poll_cursor := fc_poll_cursor c;
     tick_deadline_ns := fc_tick_deadline_ns c |}.

(** ** Runs of the schedule *)

Inductive op :=
| OverCapPass
| Evict (pid : Z)
| Admit (pid : Z)
| Prune (enumerated : gset Z)
| NewAttempt (pid : Z)
| RetainedAttempt (id : Z)
| UnderCapTick
| AdvancePoll (pid : Z)
| BeginTick (now : option Z)
| AdvanceCursor (pid : Z).

Definition step (o : op) (s : DiscoveryScheduler) : DiscoveryScheduler :=
  match o with
  | OverCapPass => (begin_over_cap_pass s).2
  | Evict pid => note_evicted pid s
  | Admit pid => note_admitted pid s
  | Prune enumerated => prune_stale_to_enumerated enumerated s
  | NewAttempt pid => note_new_view_attempt pid s
  | RetainedAttempt id => note_retained_view_attempt id s
  | UnderCapTick => (begin_under_cap_tick s).2
  | AdvancePoll pid => advance_poll_cursor pid s
  | BeginTick now => begin_deep_scan_tick now s
  | AdvanceCursor pid => advance_cursor pid s
  end.

Definition run (ops : list op) (s : DiscoveryScheduler) : DiscoveryScheduler :=
  foldl (λ s o, step o s) s ops.

(** One tick attempts the first [k] newcomers of the plain order, the one the
    caller uses while admission slots are not scarce. *)
Definition serve (pids : list Z) (k : nat) (s : DiscoveryScheduler) : list Z * DiscoveryScheduler :=
  let batch := take k (new_view_order s pids) in
  (batch, foldl (λ s pid, note_new_view_attempt pid s) s batch).

Fixpoint serve_ticks (pids : list Z) (ks : list nat) (s : DiscoveryScheduler)
    : list Z * DiscoveryScheduler :=
  match ks with
  | [] => ([], s)
  | k :: ks =>
      let '(batch, s) := serve pids k s in
      let '(rest, s) := serve_ticks pids ks s in
      (batch ++ rest, s)
  end.

(** A tick in which both classes are ready: the class [newcomers_first] names
    makes the first attempt, any attempts follow. *)
Definition attempt (c : InventoryScanClass) (id : Z) (s : DiscoveryScheduler) : DiscoveryScheduler :=
  match c with
  | Newcomer => note_new_view_attempt id s
  | Retained => note_retained_view_attempt id s
  end.

Fixpoint class_ticks (ticks : list (option Z * Z * list (InventoryScanClass * Z)))
    (s : DiscoveryScheduler) : list bool :=
  match ticks with
  | [] => []
  | (now, id, more) :: ticks =>
      let s := begin_deep_scan_tick now s in
      let first := newcomers_first s true true in
      let s := attempt (if first then Newcomer else Retained) id s in
      first :: class_ticks ticks (foldl (λ s a, attempt a.1 a.2 s) s more)
  end.

(** Ordinary passes: each admits its window, which then is excluded. *)
Fixpoint rotation_passes (pids : list Z) (slots t : nat) (exclude : gset Z) : list Z :=
  match t with
  | O => []
  | S t =>
      let window := rotation_window pids exclude slots in
      window ++ rotation_passes pids slots t (exclude ∪ list_to_set window)
  end.

(** ** Round-robin order *)

Section RoundRobin.
Context (pids : list Z) (Hsorted : StronglySorted Z.lt pids).

Lemma pids_lookup_lt i j x y :
  pids !! i = Some x → pids !! j = Some y → (i < j)%nat → x < y.
Proof.
  revert i j. induction Hsorted as [|a l _ IH Hall]; intros i j Hi Hj Hij; [done|].
  destruct j as [|j]; [lia|]. destruct i as [|i]; simplify_eq/=.
  - exact (Forall_lookup_1 _ _ _ _ Hall Hj).
  - apply StronglySorted_inv in Hsorted as [Hs _]. by apply (IH Hs i j); [..|lia].
Qed.

Lemma rotated_start c :
  ∃ start, (start <= length pids)%nat ∧ rotated_after pids (Some c) = drop start pids ++ take start pids ∧
    boundary (λ pid, pid <=? c) pids start.
Proof.
  destruct (boundary_exists (λ pid, pid <=? c) pids) as [k Hk].
  { intros i j x y Hij Hi Hj Hy. apply Z.leb_le in Hy. apply Z.leb_le.
    destruct (decide (i = j)) as [->|]; [simplify_eq; lia|].
    assert (x < y) by (by apply (pids_lookup_lt i j); [..|lia]). lia. }
  exists k. split; [apply Hk|]. split; [|done]. unfold rotated_after.
  by rewrite (partition_point_spec _ _ k Hk).
Qed.

(** The order starts at offset [st] and wraps. *)
Definition starts_at (st : nat) (order : list Z) : Prop :=
  length order = length pids ∧
  ∀ i, (i < length pids)%nat → order !! i = pids !! ((st + i) mod length pids)%nat.

Lemma starts_at_split start :
  (start <= length pids)%nat → starts_at start (drop start pids ++ take start pids).
Proof.
  intros Hs. split; [rewrite length_app, length_drop, length_take; lia|]. intros i Hi.
  destruct (decide (i < length pids - start)%nat) as [Hlt|Hge].
  - rewrite lookup_app_l by (rewrite length_drop; lia). rewrite lookup_drop.
    by rewrite Nat.mod_small by lia.
  - rewrite lookup_app_r by (rewrite length_drop; lia). rewrite length_drop, lookup_take_lt by lia.
    f_equal. replace (start + i)%nat with ((i - (length pids - start)) + 1 * length pids)%nat at 1 by lia.
    rewrite Nat.Div0.mod_add, Nat.mod_small by lia. done.
Qed.

Lemma rotated_starts c : ∃ st, starts_at st (rotated_after pids c).
Proof.
  destruct c as [c|].
  - destruct (rotated_start c) as (start & Hs & -> & _). exists start. by apply starts_at_split.
  - exists O. split; [done|]. intros i Hi. by rewrite Nat.mod_small.
Qed.

(** After the element at offset [j], the order starts at the next one. *)
Lemma rotated_after_element j x :
  pids !! j = Some x → starts_at (j + 1) (rotated_after pids (Some x)).
Proof.
  intros Hx. destruct (rotated_start x) as (start & Hs & -> & _ & Hb).
  assert (start = j + 1)%nat as ->; [|by apply starts_at_split].
  pose proof (lookup_lt_Some _ _ _ Hx) as Hj.
  pose proof (proj1 (Hb j x Hx) ltac:(apply Z.leb_le; lia)) as H1.
  destruct (decide (start = j + 1)%nat) as [|Hne]; [done|exfalso].
  destruct (lookup_lt_is_Some_2 pids (j + 1)) as [y Hy]; [lia|].
  pose proof (proj2 (Hb _ y Hy) ltac:(lia)) as Hle. apply Z.leb_le in Hle.
  pose proof (pids_lookup_lt j (j + 1) x y Hx Hy ltac:(lia)). lia.
Qed.

Lemma attempts_cursor batch s :
  new_view_cursor (foldl (λ s pid, note_new_view_attempt pid s) s batch) =
  match last batch with Some pid => Some pid | None => new_view_cursor s end.
Proof.
  induction batch as [|pid batch IH] using rev_ind; [done|].
  rewrite foldl_snoc, last_snoc. unfold note_new_view_attempt, note_scan_attempt.
  destruct (foldl _ s batch) as [? ? ? ? ? ? ? ? ? ? ? ? started]. cbn. by destruct started.
Qed.

Lemma serve_spec st k s :
  starts_at st (new_view_order s pids) → (k <= length pids)%nat →
  let '(batch, s') := serve pids k s in
  length batch = k ∧
  (∀ i, (i < k)%nat → batch !! i = pids !! ((st + i) mod length pids)%nat) ∧
  starts_at (st + k) (new_view_order s' pids).
Proof.
  intros [Hlen Hst] Hk. unfold serve. set (batch := take k _).
  assert (Hb : length batch = k) by (unfold batch; rewrite length_take; lia).
  assert (Hi : ∀ i, (i < k)%nat → batch !! i = pids !! ((st + i) mod length pids)%nat).
  { intros i Hi. unfold batch. rewrite lookup_take_lt by done. apply Hst. lia. }
  split_and!; [done|done|]. unfold new_view_order. rewrite attempts_cursor.
  destruct k as [|k]; [destruct batch; [|done]; rewrite Nat.add_0_r; by split|].
  destruct (lookup_lt_is_Some_2 pids ((st + k) mod length pids)%nat) as [x Hx].
  { apply Nat.mod_upper_bound. lia. }
  rewrite last_lookup, Hb. cbn [Nat.pred]. rewrite Hi, Hx by lia.
  destruct (rotated_after_element _ x Hx) as [H1 H2]. split; [done|]. intros i Hlt.
  rewrite H2 by done. f_equal.
  rewrite <- Nat.add_assoc, Nat.Div0.add_mod_idemp_l. f_equal. lia.
Qed.

Lemma serve_ticks_spec st ks s :
  starts_at st (new_view_order s pids) → Forall (λ k, k <= length pids)%nat ks →
  let attempts := (serve_ticks pids ks s).1 in
  length attempts = sum_list ks ∧
  ∀ i, (i < sum_list ks)%nat → attempts !! i = pids !! ((st + i) mod length pids)%nat.
Proof.
  intros Hst Hks. revert st s Hst. induction Hks as [|k ks Hk _ IH]; intros st s Hst.
  { cbn. split; [done|]. intros i Hi. lia. }
  cbn [serve_ticks]. pose proof (serve_spec st k s Hst Hk) as Hs.
  destruct (serve pids k s) as [batch s']. destruct Hs as (Hl & Hb & Hst').
  specialize (IH (st + k)%nat s' Hst'). destruct (serve_ticks pids ks s') as [rest s''].
  change (sum_list (k :: ks)) with (k + sum_list ks)%nat.
  cbn [fst] in *. cbn zeta in IH. destruct IH as [Hl' Hr]. split; [rewrite length_app; lia|].
  intros i Hi. destruct (decide (i < k)%nat) as [Hlt|Hge].
  - rewrite lookup_app_l by lia. by apply Hb.
  - rewrite lookup_app_r by lia. rewrite Hr by lia. rewrite Hl.
    by replace (st + k + (i - k))%nat with (st + i)%nat by lia.
Qed.

End RoundRobin.

(** C32: Newcomer admission in the plain order is round-robin.  With the same sorted pids at every
    tick, whatever cursor it starts from (even one of a departed pid), and
    however many attempts each tick's time and capacity allow, successive
    attempts walk the pids in cyclic order across the tick boundaries; so once
    as many attempts were made as there are pids, every pid has been attempted. *)
Theorem new_view_round_robin pids ks s :
  StronglySorted Z.lt pids → Forall (λ k, k <= length pids)%nat ks →
  let attempts := (serve_ticks pids ks s).1 in
  (∀ i, (i < sum_list ks)%nat →
     attempts !! i = new_view_order s pids !! (i mod length pids)%nat) ∧
  ((length pids <= sum_list ks)%nat → ∀ pid, pid ∈ pids → pid ∈ attempts).
Proof.
  intros Hsorted Hks. cbn zeta. destruct (rotated_starts pids Hsorted (new_view_cursor s)) as [st Hst].
  destruct (serve_ticks_spec pids Hsorted st ks s Hst Hks) as [Hl Ha]. split.
  - intros i Hi. rewrite Ha by done. destruct pids as [|p pids0] eqn:E; [|rewrite <- E in *].
    { destruct Hst as [Hn%nil_length_inv _]. unfold new_view_order. by rewrite Hn. }
    rewrite (proj2 Hst) by (apply Nat.mod_upper_bound; rewrite E; done).
    by rewrite Nat.Div0.add_mod_idemp_r.
  - intros Hn pid Hpid. apply list_elem_of_lookup in Hpid as [j Hj].
    pose proof (lookup_lt_Some _ _ _ Hj) as Hlt.
    set (n := length pids) in *.
    apply list_elem_of_lookup. exists ((j + (n - st mod n)) mod n)%nat.
    assert (Hm : ((j + (n - st mod n)) mod n < n)%nat) by (apply Nat.mod_upper_bound; lia).
    rewrite Ha by lia. rewrite Nat.Div0.add_mod_idemp_r, <- Hj. f_equal.
    pose proof (Nat.mod_upper_bound st n ltac:(lia)).
    rewrite <- Nat.Div0.add_mod_idemp_l.
    replace (st mod n + (j + (n - st mod n)))%nat with (j + 1 * n)%nat by lia.
    rewrite Nat.Div0.mod_add. by apply Nat.mod_small.
Qed.

Lemma new_view_round_robin_witness :
  (serve_ticks [10; 20; 30] [2; 1; 0; 2]%nat (set_new_view_cursor (Some 15) scheduler_new)).1
    = [20; 30; 10; 20; 30] ∧
  (∀ pid, pid ∈ [10; 20; 30] →
   pid ∈ (serve_ticks [10; 20; 30] [2; 1; 0; 2]%nat (set_new_view_cursor (Some 15) scheduler_new)).1).
Proof.
  split; [vm_compute; reflexivity|].
  apply new_view_round_robin; [|by repeat (apply Forall_cons_2; [cbn; lia|]); apply Forall_nil_2|cbn; lia].
  repeat (apply SSorted_cons; [|repeat (apply Forall_cons_2; [lia|]); apply Forall_nil_2]). apply SSorted_nil.
Defined.

(** ** Rotation windows *)

Lemma filter_accepted {A} (P : A → Prop) `{!∀ x, Decision (P x)} l : Forall P l → filter P l = l.
Proof. induction 1; [done|]. rewrite filter_cons_True by done. by f_equal. Qed.

Lemma filter_refused {A} (P : A → Prop) `{!∀ x, Decision (P x)} l :
  Forall (λ x, ¬ P x) l → filter P l = [].
Proof. induction 1; [done|]. by rewrite filter_cons_False. Qed.

Lemma filter_outside (k l : list Z) : NoDup (k ++ l) → filter (λ x, x ∉ k) (k ++ l) = l.
Proof.
  intros (_ & Hdis & _)%NoDup_app. rewrite filter_app.
  rewrite filter_refused by (apply Forall_forall; naive_solver).
  apply filter_accepted, Forall_forall. naive_solver.
Qed.

(** Ordinary passes walk the whole unscanned set: when each pass admits its
    window, the windows of [t] passes are the first [t * slots] eligible pids,
    in pid order, none twice and none excluded; so the passes reach every
    eligible pid once [t * slots] is their number. *)
Theorem rotation_passes_walk pids slots t exclude :
  NoDup pids →
  rotation_passes pids slots t exclude = take (t * slots) (filter (λ pid, pid ∉ exclude) pids).
Proof.
  intros Hnd. revert exclude. induction t as [|t IH]; intros exclude; [done|].
  cbn [rotation_passes]. rewrite IH. unfold rotation_window.
  set (l := filter (λ pid, pid ∉ exclude) pids).
  assert (E : filter (λ pid, pid ∉ exclude ∪ list_to_set (take slots l)) pids = drop slots l).
  { transitivity (filter (λ pid, pid ∉ take slots l) l).
    - pose proof (list_filter_filter (λ pid, pid ∉ take slots l) (λ pid, pid ∉ exclude) pids) as F.
      fold l in F. rewrite F. apply list_filter_iff. set_solver.
    - pose proof (filter_outside (take slots l) (drop slots l)) as F. rewrite take_drop in F.
      by apply F, NoDup_filter. }
  rewrite E, take_drop_commute. cbn [Nat.mul].
  transitivity (take slots (take (slots + t * slots) l) ++ drop slots (take (slots + t * slots) l));
    [|apply take_drop]. f_equal. rewrite take_take. f_equal. lia.
Qed.

Lemma rotation_passes_walk_witness :
  rotation_passes [3; 5; 8; 9] 1 2 {[5]} = take 2 (filter (λ pid, pid ∉ ({[5]} : gset Z)) [3; 5; 8; 9]).
Proof.
  apply (rotation_passes_walk [3; 5; 8; 9] 1 2). vm_compute.
  repeat (apply NoDup_cons_2; [set_solver by lia|]). apply NoDup_nil_2.
Defined.

(** ** The fairness checkpoint *)

(** What no operation changes. *)
Definition config (s : DiscoveryScheduler) : Z * Z * Z * Z * Z * Z :=
  (quantum_ns s, slice_pids s, max_evictions s, cooldown_sweeps s, max_new_views s, tick_quantum_ns s).

Lemma step_config o s : config (step o s) = config s.
Proof.
  destruct o, s as [? ? ? ? ? ? ? ? ? ? ? ? started]; cbn; try done.
  - unfold begin_over_cap_pass. by destruct (is_multiple_of _ _).
  - unfold note_new_view_attempt, note_scan_attempt. cbn. by destruct started.
  - unfold note_retained_view_attempt, note_scan_attempt. cbn. by destruct started.
Qed.

Lemma run_config ops s : config (run ops s) = config s.
Proof.
  revert s. induction ops as [|o ops IH]; intros s; [done|].
  change (run (o :: ops) s) with (run ops (step o s)). by rewrite IH, step_config.
Qed.

(** A pressure service pass consumes no ordinary share: whatever the pass
    does to the schedule, restoring the checkpoint taken before it gives back
    the schedule of before, with the cooling entries of after. *)
Theorem restore_fairness_exact ops s :
  restore_fairness (fairness_checkpoint s) (run ops s) = set_cooling (cooling (run ops s)) s.
Proof.
  pose proof (run_config ops s) as Hc. destruct (run ops s), s. unfold config in Hc. cbn in Hc.
  injection Hc as -> -> -> -> -> ->. reflexivity.
Qed.

(** ** The eviction cooldown *)

(** Operations that leave the entry of [pid] alone. *)
Definition quiet (pid : Z) (o : op) : Prop :=
  match o with
  | Evict p | Admit p => p ≠ pid
  | Prune enumerated => pid ∈ enumerated
  | _ => True
  end.

Definition passes (ops : list op) : Z :=
  zsum (λ o, match o with OverCapPass => 1 | _ => 0 end) ops.

Lemma quiet_step pid o s v :
  quiet pid o → cooling s !! pid = Some v → cooling (step o s) !! pid = Some v.
Proof.
  intros Hq Hv. destruct s as [? ? ? ? ? ? ? ? ? ? ? ? started], o; cbn in *; try done.
  - unfold begin_over_cap_pass. by destruct (is_multiple_of _ _).
  - by rewrite lookup_insert_ne.
  - by rewrite lookup_delete_ne.
  - by apply map_lookup_filter_Some.
  - unfold note_new_view_attempt, note_scan_attempt. cbn. by destruct started.
  - unfold note_retained_view_attempt, note_scan_attempt. cbn. by destruct started.
Qed.

Lemma step_counts o s :
  0 <= reconcile_sweeps s <= over_cap_passes s → over_cap_passes s < U64_MAX →
  let n := match o with OverCapPass => 1 | _ => 0 end in
  over_cap_passes (step o s) = over_cap_passes s + n ∧
  reconcile_sweeps (step o s) = reconcile_sweeps s + (over_cap_passes s + n) / 2 - over_cap_passes s / 2.
Proof.
  intros H1 H2. destruct o; cbn [step];
    try (destruct s as [? ? ? ? ? ? ? ? ? ? ? ? started]; cbn in *;
         unfold note_new_view_attempt, note_retained_view_attempt, note_scan_attempt; cbn;
         try destruct started; cbn; rewrite ?Z.add_0_r; lia).
  unfold begin_over_cap_pass, is_multiple_of, RECONCILE_EVERY_N_OVER_CAP_PASSES, saturating_add, U64_MAX in *.
  rewrite !Z.min_l by lia.
  destruct (Z.eqb_spec ((over_cap_passes s + 1) mod 2) 0); destruct s; cbn in *;
    Z.div_mod_to_equations; lia.
Qed.

Lemma run_counts ops s :
  0 <= reconcile_sweeps s <= over_cap_passes s → over_cap_passes s + passes ops < U64_MAX →
  over_cap_passes (run ops s) = over_cap_passes s + passes ops ∧
  reconcile_sweeps (run ops s) =
    reconcile_sweeps s + (over_cap_passes s + passes ops) / 2 - over_cap_passes s / 2.
Proof.
  revert s. induction ops as [|o ops IH]; intros s H1 H2.
  { change (passes []) with 0. rewrite Z.add_0_r. cbn. lia. }
  change (run (o :: ops) s) with (run ops (step o s)).
  change (passes (o :: ops)) with (match o with OverCapPass => 1 | _ => 0 end + passes ops) in *.
  assert (0 <= passes ops) by (apply zsum_nonneg; intros []; lia).
  destruct (step_counts o s H1) as [E1 E2]; [destruct o; lia|].
  destruct (IH (step o s)) as [E3 E4]; rewrite ?E1, ?E2 in *; [|destruct o; lia|].
  { destruct o; Z.div_mod_to_equations; lia. }
  rewrite E3, E4. split; [lia|]. rewrite Z.add_assoc. lia.
Qed.

(** The eviction cooldown is exact: however the schedule runs on after an
    eviction, as long as the pid is neither re-admitted nor departed, it stays
    stale, and it sits out exactly while fewer reconcile sweeps than the
    cooldown have begun since, that is one per two over-cap passes.
    Re-admission ends the cooldown at once. *)
Theorem eviction_cooldown pid ops s :
  0 <= reconcile_sweeps s <= over_cap_passes s → over_cap_passes s + passes ops < U64_MAX →
  Forall (quiet pid) ops →
  let s' := run ops (note_evicted pid s) in
  cooling s' !! pid = Some (reconcile_sweeps s) ∧
  cooling_down s' pid =
    ((over_cap_passes s + passes ops) / 2 - over_cap_passes s / 2 <? cooldown_sweeps s) ∧
  cooling_down (note_admitted pid s') pid = false.
Proof.
  intros H1 H2 Hq s'.
  assert (Hc : cooling s' !! pid = Some (reconcile_sweeps s)).
  { assert (cooling (note_evicted pid s) !! pid = Some (reconcile_sweeps s)) as H0.
    { destruct s; cbn. by rewrite lookup_insert_eq. }
    unfold s'. clear -Hq H0. revert H0. generalize (note_evicted pid s). generalize (reconcile_sweeps s).
    induction Hq as [|o ops Ho _ IH]; intros v s0 H0; [done|].
    apply (IH v (step o s0)). by apply quiet_step. }
  assert (Hn : 0 <= reconcile_sweeps (note_evicted pid s) <= over_cap_passes (note_evicted pid s) ∧
    over_cap_passes (note_evicted pid s) = over_cap_passes s ∧
    reconcile_sweeps (note_evicted pid s) = reconcile_sweeps s) by (destruct s; cbn in *; lia).
  destruct Hn as (Hn & Ep & Es).
  destruct (run_counts ops (note_evicted pid s) Hn) as [_ E]; [lia|]. fold s' in E.
  rewrite Ep, Es in E. split_and!; [done|..].
  - unfold cooling_down. rewrite Hc, E. unfold saturating_sub.
    pose proof (run_config ops (note_evicted pid s)) as Hcfg. unfold config in Hcfg.
    injection Hcfg as _ _ _ Hcd _ _. fold s' in Hcd. rewrite Hcd.
    assert (0 <= passes ops) by (apply zsum_nonneg; intros []; lia).
    rewrite Z.max_l by (Z.div_mod_to_equations; lia).
    replace (cooldown_sweeps (note_evicted pid s)) with (cooldown_sweeps s) by (by destruct s).
    f_equal. lia.
  - unfold cooling_down, note_admitted. destruct s'. cbn. by rewrite lookup_delete_eq.
Qed.

Lemma eviction_cooldown_witness :
  cooling_down (run [OverCapPass; OverCapPass; Evict 4; OverCapPass] (note_evicted 7 scheduler_new)) 7 = true ∧
  cooling_down (run [OverCapPass; OverCapPass; OverCapPass; OverCapPass] (note_evicted 7 scheduler_new)) 7
    = false.
Proof.
  split.
  - refine (eq_trans (proj1 (proj2 (eviction_cooldown 7 [OverCapPass; OverCapPass; Evict 4; OverCapPass]
      scheduler_new _ _ _))) _); [cbn; lia|vm_compute; reflexivity| |vm_compute; reflexivity].
    repeat (apply Forall_cons_2; [cbn; lia || done|]). apply Forall_nil_2.
  - refine (eq_trans (proj1 (proj2 (eviction_cooldown 7
      [OverCapPass; OverCapPass; OverCapPass; OverCapPass] scheduler_new _ _ _))) _);
      [cbn; lia|vm_compute; reflexivity| |vm_compute; reflexivity].
    repeat (apply Forall_cons_2; [cbn; done|]). apply Forall_nil_2.
Defined.

(** ** Alternation of the scan classes *)

Lemma attempt_started c id s :
  tick_scan_started s = true →
  first_scan_class (attempt c id s) = first_scan_class s ∧ tick_scan_started (attempt c id s) = true.
Proof. destruct s, c; cbn; intros ->; done. Qed.

Lemma attempts_started more s :
  tick_scan_started s = true →
  first_scan_class (foldl (λ s a, attempt a.1 a.2 s) s more) = first_scan_class s.
Proof.
  revert s. induction more as [|[c id] more IH]; intros s Hs; [done|]. cbn [foldl fst snd].
  destruct (attempt_started c id s Hs) as [<- Hs']. by apply IH.
Qed.

(** The scan classes take turns: over any run of ticks in which both classes
    are ready, whatever further attempts each tick makes and whatever its clock
    says, the class served first alternates strictly from tick to tick. *)
Theorem scan_classes_alternate ticks s :
  class_ticks ticks s =
    (λ i, xorb (newcomers_first s true true) (Nat.odd i)) <$> seq 0 (length ticks).
Proof.
  revert s. induction ticks as [|[[now id] more] ticks IH]; intros s; [done|].
  cbn [class_ticks length seq fmap list_fmap].
  assert (Hb : newcomers_first (begin_deep_scan_tick now s) true true = newcomers_first s true true)
    by (by destruct s). rewrite Hb. f_equal; [by rewrite xorb_false_r|].
  rewrite IH. rewrite <- fmap_S_seq, <- list_fmap_compose. apply list_fmap_ext. intros _ i _.
  cbn [compose]. rewrite Nat.odd_succ, <- Nat.negb_odd.
  assert (Hf : newcomers_first (foldl (λ s a, attempt a.1 a.2 s)
    (attempt (if newcomers_first s true true then Newcomer else Retained) id
       (begin_deep_scan_tick now s)) more) true true = negb (newcomers_first s true true)).
  { unfold newcomers_first at 1. rewrite attempts_started; destruct s as [? ? ? ? ? ? ? ? ? ? ? class ?], class; done. }
  rewrite Hf. by destruct (newcomers_first s true true), (Nat.odd i).
Qed.
