(* ===== verification/Capture.v ===== *)
(** * The object read protocols

    [crates/ebpf-common/src/object_capture.rs]: what the entry and return probes
    of an object call read from the target and the finite facts they keep.  The
    readers the source takes as [WordReader] and [FnMut] arguments are the class
    [TargetReader] over an arbitrary state, so a read may depend on everything
    read before; code that reads is in the state monad [RM].  The request
    template has two implementations in the source, the array-based
    [inspect_request_template] and the streamed [inspect_request_template_into]
    the BPF programs run; both are modelled.  Where the source chooses between a
    BPF global and the shared core by target, the model is the BPF arm: the
    arguments and the results cross the packed scalar codecs.  Fixed-size arrays
    are lists. *)
From S2P Require Import Prelude TargetAbi Bytes ObjectPolicy ObjectWire.

Definition RM (S A : Type) : Type := S → A * S.

#[export] Instance rm_ret {S} : MRet (RM S) := λ A a s, (a, s).
#[export] Instance rm_bind {S} : MBind (RM S) := λ A B k m s, let '(a, s) := m s in k a s.

(** [None] is [Err(())].  [read_bytes addr len] fills a buffer of [len] bytes. *)
Class TargetReader (S : Type) := {
  read_word : Z → LinuxLayout → RM S (option Z);
  read_bytes : Z → nat → RM S (option (list Z));
}.

(** A [while] loop over slots. *)
Fixpoint for_each {S A} (l : list nat) (body : nat → A → RM S A) (a : A) : RM S A :=
  match l with
  | [] => mret a
  | i :: l => a ← body i a; for_each l body a
  end.

Definition CKR_OK : Z := 0.
Definition CKR_ATTRIBUTE_SENSITIVE : Z := 17.
Definition CKR_ATTRIBUTE_TYPE_INVALID : Z := 18.
Definition CKR_BUFFER_TOO_SMALL : Z := 336.
Definition MAX_ATTRIBUTE_SLOTS : Z := 8.
Definition MAX_FIND_HANDLES : Z := 8.

Module attr_status.
Definition ABSENT : Z := 0.
Definition VALUE : Z := 1.
Definition UNSUPPORTED : Z := 2.
Definition UNREADABLE : Z := 3.
Definition SIZE_ONLY : Z := 4.
Definition UNAVAILABLE : Z := 5.
Definition INVALID_LENGTH : Z := 6.
Definition CHANGED : Z := 7.
Definition ALIAS : Z := 8.
Definition INVALID_SPAN : Z := 9.
Definition INSUFFICIENT_CAPACITY : Z := 10.
End attr_status.

Module handle_status.
Definition ABSENT : Z := 0.
Definition VALUE : Z := 1.
Definition UNREADABLE : Z := 2.
Definition INVALID_ZERO : Z := 3.
Definition INVALID_SPAN : Z := 4.
Definition ALIAS : Z := 5.
Definition DUPLICATE : Z := 6.
Definition PROTOCOL_UNAVAILABLE : Z := 7.
Definition SUPPRESSED : Z := 8.
End handle_status.

Module object_flag.
Definition ARG_READ_FAILURE : Z := 1 << 0.
Definition UNAVAILABLE_RESULT : Z := 1 << 1.
Definition ALIAS : Z := 1 << 2.
Definition DUPLICATE_RESULT : Z := 1 << 3.
Definition CHANGED_METADATA : Z := 1 << 4.
Definition PARTIAL_RESULT : Z := 1 << 5.
Definition NULL_MECHANISM_CANCEL : Z := 1 << 6.
End object_flag.

Module find_flag.
Definition TRUNCATED : Z := 1 << 0.
Definition CHANGED_COUNT : Z := 1 << 1.
Definition INVALID_COUNT : Z := 1 << 2.
Definition INVALID_SPAN : Z := 1 << 3.
Definition COUNT_ALIAS : Z := 1 << 4.
Definition UNREADABLE_ELEMENT : Z := 1 << 5.
End find_flag.

Module attr_list_flag.
Definition PRESENT : Z := 1 << 0.
Definition TRUNCATED : Z := 1 << 1.
Definition HEADER_READ_FAILURE : Z := 1 << 2.
Definition INVALID_SPAN : Z := 1 << 3.
End attr_list_flag.

Record AttrCell := mkCell { cell_kind : Z; cell_status : Z; cell_value : Z }.

Definition AttrCell_to_wire (c : AttrCell) : ObjectAttributeWire :=
  mkAttr (cell_kind c) (cell_status c) (cell_value c).

Record AttributeListOutcome := mkOutcome {
  out_cells : list AttrCell;
  out_inspected : Z;
  out_flags : Z;
  out_object_flags : Z;
}.

Definition AttributeListOutcome_to_wire (o : AttributeListOutcome) : ObjectAttributeListWire :=
  mkAttrs (AttrCell_to_wire <$> out_cells o) (out_inspected o) (out_flags o) 0.

Inductive DeriveEntry :=
| Accepted (m : ScalarDeriveMechanism)
| DeriveUnavailable.

#[export] Instance DeriveEntry_eq_dec : EqDecision DeriveEntry.
Proof. solve_decision. Defined.

Definition derive_mechanism_code (m : ScalarDeriveMechanism) : Z :=
  match m with
  | DhPkcs => 0x21
  | Sha256 => 0x393
  | Ecdh1 => 0x1050
  | Ecdh1Cofactor => 0x1051
  end.

Record ReturnAuthority := mkAuthority {
  owner_live : bool;
  phase_ready : bool;
  continuity_joined : bool;
}.

Definition is_authorized (a : ReturnAuthority) : bool :=
  owner_live a && phase_ready a && continuity_joined a.

Record EntryInputVerdict := mkInputs {
  supported : bool;
  entry_statuses : list Z;
  entry_object_flags : Z;
}.

Record ReturnHandlesVerdict := mkHandles {
  handle_statuses : list Z;
  handle_object_flags : Z;
}.

Record FindVerdict := mkFind {
  fv_statuses : list Z;
  fv_len : Z;
  fv_valid : bool;
  fv_flags : Z;
  fv_result_cell : Z * Z;
}.

Definition safe_kind_code (kind : SafeAttributeKind) : Z :=
  match kind with
  | Class_ => 1 | KeyType => 2 | Token => 3 | ValueLen => 4 | ModulusBits => 5 | EcParams => 6
  end.

Definition kind_from_code (code : Z) : option SafeAttributeKind :=
  if code =? 1 then Some Class_
  else if code =? 2 then Some KeyType
  else if code =? 3 then Some Token
  else if code =? 4 then Some ValueLen
  else if code =? 5 then Some ModulusBits
  else if code =? 6 then Some EcParams
  else None.

Definition safe_curve_code (curve : SafeCurve) : Z :=
  match curve with Secp256r1 => 1 | Secp384r1 => 2 | Secp521r1 => 3 end.

Definition is_ilp32 (layout : LinuxLayout) : bool := bool_decide (layout = Ilp32).

(** ** Entry inputs *)

(** The status, the word and the flag one input position contributes. *)
Definition entry_input (import : bool) (arg : Z) (input : option Z) (layout : LinuxLayout)
    : Z * Z * Z :=
  if arg =? ARG_NONE then (handle_status.ABSENT, 0, 0)
  else match input with
  | None => (handle_status.UNREADABLE, 0, object_flag.ARG_READ_FAILURE)
  | Some word =>
      if (word =? 0) && import then (handle_status.ABSENT, 0, 0)
      else if word =? 0 then (handle_status.INVALID_ZERO, 0, 0)
      else if is_ilp32 layout && (U32_MAX <? word) then (handle_status.INVALID_SPAN, 0, 0)
      else (handle_status.VALUE, word, 0)
  end.

Definition capture_entry_inputs `{FunctionNames} (function : Z) (inputs : list (option Z))
    (layout : LinuxLayout) : EntryInputVerdict * list Z :=
  match object_descriptor function with
  | None => (mkInputs false [handle_status.ABSENT; handle_status.ABSENT] 0, [0; 0])
  | Some descriptor =>
      let import := bool_decide (action descriptor = OperationImport) in
      let at_ := λ i, entry_input import (nth i (input_args descriptor) 0) (nth i inputs None) layout in
      let '(s0, w0, f0) := at_ 0%nat in
      let '(s1, w1, f1) := at_ 1%nat in
      (mkInputs true [s0; s1] (f0 |' f1), [w0; w1])
  end.

Definition apply_null_mechanism_cancel (null_cancel_eligible cancel_observed : bool)
    (verdict : EntryInputVerdict) (words : list Z) : EntryInputVerdict * list Z :=
  if negb (null_cancel_eligible && cancel_observed) then (verdict, words)
  else
    let value := λ i, nth i (entry_statuses verdict) 0 =? handle_status.VALUE in
    (mkInputs (supported verdict)
       ((λ i, if value i then handle_status.SUPPRESSED else nth i (entry_statuses verdict) 0) <$> seq 0 2)
       (entry_object_flags verdict |' object_flag.NULL_MECHANISM_CANCEL),
     (λ i, if value i then 0 else nth i words 0) <$> seq 0 2).

(** ** Derivation *)

Section Protocols.
Context {St : Type} `{TargetReader St} `{FunctionNames} `{TargetWidth}.

Definition classify_derive_mechanism (mechanism_ptr : Z) (layout : LinuxLayout) : RM St DeriveEntry :=
  if mechanism_ptr =? 0 then mret DeriveUnavailable
  else match Abi.target_word_end mechanism_ptr layout with
  | None => mret DeriveUnavailable
  | Some _ =>
      r ← read_word mechanism_ptr layout;
      mret match r with
           | None => DeriveUnavailable
           | Some mechanism =>
               match derive_result_protocol mechanism with
               | ScalarHandle accepted => Accepted accepted
               | Unavailable => DeriveUnavailable
               end
           end
  end.

Definition capture_derive_entry (mechanism_ptr out5_ptr : Z) (layout : LinuxLayout)
    : RM St (DeriveEntry * option Z) :=
  entry ← classify_derive_mechanism mechanism_ptr layout;
  mret match entry with
       | Accepted _ => (entry, Some out5_ptr)
       | DeriveUnavailable => (entry, None)
       end.

(** [capture::MECHANISM_VALUE]. *)
Definition MECHANISM_VALUE : Z := 3.

Definition authorize_derive_return (entry : DeriveEntry) (rv return_mechanism_status return_mechanism : Z)
    : bool :=
  match entry with
  | DeriveUnavailable => false
  | Accepted accepted =>
      (rv =? CKR_OK) && (return_mechanism_status =? MECHANISM_VALUE)
      && (return_mechanism =? derive_mechanism_code accepted)
  end.

Definition authorize_entry_templates (function : Z) (template_scalars : list (Z * Z))
    (derive : DeriveEntry) : list (option (Z * Z)) :=
  match object_descriptor function with
  | None => [None; None]
  | Some descriptor =>
      if bool_decide (action descriptor = Derive)
         && match derive with Accepted _ => false | DeriveUnavailable => true end
      then [None; None]
      else (λ i,
        let '(ptr_arg, count_arg) := nth i (template_args descriptor) (ARG_NONE, ARG_NONE) in
        if negb (ptr_arg =? ARG_NONE) && negb (count_arg =? ARG_NONE)
        then Some (nth i template_scalars (0, 0)) else None) <$> seq 0 2
  end.

(** ** Result handles *)

(** What one word read at a handle position means. *)
Definition handle_of (r : option Z) (layout : LinuxLayout) : Z * Z :=
  match r with
  | None => (handle_status.UNREADABLE, 0)
  | Some word =>
      if word =? 0 then (handle_status.INVALID_ZERO, 0)
      else if is_ilp32 layout && (U32_MAX <? word) then (handle_status.INVALID_SPAN, 0)
      else (handle_status.VALUE, word)
  end.

(** The status before any read: [None] for a position that may be read. *)
Definition gate_of (present authorized : bool) : option (Z * Z) :=
  if negb present then Some (handle_status.ABSENT, 0)
  else if negb authorized then Some (handle_status.PROTOCOL_UNAVAILABLE, object_flag.UNAVAILABLE_RESULT)
  else None.

Definition span_status (ptr : Z) (layout : LinuxLayout) : option Z :=
  if ptr =? 0 then Some handle_status.UNREADABLE
  else match Abi.target_word_end ptr layout with
  | None => Some handle_status.INVALID_SPAN
  | Some _ => None
  end.

(** One iteration of the read loop: a position with a status keeps it. *)
Definition read_handle (settled : option Z) (ptr : Z) (layout : LinuxLayout) : RM St (Z * Z) :=
  match settled with
  | Some status => mret (status, 0)
  | None => r ← read_word ptr layout; mret (handle_of r layout)
  end.

(** The status a gated position settles to without a read. *)
Definition settled_of (gate : option (Z * Z)) (ptr : Z) (layout : LinuxLayout) : option Z :=
  match gate with
  | Some (status, _) => Some status
  | None => span_status ptr layout
  end.

Definition flag_of (gate : option (Z * Z)) : Z := match gate with Some (_, flag) => flag | None => 0 end.

Definition refused_of (gate : option (Z * Z)) : Z :=
  match gate with Some (status, _) => status | None => handle_status.PROTOCOL_UNAVAILABLE end.

Definition capture_return_handles (present authorized : bool * bool) (ptrs : Z * Z) (rv : Z)
    (authority : ReturnAuthority) (layout : LinuxLayout) : RM St (ReturnHandlesVerdict * list Z) :=
  let g0 := gate_of present.1 authorized.1 in
  let g1 := gate_of present.2 authorized.2 in
  let flags := flag_of g0 |' flag_of g1 in
  if bool_decide (g0 ≠ None) && bool_decide (g1 ≠ None) then
    mret (mkHandles [refused_of g0; refused_of g1] flags, [0; 0])
  else if negb (rv =? CKR_OK) || negb (is_authorized authority) then
    mret (mkHandles [refused_of g0; refused_of g1] flags, [0; 0])
  else
    let r0 := settled_of g0 ptrs.1 layout in
    let r1 := settled_of g1 ptrs.2 layout in
    let w := word_bytes layout in
    if bool_decide (r0 = None) && bool_decide (r1 = None) && Span.spans_overlap ptrs.1 w ptrs.2 w then
      mret (mkHandles [handle_status.ALIAS; handle_status.ALIAS] (flags |' object_flag.ALIAS), [0; 0])
    else
      ' (s0, w0) ← read_handle r0 ptrs.1 layout;
      ' (s1, w1) ← read_handle r1 ptrs.2 layout;
      let value := λ s, s =? handle_status.VALUE in
      if value s0 && value s1 && (w0 =? w1) then
        mret (mkHandles [handle_status.DUPLICATE; handle_status.DUPLICATE]
                (flags |' object_flag.DUPLICATE_RESULT), [0; 0])
      else
        let partial := bool_decide (g0 = None) && bool_decide (g1 = None) && xorb (value s0) (value s1) in
        mret (mkHandles [s0; s1] (if partial then flags |' object_flag.PARTIAL_RESULT else flags),
              [w0; w1]).

(** ** Find results *)

Definition find_refused (flags : Z) : FindVerdict * list Z :=
  (mkFind (replicate 8 handle_status.ABSENT) 0 false flags (handle_status.PROTOCOL_UNAVAILABLE, 0),
   replicate 8 0).

(** One element of the array: [None] is the early return on a wrapping
    address. *)
Definition find_element (array_ptr w : Z) (layout : LinuxLayout) (i : nat)
    (acc : option (list Z * list Z * Z)) : RM St (option (list Z * list Z * Z)) :=
  match acc with
  | None => mret None
  | Some (statuses, words, flags) =>
      match checked_add 64 array_ptr (Z.of_nat i * w) with
      | None => mret None
      | Some addr =>
          r ← read_word addr layout;
          let '(status, word) := handle_of r layout in
          mret (Some (<[i := status]> statuses, <[i := word]> words,
                      match r with None => flags |' find_flag.UNREADABLE_ELEMENT | Some _ => flags end))
      end
  end.

Definition capture_find_return (array_ptr capacity count_ptr rv : Z) (authority : ReturnAuthority)
    (layout : LinuxLayout) : RM St (FindVerdict * list Z) :=
  if negb (rv =? CKR_OK) || negb (is_authorized authority) then mret (find_refused 0)
  else if (count_ptr =? 0) || bool_decide (Abi.target_word_end count_ptr layout = None) then
    mret (find_refused find_flag.INVALID_COUNT)
  else
    r ← read_word count_ptr layout;
    match r with
    | None => mret (find_refused find_flag.INVALID_COUNT)
    | Some count =>
      if is_ilp32 layout && (U32_MAX <? count) then mret (find_refused find_flag.INVALID_COUNT)
      else if capacity <? count then mret (find_refused find_flag.INVALID_COUNT)
      else
        let w := word_bytes layout in
        match checked_mul 64 count w with
        | None => mret (find_refused find_flag.INVALID_SPAN)
        | Some array_len =>
          if bool_decide (Span.validate_target_span array_ptr array_len layout = None)
          then mret (find_refused find_flag.INVALID_SPAN)
          else if Span.spans_overlap array_ptr array_len count_ptr w
          then mret (find_refused find_flag.COUNT_ALIAS)
          else
            let take := Z.min count MAX_FIND_HANDLES in
            let flags := if MAX_FIND_HANDLES <? count then find_flag.TRUNCATED else 0 in
            read ← for_each (seq 0 (Z.to_nat take)) (find_element array_ptr w layout)
                     (Some (replicate 8 handle_status.ABSENT, replicate 8 0, flags));
            match read with
            | None => mret (find_refused find_flag.INVALID_SPAN)
            | Some (statuses, words, flags) =>
                stable ← read_word count_ptr layout;
                if bool_decide (stable = Some count) then
                  mret (mkFind statuses (as_u8 take) true flags (handle_status.PROTOCOL_UNAVAILABLE, 0),
                        words)
                else mret (find_refused find_flag.CHANGED_COUNT)
            end
        end
    end.

(** ** Attribute values *)

(** [inr] is the failure status. *)
Definition read_classified_value (kind : SafeAttributeKind) (ptr len : Z) (layout : LinuxLayout)
    : RM St (Z + Z) :=
  match kind with
  | Token =>
      r ← read_bytes ptr 1;
      mret match r with
           | None => inr attr_status.UNREADABLE
           | Some bytes =>
               match classify_attribute_scalar kind (nth 0 bytes 0) with
               | Some v => inl v
               | None => inr attr_status.UNSUPPORTED
               end
           end
  | EcParams =>
      if negb (len =? 7) && negb (len =? 10) then mret (inr attr_status.INVALID_LENGTH)
      else
        r ← read_bytes ptr (Z.to_nat len);
        mret match r with
             | None => inr attr_status.UNREADABLE
             | Some bytes =>
                 match classify_ec_params bytes with
                 | Some curve => inl (safe_curve_code curve)
                 | None => inr attr_status.UNSUPPORTED
                 end
             end
  | _ =>
      r ← read_word ptr layout;
      mret match r with
           | None => inr attr_status.UNREADABLE
           | Some word =>
               if is_ilp32 layout && (U32_MAX <? word) then inr attr_status.UNSUPPORTED
               else match classify_attribute_scalar kind word with
                    | Some v => inl v
                    | None => inr attr_status.UNSUPPORTED
                    end
           end
  end.

(** ** The array-based request inspection *)

Definition zero_cell : AttrCell := mkCell 0 0 0.

Definition empty_outcome (flags : Z) : AttributeListOutcome :=
  mkOutcome (replicate 8 zero_cell) 0 flags 0.

Definition or_flags (f : Z) (o : AttributeListOutcome) : AttributeListOutcome :=
  mkOutcome (out_cells o) (out_inspected o) (out_flags o |' f) (out_object_flags o).

Definition or_object_flags (f : Z) (o : AttributeListOutcome) : AttributeListOutcome :=
  mkOutcome (out_cells o) (out_inspected o) (out_flags o) (out_object_flags o |' f).

Definition set_status (slot : nat) (kind : SafeAttributeKind) (status value : Z)
    (o : AttributeListOutcome) : AttributeListOutcome :=
  mkOutcome (<[slot := mkCell (safe_kind_code kind) status value]> (out_cells o))
    (out_inspected o) (out_flags o) (out_object_flags o).

(** The header arrays of the own template: a selected slot has its kind,
    selector, pointer and length. *)
Definition header := option (SafeAttributeKind * Z * Z * Z).

(** Phase A. *)
Definition own_header (template_ptr : Z) (layout : LinuxLayout) (slot : nat)
    (acc : AttributeListOutcome * list header) : RM St (AttributeListOutcome * list header) :=
  let '(o, headers) := acc in
  let failed := or_flags attr_list_flag.HEADER_READ_FAILURE in
  match Span.attribute_header_addresses template_ptr (Z.of_nat slot) layout with
  | None => mret (failed o, headers)
  | Some (sel_addr, ptr_addr, len_addr) =>
      r ← read_word sel_addr layout;
      match r with
      | None => mret (failed o, headers)
      | Some selector =>
          match safe_attribute_kind selector with
          | None => mret (o, headers)
          | Some kind =>
              r ← read_word ptr_addr layout;
              match r with
              | None => mret (failed (set_status slot kind attr_status.UNREADABLE 0 o), headers)
              | Some ptr =>
                  r ← read_word len_addr layout;
                  match r with
                  | None => mret (failed (set_status slot kind attr_status.UNREADABLE 0 o), headers)
                  | Some len => mret (o, <[slot := Some (kind, selector, ptr, len)]> headers)
                  end
              end
          end
      end
  end.

(** Phase B: one peer header; both words are read before either is used. *)
Definition peer_header (peer_ptr : Z) (layout : LinuxLayout) (slot : nat)
    (acc : AttributeListOutcome * list (Z * Z)) : RM St (AttributeListOutcome * list (Z * Z)) :=
  let '(o, spans) := acc in
  let failed := or_flags attr_list_flag.HEADER_READ_FAILURE o in
  match Span.attribute_header_addresses peer_ptr (Z.of_nat slot) layout with
  | None => mret (failed, spans)
  | Some (sel_addr, ptr_addr, len_addr) =>
      r ← read_word sel_addr layout;
      match r with
      | None => mret (failed, spans)
      | Some selector =>
          match safe_attribute_kind selector with
          | None => mret (o, spans)
          | Some _ =>
              p ← read_word ptr_addr layout;
              l ← read_word len_addr layout;
              match p, l with
              | Some ptr, Some len =>
                  if negb (ptr =? 0) && negb (len =? 0)
                     && bool_decide (Span.validate_target_span ptr len layout ≠ None)
                  then mret (o, spans ++ [(ptr, len)]) else mret (o, spans)
              | _, _ => mret (failed, spans)
              end
          end
      end
  end.

(** The peer's header span and the value spans of its selected slots. *)
Definition peer_headers (peer : option (Z * Z)) (layout : LinuxLayout) (o : AttributeListOutcome)
    : RM St (AttributeListOutcome * (Z * Z) * list (Z * Z)) :=
  match peer with
  | None => mret (o, (0, 0), [])
  | Some (peer_ptr, peer_count) =>
      match Span.attribute_table_span peer_count layout with
      | None => mret (o, (0, 0), [])
      | Some peer_table =>
          if bool_decide (Span.validate_target_span peer_ptr peer_table layout = None)
          then mret (o, (0, 0), [])
          else
            let m := Z.min peer_count MAX_ATTRIBUTE_SLOTS in
            ' (o, spans) ← for_each (seq 0 (Z.to_nat m)) (peer_header peer_ptr layout) (o, []);
            mret (o, (peer_ptr, m * 3 * word_bytes layout), spans)
      end
  end.

(** Phase C: [None] for a viable slot, otherwise the status it gets. *)
Definition refusal (kind : SafeAttributeKind) (ptr len : Z) (layout : LinuxLayout) : option Z :=
  if ptr =? 0 then Some attr_status.UNAVAILABLE
  else if negb (valid_safe_attribute_length kind len layout) then Some attr_status.INVALID_LENGTH
  else if bool_decide (Span.validate_target_span ptr len layout = None)
  then Some attr_status.INVALID_SPAN
  else None.

Definition check_slot (layout : LinuxLayout) (headers : list header)
    (acc : AttributeListOutcome * list bool) (slot : nat) : AttributeListOutcome * list bool :=
  let '(o, viable) := acc in
  match nth slot headers None with
  | None => (o, viable)
  | Some (kind, _, ptr, len) =>
      match refusal kind ptr len layout with
      | Some status => (set_status slot kind status 0 o, viable)
      | None => (o, <[slot := true]> viable)
      end
  end.

(** The alias pass for one viable slot: own headers, peer headers, peer values
    and the stated spans of the other selected slots. *)
Definition slot_aliased (template_ptr header_len : Z) (n : nat) (layout : LinuxLayout)
    (headers : list header) (peer_header : Z * Z) (peer_spans : list (Z * Z)) (slot : nat) : bool :=
  match nth slot headers None with
  | None => false
  | Some (_, _, ptr, len) =>
      Span.spans_overlap ptr len template_ptr header_len
      || Span.spans_overlap ptr len peer_header.1 peer_header.2
      || existsb (λ p, Span.spans_overlap ptr len p.1 p.2) peer_spans
      || existsb (λ other,
           negb (other =? slot)%nat &&
           match nth other headers None with
           | None => false
           | Some (_, _, optr, olen) =>
               negb (optr =? 0) && negb (olen =? 0)
               && bool_decide (Span.validate_target_span optr olen layout ≠ None)
               && Span.spans_overlap ptr len optr olen
           end) (seq 0 n)
  end.

Definition mark_alias (aliased : nat → bool) (headers : list header)
    (acc : AttributeListOutcome * list bool) (slot : nat) : AttributeListOutcome * list bool :=
  let '(o, viable) := acc in
  if aliased slot then
    (match nth slot headers None with
     | Some (kind, _, _, _) =>
         or_object_flags object_flag.ALIAS (set_status slot kind attr_status.ALIAS 0 o)
     | None => o
     end, <[slot := false]> viable)
  else (o, viable).

(** The header recheck of phase D publishes [status] and [value] if the header
    is unchanged. *)
Definition recheck_slot (sel_addr ptr_addr len_addr : Z) (layout : LinuxLayout) (selector ptr len : Z)
    (slot : nat) (kind : SafeAttributeKind) (status value : Z) (o : AttributeListOutcome)
    : RM St AttributeListOutcome :=
  sel2 ← read_word sel_addr layout;
  ptr2 ← read_word ptr_addr layout;
  len2 ← read_word len_addr layout;
  mret match sel2, ptr2, len2 with
       | Some s, Some p, Some l =>
           if (s =? selector) && (p =? ptr) && (l =? len) then set_status slot kind status value o
           else or_object_flags object_flag.CHANGED_METADATA
                  (set_status slot kind attr_status.CHANGED 0 o)
       | _, _, _ => set_status slot kind attr_status.UNREADABLE 0 o
       end.

(** Phase D: the value of one viable slot, then its header again. *)
Definition read_slot (template_ptr : Z) (layout : LinuxLayout) (headers : list header)
    (viable : list bool) (slot : nat) (o : AttributeListOutcome) : RM St AttributeListOutcome :=
  if negb (nth slot viable false) then mret o
  else match nth slot headers None with
  | None => mret o
  | Some (kind, selector, ptr, len) =>
      match Span.attribute_header_addresses template_ptr (Z.of_nat slot) layout with
      | None => mret (set_status slot kind attr_status.INVALID_SPAN 0 o)
      | Some (sel_addr, ptr_addr, len_addr) =>
          read ← read_classified_value kind ptr len layout;
          match read with
          | inr status =>
              if negb (status =? attr_status.UNSUPPORTED) then mret (set_status slot kind status 0 o)
              else
                recheck_slot sel_addr ptr_addr len_addr layout selector ptr len slot kind
                  attr_status.UNSUPPORTED 0 o
          | inl value =>
              recheck_slot sel_addr ptr_addr len_addr layout selector ptr len slot kind
                attr_status.VALUE value o
          end
      end
  end.

Definition inspect_request_template (template_ptr count : Z) (peer : option (Z * Z))
    (layout : LinuxLayout) : RM St AttributeListOutcome :=
  match Span.attribute_table_span count layout with
  | None => mret (empty_outcome attr_list_flag.INVALID_SPAN)
  | Some table_len =>
    if bool_decide (Span.validate_target_span template_ptr table_len layout = None)
    then mret (empty_outcome attr_list_flag.INVALID_SPAN)
    else
      let n := Z.min count MAX_ATTRIBUTE_SLOTS in
      let flags := (if 0 <? n then attr_list_flag.PRESENT else 0)
                   |' (if MAX_ATTRIBUTE_SLOTS <? count then attr_list_flag.TRUNCATED else 0) in
      let o := mkOutcome (replicate 8 zero_cell) (as_u8 n) flags 0 in
      if n =? 0 then mret o
      else
        match checked_add 64 template_ptr (n * 3 * word_bytes layout) with
        | None => mret (empty_outcome attr_list_flag.INVALID_SPAN)
        | Some header_end =>
          let slots := seq 0 (Z.to_nat n) in
          ' (o, headers) ← for_each slots (own_header template_ptr layout) (o, replicate 8 None);
          ' (o, peer_header, peer_spans) ← peer_headers peer layout o;
          let '(o, viable) := foldl (check_slot layout headers) (o, replicate 8 false) slots in
          let aliased := λ slot,
            nth slot viable false &&
            slot_aliased template_ptr (header_end - template_ptr) (Z.to_nat n) layout headers
              peer_header peer_spans slot in
          let '(o, viable) := foldl (mark_alias aliased headers) (o, viable) slots in
          for_each slots (read_slot template_ptr layout headers viable) o
        end
  end.

(** ** The streamed request inspection *)

Definition pack_alias_scan (alias : bool) (flags : Z) : Z := Z.b2z alias |' (flags << 8).

Definition unpack_alias_scan (packed : Z) : bool * Z := (nz (packed &' 1), as_u8 (packed >> 8)).

(** One neighbour of the scan. *)
Definition alias_slot (base skip ptr len : Z) (layout : LinuxLayout) (j : nat) (acc : bool * Z)
    : RM St (bool * Z) :=
  let '(alias, flags) := acc in
  let failed := (alias, flags |' attr_list_flag.HEADER_READ_FAILURE) in
  if Z.of_nat j =? skip then mret acc
  else match Span.attribute_header_addresses base (Z.of_nat j) layout with
  | None => mret failed
  | Some (sel_addr, ptr_addr, len_addr) =>
      r ← read_word sel_addr layout;
      match r with
      | None => mret failed
      | Some sel =>
          match safe_attribute_kind sel with
          | None => mret acc
          | Some _ =>
              r ← read_word ptr_addr layout;
              match r with
              | None => _ ← read_word len_addr layout; mret failed
              | Some other_ptr =>
                  r ← read_word len_addr layout;
                  match r with
                  | None => mret failed
                  | Some other_len =>
                      if nz (other_ptr |' other_len)
                         && bool_decide (Span.validate_target_span other_ptr other_len layout ≠ None)
                         && Span.spans_overlap ptr len other_ptr other_len
                      then mret (true, flags) else mret acc
                  end
              end
          end
      end
  end.

Definition alias_scan_core (base count skip ptr len : Z) (layout : LinuxLayout) : RM St (bool * Z) :=
  match Span.attribute_table_span count layout with
  | None => mret (false, 0)
  | Some table =>
      if bool_decide (Span.validate_target_span base table layout = None) then mret (false, 0)
      else
        let n := Z.min count MAX_ATTRIBUTE_SLOTS in
        for_each (seq 0 (Z.to_nat n)) (alias_slot base skip ptr len layout)
          (Span.spans_overlap ptr len base (n * 3 * word_bytes layout), 0)
  end.

(** [pack_stable_cell] and the argument codecs of the BPF globals. *)
Definition pack_stable_cell (status value : Z) (write_value : bool) (contrib : Z) : Z :=
  status |' (value << 8) |' (Z.b2z write_value << 24) |' (contrib << 32).

Definition unpack_stable_cell (packed : Z) : Z * Z * bool * Z :=
  (as_u8 packed, as_u16 (packed >> 8), nz ((packed >> 24) &' 1), as_u32 (packed >> 32)).

Definition ALIAS_SKIP_TAG_BIT : Z := 1 << 63.
Definition ALIAS_SKIP_VALUE_MASK : Z := ALIAS_SKIP_TAG_BIT - 1.

Definition encode_alias_skip_layout (skip : Z) (layout : LinuxLayout) : Z :=
  (skip &' ALIAS_SKIP_VALUE_MASK) |' match layout with Lp64 => 0 | Ilp32 => ALIAS_SKIP_TAG_BIT end.

Definition decode_alias_skip_layout (code : Z) : Z * LinuxLayout :=
  (code &' ALIAS_SKIP_VALUE_MASK, if code &' ALIAS_SKIP_TAG_BIT =? 0 then Lp64 else Ilp32).

(** The BPF global [p11_alias_scan], and the scan as the BPF programs call it:
    the skipped slot and the layout go in as one word, the verdict and the flags
    come out as one. *)
Definition alias_scan_packed (base count skip_tag ptr len : Z) : RM St Z :=
  let '(skip, layout) := decode_alias_skip_layout skip_tag in
  ' (alias, flags) ← alias_scan_core base count skip ptr len layout;
  mret (pack_alias_scan alias flags).

Definition request_alias_scan (base count skip ptr len : Z) (layout : LinuxLayout) : RM St (bool * Z) :=
  packed ← alias_scan_packed base count (encode_alias_skip_layout skip layout) ptr len;
  mret (unpack_alias_scan packed).

Definition encode_stable_kind_layout (kind : SafeAttributeKind) (layout : LinuxLayout) : Z :=
  (match layout with Lp64 => 0 | Ilp32 => 1 end << 8) |' safe_kind_code kind.

Definition decode_stable_kind_layout (code : Z) : option (SafeAttributeKind * LinuxLayout) :=
  if 1 <? code >> 8 then None
  else
    kind ← kind_from_code (as_u8 code);
    Some (kind, if code >> 8 =? 1 then Ilp32 else Lp64).

(** The recheck: every word is read before any is compared. *)
Definition stable_header (base index : Z) (kind : SafeAttributeKind) (ptr len : Z)
    (layout : LinuxLayout) (published : Z * Z) : RM St (Z * Z * bool * Z) :=
  match Span.attribute_header_addresses base index layout with
  | None => mret (attr_status.INVALID_SPAN, 0, false, 0)
  | Some (sel_addr, ptr_addr, len_addr) =>
      sel2 ← read_word sel_addr layout;
      ptr2 ← read_word ptr_addr layout;
      len2 ← read_word len_addr layout;
      mret match sel2, ptr2, len2 with
           | Some s, Some p, Some l =>
               if bool_decide (safe_attribute_kind s = Some kind) && (p =? ptr) && (l =? len)
               then (published.1, published.2, true, 0)
               else (attr_status.CHANGED, 0, false, object_flag.CHANGED_METADATA)
           | _, _, _ => (attr_status.UNREADABLE, 0, false, 0)
           end
  end.

Definition stable_cell_core (base index : Z) (kind : SafeAttributeKind) (ptr len : Z)
    (layout : LinuxLayout) : RM St (Z * Z * bool * Z) :=
  classified ← read_classified_value kind ptr len layout;
  match classified with
  | inr status =>
      if negb (status =? attr_status.UNSUPPORTED) then mret (status, 0, false, 0)
      else stable_header base index kind ptr len layout (attr_status.UNSUPPORTED, 0)
  | inl value => stable_header base index kind ptr len layout (attr_status.VALUE, value)
  end.

Definition stable_cell_poison : Z := pack_stable_cell attr_status.UNREADABLE 0 false 0.

(** The BPF global [p11_stable_cell]. *)
Definition stable_cell_packed (base index kind_layout ptr len : Z) : RM St Z :=
  match decode_stable_kind_layout kind_layout with
  | None => mret stable_cell_poison
  | Some (kind, layout) =>
      ' (status, value, write_value, contrib) ← stable_cell_core base index kind ptr len layout;
      mret (pack_stable_cell status value write_value contrib)
  end.

(** The call of that global: the kind and the layout go in as one word, the four
    facts come out as one. *)
Definition stable_cell (base index : Z) (kind : SafeAttributeKind) (ptr len : Z) (layout : LinuxLayout)
    : RM St (Z * Z * bool * Z) :=
  packed ← stable_cell_packed base index (encode_stable_kind_layout kind layout) ptr len;
  mret (unpack_stable_cell packed).

(** Publishes into the cell it is given. *)
Definition stable_attribute_cell (base index : Z) (kind : SafeAttributeKind) (ptr len : Z)
    (layout : LinuxLayout) (out : ObjectAttributeWire) : RM St (Z * ObjectAttributeWire) :=
  ' (status, value, write_value, contrib) ← stable_cell base index kind ptr len layout;
  mret (contrib, mkAttr (attr_kind out) status (if write_value : bool then value else attr_value out)).

Record RequestCellFacts := mkFacts {
  facts_kind : Z;
  facts_status : Z;
  facts_value : Z;
  facts_list_flags : Z;
  facts_object_flags : Z;
}.

Definition request_cell_facts_valid (f : RequestCellFacts) : bool :=
  ((facts_kind f =? 0) || bool_decide (kind_from_code (facts_kind f) ≠ None))
  && (facts_status f <=? attr_status.INSUFFICIENT_CAPACITY)
  && ((facts_value f =? 0) || (negb (facts_kind f =? 0) && (facts_status f =? attr_status.VALUE)))
  && (facts_list_flags f &~ attr_list_flag.HEADER_READ_FAILURE =? 0)
  && (facts_object_flags f &~ (object_flag.ALIAS |' object_flag.CHANGED_METADATA) =? 0).

Definition pack_request_cell (f : RequestCellFacts) : option Z :=
  if negb (request_cell_facts_valid f) then None
  else Some (facts_kind f |' (facts_status f << 8) |' (facts_value f << 16)
             |' (facts_list_flags f << 32) |' (facts_object_flags f << 40)).

Definition unpack_request_cell (packed : Z) : option RequestCellFacts :=
  if negb (packed >> 48 =? 0) then None
  else
    let f := mkFacts (as_u8 packed) (as_u8 (packed >> 8)) (as_u16 (packed >> 16))
               (as_u8 (packed >> 32)) (as_u8 (packed >> 40)) in
    if request_cell_facts_valid f then Some f else None.

Definition request_cell_poison : Z := attr_list_flag.HEADER_READ_FAILURE << 32.

Definition encode_request_cell_tag (index : Z) (layout : LinuxLayout) (peer : bool) : option Z :=
  if MAX_ATTRIBUTE_SLOTS <=? index then None
  else Some (index |' (Z.b2z (is_ilp32 layout) << 8) |' (Z.b2z peer << 9)).

Definition decode_request_cell_tag (tag : Z) : option (Z * LinuxLayout * bool) :=
  if negb (tag &~ 0x307 =? 0) then None
  else Some (tag &' 7, if tag &' 0x100 =? 0 then Lp64 else Ilp32, nz (tag &' 0x200)).

Definition failed_facts : RequestCellFacts := mkFacts 0 0 0 attr_list_flag.HEADER_READ_FAILURE 0.

(** The rescan of the peer template adds to what the own rescan found. *)
Definition scan_peer (peer : option (Z * Z)) (ptr len : Z) (layout : LinuxLayout) (own : bool * Z)
    : RM St (bool * Z) :=
  match peer with
  | None => mret own
  | Some (peer_base, peer_count) =>
      ' (a, f) ← request_alias_scan peer_base peer_count U64_MAX ptr len layout;
      mret (own.1 || a, own.2 |' f)
  end.

(** The part after the own header was read: the checks, the alias scans and the
    stable read. *)
Definition request_value (base count index : Z) (peer : option (Z * Z)) (layout : LinuxLayout)
    (kind : SafeAttributeKind) (ptr len : Z) : RM St RequestCellFacts :=
  let code := safe_kind_code kind in
  if ptr =? 0 then mret (mkFacts code attr_status.UNAVAILABLE 0 0 0)
  else if negb (valid_safe_attribute_length kind len layout)
  then mret (mkFacts code attr_status.INVALID_LENGTH 0 0 0)
  else if bool_decide (Span.validate_target_span ptr len layout = None)
  then mret (mkFacts code attr_status.INVALID_SPAN 0 0 0)
  else
    own ← request_alias_scan base count index ptr len layout;
    ' (alias, flags) ← scan_peer peer ptr len layout own;
    if alias : bool then mret (mkFacts code attr_status.ALIAS 0 flags object_flag.ALIAS)
    else
      ' (status, value, write_value, contrib) ← stable_cell base index kind ptr len layout;
      mret (mkFacts code status (if write_value : bool then value else 0) flags contrib).

Definition request_cell_core (base count index : Z) (peer : option (Z * Z)) (layout : LinuxLayout)
    : RM St RequestCellFacts :=
  match Span.attribute_header_addresses base index layout with
  | None => mret failed_facts
  | Some (selector_address, pointer_address, length_address) =>
      r ← read_word selector_address layout;
      match r with
      | None => mret failed_facts
      | Some selector =>
          match safe_attribute_kind selector with
          | None => mret (mkFacts 0 0 0 0 0)
          | Some kind =>
              let unreadable := mkFacts (safe_kind_code kind) attr_status.UNREADABLE 0
                                  attr_list_flag.HEADER_READ_FAILURE 0 in
              r ← read_word pointer_address layout;
              match r with
              | None => mret unreadable
              | Some ptr =>
                  r ← read_word length_address layout;
                  match r with
                  | None => mret unreadable
                  | Some len => request_value base count index peer layout kind ptr len
                  end
              end
          end
      end
  end.

Definition request_cell_packed (base count tag peer_base peer_count : Z) : RM St Z :=
  match decode_request_cell_tag tag with
  | None => mret request_cell_poison
  | Some (index, layout, has_peer) =>
    match Span.attribute_table_span count layout with
    | None => mret request_cell_poison
    | Some table =>
      let n := Z.min count MAX_ATTRIBUTE_SLOTS in
      if bool_decide (Span.validate_target_span base table layout = None)
         || (n <=? index)
         || bool_decide (checked_add 64 base (n * 3 * word_bytes layout) = None)
      then mret request_cell_poison
      else
        facts ← request_cell_core base count index
                  (if has_peer : bool then Some (peer_base, peer_count) else None) layout;
        mret (default request_cell_poison (pack_request_cell facts))
    end
  end.

Definition request_cell (base count index : Z) (peer : option (Z * Z)) (layout : LinuxLayout)
    : RM St RequestCellFacts :=
  match encode_request_cell_tag index layout (bool_decide (peer ≠ None)) with
  | None => mret failed_facts
  | Some tag =>
      let '(peer_base, peer_count) := default (0, 0) peer in
      packed ← request_cell_packed base count tag peer_base peer_count;
      mret (default failed_facts (unpack_request_cell packed))
  end.

(** One slot of the output list, with the contributed object flags. *)
Definition publish_slot (template_ptr count : Z) (peer : option (Z * Z)) (layout : LinuxLayout)
    (i : nat) (acc : ObjectAttributeListWire * Z) : RM St (ObjectAttributeListWire * Z) :=
  let '(out, contributed) := acc in
  facts ← request_cell template_ptr count (Z.of_nat i) peer layout;
  mret (mkAttrs (<[i := mkAttr (facts_kind facts) (facts_status facts) (facts_value facts)]> (cells out))
          (inspected out) (list_flags out |' facts_list_flags facts) (list_reserved out),
        contributed |' facts_object_flags facts).

Definition cleared_list (n flags : Z) : ObjectAttributeListWire :=
  mkAttrs (replicate 8 (mkAttr 0 0 0)) n flags 0.

Definition inspect_request_template_into (template_ptr count : Z) (peer : option (Z * Z))
    (layout : LinuxLayout) : RM St (ObjectAttributeListWire * Z) :=
  let refused := (cleared_list 0 attr_list_flag.INVALID_SPAN, 0) in
  match Span.attribute_table_span count layout with
  | None => mret refused
  | Some table =>
    if bool_decide (Span.validate_target_span template_ptr table layout = None) then mret refused
    else
      let n := Z.min count MAX_ATTRIBUTE_SLOTS in
      if bool_decide (checked_add 64 template_ptr (n * 3 * word_bytes layout) = None) then mret refused
      else
        let flags := (if 0 <? n then attr_list_flag.PRESENT else 0)
                     |' (if MAX_ATTRIBUTE_SLOTS <? count then attr_list_flag.TRUNCATED else 0) in
        if n =? 0 then mret (cleared_list (as_u8 n) flags, 0)
        else
          flags ← match peer with
                  | None => mret flags
                  | Some (base, count) =>
                      ' (_, f) ← request_alias_scan base count U64_MAX 0 0 layout;
                      mret (flags |' f)
                  end;
          for_each (seq 0 (Z.to_nat n)) (publish_slot template_ptr count peer layout)
            (cleared_list (as_u8 n) flags, 0)
  end.

End Protocols.

Lemma rm_bind_eq {S A B} (m : RM S A) (k : A → RM S B) s : (m ≫= k) s = let '(a, s') := m s in k a s'.
Proof. done. Qed.

Lemma classify_scalar_u16 k v x : classify_attribute_scalar k v = Some x → is_u16 x.
Proof.
  unfold classify_attribute_scalar. destruct (match k with Class_ => _ | _ => _ end); [|done].
  intros [= <-]. by apply wrap_width.
Qed.

(** ** Loops *)

Lemma for_each_seq_inv {S A} (P : nat → A → Prop) (body : nat → A → RM S A) start m a s :
  P start a → (∀ i a s, (start <= i < start + m)%nat → P i a → P (i + 1)%nat (body i a s).1) →
  P (start + m)%nat (for_each (seq start m) body a s).1.
Proof.
  revert start a s. induction m as [|m IH]; intros start a s Ha Hb.
  { by rewrite Nat.add_0_r. }
  cbn [seq for_each]. rewrite rm_bind_eq. pose proof (Hb start a s ltac:(lia) Ha) as Hn.
  destruct (body start a s) as [a' s']. rewrite <- Nat.add_succ_comm. cbn [fst] in Hn.
  apply IH; [by rewrite <- Nat.add_1_r|]. intros i b t Hi. apply Hb. lia.
Qed.

(** Two loops whose bodies are related step by step. *)
Lemma for_each_seq_sim {S A B} (R : nat → A → B → Prop) (f : nat → A → RM S A) (g : nat → B → RM S B)
    start m a b s :
  R start a b →
  (∀ i a b s, (start <= i < start + m)%nat → R i a b →
     R (i + 1)%nat (f i a s).1 (g i b s).1 ∧ (f i a s).2 = (g i b s).2) →
  R (start + m)%nat (for_each (seq start m) f a s).1 (for_each (seq start m) g b s).1 ∧
  (for_each (seq start m) f a s).2 = (for_each (seq start m) g b s).2.
Proof.
  revert start a b s. induction m as [|m IH]; intros start a b s Hr Hs.
  { by rewrite Nat.add_0_r. }
  cbn [seq for_each]. rewrite !rm_bind_eq. pose proof (Hs start a b s ltac:(lia) Hr) as [Hr' Hst].
  destruct (f start a s) as [a' s1], (g start b s) as [b' s2]. cbn [fst snd] in *. subst s2.
  rewrite <- Nat.add_succ_comm. apply IH; [by rewrite <- Nat.add_1_r|]. intros i c d t Hi. apply Hs. lia.
Qed.
