(* ===== verification/CaptureBoundary.v ===== *)
(** * The packed boundaries of the capture lose nothing

    On the BPF target the alias scan and the stable read of
    [crates/ebpf-common/src/object_capture.rs] are globals that take and return
    scalars: [p11_alias_scan] and [p11_stable_cell].  For every reader the calls
    through the packed words are the shared cores ([request_alias_scan_eq],
    [stable_cell_eq]): the arguments decode to what was encoded, and what the
    cores answer fits the fields it is packed into. *)
From S2P Require Import Prelude TargetAbi Bytes ObjectPolicy ObjectWire Capture.

Lemma for_each_ext {S A} (l : list nat) (f g : nat → A → RM S A) a s :
  (∀ i b t, i ∈ l → f i b t = g i b t) → for_each l f a s = for_each l g a s.
Proof.
  revert a s. induction l as [|i l IH]; intros a s E; [done|]. cbn [for_each]. rewrite !rm_bind_eq.
  rewrite E by set_solver. destruct (g i a s) as [b t]. apply IH. intros. apply E. set_solver.
Qed.

Section Boundary.
Context {St : Type} `{TargetReader St} `{TargetWidth}.

(** ** The alias scan *)

Lemma alias_scan_flags base count skip ptr len l (s : St) :
  (alias_scan_core base count skip ptr len l s).1.2 = 0 ∨
  (alias_scan_core base count skip ptr len l s).1.2 = attr_list_flag.HEADER_READ_FAILURE.
Proof.
  unfold alias_scan_core. destruct (Span.attribute_table_span _ _); [|by left]. destruct (bool_decide _); [by left|].
  apply (for_each_seq_inv (λ _ acc, acc.2 = 0 ∨ acc.2 = attr_list_flag.HEADER_READ_FAILURE)); [by left|].
  intros i [a f] t _ Hf. cbn [snd] in Hf.
  assert (Hfail : f |' attr_list_flag.HEADER_READ_FAILURE = attr_list_flag.HEADER_READ_FAILURE) by (by destruct Hf as [-> | ->]).
  unfold alias_slot, mbind, rm_bind, mret, rm_ret. rewrite Hfail.
  destruct (_ =? _); [done|]. destruct (Span.attribute_header_addresses _ _ _) as [[[sa pa] la]|]; [|by right].
  destruct (read_word sa l t) as [[sel|] t1]; [|by right]. destruct (safe_attribute_kind sel); [|done].
  destruct (read_word pa l t1) as [[p|] t2]; [|destruct (read_word la l t2); by right].
  destruct (read_word la l t2) as [[q|] t3]; [|by right]. by destruct (_ && _).
Qed.

Lemma alias_scan_roundtrip alias flags :
  is_u8 flags → unpack_alias_scan (pack_alias_scan alias flags) = (alias, flags).
Proof.
  intros Hf. unfold unpack_alias_scan, pack_alias_scan, nz.
  rewrite lor_shiftl_add by (destruct alias; done || lia).
  change 1 with (2 ^ 1 - 1). rewrite land_ones_mod by lia. f_equal; [destruct alias; simpl|destruct alias; simpl]; word_lia.
Qed.

Lemma alias_skip_roundtrip skip l :
  decode_alias_skip_layout (encode_alias_skip_layout skip l) = (skip mod 2 ^ 63, l).
Proof.
  unfold decode_alias_skip_layout, encode_alias_skip_layout, ALIAS_SKIP_VALUE_MASK, ALIAS_SKIP_TAG_BIT.
  set (b := match l with Lp64 => 0 | Ilp32 => 1 end).
  replace (match l with Lp64 => 0 | Ilp32 => 1 << 63 end) with (b << 63) by (by destruct l).
  change (1 << 63) with (2 ^ 63). rewrite !land_ones_mod, lor_shiftl_add by (lia || word_lia).
  rewrite land_bit, Z.testbit_odd, Z.shiftr_div_pow2 by lia. f_equal; [destruct l; subst b; word_lia|].
  replace ((skip mod 2 ^ 63 + b * 2 ^ 63) / 2 ^ 63) with b by (destruct l; subst b; word_lia).
  by destruct l.
Qed.

Lemma alias_slot_skip base skip skip' ptr len l j acc (s : St) :
  (Z.of_nat j =? skip) = (Z.of_nat j =? skip') →
  alias_slot base skip ptr len l j acc s = alias_slot base skip' ptr len l j acc s.
Proof. intros E. unfold alias_slot. by rewrite E. Qed.

Lemma alias_scan_skip base count skip skip' ptr len l (s : St) :
  (∀ j, 0 <= j < 8 → (j =? skip) = (j =? skip')) →
  alias_scan_core base count skip ptr len l s = alias_scan_core base count skip' ptr len l s.
Proof.
  intros E. unfold alias_scan_core, MAX_ATTRIBUTE_SLOTS. destruct (Span.attribute_table_span _ _); [|done].
  destruct (bool_decide _); [done|].
  apply for_each_ext. intros j acc t Hj%elem_of_seq. apply alias_slot_skip, E. lia.
Qed.

(** The call through the packed words is the scan itself: a slot index survives
    the tag, and [u64::MAX] becomes another index that no slot has. *)
Lemma request_alias_scan_eq base count skip ptr len l (s : St) :
  0 <= skip < 2 ^ 63 ∨ skip = U64_MAX →
  request_alias_scan base count skip ptr len l s = alias_scan_core base count skip ptr len l s.
Proof.
  intros Hs. unfold request_alias_scan, alias_scan_packed, mbind, rm_bind, mret, rm_ret.
  rewrite alias_skip_roundtrip.
  rewrite (alias_scan_skip base count (skip mod 2 ^ 63) skip).
  2: { intros j Hj. destruct Hs as [Hs|Hs]; [by rewrite Z.mod_small|]. rewrite Hs. unfold U64_MAX.
       destruct (Z.eqb_spec j ((2 ^ 64 - 1) mod 2 ^ 63)), (Z.eqb_spec j (2 ^ 64 - 1)); word_lia. }
  pose proof (alias_scan_flags base count skip ptr len l s) as Hf.
  destruct (alias_scan_core _ _ _ _ _ _ s) as [[a f] t]. cbn [fst snd] in Hf.
  rewrite alias_scan_roundtrip by (destruct Hf as [-> | ->]; done). done.
Qed.

(** ** The stable cell *)

Definition read_status (st : Z) : Prop :=
  st = attr_status.UNSUPPORTED ∨ st = attr_status.UNREADABLE ∨ st = attr_status.INVALID_LENGTH.

Lemma read_classified_ok k ptr len l (s : St) :
  match (read_classified_value k ptr len l s).1 with inl v => is_u16 v | inr st => read_status st end.
Proof.
  assert (Hc : ∀ k v, match (match classify_attribute_scalar k v with Some v => inl v | None => inr attr_status.UNSUPPORTED end) with
    | inl v => is_u16 v | inr st => read_status st end).
  { intros k' v. destruct (classify_attribute_scalar k' v) eqn:E; [by eapply classify_scalar_u16|by left]. }
  unfold read_classified_value, mbind, rm_bind, mret, rm_ret. destruct k.
  1,2,4,5: destruct (read_word ptr l s) as [[w|] t]; cbn [fst]; [|by right; left];
    (destruct (is_ilp32 l && _); [by left|apply Hc]).
  - destruct (read_bytes ptr 1 s) as [[b|] t]; cbn [fst]; [apply Hc|by right; left].
  - destruct (negb _ && _); [by right; right|]. destruct (read_bytes ptr _ s) as [[b|] t]; cbn [fst]; [|by right; left].
    destruct (classify_ec_params b) as [c|]; [by destruct c|by left].
Qed.

Definition stable_ok (x : Z * Z * bool * Z) : Prop :=
  let '(st, v, _, contrib) := x in
  0 <= st <= 10 ∧ is_u16 v ∧ (st ≠ 1 → v = 0) ∧ (contrib = 0 ∨ contrib = object_flag.CHANGED_METADATA).

Lemma stable_cell_ok base index k ptr len l (s : St) :
  stable_ok (stable_cell_core base index k ptr len l s).1.
Proof.
  assert (Hh : ∀ pub t, 0 <= pub.1 <= 10 → is_u16 pub.2 → (pub.1 ≠ 1 → pub.2 = 0) →
    stable_ok (stable_header base index k ptr len l pub t).1).
  { intros pub t H1 H2 H3. assert (Hz : ∀ st, 0 <= st <= 10 → stable_ok (st, 0, false, 0)) by (intros; split_and!; auto; lia || done).
    unfold stable_header, mbind, rm_bind, mret, rm_ret.
    destruct (Span.attribute_header_addresses _ _ _) as [[[sa pa] la]|]; [|by apply Hz].
    destruct (read_word sa l t) as [sel t1], (read_word pa l t1) as [p t2], (read_word la l t2) as [n t3]. cbn [fst].
    destruct sel as [sel|], p as [p|], n as [n|]; try (by apply Hz).
    destruct (_ && _); split_and!; auto; done || lia. }
  unfold stable_cell_core. rewrite rm_bind_eq. pose proof (read_classified_ok k ptr len l s) as Hr.
  destruct (read_classified_value k ptr len l s) as [[v|st] t]; cbn [fst] in Hr.
  - by apply Hh.
  - destruct (Z.eqb_spec st attr_status.UNSUPPORTED) as [->|]; cbn [negb]; [by apply Hh|].
    destruct Hr as [-> | [-> | ->]]; cbn; split_and!; auto; done.
Qed.

Lemma stable_cell_roundtrip status value write_value contrib :
  is_u8 status → is_u16 value → is_u32 contrib →
  unpack_stable_cell (pack_stable_cell status value write_value contrib) = (status, value, write_value, contrib).
Proof.
  intros Hs Hv Hc. unfold unpack_stable_cell, pack_stable_cell, nz.
  assert (Hw : 0 <= Z.b2z write_value <= 1) by (by destruct write_value).
  set (w := Z.b2z write_value) in *.
  rewrite (lor_shiftl_add 8), (lor_shiftl_add 24), (lor_shiftl_add 32) by (unfold in_width in *; lia).
  change 1 with (2 ^ 1 - 1) at 1. rewrite land_ones_mod by lia.
  assert (((status + value * 2 ^ 8 + w * 2 ^ 24 + contrib * 2 ^ 32) >> 24) mod 2 ^ 1 = w) as ->
    by (width; word_lia).
  repeat f_equal; try (width; word_lia). subst w. by destruct write_value.
Qed.

Lemma stable_kind_roundtrip k l : decode_stable_kind_layout (encode_stable_kind_layout k l) = Some (k, l).
Proof. by destruct k, l. Qed.

(** The call through the packed words is the read itself. *)
Lemma stable_cell_eq base index k ptr len l (s : St) :
  stable_cell base index k ptr len l s = stable_cell_core base index k ptr len l s.
Proof.
  unfold stable_cell, stable_cell_packed, mbind, rm_bind, mret, rm_ret. rewrite stable_kind_roundtrip.
  pose proof (stable_cell_ok base index k ptr len l s) as Hok.
  destruct (stable_cell_core _ _ _ _ _ _ s) as [[[[st v] w] contrib] t]. cbn [fst] in Hok.
  destruct Hok as (H1 & H2 & _ & H3).
  rewrite stable_cell_roundtrip; [done|unfold in_width; lia|done|by destruct H3 as [-> | ->]].
Qed.

Lemma stable_attribute_cell_eq base index k ptr len l out (s : St) :
  stable_attribute_cell base index k ptr len l out s =
  let '((status, value, write_value, contrib), t) := stable_cell_core base index k ptr len l s in
  ((contrib, mkAttr (attr_kind out) status (if write_value : bool then value else attr_value out)), t).
Proof.
  unfold stable_attribute_cell. rewrite rm_bind_eq, stable_cell_eq.
  by destruct (stable_cell_core _ _ _ _ _ _ s) as [[[[? ?] ?] ?] ?].
Qed.

End Boundary.
