(* ===== verification/RequestEquiv.v ===== *)
(** * The two request inspections agree

    The streamed inspection [Capture.inspect_request_template_into] of
    [crates/ebpf-common/src/object_capture.rs] passes every slot through a packed
    scalar and rereads the neighbouring headers for each slot; the array-based
    [Capture.inspect_request_template] reads each header once and works in four
    phases.  Both are reduced to the same per-slot specification over a target
    memory that does not change ([Section Memory]); [facts] of one slot survive
    the packing ([request_cell_roundtrip]), as the alias scans and the stable
    reads they are made of survive theirs ([CaptureBoundary]). *)
From S2P Require Import Prelude TargetAbi Bytes ObjectPolicy ObjectWire Capture CaptureBoundary.

(** ** The packed boundary loses nothing *)

Lemma lor_field k x y : 0 <= k → in_width k x → x |' (y << k) = x + y * 2 ^ k.
Proof. apply lor_shiftl_add. Qed.

(** The fields a packed cell can hold. *)
Definition facts_widths (f : RequestCellFacts) : Prop :=
  is_u8 (facts_kind f) ∧ is_u8 (facts_status f) ∧ is_u16 (facts_value f) ∧
  is_u8 (facts_list_flags f) ∧ is_u8 (facts_object_flags f).

Lemma request_cell_roundtrip f :
  facts_widths f → request_cell_facts_valid f = true →
  ∃ p, pack_request_cell f = Some p ∧ unpack_request_cell p = Some f.
Proof.
  intros (Hk & Hs & Hv & Hl & Ho) Hf. unfold pack_request_cell. rewrite Hf. cbn [negb]. eexists. split; [done|].
  destruct f as [k st v lf ob]. cbn [facts_kind facts_status facts_value facts_list_flags facts_object_flags] in *.
  unfold in_width in *.
  rewrite (lor_field 8 k st), (lor_field 16 _ v), (lor_field 32 _ lf), (lor_field 40 _ ob)
    by (unfold in_width; lia).
  unfold unpack_request_cell. rewrite !Z.shiftr_div_pow2 by lia.
  assert (E : ∀ p, p = k + st * 2 ^ 8 + v * 2 ^ 16 + lf * 2 ^ 32 + ob * 2 ^ 40 →
    p / 2 ^ 48 = 0 ∧ p mod 2 ^ 8 = k ∧ (p / 2 ^ 8) mod 2 ^ 8 = st ∧ (p / 2 ^ 16) mod 2 ^ 16 = v ∧
    (p / 2 ^ 32) mod 2 ^ 8 = lf ∧ (p / 2 ^ 40) mod 2 ^ 8 = ob).
  { intros p ->. split_and!; Z.div_mod_to_equations; lia. }
  destruct (E _ eq_refl) as (-> & E1 & E2 & E3 & E4 & E5). unfold as_u8, as_u16, wrap.
  rewrite E1, E2, E3, E4, E5. cbn [Z.eqb negb]. by rewrite Hf.
Qed.

(** ** The two request inspections agree on stable memory *)

(** Slotwise updates of an array. *)
Definition upd {A} (x : nat → option A) (slots : list nat) (l : list A) : list A :=
  foldl (λ l i, match x i with Some v => <[i := v]> l | None => l end) l slots.

Lemma upd_cons {A} (x : nat → option A) i slots l :
  upd x (i :: slots) l = upd x slots (match x i with Some v => <[i := v]> l | None => l end).
Proof. done. Qed.

Lemma upd_length {A} (x : nat → option A) slots l : length (upd x slots l) = length l.
Proof.
  revert l. induction slots as [|i slots IH]; intros l; [done|].
  rewrite upd_cons, IH. destruct (x i); [apply length_insert|done].
Qed.

Lemma nth_upd {A} (x : nat → option A) slots l j d :
  (j < length l)%nat →
  nth j (upd x slots l) d = if decide (j ∈ slots) then default (nth j l d) (x j) else nth j l d.
Proof.
  revert l. induction slots as [|i slots IH]; intros l Hj; [done|].
  rewrite upd_cons. set (l' := match x i with Some v => <[i := v]> l | None => l end).
  assert (Hl : length l' = length l) by (unfold l'; destruct (x i); [apply length_insert|done]).
  rewrite IH by lia.
  assert (Hn : nth j l' d = if decide (i = j) then default (nth j l d) (x j) else nth j l d).
  { unfold l'. destruct (x i) as [v|] eqn:Ex; [rewrite nth_insert by done|];
      destruct (decide (i = j)) as [<-|]; rewrite ?Ex; done. }
  rewrite Hn. destruct (decide (i = j)) as [->|Hne]; rewrite ?(decide_True (P := j ∈ j :: slots)) by set_solver.
  - case_decide; destruct (x j); done.
  - destruct (decide (j ∈ slots)), (decide (j ∈ i :: slots)); try done; set_solver.
Qed.

(** A failed header contributes one list flag. *)
Definition hrf (b : bool) : Z := if b then attr_list_flag.HEADER_READ_FAILURE else 0.

Lemma hrf_or a b : hrf a |' hrf b = hrf (a || b).
Proof. by destruct a, b. Qed.

Section Memory.
Context `{TargetWidth} (mem : Z → LinuxLayout → option Z) (membytes : Z → nat → option (list Z)).
Context (layout : LinuxLayout).

(** A target that does not change: a read depends on its address only. *)
#[local] Instance memory : TargetReader unit := {|
  read_word := λ a l s, (mem a l, s);
  read_bytes := λ a n s, (membytes a n, s);
|}.

(** What the three header words of a slot say. *)
Inductive hdr :=
| HFailed
| HUnknown
| HUnreadable (k : SafeAttributeKind)
| HSelected (k : SafeAttributeKind) (sel ptr len : Z).

Definition hdr_at (base : Z) (i : nat) : hdr :=
  match Span.attribute_header_addresses base (Z.of_nat i) layout with
  | None => HFailed
  | Some (sel_addr, ptr_addr, len_addr) =>
      match mem sel_addr layout with
      | None => HFailed
      | Some sel =>
          match safe_attribute_kind sel with
          | None => HUnknown
          | Some k =>
              match mem ptr_addr layout, mem len_addr layout with
              | Some ptr, Some len => HSelected k sel ptr len
              | _, _ => HUnreadable k
              end
          end
      end
  end.

Definition hdr_failed (h : hdr) : bool :=
  match h with HFailed | HUnreadable _ => true | _ => false end.

Definition hdr_header (h : hdr) : header :=
  match h with HSelected k sel ptr len => Some (k, sel, ptr, len) | _ => None end.

(** The cell phase A leaves. *)
Definition hdr_cell (h : hdr) : option AttrCell :=
  match h with HUnreadable k => Some (mkCell (safe_kind_code k) attr_status.UNREADABLE 0) | _ => None end.

Lemma own_header_pure base i o headers :
  own_header base layout i (o, headers) tt =
  ((mkOutcome (match hdr_cell (hdr_at base i) with Some c => <[i := c]> (out_cells o) | None => out_cells o end)
      (out_inspected o) (out_flags o |' hrf (hdr_failed (hdr_at base i))) (out_object_flags o),
    match hdr_header (hdr_at base i) with Some h => <[i := Some h]> headers | None => headers end), tt).
Proof.
  unfold own_header, hdr_at, mbind, rm_bind, mret, rm_ret. destruct o as [oc oi ofl oo].
  destruct (Span.attribute_header_addresses _ _ _) as [[[sa pa] la]|]; [|done]. cbn [read_word memory].
  destruct (mem sa layout) as [sel|]; [|done].
  destruct (safe_attribute_kind sel) as [k|]; [|by cbn; rewrite Z.lor_0_r].
  destruct (mem pa layout) as [ptr|]; [|done].
  destruct (mem la layout) as [len|]; [by cbn; rewrite Z.lor_0_r|done].
Qed.

Lemma own_headers_pure base slots o headers :
  for_each slots (own_header base layout) (o, headers) tt =
  ((mkOutcome (upd (λ i, hdr_cell (hdr_at base i)) slots (out_cells o)) (out_inspected o)
      (out_flags o |' hrf (existsb (λ i, hdr_failed (hdr_at base i)) slots)) (out_object_flags o),
    upd (λ i, Some <$> hdr_header (hdr_at base i)) slots headers), tt).
Proof.
  revert o headers. induction slots as [|i slots IH]; intros o headers.
  { cbn. rewrite Z.lor_0_r. by destruct o. }
  cbn [for_each]. unfold mbind, rm_bind. rewrite own_header_pure, IH.
  cbn [out_cells out_inspected out_flags out_object_flags existsb]. rewrite !upd_cons.
  rewrite <- Z.lor_assoc, hrf_or. do 3 f_equal. by destruct (hdr_header (hdr_at base i)).
Qed.

(** Whether the stated span of a slot overlaps a value span. *)
Definition span_hit (ptr len : Z) (h : hdr) : bool :=
  match h with
  | HSelected _ _ p l =>
      nz (p |' l) && bool_decide (Span.validate_target_span p l layout ≠ None)
      && Span.spans_overlap ptr len p l
  | _ => false
  end.

(** The reference asks for a nonzero pointer and a nonzero length. *)
Lemma stated_span_eq ptr len p l :
  negb (p =? 0) && negb (l =? 0) && bool_decide (Span.validate_target_span p l layout ≠ None)
  && Span.spans_overlap ptr len p l =
  nz (p |' l) && bool_decide (Span.validate_target_span p l layout ≠ None)
  && Span.spans_overlap ptr len p l.
Proof.
  unfold nz. destruct (Z.eqb_spec l 0) as [->|Hl].
  { replace (Span.spans_overlap ptr len p 0) with false by (unfold Span.spans_overlap; by rewrite orb_true_r).
    by rewrite !andb_false_r. }
  destruct (Z.eqb_spec p 0) as [->|Hp]; cbn [negb andb].
  - rewrite (bool_decide_false (Span.validate_target_span 0 l layout ≠ None)), andb_false_r; [done|].
    intros Hv. apply Hv. unfold Span.validate_target_span.
    by rewrite (proj2 (Z.eqb_neq l 0) Hl).
  - destruct (Z.eqb_spec (p |' l) 0) as [E|]; [|done]. apply Z.lor_eq_0_iff in E. lia.
Qed.

(** The slots a scan of a template visits; [None] for a refused table. *)
Definition scan_count (base count : Z) : option Z :=
  match Span.attribute_table_span count layout with
  | None => None
  | Some table =>
      if bool_decide (Span.validate_target_span base table layout = None) then None
      else Some (Z.min count MAX_ATTRIBUTE_SLOTS)
  end.

Lemma scan_count_Some base count n :
  scan_count base count = Some n →
  ∃ table, Span.attribute_table_span count layout = Some table ∧
    Span.validate_target_span base table layout ≠ None ∧ n = Z.min count MAX_ATTRIBUTE_SLOTS.
Proof.
  unfold scan_count. destruct (Span.attribute_table_span _ _); [|done].
  case_bool_decide; [done|]. intros [= <-]. eauto.
Qed.

Definition slots_of (n : Z) : list nat := seq 0 (Z.to_nat n).

(** What the scan of one template finds for a value span, slot [skip] apart. *)
Definition scan_hit (base count skip ptr len : Z) : bool :=
  match scan_count base count with
  | None => false
  | Some n =>
      Span.spans_overlap ptr len base (n * 3 * word_bytes layout)
      || existsb (λ j, negb (Z.of_nat j =? skip) && span_hit ptr len (hdr_at base j)) (slots_of n)
  end.

Definition scan_failed (base count skip : Z) : bool :=
  match scan_count base count with
  | None => false
  | Some n =>
      existsb (λ j, negb (Z.of_nat j =? skip) && hdr_failed (hdr_at base j)) (slots_of n)
  end.

Lemma alias_slot_pure base skip ptr len j a f :
  alias_slot base skip ptr len layout j (a, f) tt =
  ((a || (negb (Z.of_nat j =? skip) && span_hit ptr len (hdr_at base j)),
    f |' hrf (negb (Z.of_nat j =? skip) && hdr_failed (hdr_at base j))), tt).
Proof.
  unfold alias_slot, hdr_at, mbind, rm_bind, mret, rm_ret.
  destruct (Z.of_nat j =? skip); [cbn; by rewrite orb_false_r, Z.lor_0_r|].
  destruct (Span.attribute_header_addresses _ _ _) as [[[sa pa] la]|]; [|by cbn; rewrite orb_false_r].
  cbn [read_word memory]. destruct (mem sa layout) as [sel|]; [|by cbn; rewrite orb_false_r].
  destruct (safe_attribute_kind sel) as [k|]; [|by cbn; rewrite orb_false_r, Z.lor_0_r].
  destruct (mem pa layout) as [p|]; [|by cbn; rewrite orb_false_r].
  destruct (mem la layout) as [l|]; [|by cbn; rewrite orb_false_r].
  cbn [hdr_failed span_hit negb andb hrf]. rewrite Z.lor_0_r.
  destruct (_ && _); [by rewrite orb_true_r | by rewrite orb_false_r].
Qed.

Lemma alias_slots_pure base skip ptr len slots a b :
  for_each slots (alias_slot base skip ptr len layout) (a, hrf b) tt =
  ((a || existsb (λ j, negb (Z.of_nat j =? skip) && span_hit ptr len (hdr_at base j)) slots,
    hrf (b || existsb (λ j, negb (Z.of_nat j =? skip) && hdr_failed (hdr_at base j)) slots)), tt).
Proof.
  revert a b. induction slots as [|j slots IH]; intros a b.
  { cbn. by rewrite !orb_false_r. }
  cbn [for_each]. unfold mbind, rm_bind. rewrite alias_slot_pure, hrf_or, IH. cbn [existsb].
  by rewrite !orb_assoc.
Qed.

Lemma alias_scan_pure base count skip ptr len :
  alias_scan_core base count skip ptr len layout tt =
  ((scan_hit base count skip ptr len, hrf (scan_failed base count skip)), tt).
Proof.
  unfold alias_scan_core, scan_hit, scan_failed, scan_count.
  destruct (Span.attribute_table_span _ _) as [table|]; [|done].
  case_bool_decide; [done|]. unfold slots_of.
  exact (alias_slots_pure base skip ptr len _ _ false).
Qed.

(** The classified value and its status. *)
Definition spec_value (k : SafeAttributeKind) (ptr len : Z) : Z * Z :=
  match (read_classified_value k ptr len layout tt).1 with
  | inl v => (attr_status.VALUE, v)
  | inr status => (status, 0)
  end.

Lemma unit_pair {A} (x : A * unit) : x = (x.1, tt).
Proof. by destruct x as [? []]. Qed.

Lemma hdr_selected base i k sel ptr len :
  hdr_at base i = HSelected k sel ptr len →
  ∃ sa pa la, Span.attribute_header_addresses base (Z.of_nat i) layout = Some (sa, pa, la) ∧
    mem sa layout = Some sel ∧ mem pa layout = Some ptr ∧ mem la layout = Some len ∧
    safe_attribute_kind sel = Some k.
Proof.
  unfold hdr_at. destruct (Span.attribute_header_addresses _ _ _) as [[[sa pa] la]|]; [|done].
  destruct (mem sa layout) as [s|] eqn:Es; [|done]. destruct (safe_attribute_kind s) as [k'|] eqn:Ek; [|done].
  destruct (mem pa layout) as [p|] eqn:Ep, (mem la layout) as [l|] eqn:El; try done.
  intros [= -> -> -> ->]. eauto 10.
Qed.

Lemma stable_cell_pure base i k sel ptr len :
  hdr_at base i = HSelected k sel ptr len →
  ∃ write, stable_cell_core base (Z.of_nat i) k ptr len layout tt =
    (((spec_value k ptr len).1, (spec_value k ptr len).2, write, 0), tt) ∧
    (write = false → (spec_value k ptr len).2 = 0).
Proof.
  intros (sa & pa & la & Ea & Es & Ep & El & Ek)%hdr_selected.
  unfold stable_cell_core, spec_value, mbind, rm_bind.
  rewrite (unit_pair (read_classified_value _ _ _ _ _)).
  assert (Hh : ∀ pub, stable_header base (Z.of_nat i) k ptr len layout pub tt = ((pub.1, pub.2, true, 0), tt)).
  { intros pub. unfold stable_header, mbind, rm_bind, mret, rm_ret. rewrite Ea. cbn [read_word memory].
    rewrite Es, Ep, El, bool_decide_true, !Z.eqb_refl by done. done. }
  destruct ((read_classified_value k ptr len layout tt).1) as [v|status]; cbn [fst snd].
  - rewrite Hh. by exists true.
  - destruct (Z.eqb_spec status attr_status.UNSUPPORTED) as [->|]; cbn [negb].
    + rewrite Hh. by exists true.
    + by exists false.
Qed.

Lemma spec_value_ok k ptr len :
  0 <= (spec_value k ptr len).1 <= attr_status.INSUFFICIENT_CAPACITY ∧
  is_u16 (spec_value k ptr len).2 ∧
  ((spec_value k ptr len).2 ≠ 0 → (spec_value k ptr len).1 = attr_status.VALUE).
Proof.
  assert (Hz : ∀ st, 0 <= st <= 10 → 0 <= st <= attr_status.INSUFFICIENT_CAPACITY ∧ is_u16 0 ∧
    (0 ≠ 0 → st = attr_status.VALUE)) by (intros; unfold attr_status.INSUFFICIENT_CAPACITY; width; lia).
  assert (Hv : ∀ v, is_u16 v → 0 <= attr_status.VALUE <= attr_status.INSUFFICIENT_CAPACITY ∧ is_u16 v ∧
    (v ≠ 0 → attr_status.VALUE = attr_status.VALUE)) by (intros; split_and!; done).
  unfold spec_value, read_classified_value, mbind, rm_bind, mret, rm_ret. cbn [read_word read_bytes memory].
  destruct k.
  1,2,4,5: destruct (mem ptr layout) as [w|]; [|by apply Hz]; cbn [fst snd];
    destruct (is_ilp32 layout && _); [by apply Hz|];
    destruct (classify_attribute_scalar _ w) eqn:E; [apply Hv; by eapply classify_scalar_u16 | by apply Hz].
  - destruct (membytes ptr 1) as [l|]; [|by apply Hz]; cbn [fst snd].
    destruct (classify_attribute_scalar _ _) eqn:E; [apply Hv; by eapply classify_scalar_u16 | by apply Hz].
  - destruct (negb (len =? 7) && negb (len =? 10)); [by apply Hz|].
    destruct (membytes ptr (Z.to_nat len)) as [l|]; [|by apply Hz]; cbn [fst snd].
    destruct (classify_ec_params l) as [c|]; [|by apply Hz]. destruct c; by apply Hv.
Qed.

Section Own.
Context (base count : Z) (peer : option (Z * Z)).

Definition peer_hit (ptr len : Z) : bool :=
  match peer with None => false | Some (pb, pc) => scan_hit pb pc U64_MAX ptr len end.

Definition peer_failed : bool :=
  match peer with None => false | Some (pb, pc) => scan_failed pb pc U64_MAX end.

(** Whether a selected slot is viable and aliased. *)
Definition alias_at (i : nat) : bool :=
  match hdr_at base i with
  | HSelected k _ ptr len =>
      bool_decide (refusal k ptr len layout = None)
      && (scan_hit base count (Z.of_nat i) ptr len || peer_hit ptr len)
  | _ => false
  end.

(** The cell of slot [i]. *)
Definition spec_cell (i : nat) : AttrCell :=
  match hdr_at base i with
  | HFailed | HUnknown => zero_cell
  | HUnreadable k => mkCell (safe_kind_code k) attr_status.UNREADABLE 0
  | HSelected k _ ptr len =>
      match refusal k ptr len layout with
      | Some status => mkCell (safe_kind_code k) status 0
      | None =>
          if alias_at i then mkCell (safe_kind_code k) attr_status.ALIAS 0
          else mkCell (safe_kind_code k) (spec_value k ptr len).1 (spec_value k ptr len).2
      end
  end.

(** Whether the streamed slot reports a failed header, its own or one it
    rescans. *)
Definition facts_failed (i : nat) : bool :=
  match hdr_at base i with
  | HSelected k _ ptr len =>
      bool_decide (refusal k ptr len layout = None) && (scan_failed base count (Z.of_nat i) || peer_failed)
  | h => hdr_failed h
  end.

Definition alias_flag (b : bool) : Z := if b then object_flag.ALIAS else 0.

Definition spec_facts (i : nat) : RequestCellFacts :=
  mkFacts (cell_kind (spec_cell i)) (cell_status (spec_cell i)) (cell_value (spec_cell i))
    (hrf (facts_failed i)) (alias_flag (alias_at i)).

Lemma alias_flag_or a b : alias_flag a |' alias_flag b = alias_flag (a || b).
Proof. by destruct a, b. Qed.

Lemma scan_peer_pure ptr len a b :
  scan_peer peer ptr len layout (a, hrf b) tt = ((a || peer_hit ptr len, hrf (b || peer_failed)), tt).
Proof.
  unfold scan_peer, peer_hit, peer_failed, mbind, rm_bind, mret, rm_ret.
  destruct peer as [[pb pc]|]; [|by rewrite !orb_false_r].
  rewrite request_alias_scan_eq, alias_scan_pure by (by right). cbn [fst snd].
  by rewrite hrf_or.
Qed.

Lemma request_value_pure i k sel ptr len :
  (i < 8)%nat → hdr_at base i = HSelected k sel ptr len →
  request_value base count (Z.of_nat i) peer layout k ptr len tt = (spec_facts i, tt).
Proof.
  intros H8 Hi. unfold request_value, spec_facts, spec_cell, facts_failed, alias_at.
  rewrite Hi. unfold refusal. destruct (ptr =? 0); [done|].
  destruct (valid_safe_attribute_length k len layout); [|done].
  destruct (bool_decide (Span.validate_target_span ptr len layout = None)); [done|].
  rewrite bool_decide_true by done. cbn [negb andb]. unfold mbind, rm_bind, mret, rm_ret.
  rewrite request_alias_scan_eq, alias_scan_pure, scan_peer_pure by (left; lia). destruct (scan_hit _ _ _ _ _ || peer_hit ptr len); [done|].
  rewrite stable_cell_eq. destruct (stable_cell_pure base i k sel ptr len Hi) as (write & -> & Hw).
  destruct write; [done|]. by rewrite Hw.
Qed.

(** The cell before it crosses the packed boundary. *)
Lemma request_cell_core_pure i :
  (i < 8)%nat → request_cell_core base count (Z.of_nat i) peer layout tt = (spec_facts i, tt).
Proof.
  intros H8. destruct (hdr_at base i) as [| |k|k sel ptr len] eqn:Hi.
  4:{ destruct (hdr_selected _ _ _ _ _ _ Hi) as (sa & pa & la & Ea & Es & Ep & El & Ek).
      unfold request_cell_core, mbind, rm_bind. rewrite Ea. cbn [read_word memory].
      rewrite Es, Ek, Ep, El. by apply (request_value_pure i k sel). }
  all: unfold request_cell_core, spec_facts, spec_cell, facts_failed, alias_at; rewrite Hi; revert Hi;
    unfold hdr_at, mbind, rm_bind, mret, rm_ret;
    destruct (Span.attribute_header_addresses _ _ _) as [[[sa pa] la]|]; try done; cbn [read_word memory];
    destruct (mem sa layout) as [sel|]; try done; destruct (safe_attribute_kind sel) as [k'|]; try done;
    destruct (mem pa layout) as [p|], (mem la layout) as [l|]; try done; by intros [= ->].
Qed.

Lemma refusal_status k ptr len st : refusal k ptr len layout = Some st → 0 <= st <= 10.
Proof.
  unfold refusal. destruct (ptr =? 0); [by intros [= <-]|].
  destruct (negb _); [by intros [= <-]|]. case_bool_decide; by intros [= <-].
Qed.

Lemma spec_cell_ok i :
  (cell_kind (spec_cell i) = 0 ∨ ∃ k, cell_kind (spec_cell i) = safe_kind_code k) ∧
  0 <= cell_status (spec_cell i) <= attr_status.INSUFFICIENT_CAPACITY ∧ is_u16 (cell_value (spec_cell i)) ∧
  (cell_value (spec_cell i) ≠ 0 →
   cell_kind (spec_cell i) ≠ 0 ∧ cell_status (spec_cell i) = attr_status.VALUE).
Proof.
  assert (Hc : ∀ k st v, 0 <= st <= 10 → is_u16 v → (v ≠ 0 → st = attr_status.VALUE) →
    let c := mkCell (safe_kind_code k) st v in
    (cell_kind c = 0 ∨ ∃ k, cell_kind c = safe_kind_code k) ∧
    0 <= cell_status c <= attr_status.INSUFFICIENT_CAPACITY ∧ is_u16 (cell_value c) ∧
    (cell_value c ≠ 0 → cell_kind c ≠ 0 ∧ cell_status c = attr_status.VALUE)).
  { intros k st v Hs Hv Hst. cbn. unfold attr_status.INSUFFICIENT_CAPACITY.
    split_and!; [eauto|lia|lia|done|]. intros Hn. split; [by destruct k|auto]. }
  unfold spec_cell. destruct (hdr_at base i) as [| |k|k sel ptr len].
  1,2: cbn; split_and!; try done; by left.
  - by apply Hc.
  - destruct (refusal k ptr len layout) as [st|] eqn:Er; [apply Hc; [by eapply refusal_status|done|done]|].
    destruct (alias_at i); [by apply Hc|]. destruct (spec_value_ok k ptr len) as (H1 & H2 & H3). by apply Hc.
Qed.

Lemma spec_facts_ok i : facts_widths (spec_facts i) ∧ request_cell_facts_valid (spec_facts i) = true.
Proof.
  destruct (spec_cell_ok i) as (Hk & Hs & Hv & Hval). unfold attr_status.INSUFFICIENT_CAPACITY in Hs.
  unfold facts_widths, request_cell_facts_valid, spec_facts.
  cbn [facts_kind facts_status facts_value facts_list_flags facts_object_flags]. split.
  - split_and!; try done; [| width; lia | by destruct (facts_failed i) | by destruct (alias_at i)].
    destruct Hk as [-> | [k ->]]; [done | by destruct k].
  - rewrite !andb_true_iff. split_and!.
    + destruct Hk as [-> | [k ->]]; [done|]. apply orb_true_iff. right. by destruct k.
    + apply Z.leb_le. unfold attr_status.INSUFFICIENT_CAPACITY. lia.
    + apply orb_true_iff. destruct (Z.eqb_spec (cell_value (spec_cell i)) 0) as [|Hne]; [by left|right].
      destruct (Hval Hne) as [? ->]. rewrite (proj2 (Z.eqb_neq _ _)) by done. done.
    + by destruct (facts_failed i).
    + by destruct (alias_at i).
Qed.

Lemma tag_roundtrip i b :
  (i < 8)%nat → ∃ tag, encode_request_cell_tag (Z.of_nat i) layout b = Some tag ∧
    decode_request_cell_tag tag = Some (Z.of_nat i, layout, b).
Proof.
  intros Hi. do 8 (destruct i as [|i]; [destruct layout, b; eexists; split; vm_compute; reflexivity|]). lia.
Qed.

Lemma request_cell_pure i n :
  scan_count base count = Some n → checked_add 64 base (n * 3 * word_bytes layout) ≠ None →
  Z.of_nat i < n →
  request_cell base count (Z.of_nat i) peer layout tt = (spec_facts i, tt).
Proof.
  intros (t & Ht & Hv & Hn)%scan_count_Some Hc Hi. unfold request_cell.
  unfold MAX_ATTRIBUTE_SLOTS in Hn.
  destruct (tag_roundtrip i (bool_decide (peer ≠ None)) ltac:(lia)) as (tag & -> & Hd).
  destruct (default (0, 0) peer) as [pb pc] eqn:Ep. unfold request_cell_packed.
  rewrite Hd, Ht, (bool_decide_false _ Hv). unfold MAX_ATTRIBUTE_SLOTS. rewrite <- Hn.
  rewrite (proj2 (Z.leb_gt n (Z.of_nat i))) by lia. rewrite (bool_decide_false _ Hc).
  cbn [orb]. unfold mbind, rm_bind, mret, rm_ret.
  replace (if bool_decide (peer ≠ None) then Some (pb, pc) else None) with peer
    by (destruct peer as [[]|]; cbn in Ep; [by injection Ep as -> -> | done]).
  rewrite request_cell_core_pure by lia. destruct (spec_facts_ok i) as [Hw Hf].
  destruct (request_cell_roundtrip _ Hw Hf) as (p & -> & Hu). cbn. by rewrite Hu.
Qed.

(** The streamed side: every slot published in turn. *)
Lemma publish_slots_pure n slots out c :
  scan_count base count = Some n → checked_add 64 base (n * 3 * word_bytes layout) ≠ None →
  Forall (λ i, Z.of_nat i < n) slots →
  for_each slots (publish_slot base count peer layout) (out, c) tt =
  ((mkAttrs (upd (λ i, Some (AttrCell_to_wire (spec_cell i))) slots (cells out)) (inspected out)
      (list_flags out |' hrf (existsb facts_failed slots)) (list_reserved out),
    c |' alias_flag (existsb alias_at slots)), tt).
Proof.
  intros Hn Hc. revert out c. induction slots as [|i slots IH]; intros out c Hs.
  { cbn. rewrite !Z.lor_0_r. by destruct out. }
  apply Forall_cons in Hs as [Hi Hs]. cbn [for_each]. unfold mbind, rm_bind.
  assert (publish_slot base count peer layout i (out, c) tt =
    ((mkAttrs (<[i := AttrCell_to_wire (spec_cell i)]> (cells out)) (inspected out)
        (list_flags out |' hrf (facts_failed i)) (list_reserved out), c |' alias_flag (alias_at i)), tt)) as ->.
  { unfold publish_slot, mbind, rm_bind, mret, rm_ret. by rewrite (request_cell_pure i n). }
  rewrite IH by done. cbn [cells inspected list_flags list_reserved existsb].
  rewrite upd_cons, <- !Z.lor_assoc.
  rewrite hrf_or, alias_flag_or. done.
Qed.

(** The array-based side, phase by phase. *)
Definition viable_at (i : nat) : bool :=
  match hdr_at base i with
  | HSelected k _ ptr len => bool_decide (refusal k ptr len layout = None)
  | _ => false
  end.

Definition refused_cell (i : nat) : option AttrCell :=
  match hdr_at base i with
  | HSelected k _ ptr len => (λ st, mkCell (safe_kind_code k) st 0) <$> refusal k ptr len layout
  | _ => None
  end.

Definition alias_cell (i : nat) : option AttrCell :=
  match hdr_at base i with
  | HSelected k _ _ _ => if alias_at i then Some (mkCell (safe_kind_code k) attr_status.ALIAS 0) else None
  | _ => None
  end.

Definition value_cell (i : nat) : option AttrCell :=
  match hdr_at base i with
  | HSelected k _ ptr len =>
      if viable_at i && negb (alias_at i)
      then Some (mkCell (safe_kind_code k) (spec_value k ptr len).1 (spec_value k ptr len).2) else None
  | _ => None
  end.

(** The last phase that wrote a slot decides its cell. *)
Lemma spec_cell_phases i :
  default (default (default (default zero_cell (hdr_cell (hdr_at base i))) (refused_cell i)) (alias_cell i))
    (value_cell i) = spec_cell i.
Proof.
  unfold spec_cell, value_cell, alias_cell, refused_cell, viable_at, alias_at.
  destruct (hdr_at base i) as [| |k|k sel ptr len]; try done.
  destruct (refusal k ptr len layout) as [st|]; [by rewrite bool_decide_false|].
  rewrite bool_decide_true by done. by destruct (scan_hit _ _ _ _ _ || _).
Qed.

Lemma peer_header_pure pb i o spans :
  peer_header pb layout i (o, spans) tt =
  ((or_flags (hrf (hdr_failed (hdr_at pb i))) o,
    spans ++ match hdr_at pb i with
             | HSelected _ _ p l =>
                 if negb (p =? 0) && negb (l =? 0)
                    && bool_decide (Span.validate_target_span p l layout ≠ None)
                 then [(p, l)] else []
             | _ => []
             end), tt).
Proof.
  assert (Ho : or_flags 0 o = o) by (unfold or_flags; rewrite Z.lor_0_r; by destruct o).
  unfold peer_header, hdr_at, mbind, rm_bind, mret, rm_ret.
  destruct (Span.attribute_header_addresses _ _ _) as [[[sa pa] la]|]; [|by rewrite app_nil_r].
  cbn [read_word memory]. destruct (mem sa layout) as [sel|]; [|by rewrite app_nil_r].
  destruct (safe_attribute_kind sel) as [k|]; [|by cbn; rewrite Ho, app_nil_r].
  destruct (mem pa layout) as [p|], (mem la layout) as [l|]; try by rewrite app_nil_r.
  cbn [hdr_failed hrf]. rewrite Ho. destruct (_ && _); [done|by rewrite app_nil_r].
Qed.

Lemma peer_slots_pure pb slots o spans :
  ∃ spans', for_each slots (peer_header pb layout) (o, spans) tt =
    ((or_flags (hrf (existsb (λ j, hdr_failed (hdr_at pb j)) slots)) o, spans'), tt) ∧
    ∀ ptr len, existsb (λ p, Span.spans_overlap ptr len p.1 p.2) spans' =
      existsb (λ p, Span.spans_overlap ptr len p.1 p.2) spans ||
      existsb (λ j, span_hit ptr len (hdr_at pb j)) slots.
Proof.
  revert o spans. induction slots as [|i slots IH]; intros o spans.
  { exists spans. split; [|intros; by rewrite orb_false_r].
    cbn. unfold or_flags. rewrite Z.lor_0_r. by destruct o. }
  cbn [for_each]. unfold mbind, rm_bind. rewrite peer_header_pure.
  match goal with |- context [for_each slots _ (?o', ?sp) _] => destruct (IH o' sp) as (spans' & -> & Hs) end.
  exists spans'. split.
  - unfold or_flags. cbn. by rewrite <- Z.lor_assoc, hrf_or.
  - intros ptr len. rewrite Hs, existsb_app, <- orb_assoc. f_equal. cbn [existsb]. f_equal.
    destruct (hdr_at pb i) as [| |k|k sel p l]; try done. cbn [span_hit]. rewrite <- stated_span_eq.
    destruct (_ && _); [cbn; by rewrite orb_false_r|done].
Qed.

Lemma peer_headers_pure o :
  ∃ ph spans, peer_headers peer layout o tt = ((or_flags (hrf peer_failed) o, ph, spans), tt) ∧
    ∀ ptr len, Span.spans_overlap ptr len ph.1 ph.2
      || existsb (λ p, Span.spans_overlap ptr len p.1 p.2) spans = peer_hit ptr len.
Proof.
  assert (Hnone : ∃ ph spans, (o, (0, 0), @nil (Z * Z), tt) = ((or_flags (hrf false) o, ph, spans), tt) ∧
    ∀ ptr len, Span.spans_overlap ptr len ph.1 ph.2
      || existsb (λ p, Span.spans_overlap ptr len p.1 p.2) spans = false).
  { exists (0, 0), []. split; [unfold or_flags; cbn; rewrite Z.lor_0_r; by destruct o|].
    intros. unfold Span.spans_overlap. cbn. by rewrite orb_true_r. }
  unfold peer_headers, peer_failed, peer_hit, scan_hit, scan_failed, scan_count, mbind, rm_bind, mret, rm_ret.
  destruct peer as [[pb pc]|]; [|done].
  destruct (Span.attribute_table_span pc layout) as [table|]; [|done].
  destruct (bool_decide _); [done|]. set (m := Z.min pc MAX_ATTRIBUTE_SLOTS).
  destruct (peer_slots_pure pb (slots_of m) o []) as (spans & E & Hs). unfold slots_of in *.
  assert (Hskip : ∀ f, existsb (λ j, negb (Z.of_nat j =? U64_MAX) && f j) (seq 0 (Z.to_nat m)) =
    existsb f (seq 0 (Z.to_nat m))).
  { intros f. apply existsb_ext_in. intros j [_ Hj]%in_seq. unfold m, MAX_ATTRIBUTE_SLOTS in Hj.
    rewrite (proj2 (Z.eqb_neq (Z.of_nat j) U64_MAX)) by (unfold U64_MAX; lia). done. }
  rewrite E, Hskip. eexists (_, _), _. split; [reflexivity|]. intros ptr len.
  rewrite (Hs ptr len), Hskip. done.
Qed.

Definition own_headers_at (headers : list header) (slots : list nat) : Prop :=
  ∀ i, i ∈ slots → nth i headers None = hdr_header (hdr_at base i).

Lemma own_headers_at_cons headers i slots :
  own_headers_at headers (i :: slots) →
  nth i headers None = hdr_header (hdr_at base i) ∧ own_headers_at headers slots.
Proof. intros Hh. split; [|intros j Hj]; apply Hh; set_solver. Qed.

Lemma check_slots_pure headers slots o viable :
  own_headers_at headers slots →
  foldl (check_slot layout headers) (o, viable) slots =
  (mkOutcome (upd refused_cell slots (out_cells o)) (out_inspected o) (out_flags o) (out_object_flags o),
   upd (λ i, if viable_at i then Some true else None) slots viable).
Proof.
  revert o viable. induction slots as [|i slots IH]; intros o viable Hh; [by destruct o|].
  apply own_headers_at_cons in Hh as [Hi Hh]. cbn [foldl]. rewrite !upd_cons.
  unfold check_slot at 2. rewrite Hi. unfold refused_cell at 2, viable_at at 2.
  destruct (hdr_at base i) as [| |k|k sel ptr len]; cbn [hdr_header]; try by rewrite IH.
  destruct (refusal k ptr len layout) as [st|]; rewrite IH by done; [by rewrite bool_decide_false|].
  by rewrite bool_decide_true.
Qed.

Lemma mark_slots_pure aliased headers slots o viable :
  own_headers_at headers slots → (∀ i, i ∈ slots → aliased i = alias_at i) →
  foldl (mark_alias aliased headers) (o, viable) slots =
  (mkOutcome (upd alias_cell slots (out_cells o)) (out_inspected o) (out_flags o)
     (out_object_flags o |' alias_flag (existsb alias_at slots)),
   upd (λ i, if alias_at i then Some false else None) slots viable).
Proof.
  revert o viable. induction slots as [|i slots IH]; intros o viable Hh Ha.
  { cbn. rewrite Z.lor_0_r. by destruct o. }
  apply own_headers_at_cons in Hh as [Hi Hh]. cbn [foldl]. rewrite !upd_cons.
  unfold mark_alias at 2. rewrite Ha, Hi by set_solver.
  assert (Ha' : ∀ j, j ∈ slots → aliased j = alias_at j) by set_solver.
  unfold alias_cell at 2. cbn [existsb]. rewrite <- alias_flag_or, Z.lor_assoc.
  destruct (alias_at i) eqn:Ei.
  - unfold alias_at in Ei. destruct (hdr_at base i) as [| |k|k sel ptr len]; try done. cbn [hdr_header].
    by rewrite IH.
  - rewrite IH, Z.lor_0_r by done. by destruct (hdr_at base i).
Qed.

Lemma read_slot_pure (headers : list header) viable i o :
  nth (A := header) i headers None = hdr_header (hdr_at base i) →
  nth i viable false = viable_at i && negb (alias_at i) →
  read_slot base layout headers viable i o tt =
  (match value_cell i with
   | Some c => mkOutcome (<[i := c]> (out_cells o)) (out_inspected o) (out_flags o) (out_object_flags o)
   | None => o
   end, tt).
Proof.
  intros Hi Hv. unfold read_slot, value_cell. rewrite Hi, Hv.
  destruct (hdr_at base i) as [| |k|k sel ptr len] eqn:Eh; cbn [hdr_header];
    destruct (viable_at i && negb (alias_at i)); cbn [negb]; try done.
  destruct (hdr_selected _ _ _ _ _ _ Eh) as (sa & pa & la & Ea & Es & Ep & El & Ek).
  rewrite Ea. unfold spec_value, mbind, rm_bind. rewrite (unit_pair (read_classified_value _ _ _ _ _)).
  assert (Hr : ∀ st v, recheck_slot sa pa la layout sel ptr len i k st v o tt = (set_status i k st v o, tt)).
  { intros st v. unfold recheck_slot, mbind, rm_bind, mret, rm_ret. cbn [read_word memory].
    by rewrite Es, Ep, El, !Z.eqb_refl. }
  destruct ((read_classified_value k ptr len layout tt).1) as [v|st]; cbn [fst snd]; [by rewrite Hr|].
  destruct (Z.eqb_spec st attr_status.UNSUPPORTED) as [->|]; cbn [negb]; [by rewrite Hr|done].
Qed.

Lemma read_slots_pure (headers : list header) viable slots o :
  own_headers_at headers slots →
  (∀ i, i ∈ slots → nth i viable false = viable_at i && negb (alias_at i)) →
  for_each slots (read_slot base layout headers viable) o tt =
  (mkOutcome (upd value_cell slots (out_cells o)) (out_inspected o) (out_flags o) (out_object_flags o), tt).
Proof.
  revert o. induction slots as [|i slots IH]; intros o Hh Hv; [by destruct o|].
  apply own_headers_at_cons in Hh as [Hi Hh]. cbn [for_each]. unfold mbind, rm_bind.
  rewrite read_slot_pure, IH, upd_cons by (done || set_solver). by destruct (value_cell i).
Qed.

Lemma slot_aliased_pure headers ph spans n i :
  scan_count base count = Some n → own_headers_at headers (slots_of n) → i ∈ slots_of n →
  (∀ ptr len, Span.spans_overlap ptr len ph.1 ph.2
     || existsb (λ p, Span.spans_overlap ptr len p.1 p.2) spans = peer_hit ptr len) →
  viable_at i && slot_aliased base (n * 3 * word_bytes layout) (Z.to_nat n) layout headers ph spans i =
  alias_at i.
Proof.
  intros Hn Hh Hi Hp. unfold slot_aliased, viable_at, alias_at, scan_hit. rewrite Hn, (Hh i Hi).
  destruct (hdr_at base i) as [| |k|k sel ptr len]; try done. cbn [hdr_header]. f_equal.
  rewrite <- Hp, <- !orb_assoc. f_equal. rewrite (orb_comm (existsb _ (slots_of n))), <- orb_assoc.
  do 2 f_equal. apply existsb_ext_in. intros j Hj. rewrite (Hh j) by by apply list_elem_of_In.
  rewrite (bool_eq_iff (j =? i)%nat (Z.of_nat j =? Z.of_nat i)) by (rewrite Nat.eqb_eq, Z.eqb_eq; lia).
  f_equal. destruct (hdr_at base j) as [| |k'|k' sel' p l]; try done. apply stated_span_eq.
Qed.

Lemma viable_nth n i :
  n <= MAX_ATTRIBUTE_SLOTS → i ∈ slots_of n →
  nth i (upd (λ i, if alias_at i then Some false else None) (slots_of n)
           (upd (λ i, if viable_at i then Some true else None) (slots_of n) (replicate 8 false))) false =
  viable_at i && negb (alias_at i).
Proof.
  intros Hn Hi. assert (Hl : (i < 8)%nat).
  { unfold slots_of, MAX_ATTRIBUTE_SLOTS in *. apply elem_of_seq in Hi. lia. }
  rewrite nth_upd, nth_upd, !decide_True by (rewrite ?upd_length, ?length_replicate; done).
  rewrite nth_replicate_lt by done. by destruct (alias_at i), (viable_at i).
Qed.

Lemma phases_cells n :
  n <= MAX_ATTRIBUTE_SLOTS →
  upd value_cell (slots_of n) (upd alias_cell (slots_of n) (upd refused_cell (slots_of n)
    (upd (λ i, hdr_cell (hdr_at base i)) (slots_of n) (replicate 8 zero_cell)))) =
  upd (λ i, Some (spec_cell i)) (slots_of n) (replicate 8 zero_cell).
Proof.
  intros Hn. apply (nth_ext _ _ zero_cell zero_cell); [by rewrite !upd_length|].
  intros i Hi. rewrite !upd_length, length_replicate in Hi.
  rewrite !nth_upd by (rewrite ?upd_length, ?length_replicate; done).
  rewrite nth_replicate_lt by done. case_decide; [apply spec_cell_phases|done].
Qed.

Lemma any_failed n :
  scan_count base count = Some n →
  peer_failed || existsb facts_failed (slots_of n) =
  existsb (λ i, hdr_failed (hdr_at base i)) (slots_of n) || peer_failed.
Proof.
  intros Hn. apply bool_eq_iff. rewrite !orb_true_iff, !existsb_exists. split.
  - intros [->|(i & Hi & Hf)]; [by right|]. unfold facts_failed in Hf.
    destruct (hdr_at base i) eqn:Ei; try (left; exists i; by rewrite Ei).
    apply andb_true_iff in Hf as [_ [Hs|]%orb_true_iff]; [|by right]. left.
    unfold scan_failed in Hs. rewrite Hn in Hs. apply existsb_exists in Hs as (j & Hj & [_ Hf]%andb_true_iff). eauto.
  - intros [(i & Hi & Hf)|]; [|by left]. right. exists i. split; [done|]. unfold facts_failed.
    by destruct (hdr_at base i).
Qed.

Lemma peer_prefetch_pure flags :
  match peer with
  | None => mret flags
  | Some (pb, pc) => ' (_, f) ← request_alias_scan pb pc U64_MAX 0 0 layout; mret (flags |' f)
  end tt = (flags |' hrf peer_failed, tt).
Proof.
  unfold peer_failed. destruct peer as [[pb pc]|]; unfold mbind, rm_bind, mret, rm_ret.
  - by rewrite request_alias_scan_eq, alias_scan_pure by (by right).
  - cbn. by rewrite Z.lor_0_r.
Qed.

Lemma upd_fmap {A B} (f : A → B) x slots l :
  f <$> upd x slots l = upd (λ i, f <$> x i) slots (f <$> l).
Proof.
  revert l. induction slots as [|i slots IH]; intros l; [done|]. rewrite !upd_cons, IH.
  f_equal. destruct (x i); [apply list_fmap_insert|done].
Qed.

Lemma own_headers_slots n o headers :
  n <= MAX_ATTRIBUTE_SLOTS → o = replicate 8 None →
  headers = upd (λ i, Some <$> hdr_header (hdr_at base i)) (slots_of n) o →
  own_headers_at headers (slots_of n).
Proof.
  intros Hn -> -> i Hi. assert (Hl : (i < 8)%nat).
  { unfold slots_of, MAX_ATTRIBUTE_SLOTS in *. apply elem_of_seq in Hi. lia. }
  rewrite nth_upd, decide_True, nth_replicate_lt by (rewrite ?length_replicate; done).
  by destruct (hdr_header (hdr_at base i)).
Qed.

Lemma inspect_slots_pure n (o : AttributeListOutcome) :
  scan_count base count = Some n → out_cells o = replicate 8 zero_cell → out_object_flags o = 0 →
  (' (o, headers) ← for_each (slots_of n) (own_header base layout) (o, replicate 8 None);
   ' (o, peer_header, peer_spans) ← peer_headers peer layout o;
   let '(o, viable) := foldl (check_slot layout headers) (o, replicate 8 false) (slots_of n) in
   let aliased := λ slot,
     nth slot viable false &&
     slot_aliased base (n * 3 * word_bytes layout) (Z.to_nat n) layout headers peer_header peer_spans slot in
   let '(o, viable) := foldl (mark_alias aliased headers) (o, viable) (slots_of n) in
   for_each (slots_of n) (read_slot base layout headers viable) o) tt =
  (mkOutcome (upd (λ i, Some (spec_cell i)) (slots_of n) (replicate 8 zero_cell)) (out_inspected o)
     (out_flags o |' hrf (existsb (λ i, hdr_failed (hdr_at base i)) (slots_of n) || peer_failed))
     (alias_flag (existsb alias_at (slots_of n))), tt).
Proof.
  intros Hn Hc Ho. destruct (scan_count_Some _ _ _ Hn) as (_ & _ & _ & Hmin).
  assert (Hmax : n <= MAX_ATTRIBUTE_SLOTS) by lia. unfold mbind, rm_bind. rewrite own_headers_pure.
  match goal with |- context [upd (A := header) ?x ?l ?v] => remember (upd (A := header) x l v) as headers eqn:Eh end.
  assert (Hh : own_headers_at headers (slots_of n)) by by eapply own_headers_slots.
  match goal with |- context [peer_headers _ _ ?o1 _] =>
    destruct (peer_headers_pure o1) as (ph & spans & -> & Hp) end.
  rewrite check_slots_pure by done. cbn [or_flags out_cells out_inspected out_flags out_object_flags].
  rewrite mark_slots_pure; [|done|].
  2:{ intros i Hi. rewrite <- (slot_aliased_pure headers ph spans n i) by done. f_equal.
      rewrite nth_upd, decide_True, nth_replicate_lt; try done; [by destruct (viable_at i)|..];
        rewrite ?length_replicate; unfold slots_of, MAX_ATTRIBUTE_SLOTS in *; apply elem_of_seq in Hi; lia. }
  rewrite read_slots_pure; [|done|intros i Hi; by apply viable_nth].
  cbn [out_cells out_inspected out_flags out_object_flags].
  by rewrite Hc, Ho, phases_cells, <- Z.lor_assoc, hrf_or.
Qed.

(** C20: On target memory that does not change during the inspection, the
    streamed request inspection (one packed slot at a time, neighbours reread
    for every slot, the request cell, the alias scans and the stable read each
    behind the packed words of its BPF global) publishes exactly the list and the object flags of
    the array-based inspection: no packed cell, poison value or rescan can be
    told apart from the four-phase pass, whatever the template, its peer and
    the unreadable words are. *)
Theorem inspect_streamed_equivalent :
  is_u64 base →
  inspect_request_template_into base count peer layout tt =
  let '(o, s) := inspect_request_template base count peer layout tt in
  ((AttributeListOutcome_to_wire o, out_object_flags o), s).
Proof.
  intros Hb. unfold inspect_request_template_into, inspect_request_template.
  destruct (Span.attribute_table_span count layout) as [table|] eqn:Et; [|done].
  destruct (bool_decide (Span.validate_target_span base table layout = None)) eqn:Ev; [done|].
  apply bool_decide_eq_false in Ev. set (n := Z.min count MAX_ATTRIBUTE_SLOTS).
  assert (Hn : scan_count base count = Some n) by (unfold scan_count; by rewrite Et, bool_decide_false).
  unfold checked_add. destruct (n =? 0) eqn:E0.
  { apply Z.eqb_eq in E0. rewrite E0, Z.mul_0_l, Z.add_0_r, (checked_small 64 base Hb). done. }
  destruct (checked 64 (base + _)) as [e|] eqn:Ee; [|done].
  apply checked_Some in Ee as Ee'. destruct Ee' as [-> _].
  replace (base + n * 3 * word_bytes layout - base) with (n * 3 * word_bytes layout) by lia.
  rewrite (bool_decide_false (Some _ = None)) by done. set (o := mkOutcome _ _ _ _).
  change (seq 0 (Z.to_nat n)) with (slots_of n).
  match goal with |- _ = match ?e with pair _ _ => _ end =>
    rewrite (inspect_slots_pure n o Hn eq_refl eq_refl : e = _) end.
  rewrite rm_bind_eq, peer_prefetch_pure.
  rewrite (publish_slots_pure n); [|done|by unfold checked_add; rewrite Ee|].
  2:{ apply Forall_forall. intros i [_ Hi]%elem_of_seq. lia. }
  cbn [cleared_list cells inspected list_flags list_reserved].
  rewrite <- (Z.lor_assoc _ (hrf _)), hrf_or, any_failed by done.
  unfold AttributeListOutcome_to_wire. cbn [out_cells out_inspected out_flags out_object_flags]. by rewrite upd_fmap.
Qed.

End Own.

End Memory.

(** Two slots, [CKA_CLASS] and [CKA_VALUE_LEN], of a template at 0x1000; the
    second value overlaps the table. *)
Definition two_slots (a : Z) (_ : LinuxLayout) : option Z :=
  if a =? 0x1000 then Some 0 else if a =? 0x1008 then Some 0x2000 else if a =? 0x1010 then Some 8
  else if a =? 0x1018 then Some 0x161 else if a =? 0x1020 then Some 0x102c else if a =? 0x1028 then Some 8
  else if a =? 0x2000 then Some 3 else None.

Lemma inspect_streamed_equivalent_witness :
  @inspect_request_template_into unit (memory two_slots (λ _ _, None)) linux_widths 0x1000 2 None Lp64 tt =
  ((mkAttrs (mkAttr 1 1 3 :: mkAttr 4 8 0 :: replicate 6 (mkAttr 0 0 0)) 2 1 0, 4), tt).
Proof.
  rewrite (inspect_streamed_equivalent (H := linux_widths) two_slots (λ _ _, None) Lp64 0x1000 2 None)
    by by vm_compute.
  vm_compute. reflexivity.
Defined.
