(* ===== verification/CaptureGet.v ===== *)
(** * The Get read protocol

    The [C_GetAttributeValue] half of
    [crates/ebpf-common/src/object_capture.rs].  At entry the selected headers
    of the template are retained; at return every retained slot is reread,
    checked and classified.  The source has the array-based pair
    [capture_get_entry], [capture_get_return] and the pair the BPF programs run,
    [capture_get_entry_into] and [capture_get_return_into], which works on the
    [ObjectStart] row ([object_wire.rs]) and publishes one slot at a time.  All
    four are modelled over the readers of [Capture]. *)
From S2P Require Import Prelude CallerEntry TargetAbi Bytes ObjectPolicy ObjectWire Capture.

(** ** The owner row *)

Record ObjectAttributeSlot := mkSlot {
  value_ptr : Z;
  entry_capacity : Z;
  returned_len : Z;
  slot_kind : Z;
  slot_index : Z;
  slot_status : Z;
  slot_reserved : list Z;
}.

Definition slot_default : ObjectAttributeSlot := mkSlot 0 0 0 0 0 0 (replicate 5 0).

Record ObjectStart := mkStart {
  os_image : ImageIdentity;
  os_entry_ns : Z;
  os_descriptor_index : Z;
  os_layout : Z;
  os_action : Z;
  os_derive : Z;
  os_phase : Z;
  os_inputs : list Z;
  os_result_ptrs : list Z;
  os_get_template_base : Z;
  os_inspected_header_end : Z;
  os_find_capacity : Z;
  os_find_count_ptr : Z;
  os_slots : list ObjectAttributeSlot;
  os_requested : list ObjectAttributeListWire;
  os_input_statuses : list Z;
  os_result_statuses : list Z;
  os_flags : Z;
  os_get_inspected : Z;
  os_reserved : Z;
}.

Definition GET_ENTRY_FLAGS_SHIFT : Z := 8.
Definition GET_ENTRY_FLAGS_MASK : Z := 0x0F << GET_ENTRY_FLAGS_SHIFT.
Definition GET_ENTRY_UNINSPECTED : Z := 1 << GET_ENTRY_FLAGS_SHIFT.

(** The fields the Get entry writes. *)
Definition put_get (base header_end : Z) (slots : list ObjectAttributeSlot) (flags inspected : Z)
    (s : ObjectStart) : ObjectStart :=
  mkStart (os_image s) (os_entry_ns s) (os_descriptor_index s) (os_layout s) (os_action s)
    (os_derive s) (os_phase s) (os_inputs s) (os_result_ptrs s) base header_end
    (os_find_capacity s) (os_find_count_ptr s) slots (os_requested s) (os_input_statuses s)
    (os_result_statuses s) flags inspected (os_reserved s).

(** ** The array-based protocol *)

Record GetSlot := mkGetSlot {
  gs_value_ptr : Z;
  gs_entry_capacity : Z;
  gs_kind : Z;
  gs_slot_index : Z;
}.

Definition get_slot_default : GetSlot := mkGetSlot 0 0 0 0.

Record GetEntryState := mkEntry {
  ge_template_base : Z;
  ge_header_end : Z;
  ge_slots : list GetSlot;
  ge_slot_count : Z;
  ge_inspected : Z;
  ge_entry_flags : Z;
}.

Definition entry_default : GetEntryState := mkEntry 0 0 (replicate 8 get_slot_default) 0 0 0.

Record GetEntryVerdict := mkVerdict {
  gv_inspected : Z;
  gv_slot_count : Z;
  gv_entry_flags : Z;
}.

Definition return_accepts_get_results (rv : Z) : bool :=
  one_of rv [CKR_OK; CKR_ATTRIBUTE_SENSITIVE; CKR_ATTRIBUTE_TYPE_INVALID; CKR_BUFFER_TOO_SMALL].

Definition slot_kind_selected (code : Z) : bool := as_u8 (code - 1) <? 6.

Definition selector_for_kind (kind : SafeAttributeKind) : Z :=
  match kind with
  | Class_ => 0x0000
  | KeyType => 0x0100
  | Token => 0x0001
  | ValueLen => 0x0161
  | ModulusBits => 0x0121
  | EcParams => 0x0180
  end.

Definition min_exact_len `{TargetWidth} (kind : SafeAttributeKind) (layout : LinuxLayout) : Z :=
  match kind with
  | Token => 1
  | EcParams => 7
  | _ => word_bytes layout
  end.

Section Get.
Context {St : Type} `{TargetReader St} `{TargetWidth}.

(** One iteration of the entry loop. *)
Definition get_entry_slot (template_ptr : Z) (layout : LinuxLayout) (i : nat)
    (acc : list GetSlot * Z * Z) : RM St (list GetSlot * Z * Z) :=
  let '(slots, retained, flags) := acc in
  let failed := (slots, retained, flags |' attr_list_flag.HEADER_READ_FAILURE) in
  match Span.attribute_header_addresses template_ptr (Z.of_nat i) layout with
  | None => mret failed
  | Some (sel_addr, ptr_addr, len_addr) =>
      r ← read_word sel_addr layout;
      match r with
      | None => mret failed
      | Some selector =>
          match safe_attribute_kind selector with
          | None => mret acc
          | Some kind =>
              r ← read_word ptr_addr layout;
              match r with
              | None => mret failed
              | Some ptr =>
                  r ← read_word len_addr layout;
                  match r with
                  | None => mret failed
                  | Some len =>
                      mret (<[Z.to_nat retained :=
                               mkGetSlot ptr len (safe_kind_code kind) (as_u8 (Z.of_nat i))]> slots,
                            as_u8 (retained + 1), flags)
                  end
              end
          end
      end
  end.

Definition entry_refused (flags : Z) : GetEntryVerdict * GetEntryState :=
  (mkVerdict 0 0 flags, mkEntry 0 0 (replicate 8 get_slot_default) 0 0 flags).

Definition capture_get_entry (template_ptr count : Z) (layout : LinuxLayout)
    : RM St (GetEntryVerdict * GetEntryState) :=
  match Span.attribute_table_span count layout with
  | None => mret (entry_refused attr_list_flag.INVALID_SPAN)
  | Some table_len =>
      if bool_decide (Span.validate_target_span template_ptr table_len layout = None)
      then mret (entry_refused attr_list_flag.INVALID_SPAN)
      else
        let n := Z.min count MAX_ATTRIBUTE_SLOTS in
        let flags := if MAX_ATTRIBUTE_SLOTS <? count then attr_list_flag.TRUNCATED else 0 in
        match checked_add 64 template_ptr (n * 3 * word_bytes layout) with
        | None => mret (entry_refused (flags |' attr_list_flag.INVALID_SPAN))
        | Some header_end =>
            ' (slots, retained, flags) ←
              for_each (seq 0 (Z.to_nat n)) (get_entry_slot template_ptr layout)
                (replicate 8 get_slot_default, 0, flags);
            mret (mkVerdict (as_u8 n) retained flags,
                  mkEntry template_ptr header_end slots retained (as_u8 n) flags)
        end
  end.

Definition get_slot_at (e : GetEntryState) (k : nat) : GetSlot := nth k (ge_slots e) get_slot_default.

(** The retained slot per template slot: the first one wins. *)
Definition retain_for (e : GetEntryState) (n : Z) (acc : list (option nat)) (k : nat)
    : list (option nat) :=
  let index := gs_slot_index (get_slot_at e k) in
  if (index <? n) && bool_decide (nth (Z.to_nat index) acc None = None)
  then <[Z.to_nat index := Some k]> acc else acc.

Definition retained_for (e : GetEntryState) (n slot_count : Z) : list (option nat) :=
  foldl (retain_for e n) (replicate 8 None) (seq 0 (Z.to_nat slot_count)).

Definition put_cell (i : nat) (kind status value : Z) (o : AttributeListOutcome) : AttributeListOutcome :=
  mkOutcome (<[i := mkCell kind status value]> (out_cells o)) (out_inspected o) (out_flags o)
    (out_object_flags o).

(** What phase 1 makes of a reread header: the status that ends the slot and
    the object flag it contributes, or [None] for an established length. *)
Definition get_refusal (slot : GetSlot) (kind : SafeAttributeKind) (layout : LinuxLayout)
    (sel ptr len : Z) : option (Z * Z) :=
  if negb (bool_decide (safe_attribute_kind sel = Some kind))
  then Some (attr_status.CHANGED, object_flag.CHANGED_METADATA)
  else if gs_value_ptr slot =? 0 then Some (attr_status.SIZE_ONLY, 0)
  else if negb (ptr =? gs_value_ptr slot) then Some (attr_status.CHANGED, object_flag.CHANGED_METADATA)
  else if len =? Span.unavailable_len layout then Some (attr_status.UNAVAILABLE, 0)
  else if gs_entry_capacity slot <? min_exact_len kind layout
  then Some (attr_status.INSUFFICIENT_CAPACITY, 0)
  else if (gs_entry_capacity slot <? len) || negb (valid_safe_attribute_length kind len layout)
  then Some (attr_status.INVALID_LENGTH, 0)
  else if bool_decide (Span.validate_target_span (gs_value_ptr slot) len layout = None)
  then Some (attr_status.INVALID_SPAN, 0)
  else None.

(** Phase 1: one template slot; an established slot gets its kind and length. *)
Definition get_phase1 (e : GetEntryState) (layout : LinuxLayout) (ret : list (option nat)) (i : nat)
    (acc : AttributeListOutcome * list (option (SafeAttributeKind * Z)))
    : RM St (AttributeListOutcome * list (option (SafeAttributeKind * Z))) :=
  let '(o, est) := acc in
  match nth i ret None with
  | None => mret acc
  | Some k =>
      let slot := get_slot_at e k in
      match kind_from_code (gs_kind slot) with
      | None => mret acc
      | Some kind =>
          match Span.attribute_header_addresses (ge_template_base e) (Z.of_nat i) layout with
          | None => mret (put_cell i (gs_kind slot) attr_status.INVALID_SPAN 0 o, est)
          | Some (sel_addr, ptr_addr, len_addr) =>
              sel ← read_word sel_addr layout;
              ptr ← read_word ptr_addr layout;
              len ← read_word len_addr layout;
              mret match sel, ptr, len with
                   | Some sel, Some ptr, Some len =>
                       match get_refusal slot kind layout sel ptr len with
                       | Some (status, flag) =>
                           (or_object_flags flag (put_cell i (gs_kind slot) status 0 o), est)
                       | None => (o, <[i := Some (kind, len)]> est)
                       end
                   | _, _, _ => (put_cell i (gs_kind slot) attr_status.UNREADABLE 0 o, est)
                   end
          end
      end
  end.

(** The alias pass over the inspected headers and the other retained buffers. *)
Definition get_aliased (e : GetEntryState) (slot_count : Z) (layout : LinuxLayout)
    (ret : list (option nat)) (est : list (option (SafeAttributeKind * Z))) (i : nat) : bool :=
  match nth i est None, nth i ret None with
  | Some (_, len), Some k =>
      let ptr := gs_value_ptr (get_slot_at e k) in
      Span.spans_overlap ptr len (ge_template_base e)
        (saturating_sub (ge_header_end e) (ge_template_base e))
      || existsb (λ j,
           let other := get_slot_at e j in
           negb (j =? k)%nat
           && negb (gs_value_ptr other =? 0) && negb (gs_entry_capacity other =? 0)
           && bool_decide (Span.validate_target_span (gs_value_ptr other) (gs_entry_capacity other) layout
                           ≠ None)
           && Span.spans_overlap ptr len (gs_value_ptr other) (gs_entry_capacity other))
         (seq 0 (Z.to_nat slot_count))
  | _, _ => false
  end.

Definition get_mark (aliased : nat → bool) (est : list (option (SafeAttributeKind * Z)))
    (o : AttributeListOutcome) (i : nat) : AttributeListOutcome :=
  if aliased i then
    match nth i est None with
    | Some (kind, _) =>
        or_object_flags object_flag.ALIAS (put_cell i (safe_kind_code kind) attr_status.ALIAS 0 o)
    | None => o
    end
  else o.

(** The recheck of phase 2 publishes [status] and [value] if nothing moved. *)
Definition get_recheck (sel_addr ptr_addr len_addr : Z) (layout : LinuxLayout) (kind : SafeAttributeKind)
    (ptr len : Z) (i : nat) (status value : Z) (o : AttributeListOutcome) : RM St AttributeListOutcome :=
  sel2 ← read_word sel_addr layout;
  ptr2 ← read_word ptr_addr layout;
  len2 ← read_word len_addr layout;
  mret match sel2, ptr2, len2 with
       | Some s, Some p, Some l =>
           if bool_decide (safe_attribute_kind s = Some kind) && (p =? ptr) && (l =? len)
           then put_cell i (safe_kind_code kind) status value o
           else or_object_flags object_flag.CHANGED_METADATA
                  (put_cell i (safe_kind_code kind) attr_status.CHANGED 0 o)
       | _, _, _ => put_cell i (safe_kind_code kind) attr_status.UNREADABLE 0 o
       end.

(** Phase 2: the value of one established slot that is not aliased. *)
Definition get_phase2 (e : GetEntryState) (layout : LinuxLayout) (ret : list (option nat))
    (est : list (option (SafeAttributeKind * Z))) (aliased : nat → bool) (i : nat)
    (o : AttributeListOutcome) : RM St AttributeListOutcome :=
  if aliased i then mret o
  else match nth i est None, nth i ret None with
  | Some (kind, len), Some k =>
      let ptr := gs_value_ptr (get_slot_at e k) in
      match Span.attribute_header_addresses (ge_template_base e) (Z.of_nat i) layout with
      | None => mret (put_cell i (safe_kind_code kind) attr_status.INVALID_SPAN 0 o)
      | Some (sel_addr, ptr_addr, len_addr) =>
          read ← read_classified_value kind ptr len layout;
          match read with
          | inr status =>
              if negb (status =? attr_status.UNSUPPORTED)
              then mret (put_cell i (safe_kind_code kind) status 0 o)
              else get_recheck sel_addr ptr_addr len_addr layout kind ptr len i attr_status.UNSUPPORTED 0 o
          | inl value =>
              get_recheck sel_addr ptr_addr len_addr layout kind ptr len i attr_status.VALUE value o
          end
      end
  | _, _ => mret o
  end.

Definition capture_get_return (e : GetEntryState) (rv : Z) (authority : ReturnAuthority)
    (layout : LinuxLayout) : RM St AttributeListOutcome :=
  if negb (return_accepts_get_results rv) || negb (is_authorized authority)
  then mret (empty_outcome 0)
  else
    let n := Z.min (ge_inspected e) 8 in
    let slot_count := Z.min (ge_slot_count e) 8 in
    let flags := (ge_entry_flags e &' 0x0F) |' (if 0 <? n then attr_list_flag.PRESENT else 0) in
    let ret := retained_for e n slot_count in
    let slots := seq 0 (Z.to_nat n) in
    ' (o, est) ← for_each slots (get_phase1 e layout ret)
                   (mkOutcome (replicate 8 zero_cell) n flags 0, replicate 8 None);
    let aliased := get_aliased e slot_count layout ret est in
    let o := foldl (get_mark aliased est) o slots in
    for_each slots (get_phase2 e layout ret est aliased) o.

(** ** The streamed protocol *)

(** One iteration of the streamed entry loop; the flag says that the loop has
    left through [break]. *)
Definition get_entry_slot_into (template_ptr : Z) (layout : LinuxLayout) (i : nat)
    (acc : list ObjectAttributeSlot * GetEntryVerdict * bool)
    : RM St (list ObjectAttributeSlot * GetEntryVerdict * bool) :=
  let '(slots, v, stopped) := acc in
  let failed := mkVerdict (gv_inspected v) (gv_slot_count v)
                  (gv_entry_flags v |' attr_list_flag.HEADER_READ_FAILURE) in
  if stopped : bool then mret acc
  else match Span.attribute_header_addresses template_ptr (Z.of_nat i) layout with
  | None => mret (slots, failed, false)
  | Some (sel_addr, ptr_addr, len_addr) =>
      r ← read_word sel_addr layout;
      match r with
      | None => mret (slots, failed, false)
      | Some selector =>
          match safe_attribute_kind selector with
          | None => mret acc
          | Some kind =>
              r ← read_word ptr_addr layout;
              match r with
              | None => mret (slots, failed, false)
              | Some ptr =>
                  r ← read_word len_addr layout;
                  mret match r with
                       | None => (slots, failed, false)
                       | Some len =>
                           match slots !! Z.to_nat (gv_slot_count v) with
                           | None => (slots, failed, true)
                           | Some slot =>
                               (<[Z.to_nat (gv_slot_count v) :=
                                   mkSlot ptr len (returned_len slot) (safe_kind_code kind)
                                     (as_u8 (Z.of_nat i)) (slot_status slot) (slot_reserved slot)]> slots,
                                mkVerdict (gv_inspected v) (as_u8 (gv_slot_count v + 1)) (gv_entry_flags v),
                                false)
                           end
                       end
              end
          end
      end
  end.

Definition capture_get_entry_into (template_ptr count : Z) (layout : LinuxLayout) (side : ObjectStart)
    : RM St (GetEntryVerdict * ObjectStart) :=
  let cleared := os_flags side &~ GET_ENTRY_FLAGS_MASK in
  let slots := replicate 8 slot_default in
  let refused :=
    (mkVerdict 0 0 attr_list_flag.INVALID_SPAN,
     put_get 0 0 slots (cleared |' (attr_list_flag.INVALID_SPAN << GET_ENTRY_FLAGS_SHIFT)) 0 side) in
  match (len ← Span.attribute_table_span count layout; Span.validate_target_span template_ptr len layout) with
  | None => mret refused
  | Some _ =>
      let n := Z.min count MAX_ATTRIBUTE_SLOTS in
      match checked_add 64 template_ptr (n * 3 * word_bytes layout) with
      | None => mret refused
      | Some stop =>
          let flags := if MAX_ATTRIBUTE_SLOTS <? count then attr_list_flag.TRUNCATED else 0 in
          ' (slots, v, _) ← for_each (seq 0 (Z.to_nat n)) (get_entry_slot_into template_ptr layout)
                              (slots, mkVerdict (as_u8 n) 0 flags, false);
          mret (v, put_get template_ptr stop slots
                     (cleared |' (gv_entry_flags v << GET_ENTRY_FLAGS_SHIFT)) (as_u8 n) side)
      end
  end.

Inductive GetSlotFlow := FlowBreak | FlowContinue | FlowDone.

Definition GET_SLOT_LAYOUT_BIT : Z := 1 << 8.

Definition encode_get_slot_layout (slot_index : Z) (layout : LinuxLayout) : Z :=
  (slot_index &' 7) |' match layout with Lp64 => 0 | Ilp32 => GET_SLOT_LAYOUT_BIT end.

Definition decode_get_slot_layout (code : Z) : Z * LinuxLayout :=
  (code &' 7, if code &' GET_SLOT_LAYOUT_BIT =? 0 then Lp64 else Ilp32).

Definition encode_get_slot_result (flow : GetSlotFlow) (contributed : Z) : Z :=
  (contributed << 2) |' match flow with FlowBreak => 0 | FlowContinue => 1 | FlowDone => 2 end.

Definition decode_get_slot_result (code : Z) : GetSlotFlow * Z :=
  (if code &' 3 =? 1 then FlowContinue else if code &' 3 =? 2 then FlowDone else FlowBreak,
   as_u32 (code >> 2)).

Definition alias_capacity_core (ptr len other_ptr other_cap : Z) (layout : LinuxLayout) : bool :=
  nz (other_ptr |' other_cap)
  && bool_decide (Span.validate_target_span other_ptr other_cap layout ≠ None)
  && Span.spans_overlap ptr len other_ptr other_cap.

Definition decode_alias_capacity_layout (wb : Z) : option LinuxLayout :=
  if wb =? 4 then Some Ilp32 else if wb =? 8 then Some Lp64 else None.

(** The BPF global [p11_alias_capacity], and its call. *)
Definition alias_capacity_packed (ptr len other_ptr other_cap wb : Z) : Z :=
  match decode_alias_capacity_layout wb with
  | None => 0
  | Some layout => Z.b2z (alias_capacity_core ptr len other_ptr other_cap layout)
  end.

Definition alias_capacity_hit (ptr len other_ptr other_cap : Z) (layout : LinuxLayout) : bool :=
  nz (alias_capacity_packed ptr len other_ptr other_cap (word_bytes layout)).

Definition side_slot (side : ObjectStart) (k : nat) : ObjectAttributeSlot :=
  nth k (os_slots side) slot_default.

(** The scan over the retained capacities stops at the first unused slot. *)
Fixpoint capacity_scan (side : ObjectStart) (k : nat) (ptr len : Z) (layout : LinuxLayout)
    (js : list nat) (alias : bool) : bool :=
  match js with
  | [] => alias
  | j :: js =>
      let other := side_slot side j in
      if negb (slot_kind_selected (slot_kind other)) then alias
      else capacity_scan side k ptr len layout js
             (alias || (negb (j =? k)%nat
                        && alias_capacity_hit ptr len (value_ptr other) (entry_capacity other) layout))
  end.

Definition set_cell (j : nat) (c : ObjectAttributeWire) (out : ObjectAttributeListWire)
    : ObjectAttributeListWire :=
  mkAttrs (<[j := c]> (cells out)) (inspected out) (list_flags out) (list_reserved out).

(** The checks of a reread header, with the status and flow of each exit. *)
Definition get_slot_refusal (slot : ObjectAttributeSlot) (kind : SafeAttributeKind)
    (layout : LinuxLayout) (sel ptr len : Z) : option (Z * Z) :=
  if negb (sel =? selector_for_kind kind) then Some (attr_status.CHANGED, object_flag.CHANGED_METADATA)
  else if value_ptr slot =? 0 then Some (attr_status.SIZE_ONLY, 0)
  else if negb (ptr =? value_ptr slot) then Some (attr_status.CHANGED, object_flag.CHANGED_METADATA)
  else if len =? Span.unavailable_len layout then Some (attr_status.UNAVAILABLE, 0)
  else if entry_capacity slot <? min_exact_len kind layout
  then Some (attr_status.INSUFFICIENT_CAPACITY, 0)
  else if (entry_capacity slot <? len) || negb (valid_safe_attribute_length kind len layout)
  then Some (attr_status.INVALID_LENGTH, 0)
  else if bool_decide (Span.validate_target_span ptr len layout = None)
  then Some (attr_status.INVALID_SPAN, 0)
  else None.

Definition classify_get_slot (side : ObjectStart) (slot_layout : Z) (out : ObjectAttributeListWire)
    : RM St (Z * ObjectAttributeListWire) :=
  let '(k, layout) := decode_get_slot_layout slot_layout in
  let k := Z.to_nat k in
  let slot := side_slot side k in
  match kind_from_code (slot_kind slot) with
  | None => mret (encode_get_slot_result FlowBreak 0, out)
  | Some kind =>
      let n := Z.min (os_get_inspected side) 8 in
      let i := slot_index slot in
      if n <=? i then mret (encode_get_slot_result FlowContinue 0, out)
      else
        let j := Z.to_nat (i &' 7) in
        match cells out !! j with
        | None => mret (encode_get_slot_result FlowContinue 0, out)
        | Some cell =>
            if negb (attr_kind cell =? 0) then mret (encode_get_slot_result FlowContinue 0, out)
            else
              let put := λ status, set_cell j (mkAttr (slot_kind slot) status (attr_value cell)) out in
              match Span.attribute_header_addresses (os_get_template_base side) i layout with
              | None => mret (encode_get_slot_result FlowContinue 0, put attr_status.INVALID_SPAN)
              | Some (sel_addr, ptr_addr, len_addr) =>
                  sel ← read_word sel_addr layout;
                  ptr ← read_word ptr_addr layout;
                  len ← read_word len_addr layout;
                  match sel, ptr, len with
                  | Some sel, Some ptr, Some len =>
                      match get_slot_refusal slot kind layout sel ptr len with
                      | Some (status, flag) => mret (encode_get_slot_result FlowDone flag, put status)
                      | None =>
                          if capacity_scan side k ptr len layout (seq 0 8)
                               (Span.spans_overlap ptr len (os_get_template_base side)
                                  (saturating_sub (os_inspected_header_end side)
                                     (os_get_template_base side)))
                          then mret (encode_get_slot_result FlowDone object_flag.ALIAS, put attr_status.ALIAS)
                          else
                            ' (contrib, cell) ←
                              stable_attribute_cell (os_get_template_base side) i kind ptr len layout
                                (mkAttr (slot_kind slot) (attr_status cell) (attr_value cell));
                            mret (encode_get_slot_result FlowDone contrib, set_cell j cell out)
                      end
                  | _, _, _ => mret (encode_get_slot_result FlowContinue 0, put attr_status.UNREADABLE)
                  end
              end
        end
  end.

(** The return loop: [Break] leaves it. *)
Fixpoint get_return_loop (side : ObjectStart) (layout : LinuxLayout) (ks : list nat)
    (out : ObjectAttributeListWire) (contributed : Z) : RM St (Z * ObjectAttributeListWire) :=
  match ks with
  | [] => mret (contributed, out)
  | k :: ks =>
      ' (code, out) ← classify_get_slot side (encode_get_slot_layout (Z.of_nat k) layout) out;
      let '(flow, contrib) := decode_get_slot_result code in
      match flow with
      | FlowBreak => mret (contributed |' contrib, out)
      | FlowContinue | FlowDone => get_return_loop side layout ks out (contributed |' contrib)
      end
  end.

Definition capture_get_return_into (side : ObjectStart) (rv : Z) (authority : ReturnAuthority)
    (layout : LinuxLayout) : RM St (Z * ObjectAttributeListWire) :=
  if negb (return_accepts_get_results rv) || negb (is_authorized authority)
  then mret (0, cleared_list 0 0)
  else if negb (os_flags side &' GET_ENTRY_UNINSPECTED =? 0)
  then mret (0, cleared_list 0 OBJECT_ATTR_LIST_UNINSPECTED)
  else
    let n := Z.min (os_get_inspected side) 8 in
    let flags := as_u8 ((os_flags side &' GET_ENTRY_FLAGS_MASK) >> GET_ENTRY_FLAGS_SHIFT)
                 |' (if 0 <? n then attr_list_flag.PRESENT else 0) in
    get_return_loop side layout (seq 0 8) (cleared_list n flags) 0.

End Get.
