(* ===== verification/GetEquiv.v ===== *)
(** * The two Get protocols agree

    [CaptureGet.capture_get_entry_into] retains in the owner row what
    [CaptureGet.capture_get_entry] retains in its state, for every reader, and
    [CaptureGet.capture_get_return_into] then publishes on unchanged memory what
    the phase-by-phase [CaptureGet.capture_get_return] computes.  The link is
    [entry_wf]: the retained slots are a dense prefix with distinct template
    indices. *)
From S2P Require Import Prelude CallerEntry TargetAbi Bytes ObjectPolicy ObjectWire Capture CaptureBoundary RequestEquiv CaptureGet.

(** ** Entry *)

Definition to_side (g : GetSlot) : ObjectAttributeSlot :=
  mkSlot (gs_value_ptr g) (gs_entry_capacity g) 0 (gs_kind g) (gs_slot_index g) 0 (replicate 5 0).

(** The owner row that holds an entry state. *)
Definition side_of (e : GetEntryState) (side : ObjectStart) : ObjectStart :=
  put_get (ge_template_base e) (ge_header_end e) (to_side <$> ge_slots e)
    ((os_flags side &~ GET_ENTRY_FLAGS_MASK) |' (ge_entry_flags e << GET_ENTRY_FLAGS_SHIFT))
    (ge_inspected e) side.

(** [retained] slots, below template index [bound]. *)
Definition slots_wf (bound : nat) (slots : list GetSlot) (retained : Z) : Prop :=
  ∃ l, slots = l ++ replicate (8 - length l) get_slot_default ∧ retained = Z.of_nat (length l) ∧
    (length l <= bound)%nat ∧ NoDup (gs_slot_index <$> l) ∧
    Forall (λ g, (∃ k, gs_kind g = safe_kind_code k) ∧ 0 <= gs_slot_index g < Z.of_nat bound) l.

Definition entry_flags_ok (f : Z) : Prop := f = 0 ∨ f = 2 ∨ f = 4 ∨ f = 6 ∨ f = 8.

Definition entry_wf (e : GetEntryState) : Prop :=
  0 <= ge_inspected e <= 8 ∧ slots_wf (Z.to_nat (ge_inspected e)) (ge_slots e) (ge_slot_count e) ∧
  entry_flags_ok (ge_entry_flags e).

Section Entry.
Context {St : Type} `{TargetReader St} `{W : TargetWidth} {Wok : TargetWidthOk W}.

Lemma slots_wf_weaken b b' slots r : (b <= b')%nat → slots_wf b slots r → slots_wf b' slots r.
Proof.
  intros Hb (l & -> & -> & Hl & Hnd & Hf). exists l. split_and!; try done; [lia|].
  eapply Forall_impl; [exact Hf|]. intros g [? ?]. split; [done|lia].
Qed.

Lemma slots_wf_push b slots r ptr len k :
  (b < 8)%nat → slots_wf b slots r →
  slots_wf (b + 1) (<[Z.to_nat r := mkGetSlot ptr len (safe_kind_code k) (as_u8 (Z.of_nat b))]> slots)
    (as_u8 (r + 1)).
Proof.
  intros Hb (l & -> & -> & Hl & Hnd & Hf). rewrite Nat2Z.id.
  unfold as_u8. rewrite !wrap_small by (unfold in_width; lia).
  exists (l ++ [mkGetSlot ptr len (safe_kind_code k) (Z.of_nat b)]). rewrite length_app. cbn [length].
  split_and!; [|lia|lia| |].
  - replace (length l) with (length l + 0)%nat at 1 by lia. rewrite insert_app_r, <- app_assoc. f_equal.
    replace (8 - length l)%nat with (S (8 - (length l + 1))) by lia. done.
  - rewrite fmap_app. apply NoDup_app. split_and!; [done| |by apply NoDup_singleton].
    intros x Hx Hy. apply list_elem_of_singleton in Hy. apply list_elem_of_fmap in Hx as (g & -> & Hg).
    rewrite Forall_forall in Hf. destruct (Hf g Hg) as [_ ?]. cbn in Hy. lia.
  - apply Forall_app. split; [|apply Forall_singleton; cbn; split; [eauto|lia]].
    eapply Forall_impl; [exact Hf|]. intros g [? ?]. split; [done|lia].
Qed.

(** Both entry loops in step: same reads, same slots, same flags. *)
Definition entry_rel (insp : Z) (i : nat) (a : list ObjectAttributeSlot * GetEntryVerdict * bool)
    (b : list GetSlot * Z * Z) : Prop :=
  let '(slots, r, f) := b in
  a = (to_side <$> slots, mkVerdict insp r f, false) ∧ slots_wf i slots r ∧ (i <= 8)%nat ∧
  (f = 0 ∨ f = 2 ∨ f = 4 ∨ f = 6).

Lemma entry_slot_sim insp ptr layout i a b (s : St) :
  (i < 8)%nat → entry_rel insp i a b →
  entry_rel insp (i + 1) (get_entry_slot_into ptr layout i a s).1 (get_entry_slot ptr layout i b s).1 ∧
  (get_entry_slot_into ptr layout i a s).2 = (get_entry_slot ptr layout i b s).2.
Proof.
  destruct b as [[slots r] f]. intros Hi (-> & Hwf & _ & Hf).
  assert (Hsame : ∀ f', (f' = 0 ∨ f' = 2 ∨ f' = 4 ∨ f' = 6) →
    entry_rel insp (i + 1) (to_side <$> slots, mkVerdict insp r f', false) (slots, r, f')).
  { intros f' Hf'. split_and!; try done; [eapply slots_wf_weaken; [|done]; lia|lia]. }
  assert (Hfail : f |' attr_list_flag.HEADER_READ_FAILURE = 0 ∨ f |' attr_list_flag.HEADER_READ_FAILURE = 2 ∨
    f |' attr_list_flag.HEADER_READ_FAILURE = 4 ∨ f |' attr_list_flag.HEADER_READ_FAILURE = 6)
    by (destruct Hf as [-> | [-> | [-> | ->]]]; cbn; auto).
  unfold get_entry_slot_into, get_entry_slot, mbind, rm_bind, mret, rm_ret.
  destruct (Span.attribute_header_addresses _ _ _) as [[[sa pa] la]|]; [|by split; [apply Hsame|]].
  destruct (read_word sa layout s) as [[sel|] s1]; [|by split; [apply Hsame|]].
  destruct (safe_attribute_kind sel) as [k|]; [|by split; [apply Hsame|]].
  destruct (read_word pa layout s1) as [[p|] s2]; [|by split; [apply Hsame|]].
  destruct (read_word la layout s2) as [[l|] s3]; [|by split; [apply Hsame|]].
  cbn [gv_slot_count gv_inspected gv_entry_flags fst snd]. rewrite list_lookup_fmap.
  destruct Hwf as (ls & Es & Er & Hl & Hnd & Hall).
  destruct (slots !! Z.to_nat r) as [g|] eqn:Eg.
  2:{ exfalso. subst. rewrite Nat2Z.id in Eg. apply lookup_ge_None in Eg.
      rewrite length_app, length_replicate in Eg. lia. }
  assert (Hg : g = get_slot_default).
  { subst. rewrite Nat2Z.id, lookup_app_r, Nat.sub_diag in Eg by lia. by apply lookup_replicate in Eg as [-> _]. }
  subst g. cbn [fmap option_fmap option_map]. split; [|done]. split_and!; try done; [| |lia].
  - by rewrite list_fmap_insert.
  - apply slots_wf_push; [done|]. exists ls. split_and!; done.
Qed.

(** The first eight slots of a validated longer table end below 2^64. *)
Lemma truncated_prefix ptr count layout table :
  is_u64 ptr → 8 < count → Span.attribute_table_span count layout = Some table →
  Span.validate_target_span ptr table layout ≠ None → is_u64 (ptr + 8 * 3 * word_bytes layout).
Proof.
  intros Hp Hc Et Ev. unfold in_width in *. unfold Span.attribute_table_span in Et.
  assert (Hw : 3 * word_bytes layout = match layout with Lp64 => 24 | Ilp32 => 12 end)
    by (destruct layout; rewrite ?word_bytes_lp64, ?word_bytes_ilp32; done).
  assert (Ht : table = count * (3 * word_bytes layout)).
  { rewrite Hw. destruct layout; revert Et; zif; try done; intros [= <-];
      rewrite !Z.shiftl_mul_pow2 by lia; lia. }
  unfold Span.validate_target_span in Ev. rewrite (proj2 (Z.eqb_neq table 0)) in Ev by (destruct layout; lia).
  destruct (ptr =? 0); [done|]. destruct layout.
  - unfold checked_add in Ev. destruct (checked 64 _) eqn:E; [|done]. apply checked_Some in E as [_ E].
    unfold in_width in E. lia.
  - unfold checked_add in Ev. destruct (checked 64 _) eqn:E; [|done]. apply checked_Some in E as [_ E].
    unfold in_width in E. lia.
Qed.

(** For every reader, the streamed entry retains in the owner row what the
    array-based entry retains, after the same reads. *)
Lemma get_entry_refines ptr count layout side (s : St) :
  is_u64 ptr → 0 <= count →
  ∃ v e s', capture_get_entry ptr count layout s = ((v, e), s') ∧
    capture_get_entry_into ptr count layout side s = ((v, side_of e side), s') ∧ entry_wf e.
Proof.
  intros Hp Hc. unfold capture_get_entry, capture_get_entry_into. cbv zeta.
  assert (Hrefused : ∃ v e s',
    rm_ret _ (entry_refused attr_list_flag.INVALID_SPAN) s = ((v, e), s') ∧
    rm_ret _ (mkVerdict 0 0 attr_list_flag.INVALID_SPAN,
      put_get 0 0 (replicate 8 slot_default)
        ((os_flags side &~ GET_ENTRY_FLAGS_MASK) |' (attr_list_flag.INVALID_SPAN << GET_ENTRY_FLAGS_SHIFT)) 0 side) s = ((v, side_of e side), s') ∧ entry_wf e).
  { do 3 eexists. split_and!; [reflexivity|reflexivity|]. split_and!; try done; [|by do 4 right].
    exists []. split_and!; try done. apply NoDup_nil_2. }
  destruct (Span.attribute_table_span count layout) as [table|] eqn:Et; [|done].
  cbn [mbind option_bind]. destruct (Span.validate_target_span ptr table layout) as [e0|] eqn:Ev;
    [|by rewrite bool_decide_true]. rewrite bool_decide_false by done.
  set (n := Z.min count MAX_ATTRIBUTE_SLOTS). assert (Hn : 0 <= n <= 8) by (unfold n, MAX_ATTRIBUTE_SLOTS; lia).
  destruct (checked_add 64 ptr (n * 3 * word_bytes layout)) as [stop|] eqn:Ec.
  2:{ assert ((MAX_ATTRIBUTE_SLOTS <? count) = false) as ->; [|done]. apply Z.ltb_ge.
      apply checked_None in Ec. unfold MAX_ATTRIBUTE_SLOTS in *. destruct (Z.le_gt_cases count 8); [done|].
      exfalso. apply Ec. unfold n. rewrite Z.min_r by lia. apply (truncated_prefix ptr count layout table); done || congruence. }
  set (f := if MAX_ATTRIBUTE_SLOTS <? count then attr_list_flag.TRUNCATED else 0).
  rewrite !rm_bind_eq.
  destruct (for_each_seq_sim (entry_rel (as_u8 n)) (get_entry_slot_into ptr layout) (get_entry_slot ptr layout)
    0 (Z.to_nat n) (replicate 8 slot_default, mkVerdict (as_u8 n) 0 f, false)
    (replicate 8 get_slot_default, 0, f) s) as [Hr Hs].
  { split_and!; try done; [|lia|unfold f; destruct (_ <? _); auto].
    exists []. split_and!; try done. apply NoDup_nil_2. }
  { intros i a b t Hi. apply entry_slot_sim. lia. }
  destruct (for_each _ (get_entry_slot_into _ _) _ s) as [[[sl v] st] s1], (for_each _ (get_entry_slot _ _) _ s) as [[[gl r] f'] s2].
  cbn [fst snd] in *. subst s2. destruct Hr as ([= -> -> ->] & Hwf & _ & Hf).
  do 3 eexists. split_and!; [reflexivity|reflexivity|].
  unfold as_u8. rewrite wrap_small by (unfold in_width; lia). split_and!; cbn; [lia|lia|done|].
  unfold entry_flags_ok. tauto.
Qed.

End Entry.

(** ** Return *)

Lemma kind_code_roundtrip k : kind_from_code (safe_kind_code k) = Some k.
Proof. by destruct k. Qed.

Lemma kind_from_code_Some c k : kind_from_code c = Some k → c = safe_kind_code k.
Proof.
  unfold kind_from_code. repeat match goal with |- context [?a =? ?b] => destruct (Z.eqb_spec a b) as [->|] end;
    try done; by intros [= <-].
Qed.

Lemma selector_kind sel k : safe_attribute_kind sel = Some k ↔ sel = selector_for_kind k.
Proof.
  split; [|intros ->; by destruct k]. unfold safe_attribute_kind.
  repeat match goal with |- context [?a =? ?b] => destruct (Z.eqb_spec a b) as [->|] end;
    try done; by intros [= <-].
Qed.

(** The changed-header flag. *)
Definition cflag (b : bool) : Z := if b then object_flag.CHANGED_METADATA else 0.

Lemma cflag_or a b : cflag a |' cflag b = cflag (a || b).
Proof. by destruct a, b. Qed.

Lemma get_refusal_flag `{TargetWidth} g kind layout sel ptr len st fl :
  get_refusal g kind layout sel ptr len = Some (st, fl) → fl = cflag (st =? attr_status.CHANGED).
Proof.
  unfold get_refusal. repeat case_match; intros [= <- <-]; done.
Qed.

Section Return.
Context `{W : TargetWidth} {Wok : TargetWidthOk W}.
Context (mem : Z → LinuxLayout → option Z) (membytes : Z → nat → option (list Z)).
Context (layout : LinuxLayout) (e : GetEntryState) (l : list GetSlot).
Context (Hslots : ge_slots e = l ++ replicate (8 - length l) get_slot_default).
Context (Hcount : ge_slot_count e = Z.of_nat (length l)) (Hinsp : 0 <= ge_inspected e <= 8).
Context (Hlen : (length l <= Z.to_nat (ge_inspected e))%nat) (Hnodup : NoDup (gs_slot_index <$> l)).
Context (Hvalid : Forall (λ g, (∃ k, gs_kind g = safe_kind_code k) ∧
                               0 <= gs_slot_index g < Z.of_nat (Z.to_nat (ge_inspected e))) l).

#[local] Hint Extern 0 (TargetReader unit) => exact (memory mem membytes) : typeclass_instances.

(** What the reread header of a retained slot comes to. *)
Inductive gview :=
| GEnd (status flag : Z)
| GEst (ptr len : Z).

Definition gview_of (g : GetSlot) (kind : SafeAttributeKind) : gview :=
  match Span.attribute_header_addresses (ge_template_base e) (gs_slot_index g) layout with
  | None => GEnd attr_status.INVALID_SPAN 0
  | Some (sel_addr, ptr_addr, len_addr) =>
      match mem sel_addr layout, mem ptr_addr layout, mem len_addr layout with
      | Some sel, Some ptr, Some len =>
          match get_refusal g kind layout sel ptr len with
          | Some (status, flag) => GEnd status flag
          | None => GEst ptr len
          end
      | _, _, _ => GEnd attr_status.UNREADABLE 0
      end
  end.

Definition galias (k : nat) (ptr len : Z) : bool :=
  Span.spans_overlap ptr len (ge_template_base e) (saturating_sub (ge_header_end e) (ge_template_base e))
  || existsb (λ j, negb (j =? k)%nat &&
       alias_capacity_core ptr len (gs_value_ptr (get_slot_at e j)) (gs_entry_capacity (get_slot_at e j)) layout)
     (seq 0 (length l)).

Definition gkind (k : nat) : SafeAttributeKind :=
  default Class_ (kind_from_code (gs_kind (get_slot_at e k))).

Definition gchanged (k : nat) : bool :=
  match gview_of (get_slot_at e k) (gkind k) with GEnd st _ => st =? attr_status.CHANGED | _ => false end.

Definition galiased (k : nat) : bool :=
  match gview_of (get_slot_at e k) (gkind k) with GEst ptr len => galias k ptr len | _ => false end.

(** The cell of the retained slot [k]. *)
Definition gcell (k : nat) : AttrCell :=
  let code := safe_kind_code (gkind k) in
  match gview_of (get_slot_at e k) (gkind k) with
  | GEnd st _ => mkCell code st 0
  | GEst ptr len =>
      if galias k ptr len then mkCell code attr_status.ALIAS 0
      else mkCell code (spec_value mem membytes layout (gkind k) ptr len).1
             (spec_value mem membytes layout (gkind k) ptr len).2
  end.

Lemma slot_at k g : l !! k = Some g → get_slot_at e k = g.
Proof.
  intros Hk. unfold get_slot_at. rewrite Hslots. apply nth_lookup_Some. by apply lookup_app_l_Some.
Qed.

Lemma slot_valid k :
  (k < length l)%nat →
  kind_from_code (gs_kind (get_slot_at e k)) = Some (gkind k) ∧
  gs_kind (get_slot_at e k) = safe_kind_code (gkind k) ∧
  0 <= gs_slot_index (get_slot_at e k) < ge_inspected e.
Proof.
  intros [g Hg]%lookup_lt_is_Some_2. unfold gkind. rewrite (slot_at k g Hg).
  destruct (Forall_lookup_1 _ _ _ _ Hvalid Hg) as [[kd Hk] Hi]. rewrite Hk, kind_code_roundtrip. cbn.
  split_and!; try done; lia.
Qed.

Lemma slot_inj j k :
  (j < length l)%nat → (k < length l)%nat →
  gs_slot_index (get_slot_at e j) = gs_slot_index (get_slot_at e k) → j = k.
Proof.
  intros [g Hg]%lookup_lt_is_Some_2 [g' Hg']%lookup_lt_is_Some_2 E.
  rewrite (slot_at j g Hg), (slot_at k g' Hg') in E.
  apply (NoDup_lookup (gs_slot_index <$> l) j k (gs_slot_index g)); [done|..];
    rewrite list_lookup_fmap, ?Hg, ?Hg'; cbn; congruence.
Qed.

(** The first-wins table of the reference. *)
Lemma retained_for_spec i k :
  Z.of_nat i < 8 →
  nth i (retained_for e (ge_inspected e) (Z.of_nat (length l))) None = Some k ↔
  (k < length l)%nat ∧ gs_slot_index (get_slot_at e k) = Z.of_nat i.
Proof.
  intros Hi. unfold retained_for. rewrite Nat2Z.id.
  cut (∀ m, (m <= length l)%nat →
    let acc := foldl (retain_for e (ge_inspected e)) (replicate 8 None) (seq 0 m) in
    length acc = 8%nat ∧
    ∀ k, nth i acc None = Some k ↔ (k < m)%nat ∧ gs_slot_index (get_slot_at e k) = Z.of_nat i).
  { intros Hm. destruct (Hm (length l) ltac:(lia)) as [_ ->]. done. }
  induction m as [|m IH]; intros Hm.
  { split; [apply length_replicate|]. intros k'. cbn [seq foldl]. rewrite nth_replicate_lt by lia. split; [done|lia]. }
  destruct (IH ltac:(lia)) as [Hl Hs]. rewrite seq_S, foldl_app, Nat.add_0_l. cbn [foldl].
  set (acc := foldl _ _ _) in *. unfold retain_for. destruct (slot_valid m ltac:(lia)) as (_ & _ & Hx).
  rewrite (proj2 (Z.ltb_lt _ _)) by lia. cbn [andb]. set (x := gs_slot_index (get_slot_at e m)) in *.
  assert (Hnone : Z.of_nat i = x → nth i acc None = None).
  { intros E. destruct (nth i acc None) as [k'|] eqn:En; [|done]. exfalso.
    destruct (proj1 (Hs k') eq_refl) as [Hk' Ek']. assert (k' = m) by (apply slot_inj; try lia; unfold x in *; lia). lia. }
  destruct (decide (Z.of_nat i = x)) as [Ei|Ni].
  - replace (Z.to_nat x) with i by lia. rewrite bool_decide_true by auto. split; [by rewrite length_insert|].
    intros k'. rewrite nth_insert, decide_True by (lia || done). split.
    + intros [= <-]. split; [lia|done].
    + intros [Hk' Ek']. f_equal. symmetry. apply slot_inj; unfold x in *; lia.
  - assert (Hrest : ∀ acc', length acc' = 8%nat → nth i acc' None = nth i acc None →
      length acc' = 8%nat ∧ ∀ k, nth i acc' None = Some k ↔ (k < S m)%nat ∧ gs_slot_index (get_slot_at e k) = Z.of_nat i).
    { intros acc' Hl' ->. split; [done|]. intros k'. rewrite Hs. split; intros [? ?]; split; try lia.
      destruct (decide (k' = m)) as [->|]; [unfold x in *; lia|lia]. }
    case_bool_decide; apply Hrest; rewrite ?length_insert; try done.
    rewrite nth_insert, decide_False; [done|lia|lia].
Qed.

Definition gret (i : nat) : option nat :=
  nth i (retained_for e (ge_inspected e) (Z.of_nat (length l))) None.

Definition p1_cell (i : nat) : option AttrCell :=
  k ← gret i;
  match gview_of (get_slot_at e k) (gkind k) with
  | GEnd st _ => Some (mkCell (safe_kind_code (gkind k)) st 0)
  | GEst _ _ => None
  end.

Definition p1_est (i : nat) : option (option (SafeAttributeKind * Z)) :=
  k ← gret i;
  match gview_of (get_slot_at e k) (gkind k) with
  | GEnd _ _ => None
  | GEst _ len => Some (Some (gkind k, len))
  end.

Definition at_slot (f : nat → bool) (i : nat) : bool := match gret i with Some k => f k | None => false end.

Definition p2_alias (i : nat) : option AttrCell :=
  k ← gret i; if galiased k then Some (mkCell (safe_kind_code (gkind k)) attr_status.ALIAS 0) else None.

Definition p2_value (i : nat) : option AttrCell :=
  k ← gret i;
  match gview_of (get_slot_at e k) (gkind k) with
  | GEst ptr len => if galias k ptr len then None else Some (gcell k)
  | GEnd _ _ => None
  end.

Lemma get_phases i :
  default (default (default zero_cell (p1_cell i)) (p2_alias i)) (p2_value i) =
  match gret i with Some k => gcell k | None => zero_cell end.
Proof.
  unfold p1_cell, p2_alias, p2_value, gcell, galiased. destruct (gret i) as [k|]; [|done].
  cbn [mbind option_bind]. destruct (gview_of _ _) as [st fl|ptr len]; [done|]. by destruct (galias k ptr len).
Qed.

Lemma gret_Some i k :
  Z.of_nat i < 8 → gret i = Some k →
  (k < length l)%nat ∧ gs_slot_index (get_slot_at e k) = Z.of_nat i.
Proof. intros Hi. apply retained_for_spec, Hi. Qed.

Lemma get_phase1_pure i o est :
  Z.of_nat i < ge_inspected e →
  get_phase1 e layout (retained_for e (ge_inspected e) (Z.of_nat (length l))) i (o, est) tt =
  ((mkOutcome (match p1_cell i with Some c => <[i := c]> (out_cells o) | None => out_cells o end)
      (out_inspected o) (out_flags o) (out_object_flags o |' cflag (at_slot gchanged i)),
    match p1_est i with Some v => <[i := v]> est | None => est end), tt).
Proof.
  intros Hi. assert (Ho : ∀ o, mkOutcome (out_cells o) (out_inspected o) (out_flags o) (out_object_flags o |' 0) = o)
    by (intros []; cbn; by rewrite Z.lor_0_r).
  unfold get_phase1, at_slot, p1_cell, p1_est, mret, rm_ret. change (nth i _ None) with (gret i).
  destruct (gret i) as [k|] eqn:Ek; cbn [mbind option_bind]; [|by rewrite Ho].
  destruct (gret_Some i k ltac:(lia) Ek) as [Hk Hx]. destruct (slot_valid k Hk) as (Hc & Hs & _).
  rewrite Hc. unfold gchanged, gview_of. rewrite Hx.
  destruct (Span.attribute_header_addresses _ _ _) as [[[sa pa] la]|]; unfold mbind, rm_bind; cbn [read_word memory].
  2:{ cbn. by rewrite Hs, Z.lor_0_r. }
  destruct (mem sa layout) as [sel|], (mem pa layout) as [ptr|], (mem la layout) as [len|];
    try (cbn; rewrite Hs, Z.lor_0_r; done).
  destruct (get_refusal _ _ _ _ _ _) as [[st fl]|] eqn:Er; [|cbn; by rewrite Z.lor_0_r; destruct o].
  rewrite (get_refusal_flag _ _ _ _ _ _ _ _ Er). unfold or_object_flags, put_cell. cbn. by rewrite Hs.
Qed.

Lemma get_phase1s_pure slots o est :
  Forall (λ i, Z.of_nat i < ge_inspected e) slots →
  for_each slots (get_phase1 e layout (retained_for e (ge_inspected e) (Z.of_nat (length l)))) (o, est) tt =
  ((mkOutcome (upd p1_cell slots (out_cells o)) (out_inspected o) (out_flags o)
      (out_object_flags o |' cflag (existsb (at_slot gchanged) slots)), upd p1_est slots est), tt).
Proof.
  revert o est. induction slots as [|i slots IH]; intros o est Hs.
  { cbn. rewrite Z.lor_0_r. by destruct o. }
  apply Forall_cons in Hs as [Hi Hs]. cbn [for_each]. rewrite rm_bind_eq, get_phase1_pure, IH by done.
  cbn [out_cells out_inspected out_flags out_object_flags existsb]. by rewrite !upd_cons, <- Z.lor_assoc, cflag_or.
Qed.

Lemma gview_est g kind ptr len :
  gview_of g kind = GEst ptr len →
  ptr = gs_value_ptr g ∧ Span.validate_target_span ptr len layout ≠ None ∧
  ∃ sa pa la sel, Span.attribute_header_addresses (ge_template_base e) (gs_slot_index g) layout = Some (sa, pa, la) ∧
    mem sa layout = Some sel ∧ mem pa layout = Some ptr ∧ mem la layout = Some len ∧
    safe_attribute_kind sel = Some kind ∧ get_refusal g kind layout sel ptr len = None.
Proof.
  unfold gview_of. destruct (Span.attribute_header_addresses _ _ _) as [[[sa pa] la]|]; [|done].
  destruct (mem sa layout) as [sel|] eqn:Es, (mem pa layout) as [p|] eqn:Ep, (mem la layout) as [n|] eqn:El; try done.
  destruct (get_refusal _ _ _ _ _ _) as [[]|] eqn:Er; [done|]. intros [= -> ->].
  assert (Er' := Er). unfold get_refusal in Er. destruct (bool_decide (safe_attribute_kind sel = Some kind)) eqn:Ek; [|done].
  apply bool_decide_eq_true in Ek. cbn [negb] in Er. destruct (gs_value_ptr g =? 0); [done|].
  destruct (Z.eqb_spec ptr (gs_value_ptr g)) as [<-|]; [|done]. cbn [negb] in Er.
  destruct (len =? _); [done|]. destruct (_ <? min_exact_len _ _); [done|]. destruct (_ || _); [done|].
  case_bool_decide; [done|]. split_and!; [done|done|]. exists sa, pa, la, sel. split_and!; done.
Qed.

Definition est_at (est : list (option (SafeAttributeKind * Z))) (slots : list nat) : Prop :=
  ∀ i, i ∈ slots → nth i est None = default None (p1_est i).

Definition in_table (slots : list nat) : Prop := ∀ i, i ∈ slots → Z.of_nat i < ge_inspected e.

Lemma get_aliased_pure est slots i :
  est_at est slots → in_table slots → i ∈ slots →
  get_aliased e (Z.of_nat (length l)) layout (retained_for e (ge_inspected e) (Z.of_nat (length l))) est i =
  at_slot galiased i.
Proof.
  intros He Ht Hi. unfold get_aliased, at_slot, galiased. rewrite (He i Hi). change (nth i (retained_for _ _ _) None) with (gret i).
  unfold p1_est. destruct (gret i) as [k|] eqn:Ek; [|done]. cbn [mbind option_bind].
  destruct (gview_of _ _) as [st fl|ptr len] eqn:Ev; [done|]. cbn [default].
  destruct (gview_est _ _ _ _ Ev) as [<- _]. unfold galias. f_equal. rewrite Nat2Z.id.
  apply existsb_ext_in. intros j _. rewrite <- !andb_assoc. f_equal. rewrite !andb_assoc.
  unfold alias_capacity_core. rewrite <- stated_span_eq. done.
Qed.

Lemma get_marks_pure aliased est slots o :
  est_at est slots → (∀ i, i ∈ slots → aliased i = at_slot galiased i) →
  foldl (get_mark aliased est) o slots =
  mkOutcome (upd p2_alias slots (out_cells o)) (out_inspected o) (out_flags o)
    (out_object_flags o |' alias_flag (existsb (at_slot galiased) slots)).
Proof.
  revert o. induction slots as [|i slots IH]; intros o He Ha.
  { cbn. rewrite Z.lor_0_r. by destruct o. }
  cbn [foldl existsb]. rewrite IH by (intros j Hj; (apply He || apply Ha); set_solver).
  rewrite upd_cons, <- alias_flag_or, Z.lor_assoc. unfold get_mark. rewrite Ha, He by set_solver.
  unfold at_slot, p2_alias, p1_est, galiased.
  destruct (gret i) as [k|]; cbn [mbind option_bind]; [|cbn; by rewrite Z.lor_0_r].
  destruct (gview_of _ _) as [st fl|ptr len]; [cbn; by rewrite Z.lor_0_r|].
  destruct (galias k ptr len); cbn; [done|by rewrite Z.lor_0_r].
Qed.

Lemma get_phase2_pure aliased est i o :
  Z.of_nat i < ge_inspected e → nth i est None = default None (p1_est i) → aliased i = at_slot galiased i →
  get_phase2 e layout (retained_for e (ge_inspected e) (Z.of_nat (length l))) est aliased i o tt =
  (match p2_value i with
   | Some c => mkOutcome (<[i := c]> (out_cells o)) (out_inspected o) (out_flags o) (out_object_flags o)
   | None => o
   end, tt).
Proof.
  intros Hi He Ha. unfold get_phase2. rewrite Ha, He. change (nth i (retained_for _ _ _) None) with (gret i).
  unfold at_slot, galiased, p1_est, p2_value, gcell, mret, rm_ret.
  destruct (gret i) as [k|] eqn:Ek; cbn [mbind option_bind]; [|done]. destruct (gret_Some i k ltac:(lia) Ek) as [Hk Hx].
  destruct (gview_of _ _) as [st fl|ptr len] eqn:Ev; [done|]. destruct (galias k ptr len); [done|]. cbn [from_option id].
  destruct (gview_est _ _ _ _ Ev) as (Hp & _ & sa & pa & la & sel & Ea & Es & Ep & El & Hsel & _).
  rewrite <- Hp, <- Hx, Ea. unfold spec_value, mbind, rm_bind. rewrite (unit_pair (read_classified_value _ _ _ _ _)).
  assert (Hr : ∀ st v, get_recheck sa pa la layout (gkind k) ptr len i st v o tt =
    (put_cell i (safe_kind_code (gkind k)) st v o, tt)).
  { intros st v. unfold get_recheck, mbind, rm_bind, mret, rm_ret. cbn [read_word memory].
    by rewrite Es, Ep, El, bool_decide_true, !Z.eqb_refl. }
  destruct ((read_classified_value (gkind k) ptr len layout tt).1) as [v|st]; cbn [fst snd]; [by rewrite Hr|].
  destruct (Z.eqb_spec st attr_status.UNSUPPORTED) as [->|]; cbn [negb]; [by rewrite Hr|done].
Qed.

Lemma get_phase2s_pure aliased est slots o :
  in_table slots → est_at est slots → (∀ i, i ∈ slots → aliased i = at_slot galiased i) →
  for_each slots (get_phase2 e layout (retained_for e (ge_inspected e) (Z.of_nat (length l))) est aliased) o tt =
  (mkOutcome (upd p2_value slots (out_cells o)) (out_inspected o) (out_flags o) (out_object_flags o), tt).
Proof.
  revert o. induction slots as [|i slots IH]; intros o Ht He Ha; [by destruct o|].
  cbn [for_each]. rewrite rm_bind_eq, get_phase2_pure by ((apply Ht || apply He || apply Ha); set_solver).
  rewrite IH, upd_cons by (intros j Hj; (apply Ht || apply He || apply Ha); set_solver). by destruct (p2_value i).
Qed.

(** *** The streamed side *)

Lemma side_slot_at side k : side_slot (side_of e side) k = to_side (get_slot_at e k).
Proof. unfold side_slot, get_slot_at, side_of. cbn [os_slots put_get]. exact (map_nth to_side _ get_slot_default k). Qed.

Lemma slot_layout_roundtrip k :
  (k < 8)%nat → decode_get_slot_layout (encode_get_slot_layout (Z.of_nat k) layout) = (Z.of_nat k, layout).
Proof. intros Hk. do 8 (destruct k as [|k]; [by destruct layout|]). lia. Qed.

Lemma slot_unused k : (length l <= k)%nat → kind_from_code (gs_kind (get_slot_at e k)) = None.
Proof.
  intros Hk. unfold get_slot_at. rewrite Hslots, app_nth2 by lia. set (n := (8 - length l)%nat).
  destruct (Nat.lt_ge_cases (k - length l) n).
  - by rewrite nth_replicate_lt.
  - by rewrite nth_overflow by (rewrite length_replicate; lia).
Qed.

Lemma selected_code k : (k < length l)%nat → slot_kind_selected (gs_kind (get_slot_at e k)) = true.
Proof. intros Hk. destruct (slot_valid k Hk) as (_ & -> & _). by destruct (gkind k). Qed.

(** The capacity verdict through its BPF global. *)
Lemma alias_capacity_hit_eq ptr len other_ptr other_cap layout' :
  alias_capacity_hit ptr len other_ptr other_cap layout' =
  alias_capacity_core ptr len other_ptr other_cap layout'.
Proof.
  unfold alias_capacity_hit, alias_capacity_packed. rewrite word_bytes_cases.
  destruct layout'; cbn [decode_alias_capacity_layout Z.eqb Pos.eqb]; by destruct (alias_capacity_core _ _ _ _ _).
Qed.

Lemma capacity_scan_pure side k ptr len j m a :
  (j + m = 8)%nat → (j <= length l)%nat →
  capacity_scan (side_of e side) k ptr len layout (seq j m) a =
  a || existsb (λ j, negb (j =? k)%nat &&
    alias_capacity_core ptr len (gs_value_ptr (get_slot_at e j)) (gs_entry_capacity (get_slot_at e j)) layout)
    (seq j (length l - j)).
Proof.
  revert j a. induction m as [|m IH]; intros j a Hm Hj.
  { assert (length l <= 8)%nat by lia. replace (length l - j)%nat with 0%nat by lia. by rewrite orb_false_r. }
  cbn [seq capacity_scan]. rewrite side_slot_at. cbn [slot_kind to_side value_ptr entry_capacity].
  destruct (decide (j = length l)) as [->|Hne].
  - rewrite Nat.sub_diag. cbn [seq existsb]. rewrite orb_false_r.
    assert (Hu := slot_unused (length l) (le_n _)). destruct (slot_kind_selected _) eqn:Es; [|done].
    exfalso. unfold get_slot_at in Es. rewrite Hslots, app_nth2, Nat.sub_diag, nth_replicate_lt in Es by lia. done.
  - rewrite selected_code by lia. cbn [negb]. rewrite IH, alias_capacity_hit_eq by lia.
    replace (length l - j)%nat with (S (length l - S j)) by lia. cbn [seq existsb]. by rewrite orb_assoc.
Qed.

Lemma get_slot_refusal_eq g kind sel ptr len :
  get_slot_refusal (to_side g) kind layout sel ptr len = get_refusal g kind layout sel ptr len.
Proof.
  unfold get_slot_refusal, get_refusal. cbn [to_side value_ptr entry_capacity].
  rewrite (bool_eq_iff (sel =? selector_for_kind kind) (bool_decide (safe_attribute_kind sel = Some kind)))
    by (rewrite Z.eqb_eq, bool_decide_eq_true, selector_kind; done).
  destruct (negb _); [done|]. destruct (gs_value_ptr g =? 0); [done|].
  by destruct (Z.eqb_spec ptr (gs_value_ptr g)) as [->|].
Qed.

Definition next_slot (c : Z) (x : Z) : Prop := ∃ flow, flow ≠ FlowBreak ∧ x = encode_get_slot_result flow c.

Lemma next_slot_decode a b x :
  next_slot (cflag a |' alias_flag b) x →
  ∃ flow, flow ≠ FlowBreak ∧ decode_get_slot_result x = (flow, cflag a |' alias_flag b).
Proof. intros (flow & Hf & ->). exists flow. split; [done|]. by destruct a, b, flow. Qed.

Lemma classify_get_slot_pure side k out :
  (k < length l)%nat →
  cells out !! Z.to_nat (gs_slot_index (get_slot_at e k)) = Some (mkAttr 0 0 0) →
  ∃ x, next_slot (cflag (gchanged k) |' alias_flag (galiased k)) x ∧
    classify_get_slot (side_of e side) (encode_get_slot_layout (Z.of_nat k) layout) out tt =
    ((x, set_cell (Z.to_nat (gs_slot_index (get_slot_at e k))) (AttrCell_to_wire (gcell k)) out), tt).
Proof.
  intros Hk Hz. destruct (slot_valid k Hk) as (Hc & Hs & Hi). set (g := get_slot_at e k) in *.
  unfold classify_get_slot. rewrite slot_layout_roundtrip by lia. cbv zeta. rewrite Nat2Z.id, side_slot_at.
  cbn [to_side slot_kind slot_index]. fold g. rewrite Hc.
  change (os_get_inspected (side_of e side)) with (ge_inspected e).
  change (os_get_template_base (side_of e side)) with (ge_template_base e).
  change (os_inspected_header_end (side_of e side)) with (ge_header_end e).
  rewrite (proj2 (Z.leb_gt (Z.min (ge_inspected e) 8) (gs_slot_index g))) by lia.
  replace (gs_slot_index g &' 7) with (gs_slot_index g).
  2:{ change 7 with (Z.ones 3). rewrite Z.land_ones by lia. symmetry. apply Z.mod_small. lia. }
  rewrite Hz. cbn [attr_kind attr_value negb Z.eqb]. rewrite Hs.
  unfold gchanged, galiased, gcell. fold g. destruct (gview_of g (gkind k)) as [st fl|ptr len] eqn:Ev.
  - unfold gview_of in Ev. destruct (Span.attribute_header_addresses _ _ _) as [[[sa pa] la]|]; unfold mbind, rm_bind, mret, rm_ret.
    2:{ injection Ev as <- <-. eexists. split; [|reflexivity]. by exists FlowContinue. }
    cbn [read_word memory]. destruct (mem sa layout) as [sel|], (mem pa layout) as [p|], (mem la layout) as [n|];
      try (injection Ev as <- <-; eexists; split; [|reflexivity]; by exists FlowContinue).
    rewrite get_slot_refusal_eq. destruct (get_refusal _ _ _ _ _ _) as [[st' fl']|] eqn:Er; [|done].
    injection Ev as <- <-. rewrite (get_refusal_flag _ _ _ _ _ _ _ _ Er). eexists. split; [|reflexivity].
    exists FlowDone. by rewrite Z.lor_0_r.
  - destruct (gview_est _ _ _ _ Ev) as (Hp & _ & sa & pa & la & sel & Ea & Es & Ep & El & Hsel & Er).
    rewrite Ea. unfold mbind, rm_bind, mret, rm_ret. cbn [read_word memory].
    rewrite Es, Ep, El, get_slot_refusal_eq, Er, capacity_scan_pure, Nat.sub_0_r by lia.
    change (Span.spans_overlap _ _ _ _ || _) with (galias k ptr len).
    destruct (galias k ptr len); [eexists; split; [|reflexivity]; by exists FlowDone|].
    destruct (stable_cell_pure mem membytes layout (ge_template_base e) (Z.to_nat (gs_slot_index g)) (gkind k) sel ptr len)
      as (write & E & Hw).
    { unfold hdr_at. rewrite Z2Nat.id by lia. by rewrite Ea, Es, Hsel, Ep, El. }
    rewrite stable_attribute_cell_eq. rewrite Z2Nat.id in E by lia. rewrite E. eexists. split; [by exists FlowDone|].
    destruct write; [done|]. by rewrite Hw.
Qed.

Definition gindex (k : nat) : nat := Z.to_nat (gs_slot_index (get_slot_at e k)).

Definition place (ks : list nat) (cs : list ObjectAttributeWire) : list ObjectAttributeWire :=
  foldl (λ cs k, <[gindex k := AttrCell_to_wire (gcell k)]> cs) cs ks.

Lemma gindex_inj j k : (j < length l)%nat → (k < length l)%nat → gindex j = gindex k → j = k.
Proof.
  intros Hj Hk. destruct (slot_valid j Hj) as (_ & _ & ?), (slot_valid k Hk) as (_ & _ & ?).
  unfold gindex. intros. apply slot_inj; lia.
Qed.

Lemma lor_exchange c p q r s : (c |' (p |' q)) |' r |' s = c |' (p |' r) |' (q |' s).
Proof.
  apply Z.bits_inj'. intros n _. rewrite !Z.lor_spec.
  by destruct (Z.testbit c n), (Z.testbit p n), (Z.testbit q n), (Z.testbit r n), (Z.testbit s n).
Qed.

Lemma get_return_loop_pure side k m out c :
  (k + m = 8)%nat → (k <= length l)%nat →
  (∀ j, (k <= j < length l)%nat → cells out !! gindex j = Some (mkAttr 0 0 0)) →
  get_return_loop (side_of e side) layout (seq k m) out c tt =
  ((c |' cflag (existsb gchanged (seq k (length l - k))) |' alias_flag (existsb galiased (seq k (length l - k))),
    mkAttrs (place (seq k (length l - k)) (cells out)) (inspected out) (list_flags out) (list_reserved out)), tt).
Proof.
  revert k out c. induction m as [|m IH]; intros k out c Hm Hk Hz.
  { replace (length l - k)%nat with 0%nat by lia. cbn. rewrite !Z.lor_0_r. by destruct out. }
  cbn [seq get_return_loop]. rewrite rm_bind_eq. destruct (decide (k = length l)) as [->|Hne].
  - unfold classify_get_slot. rewrite slot_layout_roundtrip by lia. cbv zeta.
    rewrite Nat2Z.id, side_slot_at. cbn [to_side slot_kind]. rewrite slot_unused, Nat.sub_diag by lia.
    cbn. rewrite !Z.lor_0_r. by destruct out.
  - destruct (classify_get_slot_pure side k out ltac:(lia) (Hz k ltac:(lia))) as (x & Hx & ->).
    apply next_slot_decode in Hx as (flow & Hf & ->).
    match goal with |- ?r = _ =>
      assert (r = get_return_loop (side_of e side) layout (seq (S k) m)
        (set_cell (gindex k) (AttrCell_to_wire (gcell k)) out) (c |' (cflag (gchanged k) |' alias_flag (galiased k))) tt)
        as -> by (by destruct flow) end.
    rewrite IH; [|lia|lia|].
    + replace (length l - k)%nat with (S (length l - S k)) by lia. cbn [seq existsb set_cell cells].
      rewrite lor_exchange, cflag_or, alias_flag_or. done.
    + intros j Hj. cbn [set_cell cells]. rewrite list_lookup_insert_ne; [apply Hz; lia|].
      intros E. apply gindex_inj in E; lia.
Qed.

Lemma place_length ks cs : length (place ks cs) = length cs.
Proof.
  revert cs. induction ks as [|k ks IH]; intros cs; [done|].
  change (place (k :: ks) cs) with (place ks (<[gindex k := AttrCell_to_wire (gcell k)]> cs)).
  rewrite IH. apply length_insert.
Qed.

Lemma place_nth i m :
  Z.of_nat i < 8 → (m <= length l)%nat →
  nth i (place (seq 0 m) (replicate 8 (mkAttr 0 0 0))) (mkAttr 0 0 0) =
  match gret i with
  | Some k => if decide (k < m)%nat then AttrCell_to_wire (gcell k) else mkAttr 0 0 0
  | None => mkAttr 0 0 0
  end.
Proof.
  intros Hi. induction m as [|m IH]; intros Hm.
  { cbn [seq place foldl]. rewrite nth_replicate_lt by lia. by destruct (gret i). }
  rewrite seq_S, Nat.add_0_l. unfold place. rewrite foldl_app. cbn [foldl]. fold (place (seq 0 m) (replicate 8 (mkAttr 0 0 0))).
  rewrite nth_insert by (rewrite place_length, length_replicate; lia). destruct (slot_valid m ltac:(lia)) as (_ & _ & Hx).
  destruct (decide (gindex m = i)) as [Em|Nm].
  - assert (gret i = Some m) as ->.
    { apply retained_for_spec; unfold gindex in Em; [lia|]. split; lia. }
    rewrite decide_True by lia. done.
  - rewrite IH by lia. destruct (gret i) as [k|] eqn:Ek; [|done].
    destruct (decide (k < m)%nat), (decide (k < S m)%nat); try done; [lia|].
    assert (k = m) as -> by lia. exfalso. apply Nm.
    apply gret_Some in Ek as [_ Ek]; [|done]. unfold gindex. lia.
Qed.

Lemma at_slot_exists f :
  existsb (at_slot f) (seq 0 (Z.to_nat (ge_inspected e))) = existsb f (seq 0 (length l)).
Proof.
  apply bool_eq_iff. rewrite !existsb_exists. split.
  - intros (i & [_ Hi]%in_seq & Hf). unfold at_slot in Hf. destruct (gret i) as [k|] eqn:Ek; [|done].
    apply gret_Some in Ek as [Hk _]; [|lia]. exists k. split; [apply in_seq; lia|done].
  - intros (k & [_ Hk]%in_seq & Hf). destruct (slot_valid k Hk) as (_ & _ & Hx). exists (gindex k). split.
    + apply in_seq. unfold gindex. lia.
    + unfold at_slot. assert (gret (gindex k) = Some k) as ->; [|done].
      apply retained_for_spec; unfold gindex; [lia|]. split; lia.
Qed.

(** The private flag bits of the row hold exactly the entry flags. *)
Lemma entry_flags_read f0 fl :
  entry_flags_ok fl →
  let f := (f0 &~ GET_ENTRY_FLAGS_MASK) |' (fl << GET_ENTRY_FLAGS_SHIFT) in
  f &' GET_ENTRY_UNINSPECTED = 0 ∧ as_u8 ((f &' GET_ENTRY_FLAGS_MASK) >> GET_ENTRY_FLAGS_SHIFT) = fl ∧
  fl &' 0x0F = fl.
Proof.
  assert (Hd : ∀ x, x &' GET_ENTRY_FLAGS_MASK = x → (f0 &~ GET_ENTRY_FLAGS_MASK) &' x = 0).
  { intros x Hx. apply Z.bits_inj'. intros n _. rewrite <- Hx, !Z.land_spec, Z.ldiff_spec, Z.bits_0.
    by destruct (Z.testbit f0 n), (Z.testbit GET_ENTRY_FLAGS_MASK n), (Z.testbit x n). }
  intros Hf f. unfold f. rewrite !Z.land_lor_distr_l, !Hd, !Z.lor_0_l by done.
  by destruct Hf as [-> | [-> | [-> | [-> | ->]]]].
Qed.

Lemma get_cells_equal :
  place (seq 0 (length l)) (replicate 8 (mkAttr 0 0 0)) =
  AttrCell_to_wire <$> upd p2_value (seq 0 (Z.to_nat (ge_inspected e)))
    (upd p2_alias (seq 0 (Z.to_nat (ge_inspected e)))
      (upd p1_cell (seq 0 (Z.to_nat (ge_inspected e))) (replicate 8 zero_cell))).
Proof.
  apply (nth_ext _ _ (mkAttr 0 0 0) (mkAttr 0 0 0)).
  { by rewrite place_length, length_fmap, !upd_length, !length_replicate. }
  intros i Hi. rewrite place_length, length_replicate in Hi. rewrite place_nth by lia.
  assert (Hw : ∀ cs, nth i (AttrCell_to_wire <$> cs) (mkAttr 0 0 0) = AttrCell_to_wire (nth i cs zero_cell))
    by (intros cs; exact (map_nth AttrCell_to_wire cs zero_cell i)).
  rewrite Hw, !nth_upd by (rewrite ?upd_length, length_replicate; done).
  rewrite nth_replicate_lt by done. destruct (decide (i ∈ seq 0 (Z.to_nat (ge_inspected e)))) as [Hin|Hout].
  - rewrite get_phases. destruct (gret i) as [k|] eqn:Ek; [|done].
    apply gret_Some in Ek as [Hk _]; [|lia]. by rewrite decide_True.
  - destruct (gret i) as [k|] eqn:Ek; [|done]. exfalso. apply Hout, elem_of_seq.
    apply gret_Some in Ek as [Hk Ek]; [|lia]. destruct (slot_valid k Hk) as (_ & _ & ?). lia.
Qed.

Lemma get_return_refines side rv authority :
  entry_flags_ok (ge_entry_flags e) →
  capture_get_return_into (side_of e side) rv authority layout tt =
  let '(o, s) := capture_get_return e rv authority layout tt in
  ((out_object_flags o, AttributeListOutcome_to_wire o), s).
Proof.
  intros Hf. unfold capture_get_return_into, capture_get_return.
  destruct (negb (return_accepts_get_results rv) || negb (is_authorized authority)); [done|].
  destruct (entry_flags_read (os_flags side) _ Hf) as (Hu & Hm & Hr).
  change (os_flags (side_of e side)) with
    ((os_flags side &~ GET_ENTRY_FLAGS_MASK) |' (ge_entry_flags e << GET_ENTRY_FLAGS_SHIFT)).
  rewrite Hu, Hm, Hr. change (negb (0 =? 0)) with false. cbv iota.
  change (os_get_inspected (side_of e side)) with (ge_inspected e). rewrite Hcount, !Z.min_l by lia. cbv zeta.
  set (slots := seq 0 (Z.to_nat (ge_inspected e))).
  assert (Ht : in_table slots) by (intros i Hi; apply elem_of_seq in Hi; lia).
  rewrite rm_bind_eq, get_phase1s_pure by (apply Forall_forall; exact Ht).
  match goal with |- context [upd p1_est slots ?v] => set (est := upd p1_est slots v) end.
  assert (He : est_at est slots).
  { intros i Hi. unfold est. assert (i < 8)%nat by (apply elem_of_seq in Hi; lia).
    rewrite nth_upd, decide_True, nth_replicate_lt by (rewrite ?length_replicate; done).
    by destruct (p1_est i). }
  set (al := get_aliased _ _ _ _ est).
  assert (Ha : ∀ i, i ∈ slots → al i = at_slot galiased i) by (intros i Hi; by apply (get_aliased_pure est slots)).
  rewrite get_marks_pure, get_phase2s_pure by done.
  rewrite get_return_loop_pure; [|lia|lia|].
  2:{ intros j Hj. destruct (slot_valid j ltac:(lia)) as (_ & _ & ?). apply lookup_replicate.
      split; [done|]. unfold gindex. lia. }
  cbn [cleared_list cells inspected list_flags list_reserved out_cells out_inspected out_flags out_object_flags].
  rewrite Nat.sub_0_r, <- !at_slot_exists. unfold AttributeListOutcome_to_wire. cbn [out_cells out_inspected out_flags].
  by rewrite get_cells_equal.
Qed.

End Return.

(** C21: The Get protocol the BPF programs run (entry facts in the owner row,
    one packed slot at a time at return) is equivalent to the array-based
    protocol: for every reader at entry, the streamed entry makes the same
    reads, returns the same verdict and retains the same headers, and on
    memory that no longer changes the streamed return publishes exactly the
    list and the object flags of the phase-by-phase return, for every return
    value, authority and layout. *)
Theorem get_streamed_equivalent {St} `{TargetReader St} `{W : TargetWidth} {Wok : TargetWidthOk W}
    ptr count layout side (s : St) :
  is_u64 ptr → 0 <= count →
  ∃ v e s' side', capture_get_entry ptr count layout s = ((v, e), s') ∧
    capture_get_entry_into ptr count layout side s = ((v, side'), s') ∧
    ∀ mem membytes rv authority layout',
      @capture_get_return_into unit (memory mem membytes) W side' rv authority layout' tt =
      let '(o, t) := @capture_get_return unit (memory mem membytes) W e rv authority layout' tt in
      ((out_object_flags o, AttributeListOutcome_to_wire o), t).
Proof.
  intros Hp Hc. destruct (get_entry_refines ptr count layout side s Hp Hc) as (v & e & s' & E1 & E2 & Hwf).
  exists v, e, s', (side_of e side). split_and!; [done|done|]. intros.
  destruct Hwf as (Hi & (l & Es & Er & Hl & Hnd & Hall) & Hf). by apply (get_return_refines _ _ _ _ l).
Qed.

Definition start_default : ObjectStart :=
  mkStart (Build_ImageIdentity 0 0) 0 0 0 0 0 0 [0; 0] [0; 0] 0 0 0 0 (replicate 8 slot_default)
    (replicate 2 zero_attrs) [0; 0] [0; 0] 0 0 0.

Lemma get_streamed_equivalent_witness :
  ∃ v side', @capture_get_entry_into unit (memory two_slots (λ _ _, None)) linux_widths 0x1000 2 Lp64
      start_default tt = ((v, side'), tt) ∧
    @capture_get_return_into unit (memory two_slots (λ _ _, None)) linux_widths side' CKR_OK
      (mkAuthority true true true) Lp64 tt =
    ((4, mkAttrs (mkAttr 1 1 3 :: mkAttr 4 8 0 :: replicate 6 (mkAttr 0 0 0)) 2 1 0), tt).
Proof.
  assert (TargetWidthOk linux_widths) as Hw by (by split).
  destruct (@get_streamed_equivalent unit (memory two_slots (λ _ _, None)) linux_widths Hw 0x1000 2 Lp64
    start_default tt) as (v & e & [] & side' & E1 & E2 & E3); [by vm_compute|done|].
  exists v, side'. split; [exact E2|]. rewrite E3. vm_compute in E1. injection E1 as <- <-.
  vm_compute. reflexivity.
Defined.
