(* ===== verification/ObjectFlow.v ===== *)
(** * The object adapters

    [crates/ebpf-common/src/object_flow.rs], the adapter bodies both the BPF
    programs and the host tests execute, with the parts of the programs of
    [crates/ebpf/src/main.rs] that run them in order: the entry chain fills an
    [ObjectStart] row, the return chain reads the results, and the emission
    writes the object tail.  Argument fetches and target reads act on an
    arbitrary state; the row lookup [OBJECT_DESCRIPTORS.get] is an argument;
    [wired] is the build's [ATTRIBUTE_CAPTURE_WIRED] and [KEM_CAPTURE_WIRED]. *)
From S2P Require Import Prelude CallerEntry TargetAbi Bytes ObjectPolicy ObjectWire Capture RequestEquiv CaptureGet.

(** ** Field updates of the owner row *)

Definition put_layout (layout : Z) (s : ObjectStart) : ObjectStart :=
  mkStart (os_image s) (os_entry_ns s) (os_descriptor_index s) layout (os_action s)
    (os_derive s) (os_phase s) (os_inputs s) (os_result_ptrs s) (os_get_template_base s)
    (os_inspected_header_end s) (os_find_capacity s) (os_find_count_ptr s) (os_slots s)
    (os_requested s) (os_input_statuses s) (os_result_statuses s) (os_flags s)
    (os_get_inspected s) (os_reserved s).

Definition put_derive (derive : Z) (ptrs : list Z) (s : ObjectStart) : ObjectStart :=
  mkStart (os_image s) (os_entry_ns s) (os_descriptor_index s) (os_layout s) (os_action s)
    derive (os_phase s) (os_inputs s) ptrs (os_get_template_base s) (os_inspected_header_end s)
    (os_find_capacity s) (os_find_count_ptr s) (os_slots s) (os_requested s)
    (os_input_statuses s) (os_result_statuses s) (os_flags s) (os_get_inspected s)
    (os_reserved s).

Definition put_inputs (inputs : list Z) (statuses : list Z) (s : ObjectStart) : ObjectStart :=
  mkStart (os_image s) (os_entry_ns s) (os_descriptor_index s) (os_layout s) (os_action s)
    (os_derive s) (os_phase s) inputs (os_result_ptrs s) (os_get_template_base s)
    (os_inspected_header_end s) (os_find_capacity s) (os_find_count_ptr s) (os_slots s)
    (os_requested s) statuses (os_result_statuses s) (os_flags s) (os_get_inspected s)
    (os_reserved s).

Definition put_flags (flags : Z) (s : ObjectStart) : ObjectStart :=
  mkStart (os_image s) (os_entry_ns s) (os_descriptor_index s) (os_layout s) (os_action s)
    (os_derive s) (os_phase s) (os_inputs s) (os_result_ptrs s) (os_get_template_base s)
    (os_inspected_header_end s) (os_find_capacity s) (os_find_count_ptr s) (os_slots s)
    (os_requested s) (os_input_statuses s) (os_result_statuses s) flags (os_get_inspected s)
    (os_reserved s).

Definition put_phase (phase : Z) (s : ObjectStart) : ObjectStart :=
  mkStart (os_image s) (os_entry_ns s) (os_descriptor_index s) (os_layout s) (os_action s)
    (os_derive s) phase (os_inputs s) (os_result_ptrs s) (os_get_template_base s)
    (os_inspected_header_end s) (os_find_capacity s) (os_find_count_ptr s) (os_slots s)
    (os_requested s) (os_input_statuses s) (os_result_statuses s) (os_flags s)
    (os_get_inspected s) (os_reserved s).

Definition put_ptrs (ptrs : list Z) (s : ObjectStart) : ObjectStart :=
  mkStart (os_image s) (os_entry_ns s) (os_descriptor_index s) (os_layout s) (os_action s)
    (os_derive s) (os_phase s) (os_inputs s) ptrs (os_get_template_base s)
    (os_inspected_header_end s) (os_find_capacity s) (os_find_count_ptr s) (os_slots s)
    (os_requested s) (os_input_statuses s) (os_result_statuses s) (os_flags s)
    (os_get_inspected s) (os_reserved s).

Definition put_find (capacity : Z) (count_ptr : Z) (s : ObjectStart) : ObjectStart :=
  mkStart (os_image s) (os_entry_ns s) (os_descriptor_index s) (os_layout s) (os_action s)
    (os_derive s) (os_phase s) (os_inputs s) (os_result_ptrs s) (os_get_template_base s)
    (os_inspected_header_end s) capacity count_ptr (os_slots s) (os_requested s)
    (os_input_statuses s) (os_result_statuses s) (os_flags s) (os_get_inspected s)
    (os_reserved s).

Definition put_requested (lists : list ObjectAttributeListWire) (s : ObjectStart) : ObjectStart :=
  mkStart (os_image s) (os_entry_ns s) (os_descriptor_index s) (os_layout s) (os_action s)
    (os_derive s) (os_phase s) (os_inputs s) (os_result_ptrs s) (os_get_template_base s)
    (os_inspected_header_end s) (os_find_capacity s) (os_find_count_ptr s) (os_slots s) lists
    (os_input_statuses s) (os_result_statuses s) (os_flags s) (os_get_inspected s)
    (os_reserved s).

Definition put_results (words : list Z) (statuses : list Z) (s : ObjectStart) : ObjectStart :=
  mkStart (os_image s) (os_entry_ns s) (os_descriptor_index s) (os_layout s) (os_action s)
    (os_derive s) (os_phase s) (os_inputs s) words (os_get_template_base s)
    (os_inspected_header_end s) (os_find_capacity s) (os_find_count_ptr s) (os_slots s)
    (os_requested s) (os_input_statuses s) statuses (os_flags s) (os_get_inspected s)
    (os_reserved s).

Definition or_side_flags (f : Z) (s : ObjectStart) : ObjectStart := put_flags (os_flags s |' f) s.

(** ** Continuity and the return gate *)

Record InstanceStamp := mkStamp {
  stamp_epoch : Z;
  stamp_global : Z;
  stamp_fault : Z;
  file_slot_plus1 : Z;
  stamp_flags : Z;
}.

Definition STAMP_VALID : Z := 1 << 15.
Definition BLOCKING : Z := (1 << 0) |' (1 << 1) |' (1 << 2) |' (1 << 3) |' (1 << 4).

Definition stamp_joinable (entry ret : InstanceStamp) : bool :=
  nz (stamp_flags entry &' STAMP_VALID) && (stamp_flags entry &' BLOCKING =? 0)
  && negb (file_slot_plus1 entry =? 0)
  && (stamp_epoch entry =? stamp_epoch ret) && (stamp_global entry =? stamp_global ret)
  && (stamp_fault entry =? stamp_fault ret) && (file_slot_plus1 entry =? file_slot_plus1 ret)
  && (stamp_flags entry =? stamp_flags ret).

Definition RETURN_GATE_LAYOUT_MASK : Z := 3.
Definition RETURN_GATE_JOINED : Z := 4.
Definition RETURN_GATE_MASK : Z := RETURN_GATE_LAYOUT_MASK |' RETURN_GATE_JOINED.

Definition encode_return_gate (layout : LinuxLayout) (joined : bool) : Z :=
  match layout with Lp64 => 1 | Ilp32 => 2 end |' (if joined then RETURN_GATE_JOINED else 0).

Definition decode_return_gate (gate : Z) : option (LinuxLayout * bool) :=
  if negb (gate &~ RETURN_GATE_MASK =? 0) then None
  else
    layout ← (if gate &' RETURN_GATE_LAYOUT_MASK =? 1 then Some Lp64
              else if gate &' RETURN_GATE_LAYOUT_MASK =? 2 then Some Ilp32 else None);
    Some (layout, nz (gate &' RETURN_GATE_JOINED)).

(** The guard every adapter opens with. *)
Definition row_refused (descriptor : Z) (r : ObjectDescriptorWire) : bool :=
  negb (row_function r =? as_u32 (descriptor - 1)) || (row_action r =? OBJECT_ACTION_NONE)
  || (OBJECT_ACTION_MAX <? row_action r) || (row_guard r =? OBJECT_GUARD_NONE)
  || (OBJECT_GUARD_SCALAR_DERIVE <? row_guard r).

Definition derive_code (d : DeriveEntry) : Z :=
  match d with
  | Accepted DhPkcs => 1
  | Accepted Sha256 => 2
  | Accepted Ecdh1 => 3
  | Accepted Ecdh1Cofactor => 4
  | DeriveUnavailable => OBJECT_DERIVE_UNAVAILABLE
  end.

Definition layout_code (layout : LinuxLayout) : Z :=
  match layout with Lp64 => OBJECT_LAYOUT_LP64 | Ilp32 => OBJECT_LAYOUT_ILP32 end.

Definition AUTHORIZED : ReturnAuthority := mkAuthority true true true.

(** [capture::] codes the object adapters look at. *)
Definition OUTPUT_MASK : Z := 3 << 2.
Definition OUTPUT_NON_NULL : Z := 2 << 2.

Section Flow.
Context {St : Type} `{TargetReader St} `{TargetWidth} (wired : bool).

(** ** Entry adapters *)

Definition adapter_derive_entry (side : option ObjectStart) (descriptor : Z)
    (r : option ObjectDescriptorWire) (layout : LinuxLayout) (fetch_arg : Z → RM St (option Z))
    : RM St (bool * option ObjectStart) :=
  match side, r with
  | Some s, Some r =>
      if row_refused descriptor r then mret (false, side)
      else if negb (row_action r =? OBJECT_ACTION_DERIVE) then mret (true, side)
      else if negb (bool_decide (row_result_args r = [5; ARG_NONE])) then mret (false, side)
      else
        mechanism_ptr ← fetch_arg 1;
        derive ← classify_derive_mechanism (default 0 mechanism_ptr) layout;
        retained ← match derive with Accepted _ => fetch_arg 5 | DeriveUnavailable => mret None end;
        mret (true, Some (put_derive (derive_code derive) [default 0 retained; 0] s))
  | _, _ => mret (false, side)
  end.

Definition capture_get_template (s : ObjectStart) (r : ObjectDescriptorWire) (layout : LinuxLayout)
    (fetch_arg : Z → RM St (option Z)) : RM St ObjectStart :=
  let ptr_arg := nth 0 (row_template_args r) ARG_NONE in
  let count_arg := nth 1 (row_template_args r) ARG_NONE in
  if (ptr_arg =? ARG_NONE) || (count_arg =? ARG_NONE) then mret s
  else
    ptr ← fetch_arg ptr_arg;
    count ← fetch_arg count_arg;
    match ptr, count with
    | Some ptr, Some count =>
        ' (_, s) ← capture_get_entry_into ptr count layout s;
        mret s
    | _, _ =>
        ' (_, s) ← capture_get_entry_into 0 0 layout s;
        mret (or_side_flags (object_flag.ARG_READ_FAILURE |' GET_ENTRY_UNINSPECTED) s)
    end.

Definition mark_list (a : ObjectAttributeListWire) : ObjectAttributeListWire :=
  mkAttrs (cells a) (inspected a) OBJECT_ATTR_LIST_UNINSPECTED (list_reserved a).

(** Mark the request lists of the present pairs never inspected. *)
Definition mark_pairs (present0 present1 : bool) (s : ObjectStart) : ObjectStart :=
  let lists := os_requested s in
  let lists := if present0 then alter mark_list 0%nat lists else lists in
  let lists := if present1 then alter mark_list 1%nat lists else lists in
  put_requested lists s.

(** One pair of argument fetches. *)
Definition fetch_pair (fetch_arg : Z → RM St (option Z)) (present : bool) (ptr_arg count_arg : Z)
    : RM St (option (Z * Z)) :=
  if present then
    ptr ← fetch_arg ptr_arg;
    count ← fetch_arg count_arg;
    mret (match ptr, count with Some p, Some c => Some (p, c) | _, _ => None end)
  else mret None.

(** One pair inspected into its request list. *)
Definition inspect_pair (pair peer : option (Z * Z)) (layout : LinuxLayout) (p : nat)
    (acc : list ObjectAttributeListWire * Z) : RM St (list ObjectAttributeListWire * Z) :=
  match pair with
  | None => mret acc
  | Some (ptr, count) =>
      ' (out, contributed) ← inspect_request_template_into ptr count peer layout;
      mret (<[p := out]> acc.1, acc.2 |' contributed)
  end.

Definition capture_request_pairs (s : ObjectStart) (r : ObjectDescriptorWire) (layout : LinuxLayout)
    (fetch_arg : Z → RM St (option Z)) : RM St ObjectStart :=
  let arg := λ i, nth i (row_template_args r) ARG_NONE in
  let present0 := negb (arg 0%nat =? ARG_NONE) && negb (arg 1%nat =? ARG_NONE) in
  let present1 := negb (arg 2%nat =? ARG_NONE) && negb (arg 3%nat =? ARG_NONE) in
  if (row_action r =? OBJECT_ACTION_DERIVE) && (os_derive s =? OBJECT_DERIVE_UNAVAILABLE)
  then mret (mark_pairs present0 present1 s)
  else
    pair0 ← fetch_pair fetch_arg present0 (arg 0%nat) (arg 1%nat);
    pair1 ← fetch_pair fetch_arg present1 (arg 2%nat) (arg 3%nat);
    if (present0 && bool_decide (pair0 = None)) || (present1 && bool_decide (pair1 = None))
    then mret (or_side_flags object_flag.ARG_READ_FAILURE (mark_pairs present0 present1 s))
    else
      acc ← inspect_pair pair0 pair1 layout 0 (os_requested s, 0);
      ' (lists, accumulated) ← inspect_pair pair1 pair0 layout 1 acc;
      mret (or_side_flags (as_u16 accumulated) (put_requested lists s)).

Definition adapter_attributes_entry (side : option ObjectStart) (descriptor : Z)
    (r : option ObjectDescriptorWire) (layout : LinuxLayout) (fetch_arg : Z → RM St (option Z))
    : RM St (bool * option ObjectStart) :=
  match side, r with
  | Some s, Some r =>
      if row_refused descriptor r then mret (false, side)
      else if negb wired then mret (true, side)
      else
        s ← (if row_action r =? OBJECT_ACTION_GET then capture_get_template s r layout fetch_arg
             else capture_request_pairs s r layout fetch_arg);
        mret (true, Some s)
  | _, _ => mret (false, side)
  end.

(** The key input of a KEM call: status, word and flags. *)
Definition kem_input (arg : option Z) (layout : LinuxLayout) (null_cancel : bool) : Z * Z * Z :=
  let '(status, word, flags) :=
    match arg with
    | None => (handle_status.UNREADABLE, 0, object_flag.ARG_READ_FAILURE)
    | Some candidate =>
        if candidate =? 0 then (handle_status.INVALID_ZERO, 0, 0)
        else if is_ilp32 layout && (U32_MAX <? candidate) then (handle_status.INVALID_SPAN, 0, 0)
        else (handle_status.VALUE, candidate, 0)
    end in
  if null_cancel && (status =? handle_status.VALUE)
  then (handle_status.SUPPRESSED, 0, flags |' object_flag.NULL_MECHANISM_CANCEL)
  else (status, word, flags).

Definition kem_done (ptr : Z) (s : ObjectStart) : bool * option ObjectStart :=
  (true, Some (put_phase 2 (put_ptrs [ptr; 0] s))).

(** The ciphertext guard: the last of the output checks. *)
Definition kem_ciphertext (encapsulate : bool) (cell word_len : Z) (fetch_arg : Z → RM St (option Z))
    (s : ObjectStart) : RM St (bool * option ObjectStart) :=
  c ← fetch_arg 5;
  mret match c with
       | None => kem_done 0 s
       | Some ciphertext =>
           if ciphertext =? 0 then if encapsulate then kem_done 0 s else kem_done cell s
           else match checked_add 64 cell word_len with
           | None => kem_done 0 s
           | Some stop => if ciphertext <? stop then kem_done 0 s else kem_done cell s
           end
       end.

(** The length-cell guard of an encapsulation. *)
Definition kem_length_cell (encapsulate : bool) (cell word_len : Z) (layout : LinuxLayout)
    (fetch_arg : Z → RM St (option Z)) (s : ObjectStart) : RM St (bool * option ObjectStart) :=
  if negb encapsulate then kem_ciphertext encapsulate cell word_len fetch_arg s
  else
    c ← fetch_arg 6;
    match c with
    | None => mret (kem_done 0 s)
    | Some length_cell =>
        if negb (length_cell =? 0)
           && (bool_decide (Abi.target_word_end length_cell layout = None)
               || Span.spans_overlap cell word_len length_cell word_len)
        then mret (kem_done 0 s)
        else kem_ciphertext encapsulate cell word_len fetch_arg s
    end.

(** The template-header guard. *)
Definition kem_template (encapsulate : bool) (cell word_len : Z) (layout : LinuxLayout)
    (fetch_arg : Z → RM St (option Z)) (s : ObjectStart) : RM St (bool * option ObjectStart) :=
  p ← fetch_arg 3;
  c ← fetch_arg 4;
  match p, c with
  | Some template_ptr, Some template_count =>
      let template_len := default 0 (Span.attribute_table_span template_count layout) in
      if negb (template_count =? 0)
         && ((template_len =? 0)
             || bool_decide (Span.validate_target_span template_ptr template_len layout = None)
             || Span.spans_overlap cell word_len template_ptr template_len)
      then mret (kem_done 0 s)
      else kem_length_cell encapsulate cell word_len layout fetch_arg s
  | _, _ => mret (kem_done 0 s)
  end.

Definition adapter_kem_entry (side : option ObjectStart) (descriptor : Z)
    (r : option ObjectDescriptorWire) (layout : LinuxLayout) (stack_pointer : Z)
    (kem_wired output_non_null null_cancel : bool) (fetch_arg : Z → RM St (option Z))
    : RM St (bool * option ObjectStart) :=
  match side, r with
  | Some s, Some r =>
    let encapsulate := row_action r =? OBJECT_ACTION_ENCAPSULATE in
    if row_refused descriptor r then mret (false, side)
    else if negb encapsulate && negb (row_action r =? OBJECT_ACTION_DECAPSULATE) then mret (true, side)
    else if negb (bool_decide (row_input_args r = [2; ARG_NONE]))
            || negb (bool_decide (row_result_args r = [7; ARG_NONE]))
            || negb (bool_decide (row_template_args r = [ARG_NONE; ARG_NONE; ARG_NONE; ARG_NONE]))
            || negb (row_find_capacity_arg r =? ARG_NONE) || negb (row_find_count_arg r =? ARG_NONE)
    then mret (false, side)
    else if negb kem_wired then
      mret (kem_done 0 (put_inputs [0; 0] [handle_status.PROTOCOL_UNAVAILABLE; handle_status.ABSENT] s))
    else
      key ← fetch_arg 2;
      let '(status, word, flags) := kem_input key layout null_cancel in
      let s := put_flags (as_u16 flags) (put_inputs [word; 0] [status; handle_status.ABSENT] s) in
      if encapsulate && negb output_non_null then mret (kem_done 0 s)
      else match object_result_arg7_address r stack_pointer layout with
      | None => mret (false, Some s)
      | Some arg7 =>
          cell ← read_word arg7 layout;
          match cell with
          | None => mret (kem_done 0 s)
          | Some cell =>
              if bool_decide (Abi.target_word_end cell layout = None) then mret (kem_done cell s)
              else kem_template encapsulate cell (word_bytes layout) layout fetch_arg s
          end
      end
  | _, _ => mret (false, side)
  end.

(** ** Return fill *)

Definition slot_gate (arg action : Z) (derive_ok : bool) : bool * Z :=
  if arg =? ARG_NONE then (false, handle_status.ABSENT)
  else if (action =? OBJECT_ACTION_DERIVE) && negb derive_ok
  then (false, handle_status.PROTOCOL_UNAVAILABLE)
  else (true, handle_status.ABSENT).

Definition slot_span (ptr : Z) (layout : LinuxLayout) : bool * Z :=
  if ptr =? 0 then (false, handle_status.UNREADABLE)
  else if bool_decide (Abi.target_word_end ptr layout = None) then (false, handle_status.INVALID_SPAN)
  else (true, handle_status.ABSENT).

Definition slot_word (ptr : Z) (layout : LinuxLayout) : RM St (Z * Z) :=
  r ← read_word ptr layout;
  mret match r with
       | None => (handle_status.UNREADABLE, 0)
       | Some observed =>
           if observed =? 0 then (handle_status.INVALID_ZERO, 0)
           else if is_ilp32 layout && (U32_MAX <? observed) then (handle_status.INVALID_SPAN, 0)
           else (handle_status.VALUE, observed)
       end.

(** The read of one slot of the unrolled protocol. *)
Definition fill_slot (readable : bool) (status ptr : Z) (layout : LinuxLayout) : RM St (Z * Z) :=
  if readable then slot_word ptr layout else mret (status, 0).

(** The span check of one slot: readable, and its status. *)
Definition fill_span (gated : bool) (status ptr : Z) (layout : LinuxLayout) : bool * Z :=
  if gated then let '(ok, span) := slot_span ptr layout in (ok, if ok then status else span)
  else (false, status).

(** The duplicate and partial rules on the two observed slots. *)
Definition settle_slots (gated0 gated1 : bool) (slot0 slot1 : Z * Z) (flags : Z)
    : list Z * list Z * Z :=
  let value := λ s, s =? handle_status.VALUE in
  let '(s0, w0) := slot0 in
  let '(s1, w1) := slot1 in
  let dup := value s0 && value s1 && (w0 =? w1) in
  let s0 := if dup then handle_status.DUPLICATE else s0 in
  let s1 := if dup then handle_status.DUPLICATE else s1 in
  let flags := if dup then flags |' object_flag.DUPLICATE_RESULT else flags in
  let flags :=
    if gated0 && gated1 && (Z.b2z (value s0) + Z.b2z (value s1) =? 1)
    then flags |' object_flag.PARTIAL_RESULT else flags in
  ([s0; s1], if dup then [0; 0] else [w0; w1], flags).

(** The unrolled two-slot protocol: statuses, words and flags. *)
Definition fill_results (args : Z * Z) (action : Z) (derive_ok : bool) (ptrs : Z * Z) (rv : Z)
    (layout : LinuxLayout) : RM St (list Z * list Z * Z) :=
  let unavailable := λ arg,
    if (action =? OBJECT_ACTION_DERIVE) && negb derive_ok && negb (arg =? ARG_NONE)
    then object_flag.UNAVAILABLE_RESULT else 0 in
  let flags := unavailable args.1 |' unavailable args.2 in
  let '(gated0, status0) := slot_gate args.1 action derive_ok in
  let '(gated1, status1) := slot_gate args.2 action derive_ok in
  if negb (gated0 || gated1) then mret ([status0; status1], [0; 0], flags)
  else if negb (rv =? 0) then
    let refuse := λ (gated : bool) status, if gated then handle_status.PROTOCOL_UNAVAILABLE else status in
    mret ([refuse gated0 status0; refuse gated1 status1], [0; 0], flags)
  else
    let '(readable0, status0) := fill_span gated0 status0 ptrs.1 layout in
    let '(readable1, status1) := fill_span gated1 status1 ptrs.2 layout in
    let w := word_bytes layout in
    if readable0 && readable1 && Span.spans_overlap ptrs.1 w ptrs.2 w
    then mret ([handle_status.ALIAS; handle_status.ALIAS], [0; 0], flags |' object_flag.ALIAS)
    else
      slot0 ← fill_slot readable0 status0 ptrs.1 layout;
      slot1 ← fill_slot readable1 status1 ptrs.2 layout;
      mret (settle_slots gated0 gated1 slot0 slot1 flags).

Definition derive_entry_of (code : Z) : DeriveEntry :=
  if code =? 1 then Accepted DhPkcs
  else if code =? 2 then Accepted Sha256
  else if code =? 3 then Accepted Ecdh1
  else if code =? 4 then Accepted Ecdh1Cofactor
  else DeriveUnavailable.

Definition adapter_fill_return (side : option ObjectStart) (descriptor : Z)
    (r : option ObjectDescriptorWire) (rv : Z) (layout : LinuxLayout) (mech_status mech : Z)
    (joined : bool) : RM St (bool * option ObjectStart) :=
  if negb joined then mret (false, side)
  else match side with
  | None => mret (false, None)
  | Some s =>
      if negb (os_phase s =? 2) then mret (false, side)
      else match r with
      | None => mret (false, side)
      | Some r =>
          if row_refused descriptor r then mret (false, side)
          else if row_action r =? OBJECT_ACTION_FIND then mret (true, Some (put_phase 3 s))
          else
            let derive_ok := negb (row_action r =? OBJECT_ACTION_DERIVE)
              || authorize_derive_return (derive_entry_of (os_derive s)) rv mech_status mech in
            let arg := λ i, nth i (row_result_args r) ARG_NONE in
            let ptr := λ i, nth i (os_result_ptrs s) 0 in
            ' (statuses, words, flags) ←
              fill_results (arg 0%nat, arg 1%nat) (row_action r) derive_ok (ptr 0%nat, ptr 1%nat) rv layout;
            mret (true, Some (put_phase 3 (or_side_flags (as_u16 flags) (put_results words statuses s))))
      end
  end.

Definition adapter_fill_return_control (side : option ObjectStart) (descriptor : Z)
    (r : option ObjectDescriptorWire) (rv mech_status mech gate : Z) : RM St (bool * option ObjectStart) :=
  match decode_return_gate gate with
  | None => mret (false, side)
  | Some (layout, joined) => adapter_fill_return side descriptor r rv layout mech_status mech joined
  end.

(** ** Emission *)

(** The request list of pair [p] in the tail. *)
Definition tail_list (r : ObjectDescriptorWire) (s : ObjectStart) (p : nat) : ObjectAttributeListWire :=
  let arg := λ i, nth i (row_template_args r) ARG_NONE in
  if negb (arg (2 * p)%nat =? ARG_NONE) && negb (arg (2 * p + 1)%nat =? ARG_NONE) then
    let a := nth p (os_requested s) zero_attrs in
    if wired then a else mark_list a
  else zero_attrs.

(** The tail is zeroed whole before its fields are written, so its old content
    is irrelevant; [false] is a null tail pointer. *)
Definition adapter_tail_fill (tail : bool) (side : option ObjectStart) (descriptor : Z)
    (r : option ObjectDescriptorWire) : option ObjectCallWire :=
  match tail, side, r with
  | true, Some s, Some r =>
      if negb (os_phase s =? 3) || negb (os_descriptor_index s =? descriptor) then None
      else if row_refused descriptor r then None
      else
        let find := row_action r =? OBJECT_ACTION_FIND in
        let get := row_action r =? OBJECT_ACTION_GET in
        Some (mkCall 1 240 descriptor (os_flags s &' OBJECT_FLAGS_MASK) (os_layout s) (row_action r)
                (os_derive s) 0 (os_inputs s)
                (if find then [0; 0] else os_result_ptrs s)
                (replicate 8 0) (os_input_statuses s)
                (if find then [handle_status.PROTOCOL_UNAVAILABLE; handle_status.ABSENT]
                 else os_result_statuses s)
                (replicate 8 0) 0 0 0 0
                [tail_list r s 0; tail_list r s 1]
                (if get then mark_list zero_attrs else zero_attrs) 0)
  | _, _, _ => None
  end.

(** The Find section of a tail. *)
Definition put_find_section (handles statuses : list Z) (len flags valid : Z) (t : ObjectCallWire)
    : ObjectCallWire :=
  mkCall (version t) (bytes t) (descriptor_index t) (ObjectWire.flags t) (layout t) (call_action t)
    (entry_derive t) (reserved0 t) (input_handles t) (result_handles t) handles (input_status t)
    (result_status t) statuses len flags valid (reserved1 t) (requested t) (result_attributes t)
    (reserved2 t).

Definition put_find_flags (f : Z) (t : ObjectCallWire) : ObjectCallWire :=
  put_find_section (find_handles t) (find_status t) (find_len t) f (find_valid t) t.

Definition zero_find_cells (t : ObjectCallWire) : ObjectCallWire :=
  put_find_section (replicate 8 0) (replicate 8 0) 0 (find_flags t) 0 t.

(** One streamed element; [None] once the element address has wrapped. *)
Definition emit_element (array_ptr shift : Z) (layout : LinuxLayout) (i : nat)
    (acc : option (list Z * list Z * Z)) : RM St (option (list Z * list Z * Z)) :=
  match acc with
  | None => mret None
  | Some (handles, statuses, flags) =>
      match checked_add 64 array_ptr (Z.of_nat i << shift) with
      | None => mret None
      | Some addr =>
          r ← read_word addr layout;
          mret (Some match r with
                     | None => (handles, <[i := handle_status.UNREADABLE]> statuses,
                                flags |' find_flag.UNREADABLE_ELEMENT)
                     | Some word =>
                         if word =? 0 then (handles, <[i := handle_status.INVALID_ZERO]> statuses, flags)
                         else if is_ilp32 layout && (U32_MAX <? word)
                         then (handles, <[i := handle_status.INVALID_SPAN]> statuses, flags)
                         else (<[i := word]> handles, <[i := handle_status.VALUE]> statuses, flags)
                     end)
      end
  end.

(** The bounded Find protocol after the custody checks. *)
Definition stream_find (t : ObjectCallWire) (s : ObjectStart) (l : LinuxLayout) : RM St ObjectCallWire :=
  let count_ptr := os_find_count_ptr s in
  if (count_ptr =? 0) || bool_decide (Abi.target_word_end count_ptr l = None)
  then mret (put_find_flags find_flag.INVALID_COUNT t)
  else
    r ← read_word count_ptr l;
    match r with
    | None => mret (put_find_flags find_flag.INVALID_COUNT t)
    | Some count =>
      if is_ilp32 l && (U32_MAX <? count) then mret (put_find_flags find_flag.INVALID_COUNT t)
      else if os_find_capacity s <? count then mret (put_find_flags find_flag.INVALID_COUNT t)
      else
        let shift := match l with Lp64 => 3 | Ilp32 => 2 end in
        let array_ptr := nth 0 (os_result_ptrs s) 0 in
        if (U64_MAX >> shift) <? count then mret (put_find_flags find_flag.INVALID_SPAN t)
        else
          let array_len := count << shift in
          if bool_decide (Span.validate_target_span array_ptr array_len l = None)
          then mret (put_find_flags find_flag.INVALID_SPAN t)
          else if Span.spans_overlap array_ptr array_len count_ptr (1 << shift)
          then mret (put_find_flags find_flag.COUNT_ALIAS t)
          else
            let take := if 8 <? count then 8 else count in
            let flags := if 8 <? count then find_flag.TRUNCATED else 0 in
            read ← for_each (seq 0 (Z.to_nat take)) (emit_element array_ptr shift l)
                     (Some (find_handles t, find_status t, flags));
            match read with
            | None => mret (put_find_flags find_flag.INVALID_SPAN (zero_find_cells t))
            | Some (handles, statuses, flags) =>
                stable ← read_word count_ptr l;
                mret (if bool_decide (stable = Some count)
                      then put_find_section handles statuses (as_u8 take) flags 1 t
                      else put_find_flags find_flag.CHANGED_COUNT (zero_find_cells t))
            end
    end.

Definition adapter_emit_find (tail : option ObjectCallWire) (side : option ObjectStart) (descriptor : Z)
    (r : option ObjectDescriptorWire) (l : LinuxLayout) (rv : Z) (joined : bool)
    : RM St (bool * option ObjectCallWire) :=
  if negb joined then mret (false, tail)
  else match tail, side, r with
  | Some t, Some s, Some r =>
      if negb (os_phase s =? 3) || negb (os_descriptor_index s =? descriptor) then mret (false, tail)
      else if negb (row_function r =? as_u32 (descriptor - 1)) then mret (false, tail)
      else if negb (row_action r =? OBJECT_ACTION_FIND) then mret (true, tail)
      else if negb (rv =? 0) then mret (true, tail)
      else t ← stream_find t s l; mret (true, Some t)
  | _, _, _ => mret (false, tail)
  end.

Definition put_result_attributes (a : ObjectAttributeListWire) (f : Z) (t : ObjectCallWire)
    : ObjectCallWire :=
  mkCall (version t) (bytes t) (descriptor_index t) f (layout t) (call_action t)
    (entry_derive t) (reserved0 t) (input_handles t) (result_handles t) (find_handles t) (input_status t)
    (result_status t) (find_status t) (find_len t) (find_flags t) (find_valid t) (reserved1 t)
    (requested t) a (reserved2 t).

Definition adapter_emit_get_attributes (tail : option ObjectCallWire) (side : option ObjectStart)
    (descriptor : Z) (r : option ObjectDescriptorWire) (l : LinuxLayout) (rv : Z) (joined : bool)
    : RM St (bool * option ObjectCallWire) :=
  if negb joined then mret (false, tail)
  else match tail, side, r with
  | Some t, Some s, Some r =>
      if negb (os_phase s =? 3) || negb (os_descriptor_index s =? descriptor) then mret (false, tail)
      else if row_refused descriptor r then mret (false, tail)
      else if negb (row_action r =? OBJECT_ACTION_GET) then mret (true, tail)
      else if negb (return_accepts_get_results rv) then mret (true, tail)
      else if negb wired then
        mret (true, Some (put_result_attributes (mark_list (result_attributes t)) (ObjectWire.flags t) t))
      else
        ' (contributed, out) ← capture_get_return_into s rv AUTHORIZED l;
        mret (true, Some (put_result_attributes out (ObjectWire.flags t |' contributed) t))
  | _, _, _ => mret (false, tail)
  end.

Definition adapter_emit_find_control (tail : option ObjectCallWire) (side : option ObjectStart)
    (descriptor : Z) (r : option ObjectDescriptorWire) (rv gate : Z)
    : RM St (bool * option ObjectCallWire) :=
  match decode_return_gate gate with
  | None => mret (false, tail)
  | Some (l, joined) => adapter_emit_find tail side descriptor r l rv joined
  end.

Definition adapter_emit_get_control (tail : option ObjectCallWire) (side : option ObjectStart)
    (descriptor : Z) (r : option ObjectDescriptorWire) (rv gate : Z)
    : RM St (bool * option ObjectCallWire) :=
  match decode_return_gate gate with
  | None => mret (false, tail)
  | Some (l, joined) => adapter_emit_get_attributes tail side descriptor r l rv joined
  end.

End Flow.

(** What a target read can return: a machine word, or bytes. *)
Class TargetReaderOk (St : Type) (R : TargetReader St) : Prop := {
  read_word_u64 a l s w : (read_word a l s).1 = Some w → is_u64 w;
  read_bytes_u8 a n s b : (read_bytes a n s).1 = Some b → length b = n ∧ Forall is_u8 b;
}.

(** ** The unrolled bodies are the reference protocols *)

Section Equivalence.
Context {St : Type} `{R : TargetReader St} `{W : TargetWidth}.

(** The status a slot settles to before any read. *)
Definition settled (g : bool) (st p : Z) (l : LinuxLayout) : option Z := if g then span_status p l else Some st.

Lemma fill_span_spec g st p l :
  fill_span g st p l = (bool_decide (settled g st p l = None), default st (settled g st p l)).
Proof.
  unfold fill_span, settled, slot_span, span_status. destruct g; [|done]. destruct (p =? 0); [done|].
  by destruct (Abi.target_word_end p l).
Qed.

Lemma fill_slot_read x st p l (s : St) :
  fill_slot (bool_decide (x = None)) (default st x) p l s = read_handle x p l s.
Proof.
  destruct x as [z|]; [done|]. rewrite bool_decide_true by done. unfold fill_slot, slot_word, read_handle, handle_of, mbind, rm_bind, mret, rm_ret.
  by destruct (read_word p l s).
Qed.

Lemma settle_slots_spec (g0 g1 : bool) slot0 slot1 flags :
  settle_slots g0 g1 slot0 slot1 flags =
  let value := λ s, s =? handle_status.VALUE in
  if value slot0.1 && value slot1.1 && (slot0.2 =? slot1.2)
  then ([handle_status.DUPLICATE; handle_status.DUPLICATE], [0; 0], flags |' object_flag.DUPLICATE_RESULT)
  else ([slot0.1; slot1.1], [slot0.2; slot1.2],
        if g0 && g1 && xorb (value slot0.1) (value slot1.1) then flags |' object_flag.PARTIAL_RESULT else flags).
Proof.
  destruct slot0 as [s0 w0], slot1 as [s1 w1]. unfold settle_slots. cbn [fst snd].
  destruct ((s0 =? handle_status.VALUE) && (s1 =? handle_status.VALUE) && (w0 =? w1)).
  - cbn. by rewrite andb_false_r.
  - by destruct (s0 =? handle_status.VALUE), (s1 =? handle_status.VALUE).
Qed.

(** The reads and the pair rules, once both slots are settled or readable. *)
Lemma fill_reads x0 x1 st0 st1 p0 p1 (g0 g1 : bool) flags w l (s : St) :
  (if bool_decide (x0 = None) && bool_decide (x1 = None) && Span.spans_overlap p0 w p1 w
   then mret ([handle_status.ALIAS; handle_status.ALIAS], [0; 0], flags |' object_flag.ALIAS)
   else
     slot0 ← fill_slot (bool_decide (x0 = None)) (default st0 x0) p0 l;
     slot1 ← fill_slot (bool_decide (x1 = None)) (default st1 x1) p1 l;
     mret (settle_slots g0 g1 slot0 slot1 flags)) s =
  let '(v, words, s') :=
    (if bool_decide (x0 = None) && bool_decide (x1 = None) && Span.spans_overlap p0 w p1 w then
       mret (mkHandles [handle_status.ALIAS; handle_status.ALIAS] (flags |' object_flag.ALIAS), [0; 0])
     else
       ' (s0, w0) ← read_handle x0 p0 l;
       ' (s1, w1) ← read_handle x1 p1 l;
       let value := λ s, s =? handle_status.VALUE in
       if value s0 && value s1 && (w0 =? w1) then
         mret (mkHandles [handle_status.DUPLICATE; handle_status.DUPLICATE]
                 (flags |' object_flag.DUPLICATE_RESULT), [0; 0])
       else
         let partial := g0 && g1 && xorb (value s0) (value s1) in
         mret (mkHandles [s0; s1] (if partial then flags |' object_flag.PARTIAL_RESULT else flags), [w0; w1])) s in
  ((handle_statuses v, words, handle_object_flags v), s').
Proof.
  destruct (_ && Span.spans_overlap p0 w p1 w); [done|]. rewrite !rm_bind_eq, fill_slot_read.
  destruct (read_handle x0 p0 l s) as [[s0 w0] t]. rewrite !rm_bind_eq, fill_slot_read.
  destruct (read_handle x1 p1 l t) as [[s1 w1] t']. unfold mret, rm_ret. rewrite settle_slots_spec. cbn [fst snd].
  by destruct (_ && (w0 =? w1)).
Qed.

Lemma fill_results_reference args action derive_ok ptrs rv l (s : St) :
  fill_results args action derive_ok ptrs rv l s =
  let authorized := negb (action =? OBJECT_ACTION_DERIVE) || derive_ok in
  let '(v, words, s') :=
    capture_return_handles (negb (args.1 =? ARG_NONE), negb (args.2 =? ARG_NONE)) (authorized, authorized)
      ptrs rv AUTHORIZED l s in
  ((handle_statuses v, words, handle_object_flags v), s').
Proof.
  destruct args as [a0 a1], ptrs as [p0 p1]. unfold fill_results, capture_return_handles, slot_gate, gate_of.
  cbn [fst snd]. set (au := negb (action =? OBJECT_ACTION_DERIVE) || derive_ok).
  replace ((action =? OBJECT_ACTION_DERIVE) && negb derive_ok) with (negb au)
    by (unfold au; by destruct (action =? OBJECT_ACTION_DERIVE), derive_ok).
  clearbody au. change (rv =? CKR_OK) with (rv =? 0).
  destruct (a0 =? ARG_NONE), (a1 =? ARG_NONE), au; try done; cbn [negb andb orb fst snd flag_of refused_of];
    (destruct (rv =? 0); [|done]); cbn [negb orb andb is_authorized AUTHORIZED owner_live phase_ready continuity_joined];
    rewrite !fill_span_spec; unfold settled, settled_of; apply fill_reads.
Qed.

(** The unrolled two-slot return fill the BPF programs run is the
    reference [capture_return_handles]: for every reader it makes the same
    reads in the same order and leaves the same statuses, words and flags,
    for every row, derive verdict, retained pointer and return value. *)
Theorem fill_results_equivalent args action derive_ok ptrs rv l (s : St) :
  fill_results args action derive_ok ptrs rv l s =
  let authorized := negb (action =? OBJECT_ACTION_DERIVE) || derive_ok in
  let '(v, words, s') :=
    capture_return_handles (negb (args.1 =? ARG_NONE), negb (args.2 =? ARG_NONE)) (authorized, authorized)
      ptrs rv AUTHORIZED l s in
  ((handle_statuses v, words, handle_object_flags v), s').
Proof. apply fill_results_reference. Qed.

(** Both element loops in step; the cells ahead are still zero. *)
Definition find_rel (i : nat) (a b : option (list Z * list Z * Z)) : Prop :=
  match a, b with
  | Some (handles, statuses, flags), Some (statuses', words, flags') =>
      handles = words ∧ statuses = statuses' ∧ flags = flags' ∧ length handles = 8%nat ∧
      ∀ j, (i <= j < 8)%nat → handles !! j = Some 0
  | None, None => True
  | _, _ => False
  end.

Context {Wok : TargetWidthOk W}.

Definition shift_of (l : LinuxLayout) : Z := match l with Lp64 => 3 | Ilp32 => 2 end.

Lemma shift_word_bytes v l : v << shift_of l = v * word_bytes l.
Proof. destruct l; cbn [shift_of]; rewrite Z.shiftl_mul_pow2 by lia; rewrite ?word_bytes_lp64, ?word_bytes_ilp32; lia. Qed.

Lemma find_element_sim array_ptr l i a b (s : St) :
  (i < 8)%nat → find_rel i a b →
  find_rel (i + 1) (emit_element array_ptr (shift_of l) l i a s).1
    (find_element array_ptr (word_bytes l) l i b s).1 ∧
  (emit_element array_ptr (shift_of l) l i a s).2 = (find_element array_ptr (word_bytes l) l i b s).2.
Proof.
  intros Hi Hr. unfold emit_element, find_element. rewrite shift_word_bytes.
  destruct a as [[[hs st] f]|], b as [[[st' ws] f']|]; try done.
  destruct Hr as (-> & -> & -> & Hl & Hz). destruct (checked_add 64 array_ptr _) as [addr|]; [|done].
  unfold mbind, rm_bind, mret, rm_ret. destruct (read_word addr l s) as [[w|] t]; unfold handle_of;
    [destruct (w =? 0); [|destruct (is_ilp32 l && (U32_MAX <? w))]|]; cbn [fst snd].
  3: { split; [|done]. split_and!; try done; [by rewrite length_insert|].
       intros j Hj. rewrite list_lookup_insert_ne by lia. apply Hz. lia. }
  all: rewrite (list_insert_id ws i 0) by (apply Hz; lia); split; [|done]; split_and!; try done;
    intros j Hj; apply Hz; lia.
Qed.

Lemma span_count_fits count l : 0 <= count → (U64_MAX >> shift_of l <? count) = bool_decide (checked_mul 64 count (word_bytes l) = None).
Proof.
  intros Hc. apply bool_eq_iff. rewrite bool_decide_eq_true, Z.ltb_lt. unfold checked_mul. rewrite checked_None.
  unfold in_width, U64_MAX. rewrite Z.shiftr_div_pow2 by (destruct l; cbn; lia).
  destruct l; cbn [shift_of]; rewrite ?word_bytes_lp64, ?word_bytes_ilp32; split; intros; Z.div_mod_to_equations; lia.
Qed.

Context {Rok : TargetReaderOk St R}.

(** The Find section of a refused verdict. *)
Lemma find_refused_section f t :
  find_handles t = replicate 8 0 → find_status t = replicate 8 0 → find_len t = 0 → find_valid t = 0 →
  put_find_flags f t = put_find_section (replicate 8 0) (replicate 8 0) 0 f 0 t.
Proof. unfold put_find_flags. by intros -> -> -> ->. Qed.

Lemma stream_find_reference t side l (s : St) :
  find_handles t = replicate 8 0 → find_status t = replicate 8 0 → find_len t = 0 → find_valid t = 0 →
  stream_find t side l s =
  let '(v, words, s') :=
    capture_find_return (nth 0 (os_result_ptrs side) 0) (os_find_capacity side) (os_find_count_ptr side)
      CKR_OK AUTHORIZED l s in
  (put_find_section words (fv_statuses v) (fv_len v) (fv_flags v) (Z.b2z (fv_valid v)) t, s').
Proof.
  intros Hh Hs Hl Hv. assert (Hf := λ f, find_refused_section f t Hh Hs Hl Hv).
  unfold stream_find, capture_find_return. cbn [Z.eqb CKR_OK negb orb is_authorized AUTHORIZED owner_live phase_ready continuity_joined andb].
  set (cp := os_find_count_ptr side). set (ap := nth 0 (os_result_ptrs side) 0).
  destruct ((cp =? 0) || _); [by rewrite Hf|]. rewrite !rm_bind_eq.
  pose proof (read_word_u64 cp l s) as Hw. destruct (read_word cp l s) as [[count|] s1]; [|by rewrite Hf].
  specialize (Hw count eq_refl). unfold in_width in Hw.
  destruct (is_ilp32 l && (U32_MAX <? count)); [by rewrite Hf|].
  destruct (os_find_capacity side <? count); [by rewrite Hf|].
  fold (shift_of l). rewrite span_count_fits, !shift_word_bytes, Z.mul_1_l by lia.
  unfold checked_mul. destruct (checked 64 (count * word_bytes l)) as [len|] eqn:Ec; [|by rewrite bool_decide_true, Hf].
  apply checked_Some in Ec as [-> _]. rewrite bool_decide_false by done.
  destruct (bool_decide (Span.validate_target_span _ _ _ = None)); [by rewrite Hf|].
  destruct (Span.spans_overlap _ _ _ _); [by rewrite Hf|].
  unfold MAX_FIND_HANDLES. replace (if 8 <? count then 8 else count) with (Z.min count 8) by (destruct (Z.ltb_spec 8 count); lia).
  rewrite !rm_bind_eq, Hh, Hs. set (n := Z.to_nat (Z.min count 8)). set (f := if 8 <? count then find_flag.TRUNCATED else 0).
  destruct (for_each_seq_sim find_rel (emit_element ap (shift_of l) l) (find_element ap (word_bytes l) l) 0 n
    (Some (replicate 8 0, replicate 8 0, f)) (Some (replicate 8 handle_status.ABSENT, replicate 8 0, f)) s1) as [Hr Hst].
  { split_and!; try done. intros j Hj. apply lookup_replicate_2; lia. }
  { intros i a b u Hi. apply find_element_sim. unfold n in Hi. lia. }
  destruct (for_each _ (emit_element _ _ _) _ s1) as [[[[hs st] fl]|] s2], (for_each _ (find_element _ _ _) _ s1) as [[[[st' ws] fl']|] s3];
    cbn [fst snd] in Hr, Hst; subst s3; try done.
  destruct Hr as (-> & -> & -> & _). rewrite !rm_bind_eq. destruct (read_word cp l s2) as [stable s4].
  by case_bool_decide.
Qed.

(** The Find emission streams into the reserved tail exactly the batch
    the reference [capture_find_return] returns: for every reader it makes
    the same reads and the tail's section holds the verdict's statuses,
    words, length, validity and flags, the shifted widths standing for the
    checked multiplication, and a late refusal leaving only the flag byte. *)
Theorem stream_find_equivalent t side l (s : St) :
  find_handles t = replicate 8 0 → find_status t = replicate 8 0 → find_len t = 0 → find_valid t = 0 →
  stream_find t side l s =
  let '(v, words, s') :=
    capture_find_return (nth 0 (os_result_ptrs side) 0) (os_find_capacity side) (os_find_count_ptr side)
      CKR_OK AUTHORIZED l s in
  (put_find_section words (fv_statuses v) (fv_len v) (fv_flags v) (Z.b2z (fv_valid v)) t, s').
Proof. apply stream_find_reference. Qed.

End Equivalence.

(** A Find of two handles: the array at 0x1000, the count at 0x2000. *)
Definition find_memory (a : Z) (l : LinuxLayout) : option Z :=
  if a =? 0x1000 then Some 7 else if a =? 0x1008 then Some 9 else if a =? 0x2000 then Some 2 else None.

Lemma find_memory_ok : TargetReaderOk unit (memory find_memory (λ _ _, None)).
Proof.
  split; [|done]. intros a l s w. cbn. unfold find_memory. zif; try done; intros [= <-]; by vm_compute.
Qed.

Definition find_row : ObjectStart :=
  mkStart (Build_ImageIdentity 1 1) 0 30 1 10 0 3 [0; 0] [0x1000; 0] 0 0 4 0x2000 (replicate 8 slot_default)
    (replicate 2 zero_attrs) [0; 0] [0; 0] 0 0 0.

Definition empty_tail : ObjectCallWire :=
  mkCall 1 240 30 0 1 10 0 0 [0; 0] [0; 0] (replicate 8 0) [0; 0] [7; 0] (replicate 8 0) 0 0 0 0
    [zero_attrs; zero_attrs] zero_attrs 0.

Lemma stream_find_equivalent_witness :
  @stream_find unit (memory find_memory (λ _ _, None)) empty_tail find_row Lp64 tt =
  (put_find_section (7 :: 9 :: replicate 6 0) (1 :: 1 :: replicate 6 0) 2 0 1 empty_tail, tt).
Proof.
  assert (TargetWidthOk linux_widths) as Hw by (by split).
  rewrite (@stream_find_equivalent unit (memory find_memory (λ _ _, None)) linux_widths Hw find_memory_ok
    empty_tail find_row Lp64 tt) by reflexivity.
  vm_compute. reflexivity.
Defined.
