(* ===== verification/ObjectProgram.v ===== *)
(** * The object call programs

    The probe programs of [crates/ebpf/src/main.rs] that run the object
    adapters: the entry chain from a freshly allocated owner row
    ([native/task_owner.c]) to a row ready for the return, and the return program
    with its reservation, its emission chain and its settlement of the call.
    [run_entry] and [run_emission] run on an arbitrary reader; [custody] says
    which of the owner queries succeed. *)
From S2P Require Import Prelude CallerEntry TargetAbi Bytes ObjectPolicy ObjectWire Capture CaptureGet ObjectFlow.

(** ** The owner row *)

Definition OBJECT_PHASE_ENTRY : Z := 1.
Definition OBJECT_PHASE_READY : Z := 2.
Definition OBJECT_PHASE_RETURNING : Z := 3.

(** The row [object_side_alloc] writes: zeroed, bound to its call. *)
Definition object_side_alloc (index action : Z) (image : ImageIdentity) (entry_ns : Z) : ObjectStart :=
  mkStart image entry_ns index 0 action 0 OBJECT_PHASE_ENTRY [0; 0] [0; 0] 0 0 0 0
    (replicate 8 slot_default) [zero_attrs; zero_attrs] [0; 0] [0; 0] 0 0 0.

(** [p11_object_side_get]: [custody] stands for the owner, key and binding
    checks of the query. *)
Definition p11_object_side_get (custody : bool) (s : ObjectStart) (descriptor : Z) (required : bool)
    : option ObjectStart :=
  if custody && (os_descriptor_index s =? descriptor)
     && one_of (os_phase s) [OBJECT_PHASE_ENTRY; OBJECT_PHASE_READY; OBJECT_PHASE_RETURNING]
     && (negb required || (os_phase s =? OBJECT_PHASE_READY))
  then Some s else None.

(** [OBJECT_DESCRIPTORS.get]. *)
Definition get_row (rows : list ObjectDescriptorWire) (descriptor : Z) : option ObjectDescriptorWire :=
  if (0 <=? descriptor) && (descriptor <? MAX_DESCRIPTORS) then Some (row rows descriptor) else None.

Definition object_marker_for (rows : list ObjectDescriptorWire) (cookie : Z) : Z :=
  let descriptor := Cookie.cookie_descriptor cookie in
  if (descriptor =? 0) || (MAX_DESCRIPTORS <=? descriptor) then 0
  else match get_row rows descriptor with
  | None => 0
  | Some r => if row_refused descriptor r then 0 else descriptor + 1
  end.

(** ** Probe arguments *)

Record ProbeContext := mkProbe {
  ctx_arg : Z → option Z;
  ctx_rsp : Z;
}.

Section Program.
Context {St : Type} `{TargetReader St} `{TargetWidth}.
Context (wired : bool) (rows : list ObjectDescriptorWire).

(** [arg_u64]; a four-byte user read is [read_word] of an [Ilp32] target. *)
Definition arg_u64 (ctx : ProbeContext) (index : Z) (l : LinuxLayout) : RM St (option Z) :=
  match l with
  | Ilp32 =>
      match Abi.ia32_arg_address (ctx_rsp ctx) index with
      | None => mret None
      | Some address =>
          r ← read_word address Ilp32;
          mret (match r with Some v => if v <=? U32_MAX then Some v else None | None => None end)
      end
  | Lp64 =>
      if index <=? 5 then mret (ctx_arg ctx index)
      else if index =? 6 then
        match Abi.target_stack_arg_address (ctx_rsp ctx) index l with
        | None => mret None
        | Some address => read_word address l
        end
      else mret None
  end.

(** ** Entry *)

Definition object_record_entry_abi (side : option ObjectStart) (l : LinuxLayout) : bool * option ObjectStart :=
  match side with
  | Some s => (true, Some (put_layout (layout_code l) s))
  | None => (false, None)
  end.

Definition kem_row (r : ObjectDescriptorWire) : bool :=
  (row_action r =? OBJECT_ACTION_ENCAPSULATE) || (row_action r =? OBJECT_ACTION_DECAPSULATE).

(** One input of the generic entry fill: status, word and flags. *)
Definition fill_input (ctx : ProbeContext) (import : bool) (arg : Z) (l : LinuxLayout)
    : RM St (Z * Z * Z) :=
  if arg =? ARG_NONE then mret (handle_status.ABSENT, 0, 0)
  else
    r ← arg_u64 ctx arg l;
    mret match r with
         | None => (handle_status.UNREADABLE, 0, object_flag.ARG_READ_FAILURE)
         | Some word =>
             if (word =? 0) && import then (handle_status.ABSENT, 0, 0)
             else if word =? 0 then (handle_status.INVALID_ZERO, 0, 0)
             else if is_ilp32 l && (U32_MAX <? word) then (handle_status.INVALID_SPAN, 0, 0)
             else (handle_status.VALUE, word, 0)
         end.

(** The null-mechanism cancel on one stored input. *)
Definition cancel_input (null_cancel : bool) (status word : Z) : Z * Z :=
  if null_cancel && (status =? handle_status.VALUE) then (handle_status.SUPPRESSED, 0) else (status, word).

Definition object_fill_entry (ctx : ProbeContext) (side : option ObjectStart) (l : LinuxLayout)
    (null_cancel : bool) : RM St (bool * option ObjectStart) :=
  match side with
  | None => mret (false, None)
  | Some s =>
      match get_row rows (os_descriptor_index s) with
      | None => mret (false, side)
      | Some r =>
          if row_refused (os_descriptor_index s) r then mret (false, side)
          else if kem_row r then mret (true, side)
          else
            let import := row_action r =? OBJECT_ACTION_IMPORT in
            ' (s0, w0, f0) ← fill_input ctx import (nth 0 (row_input_args r) ARG_NONE) l;
            ' (s1, w1, f1) ← fill_input ctx import (nth 1 (row_input_args r) ARG_NONE) l;
            let '(s0, w0) := cancel_input null_cancel s0 w0 in
            let '(s1, w1) := cancel_input null_cancel s1 w1 in
            let flags := f0 |' f1 |' (if null_cancel then object_flag.NULL_MECHANISM_CANCEL else 0) in
            mret (true, Some (put_phase 2 (or_side_flags (as_u16 flags) (put_inputs [w0; w1] [s0; s1] s))))
      end
  end.

Definition object_entry_derive (ctx : ProbeContext) (side : option ObjectStart) (l : LinuxLayout)
    : RM St (bool * option ObjectStart) :=
  let descriptor := match side with Some s => os_descriptor_index s | None => 0 end in
  adapter_derive_entry side descriptor (get_row rows descriptor) l (λ index, arg_u64 ctx index l).

(** One result pointer; [inr tt] is the refusal of a wrapping stack address. *)
Definition result_pointer (ctx : ProbeContext) (r : ObjectDescriptorWire) (arg : Z) (l : LinuxLayout)
    : RM St (Z + unit) :=
  if arg =? ARG_NONE then mret (inl 0)
  else if arg =? 7 then
    match object_result_arg7_address r (ctx_rsp ctx) l with
    | Some addr => w ← read_word addr l; mret (inl (default 0 w))
    | None => mret (inr tt)
    end
  else w ← arg_u64 ctx arg l; mret (inl (default 0 w)).

Definition object_entry_results (ctx : ProbeContext) (side : option ObjectStart) (l : LinuxLayout)
    : RM St (bool * option ObjectStart) :=
  match side with
  | None => mret (false, None)
  | Some s =>
      match get_row rows (os_descriptor_index s) with
      | None => mret (false, side)
      | Some r =>
          if row_refused (os_descriptor_index s) r then mret (false, side)
          else if row_action r =? OBJECT_ACTION_DERIVE then mret (true, side)
          else if kem_row r then mret (true, side)
          else
            p0 ← result_pointer ctx r (nth 0 (row_result_args r) ARG_NONE) l;
            match p0 with
            | inr _ => mret (false, side)
            | inl p0 =>
                let s := put_ptrs [p0; nth 1 (os_result_ptrs s) 0] s in
                p1 ← result_pointer ctx r (nth 1 (row_result_args r) ARG_NONE) l;
                match p1 with
                | inr _ => mret (false, Some s)
                | inl p1 => mret (true, Some (put_ptrs [p0; p1] s))
                end
            end
      end
  end.

Definition object_entry_kem (ctx : ProbeContext) (side : option ObjectStart) (l : LinuxLayout)
    (entry_capture : Z) (null_cancel : bool) : RM St (bool * option ObjectStart) :=
  let descriptor := match side with Some s => os_descriptor_index s | None => 0 end in
  adapter_kem_entry side descriptor (get_row rows descriptor) l (ctx_rsp ctx) wired
    (entry_capture &' OUTPUT_MASK =? OUTPUT_NON_NULL) null_cancel (λ index, arg_u64 ctx index l).

Definition object_entry_find (ctx : ProbeContext) (side : option ObjectStart) (l : LinuxLayout)
    : RM St (bool * option ObjectStart) :=
  match side with
  | None => mret (false, None)
  | Some s =>
      match get_row rows (os_descriptor_index s) with
      | None => mret (false, side)
      | Some r =>
          if row_refused (os_descriptor_index s) r then mret (false, side)
          else if negb (row_action r =? OBJECT_ACTION_FIND) then mret (true, side)
          else
            let fetch := λ arg, if arg =? ARG_NONE then mret 0
                                else w ← arg_u64 ctx arg l; mret (default 0 w) in
            capacity ← fetch (row_find_capacity_arg r);
            count_ptr ← fetch (row_find_count_arg r);
            mret (true, Some (put_find capacity count_ptr s))
      end
  end.

Definition object_entry_attributes (ctx : ProbeContext) (side : option ObjectStart) (l : LinuxLayout)
    : RM St (bool * option ObjectStart) :=
  let descriptor := match side with Some s => os_descriptor_index s | None => 0 end in
  adapter_attributes_entry wired side descriptor (get_row rows descriptor) l (λ index, arg_u64 ctx index l).

(** One adapter of the entry chain on the row its query returns; [None] is the
    abandoned invocation. *)
Definition entry_step (custody : bool) (descriptor : Z)
    (adapter : option ObjectStart → RM St (bool * option ObjectStart)) (s : option ObjectStart)
    : RM St (option ObjectStart) :=
  match s with
  | None => mret None
  | Some s =>
      ' (ok, side) ← adapter (p11_object_side_get custody s descriptor false);
      mret (if ok : bool then side else None)
  end.

Definition run_entry (custody : nat → bool) (ctx : ProbeContext) (l : LinuxLayout) (entry_capture : Z)
    (null_cancel : bool) (descriptor : Z) (s : ObjectStart) : RM St (option ObjectStart) :=
  a ← entry_step (custody 0%nat) descriptor (λ side, mret (object_record_entry_abi side l)) (Some s);
  a ← entry_step (custody 1%nat) descriptor (λ side, object_fill_entry ctx side l null_cancel) a;
  a ← entry_step (custody 2%nat) descriptor (λ side, object_entry_derive ctx side l) a;
  a ← entry_step (custody 3%nat) descriptor (λ side, object_entry_results ctx side l) a;
  a ← entry_step (custody 4%nat) descriptor
        (λ side, object_entry_kem ctx side l entry_capture null_cancel) a;
  a ← entry_step (custody 5%nat) descriptor (λ side, object_entry_find ctx side l) a;
  entry_step (custody 6%nat) descriptor (λ side, object_entry_attributes ctx side l) a.

(** ** Return *)

Definition object_fill_return (side : option ObjectStart) (rv mech_status mech gate : Z)
    : RM St (bool * option ObjectStart) :=
  match decode_return_gate gate with
  | None => mret (false, side)
  | Some _ =>
      let descriptor := match side with Some s => os_descriptor_index s | None => 0 end in
      adapter_fill_return_control side descriptor (get_row rows descriptor) rv mech_status mech gate
  end.

Definition object_tail_fill (tail : bool) (side : option ObjectStart) (descriptor : Z)
    : option ObjectCallWire :=
  adapter_tail_fill wired tail side descriptor (get_row rows descriptor).

Definition object_emit_find (tail : option ObjectCallWire) (side : option ObjectStart)
    (descriptor rv gate : Z) : RM St (bool * option ObjectCallWire) :=
  match decode_return_gate gate with
  | None => mret (false, tail)
  | Some _ => adapter_emit_find_control tail side descriptor (get_row rows descriptor) rv gate
  end.

Definition object_emit_get_attributes (tail : option ObjectCallWire) (side : option ObjectStart)
    (descriptor rv gate : Z) : RM St (bool * option ObjectCallWire) :=
  match decode_return_gate gate with
  | None => mret (false, tail)
  | Some _ => adapter_emit_get_control wired tail side descriptor (get_row rows descriptor) rv gate
  end.

(** The emission chain of the return program, on the row [s] of the call. *)
Definition run_emission (custody : nat → bool) (l : LinuxLayout) (rv mech_status mech : Z)
    (joined : bool) (descriptor : Z) (s : ObjectStart) : RM St (bool * option ObjectCallWire) :=
  let gate := encode_return_gate l joined in
  ' (filled, side) ← object_fill_return (p11_object_side_get (custody 0%nat) s descriptor true)
                       rv mech_status mech gate;
  let s := default s side in
  let query := λ k, p11_object_side_get (custody k) s descriptor false in
  if negb filled then mret (false, None)
  else match object_tail_fill true (query 1%nat) descriptor with
  | None => mret (false, None)
  | Some t =>
      ' (found, tail) ← object_emit_find (Some t) (query 2%nat) descriptor rv gate;
      if found : bool then object_emit_get_attributes tail (query 3%nat) descriptor rv gate
      else mret (false, tail)
  end.

(** *** The settlement of a returning call *)

Inductive Evidence := UNMATCHED_RETURNS | SEMANTIC_CAPTURE_FAILURES | RING_LOSS.

(** What the return program does to the call and to the ring. *)
Inductive ReturnEffect :=
| Account
| Reserve
| Remove
| Fault
| Bump (e : Evidence)
| OutputBase
| Discard
| Submit (w : ObjectCallWire)
| ScopeGap.

(** The answers of the helpers: the owner queries, the image comparison, the
    reservation, the continuity stamps, the one checked removal and the ring
    output; the captured return facts; and whether the build carries the birth
    marker. *)
Record ReturnEnv := mkReturnEnv {
  re_custody : nat → bool;
  re_aggregate : bool;
  re_image : option ImageIdentity;
  re_start_image : ImageIdentity;
  re_reserved : bool;
  re_entry_stamp : InstanceStamp;
  re_return_stamp : InstanceStamp;
  re_removed : bool;
  re_output : bool;
  re_rv : Z;
  re_mech_status : Z;
  re_mech : Z;
  re_birth_marker : bool;
}.

Definition image_pair_matches (saved current : ImageIdentity) : bool :=
  negb (task_cookie saved =? 0) && negb (task_cookie current =? 0)
  && (task_cookie saved =? task_cookie current) && (exec_id saved =? exec_id current).

Definition emission_finalize (emitted removed : bool) : bool * bool :=
  if negb emitted || negb removed then (false, true) else (true, false).

Inductive RefusedBaseOutcome := RetirementFailed | OutputFailed | Emitted.

(** The outcome and the effects of [preserve_refused_base]. *)
Definition preserve_refused_base (removed output : bool) : RefusedBaseOutcome * list ReturnEffect :=
  if negb removed then (RetirementFailed, [Remove; Fault])
  else if output then (Emitted, [Remove; Fault; OutputBase])
  else (OutputFailed, [Remove; Fault; OutputBase]).

Definition fault_unless (ok : bool) : list ReturnEffect := if ok then [] else [Fault].

Definition object_return_ordinary (env : ReturnEnv) (l : LinuxLayout) (descriptor : Z) (s : ObjectStart)
    : RM St (list ReturnEffect) :=
  let query := λ k, p11_object_side_get (re_custody env k) s descriptor in
  let refuse := λ e, [Remove; Fault; Bump e] in
  match query 0%nat true with
  | None => mret (refuse UNMATCHED_RETURNS)
  | Some _ =>
    let agreed := match query 1%nat false with
                  | Some r => (os_descriptor_index r =? descriptor)
                              && ((os_layout r =? 0) || (os_layout r =? layout_code l))
                  | None => false
                  end in
    if negb agreed then mret (refuse UNMATCHED_RETURNS)
    else if re_aggregate env then
      mret (Account :: Remove :: (if re_removed env then [] else [Fault; Bump UNMATCHED_RETURNS]))
    else if negb match re_image env with
                 | Some i => image_pair_matches (re_start_image env) i
                 | None => false
                 end
    then mret (Account :: refuse SEMANTIC_CAPTURE_FAILURES)
    else if negb (re_reserved env) then
      mret (Account :: Remove :: fault_unless (re_removed env) ++ Bump RING_LOSS ::
              if re_birth_marker env && re_removed env then [ScopeGap] else [])
    else
      let joined := stamp_joinable (re_entry_stamp env) (re_return_stamp env) in
      if negb joined then
        let '(outcome, effects) := preserve_refused_base (re_removed env) (re_output env) in
        mret (Account :: Reserve :: effects
              ++ Discard :: match outcome with OutputFailed => [Bump RING_LOSS] | _ => [] end
              ++ [Bump UNMATCHED_RETURNS])
      else
        ' (emitted, tail) ← run_emission (λ k, re_custody env (k + 2)%nat) l (re_rv env)
                              (re_mech_status env) (re_mech env) joined descriptor s;
        let '(submitted, _) := emission_finalize emitted (re_removed env) in
        mret (Account :: Reserve :: Remove ::
              match tail with
              | Some w => if submitted then [Submit w] else [Fault; Discard; Bump UNMATCHED_RETURNS]
              | None => [Fault; Discard; Bump UNMATCHED_RETURNS]
              end)
  end.

End Program.
