(* ===== verification/ObjectEmission.v ===== *)
(** * Every emitted object tail is accepted

    The producer side of the object wire contract.  Starting from a freshly
    allocated owner row and a verified descriptor table, whatever the target's
    memory and registers answer, the entry chain and the emission chain of
    [ObjectProgram] produce a tail that the byte-level validator of [ObjectWire]
    accepts.  The invariants: [inv] of the row during the entry chain,
    [side_ready] of the row that waits for the return, [list_ok] of an inspected
    attribute list. *)
From S2P Require Import Prelude CallerEntry TargetAbi Bytes ObjectPolicy ObjectWire Capture CaptureBoundary RequestEquiv CaptureGet GetEquiv ObjectFlow ObjectProgram.

(** Run the first computation of a bind to a value and a state. *)
Ltac run_bind x t := rewrite rm_bind_eq; match goal with |- context [let '(_, _) := ?m in _] => destruct m as [x t] end.

(** ** Rows of a verified table *)

Record row_shape (r : ObjectDescriptorWire) : Prop := {
  rs_inputs : ∃ a b, row_input_args r = [a; b];
  rs_results : ∃ a b, row_result_args r = [a; b];
  rs_templates : ∃ a b c d, row_template_args r = [a; b; c; d] ∧
    (a = ARG_NONE ↔ b = ARG_NONE) ∧ (c = ARG_NONE ↔ d = ARG_NONE);
  rs_find : row_action r = OBJECT_ACTION_FIND → ∃ a, row_result_args r = [a; ARG_NONE] ∧ a ≠ ARG_NONE;
  rs_derive : row_action r = OBJECT_ACTION_DERIVE → row_result_args r = [5; ARG_NONE];
  rs_kem : kem_row r = true →
    row_input_args r = [2; ARG_NONE] ∧ row_result_args r = [7; ARG_NONE] ∧
    row_template_args r = [ARG_NONE; ARG_NONE; ARG_NONE; ARG_NONE] ∧
    row_find_capacity_arg r = ARG_NONE ∧ row_find_count_arg r = ARG_NONE;
  rs_action : 1 <= row_action r <= OBJECT_ACTION_MAX;
  rs_guard : 1 <= row_guard r <= OBJECT_GUARD_SCALAR_DERIVE;
}.

Lemma named_shape function name d :
  named_descriptor name = Some d →
  row_shape (mkRow function (input_args d) (result_pointer_args d)
    (concat ((λ p, [p.1; p.2]) <$> template_args d)) (find_capacity_arg d) (find_count_ptr_arg d)
    (action_code (action d)) (guard_code (result_protocol_guard d))).
Proof.
  unfold named_descriptor. cbv zeta. intros Hd. named_cases; try done.
  all: split; cbn; try (by eauto); try (by vm_compute); try (by repeat eexists; vm_compute).
  all: try (intros E; vm_compute in E; discriminate).
  all: try (do 4 eexists; split; [reflexivity|]; vm_compute; intuition congruence).
  all: try (intros _; split_and!; reflexivity).
Qed.

Lemma canonical_shape `{FunctionNames} function :
  is_Some (object_descriptor function) → row_shape (canonical_object_wire function).
Proof.
  intros [d Hd]. unfold canonical_object_wire. rewrite Hd. unfold object_descriptor in Hd.
  destruct (function_name function) as [name|]; [|done]. by apply (named_shape function name).
Qed.

(** ** Handle words *)

(** A status and its word as the tail carries them. *)
Definition word_ok (l : LinuxLayout) (status word : Z) : Prop :=
  handle_ok (layout_code l) status word ∧ is_u64 word.

Definition answer_ok (r : option Z) : Prop := ∀ w, r = Some w → is_u64 w.

(** The five statuses of a word that was asked for. *)
Lemma word_ok_zero l st : 0 <= st <= OBJECT_HANDLE_STATUS_MAX → st ≠ 1 → word_ok l st 0.
Proof.
  intros ? ?. split; [|by vm_compute]. split; [lia|]. split; [|intros _; by vm_compute]. split; [lia|done].
Qed.

Lemma word_ok_value l w :
  is_u64 w → w ≠ 0 → is_ilp32 l && (U32_MAX <? w) = false → word_ok l handle_status.VALUE w.
Proof.
  intros Hw Hz Hl. split; [|done]. split_and!; try done. intros E. destruct l; [done|].
  cbn in Hl. apply Z.ltb_ge in Hl. done.
Qed.

#[local] Hint Resolve word_ok_zero word_ok_value : core.

Lemma handle_of_ok r l :
  answer_ok r → word_ok l (handle_of r l).1 (handle_of r l).2 ∧ (handle_of r l).1 ≠ 0.
Proof.
  intros Hr. unfold handle_of. destruct r as [w|]; [|split; [by apply word_ok_zero|done]].
  destruct (Z.eqb_spec w 0); [split; [by apply word_ok_zero|done]|].
  destruct (is_ilp32 l && _) eqn:E; (split; [|done]); [by apply word_ok_zero|]. apply word_ok_value; auto.
Qed.

(** ** Result handles *)

(** Two statuses and words in the positions of the result arguments. *)
Definition results_of (r : ObjectDescriptorWire) (l : LinuxLayout) (statuses words : list Z) : Prop :=
  ∃ s0 s1 w0 w1, statuses = [s0; s1] ∧ words = [w0; w1] ∧ word_ok l s0 w0 ∧ word_ok l s1 w1 ∧
    (nth 0 (row_result_args r) 0 = ARG_NONE ↔ s0 = 0) ∧ (nth 1 (row_result_args r) 0 = ARG_NONE ↔ s1 = 0).

Definition low_flags (f : Z) : Prop := 0 <= f < 256.

Lemma low_flags_lor a b : low_flags a → low_flags b → low_flags (a |' b).
Proof.
  unfold low_flags. intros Ha Hb. split; [apply Z.lor_nonneg; lia|].
  destruct (Z.eq_dec (a |' b) 0) as [->|]; [lia|]. change 256 with (2 ^ 8). apply Z.log2_lt_pow2; [|].
  - assert (0 <= a |' b) by (apply Z.lor_nonneg; lia). lia.
  - rewrite Z.log2_lor by lia. apply Z.max_lub_lt.
    + destruct (Z.eq_dec a 0) as [->|]; [done|]. apply Z.log2_lt_pow2; lia.
    + destruct (Z.eq_dec b 0) as [->|]; [done|]. apply Z.log2_lt_pow2; lia.
Qed.

(** ** Attribute lists *)

Definition cell_fine (c : ObjectAttributeWire) : Prop :=
  0 <= attr_kind c <= 6 ∧ 0 <= attr_status c <= 10 ∧ is_u16 (attr_value c) ∧
  (attr_status c ≠ 1 → attr_value c = 0).

(** The four inspection flags. *)
Definition lflags (p t h v : bool) : Z :=
  (if p then attr_list_flag.PRESENT else 0) |' (if t then attr_list_flag.TRUNCATED else 0)
  |' (if h then attr_list_flag.HEADER_READ_FAILURE else 0) |' (if v then attr_list_flag.INVALID_SPAN else 0).

Definition list_flags_ok (n f : Z) : Prop :=
  ∃ p t h v, f = lflags p t h v ∧ (0 < n → p = true) ∧ (t = true → n = 8).

Lemma list_flags_hrf n f f' :
  list_flags_ok n f → f' = 0 ∨ f' = attr_list_flag.HEADER_READ_FAILURE → list_flags_ok n (f |' f').
Proof.
  intros (p & t & h & v & -> & Hp & Ht) [-> | ->].
  - exists p, t, h, v. by rewrite Z.lor_0_r.
  - exists p, t, true, v. split; [by destruct p, t, h, v|done].
Qed.

(** An inspected list of [n] cells. *)
Definition cells_ok (n : Z) (cs : list ObjectAttributeWire) : Prop :=
  length cs = 8%nat ∧ ∀ j c, cs !! j = Some c → cell_fine c ∧ (n <= Z.of_nat j → c = mkAttr 0 0 0).

Record list_ok (a : ObjectAttributeListWire) : Prop := {
  lo_cells : cells_ok (inspected a) (cells a);
  lo_inspected : 0 <= inspected a <= 8;
  lo_flags : list_flags_ok (inspected a) (list_flags a);
  lo_reserved : list_reserved a = 0;
}.

Lemma cell_fine_zero : cell_fine (mkAttr 0 0 0).
Proof. by vm_compute. Qed.

Lemma cells_ok_zero n : cells_ok n (replicate 8 (mkAttr 0 0 0)).
Proof.
  split; [done|]. intros j c [-> _]%lookup_replicate. split; [apply cell_fine_zero|done].
Qed.

Lemma cells_ok_insert n cs i c :
  cells_ok n cs → Z.of_nat i < n → cell_fine c → cells_ok n (<[i := c]> cs).
Proof.
  intros [Hl Hc] Hi Hf. split; [by rewrite length_insert|]. intros j d Hd. destruct (decide (i = j)) as [<-|Hne].
  - destruct (decide (i < length cs)%nat); [|rewrite list_insert_ge in Hd by lia; by apply Hc].
    rewrite list_lookup_insert_eq in Hd by done. injection Hd as <-. split; [done|lia].
  - rewrite list_lookup_insert_ne in Hd by done. by apply Hc.
Qed.

Lemma list_ok_widths a : list_ok a → attrs_widths a.
Proof.
  intros [[Hl Hc] Hi (p & t & h & v & Hf & _) Hr]. split; [done| |width; lia| |by rewrite Hr].
  - apply Forall_lookup_2. intros j c Hj. destruct (Hc j c Hj) as [(H1 & H2 & H3 & _) _]. split_and!; try done; width; lia.
  - rewrite Hf. by destruct p, t, h, v.
Qed.

Lemma list_ok_attrs a : list_ok a → attrs_ok a.
Proof.
  intros [[Hl Hc] Hi (p & t & h & v & Hf & Hp & Ht) Hr]. unfold attrs_ok. rewrite Hf.
  split_and!; [done|lia|by destruct p, t, h, v|]. rewrite bool_decide_false by (intros E; apply E; by destruct p, t, h, v).
  split_and!.
  - intros Hn. rewrite Hp by done. by destruct t, h, v.
  - intros E. apply Ht. destruct t; [done|]. by destruct p, h, v.
  - intros j c Hj. destruct (Hc j c Hj) as [(H1 & H2 & H3 & H4) H5].
    unfold cell_ok, OBJECT_ATTR_KIND_MAX, OBJECT_ATTR_STATUS_MAX. split_and!; try done; lia.
Qed.

(** A list that was never inspected. *)
Lemma marked_list_ok : attrs_ok (mark_list zero_attrs) ∧ attrs_widths (mark_list zero_attrs).
Proof.
  split.
  - unfold attrs_ok. cbn -[bool_decide]. split_and!; try done. rewrite bool_decide_true by done. split_and!; try done.
    repeat (apply Forall_cons_2; [done|]). apply Forall_nil_2.
  - split; cbn; try done. repeat (apply Forall_cons_2; [done|]). apply Forall_nil_2.
Qed.

Lemma zero_list_ok : list_ok zero_attrs.
Proof. split; [apply cells_ok_zero|done|by exists false, false, false, false|done]. Qed.

(** ** Find batches *)

(** [n] elements read, the rest absent. *)
Definition batch_ok (l : LinuxLayout) (n : nat) (statuses words : list Z) : Prop :=
  length statuses = 8%nat ∧ length words = 8%nat ∧
  ∀ j, (j < 8)%nat → word_ok l (nth j statuses 0) (nth j words 0) ∧ ((j < n)%nat ↔ nth j statuses 0 ≠ 0).

Lemma batch_ok_zero l : batch_ok l 0 (replicate 8 0) (replicate 8 0).
Proof.
  split_and!; try done. intros j Hj. rewrite !nth_replicate_lt by done. split; [by apply word_ok_zero|]. split; [lia|done].
Qed.

Lemma batch_ok_push l n statuses words r :
  (n < 8)%nat → answer_ok r → batch_ok l n statuses words →
  batch_ok l (n + 1) (<[n := (handle_of r l).1]> statuses) (<[n := (handle_of r l).2]> words).
Proof.
  intros Hn Hr (Hs & Hw & Hj). destruct (handle_of_ok r l Hr) as [Ho Hz].
  split_and!; [by rewrite length_insert|by rewrite length_insert|]. intros j Hjn. rewrite !nth_insert by lia.
  destruct (decide (n = j)) as [->|Hne]; [split; [done|]; split; [done|lia]|].
  destruct (Hj j Hjn) as [Hok Hiff]. split; [done|]. rewrite <- Hiff. lia.
Qed.

Definition find_flags_ok (f n : Z) : Prop := f &~ OBJECT_FIND_FLAGS_MASK = 0 ∧ is_u8 f ∧ (f &' 1 ≠ 0 → n = 8).

(** ** A tail by its parts *)

Definition inputs_of (r : ObjectDescriptorWire) (l : LinuxLayout) (statuses words : list Z) : Prop :=
  ∃ s0 s1 w0 w1, statuses = [s0; s1] ∧ words = [w0; w1] ∧ word_ok l s0 w0 ∧ word_ok l s1 w1 ∧
    (nth 0 (row_input_args r) 0 = ARG_NONE → s0 = 0) ∧ (nth 1 (row_input_args r) 0 = ARG_NONE → s1 = 0) ∧
    (row_action r ≠ OBJECT_ACTION_IMPORT →
      (nth 0 (row_input_args r) 0 ≠ ARG_NONE → s0 ≠ 0) ∧ (nth 1 (row_input_args r) 0 ≠ ARG_NONE → s1 ≠ 0)).

Definition pair_present (r : ObjectDescriptorWire) (p : nat) : bool :=
  negb (nth (2 * p) (row_template_args r) ARG_NONE =? ARG_NONE)
  && negb (nth (2 * p + 1) (row_template_args r) ARG_NONE =? ARG_NONE).

Definition request_of (r : ObjectDescriptorWire) (p : nat) (a : ObjectAttributeListWire) : Prop :=
  attrs_ok a ∧ attrs_widths a ∧ (pair_present r p = false → a = zero_attrs).

(** The Find section: a batch for a Find row, zero otherwise. *)
Definition find_of (r : ObjectDescriptorWire) (l : LinuxLayout) (handles statuses : list Z) (len f valid : Z) : Prop :=
  batch_ok l (Z.to_nat len) statuses handles ∧ 0 <= len <= 8 ∧ find_flags_ok f len ∧ (valid = 0 ∨ valid = 1) ∧
  (valid = 0 → len = 0) ∧ (row_action r ≠ OBJECT_ACTION_FIND → len = 0 ∧ f = 0 ∧ valid = 0).

Definition derive_of (r : ObjectDescriptorWire) (derive : Z) : Prop :=
  0 <= derive <= 4 ∧ (row_action r ≠ OBJECT_ACTION_DERIVE → derive = 0).

Lemma word_ok_status l st w : word_ok l st w → st <= OBJECT_HANDLE_STATUS_MAX.
Proof. by intros [[? _] _]. Qed.

Lemma batch_words l n st ws : batch_ok l n st ws → Forall is_u64 ws.
Proof.
  intros (_ & Hw & Hj). apply Forall_lookup_2. intros j w Hjw. pose proof (lookup_lt_Some _ _ _ Hjw).
  destruct (Hj j ltac:(lia)) as [[_ Hu] _]. by rewrite (nth_lookup_Some _ _ _ _ Hjw) in Hu.
Qed.

Lemma zero_of_attrs a : a = zero_attrs → attrs_zero a.
Proof. intros ->. split_and!; try done. repeat (apply Forall_cons_2; [done|]). apply Forall_nil_2. Qed.

Section Parts.
Context (r : ObjectDescriptorWire) (Hshape : row_shape r) (d : Z) (Hd : 1 <= d < MAX_DESCRIPTORS).
Context (Hfun : row_function r = d - 1) (l : LinuxLayout).
Context (f derive : Z) (Hf : low_flags f) (Hderive : derive_of r derive).
Context (in_st in_w res_st res_w : list Z).
Context (Hin : inputs_of r l in_st in_w) (Hres : results_of r l res_st res_w).
Context (fh fs : list Z) (flen ff fv : Z) (Hfind : find_of r l fh fs flen ff fv).
Context (q0 q1 ra : ObjectAttributeListWire) (Hq0 : request_of r 0 q0) (Hq1 : request_of r 1 q1).
Context (Hra : attrs_ok ra ∧ attrs_widths ra ∧ (row_action r ≠ OBJECT_ACTION_GET → ra = zero_attrs)).

Definition tail_of_parts : ObjectCallWire :=
  mkCall 1 240 d f (layout_code l) (row_action r) derive 0 in_w res_w fh in_st res_st fs flen ff fv 0
    [q0; q1] ra 0.

Lemma parts_widths : call_widths tail_of_parts.
Proof.
  unfold tail_of_parts. destruct Hin as (s0 & s1 & w0 & w1 & -> & -> & [_ Hw0] & [_ Hw1] & _).
  destruct Hres as (t0 & t1 & v0 & v1 & -> & -> & [_ Hv0] & [_ Hv1] & _).
  destruct Hfind as (Hb & Hlen & (_ & Hff & _) & Hv & _). unfold MAX_DESCRIPTORS, Cookie.MAX_DESCRIPTORS, low_flags in *.
  split; cbn; try done.
  - unfold in_width. lia.
  - unfold in_width. lia.
  - split; [done|]. by repeat (apply Forall_cons_2; [done|]); apply Forall_nil_2.
  - split; [done|]. by repeat (apply Forall_cons_2; [done|]); apply Forall_nil_2.
  - split; [apply Hb|by eapply batch_words].
  - apply Hb.
  - split; [done|]. destruct Hq0 as (_ & ? & _), Hq1 as (_ & ? & _). by repeat (apply Forall_cons_2; [done|]); apply Forall_nil_2.
  - by destruct Hra as (_ & ? & _).
Qed.

Lemma parts_find : find_ok tail_of_parts.
Proof.
  destruct Hfind as (Hb & Hlen & (Hf1 & Hf2 & Hf3) & Hv & Hv0 & Hnf). unfold find_ok. cbn -[bool_decide].
  split_and!; [done|unfold OBJECT_FIND_HANDLES_MAX; lia|done|destruct Hv; lia|].
  case_bool_decide as E.
  - split_and!; [auto|auto|]. intros i Hi. destruct Hb as (_ & _ & Hb). destruct (Hb i Hi) as [[Hw _] Hiff].
    split; [done|]. rewrite <- Hiff. lia.
  - destruct (Hnf E) as (-> & -> & ->). split_and!; try done. intros i Hi. destruct Hb as (_ & _ & Hb).
    destruct (Hb i Hi) as [[(_ & Hw & _) _] Hiff].
    assert (Hz : nth i fs 0 = 0) by (destruct (Z.eq_dec (nth i fs 0) 0); [done|]; apply Hiff in n; cbn in n; lia).
    split; [done|]. destruct (Z.eq_dec (nth i fh 0) 0); [done|]. apply Hw in n. lia.
Qed.

Lemma parts_ok : call_ok tail_of_parts r.
Proof.
  pose proof parts_find as Hpf. unfold tail_of_parts in *. destruct Hin as (s0 & s1 & w0 & w1 & -> & -> & [Hw0 _] & [Hw1 _] & Hn0 & Hn1 & Himp).
  destruct Hres as (t0 & t1 & v0 & v1 & -> & -> & [Hv0 _] & [Hv1 _] & Hr0 & Hr1).
  destruct (rs_action r Hshape) as [Ha1 Ha2], (rs_guard r Hshape) as [Hg1 Hg2].
  unfold OBJECT_ACTION_MAX, OBJECT_ACTION_DECAPSULATE in Ha2.
  split; cbn [version bytes descriptor_index flags layout call_action entry_derive reserved0 reserved2 input_handles result_handles
    input_status result_status requested result_attributes].
  - done.
  - split_and!; try done; unfold OBJECT_ACTION_NONE, OBJECT_GUARD_NONE; lia.
  - done.
  - destruct Hderive as [Hd1 Hd2]. split_and!; [|by destruct l; [left|right]|unfold OBJECT_DERIVE_ECDH1_COFACTOR; lia|done].
    unfold low_flags in Hf. unfold OBJECT_FLAGS_MASK. change 255 with (Z.ones 8). apply Z.ldiff_ones_r_low; [lia|].
    destruct (Z.eq_dec f 0) as [->|]; [done|]. apply Z.log2_lt_pow2; lia.
  - done.
  - intros [|[|i]] Hi; cbn; [| |lia]; (split_and!; [done|done|]); intros Hne Hna; by apply Himp.
  - intros [|[|i]] Hi; cbn; [| |lia]; split; done.
  - exact Hpf.
  - destruct (rs_templates r Hshape) as (a & b & c & e & Et & Hab & Hce). intros [|[|i]] q Hq; cbn in Hq; [| |done]; injection Hq as <-;
      rewrite Et; cbn [nth Nat.mul Nat.add]; (split; [done|]); split.
    + intros ->. apply zero_of_attrs, Hq0. unfold pair_present. by rewrite Et.
    + intros _. apply Hq0.
    + intros ->. apply zero_of_attrs, Hq1. unfold pair_present. by rewrite Et.
    + intros _. apply Hq1.
  - destruct Hra as (Hra1 & _ & Hra3). split; [done|]. intros Hne. by apply zero_of_attrs, Hra3.
Qed.

End Parts.

(** A tail whose parts are the ones the contract allows for row [r]. *)
Record tail_good (r : ObjectDescriptorWire) (d : Z) (l : LinuxLayout) (w : ObjectCallWire) : Prop := {
  tg_head : version w = 1 ∧ bytes w = 240 ∧ descriptor_index w = d ∧ layout w = layout_code l ∧
    call_action w = row_action r ∧ reserved0 w = 0 ∧ reserved1 w = 0 ∧ reserved2 w = 0;
  tg_flags : low_flags (ObjectWire.flags w);
  tg_derive : derive_of r (entry_derive w);
  tg_inputs : inputs_of r l (input_status w) (input_handles w);
  tg_results : results_of r l (result_status w) (result_handles w);
  tg_find : find_of r l (find_handles w) (find_status w) (find_len w) (find_flags w) (find_valid w);
  tg_requested : ∃ q0 q1, requested w = [q0; q1] ∧ request_of r 0 q0 ∧ request_of r 1 q1;
  tg_attributes : attrs_ok (result_attributes w) ∧ attrs_widths (result_attributes w) ∧
    (row_action r ≠ OBJECT_ACTION_GET → result_attributes w = zero_attrs);
}.

Lemma tail_good_ok r d l w :
  row_shape r → 1 <= d < MAX_DESCRIPTORS → row_function r = d - 1 → tail_good r d l w →
  call_widths w ∧ call_ok w r.
Proof.
  intros Hs Hd Hf [Hh ? ? ? ? ? (q0 & q1 & Hq & ? & ?) ?]. destruct w. cbn in *.
  destruct Hh as (-> & -> & -> & -> & -> & -> & -> & ->). subst.
  split; [by eapply parts_widths|by eapply parts_ok].
Qed.

(** Only a row that refuses nothing reaches the adapters' bodies. *)
Lemma shape_not_refused r d :
  row_shape r → 1 <= d < MAX_DESCRIPTORS → row_function r = d - 1 → row_refused d r = false.
Proof.
  intros [? ? ? ? ? ? Ha Hg] Hd Hf. unfold row_refused. rewrite Hf. unfold as_u32. rewrite wrap_small.
  - rewrite Z.eqb_refl. unfold OBJECT_ACTION_NONE, OBJECT_GUARD_NONE. bprop. lia.
  - unfold MAX_DESCRIPTORS, Cookie.MAX_DESCRIPTORS in Hd. unfold in_width. lia.
Qed.

Lemma low_flags_high f : low_flags f → f &' (15 << 8) = 0.
Proof.
  unfold low_flags. intros Hf. apply Z.bits_inj'. intros n Hn. rewrite Z.land_spec, Z.bits_0.
  destruct (Z.lt_ge_cases n 8).
  - rewrite Z.shiftl_spec_low by lia. apply andb_false_r.
  - destruct (Z.eq_dec f 0) as [->|]; [by rewrite Z.bits_0|].
    rewrite Z.bits_above_log2; [done|lia|]. apply Z.log2_lt_pow2; [lia|].
    assert (2 ^ 8 <= 2 ^ n) by (apply Z.pow_le_mono_r; lia). lia.
Qed.

Lemma land_flags_low f : low_flags (f &' OBJECT_FLAGS_MASK).
Proof.
  unfold low_flags, OBJECT_FLAGS_MASK. change 255 with (Z.ones 8). rewrite Z.land_ones by lia.
  apply Z.mod_pos_bound. lia.
Qed.

Section Emission.
Context {St : Type} `{R : TargetReader St} {Rok : TargetReaderOk St R}.
Context `{W : TargetWidth} {Wok : TargetWidthOk W}.

Lemma read_answer a l (s : St) : answer_ok (read_word a l s).1.
Proof. intros w. apply read_word_u64. Qed.

Lemma read_handle_ok settled p l (s : St) :
  (∀ st, settled = Some st → 0 <= st <= OBJECT_HANDLE_STATUS_MAX ∧ st ≠ 1) →
  let '((status, word), _) := read_handle settled p l s in
  word_ok l status word ∧ (status = 0 ↔ settled = Some 0).
Proof.
  intros Hs. unfold read_handle, mbind, rm_bind, mret, rm_ret. destruct settled as [st|].
  - destruct (Hs st eq_refl). split; [by apply word_ok_zero|]. split; [by intros ->|by intros [= ->]].
  - pose proof (read_answer p l s) as Ha. destruct (read_word p l s) as [r s']. cbn [fst] in Ha.
    destruct (handle_of_ok r l Ha) as [Hw Hn]. destruct (handle_of r l). cbn in *. split; [done|].
    split; [by intros ->|done].
Qed.

Lemma gate_settled (present authorized : bool) p l st :
  settled_of (gate_of present authorized) p l = Some st →
  (0 <= st <= OBJECT_HANDLE_STATUS_MAX ∧ st ≠ 1) ∧ (st = 0 ↔ present = false).
Proof.
  unfold settled_of, gate_of, span_status. destruct present, authorized; cbn [negb].
  2-4: intros [= <-]; split; [by vm_compute|]; split; done.
  destruct (p =? 0); [intros [= <-]; split; [by vm_compute|]; by split|].
  destruct (Abi.target_word_end p l); [done|]. intros [= <-]. split; [by vm_compute|]. by split.
Qed.

Lemma refused_status (present authorized : bool) :
  (0 <= refused_of (gate_of present authorized) <= OBJECT_HANDLE_STATUS_MAX ∧ refused_of (gate_of present authorized) ≠ 1) ∧
  (refused_of (gate_of present authorized) = 0 ↔ present = false).
Proof. by destruct present, authorized; vm_compute. Qed.

Lemma gate_flag (present authorized : bool) : low_flags (flag_of (gate_of present authorized)).
Proof. by destruct present, authorized; vm_compute. Qed.

(** The statuses and words of the reference handle protocol. *)
Lemma return_handles_ok present authorized ptrs rv authority l (s : St) :
  let '(v, words, _) := capture_return_handles present authorized ptrs rv authority l s in
  ∃ s0 s1 w0 w1, handle_statuses v = [s0; s1] ∧ words = [w0; w1] ∧ word_ok l s0 w0 ∧ word_ok l s1 w1 ∧
    (s0 = 0 ↔ present.1 = false) ∧ (s1 = 0 ↔ present.2 = false) ∧ low_flags (handle_object_flags v).
Proof.
  unfold capture_return_handles. set (g0 := gate_of present.1 authorized.1). set (g1 := gate_of present.2 authorized.2).
  pose proof (refused_status present.1 authorized.1) as (Hr0 & Hz0). pose proof (refused_status present.2 authorized.2) as (Hr1 & Hz1).
  fold g0 in Hr0, Hz0. fold g1 in Hr1, Hz1.
  assert (Hf : low_flags (flag_of g0 |' flag_of g1)) by (apply low_flags_lor; apply gate_flag).
  assert (Hrefuse : ∃ s0 s1 w0 w1, [refused_of g0; refused_of g1] = [s0; s1] ∧ [0; 0] = [w0; w1] ∧ word_ok l s0 w0 ∧
    word_ok l s1 w1 ∧ (s0 = 0 ↔ present.1 = false) ∧ (s1 = 0 ↔ present.2 = false) ∧ low_flags (flag_of g0 |' flag_of g1)).
  { do 4 eexists. split_and!; try reflexivity; try done; apply word_ok_zero; tauto. }
  destruct (_ && _); [done|]. destruct (_ || _); [done|].
  set (x0 := settled_of g0 ptrs.1 l). set (x1 := settled_of g1 ptrs.2 l).
  destruct (bool_decide (x0 = None) && bool_decide (x1 = None) && _) eqn:Ea.
  { bprop. destruct Ea as [[E0 E1] _]. unfold x0, g0, settled_of, gate_of in E0. unfold x1, g1, settled_of, gate_of in E1.
    do 4 eexists. split_and!; try reflexivity; try (by apply word_ok_zero); try (by apply low_flags_lor).
    - by destruct (present.1).
    - by destruct (present.2). }
  rewrite !rm_bind_eq. pose proof (read_handle_ok x0 ptrs.1 l s) as H0.
  destruct (read_handle x0 ptrs.1 l s) as [[s0 w0] t]. rewrite !rm_bind_eq. pose proof (read_handle_ok x1 ptrs.2 l t) as H1.
  destruct (read_handle x1 ptrs.2 l t) as [[s1 w1] t'].
  destruct H0 as [Hw0 Hs0]; [intros st Hst; apply (gate_settled _ _ _ _ _ Hst)|].
  destruct H1 as [Hw1 Hs1]; [intros st Hst; apply (gate_settled _ _ _ _ _ Hst)|].
  assert (Hp0 : s0 = 0 ↔ present.1 = false).
  { rewrite Hs0. split; [intros Hst; by apply (gate_settled _ _ _ _ _ Hst)|]. intros Hp. unfold x0, g0, gate_of. by rewrite Hp. }
  assert (Hp1 : s1 = 0 ↔ present.2 = false).
  { rewrite Hs1. split; [intros Hst; by apply (gate_settled _ _ _ _ _ Hst)|]. intros Hp. unfold x1, g1, gate_of. by rewrite Hp. }
  destruct (_ && (w0 =? w1)) eqn:Ed.
  - bprop. destruct Ed as [[E0 E1] _]. do 4 eexists.
    split_and!; try reflexivity; try (by apply word_ok_zero); try (by apply low_flags_lor); [rewrite <- Hp0|rewrite <- Hp1]; by subst.
  - do 4 eexists. split_and!; try reflexivity; try done. cbn [handle_object_flags]. destruct (_ && xorb _ _); [by apply low_flags_lor|done].
Qed.

Lemma find_elements_ok array_ptr w l n f (s : St) :
  (n <= 8)%nat → f = 0 ∨ f = find_flag.TRUNCATED →
  match (for_each (seq 0 n) (find_element array_ptr w l) (Some (replicate 8 handle_status.ABSENT, replicate 8 0, f)) s).1 with
  | None => True
  | Some (statuses, words, f') => batch_ok l n statuses words ∧ (f' = f ∨ f' = f |' find_flag.UNREADABLE_ELEMENT)
  end.
Proof.
  intros Hn Hf. apply (for_each_seq_inv (λ i acc, match acc with
    | None => True
    | Some (statuses, words, f') => batch_ok l i statuses words ∧ (f' = f ∨ f' = f |' find_flag.UNREADABLE_ELEMENT)
    end)); [split; [apply batch_ok_zero|by left]|].
  intros i [[[st ws] f']|] t Hi Hinv; [|done]. destruct Hinv as [Hb Hf']. unfold find_element.
  destruct (checked_add 64 array_ptr _) as [addr|]; [|done]. rewrite rm_bind_eq.
  pose proof (read_answer addr l t) as Ha. destruct (read_word addr l t) as [r t']. cbn [fst] in Ha.
  pose proof (batch_ok_push l i st ws r ltac:(lia) Ha Hb) as Hp. destruct (handle_of r l) as [status word].
  cbn. split; [exact Hp|]. destruct r; [done|].
  destruct Hf' as [-> | ->], Hf as [-> | ->]; auto.
Qed.

Definition find_verdict_ok (l : LinuxLayout) (v : FindVerdict) (words : list Z) : Prop :=
  0 <= fv_len v <= 8 ∧ find_flags_ok (fv_flags v) (fv_len v) ∧ (fv_valid v = false → fv_len v = 0) ∧
  batch_ok l (Z.to_nat (fv_len v)) (fv_statuses v) words.

Lemma find_refused_ok l f (s : St) :
  f &~ OBJECT_FIND_FLAGS_MASK = 0 → is_u8 f → f &' 1 = 0 →
  let '(v, words, _) := (find_refused f, s) in find_verdict_ok l v words.
Proof. intros H1 H2 H3. split_and!; try done. split_and!; try done. apply batch_ok_zero. Qed.

(** Every batch of the reference Find protocol is one the contract allows. *)
Lemma find_return_ok array_ptr capacity count_ptr rv authority l (s : St) :
  let '(v, words, _) := capture_find_return array_ptr capacity count_ptr rv authority l s in
  find_verdict_ok l v words.
Proof.
  assert (Hr : ∀ f t, f &~ OBJECT_FIND_FLAGS_MASK = 0 → is_u8 f → f &' 1 = 0 →
    let '(v, words, _) := (mret (find_refused f) : RM St _) t in find_verdict_ok l v words)
    by (intros f t; exact (find_refused_ok l f t)).
  unfold capture_find_return. destruct (_ || _); [by apply Hr|]. destruct (_ || _); [by apply Hr|].
  rewrite rm_bind_eq. pose proof (read_answer count_ptr l s) as Hc.
  destruct (read_word count_ptr l s) as [[count|] t]; [|by apply Hr]. specialize (Hc count eq_refl).
  destruct (is_ilp32 l && _); [by apply Hr|]. destruct (_ <? count); [by apply Hr|].
  destruct (checked_mul 64 count _) as [len|]; [|by apply Hr]. destruct (bool_decide _); [by apply Hr|].
  destruct (Span.spans_overlap _ _ _ _); [by apply Hr|]. rewrite rm_bind_eq. unfold MAX_FIND_HANDLES, in_width in *.
  set (n := Z.to_nat (Z.min count 8)). set (f := if 8 <? count then find_flag.TRUNCATED else 0).
  pose proof (find_elements_ok array_ptr (word_bytes l) l n f t ltac:(lia)) as He.
  destruct (for_each _ _ _ t) as [[[[st ws] f']|] t']; [|by apply Hr]. cbn [fst] in He.
  destruct He as [Hb Hf]; [unfold f; destruct (_ <? _); auto|]. rewrite rm_bind_eq.
  destruct (read_word count_ptr l t') as [stable t'']. case_bool_decide; [|by apply Hr]. cbn.
  unfold as_u8. rewrite wrap_small by (unfold in_width; lia). split; cbn [fv_len fv_flags fv_valid fv_statuses]; [lia|].
  split; [|by split].
  assert (f = 0 ∨ f = find_flag.TRUNCATED ∧ Z.min count 8 = 8) as [-> | [-> Hm]]
    by (unfold f; destruct (Z.ltb_spec 8 count); [right; split; [done|lia]|by left]);
    destruct Hf as [-> | ->]; split_and!; try done; intros _; done.
Qed.

(** ** Request lists *)

Definition facts_ok (f : RequestCellFacts) : Prop :=
  cell_fine (mkAttr (facts_kind f) (facts_status f) (facts_value f)) ∧
  (facts_list_flags f = 0 ∨ facts_list_flags f = attr_list_flag.HEADER_READ_FAILURE) ∧
  low_flags (facts_object_flags f).

Lemma ldiff_bit2 x : x &~ 4 = 0 → x = 0 ∨ x = 4.
Proof.
  intros E. assert (Hx : x = x &' 4).
  { apply Z.bits_inj'. intros n _. rewrite Z.land_spec. pose proof (f_equal (λ z, Z.testbit z n) E) as En.
    cbn beta in En. rewrite Z.ldiff_spec, Z.bits_0 in En. by destruct (Z.testbit x n), (Z.testbit 4 n). }
  rewrite Hx. destruct (Z.testbit x 2) eqn:Et; [right|left]; apply Z.bits_inj'; intros n Hn; rewrite Z.land_spec;
    change 4 with (2 ^ 2); rewrite ?Z.bits_0, Z.pow2_bits_eqb by lia; destruct (Z.eqb_spec 2 n) as [<-|]; rewrite ?Et; by rewrite ?andb_false_r.
Qed.

Lemma unpack_facts_ok x f : unpack_request_cell x = Some f → facts_ok f.
Proof.
  unfold unpack_request_cell. destruct (negb _); [done|]. set (g := mkFacts _ _ _ _ _).
  destruct (request_cell_facts_valid g) eqn:Hv; [|done]. intros [= <-].
  unfold request_cell_facts_valid in Hv. rewrite !andb_true_iff, !orb_true_iff in Hv.
  destruct Hv as ((((Hk & Hs) & Hval) & Hl) & Ho).
  assert (Hw8 : ∀ z, is_u8 (as_u8 z)) by (intros; by apply wrap_width).
  unfold facts_ok, cell_fine. cbn [attr_kind attr_status attr_value].
  assert (Hst : 0 <= facts_status g <= 10).
  { apply Z.leb_le in Hs. specialize (Hw8 (x >> 8)). unfold in_width in Hw8. cbn. change (as_u8 (x >> 8)) with (facts_status g).
    unfold attr_status.INSUFFICIENT_CAPACITY in Hs. split; [apply Hw8|done]. }
  split_and!; try apply Hst.
  - destruct Hk as [Hk|Hk]; [apply Z.eqb_eq in Hk; lia|]. apply bool_decide_eq_true in Hk. unfold kind_from_code in Hk.
    repeat match type of Hk with context [?a =? ?b] => destruct (Z.eqb_spec a b); [lia|] end. done.
  - destruct Hk as [Hk|Hk]; [apply Z.eqb_eq in Hk; lia|]. apply bool_decide_eq_true in Hk. unfold kind_from_code in Hk.
    repeat match type of Hk with context [?a =? ?b] => destruct (Z.eqb_spec a b); [lia|] end. done.
  - by apply wrap_width.
  - intros Hne. destruct Hval as [Hz|Hz]; [by apply Z.eqb_eq in Hz|]. apply andb_true_iff in Hz as [_ Hz%Z.eqb_eq]. done.
  - apply Z.eqb_eq in Hl. by apply ldiff_bit2.
  - exact (Hw8 (x >> 40)).
Qed.

Lemma request_cell_ok base count index peer l (s : St) : facts_ok (request_cell base count index peer l s).1.
Proof.
  assert (Hf : facts_ok failed_facts) by (split_and!; [by vm_compute|by right|by vm_compute]).
  unfold request_cell, mbind, rm_bind, mret, rm_ret. destruct (encode_request_cell_tag _ _ _); [|done].
  destruct (default (0, 0) peer) as [pb pc]. destruct (request_cell_packed _ _ _ _ _ s) as [x t]. cbn [fst].
  destruct (unpack_request_cell x) as [f|] eqn:E; [by eapply unpack_facts_ok|done].
Qed.

Lemma publish_slots_ok template_ptr count peer l n f (s : St) :
  (n <= 8)%nat → list_flags_ok (Z.of_nat n) f →
  let '((out, c), _) := for_each (seq 0 n) (publish_slot template_ptr count peer l) (cleared_list (Z.of_nat n) f, 0) s in
  list_ok out ∧ low_flags c.
Proof.
  intros Hn Hf.
  pose proof (for_each_seq_inv (λ _ (acc : ObjectAttributeListWire * Z),
      cells_ok (Z.of_nat n) (cells acc.1) ∧ inspected acc.1 = Z.of_nat n ∧ list_reserved acc.1 = 0 ∧
      list_flags_ok (Z.of_nat n) (list_flags acc.1) ∧ low_flags acc.2)
    (publish_slot template_ptr count peer l) 0 n (cleared_list (Z.of_nat n) f, 0) s) as Hinv.
  destruct (for_each _ _ _ s) as [[out c] t]. cbn [fst snd] in Hinv. destruct Hinv as (Hc & Hi & Hr & Hl & Hlow).
  { split_and!; try done. apply cells_ok_zero. }
  { intros i [out' c'] u Hi (Hc & Hin & Hr & Hl & Hlow). unfold publish_slot. rewrite rm_bind_eq.
    pose proof (request_cell_ok template_ptr count (Z.of_nat i) peer l u) as (Hcell & Hlf & Hof).
    destruct (request_cell _ _ _ _ _ u) as [facts u']. cbn [fst snd] in *. cbn.
    split_and!; try done; [apply cells_ok_insert; try done; lia|by apply list_flags_hrf|by apply low_flags_lor]. }
  split; [|done]. split; rewrite ?Hi; try done. lia.
Qed.

Lemma request_list_ok template_ptr count peer l (s : St) :
  0 <= count →
  let '((out, c), _) := inspect_request_template_into template_ptr count peer l s in
  list_ok out ∧ low_flags c.
Proof.
  intros Hcount. unfold inspect_request_template_into. cbv zeta.
  assert (Hrefused : ∀ t : St, let '((out, c), _) := ((cleared_list 0 attr_list_flag.INVALID_SPAN, 0), t) in list_ok out ∧ low_flags c).
  { intros t. split; [|done]. split; [apply cells_ok_zero|done|by exists false, false, false, true|done]. }
  destruct (Span.attribute_table_span _ _); [|exact (Hrefused s)].
  do 2 (case_bool_decide; [exact (Hrefused s)|]). unfold MAX_ATTRIBUTE_SLOTS. set (n := Z.min count 8).
  set (f := (if 0 <? n then attr_list_flag.PRESENT else 0) |' (if 8 <? count then attr_list_flag.TRUNCATED else 0)).
  assert (Hf : list_flags_ok n f).
  { exists (0 <? n), (8 <? count), false, false. split; [unfold f; by destruct (0 <? n), (8 <? count)|].
    split; [intros; by apply Z.ltb_lt|]. intros E%Z.ltb_lt. unfold n. lia. }
  assert (Hn : 0 <= n <= 8) by (unfold n; lia).
  assert (as_u8 n = n) as -> by (unfold as_u8; apply wrap_small; unfold in_width; lia).
  destruct (n =? 0) eqn:E0.
  { apply Z.eqb_eq in E0. split; [|done]. rewrite E0 in *. split; [apply cells_ok_zero|done|done|done]. }
  rewrite rm_bind_eq.
  match goal with |- context [match ?m s with pair _ _ => _ end] => destruct (m s) as [f' t] eqn:Ep end.
  assert (Hf' : list_flags_ok n f').
  { unfold mbind, rm_bind, mret, rm_ret in Ep. destruct peer as [[pb pc]|]; [|by injection Ep as <- _].
    rewrite request_alias_scan_eq in Ep by (by right).
    pose proof (alias_scan_flags pb pc U64_MAX 0 0 l s) as Ha. destruct (alias_scan_core _ _ _ _ _ _ s) as [[a g] t'].
    injection Ep as <- _. by apply list_flags_hrf. }
  pose proof (publish_slots_ok template_ptr count peer l (Z.to_nat n) f' t ltac:(lia)) as Hp.
  rewrite Z2Nat.id in Hp by lia. by apply Hp.
Qed.

(** ** Get results *)

(** The cells of a Get list: an unclaimed cell is zero. *)
Definition gcells (n : Z) (cs : list ObjectAttributeWire) : Prop :=
  cells_ok n cs ∧ ∀ j c, cs !! j = Some c → attr_kind c = 0 → c = mkAttr 0 0 0.

Lemma gcells_insert n cs i c :
  gcells n cs → Z.of_nat i < n → cell_fine c → attr_kind c ≠ 0 → gcells n (<[i := c]> cs).
Proof.
  intros [Hc Hz] Hi Hf Hk. split; [by apply cells_ok_insert|]. intros j d Hd Hd0.
  destruct (decide (i = j)) as [<-|Hne]; [|rewrite list_lookup_insert_ne in Hd by done; by eapply Hz].
  destruct (decide (i < length cs)%nat); [|rewrite list_insert_ge in Hd by lia; by eapply Hz].
  rewrite list_lookup_insert_eq in Hd by done. by injection Hd as <-.
Qed.

Definition contribution (c : Z) : Prop := c = 0 ∨ c = object_flag.ALIAS ∨ c = object_flag.CHANGED_METADATA.

Lemma get_slot_refusal_ok slot kind l sel ptr len st fl :
  get_slot_refusal slot kind l sel ptr len = Some (st, fl) → (0 <= st <= 10 ∧ st ≠ 1) ∧ contribution fl.
Proof.
  unfold get_slot_refusal, contribution. repeat case_match; intros [= <- <-]; split; auto; by vm_compute.
Qed.

Lemma kind_range c k : kind_from_code c = Some k → 1 <= c <= 6.
Proof.
  unfold kind_from_code. repeat match goal with |- context [?a =? ?b] => destruct (Z.eqb_spec a b); [lia|] end. done.
Qed.

Lemma classify_get_slot_ok side code out (s : St) :
  let n := Z.min (os_get_inspected side) 8 in
  Forall (λ x, 0 <= slot_index x) (os_slots side) → gcells n (cells out) →
  let '((x, out'), _) := classify_get_slot side code out s in
  (∃ flow c, x = encode_get_slot_result flow c ∧ contribution c) ∧
  gcells n (cells out') ∧ inspected out' = inspected out ∧ list_flags out' = list_flags out ∧
  list_reserved out' = list_reserved out.
Proof.
  intros n Hidx Hg. set (Q := λ (y : Z * ObjectAttributeListWire * St), let '((x, out'), _) := y in
    (∃ flow c, x = encode_get_slot_result flow c ∧ contribution c) ∧ gcells n (cells out') ∧
    inspected out' = inspected out ∧ list_flags out' = list_flags out ∧ list_reserved out' = list_reserved out).
  change (Q (classify_get_slot side code out s)).
  assert (Hsame : ∀ flow t, Q ((encode_get_slot_result flow 0, out), t)).
  { intros flow t. split_and!; try done. exists flow, 0. by repeat (split || left). }
  unfold classify_get_slot. destruct (decode_get_slot_layout code) as [k l]. set (slot := side_slot side _).
  destruct (kind_from_code (slot_kind slot)) as [kind|] eqn:Ek; [|by apply Hsame]. fold n.
  assert (Hi : 0 <= slot_index slot).
  { unfold slot, side_slot. destruct (nth_in_or_default (Z.to_nat k) (os_slots side) slot_default) as [Hin| ->]; [|done].
    rewrite Forall_forall in Hidx. by apply Hidx, list_elem_of_In. }
  destruct (Z.leb_spec n (slot_index slot)) as [|Hlt]; [by apply Hsame|].
  assert (Hn8 : n <= 8) by lia. replace (slot_index slot &' 7) with (slot_index slot).
  2:{ change 7 with (Z.ones 3). rewrite Z.land_ones by lia. symmetry. apply Z.mod_small. lia. }
  destruct (cells out !! Z.to_nat (slot_index slot)) as [cell|] eqn:Ec; [|by apply Hsame].
  destruct (Z.eqb_spec (attr_kind cell) 0) as [E0|]; cbn [negb]; [|by apply Hsame].
  destruct Hg as [Hc Hz] eqn:EHg. assert (cell = mkAttr 0 0 0) as -> by (by eapply Hz). cbn [attr_value].
  pose proof (kind_range _ _ Ek) as Hkr.
  assert (Hput : ∀ st v flow c t, 0 <= st <= 10 → is_u16 v → (st ≠ 1 → v = 0) → contribution c →
    Q ((encode_get_slot_result flow c, set_cell (Z.to_nat (slot_index slot)) (mkAttr (slot_kind slot) st v) out), t)).
  { intros st v flow c t H1 H2 H3 H4. split_and!; try done; [by exists flow, c|]. cbn [set_cell cells].
    apply gcells_insert; [done|lia| |cbn; lia]. split_and!; cbn; try lia; done. }
  destruct (Span.attribute_header_addresses _ _ _) as [[[sa pa] la]|]; [|by apply Hput; [| | |left]].
  unfold mbind, rm_bind. destruct (read_word sa l s) as [sel t1], (read_word pa l t1) as [p t2], (read_word la l t2) as [m t3].
  destruct sel as [sel|], p as [p|], m as [m|]; try (by apply Hput; [| | |left]).
  destruct (get_slot_refusal _ _ _ _ _ _) as [[st fl]|] eqn:Er.
  { destruct (get_slot_refusal_ok _ _ _ _ _ _ _ _ Er) as [[? ?] ?]. by apply Hput. }
  destruct (capacity_scan _ _ _ _ _ _ _); [by apply Hput; [| | |right; left]|].
  pose proof (stable_cell_ok (os_get_template_base side) (slot_index slot) kind p m l t3) as Hst.
  rewrite stable_attribute_cell_eq. destruct (stable_cell_core _ _ _ _ _ _ t3) as [[[[st v] w] contrib] t4]. cbn [fst] in Hst.
  destruct Hst as (H1 & H2 & H3 & H4). apply Hput; try done; [by destruct w|destruct w; by auto|].
  destruct H4 as [-> | ->]; [by left|by right; right].
Qed.

Lemma contribution_low c : contribution c → low_flags c.
Proof. by intros [-> | [-> | ->]]. Qed.

Lemma decode_contribution flow c :
  contribution c → (decode_get_slot_result (encode_get_slot_result flow c)).2 = c.
Proof. by intros [-> | [-> | ->]]; destruct flow. Qed.

Lemma get_return_loop_ok side l ks out c (s : St) :
  let n := Z.min (os_get_inspected side) 8 in
  Forall (λ x, 0 <= slot_index x) (os_slots side) → gcells n (cells out) → low_flags c →
  let '((c', out'), _) := get_return_loop side l ks out c s in
  gcells n (cells out') ∧ inspected out' = inspected out ∧ list_flags out' = list_flags out ∧
  list_reserved out' = list_reserved out ∧ low_flags c'.
Proof.
  intros n Hidx. revert out c s. induction ks as [|k ks IH]; intros out c s Hg Hc; [done|].
  cbn [get_return_loop]. rewrite rm_bind_eq.
  pose proof (classify_get_slot_ok side (encode_get_slot_layout (Z.of_nat k) l) out s Hidx Hg) as Hk.
  destruct (classify_get_slot _ _ _ s) as [[x out'] t]. destruct Hk as ((flow & cc & -> & Hcc) & Hg' & Hi & Hf & Hr).
  pose proof (decode_contribution flow cc Hcc) as Hd. destruct (decode_get_slot_result _) as [flow' contrib]. cbn [snd] in Hd. subst contrib.
  assert (Hlow : low_flags (c |' cc)) by (apply low_flags_lor; [done|by apply contribution_low]).
  destruct flow'; [by split_and!|..]; specialize (IH out' (c |' cc) t Hg' Hlow);
    destruct (get_return_loop _ _ _ _ _ t) as [[c'' out''] t']; rewrite <- Hi, <- Hf, <- Hr; exact IH.
Qed.

(** What the return needs of the retained Get facts. *)
Definition get_ready (s : ObjectStart) : Prop :=
  0 <= os_get_inspected s <= 8 ∧ Forall (λ x, 0 <= slot_index x) (os_slots s) ∧
  (os_flags s &' GET_ENTRY_UNINSPECTED ≠ 0 ∨
   ∃ t h v, as_u8 ((os_flags s &' GET_ENTRY_FLAGS_MASK) >> GET_ENTRY_FLAGS_SHIFT) = lflags false t h v ∧
     (t = true → os_get_inspected s = 8)).

Lemma get_return_ok side rv authority l (s : St) :
  get_ready side →
  let '((c, out), _) := capture_get_return_into side rv authority l s in
  attrs_ok out ∧ attrs_widths out ∧ low_flags c.
Proof.
  intros (Hi & Hidx & Hf). unfold capture_get_return_into.
  assert (Hlist : ∀ out, list_ok out → attrs_ok out ∧ attrs_widths out)
    by (intros out Ho; split; [by apply list_ok_attrs|by apply list_ok_widths]).
  destruct (_ || _).
  { cbn. split_and!; try done; apply Hlist; exact zero_list_ok. }
  destruct (Z.eqb_spec (os_flags side &' GET_ENTRY_UNINSPECTED) 0) as [E0|Hne]; cbn [negb].
  2:{ cbn. split_and!; try done; apply marked_list_ok. }
  destruct Hf as [Hf|(tr & h & v & Hf & Ht)]; [done|]. rewrite Hf. set (n := Z.min (os_get_inspected side) 8).
  set (f := lflags false tr h v |' _).
  pose proof (get_return_loop_ok side l (seq 0 8) (cleared_list n f) 0 s Hidx) as Hloop.
  destruct (get_return_loop _ _ _ _ _ s) as [[c out] t]. destruct Hloop as (Hg & Hin & Hfl & Hr & Hc).
  { split; [apply cells_ok_zero|]. intros j d [-> _]%lookup_replicate. done. }
  { done. }
  assert (Hok : list_ok out).
  { split; rewrite ?Hin, ?Hfl, ?Hr; cbn [cleared_list inspected list_flags list_reserved]; [apply Hg|lia| |done].
    exists (0 <? n), tr, h, v. split; [unfold f; by destruct (0 <? n), tr, h, v|].
    split; [intros; by apply Z.ltb_lt|]. intros Et. specialize (Ht Et). lia. }
  split_and!; [by apply list_ok_attrs|by apply list_ok_widths|done].
Qed.

Lemma get_ready_or f s : low_flags f → get_ready s → get_ready (or_side_flags f s).
Proof.
  intros Hf (Hi & Hidx & Hor). pose proof (low_flags_high f Hf) as Hm. split; [done|]. split; [done|].
  unfold or_side_flags, put_flags. cbn [os_flags os_get_inspected]. rewrite !Z.land_lor_distr_l.
  assert (Hu : f &' GET_ENTRY_UNINSPECTED = 0).
  { change GET_ENTRY_UNINSPECTED with ((15 << 8) &' 256). by rewrite Z.land_assoc, Hm. }
  unfold GET_ENTRY_FLAGS_MASK, GET_ENTRY_FLAGS_SHIFT in *. rewrite Hu, Hm, !Z.lor_0_r. done.
Qed.

(** The facts the Get entry retains are the ones its return needs. *)
Lemma get_slots_ok ptr l n f m (st : St) :
  match (for_each (seq 0 m) (get_entry_slot_into ptr l) (replicate 8 slot_default, mkVerdict n 0 f, false) st).1 with
  | (slots, v, _) => Forall (λ x, 0 <= slot_index x) slots ∧ (gv_entry_flags v = f ∨ gv_entry_flags v = f |' 4)
  end.
Proof.
  apply (for_each_seq_inv (λ _ acc, match acc with
    | (slots, v, _) => Forall (λ x, 0 <= slot_index x) slots ∧ (gv_entry_flags v = f ∨ gv_entry_flags v = f |' 4)
    end)); [split; [by repeat apply Forall_cons_2|by left]|].
  intros i [[slots v] stop] t _ [Hs Hv].
  assert (Hfail : gv_entry_flags v |' attr_list_flag.HEADER_READ_FAILURE = f |' 4).
  { destruct Hv as [-> | ->]; [done|]. by rewrite <- Z.lor_assoc. }
  unfold get_entry_slot_into, mbind, rm_bind, mret, rm_ret. destruct stop; [done|].
  destruct (Span.attribute_header_addresses _ _ _) as [[[sa pa] la]|]; [|by split; [|right]].
  destruct (read_word sa l t) as [[sel|] t1]; [|by split; [|right]].
  destruct (safe_attribute_kind sel) as [k|]; [|done].
  destruct (read_word pa l t1) as [[p|] t2]; [|by split; [|right]].
  destruct (read_word la l t2) as [[len|] t3]; [|by split; [|right]].
  cbn [fst]. destruct (slots !! _) as [slot|]; [|by split; [|right]].
  split; [|done]. apply Forall_insert; [done|]. cbn. apply wrap_width. lia.
Qed.

Lemma get_entry_ready ptr count l s (st : St) :
  0 <= count →
  let s' := (capture_get_entry_into ptr count l s st).1.2 in
  get_ready s' ∧ ∃ base stop slots f n, s' = put_get base stop slots f n s.
Proof.
  intros Hc. unfold capture_get_entry_into. cbv zeta.
  assert (Hready : ∀ base stop slots (t h v : bool) n, 0 <= n <= 8 → Forall (λ x, 0 <= slot_index x) slots →
    (t = true → n = 8) → (v = true → t = false ∧ h = false) →
    get_ready (put_get base stop slots ((os_flags s &~ GET_ENTRY_FLAGS_MASK) |' (lflags false t h v << GET_ENTRY_FLAGS_SHIFT)) n s)).
  { intros base stop slots t h v n Hn Hs Ht Hv. split; [done|]. split; [done|]. right. exists t, h, v. split; [|done].
    apply entry_flags_read. unfold entry_flags_ok. destruct v; [destruct (Hv eq_refl) as [-> ->]|destruct t, h]; cbn; tauto. }
  assert (Hrefused : ∀ t : St, let s' := (mret (mkVerdict 0 0 attr_list_flag.INVALID_SPAN,
      put_get 0 0 (replicate 8 slot_default)
        ((os_flags s &~ GET_ENTRY_FLAGS_MASK) |' (attr_list_flag.INVALID_SPAN << GET_ENTRY_FLAGS_SHIFT)) 0 s) : RM St _) t in
      get_ready s'.1.2 ∧ ∃ base stop slots f n, s'.1.2 = put_get base stop slots f n s).
  { intros t. split; [|by do 5 eexists]. apply (Hready _ _ _ false false true); try done. by repeat apply Forall_cons_2. }
  destruct (Span.attribute_table_span count l ≫= _); [|exact (Hrefused st)].
  destruct (checked_add _ _ _) as [stop|]; [|exact (Hrefused st)].
  set (n := Z.min count MAX_ATTRIBUTE_SLOTS). assert (Hn : 0 <= n <= 8) by (unfold n, MAX_ATTRIBUTE_SLOTS; lia).
  assert (Eu : as_u8 n = n) by (apply wrap_small; unfold in_width; lia). rewrite Eu, rm_bind_eq.
  set (f := if MAX_ATTRIBUTE_SLOTS <? count then attr_list_flag.TRUNCATED else 0).
  pose proof (get_slots_ok ptr l n f (Z.to_nat n) st) as Hslots.
  destruct (for_each _ _ _ st) as [[[slots v] stopped] st']. cbn [fst snd] in *. destruct Hslots as [Hs Hv].
  split; [|by do 5 eexists].
  assert (Hf : gv_entry_flags v = lflags false (MAX_ATTRIBUTE_SLOTS <? count) (bool_decide (gv_entry_flags v ≠ f)) false).
  { case_bool_decide as E; (destruct Hv as [Hv|Hv]; rewrite Hv in *; try done); unfold f in *; by destruct (_ <? count). }
  rewrite Hf. apply Hready; try done. intros Et%Z.ltb_lt. unfold n, MAX_ATTRIBUTE_SLOTS in *. lia.
Qed.

(** ** The row waiting for its return *)

Section Row.
Context (wired : bool) (r : ObjectDescriptorWire) (d : Z) (l : LinuxLayout).

Record side_facts (s : ObjectStart) : Prop := {
  sf_index : os_descriptor_index s = d;
  sf_layout : os_layout s = layout_code l;
  sf_inputs : inputs_of r l (os_input_statuses s) (os_inputs s);
  sf_derive : derive_of r (os_derive s);
  sf_requested : ∃ q0 q1, os_requested s = [q0; q1] ∧
    if wired then (attrs_ok q0 ∧ attrs_widths q0) ∧ (attrs_ok q1 ∧ attrs_widths q1)
    else q0 = zero_attrs ∧ q1 = zero_attrs;
  sf_get : wired = true → row_action r = OBJECT_ACTION_GET → get_ready s;
}.

Context (Hshape : row_shape r) (Hd : 1 <= d < MAX_DESCRIPTORS) (Hfun : row_function r = d - 1).

Lemma tail_list_ok s p : (p < 2)%nat → side_facts s → request_of r p (tail_list wired r s p).
Proof.
  intros Hp [_ _ _ _ (q0 & q1 & Hq & Hqs) _]. unfold tail_list, request_of. fold (pair_present r p).
  destruct (pair_present r p); [|split_and!; [apply list_ok_attrs, zero_list_ok|apply list_ok_widths, zero_list_ok|done]].
  rewrite Hq. destruct p as [|[|p]]; [| |lia]; cbn [nth]; destruct wired; destruct Hqs as [H0 H1]; subst;
    first [by destruct H0 | by destruct H1 | by split_and!; try done; apply marked_list_ok].
Qed.

(** The return fill of a ready row leaves the results of the handle protocol. *)
Lemma fill_return_ready s rv ms mech (st : St) :
  side_facts s → os_phase s = 2 →
  ∃ s' st', adapter_fill_return (Some s) d (Some r) rv l ms mech true st = ((true, Some s'), st') ∧
    side_facts s' ∧ os_phase s' = 3 ∧
    (row_action r ≠ OBJECT_ACTION_FIND → results_of r l (os_result_statuses s') (os_result_ptrs s')).
Proof.
  intros Hs Hp. unfold adapter_fill_return. cbn [negb]. rewrite Hp. cbn [Z.eqb Pos.eqb negb].
  rewrite (shape_not_refused r d Hshape Hd Hfun). destruct (Z.eqb_spec (row_action r) OBJECT_ACTION_FIND) as [E|Hne].
  { do 2 eexists. split_and!; [reflexivity| |done|done]. by destruct Hs. }
  set (ok := negb _ || _). rewrite rm_bind_eq, fill_results_reference. cbn [fst snd].
  set (au := negb _ || ok). clearbody au. clear ok.
  match goal with |- context [capture_return_handles ?a ?b ?c ?e ?f ?g st] =>
    pose proof (return_handles_ok a b c e f g st) as Hr; destruct (capture_return_handles a b c e f g st) as [[v words] st'] end.
  destruct Hr as (s0 & s1 & w0 & w1 & Es & -> & Hw0 & Hw1 & Hz0 & Hz1 & Hfl). cbn [fst snd] in Hz0, Hz1.
  do 2 eexists. split_and!; [reflexivity| |done|].
  - assert (Hf : low_flags (as_u16 (handle_object_flags v))).
    { unfold as_u16. rewrite wrap_small; [done|]. unfold low_flags in Hfl. unfold in_width. lia. }
    destruct Hs as [? ? ? ? ? Hg]. split; try done. intros Hw Ha. pose proof (get_ready_or _ _ Hf (Hg Hw Ha)) as Hgr. done.
  - intros _. cbn. rewrite Es. destruct (rs_results r Hshape) as (a & b & Ea). rewrite Ea in *. cbn [nth] in *.
    rewrite negb_false_iff, Z.eqb_eq in Hz0, Hz1. exists s0, s1, w0, w1. rewrite Ea. cbn [nth]. split_and!; done || (by symmetry).
Qed.

(** The tail of a returned row, before the target is read again. *)
Lemma tail_fill_ready s :
  side_facts s → os_phase s = 3 →
  (row_action r ≠ OBJECT_ACTION_FIND → results_of r l (os_result_statuses s) (os_result_ptrs s)) →
  ∃ t, adapter_tail_fill wired true (Some s) d (Some r) = Some t ∧ tail_good r d l t ∧
    (find_handles t = replicate 8 0 ∧ find_status t = replicate 8 0 ∧ find_len t = 0 ∧ find_valid t = 0) ∧
    (row_action r = OBJECT_ACTION_GET → result_attributes t = mark_list zero_attrs).
Proof.
  intros Hs Hp Hres. unfold adapter_tail_fill. rewrite Hp, (sf_index _ Hs), !Z.eqb_refl, (shape_not_refused r d Hshape Hd Hfun).
  eexists. split; [reflexivity|]. split; [|split; [done|by cbn; intros ->]]. split; cbn -[tail_list mark_list replicate].
  - split_and!; try done. apply (sf_layout _ Hs).
  - apply land_flags_low.
  - apply (sf_derive _ Hs).
  - apply (sf_inputs _ Hs).
  - destruct (Z.eqb_spec (row_action r) OBJECT_ACTION_FIND) as [E|Hne]; [|by apply Hres].
    destruct (rs_find r Hshape E) as (a & Ea & Hna).
    exists handle_status.PROTOCOL_UNAVAILABLE, handle_status.ABSENT, 0, 0. rewrite Ea. cbn [nth].
    split_and!; try done; by apply word_ok_zero.
  - split_and!; try done; [apply batch_ok_zero|by left].
  - do 2 eexists. split; [done|]. by split; apply tail_list_ok; [lia| |lia|].
  - destruct (Z.eqb_spec (row_action r) OBJECT_ACTION_GET) as [E|Hne].
    + destruct marked_list_ok. split_and!; done.
    + split_and!; [apply list_ok_attrs, zero_list_ok|apply list_ok_widths, zero_list_ok|done].
Qed.

Lemma emit_find_ready t s rv (st : St) :
  side_facts s → os_phase s = 3 → tail_good r d l t →
  find_handles t = replicate 8 0 → find_status t = replicate 8 0 → find_len t = 0 → find_valid t = 0 →
  ∃ t' st', adapter_emit_find (Some t) (Some s) d (Some r) l rv true st = ((true, Some t'), st') ∧
    tail_good r d l t' ∧ result_attributes t' = result_attributes t.
Proof.
  intros Hs Hp Ht H1 H2 H3 H4. unfold adapter_emit_find. cbn [negb].
  assert (Hu : (row_function r =? as_u32 (d - 1)) = true).
  { pose proof (shape_not_refused r d Hshape Hd Hfun) as Hn. unfold row_refused in Hn.
    by destruct (row_function r =? as_u32 (d - 1)). }
  rewrite Hp, (sf_index _ Hs), !Z.eqb_refl, Hu. cbn [Z.eqb Pos.eqb negb orb].
  destruct (Z.eqb_spec (row_action r) OBJECT_ACTION_FIND) as [E|Hne]; cbn [negb]; [|by eauto].
  destruct (rv =? 0); cbn [negb]; [|by eauto]. rewrite rm_bind_eq, stream_find_reference by done.
  match goal with |- context [capture_find_return ?a ?b ?c ?e ?f ?g st] =>
    pose proof (find_return_ok a b c e f g st) as Hr; destruct (capture_find_return a b c e f g st) as [[v words] st'] end.
  destruct Hr as (Hlen & Hff & Hv & Hb). do 2 eexists. split; [reflexivity|]. split; [|done].
  destruct Ht as [? ? ? ? ? ? ? ?]. split; try done. refine (conj Hb (conj Hlen (conj Hff (conj _ (conj _ _))))); cbn; [| |done].
  - destruct (fv_valid v); [by right|by left].
  - destruct (fv_valid v); [done|]. intros _. by apply Hv.
Qed.

Lemma emit_get_ready t s rv (st : St) :
  side_facts s → os_phase s = 3 → tail_good r d l t →
  (row_action r = OBJECT_ACTION_GET → result_attributes t = mark_list zero_attrs) →
  ∃ t' st', adapter_emit_get_attributes wired (Some t) (Some s) d (Some r) l rv true st = ((true, Some t'), st') ∧
    tail_good r d l t'.
Proof.
  intros Hs Hp Ht Hm. unfold adapter_emit_get_attributes. cbn [negb].
  rewrite Hp, (sf_index _ Hs), !Z.eqb_refl, (shape_not_refused r d Hshape Hd Hfun). cbn [Z.eqb Pos.eqb negb orb].
  destruct (Z.eqb_spec (row_action r) OBJECT_ACTION_GET) as [E|Hne]; cbn [negb]; [|by eauto].
  destruct (return_accepts_get_results rv); cbn [negb]; [|by eauto].
  destruct wired eqn:Ew; cbn [negb].
  - rewrite rm_bind_eq. pose proof (get_return_ok s rv AUTHORIZED l st (sf_get _ Hs Ew E)) as Hg.
    destruct (capture_get_return_into s rv AUTHORIZED l st) as [[c out] st']. destruct Hg as (Ho & Hw & Hc).
    do 2 eexists. split; [reflexivity|]. destruct Ht. split; try done; cbn. by apply low_flags_lor.
  - do 2 eexists. split; [reflexivity|]. rewrite (Hm E). destruct Ht. split; try done. cbn -[mark_list].
    destruct marked_list_ok. by split_and!.
Qed.


(** The emission chain on a ready row whose custody holds throughout: it
    always emits, and the tail is one the contract allows. *)
Lemma emission_ready rows custody s rv ms mech (st : St) :
  get_row rows d = Some r → (∀ k, (k < 4)%nat → custody k = true) → side_facts s → os_phase s = 2 →
  ∃ w st', run_emission wired rows custody l rv ms mech true d s st = ((true, Some w), st') ∧ tail_good r d l w.
Proof.
  intros Hrow Hc Hs Hp.
  assert (Hq : ∀ k s' req, (k < 4)%nat → side_facts s' → os_phase s' = 2 ∨ os_phase s' = 3 ∧ req = false →
    p11_object_side_get (custody k) s' d req = Some s').
  { intros k s' req Hk Hs' Hp'. unfold p11_object_side_get. rewrite Hc, (sf_index _ Hs'), Z.eqb_refl by done.
    destruct Hp' as [-> | [-> ->]]; [|done]. by rewrite orb_true_r. }
  assert (Hgate : decode_return_gate (encode_return_gate l true) = Some (l, true)) by (by destruct l).
  unfold run_emission. rewrite (Hq 0%nat s true ltac:(lia) Hs) by auto. unfold object_fill_return, adapter_fill_return_control.
  rewrite Hgate, (sf_index _ Hs), Hrow, rm_bind_eq.
  destruct (fill_return_ready s rv ms mech st Hs Hp) as (s' & st1 & -> & Hs' & Hp' & Hres).
  cbn [from_option id default negb]. unfold object_tail_fill. rewrite (Hq 1%nat s' false ltac:(lia) Hs'), Hrow by auto.
  destruct (tail_fill_ready s' Hs' Hp' Hres) as (t & -> & Ht & (H1 & H2 & H3 & H4) & Hm).
  unfold object_emit_find, object_emit_get_attributes, adapter_emit_find_control, adapter_emit_get_control.
  rewrite (Hq 2%nat s' false ltac:(lia) Hs'), (Hq 3%nat s' false ltac:(lia) Hs'), Hrow, Hgate, rm_bind_eq by auto.
  destruct (emit_find_ready t s' rv st1 Hs' Hp' Ht H1 H2 H3 H4) as (t1 & st2 & -> & Ht1 & Er).
  destruct (emit_get_ready t1 s' rv st2 Hs' Hp' Ht1) as (t2 & st3 & -> & Ht2); [by intros E; rewrite Er; auto|eauto].
Qed.

(** Without custody at one of its four queries the chain emits nothing. *)
Lemma emission_custody rows custody s rv ms mech (st : St) w :
  (run_emission wired rows custody l rv ms mech true d s st).1 = (true, Some w) →
  ∀ k, (k < 4)%nat → custody k = true.
Proof.
  assert (Hgate : decode_return_gate (encode_return_gate l true) = Some (l, true)) by (by destruct l).
  assert (Hn : ∀ u q, p11_object_side_get false u d q = None) by done.
  unfold run_emission, object_fill_return, adapter_fill_return_control, object_emit_find, object_emit_get_attributes,
    adapter_emit_find_control, adapter_emit_get_control. rewrite Hgate.
  destruct (custody 0%nat) eqn:E0; [|done]. run_bind x st1. destruct x as [filled side].
  destruct filled; [|done]. cbn [negb]. destruct (custody 1%nat) eqn:E1; [|done].
  destruct (object_tail_fill _ _ _ _ _) as [t|]; [|done].
  destruct (custody 2%nat) eqn:E2; [|done]. run_bind y st2. destruct y as [found tail]. destruct found; [|done].
  destruct (custody 3%nat) eqn:E3; [|rewrite Hn; unfold adapter_emit_get_attributes; by destruct tail].
  intros _ k Hk. by destruct k as [|[|[|[|k]]]]; try lia.
Qed.

(** ** The entry chain *)

(** The row between two entry adapters; [ready] once its inputs are filled. *)
Record entry_inv (ready : bool) (s : ObjectStart) : Prop := {
  ei_index : os_descriptor_index s = d;
  ei_layout : os_layout s = layout_code l;
  ei_phase : os_phase s = if ready then 2 else 1;
  ei_inputs : ready = true → inputs_of r l (os_input_statuses s) (os_inputs s);
  ei_derive : derive_of r (os_derive s);
  ei_requested : os_requested s = [zero_attrs; zero_attrs];
  ei_get : row_action r = OBJECT_ACTION_GET → get_ready s;
}.

(** What an adapter leaves of a row that holds [P]. *)
Definition step_ok (adapter : option ObjectStart → RM St (bool * option ObjectStart))
    (P Q : ObjectStart → Prop) : Prop :=
  (∀ s st s', P s → (adapter (Some s) st).1 = (true, Some s') → Q s') ∧
  (∀ st s', (adapter None st).1 ≠ (true, Some s')).

Definition on_row (P : ObjectStart → Prop) (a : option ObjectStart) : Prop := ∀ s, a = Some s → P s.

Lemma entry_step_ok custody adapter P Q a (st : St) :
  step_ok adapter P Q → on_row P a → on_row Q (entry_step custody d adapter a st).1.
Proof.
  intros [HS HN] Ha s' E. unfold entry_step in E. destruct a as [s|]; [|done]. rewrite rm_bind_eq in E.
  specialize (Ha s eq_refl). unfold p11_object_side_get in E. destruct (_ && _).
  - specialize (HS s st). destruct (adapter (Some s) st) as [[ok side] st']. destruct ok; [|done].
    cbn in E. subst. by eapply HS.
  - specialize (HN st). destruct (adapter None st) as [[ok side] st']. destruct ok; [|done].
    cbn in E. subst. by destruct (HN s').
Qed.

Context (ctx : ProbeContext) (Hctx : ∀ i w, ctx_arg ctx i = Some w → is_u64 w).
Context (rows : list ObjectDescriptorWire) (Hrow : get_row rows d = Some r).

Lemma arg_answer i (st : St) : answer_ok (arg_u64 ctx i l st).1.
Proof.
  unfold arg_u64. intros w. destruct l.
  - destruct (i <=? 5); [apply Hctx|]. destruct (i =? 6); [|done].
    destruct (Abi.target_stack_arg_address _ _ _); [apply read_word_u64|done].
  - destruct (Abi.ia32_arg_address _ _) as [a|]; [|done]. rewrite rm_bind_eq.
    pose proof (read_word_u64 a Ilp32 st) as Hw. destruct (read_word a Ilp32 st) as [[v|] st']; [|done].
    cbn. destruct (v <=? U32_MAX); [|done]. intros [= <-]. by apply Hw.
Qed.

Lemma fill_input_ok import arg (st : St) :
  let '(s, w, f) := (fill_input ctx import arg l st).1 in
  word_ok l s w ∧ low_flags f ∧ (arg = ARG_NONE → s = 0) ∧ (import = false → arg ≠ ARG_NONE → s ≠ 0).
Proof.
  unfold fill_input. destruct (Z.eqb_spec arg ARG_NONE) as [->|Hne].
  { cbn. split_and!; first [done | by apply word_ok_zero]. }
  rewrite rm_bind_eq. pose proof (arg_answer arg st) as Ha. destruct (arg_u64 ctx arg l st) as [[w|] st']; cbn [fst].
  2:{ cbn. split_and!; first [done | by apply word_ok_zero]. }
  specialize (Ha w eq_refl). cbn -[U32_MAX]. destruct (Z.eqb_spec w 0) as [->|Hz]; cbn -[U32_MAX].
  - destruct import; split_and!; first [done | by apply word_ok_zero].
  - destruct (is_ilp32 l && (U32_MAX <? w)) eqn:E; split_and!; first [done | by apply word_ok_zero | by apply word_ok_value].
Qed.

Lemma cancel_input_ok null_cancel s w :
  word_ok l s w → word_ok l (cancel_input null_cancel s w).1 (cancel_input null_cancel s w).2 ∧
  ((cancel_input null_cancel s w).1 = 0 ↔ s = 0).
Proof.
  intros Hw. unfold cancel_input. destruct null_cancel; [|done]. cbn [andb].
  destruct (Z.eqb_spec s handle_status.VALUE) as [->|]; [|done]. by split; [apply word_ok_zero|].
Qed.

Lemma as_u16_low f : low_flags f → as_u16 f = f.
Proof. unfold low_flags, as_u16. intros ?. apply wrap_small. unfold in_width. lia. Qed.

(** The adapters look their row up by the index of the row they hold. *)
Lemma inv_row b s : entry_inv b s → get_row rows (os_descriptor_index s) = Some r.
Proof. intros Hs. by rewrite (ei_index _ _ Hs). Qed.

Lemma fill_entry_ok null_cancel :
  step_ok (λ side, object_fill_entry rows ctx side l null_cancel) (entry_inv false) (entry_inv (negb (kem_row r))).
Proof.
  split; [|done]. intros s st s' Hs. unfold object_fill_entry. rewrite (inv_row _ _ Hs), (ei_index _ _ Hs).
  rewrite (shape_not_refused r d Hshape Hd Hfun). destruct (kem_row r) eqn:Ek; [by intros [= <-]|].
  destruct (rs_inputs r Hshape) as (a & b & Ea). rewrite Ea. cbn [nth]. set (import := row_action r =? OBJECT_ACTION_IMPORT).
  rewrite rm_bind_eq. pose proof (fill_input_ok import a st) as H0. destruct (fill_input ctx import a l st) as [[[s0 w0] f0] st1].
  rewrite rm_bind_eq. pose proof (fill_input_ok import b st1) as H1. destruct (fill_input ctx import b l st1) as [[[s1 w1] f1] st2].
  cbn [fst] in H0, H1. destruct H0 as (Hw0 & Hf0 & Hn0 & Hi0), H1 as (Hw1 & Hf1 & Hn1 & Hi1).
  destruct (cancel_input_ok null_cancel s0 w0 Hw0) as [Hc0 Hz0], (cancel_input_ok null_cancel s1 w1 Hw1) as [Hc1 Hz1].
  destruct (cancel_input null_cancel s0 w0) as [c0 v0], (cancel_input null_cancel s1 w1) as [c1 v1]. cbn [fst snd] in *.
  intros [= <-]. set (f := f0 |' f1 |' _).
  assert (Hf : low_flags f) by (repeat apply low_flags_lor; try done; by destruct null_cancel).
  rewrite (as_u16_low f Hf). clearbody f. destruct Hs as [? ? ? ? ? ? Hg]. split; try done.
  - intros _. cbn. exists c0, c1, v0, v1. rewrite Ea. cbn [nth]. rewrite Hz0, Hz1. split_and!; try done.
    intros Hna. assert (import = false) as Hi by (by apply Z.eqb_neq). split; intros Hne; auto.
  - intros Ea'. exact (get_ready_or f _ Hf (Hg Ea')).
Qed.

Lemma derive_entry_ok b :
  step_ok (λ side, object_entry_derive rows ctx side l) (entry_inv b) (entry_inv b).
Proof.
  split; [|done]. intros s st s' Hs. unfold object_entry_derive, adapter_derive_entry.
  rewrite (inv_row _ _ Hs), (ei_index _ _ Hs), (shape_not_refused r d Hshape Hd Hfun).
  destruct (Z.eqb_spec (row_action r) OBJECT_ACTION_DERIVE) as [E|Hne]; cbn [negb]; [|by intros [= <-]].
  destruct (negb _); [done|]. run_bind m st1. run_bind de st2.
  run_bind retained st3.
  intros [= <-]. destruct Hs. split; try done. cbn. split; [|done]. by destruct de as [[]|].
Qed.

Lemma results_entry_ok b :
  step_ok (λ side, object_entry_results rows ctx side l) (entry_inv b) (entry_inv b).
Proof.
  split; [|done]. intros s st s' Hs. unfold object_entry_results.
  rewrite (inv_row _ _ Hs), (ei_index _ _ Hs), (shape_not_refused r d Hshape Hd Hfun).
  destruct (_ =? OBJECT_ACTION_DERIVE); [by intros [= <-]|]. destruct (kem_row r); [by intros [= <-]|].
  rewrite rm_bind_eq. destruct (result_pointer _ _ _ _ st) as [[p0|] st1]; [|done].
  rewrite rm_bind_eq. destruct (result_pointer _ _ _ _ st1) as [[p1|] st2]; [|done].
  intros [= <-]. by destruct Hs.
Qed.

Lemma find_entry_ok b :
  step_ok (λ side, object_entry_find rows ctx side l) (entry_inv b) (entry_inv b).
Proof.
  split; [|done]. intros s st s' Hs. unfold object_entry_find.
  rewrite (inv_row _ _ Hs), (ei_index _ _ Hs), (shape_not_refused r d Hshape Hd Hfun).
  destruct (negb _); [by intros [= <-]|]. cbv zeta beta.
  run_bind c st1. run_bind p st2.
  intros [= <-]. by destruct Hs.
Qed.

(** The output guards of a KEM call only choose the retained pointer. *)
Lemma kem_template_done encapsulate cell n (fetch : Z → RM St (option Z)) s (st : St) :
  ∃ p, (kem_template encapsulate cell n l fetch s st).1 = kem_done p s.
Proof.
  assert (Hc : ∀ st, ∃ p, (kem_ciphertext encapsulate cell n fetch s st).1 = kem_done p s).
  { intros t. unfold kem_ciphertext. rewrite rm_bind_eq. destruct (fetch 5 t) as [c t']. cbn [fst mret rm_ret].
    repeat case_match; eauto. }
  unfold kem_template. rewrite rm_bind_eq. destruct (fetch 3 st) as [p st1]. rewrite rm_bind_eq. destruct (fetch 4 st1) as [c st2].
  destruct p as [p|]; [|cbn; eauto]. destruct c as [c|]; [|cbn; eauto]. cbv zeta. destruct (_ && _); [cbn; eauto|].
  unfold kem_length_cell. destruct (negb encapsulate); [done|]. rewrite rm_bind_eq. destruct (fetch 6 st2) as [[q|] st3]; [|cbn; eauto].
  destruct (_ && _); [cbn; eauto|done].
Qed.

Lemma kem_input_ok arg null_cancel :
  answer_ok arg →
  let '(s, w, _) := kem_input arg l null_cancel in word_ok l s w ∧ s ≠ 0.
Proof.
  intros Ha. unfold kem_input. assert (Hz : ∀ st, 0 <= st <= OBJECT_HANDLE_STATUS_MAX → st ≠ 1 → st ≠ 0 → word_ok l st 0 ∧ st ≠ 0)
    by (intros; split; [by apply word_ok_zero|done]).
  destruct arg as [w|]; [|by destruct null_cancel; apply Hz]. specialize (Ha w eq_refl).
  destruct (Z.eqb_spec w 0); [by destruct null_cancel; apply Hz|].
  destruct (is_ilp32 l && _) eqn:E; destruct null_cancel; try (by apply Hz). split; [by apply word_ok_value|done].
Qed.

Lemma kem_entry_ok entry_capture null_cancel :
  step_ok (λ side, object_entry_kem wired rows ctx side l entry_capture null_cancel)
    (entry_inv (negb (kem_row r))) (entry_inv true).
Proof.
  split; [|done]. intros s st s' Hs. unfold object_entry_kem, adapter_kem_entry.
  rewrite (inv_row _ _ Hs), (ei_index _ _ Hs), (shape_not_refused r d Hshape Hd Hfun). cbv zeta.
  rewrite <- negb_orb. fold (kem_row r). destruct (kem_row r) eqn:Ek; cbn [negb] in *; [|by intros [= <-]].
  destruct (rs_kem r Hshape Ek) as (Ein & -> & -> & -> & ->). rewrite Ein, !bool_decide_true, !Z.eqb_refl by done. cbn [negb orb].
  assert (Hna : row_action r ≠ OBJECT_ACTION_IMPORT ∧ row_action r ≠ OBJECT_ACTION_GET).
  { unfold kem_row in Ek. apply orb_true_iff in Ek. rewrite !Z.eqb_eq in Ek. destruct Ek as [-> | ->]; done. }
  assert (Hdone : ∀ p f x w s', word_ok l x w → x ≠ 0 →
    kem_done p (put_flags f (put_inputs [w; 0] [x; handle_status.ABSENT] s)) = (true, Some s') → entry_inv true s').
  { intros p f x w u Hw Hx [= <-]. destruct Hs. split; try done; [|by intros E; destruct Hna]. intros _. cbn.
    exists x, handle_status.ABSENT, w, 0. rewrite Ein. cbn [nth]. split_and!; first [done | by apply word_ok_zero]. }
  destruct wired; cbn [negb].
  2:{ intros E. apply (Hdone 0 (os_flags s) handle_status.PROTOCOL_UNAVAILABLE 0); [by apply word_ok_zero|done|exact E]. }
  rewrite rm_bind_eq. pose proof (arg_answer 2 st) as Ha. destruct (arg_u64 ctx 2 l st) as [key st1]. cbn [fst] in Ha.
  pose proof (kem_input_ok key null_cancel Ha) as Hk. destruct (kem_input key l null_cancel) as [[x w] f]. destruct Hk as [Hw Hx].
  specialize (λ p, Hdone p (as_u16 f) x w s' Hw Hx). cbv zeta. destruct (_ && negb _); [apply Hdone|].
  destruct (object_result_arg7_address _ _ _) as [arg7|]; [|done]. rewrite rm_bind_eq.
  destruct (read_word arg7 l st1) as [[cell|] st2]; [|apply Hdone]. destruct (bool_decide _); [apply Hdone|].
  match goal with |- (kem_template ?a ?b ?c ?e ?f ?g ?h).1 = _ → _ => destruct (kem_template_done a b c f g h) as [p ->] end.
  apply Hdone.
Qed.

Lemma record_abi_ok :
  step_ok (λ side, mret (object_record_entry_abi side l))
    (λ s, ∃ action image entry_ns, s = object_side_alloc d action image entry_ns) (entry_inv false).
Proof.
  split; [|done]. intros s st s' (a & image & ns & ->) [= <-].
  split; try done. intros _. split; [done|]. split; [by repeat apply Forall_cons_2|]. right. by exists false, false, false.
Qed.

Lemma get_template_ok s (st : St) :
  wired = true → row_action r = OBJECT_ACTION_GET → entry_inv true s →
  let s' := (capture_get_template s r l (λ i, arg_u64 ctx i l) st).1 in side_facts s' ∧ os_phase s' = 2.
Proof.
  intros Ew Ea Hs. destruct Hs as [Hi Hl Hp Hin Hde Hq Hg].
  assert (Hfacts : ∀ s', get_ready s' → (∃ base stop slots f n, s' = put_get base stop slots f n s) → side_facts s' ∧ os_phase s' = 2).
  { intros s' Hr (base & stop & slots & f & n & ->). split; [|done]. split; try done; [by apply Hin|].
    exists zero_attrs, zero_attrs. split; [done|]. rewrite Ew. pose proof zero_list_ok.
    split; split; first [by apply list_ok_attrs | by apply list_ok_widths]. }
  unfold capture_get_template. cbv zeta. destruct (_ || _).
  { apply Hfacts; [by apply Hg|]. exists (os_get_template_base s), (os_inspected_header_end s), (os_slots s), (os_flags s), (os_get_inspected s).
    by destruct s. }
  rewrite rm_bind_eq. destruct (arg_u64 ctx _ l st) as [ptr st1]. rewrite rm_bind_eq.
  pose proof (arg_answer (nth 1 (row_template_args r) ARG_NONE) st1) as Ha.
  destruct (arg_u64 ctx _ l st1) as [count st2]. cbn [fst] in Ha.
  assert (Hfail : let s' := ((' (_, s) ← capture_get_entry_into 0 0 l s;
    mret (or_side_flags (object_flag.ARG_READ_FAILURE |' GET_ENTRY_UNINSPECTED) s)) st2).1 in side_facts s' ∧ os_phase s' = 2).
  { rewrite rm_bind_eq. destruct (get_entry_ready 0 0 l s st2) as [(Hr1 & Hr2 & _) (base & stop & slots & f & n & E)]; [done|].
    destruct (capture_get_entry_into 0 0 l s st2) as [[v s'] st3]. cbn [fst snd] in *. apply Hfacts.
    - split; [done|]. split; [done|]. left. cbn. rewrite !Z.land_lor_distr_l. intros E0.
      apply Z.lor_eq_0_iff in E0 as [_ E0]. by apply Z.lor_eq_0_iff in E0 as [_ E0].
    - subst s'. by do 5 eexists. }
  destruct ptr as [ptr|]; [|done]. destruct count as [count|]; [|done]. rewrite rm_bind_eq.
  specialize (Ha count eq_refl). destruct (get_entry_ready ptr count l s st2) as [Hr He]; [unfold in_width in Ha; lia|].
  destruct (capture_get_entry_into ptr count l s st2) as [[v s'] st3]. by apply Hfacts.
Qed.

Definition lists_good (ls : list ObjectAttributeListWire) : Prop :=
  ∃ q0 q1, ls = [q0; q1] ∧ (attrs_ok q0 ∧ attrs_widths q0) ∧ (attrs_ok q1 ∧ attrs_widths q1).

Lemma fetch_pair_count present a b (st : St) ptr count :
  (fetch_pair (λ i, arg_u64 ctx i l) present a b st).1 = Some (ptr, count) → 0 <= count.
Proof.
  unfold fetch_pair. destruct present; [|done]. run_bind p st1. rewrite rm_bind_eq.
  pose proof (arg_answer b st1) as Ha. destruct (arg_u64 ctx b l st1) as [c st2]. cbn [fst mret rm_ret] in *.
  destruct p, c; intros E; try done. injection E as <- <-. specialize (Ha _ eq_refl). unfold in_width in Ha. lia.
Qed.

Lemma inspect_pair_ok pair peer p acc (st : St) :
  (p < 2)%nat → (∀ ptr count, pair = Some (ptr, count) → 0 <= count) →
  lists_good acc.1 ∧ low_flags acc.2 →
  lists_good (inspect_pair pair peer l p acc st).1.1 ∧ low_flags (inspect_pair pair peer l p acc st).1.2.
Proof.
  intros Hp Hc [(q0 & q1 & Eq & Hq0 & Hq1) Hf]. unfold inspect_pair.
  destruct pair as [[ptr count]|]; [|split; [by exists q0, q1|done]]. rewrite rm_bind_eq.
  pose proof (request_list_ok ptr count peer l st (Hc _ _ eq_refl)) as Hl.
  destruct (inspect_request_template_into ptr count peer l st) as [[out c] st']. destruct Hl as [Hl Hlow].
  cbn [fst snd mret rm_ret]. split; [|by apply low_flags_lor]. rewrite Eq. pose proof (list_ok_attrs _ Hl). pose proof (list_ok_widths _ Hl).
  destruct p as [|[|p]]; [by exists out, q1|by exists q0, out|lia].
Qed.

Lemma mark_pairs_good b0 b1 s : os_requested s = [zero_attrs; zero_attrs] → lists_good (os_requested (mark_pairs b0 b1 s)).
Proof.
  intros E. unfold mark_pairs. cbn [put_requested os_requested]. rewrite E. pose proof marked_list_ok.
  pose proof (list_ok_attrs _ zero_list_ok). pose proof (list_ok_widths _ zero_list_ok).
  destruct b0, b1; do 2 eexists; (split; [reflexivity|]); done.
Qed.

Lemma request_pairs_ok s (st : St) :
  wired = true → row_action r ≠ OBJECT_ACTION_GET → entry_inv true s →
  let s' := (capture_request_pairs s r l (λ i, arg_u64 ctx i l) st).1 in side_facts s' ∧ os_phase s' = 2.
Proof.
  intros Ew Ea Hs. destruct Hs as [Hi Hl Hp Hin Hde Hq _].
  assert (Hfacts : ∀ ls f, lists_good ls → side_facts (or_side_flags f (put_requested ls s)) ∧
    side_facts (put_requested ls s)).
  { intros ls f Hls. split; split; try done; [by apply Hin|by rewrite Ew|by apply Hin|by rewrite Ew]. }
  unfold capture_request_pairs. cbv zeta. set (b0 := negb _ && negb _). set (b1 := negb (_ =? ARG_NONE) && negb _).
  pose proof (mark_pairs_good b0 b1 s Hq) as Hm.
  destruct (_ && (os_derive s =? _)); [by split; [apply Hfacts|]|].
  rewrite rm_bind_eq. pose proof (fetch_pair_count b0 (nth 0 (row_template_args r) ARG_NONE) (nth 1 (row_template_args r) ARG_NONE) st) as H0.
  destruct (fetch_pair _ b0 _ _ st) as [pair0 st1].
  rewrite rm_bind_eq. pose proof (fetch_pair_count b1 (nth 2 (row_template_args r) ARG_NONE) (nth 3 (row_template_args r) ARG_NONE) st1) as H1.
  destruct (fetch_pair _ b1 _ _ st1) as [pair1 st2]. cbn [fst] in H0, H1.
  destruct (_ || _); [by split; [apply Hfacts|]|]. rewrite rm_bind_eq.
  assert (Hz : lists_good (os_requested s) ∧ low_flags 0).
  { rewrite Hq. split; [|done]. pose proof (list_ok_attrs _ zero_list_ok). pose proof (list_ok_widths _ zero_list_ok).
    by exists zero_attrs, zero_attrs. }
  pose proof (inspect_pair_ok pair0 pair1 0 (os_requested s, 0) st2 ltac:(lia) H0 Hz) as Hacc.
  destruct (inspect_pair pair0 pair1 l 0 _ st2) as [acc st3]. rewrite rm_bind_eq.
  pose proof (inspect_pair_ok pair1 pair0 1 acc st3 ltac:(lia) H1 Hacc) as [Hls _].
  destruct (inspect_pair pair1 pair0 l 1 acc st3) as [[ls c] st4]. by split; [apply Hfacts|].
Qed.

Lemma attributes_entry_ok :
  step_ok (λ side, object_entry_attributes wired rows ctx side l) (entry_inv true) (λ s, side_facts s ∧ os_phase s = 2).
Proof.
  split; [|done]. intros s st s' Hs. unfold object_entry_attributes, adapter_attributes_entry.
  rewrite (inv_row _ _ Hs), (ei_index _ _ Hs), (shape_not_refused r d Hshape Hd Hfun).
  destruct (negb wired) eqn:Ew; [apply negb_true_iff in Ew|apply negb_false_iff in Ew].
  { intros [= <-]. destruct Hs as [? ? ? Hin ? ? ?]. split; [|done].
    split; try done; [by apply Hin|exists zero_attrs, zero_attrs; by rewrite Ew]. }
  rewrite rm_bind_eq. destruct (Z.eqb_spec (row_action r) OBJECT_ACTION_GET) as [E|E].
  - pose proof (get_template_ok s st Ew E Hs) as Hg. destruct (capture_get_template s r l _ st) as [s1 st1]. by intros [= <-].
  - pose proof (request_pairs_ok s st Ew E Hs) as Hg. destruct (capture_request_pairs s r l _ st) as [s1 st1]. by intros [= <-].
Qed.

(** The row the whole entry chain leaves is ready for its return. *)
Lemma run_entry_ready custody entry_capture null_cancel action image entry_ns (st : St) s :
  (run_entry wired rows custody ctx l entry_capture null_cancel d (object_side_alloc d action image entry_ns) st).1 = Some s →
  side_facts s ∧ os_phase s = 2.
Proof.
  unfold run_entry. set (s0 := object_side_alloc _ _ _ _).
  assert (H0 : on_row (λ s, ∃ action image entry_ns, s = object_side_alloc d action image entry_ns) (Some s0))
    by (intros x [= <-]; by do 3 eexists).
  pose proof (entry_step_ok (custody 0%nat) _ _ _ _ st record_abi_ok H0) as H1. run_bind a1 st1. cbn [fst] in H1.
  pose proof (entry_step_ok (custody 1%nat) _ _ _ _ st1 (fill_entry_ok null_cancel) H1) as H2. run_bind a2 st2. cbn [fst] in H2.
  pose proof (entry_step_ok (custody 2%nat) _ _ _ _ st2 (derive_entry_ok _) H2) as H3. run_bind a3 st3. cbn [fst] in H3.
  pose proof (entry_step_ok (custody 3%nat) _ _ _ _ st3 (results_entry_ok _) H3) as H4. run_bind a4 st4. cbn [fst] in H4.
  pose proof (entry_step_ok (custody 4%nat) _ _ _ _ st4 (kem_entry_ok entry_capture null_cancel) H4) as H5. run_bind a5 st5. cbn [fst] in H5.
  pose proof (entry_step_ok (custody 5%nat) _ _ _ _ st5 (find_entry_ok _) H5) as H6. run_bind a6 st6. cbn [fst] in H6.
  pose proof (entry_step_ok (custody 6%nat) _ _ _ _ st6 attributes_entry_ok H6) as H7. apply H7.
Qed.

End Row.

End Emission.

(** ** From entry to record *)

(** A cookie the program marks as an object call names a canonical row. *)
Lemma marked_row `{FunctionNames} rows cookie d :
  verify_object_descriptors rows = true → object_marker_for rows cookie = d + 1 → 0 <= d →
  1 <= d < MAX_DESCRIPTORS ∧ is_Some (object_descriptor (d - 1)) ∧
  get_row rows d = Some (canonical_object_wire (d - 1)) ∧
  row_shape (canonical_object_wire (d - 1)) ∧ row_function (canonical_object_wire (d - 1)) = d - 1.
Proof.
  intros Hv Hm Hd. unfold object_marker_for in Hm. set (k := Cookie.cookie_descriptor cookie) in *.
  assert (Hk : 0 <= k) by (apply wrap_width; lia).
  destruct (Z.eqb_spec k 0); [cbn in Hm; lia|]. destruct (Z.leb_spec MAX_DESCRIPTORS k); [cbn in Hm; lia|]. cbn [orb] in Hm.
  assert (Hg : get_row rows k = Some (row rows k)).
  { unfold get_row. rewrite (proj2 (Z.leb_le 0 k)), (proj2 (Z.ltb_lt k _)) by lia. done. }
  rewrite Hg in Hm. destruct (row_refused k (row rows k)) eqn:Er; [lia|]. assert (k = d) as -> by lia.
  rewrite (verified_rows rows d Hv) in * by lia. assert (Ho : is_Some (object_descriptor (d - 1))).
  { destruct (object_descriptor (d - 1)) eqn:Eo; [done|]. rewrite (canonical_none _ Eo) in Er. unfold row_refused in Er.
    cbn in Er. by rewrite !orb_true_r in Er. }
  split_and!; try done; try lia; [by apply canonical_shape|]. destruct Ho as [x Ho]. apply (canonical_some _ x Ho).
Qed.

(** ** Settlement *)

Definition is_remove (e : ReturnEffect) : bool := match e with Remove => true | _ => false end.
Definition is_reserve (e : ReturnEffect) : bool := match e with Reserve => true | _ => false end.
Definition is_fault (e : ReturnEffect) : bool := match e with Fault => true | _ => false end.
Definition is_bump (e : ReturnEffect) : bool := match e with Bump _ => true | _ => false end.
Definition settles (e : ReturnEffect) : bool := match e with Discard | Submit _ => true | _ => false end.

Definition effects_count (p : ReturnEffect → bool) (es : list ReturnEffect) : nat := length (List.filter p es).

(** Every list of effects a returning object call can have. *)
Definition settled_effects (removed aggregate : bool) (es : list ReturnEffect) : Prop :=
  effects_count is_remove es = 1%nat ∧ effects_count is_reserve es = effects_count settles es ∧
  (removed = false → existsb is_fault es = true) ∧
  ((∃ w, es = [Account; Reserve; Remove; Submit w] ∧ removed = true ∧ aggregate = false) ∨
   (∀ w, Submit w ∉ es) ∧ (aggregate = false → existsb is_bump es = true)).

Lemma refused_settled removed aggregate es :
  effects_count is_remove es = 1%nat → effects_count is_reserve es = effects_count settles es →
  List.existsb (λ e, match e with Submit _ => true | _ => false end) es = false →
  (removed = false → existsb is_fault es = true) → (aggregate = false → existsb is_bump es = true) →
  settled_effects removed aggregate es ∧ ∀ w, Submit w ∉ es.
Proof.
  intros H1 H2 H3 H4 H5. assert (Hn : ∀ w, Submit w ∉ es).
  { intros w Hw. apply list_elem_of_In in Hw. assert (existsb (λ e, match e with Submit _ => true | _ => false end) es = true); [|congruence].
    apply existsb_exists. by exists (Submit w). }
  split; [split_and!; auto|done].
Qed.

Ltac settle_refused := apply refused_settled; done.

Lemma return_effects {St} `{TargetReader St} `{TargetWidth} wired rows env l d s (st : St) :
  let es := (object_return_ordinary wired rows env l d s st).1 in
  settled_effects (re_removed env) (re_aggregate env) es ∧
  ((∀ w, Submit w ∉ es) ∨ ∃ w, es = [Account; Reserve; Remove; Submit w] ∧
    (os_layout s = 0 ∨ os_layout s = layout_code l) ∧
    (run_emission wired rows (λ k, re_custody env (k + 2)%nat) l (re_rv env) (re_mech_status env) (re_mech env) true d s st).1
      = (true, Some w)).
Proof.
  assert (Hor : ∀ removed aggregate es (P : Prop), settled_effects removed aggregate es ∧ (∀ w, Submit w ∉ es) →
    settled_effects removed aggregate es ∧ ((∀ w, Submit w ∉ es) ∨ P)) by (intros ? ? ? ? []; auto).
  unfold object_return_ordinary. cbv zeta.
  destruct (p11_object_side_get _ s d true); [|apply Hor; settle_refused].
  destruct (p11_object_side_get (re_custody env 1%nat) s d false) as [q|] eqn:Eq; [|apply Hor; settle_refused].
  unfold p11_object_side_get in Eq. destruct (_ && _) in Eq; [|done]. injection Eq as <-.
  destruct (_ && _) eqn:Ea; cbn [negb]; [|apply Hor; settle_refused].
  apply andb_true_iff in Ea as [_ Ea]. rewrite orb_true_iff, !Z.eqb_eq in Ea.
  destruct (re_aggregate env); [destruct (re_removed env); apply Hor; settle_refused|].
  destruct (negb _); [apply Hor; settle_refused|]. destruct (negb (re_reserved env)); [destruct (re_removed env), (re_birth_marker env); apply Hor; settle_refused|].
  destruct (stamp_joinable _ _); cbn [negb].
  2:{ destruct (re_removed env), (re_output env); apply Hor; settle_refused. }
  rewrite rm_bind_eq. destruct (run_emission _ _ _ _ _ _ _ _ _ _ st) as [[emitted tail] st'].
  unfold emission_finalize. destruct emitted, (re_removed env), tail as [w|]; try (apply Hor; settle_refused).
  cbn [negb orb fst]. split; [|right; by exists w]. split_and!; try done. left. by exists w.
Qed.

(** C3: A returning object call is settled exactly once.  Whatever the helpers
    and the target answer, the return program removes the call's start exactly
    once and settles a reservation exactly once; a failed removal faults; a
    call that submits no object record outside aggregate mode leaves an
    evidence count; and a record is submitted only after a successful removal,
    without fault, at the layout of the entry, and is one the consumer's
    validator accepts. *)
Theorem object_return_settles {St} `{R : TargetReader St} {Rok : TargetReaderOk St R}
    `{W : TargetWidth} {Wok : TargetWidthOk W} `{FunctionNames}
    wired rows cookie d l return_layout ctx custody entry_capture null_cancel action image entry_ns env (st st' : St) s :
  verify_object_descriptors rows = true → object_marker_for rows cookie = d + 1 → 0 <= d →
  (∀ i w, ctx_arg ctx i = Some w → is_u64 w) →
  (run_entry wired rows custody ctx l entry_capture null_cancel d
     (object_side_alloc d action image entry_ns) st).1 = Some s →
  let es := (object_return_ordinary wired rows env return_layout d s st').1 in
  settled_effects (re_removed env) (re_aggregate env) es ∧
  ∀ w base, Submit w ∈ es → Z.of_nat (length base) = EVENT_RECORD_BYTES →
    return_layout = l ∧ object_record_form (base ++ call_bytes w) rows = Some Object.
Proof.
  intros Hv Hm Hd0 Hctx He es. destruct (return_effects wired rows env return_layout d s st') as [Hset Hsub]. fold es in Hset, Hsub.
  split; [done|]. intros w base Hw Hb. destruct Hsub as [Hn|(w' & Ees & Hl & Hem)]; [by destruct (Hn w)|].
  assert (w' = w) as -> by (rewrite Ees in Hw; set_solver).
  destruct (marked_row rows cookie d Hv Hm Hd0) as (Hd & Ho & Hrow & Hshape & Hf).
  destruct (run_entry_ready wired _ d l Hshape Hd Hf ctx Hctx rows Hrow _ _ _ _ _ _ _ _ He) as [Hs Hp].
  assert (return_layout = l) as ->.
  { rewrite (sf_layout _ _ _ _ _ Hs) in Hl. destruct Hl as [Hl|Hl]; by destruct l, return_layout. }
  split; [done|]. pose proof (emission_custody wired d l _ _ _ _ _ _ _ _ Hem) as Hc.
  destruct (emission_ready wired _ d l Hshape Hd Hf rows _ s (re_rv env) (re_mech_status env) (re_mech env) st' Hrow Hc Hs Hp)
    as (x & st2 & E & Hx).
  rewrite E in Hem. injection Hem as ->. destruct (tail_good_ok _ d l w Hshape Hd Hf Hx) as [Hww Hok].
  apply record_form_contract; [done..|]. destruct (tg_head _ _ _ _ Hx) as (_ & _ & -> & _). done.
Qed.

(** C2: The object producer refines the wire contract.  For a verified
    descriptor table and a cookie marked as an object call, the row the entry
    chain leaves is one from which the return program, given its custody,
    always emits a tail, and the record formed with any event base is one the
    consumer's byte-level validator accepts, whatever the registers, the
    target's memory and its changes between the probes answered, for both
    layouts and for both builds of the attribute and KEM capture. *)
Theorem emitted_record_accepted {St} `{R : TargetReader St} {Rok : TargetReaderOk St R}
    `{W : TargetWidth} {Wok : TargetWidthOk W} `{FunctionNames}
    wired rows cookie d l ctx entry_custody custody entry_capture null_cancel action image entry_ns
    rv mech_status mech (st st' : St) s base :
  verify_object_descriptors rows = true → object_marker_for rows cookie = d + 1 → 0 <= d →
  (∀ i w, ctx_arg ctx i = Some w → is_u64 w) → (∀ k, (k < 4)%nat → custody k = true) →
  (run_entry wired rows entry_custody ctx l entry_capture null_cancel d
     (object_side_alloc d action image entry_ns) st).1 = Some s →
  Z.of_nat (length base) = EVENT_RECORD_BYTES →
  ∃ w, (run_emission wired rows custody l rv mech_status mech true d s st').1 = (true, Some w) ∧
    object_record_form (base ++ call_bytes w) rows = Some Object.
Proof.
  intros Hv Hm Hd0 Hctx Hc He Hb. destruct (marked_row rows cookie d Hv Hm Hd0) as (Hd & Ho & Hrow & Hshape & Hf).
  set (r := canonical_object_wire (d - 1)) in *.
  destruct (run_entry_ready wired r d l Hshape Hd Hf ctx Hctx rows Hrow entry_custody entry_capture null_cancel
    action image entry_ns st s He) as [Hs Hp].
  destruct (emission_ready wired r d l Hshape Hd Hf rows custody s rv mech_status mech st' Hrow Hc Hs Hp)
    as (w & st2 & E & Hw).
  exists w. rewrite E. split; [done|]. destruct (tail_good_ok r d l w Hshape Hd Hf Hw) as [Hww Hok].
  apply record_form_contract; [done..|]. destruct (tg_head _ _ _ _ Hw) as (_ & _ & -> & _). done.
Qed.

(** A probe of that Find. *)
Definition find_probe : ProbeContext :=
  mkProbe (λ i, if i =? 1 then Some 0x1000 else if i =? 2 then Some 4 else if i =? 3 then Some 0x2000 else Some 5) 0x7000.

Lemma emitted_record_accepted_witness :
  let rows := @publish_object_descriptors two_names in
  let s := default (object_side_alloc 30 0 (Build_ImageIdentity 1 1) 0)
    (@run_entry unit (memory find_memory (λ _ _, None)) linux_widths true rows (λ _, true) find_probe Lp64 0 false 30
       (object_side_alloc 30 10 (Build_ImageIdentity 1 1) 5) tt).1 in
  ∃ w, (@run_emission unit (memory find_memory (λ _ _, None)) linux_widths true rows (λ _, true) Lp64 0 0 0 true 30 s tt).1
         = (true, Some w) ∧ object_record_form (replicate 368 0 ++ call_bytes w) rows = Some Object.
Proof.
  intros rows s. assert (TargetWidthOk linux_widths) as Hw by (by split).
  apply (@emitted_record_accepted unit (memory find_memory (λ _ _, None)) find_memory_ok linux_widths Hw two_names
    true rows (Cookie.attach_cookie 0 30) 30 Lp64 find_probe (λ _, true) (λ _, true) 0 false 10 (Build_ImageIdentity 1 1) 5 0 0 0 tt tt s
    (replicate 368 0)); [vm_compute; reflexivity| |lia| |done| |reflexivity].
  - vm_compute. reflexivity.
  - intros i w. cbn. zif; intros [= <-]; by vm_compute.
  - vm_compute. reflexivity.
Defined.

(** The same call returning with every helper answering. *)
Definition find_return : ReturnEnv :=
  mkReturnEnv (λ _, true) false (Some (Build_ImageIdentity 1 1)) (Build_ImageIdentity 1 1) true
    (mkStamp 1 1 0 1 (1 << 15)) (mkStamp 1 1 0 1 (1 << 15)) true true 0 0 0 true.

Lemma object_return_settles_witness :
  let rows := @publish_object_descriptors two_names in
  let s := default (object_side_alloc 30 0 (Build_ImageIdentity 1 1) 0)
    (@run_entry unit (memory find_memory (λ _ _, None)) linux_widths true rows (λ _, true) find_probe Lp64 0 false 30
       (object_side_alloc 30 10 (Build_ImageIdentity 1 1) 5) tt).1 in
  let es := (@object_return_ordinary unit (memory find_memory (λ _ _, None)) linux_widths true rows find_return Lp64 30 s tt).1 in
  length es = 4%nat ∧ settled_effects true false es.
Proof.
  intros rows s es. split; [vm_compute; reflexivity|]. assert (TargetWidthOk linux_widths) as Hw by (by split).
  apply (@object_return_settles unit (memory find_memory (λ _ _, None)) find_memory_ok linux_widths Hw two_names
    true rows (Cookie.attach_cookie 0 30) 30 Lp64 Lp64 find_probe (λ _, true) 0 false 10 (Build_ImageIdentity 1 1) 5
    find_return tt tt s); [vm_compute; reflexivity| |lia| |].
  - vm_compute. reflexivity.
  - intros i w. cbn. zif; intros [= <-]; by vm_compute.
  - vm_compute. reflexivity.
Defined.
