(* ===== verification/Semantics.v ===== *)
(** * The semantic state machine

    [src/semantics.rs], the reducer that turns completed events into sessions,
    operations, mechanisms and evidence, with the parts of [src/plan.rs],
    [src/attach.rs] and [crates/ebpf-common/src/lib.rs] it reads.  Its maps are
    finite maps; where the iteration order of a [BTreeMap] is visible the keys are
    listed in their order ([in_order]).  A process key is its identity
    ([ProcessKey_identity]), the equality of the source.  The return codes of the
    [pkcs11-types] crate ([RvCodes]) and the function catalog ([FunctionIds])
    are parameters. *)
From stdpp Require Import sorting.
From S2P Require Import Prelude Counters ObjectPolicy.

(** ** Key order *)

Fixpoint lex_le (a b : list Z) : bool :=
  match a, b with
  | [], _ => true
  | _ :: _, [] => false
  | x :: a, y :: b => (x <? y) || ((x =? y) && lex_le a b)
  end.

Definition key_le {A} (f : A → list Z) (x y : A) : Prop := lex_le (f x) (f y) = true.

#[export] Instance key_le_dec {A} (f : A → list Z) : RelDecision (key_le f).
Proof. intros x y. unfold key_le. apply _. Defined.

(** The elements of [l] by ascending key. *)
Definition in_order {A} (f : A → list Z) (l : list A) : list A := merge_sort (key_le f) l.

(** The first element of least key. *)
Definition least {A} (f : A → list Z) (l : list A) : option A := head (in_order f l).

Lemma in_order_perm {A} (f : A → list Z) l : in_order f l ≡ₚ l.
Proof. apply merge_sort_Permutation. Qed.

Lemma least_elem {A} (f : A → list Z) l x : least f l = Some x → x ∈ l.
Proof.
  unfold least. intros Hx. rewrite <- (in_order_perm f l).
  destruct (in_order f l); [done|]. cbn in Hx. simplify_eq. apply list_elem_of_here.
Qed.

Lemma least_None {A} (f : A → list Z) l : least f l = None → l = [].
Proof.
  unfold least. intros Hx. destruct (in_order f l) eqn:E; [|done].
  apply Permutation_nil_r. by rewrite <- E, in_order_perm.
Qed.

(** ** Return codes and wire codes *)

Class RvCodes := {
  rv_PENDING : Z;
  rv_BUFFER_TOO_SMALL : Z;
  rv_OPERATION_NOT_INITIALIZED : Z;
  rv_CRYPTOKI_NOT_INITIALIZED : Z;
  rv_PIN_LOCKED : Z;
  rv_OPERATION_CANCEL_FAILED : Z;
}.

(** [CkRv::OK]. *)
Definition rv_OK : Z := 0.

Class FunctionIds := function_id : string → option Z.

Definition SESSION_NONE : Z := U64_MAX.
Definition USER_TYPE_NONE : Z := U32_MAX.
Definition FUNCTION_NONE : Z := U32_MAX.
Definition LATENCY_BUCKETS : nat := 32.
Definition MAX_PENDING : Z := 16384.
Definition MAX_STATE_KEYS : Z := 16384.
Definition MODULE_UNRESOLVED : Z := U32_MAX.

Module operation.
Definition DIGEST : Z := 1 << 0.
Definition SIGN : Z := 1 << 1.
Definition VERIFY : Z := 1 << 2.
Definition ENCRYPT : Z := 1 << 3.
Definition DECRYPT : Z := 1 << 4.
Definition SIGN_RECOVER : Z := 1 << 5.
Definition VERIFY_RECOVER : Z := 1 << 6.
Definition MESSAGE_ENCRYPT : Z := 1 << 7.
Definition MESSAGE_DECRYPT : Z := 1 << 8.
Definition MESSAGE_SIGN : Z := 1 << 9.
Definition MESSAGE_VERIFY : Z := 1 << 10.
End operation.

Module transition.
Definition NONE : Z := 0.
Definition INITIALIZE : Z := 1.
Definition CONTINUE : Z := 2.
Definition UPDATE_WITH_OUTPUT : Z := 3.
Definition FINISH_WITH_OUTPUT : Z := 4.
Definition FINISH_ALWAYS : Z := 5.
Definition RETAIN_ALWAYS : Z := 6.
Definition FINISH_ON_SUCCESS : Z := 7.
End transition.

Module lifecycle.
Definition NONE : Z := 0.
Definition OPEN_SESSION : Z := 1.
Definition CLOSE_SESSION : Z := 2.
Definition CLOSE_ALL_SESSIONS : Z := 3.
Definition FINALIZE : Z := 4.
Definition LOGIN : Z := 5.
Definition LOGOUT : Z := 6.
Definition FIND_INIT : Z := 7.
Definition FIND_FINAL : Z := 8.
Definition SESSION_CANCEL : Z := 9.
Definition SET_OPERATION_STATE : Z := 10.
Definition ASYNC_COMPLETE : Z := 11.
Definition ASYNC_GET_ID : Z := 12.
Definition ASYNC_JOIN : Z := 13.
Definition FIND_OPERATION : Z := 14.
End lifecycle.

Module direct.
Definition NONE : Z := 0.
Definition GENERATE_KEY : Z := 1.
Definition GENERATE_KEY_PAIR : Z := 2.
Definition WRAP : Z := 3.
Definition UNWRAP : Z := 4.
Definition DERIVE : Z := 5.
Definition ENCAPSULATE : Z := 6.
Definition DECAPSULATE : Z := 7.
Definition WRAP_AUTHENTICATED : Z := 8.
Definition UNWRAP_AUTHENTICATED : Z := 9.
End direct.

Module capture.
Definition MECHANISM_MASK : Z := 3.
Definition MECHANISM_NULL : Z := 1.
Definition MECHANISM_UNREADABLE : Z := 2.
Definition MECHANISM_VALUE : Z := 3.
Definition OUTPUT_MASK : Z := 3 << 2.
Definition OUTPUT_NULL : Z := 1 << 2.
Definition ASYNC_SESSION : Z := 1 << 5.
Definition ASYNC_VALUE_UNREADABLE : Z := 1 << 6.
Definition MECHANISM_UNREGISTERED : Z := 1 << 7.
End capture.

Definition NULL_MECHANISM_CANCEL : Z := 1 << 0.
Definition SHAPE_NONE : Z := 0.

Module event_type.
Definition CALL : Z := 0.
Definition FORK : Z := 1.
Definition FORK_INTO_CGROUP : Z := 2.
End event_type.

(** ** Events and plans *)

(** A completed call, without the image identities the reducer does not read. *)
Record Event := mkEvent {
  ev_ts_ns : Z;
  ev_duration_ns : Z;
  ev_pid_tgid : Z;
  ev_cgroup_id : Z;
  ev_session : Z;
  ev_slot_id : Z;
  ev_mechanism : Z;
  ev_flags : Z;
  ev_rv : Z;
  ev_p0 : Z;
  ev_p1 : Z;
  ev_p2 : Z;
  ev_async_value : Z;
  ev_slot : Z;
  ev_target_function : Z;
  ev_user_type : Z;
  ev_shape : Z;
  ev_attr_types : list Z;
  ev_attr_count : Z;
  ev_attr_total : Z;
  ev_attr_bools : Z;
  ev_attr_bools_seen : Z;
  ev_attr_types1 : list Z;
  ev_attr_count1 : Z;
  ev_attr_total1 : Z;
  ev_attr_bools1 : Z;
  ev_attr_bools_seen1 : Z;
  ev_capture : Z;
  ev_event_type : Z;
}.

Record SlotSemantics := mkSemantics {
  operations : Z;
  transition_ : Z;
  lifecycle_ : Z;
  direct_ : Z;
  semantic_flags : Z;
  session_arg : Z;
  slot_arg : Z;
  mechanism_arg : Z;
  output_arg : Z;
  flags_arg : Z;
  user_type_arg : Z;
  template0_arg : Z;
  template_count0_arg : Z;
  template1_arg : Z;
  template_count1_arg : Z;
  async_name_arg : Z;
  async_value_arg : Z;
}.

#[export] Instance SlotSemantics_eq_dec : EqDecision SlotSemantics.
Proof. solve_decision. Defined.

Definition COUNT_ONLY : SlotSemantics :=
  mkSemantics 0 transition.NONE lifecycle.NONE direct.NONE 0 ARG_NONE ARG_NONE ARG_NONE ARG_NONE
    ARG_NONE ARG_NONE ARG_NONE ARG_NONE ARG_NONE ARG_NONE ARG_NONE ARG_NONE.

Record Slot := mkPlanSlot {
  slot_index : Z;
  descriptor_index : Z;
  slot_object : Z;
  object_path : string;
  file_offset : Z;
  slot_names : list string;
  slot_aliased : bool;
  slot_semantics : SlotSemantics;
  semantic_authorized : bool;
  semantic_ambiguous : bool;
  slot_fork_safe : bool;
  slot_module_ids : list Z;
}.

Inductive AggregateOwner := Unowned | Sole (module : Z) | Ambiguous.

(** The tables of a plan that the reducer reads. *)
Record AttachPlan := mkPlan {
  plan_slots : list Slot;
  aggregate_owners : list AggregateOwner;
}.

Definition module_of_slot (p : AttachPlan) (slot : Z) : option Z :=
  match aggregate_owners p !! Z.to_nat slot with
  | Some (Sole m) => Some m
  | _ => None
  end.

Definition slot_is_module_ambiguous (p : AttachPlan) (slot : Z) : bool :=
  match aggregate_owners p !! Z.to_nat slot with Some Ambiguous => true | _ => false end.

Definition effective_semantics (p : AttachPlan) (slot : Slot) : SlotSemantics :=
  if slot_is_module_ambiguous p (slot_index slot) then COUNT_ONLY else slot_semantics slot.

Inductive CapturePolicy := Allowlisted | UnsafeUnvalidatedMetadata | AggregateOnly | Counter (mode : Policy.CounterMode).

Definition uses_unsafe_decoders (p : CapturePolicy) : bool :=
  match p with UnsafeUnvalidatedMetadata => true | _ => false end.

(** ** Keys and rows *)

Record ProcessKey := mkProcess {
  pk_pid : Z;
  pk_generation : Z;
  pk_domain : Z;
  pk_exec_id : Z;
}.

(** The identity two process keys are compared and ordered by. *)
Definition pkey : Type := Z * Z * Z * Z.

Definition ProcessKey_identity (p : ProcessKey) : pkey :=
  (pk_domain p, pk_generation p, pk_exec_id p, if pk_domain p =? 0 then pk_pid p else 0).

Definition ProcessKey_from_pid (pid : Z) : ProcessKey := mkProcess pid 0 0 0.

(** The domain of an identity. *)
Definition pkey_domain (p : pkey) : Z := p.1.1.1.

Record SessionRef := mkSession {
  session_module : Z;
  session_handle : Z;
}.

#[export] Instance SessionRef_eq_dec : EqDecision SessionRef.
Proof. solve_decision. Defined.
#[export] Instance SessionRef_countable : Countable SessionRef :=
  inj_countable' (λ s, (session_module s, session_handle s)) (λ p, mkSession p.1 p.2)
    (λ s, match s with mkSession _ _ => eq_refl end).

Record SlotMeta := mkMeta {
  meta_names : list string;
  meta_aliased : bool;
  meta_semantics : SlotSemantics;
  meta_function_id : option Z;
  meta_fork_safe : bool;
  meta_module : Z;
  meta_module_ids : list Z;
}.

Definition meta_session (m : SlotMeta) (handle : Z) : SessionRef := mkSession (meta_module m) handle.

Definition scoped (process : pkey) (module : option Z) (owner : pkey) (session : SessionRef) : bool :=
  bool_decide (owner = process)
  && match module with None => true | Some id => session_module session =? id end.

Record SessionInfo := mkInfo {
  info_pseudonym : Z;
  info_slot : Z;
  info_fork_safe : bool;
}.

Record Binding := mkBinding {
  binding_mechanism : Z;
  binding_fork_safe : bool;
  binding_unregistered : bool;
}.

Record Pending := mkPending {
  pending_event : Event;
  pending_meta : SlotMeta;
  started_ns : Z;
  pending_sequence : Z;
}.

Record Detached := mkDetached {
  detached_pending : Pending;
  owner : option (pkey * SessionRef);
  detached_process : pkey;
  collided : bool;
}.

Definition scoped_detached (process : pkey) (module : option Z) (id : Z) (d : Detached) : bool :=
  bool_decide (detached_process d = process) && match module with None => true | Some m => id =? m end.

Record MechStat := mkMech {
  ms_calls : Z;
  ms_errors : Z;
  ms_buckets : list Z;
  ms_total_ns : Z;
  ms_max_ns : Z;
  ms_ops : gset string;
  ms_param_combos : gmap (Z * Z * Z * Z) Z;
  ms_init_no_shape : Z;
  ms_unregistered : bool;
}.

Definition MechStat_default : MechStat := mkMech 0 0 (replicate LATENCY_BUCKETS 0) 0 0 ∅ ∅ 0 false.

Record TemplateStat := mkTemplate {
  ts_names : list string;
  ts_aliased : bool;
  ts_role : option string;
  ts_attr_types : gset Z;
  ts_bools_true : Z;
  ts_bools_false : Z;
  ts_truncated : bool;
}.

Record SessionStats := mkStats {
  st_opened : Z;
  st_inherited : Z;
  st_closed : Z;
  st_async_opened : Z;
  st_peak_concurrent : Z;
}.

#[export] Instance SessionStats_eq_dec : EqDecision SessionStats.
Proof. solve_decision. Defined.

Definition SessionStats_default : SessionStats := mkStats 0 0 0 0 0.

Record MechCallStat := mkMechCall {
  mc_calls : Z;
  mc_errors : Z;
  mc_unregistered : bool;
}.

Record CgroupStat := mkCgroup {
  cg_calls : Z;
  cg_errors : Z;
  cg_mechanisms : gmap Z MechCallStat;
}.

Record SemanticEvidence := mkEvidence {
  state_reconciliations : Z;
  session_cancel_ambiguities : Z;
  session_cancel_unknown_flags : Z;
  operation_state_imports : Z;
  auth_state_ambiguities : Z;
  semantic_capture_failures : Z;
  async_target_failures : Z;
  async_orphans : Z;
  async_duplicates : Z;
  async_evictions : Z;
  fork_state_ambiguities : Z;
  semantic_state_drops : Z;
  semantic_history_drops : Z;
}.

Inductive evidence_cell :=
| At_state_reconciliations
| At_session_cancel_ambiguities
| At_session_cancel_unknown_flags
| At_operation_state_imports
| At_auth_state_ambiguities
| At_semantic_capture_failures
| At_async_target_failures
| At_async_orphans
| At_async_duplicates
| At_async_evictions
| At_fork_state_ambiguities
| At_semantic_state_drops
| At_semantic_history_drops.

#[export] Instance evidence_cell_eq_dec : EqDecision evidence_cell.
Proof. solve_decision. Defined.

(** One saturating addition to an evidence counter. *)
Definition evidence_add (cell : evidence_cell) (n : Z) (e : SemanticEvidence) : SemanticEvidence :=
  let at_ c v := if bool_decide (c = cell) then saturating_add 64 v n else v in
  mkEvidence
    (at_ At_state_reconciliations (state_reconciliations e)) (at_ At_session_cancel_ambiguities
    (session_cancel_ambiguities e)) (at_ At_session_cancel_unknown_flags
    (session_cancel_unknown_flags e)) (at_ At_operation_state_imports (operation_state_imports
    e)) (at_ At_auth_state_ambiguities (auth_state_ambiguities e)) (at_
    At_semantic_capture_failures (semantic_capture_failures e)) (at_ At_async_target_failures
    (async_target_failures e)) (at_ At_async_orphans (async_orphans e)) (at_ At_async_duplicates
    (async_duplicates e)) (at_ At_async_evictions (async_evictions e)) (at_
    At_fork_state_ambiguities (fork_state_ambiguities e)) (at_ At_semantic_state_drops
    (semantic_state_drops e)) (at_ At_semantic_history_drops (semantic_history_drops e)).


(** The keys of pending calls and of async ids. *)
Notation pending_key := (pkey * SessionRef * Z)%type.
Notation detached_key := (Z * Z * Z * Z * Z)%type.

Record State := mkState {
  policy : CapturePolicy;
  slots : list (option SlotMeta);
  reduced_histories : gmap pkey ProcessKey;
  next_pseudonym : gmap pkey Z;
  open : gmap (pkey * SessionRef) SessionInfo;
  active_ops : gmap (pkey * SessionRef * Z) Binding;
  find_active : gset (pkey * SessionRef);
  inherited_ambiguous : gset (pkey * SessionRef);
  pending : gmap (pkey * SessionRef * Z) Pending;
  detached : gmap (Z * Z * Z * Z * Z) Detached;
  sequence : Z;
  mechanisms : gmap Z MechStat;
  templates : gmap (Z * Z) TemplateStat;
  logins : gmap Z Z;
  sessions : SessionStats;
  cgroups : gmap Z CgroupStat;
  orphan_ops : Z;
  unmatched_closes : Z;
  evidence : SemanticEvidence;
  mech_shapes : gmap Z Z;
  state_key_limit : Z;
  state_keys : Z;
  events_domain : option Z;
}.

(** Field updates. *)

Definition set_slots (g : list (option SlotMeta) → list (option SlotMeta)) (s : State) : State :=
  mkState
    (policy s) (g (slots s)) (reduced_histories s) (next_pseudonym s) (open s) (active_ops s)
    (find_active s) (inherited_ambiguous s) (pending s) (detached s) (sequence s) (mechanisms s)
    (templates s) (logins s) (sessions s) (cgroups s) (orphan_ops s) (unmatched_closes s)
    (evidence s) (mech_shapes s) (state_key_limit s) (state_keys s) (events_domain s).

Definition set_reduced_histories (g : gmap pkey ProcessKey → gmap pkey ProcessKey) (s : State) : State :=
  mkState
    (policy s) (slots s) (g (reduced_histories s)) (next_pseudonym s) (open s) (active_ops s)
    (find_active s) (inherited_ambiguous s) (pending s) (detached s) (sequence s) (mechanisms s)
    (templates s) (logins s) (sessions s) (cgroups s) (orphan_ops s) (unmatched_closes s)
    (evidence s) (mech_shapes s) (state_key_limit s) (state_keys s) (events_domain s).

Definition set_next_pseudonym (g : gmap pkey Z → gmap pkey Z) (s : State) : State :=
  mkState
    (policy s) (slots s) (reduced_histories s) (g (next_pseudonym s)) (open s) (active_ops s)
    (find_active s) (inherited_ambiguous s) (pending s) (detached s) (sequence s) (mechanisms s)
    (templates s) (logins s) (sessions s) (cgroups s) (orphan_ops s) (unmatched_closes s)
    (evidence s) (mech_shapes s) (state_key_limit s) (state_keys s) (events_domain s).

Definition set_open (g : gmap (pkey * SessionRef) SessionInfo → gmap (pkey * SessionRef) SessionInfo) (s : State) : State :=
  mkState
    (policy s) (slots s) (reduced_histories s) (next_pseudonym s) (g (open s)) (active_ops s)
    (find_active s) (inherited_ambiguous s) (pending s) (detached s) (sequence s) (mechanisms s)
    (templates s) (logins s) (sessions s) (cgroups s) (orphan_ops s) (unmatched_closes s)
    (evidence s) (mech_shapes s) (state_key_limit s) (state_keys s) (events_domain s).

Definition set_active_ops (g : gmap (pkey * SessionRef * Z) Binding → gmap (pkey * SessionRef * Z) Binding) (s : State) : State :=
  mkState
    (policy s) (slots s) (reduced_histories s) (next_pseudonym s) (open s) (g (active_ops s))
    (find_active s) (inherited_ambiguous s) (pending s) (detached s) (sequence s) (mechanisms s)
    (templates s) (logins s) (sessions s) (cgroups s) (orphan_ops s) (unmatched_closes s)
    (evidence s) (mech_shapes s) (state_key_limit s) (state_keys s) (events_domain s).

Definition set_find_active (g : gset (pkey * SessionRef) → gset (pkey * SessionRef)) (s : State) : State :=
  mkState
    (policy s) (slots s) (reduced_histories s) (next_pseudonym s) (open s) (active_ops s) (g
    (find_active s)) (inherited_ambiguous s) (pending s) (detached s) (sequence s) (mechanisms
    s) (templates s) (logins s) (sessions s) (cgroups s) (orphan_ops s) (unmatched_closes s)
    (evidence s) (mech_shapes s) (state_key_limit s) (state_keys s) (events_domain s).

Definition set_inherited_ambiguous (g : gset (pkey * SessionRef) → gset (pkey * SessionRef)) (s : State) : State :=
  mkState
    (policy s) (slots s) (reduced_histories s) (next_pseudonym s) (open s) (active_ops s)
    (find_active s) (g (inherited_ambiguous s)) (pending s) (detached s) (sequence s)
    (mechanisms s) (templates s) (logins s) (sessions s) (cgroups s) (orphan_ops s)
    (unmatched_closes s) (evidence s) (mech_shapes s) (state_key_limit s) (state_keys s)
    (events_domain s).

Definition set_pending (g : gmap (pkey * SessionRef * Z) Pending → gmap (pkey * SessionRef * Z) Pending) (s : State) : State :=
  mkState
    (policy s) (slots s) (reduced_histories s) (next_pseudonym s) (open s) (active_ops s)
    (find_active s) (inherited_ambiguous s) (g (pending s)) (detached s) (sequence s)
    (mechanisms s) (templates s) (logins s) (sessions s) (cgroups s) (orphan_ops s)
    (unmatched_closes s) (evidence s) (mech_shapes s) (state_key_limit s) (state_keys s)
    (events_domain s).

Definition set_detached (g : gmap (Z * Z * Z * Z * Z) Detached → gmap (Z * Z * Z * Z * Z) Detached) (s : State) : State :=
  mkState
    (policy s) (slots s) (reduced_histories s) (next_pseudonym s) (open s) (active_ops s)
    (find_active s) (inherited_ambiguous s) (pending s) (g (detached s)) (sequence s)
    (mechanisms s) (templates s) (logins s) (sessions s) (cgroups s) (orphan_ops s)
    (unmatched_closes s) (evidence s) (mech_shapes s) (state_key_limit s) (state_keys s)
    (events_domain s).

Definition set_sequence (g : Z → Z) (s : State) : State :=
  mkState
    (policy s) (slots s) (reduced_histories s) (next_pseudonym s) (open s) (active_ops s)
    (find_active s) (inherited_ambiguous s) (pending s) (detached s) (g (sequence s))
    (mechanisms s) (templates s) (logins s) (sessions s) (cgroups s) (orphan_ops s)
    (unmatched_closes s) (evidence s) (mech_shapes s) (state_key_limit s) (state_keys s)
    (events_domain s).

Definition set_mechanisms (g : gmap Z MechStat → gmap Z MechStat) (s : State) : State :=
  mkState
    (policy s) (slots s) (reduced_histories s) (next_pseudonym s) (open s) (active_ops s)
    (find_active s) (inherited_ambiguous s) (pending s) (detached s) (sequence s) (g (mechanisms
    s)) (templates s) (logins s) (sessions s) (cgroups s) (orphan_ops s) (unmatched_closes s)
    (evidence s) (mech_shapes s) (state_key_limit s) (state_keys s) (events_domain s).

Definition set_templates (g : gmap (Z * Z) TemplateStat → gmap (Z * Z) TemplateStat) (s : State) : State :=
  mkState
    (policy s) (slots s) (reduced_histories s) (next_pseudonym s) (open s) (active_ops s)
    (find_active s) (inherited_ambiguous s) (pending s) (detached s) (sequence s) (mechanisms s)
    (g (templates s)) (logins s) (sessions s) (cgroups s) (orphan_ops s) (unmatched_closes s)
    (evidence s) (mech_shapes s) (state_key_limit s) (state_keys s) (events_domain s).

Definition set_logins (g : gmap Z Z → gmap Z Z) (s : State) : State :=
  mkState
    (policy s) (slots s) (reduced_histories s) (next_pseudonym s) (open s) (active_ops s)
    (find_active s) (inherited_ambiguous s) (pending s) (detached s) (sequence s) (mechanisms s)
    (templates s) (g (logins s)) (sessions s) (cgroups s) (orphan_ops s) (unmatched_closes s)
    (evidence s) (mech_shapes s) (state_key_limit s) (state_keys s) (events_domain s).

Definition set_sessions (g : SessionStats → SessionStats) (s : State) : State :=
  mkState
    (policy s) (slots s) (reduced_histories s) (next_pseudonym s) (open s) (active_ops s)
    (find_active s) (inherited_ambiguous s) (pending s) (detached s) (sequence s) (mechanisms s)
    (templates s) (logins s) (g (sessions s)) (cgroups s) (orphan_ops s) (unmatched_closes s)
    (evidence s) (mech_shapes s) (state_key_limit s) (state_keys s) (events_domain s).

Definition set_cgroups (g : gmap Z CgroupStat → gmap Z CgroupStat) (s : State) : State :=
  mkState
    (policy s) (slots s) (reduced_histories s) (next_pseudonym s) (open s) (active_ops s)
    (find_active s) (inherited_ambiguous s) (pending s) (detached s) (sequence s) (mechanisms s)
    (templates s) (logins s) (sessions s) (g (cgroups s)) (orphan_ops s) (unmatched_closes s)
    (evidence s) (mech_shapes s) (state_key_limit s) (state_keys s) (events_domain s).

Definition set_orphan_ops (g : Z → Z) (s : State) : State :=
  mkState
    (policy s) (slots s) (reduced_histories s) (next_pseudonym s) (open s) (active_ops s)
    (find_active s) (inherited_ambiguous s) (pending s) (detached s) (sequence s) (mechanisms s)
    (templates s) (logins s) (sessions s) (cgroups s) (g (orphan_ops s)) (unmatched_closes s)
    (evidence s) (mech_shapes s) (state_key_limit s) (state_keys s) (events_domain s).

Definition set_unmatched_closes (g : Z → Z) (s : State) : State :=
  mkState
    (policy s) (slots s) (reduced_histories s) (next_pseudonym s) (open s) (active_ops s)
    (find_active s) (inherited_ambiguous s) (pending s) (detached s) (sequence s) (mechanisms s)
    (templates s) (logins s) (sessions s) (cgroups s) (orphan_ops s) (g (unmatched_closes s))
    (evidence s) (mech_shapes s) (state_key_limit s) (state_keys s) (events_domain s).

Definition set_evidence (g : SemanticEvidence → SemanticEvidence) (s : State) : State :=
  mkState
    (policy s) (slots s) (reduced_histories s) (next_pseudonym s) (open s) (active_ops s)
    (find_active s) (inherited_ambiguous s) (pending s) (detached s) (sequence s) (mechanisms s)
    (templates s) (logins s) (sessions s) (cgroups s) (orphan_ops s) (unmatched_closes s) (g
    (evidence s)) (mech_shapes s) (state_key_limit s) (state_keys s) (events_domain s).

Definition set_mech_shapes (g : gmap Z Z → gmap Z Z) (s : State) : State :=
  mkState
    (policy s) (slots s) (reduced_histories s) (next_pseudonym s) (open s) (active_ops s)
    (find_active s) (inherited_ambiguous s) (pending s) (detached s) (sequence s) (mechanisms s)
    (templates s) (logins s) (sessions s) (cgroups s) (orphan_ops s) (unmatched_closes s)
    (evidence s) (g (mech_shapes s)) (state_key_limit s) (state_keys s) (events_domain s).

Definition set_state_keys (g : Z → Z) (s : State) : State :=
  mkState
    (policy s) (slots s) (reduced_histories s) (next_pseudonym s) (open s) (active_ops s)
    (find_active s) (inherited_ambiguous s) (pending s) (detached s) (sequence s) (mechanisms s)
    (templates s) (logins s) (sessions s) (cgroups s) (orphan_ops s) (unmatched_closes s)
    (evidence s) (mech_shapes s) (state_key_limit s) (g (state_keys s)) (events_domain s).


(** ** Categories *)

Definition OPERATIONS : list (Z * string) :=
  [(operation.DIGEST, "digest"%string); (operation.SIGN, "sign"%string); (operation.VERIFY, "verify"%string);
   (operation.ENCRYPT, "encrypt"%string); (operation.DECRYPT, "decrypt"%string);
   (operation.SIGN_RECOVER, "sign_recover"%string); (operation.VERIFY_RECOVER, "verify_recover"%string);
   (operation.MESSAGE_ENCRYPT, "message_encrypt"%string); (operation.MESSAGE_DECRYPT, "message_decrypt"%string);
   (operation.MESSAGE_SIGN, "message_sign"%string); (operation.MESSAGE_VERIFY, "message_verify"%string)].

Definition CKF_MESSAGE_ENCRYPT : Z := 0x00000002.
Definition CKF_MESSAGE_DECRYPT : Z := 0x00000004.
Definition CKF_MESSAGE_SIGN : Z := 0x00000008.
Definition CKF_MESSAGE_VERIFY : Z := 0x00000010.
Definition CKF_FIND_OBJECTS : Z := 0x00000040.
Definition CKF_ENCRYPT : Z := 0x00000100.
Definition CKF_DECRYPT : Z := 0x00000200.
Definition CKF_DIGEST : Z := 0x00000400.
Definition CKF_SIGN : Z := 0x00000800.
Definition CKF_SIGN_RECOVER : Z := 0x00001000.
Definition CKF_VERIFY : Z := 0x00002000.
Definition CKF_VERIFY_RECOVER : Z := 0x00004000.
Definition CKF_GENERATE : Z := 0x00008000.
Definition CKF_GENERATE_KEY_PAIR : Z := 0x00010000.
Definition CKF_WRAP : Z := 0x00020000.
Definition CKF_UNWRAP : Z := 0x00040000.
Definition CKF_DERIVE : Z := 0x00080000.
Definition CKF_ENCAPSULATE : Z := 0x10000000.
Definition CKF_DECAPSULATE : Z := 0x20000000.

Definition KNOWN_CANCEL_FLAGS : Z :=
  foldr Z.lor 0 [CKF_MESSAGE_ENCRYPT; CKF_MESSAGE_DECRYPT; CKF_MESSAGE_SIGN; CKF_MESSAGE_VERIFY;
    CKF_FIND_OBJECTS; CKF_ENCRYPT; CKF_DECRYPT; CKF_DIGEST; CKF_SIGN; CKF_SIGN_RECOVER; CKF_VERIFY;
    CKF_VERIFY_RECOVER; CKF_GENERATE; CKF_GENERATE_KEY_PAIR; CKF_WRAP; CKF_UNWRAP; CKF_DERIVE;
    CKF_ENCAPSULATE; CKF_DECAPSULATE].

Definition pid_of (ev : Event) : Z := as_u32 (ev_pid_tgid ev >> 32).

Definition operation_bits (mask : Z) : list (Z * string) :=
  List.filter (λ p, nz (mask &' p.1)) OPERATIONS.

Definition direct_name (value : Z) : option string :=
  if value =? direct.GENERATE_KEY then Some "generate_key"%string
  else if value =? direct.GENERATE_KEY_PAIR then Some "generate_key_pair"%string
  else if value =? direct.WRAP then Some "wrap"%string
  else if value =? direct.UNWRAP then Some "unwrap"%string
  else if value =? direct.DERIVE then Some "derive"%string
  else if value =? direct.ENCAPSULATE then Some "encapsulate"%string
  else if value =? direct.DECAPSULATE then Some "decapsulate"%string
  else if value =? direct.WRAP_AUTHENTICATED then Some "wrap_authenticated"%string
  else if value =? direct.UNWRAP_AUTHENTICATED then Some "unwrap_authenticated"%string
  else None.

Definition direct_cancel_flag (value : Z) : Z :=
  if value =? direct.GENERATE_KEY then CKF_GENERATE
  else if value =? direct.GENERATE_KEY_PAIR then CKF_GENERATE_KEY_PAIR
  else if (value =? direct.WRAP) || (value =? direct.WRAP_AUTHENTICATED) then CKF_WRAP
  else if (value =? direct.UNWRAP) || (value =? direct.UNWRAP_AUTHENTICATED) then CKF_UNWRAP
  else if value =? direct.DERIVE then CKF_DERIVE
  else if value =? direct.ENCAPSULATE then CKF_ENCAPSULATE
  else if value =? direct.DECAPSULATE then CKF_DECAPSULATE
  else 0.

Definition cancel_operation_mask (flags : Z) : Z :=
  foldl (λ mask p, if nz (flags &' p.1) then mask |' p.2 else mask) 0
    [(CKF_MESSAGE_ENCRYPT, operation.MESSAGE_ENCRYPT); (CKF_MESSAGE_DECRYPT, operation.MESSAGE_DECRYPT);
     (CKF_MESSAGE_SIGN, operation.MESSAGE_SIGN); (CKF_MESSAGE_VERIFY, operation.MESSAGE_VERIFY);
     (CKF_ENCRYPT, operation.ENCRYPT); (CKF_DECRYPT, operation.DECRYPT); (CKF_DIGEST, operation.DIGEST);
     (CKF_SIGN, operation.SIGN); (CKF_SIGN_RECOVER, operation.SIGN_RECOVER);
     (CKF_VERIFY, operation.VERIFY); (CKF_VERIFY_RECOVER, operation.VERIFY_RECOVER)].

(** [u64::count_ones]. *)
Definition count_ones (x : Z) : Z := Z.of_nat (length (List.filter (Z.testbit x) (seqZ 0 64))).

Inductive MechanismCapture := Absent | Null | Unreadable | Value (mechanism : Z).

Definition mechanism_capture (ev : Event) : MechanismCapture :=
  let c := ev_capture ev &' capture.MECHANISM_MASK in
  if c =? capture.MECHANISM_NULL then Null
  else if c =? capture.MECHANISM_UNREADABLE then Unreadable
  else if c =? capture.MECHANISM_VALUE then Value (ev_mechanism ev)
  else Absent.

Definition unregistered_bit (ev : Event) : bool := nz (ev_capture ev &' capture.MECHANISM_UNREGISTERED).

Definition bucket_of (ns : Z) : nat :=
  if ns =? 0 then 0%nat
  else
    let idx := Z.to_nat (Z.log2 ns + 1) in
    if (LATENCY_BUCKETS <=? idx)%nat then (LATENCY_BUCKETS - 1)%nat else idx.

Definition record_call (ev : Event) (m : MechStat) : MechStat :=
  mkMech (as_u64 (ms_calls m + 1)) (if nz (ev_rv ev) then as_u64 (ms_errors m + 1) else ms_errors m)
    (alter (λ n, as_u64 (n + 1)) (bucket_of (ev_duration_ns ev)) (ms_buckets m))
    (saturating_add 64 (ms_total_ns m) (ev_duration_ns ev)) (Z.max (ms_max_ns m) (ev_duration_ns ev))
    (ms_ops m) (ms_param_combos m) (ms_init_no_shape m) (ms_unregistered m).

(** ** Plans *)

Section Reducer.
Context {RV : RvCodes} {FI : FunctionIds}.

Definition slot_meta (plan : AttachPlan) (slot : Slot) : SlotMeta :=
  mkMeta (slot_names slot) (slot_aliased slot) (effective_semantics plan slot)
    (match slot_names slot with [name] => function_id name | _ => None end)
    (slot_fork_safe slot) (default MODULE_UNRESOLVED (module_of_slot plan (slot_index slot)))
    (slot_module_ids slot).

(** [resize_with] and the indexed store. *)
Definition put_slot (plan : AttachPlan) (slots : list (option SlotMeta)) (slot : Slot)
    : list (option SlotMeta) :=
  let i := Z.to_nat (slot_index slot) in
  let slots := if (length slots <=? i)%nat then slots ++ replicate (i + 1 - length slots) None else slots in
  <[i := Some (slot_meta plan slot)]> slots.

Definition slot_metadata (plan : AttachPlan) : list (option SlotMeta) :=
  foldl (put_slot plan) [] (plan_slots plan).

Definition slot_semantics_changed (previous : SlotMeta) (next : option SlotMeta) : bool :=
  match next with
  | None => true
  | Some next =>
      let presentation_only := bool_decide (meta_semantics previous = COUNT_ONLY)
                               && bool_decide (meta_semantics next = COUNT_ONLY) in
      negb (bool_decide (meta_semantics previous = meta_semantics next))
      || (negb presentation_only && negb (bool_decide (meta_function_id previous = meta_function_id next)))
      || negb (Bool.eqb (meta_fork_safe previous) (meta_fork_safe next))
      || negb (meta_module previous =? meta_module next)
      || negb (bool_decide (meta_module_ids previous = meta_module_ids next))
  end.

Definition with_key_limit (plan : AttachPlan) (policy : CapturePolicy) (limit : Z)
    (domain : option Z) : State :=
  mkState policy (slot_metadata plan) ∅ ∅ ∅ ∅ ∅ ∅ ∅ ∅ 0 ∅ ∅ ∅ SessionStats_default ∅ 0 0
    (mkEvidence 0 0 0 0 0 0 0 0 0 0 0 0 0) ∅ limit 0 domain.

Definition for_capture (plan : AttachPlan) (policy : CapturePolicy) (domain : Z) : State :=
  with_key_limit plan policy MAX_STATE_KEYS (Some domain).

Definition accepts_domain (s : State) (domain : Z) : bool :=
  match events_domain s with None => true | Some anchor => anchor =? domain end.

Definition bump_evidence (cell : evidence_cell) (s : State) : State :=
  set_evidence (evidence_add cell 1) s.

(** [saturating_add(u64::from(changed))]. *)
Definition note_if (cell : evidence_cell) (changed : bool) (s : State) : State :=
  set_evidence (evidence_add cell (Z.b2z changed)) s.

(** ** The key budget *)

Definition State_admit (new_keys : Z) (s : State) : bool * State :=
  if new_keys =? 0 then (true, s)
  else match checked_add 64 (state_keys s) new_keys with
  | Some total =>
      if total <=? state_key_limit s then (true, set_state_keys (λ _, total) s)
      else (false, bump_evidence At_semantic_state_drops s)
  | None => (false, bump_evidence At_semantic_state_drops s)
  end.

(** [present || admit(1)], the guard of an insertion. *)
Definition admit_unless (present : bool) (s : State) : bool * State :=
  if present then (true, s) else State_admit 1 s.

(** ** Scopes *)

(** Some entry of the map satisfies [P]. *)
Definition map_any {K A} `{Countable K} (P : K → A → bool) (m : gmap K A) : bool :=
  negb (size (filter (λ kv : K * A, P kv.1 kv.2 = true) m) =? 0)%nat.

Definition set_any {K} `{Countable K} (P : K → bool) (m : gset K) : bool :=
  negb (size (filter (λ k, P k = true) m) =? 0)%nat.

(** [retain]: drop the entries that satisfy [P]. *)
Definition map_drop {K A} `{Countable K} (P : K → A → bool) (m : gmap K A) : gmap K A :=
  filter (λ kv : K * A, P kv.1 kv.2 = false) m.

Definition set_drop {K} `{Countable K} (P : K → bool) (m : gset K) : gset K :=
  filter (λ k, P k = false) m.

Definition session_key (x : SessionRef) : list Z := [session_module x; session_handle x].

Definition has_scope_state (process : pkey) (module : option Z) (s : State) : bool :=
  let owned := scoped process module in
  map_any (λ k _, owned k.1 k.2) (open s)
  || map_any (λ k _, owned k.1.1 k.1.2) (active_ops s)
  || set_any (λ k, owned k.1 k.2) (find_active s)
  || map_any (λ k _, owned k.1.1 k.1.2) (pending s)
  || map_any (λ k d, scoped_detached process module k.1.1.1.1 d) (detached s)
  || set_any (λ k, owned k.1 k.2) (inherited_ambiguous s).

Definition clear_operations (process : pkey) (session : SessionRef) (mask : Z) (s : State) : bool * State :=
  let s' := set_active_ops (map_drop (λ k _, bool_decide (k.1 = (process, session)) && nz (mask &' k.2))) s in
  (negb (size (active_ops s') =? size (active_ops s))%nat, s').

(** Withdraw the session as owner of its async ids. *)
Definition disown (process : pkey) (session : SessionRef) (d : Detached) : Detached :=
  if bool_decide (owner d = Some (process, session))
  then mkDetached (detached_pending d) None (detached_process d) (collided d) else d.

Definition clear_session_state (process : pkey) (session : SessionRef) (s : State) : bool * State :=
  let '(c1, s) := clear_operations process session U16_MAX s in
  let c2 := bool_decide ((process, session) ∈ find_active s) in
  let s := set_find_active (λ m, m ∖ {[(process, session)]}) s in
  let c3 := bool_decide ((process, session) ∈ inherited_ambiguous s) in
  let s := set_inherited_ambiguous (λ m, m ∖ {[(process, session)]}) s in
  let n := size (pending s) in
  let s := set_pending (map_drop (λ k _, bool_decide (k.1 = (process, session)))) s in
  let c4 := negb (size (pending s) =? n)%nat in
  let c5 := map_any (λ _ d, bool_decide (owner d = Some (process, session))) (detached s) in
  let s := set_detached (fmap (disown process session)) s in
  (c1 || c2 || c3 || c4 || c5, s).

Definition count_closed (s : State) : State :=
  set_sessions (λ t, mkStats (st_opened t) (st_inherited t) (saturating_add 64 (st_closed t) 1)
                       (st_async_opened t) (st_peak_concurrent t)) s.

Definition retire_session (process : pkey) (session : SessionRef) (s : State) : bool * State :=
  let existed := bool_decide (is_Some (open s !! (process, session))) in
  let s := set_open (delete (process, session)) s in
  let s := (clear_session_state process session s).2 in
  (existed, if existed then count_closed s else s).

(** One session of [clear_scope]'s loop. *)
Definition clear_scope_session (process : pkey) (count : bool) (s : State) (session : SessionRef) : State :=
  let existed := bool_decide (is_Some (open s !! (process, session))) in
  let s := set_open (delete (process, session)) s in
  let s := (clear_session_state process session s).2 in
  if existed && count then count_closed s else s.

(** The open sessions of a scope, by key. *)
Definition open_sessions (P : pkey → SessionRef → SessionInfo → bool) (s : State)
    : list (SessionRef * SessionInfo) :=
  in_order (λ x : SessionRef * SessionInfo, session_key x.1)
    ((λ kv : pkey * SessionRef * SessionInfo, (kv.1.2, kv.2)) <$>
       map_to_list (filter (λ kv : pkey * SessionRef * SessionInfo, P kv.1.1 kv.1.2 kv.2 = true) (open s))).

Definition clear_scope (process : pkey) (module : option Z) (count : bool) (s : State) : Z * State :=
  let had_state := has_scope_state process module s in
  let owned := scoped process module in
  let s := foldl (clear_scope_session process count) s (open_sessions (λ p x _, owned p x) s).*1 in
  let s := set_active_ops (map_drop (λ k _, owned k.1.1 k.1.2)) s in
  let s := set_find_active (set_drop (λ k, owned k.1 k.2)) s in
  let s := set_inherited_ambiguous (set_drop (λ k, owned k.1 k.2)) s in
  let s := set_pending (map_drop (λ k _, owned k.1.1 k.1.2)) s in
  let s := set_detached (map_drop (λ k d, scoped_detached process module k.1.1.1.1 d)) s in
  let s := match module with None => set_next_pseudonym (delete process) s | Some _ => s end in
  (Z.b2z had_state, s).

Definition retire_scope (process : pkey) (module : option Z) (s : State) : Z * State :=
  clear_scope process module true s.

Definition retire_process (process : pkey) (s : State) : Z * State := retire_scope process None s.

Definition update_peak (s : State) : State :=
  set_sessions (λ t, mkStats (st_opened t) (st_inherited t) (st_closed t) (st_async_opened t)
                       (Z.max (st_peak_concurrent t) (Z.of_nat (size (open s))))) s.

(** ** Plan changes *)

Definition slot_of (s : State) (slot : Z) : option SlotMeta :=
  mjoin (slots s !! Z.to_nat slot).

(** The slot lost its semantics to an ambiguity its own module list does not show. *)
Definition hides_ambiguity (plan : AttachPlan) (index : nat) (previous : SlotMeta) (next : option SlotMeta) : bool :=
  negb (bool_decide (meta_semantics previous = COUNT_ONLY))
  && match next with Some next => bool_decide (meta_semantics next = COUNT_ONLY) | None => false end
  && match plan_slots plan !! index with
     | Some slot =>
         nz (descriptor_index slot)
         && negb (bool_decide (slot_semantics slot = COUNT_ONLY))
         && (length (slot_module_ids slot) <? 2)%nat
         && slot_is_module_ambiguous plan (slot_index slot)
     | None => false
     end.

Definition slot_modules (l : list (option SlotMeta)) : list Z :=
  flat_map (λ m : option SlotMeta, from_option meta_module_ids [] m) l.

(** One slot of [sync_plan]'s comparison: the affected modules and the flag. *)
Definition compare_slot (plan : AttachPlan) (next_slots : list (option SlotMeta))
    (acc : gset Z * bool) (entry : nat * option SlotMeta) : gset Z * bool :=
  match entry.2 with
  | None => acc
  | Some previous =>
      let next := mjoin (next_slots !! entry.1) in
      let hidden := acc.2 || hides_ambiguity plan entry.1 previous next in
      if slot_semantics_changed previous next
      then (acc.1 ∪ list_to_set (meta_module_ids previous)
              ∪ list_to_set (from_option meta_module_ids [] next), hidden)
      else (acc.1, hidden)
  end.

(** Every process the reducer holds state of. *)
Definition tracked_processes (s : State) : gset pkey :=
  dom (reduced_histories s) ∪ dom (next_pseudonym s)
  ∪ set_map fst (dom (open s))
  ∪ set_map (λ k : pkey * SessionRef * Z, k.1.1) (dom (active_ops s))
  ∪ set_map fst (find_active s) ∪ set_map fst (inherited_ambiguous s)
  ∪ set_map (λ k : pkey * SessionRef * Z, k.1.1) (dom (pending s))
  ∪ list_to_set ((λ kv, detached_process kv.2) <$> map_to_list (detached s)).

Definition pkey_list (p : pkey) : list Z := [p.1.1.1; p.1.1.2; p.1.2; p.2].

(** The scopes a purge visits, in order. *)
Definition purge_scopes (modules : gset Z) (s : State) : list (pkey * Z) :=
  flat_map (λ p, (λ m, (p, m)) <$> in_order (λ m, [m]) (elements modules))
    (in_order pkey_list (elements (tracked_processes s))).

Definition purge_scope (acc : bool * State) (scope : pkey * Z) : bool * State :=
  let '(cleared, s) := clear_scope scope.1 (Some scope.2) false acc.2 in
  (acc.1 || nz cleared, s).

Definition has_aggregates (s : State) : bool :=
  negb (bool_decide (dom (mechanisms s) = ∅)) || negb (bool_decide (dom (templates s) = ∅))
  || negb (bool_decide (dom (logins s) = ∅)) || negb (bool_decide (dom (cgroups s) = ∅))
  || negb (bool_decide (sessions s = SessionStats_default))
  || nz (orphan_ops s) || nz (unmatched_closes s).

Definition clear_aggregates (s : State) : State :=
  set_unmatched_closes (λ _, 0) (set_orphan_ops (λ _, 0) (set_sessions (λ _, SessionStats_default)
    (set_cgroups (λ _, ∅) (set_logins (λ _, ∅) (set_templates (λ _, ∅) (set_mechanisms (λ _, ∅) s)))))).

Definition purge_modules (modules : gset Z) (s : State) : State :=
  if bool_decide (modules = ∅) then s
  else
    let '(changed, s) := foldl purge_scope (false, s) (purge_scopes modules s) in
    let changed := changed || has_aggregates s in
    note_if At_state_reconciliations changed (clear_aggregates s).

Definition sync_plan (plan : AttachPlan) (s : State) : State :=
  let next_slots := slot_metadata plan in
  let '(affected, hidden) := foldl (compare_slot plan next_slots) (∅, false) (imap pair (slots s)) in
  let affected := if hidden then affected ∪ list_to_set (slot_modules (slots s ++ next_slots)) else affected in
  purge_modules affected (set_slots (λ _, next_slots) s).

(** ** Aggregates *)

Definition is_error_rv (rv : Z) : bool := negb (rv =? rv_OK) && negb (rv =? rv_PENDING).

(** The cgroup row of a call; [bump] is the addition of the caller. *)
Definition count_cgroup (bump : Z → Z) (ev : Event) (s : State) : State :=
  match cgroups s !! ev_cgroup_id ev with
  | None =>
      let '(ok, s) := State_admit 1 s in
      if ok then set_cgroups (insert (ev_cgroup_id ev) (mkCgroup 1 (Z.b2z (is_error_rv (ev_rv ev))) ∅)) s
      else s
  | Some cg =>
      set_cgroups (insert (ev_cgroup_id ev)
        (mkCgroup (bump (cg_calls cg)) (if is_error_rv (ev_rv ev) then bump (cg_errors cg) else cg_errors cg)
           (cg_mechanisms cg))) s
  end.

Definition reject_history (ev : Event) (s : State) : State :=
  let s := bump_evidence At_semantic_history_drops s in
  if ev_event_type ev =? event_type.CALL
  then count_cgroup (λ n, saturating_add 64 n 1) ev s else s.

Definition record_cgroup_mechanism (cgroup_id mechanism rv : Z) (unregistered : bool) (s : State) : State :=
  match cgroups s !! cgroup_id with
  | None => s
  | Some cgroup =>
      let found := cg_mechanisms cgroup !! mechanism in
      let '(ok, s) := admit_unless (bool_decide (is_Some found)) s in
      if ok then
        let stat := default (mkMechCall 0 0 false) found in
        let stat := mkMechCall (as_u64 (mc_calls stat + 1))
                      (if is_error_rv rv then as_u64 (mc_errors stat + 1) else mc_errors stat)
                      (mc_unregistered stat || unregistered) in
        set_cgroups (insert cgroup_id
          (mkCgroup (cg_calls cgroup) (cg_errors cgroup) (<[mechanism := stat]> (cg_mechanisms cgroup)))) s
      else s
  end.

Definition mark_unregistered (u : bool) (m : MechStat) : MechStat :=
  mkMech (ms_calls m) (ms_errors m) (ms_buckets m) (ms_total_ns m) (ms_max_ns m) (ms_ops m)
    (ms_param_combos m) (ms_init_no_shape m) (ms_unregistered m || u).

Definition add_ops (names : list string) (m : MechStat) : MechStat :=
  mkMech (ms_calls m) (ms_errors m) (ms_buckets m) (ms_total_ns m) (ms_max_ns m)
    (ms_ops m ∪ list_to_set names) (ms_param_combos m) (ms_init_no_shape m) (ms_unregistered m).

Definition count_no_shape (m : MechStat) : MechStat :=
  mkMech (ms_calls m) (ms_errors m) (ms_buckets m) (ms_total_ns m) (ms_max_ns m) (ms_ops m)
    (ms_param_combos m) (as_u64 (ms_init_no_shape m + 1)) (ms_unregistered m).

Definition set_combo (combo : Z * Z * Z * Z) (n : Z) (m : MechStat) : MechStat :=
  mkMech (ms_calls m) (ms_errors m) (ms_buckets m) (ms_total_ns m) (ms_max_ns m) (ms_ops m)
    (<[combo := n]> (ms_param_combos m)) (ms_init_no_shape m) (ms_unregistered m).

(** The parameter shape of a requested mechanism. *)
Definition record_shape (mechanism : Z) (ev : Event) (s : State) : State :=
  if uses_unsafe_decoders (policy s) then
    let combo := (ev_shape ev, ev_p0 ev, ev_p1 ev, ev_p2 ev) in
    if ev_shape ev =? SHAPE_NONE then set_mechanisms (alter count_no_shape mechanism) s
    else match mechanisms s !! mechanism ≫= λ m, ms_param_combos m !! combo with
    | Some count => set_mechanisms (alter (set_combo combo (as_u64 (count + 1))) mechanism) s
    | None =>
        let '(ok, s) := State_admit 1 s in
        if ok then set_mechanisms (alter (set_combo combo 1) mechanism) s else s
    end
  else s.

Definition record_requested_mechanism (ev : Event) (meta : SlotMeta) (s : State) : State :=
  match mechanism_capture ev with
  | Value mechanism =>
      let found := mechanisms s !! mechanism in
      let '(ok, s) := admit_unless (bool_decide (is_Some found)) s in
      if ok then
        let names := (operation_bits (operations (meta_semantics meta))).*2
                       ++ option_list (direct_name (direct_ (meta_semantics meta))) in
        let stat := add_ops names (record_call ev
                      (mark_unregistered (unregistered_bit ev) (default MechStat_default found))) in
        let s := record_shape mechanism ev (set_mechanisms (insert mechanism stat) s) in
        record_cgroup_mechanism (ev_cgroup_id ev) mechanism (ev_rv ev) (unregistered_bit ev) s
      else s
  | _ => s
  end.

Definition record_template (slot index : Z) (role : option string) (meta : SlotMeta) (types : list Z)
    (count total bools bools_seen : Z) (s : State) : State :=
  let key := (slot, index) in
  let '(ok, s) := admit_unless (bool_decide (is_Some (templates s !! key))) s in
  if ok then
    let stat := default (mkTemplate (meta_names meta) (meta_aliased meta) role ∅ 0 0 false)
                  (templates s !! key) in
    let s := set_templates (insert key stat) s in
    let missing : gset Z := list_to_set (take (Z.to_nat count) types) ∖ ts_attr_types stat in
    let '(add_types, s) := State_admit (Z.of_nat (size missing)) s in
    set_templates (insert key
      (mkTemplate (ts_names stat) (ts_aliased stat) (ts_role stat)
         (if add_types then ts_attr_types stat ∪ missing else ts_attr_types stat)
         (ts_bools_true stat |' (bools &' bools_seen)) (ts_bools_false stat |' (bools_seen &~ bools))
         (ts_truncated stat || (count <? total)))) s
  else s.

Definition observe_templates (ev : Event) (meta : SlotMeta) (s : State) : State :=
  if uses_unsafe_decoders (policy s) then
    let second := negb (template1_arg (meta_semantics meta) =? ARG_NONE) in
    let s := if negb (template0_arg (meta_semantics meta) =? ARG_NONE)
             then record_template (ev_slot ev) 0 (if second then Some "public"%string else None) meta
                    (ev_attr_types ev) (ev_attr_count ev) (ev_attr_total ev) (ev_attr_bools ev)
                    (ev_attr_bools_seen ev) s
             else s in
    if second
    then record_template (ev_slot ev) 1 (Some "private"%string) meta
           (ev_attr_types1 ev) (ev_attr_count1 ev) (ev_attr_total1 ev) (ev_attr_bools1 ev)
           (ev_attr_bools_seen1 ev) s
    else s
  else s.

Definition count_login (user_type : Z) (s : State) : State :=
  let '(ok, s) := admit_unless (bool_decide (is_Some (logins s !! user_type))) s in
  if ok then set_logins (insert user_type (as_u64 (default 0 (logins s !! user_type) + 1))) s else s.

(** ** Operations *)

(** The operation bits of a slot. *)
Definition meta_ops (meta : SlotMeta) : list Z := (operation_bits (operations (meta_semantics meta))).*1.

Definition remove_op (process : pkey) (session : SessionRef) (s : State) (op : Z) : State :=
  set_active_ops (delete (process, session, op)) s.

(** An insertion that is present or admitted. *)
Definition bind_op (key : pkey * SessionRef * Z) (b : Binding) (s : State) : State :=
  let '(ok, s) := admit_unless (bool_decide (is_Some (active_ops s !! key))) s in
  if ok then set_active_ops (insert key b) s else s.

Definition init_op (process : pkey) (ev : Event) (meta : SlotMeta) (s : State) (op : Z) : State :=
  let session := meta_session meta (ev_session ev) in
  match mechanism_capture ev with
  | Value mechanism =>
      bind_op (process, session, op) (mkBinding mechanism (meta_fork_safe meta) (unregistered_bit ev)) s
  | Null =>
      let s := remove_op process session s op in
      if nz (semantic_flags (meta_semantics meta) &' NULL_MECHANISM_CANCEL) then s
      else bump_evidence At_semantic_capture_failures s
  | Unreadable | Absent => remove_op process session s op
  end.

Definition apply_init (process : pkey) (ev : Event) (meta : SlotMeta) (s : State) : State :=
  if negb (ev_rv ev =? rv_OK) || (ev_session ev =? SESSION_NONE) then s
  else foldl (init_op process ev meta) s (meta_ops meta).

(** The mechanisms an operation call is attributed to, and the calls without one. *)
Definition attribute_op (process : pkey) (session : SessionRef) (acc : gmap Z bool * State) (op : Z)
    : gmap Z bool * State :=
  match active_ops acc.2 !! (process, session, op) with
  | Some b =>
      (<[binding_mechanism b := default false (acc.1 !! binding_mechanism b) || binding_unregistered b]> acc.1,
       acc.2)
  | None => (acc.1, set_orphan_ops (λ n, as_u64 (n + 1)) acc.2)
  end.

Definition record_mechanism_call (ev : Event) (s : State) (entry : Z * bool) : State :=
  let '(mechanism, unregistered) := entry in
  let found := mechanisms s !! mechanism in
  let '(ok, s) := admit_unless (bool_decide (is_Some found)) s in
  let s := if ok
           then set_mechanisms (insert mechanism
                  (record_call ev (mark_unregistered unregistered (default MechStat_default found)))) s
           else s in
  record_cgroup_mechanism (ev_cgroup_id ev) mechanism (ev_rv ev) unregistered s.

Definition retains (ev : Event) (t : Z) : bool :=
  if t =? transition.CONTINUE then ev_rv ev =? rv_OK
  else if t =? transition.UPDATE_WITH_OUTPUT then (ev_rv ev =? rv_OK) || (ev_rv ev =? rv_BUFFER_TOO_SMALL)
  else if t =? transition.FINISH_WITH_OUTPUT then
    (ev_rv ev =? rv_BUFFER_TOO_SMALL)
    || ((ev_rv ev =? rv_OK) && (ev_capture ev &' capture.OUTPUT_MASK =? capture.OUTPUT_NULL))
  else if t =? transition.FINISH_ALWAYS then false
  else if t =? transition.RETAIN_ALWAYS then true
  else if t =? transition.FINISH_ON_SUCCESS then negb (ev_rv ev =? rv_OK)
  else true.

Definition apply_operations (process : pkey) (ev : Event) (meta : SlotMeta) (s : State) : State :=
  let session := meta_session meta (ev_session ev) in
  let '(used, s) := foldl (attribute_op process session) (∅, s) (meta_ops meta) in
  let s := foldl (record_mechanism_call ev) s (in_order (λ e : Z * bool, [e.1]) (map_to_list used)) in
  if retains ev (transition_ (meta_semantics meta)) then s
  else foldl (remove_op process session) s (meta_ops meta).

(** One operation of [reconcile_conclusive]. *)
Definition reconcile_op (process : pkey) (session : SessionRef) (acc : bool * State) (op : Z) : bool * State :=
  (acc.1 || bool_decide (is_Some (active_ops acc.2 !! (process, session, op))),
   remove_op process session acc.2 op).

Definition reconcile_conclusive (process : pkey) (ev : Event) (meta : SlotMeta) (s : State) : bool * State :=
  let session := meta_session meta (ev_session ev) in
  if ev_rv ev =? rv_OPERATION_NOT_INITIALIZED then
    let '(changed, s) := foldl (reconcile_op process session) (false, s) (meta_ops meta) in
    let lc := lifecycle_ (meta_semantics meta) in
    let '(changed, s) :=
      if (lc =? lifecycle.FIND_OPERATION) || (lc =? lifecycle.FIND_FINAL)
      then (changed || bool_decide ((process, session) ∈ find_active s),
            set_find_active (λ m, m ∖ {[(process, session)]}) s)
      else (changed, s) in
    (true, note_if At_state_reconciliations changed s)
  else if (ev_rv ev =? 0xb0) || (ev_rv ev =? 0xb3) then
    let '(changed, s) := retire_session process session s in
    (true, note_if At_state_reconciliations changed s)
  else if ev_rv ev =? rv_CRYPTOKI_NOT_INITIALIZED then
    let '(n, s) := retire_scope process (Some (meta_module meta)) s in
    (true, note_if At_state_reconciliations (0 <? n) s)
  else (false, s).

(** ** Session lifecycle *)

(** Clear the state of each session of the list. *)
Definition clear_sessions (process : pkey) (acc : bool * State) (session : SessionRef) : bool * State :=
  let '(changed, s) := clear_session_state process session acc.2 in
  (acc.1 || changed, s).

Definition apply_auth (process : pkey) (ev : Event) (meta : SlotMeta) (s : State) : State :=
  let context_specific := existsb (String.eqb "C_Login"%string) (meta_names meta)
                          && (ev_user_type ev =? 2) && (ev_rv ev =? rv_OK) in
  if context_specific then s
  else if negb (ev_rv ev =? rv_OK) && negb (ev_rv ev =? rv_PIN_LOCKED) then s
  else match open s !! (process, meta_session meta (ev_session ev)) with
  | None => s
  | Some info =>
      let owned := scoped process (Some (meta_module meta)) in
      let l := (open_sessions (λ p x i, owned p x && (info_slot i =? info_slot info)) s).*1 in
      let '(changed, s) := foldl (clear_sessions process) (false, s) l in
      note_if At_auth_state_ambiguities changed s
  end.

(** A cancel of [flags] selects the call. *)
Definition cancel_selects (flags : Z) (meta : SlotMeta) : bool :=
  nz (operations (meta_semantics meta) &' cancel_operation_mask flags)
  || nz (direct_cancel_flag (direct_ (meta_semantics meta)) &' flags)
  || ((lifecycle_ (meta_semantics meta) =? lifecycle.FIND_INIT) && nz (flags &' CKF_FIND_OBJECTS)).

Definition clear_selected (process : pkey) (session : SessionRef) (flags : Z) (s : State) : State :=
  let s := (clear_operations process session (cancel_operation_mask flags) s).2 in
  let s := if nz (flags &' CKF_FIND_OBJECTS)
           then set_find_active (λ m, m ∖ {[(process, session)]}) s else s in
  let s := set_pending (map_drop (λ k p,
             bool_decide (k.1 = (process, session)) && cancel_selects flags (pending_meta p))) s in
  set_detached (map_drop (λ _ d,
    negb (collided d) && (bool_decide (owner d = Some (process, session))
                          && cancel_selects flags (pending_meta (detached_pending d))))) s.

Definition apply_session_cancel (process : pkey) (ev : Event) (session : SessionRef) (s : State) : State :=
  let s := if nz (ev_flags ev &~ KNOWN_CANCEL_FLAGS)
           then bump_evidence At_session_cancel_unknown_flags s else s in
  let selected := count_ones (ev_flags ev &' KNOWN_CANCEL_FLAGS) in
  if (ev_rv ev =? rv_OPERATION_CANCEL_FAILED) && (1 <? selected) then
    bump_evidence At_session_cancel_ambiguities (clear_selected process session (ev_flags ev) s)
  else if ev_rv ev =? rv_OK then clear_selected process session (ev_flags ev) s
  else s.

Definition count_opened (async_session : bool) (s : State) : State :=
  set_sessions (λ t, mkStats (saturating_add 64 (st_opened t) 1) (st_inherited t) (st_closed t)
                       (saturating_add 64 (st_async_opened t) (Z.b2z async_session))
                       (st_peak_concurrent t)) s.

(** The next pseudonym of the process and the session under it. *)
Definition enter_session (process : pkey) (session : SessionRef) (slot : Z) (fork_safe : bool) (s : State)
    : State :=
  let counter := as_u64 (default 0 (next_pseudonym s !! process) + 1) in
  set_open (insert (process, session) (mkInfo counter slot fork_safe))
    (set_next_pseudonym (insert process counter) s).

Definition open_session (process : pkey) (ev : Event) (meta : SlotMeta) (s : State) : State :=
  let session := meta_session meta (ev_session ev) in
  let '(retired, s) := retire_session process session s in
  let s := if retired then bump_evidence At_state_reconciliations s else s in
  let s := count_opened (nz (ev_capture ev &' capture.ASYNC_SESSION)) s in
  let counter_new := negb (bool_decide (is_Some (next_pseudonym s !! process))) in
  let '(ok, s) := State_admit (1 + Z.b2z counter_new) s in
  if ok then update_peak (enter_session process session (ev_slot_id ev) (meta_fork_safe meta) s) else s.

(** A set insertion that is present or admitted. *)
Definition mark_find (key : pkey * SessionRef) (s : State) : State :=
  let '(ok, s) := admit_unless (bool_decide (key ∈ find_active s)) s in
  if ok then set_find_active (λ m, {[key]} ∪ m) s else s.

Definition mark_ambiguous (key : pkey * SessionRef) (s : State) : State :=
  let '(ok, s) := admit_unless (bool_decide (key ∈ inherited_ambiguous s)) s in
  if ok then set_inherited_ambiguous (λ m, {[key]} ∪ m) s else s.

Definition apply_lifecycle (process : pkey) (ev : Event) (meta : SlotMeta) (s : State) : State :=
  let session := meta_session meta (ev_session ev) in
  let lc := lifecycle_ (meta_semantics meta) in
  let ok := ev_rv ev =? rv_OK in
  if (lc =? lifecycle.OPEN_SESSION) && (ok && negb (ev_session ev =? SESSION_NONE)) then
    open_session process ev meta s
  else if (lc =? lifecycle.CLOSE_SESSION) && ok then
    let '(existed, s) := retire_session process session s in
    if existed then s else set_unmatched_closes (λ n, as_u64 (n + 1)) s
  else if (lc =? lifecycle.CLOSE_ALL_SESSIONS) && ok then
    let owned := scoped process (Some (meta_module meta)) in
    foldl (λ s x, (retire_session process x s).2) s
      (open_sessions (λ p x i, owned p x && (info_slot i =? ev_slot_id ev)) s).*1
  else if (lc =? lifecycle.FINALIZE) && ok then (retire_scope process (Some (meta_module meta)) s).2
  else if (lc =? lifecycle.LOGIN) || (lc =? lifecycle.LOGOUT) then apply_auth process ev meta s
  else if (lc =? lifecycle.FIND_INIT) && ok then mark_find (process, session) s
  else if (lc =? lifecycle.FIND_FINAL) && ok then set_find_active (λ m, m ∖ {[(process, session)]}) s
  else if lc =? lifecycle.SESSION_CANCEL then apply_session_cancel process ev session s
  else if (lc =? lifecycle.SET_OPERATION_STATE) && ok then
    bump_evidence At_operation_state_imports (clear_operations process session U16_MAX s).2
  else s.

Definition apply_completed (process : pkey) (ev : Event) (meta : SlotMeta) (was_pending : bool) (s : State)
    : State :=
  let sem := meta_semantics meta in
  let s := observe_templates ev meta s in
  let s := if ((transition_ sem =? transition.INITIALIZE) || negb (direct_ sem =? direct.NONE))
              && (uses_unsafe_decoders (policy s) || was_pending || (ev_rv ev =? rv_OK))
           then record_requested_mechanism ev meta s else s in
  let s := if (lifecycle_ sem =? lifecycle.LOGIN) && (ev_rv ev =? rv_OK)
              && negb (ev_user_type ev =? USER_TYPE_NONE)
           then count_login (ev_user_type ev) s else s in
  let '(done_, s) := reconcile_conclusive process ev meta s in
  if done_ then s
  else
    let s := apply_lifecycle process ev meta s in
    if transition_ sem =? transition.INITIALIZE then apply_init process ev meta s
    else if (direct_ sem =? direct.NONE) && nz (operations sem) then apply_operations process ev meta s
    else s.

(** ** Asynchronous calls *)

Definition pending_order (kv : pending_key * Pending) : list Z :=
  pending_sequence kv.2 :: pkey_list kv.1.1.1 ++ session_key kv.1.1.2 ++ [kv.1.2].

Definition detached_key_list (k : detached_key) : list Z :=
  [k.1.1.1.1; k.1.1.1.2; k.1.1.2; k.1.2; k.2].

Definition detached_order (kv : detached_key * Detached) : list Z :=
  pending_sequence (detached_pending kv.2) :: detached_key_list kv.1.

Definition evict_pending_if_needed (s : State) : State :=
  if Z.of_nat (size (pending s) + size (detached s)) <=? MAX_PENDING then s
  else
    let evicted := bump_evidence At_async_evictions in
    match least pending_order (map_to_list (pending s)), least detached_order (map_to_list (detached s)) with
    | Some (k, p), Some (dk, d) =>
        if pending_sequence p <=? pending_sequence (detached_pending d)
        then evicted (set_pending (delete k) s)
        else evicted (set_detached (delete dk) s)
    | Some (k, _), None => evicted (set_pending (delete k) s)
    | None, Some (dk, _) => evicted (set_detached (delete dk) s)
    | None, None => s
    end.

Definition queue_pending (process : pkey) (ev : Event) (meta : SlotMeta) (s : State) : State :=
  match meta_function_id meta with
  | None => bump_evidence At_async_target_failures s
  | Some function_id =>
      if (lifecycle_ (meta_semantics meta) =? lifecycle.OPEN_SESSION) && (ev_session ev =? SESSION_NONE)
      then bump_evidence At_async_target_failures s
      else
        let s := set_sequence (λ n, as_u64 (n + 1)) s in
        let key := (process, meta_session meta (ev_session ev), function_id) in
        let p := mkPending ev meta (saturating_sub (ev_ts_ns ev) (ev_duration_ns ev)) (sequence s) in
        let s := note_if At_async_duplicates (bool_decide (is_Some (pending s !! key)))
                   (set_pending (insert key p) s) in
        evict_pending_if_needed s
  end.

(** The stored event with the completion's session, result and times. *)
Definition completed_event (ev : Event) (p : Pending) : Event :=
  let e := pending_event p in
  mkEvent (ev_ts_ns ev) (saturating_sub (ev_ts_ns ev) (started_ns p)) (ev_pid_tgid e) (ev_cgroup_id e)
    (ev_session ev) (ev_slot_id e) (ev_mechanism e) (ev_flags e) (ev_rv ev) (ev_p0 e) (ev_p1 e) (ev_p2 e)
    (ev_async_value e) (ev_slot e) (ev_target_function e) (ev_user_type e) (ev_shape e)
    (ev_attr_types e) (ev_attr_count e) (ev_attr_total e) (ev_attr_bools e) (ev_attr_bools_seen e)
    (ev_attr_types1 e) (ev_attr_count1 e) (ev_attr_total1 e) (ev_attr_bools1 e) (ev_attr_bools_seen1 e)
    (ev_capture e) (ev_event_type e).

Definition complete_pending (process : pkey) (ev : Event) (p : Pending) (s : State) : State :=
  let completed := completed_event ev p in
  if ev_rv completed =? rv_PENDING then queue_pending process completed (pending_meta p) s
  else apply_completed process completed (pending_meta p) true s.

(** The first async id, in key order, that the session owns for the function. *)
Definition find_detached (process : pkey) (session : SessionRef) (target : Z) (s : State)
    : option (detached_key * Detached) :=
  least (λ kv : detached_key * Detached, detached_key_list kv.1)
    (List.filter (λ kv : detached_key * Detached,
        bool_decide (owner kv.2 = Some (process, session))
        && bool_decide (meta_function_id (pending_meta (detached_pending kv.2)) = Some target))
      (map_to_list (detached s))).

Definition async_complete (process : pkey) (session : SessionRef) (ev : Event) (s : State) : State :=
  if ev_rv ev =? rv_PENDING then s
  else
    let key := (process, session, ev_target_function ev) in
    match pending s !! key with
    | Some p => complete_pending process ev p (set_pending (delete key) s)
    | None =>
        match find_detached process session (ev_target_function ev) s with
        | None => bump_evidence At_async_orphans s
        | Some (dk, d) =>
            if collided d then bump_evidence At_async_orphans s
            else complete_pending process ev (detached_pending d) (set_detached (delete dk) s)
        end
    end.

(** The async id an event names in a session's PKCS#11 slot. *)
Definition async_id (process : pkey) (session : SessionRef) (slot : Z) (ev : Event) : detached_key :=
  (session_module session, slot, ev_target_function ev, ev_async_value ev, pkey_domain process).

Definition tombstone (d : Detached) : Detached :=
  mkDetached (detached_pending d) (owner d) (detached_process d) true.

Definition async_get_id (process : pkey) (session : SessionRef) (ev : Event) (s : State) : State :=
  let key := (process, session, ev_target_function ev) in
  match open s !! (process, session) with
  | None => bump_evidence At_async_target_failures s
  | Some info =>
      match pending s !! key with
      | None => bump_evidence At_async_orphans s
      | Some p =>
          let s := set_pending (delete key) s in
          let dk := async_id process session (info_slot info) ev in
          let minted := mkDetached p (Some (process, session)) process false in
          match detached s !! dk with
          | Some existing =>
              if negb (bool_decide (detached_process existing = process)) then
                bump_evidence At_async_duplicates (set_detached (insert dk (tombstone existing)) s)
              else if collided existing then bump_evidence At_async_duplicates s
              else bump_evidence At_async_duplicates (set_detached (insert dk minted) s)
          | None => set_detached (insert dk minted) s
          end
      end
  end.

Definition async_join (process : pkey) (session : SessionRef) (ev : Event) (s : State) : State :=
  match open s !! (process, session) with
  | None => bump_evidence At_async_target_failures s
  | Some info =>
      let dk := async_id process session (info_slot info) ev in
      match detached s !! dk with
      | Some d =>
          if collided d then bump_evidence At_async_orphans s
          else set_detached (insert dk
                 (mkDetached (detached_pending d) (Some (process, session)) process (collided d))) s
      | None => bump_evidence At_async_orphans s
      end
  end.

Definition observe_async (process : pkey) (ev : Event) (s : State) : State :=
  if ev_target_function ev =? FUNCTION_NONE then bump_evidence At_async_target_failures s
  else if nz (ev_capture ev &' capture.ASYNC_VALUE_UNREADABLE) then bump_evidence At_async_target_failures s
  else match slot_of s (ev_slot ev) with
  | None => s
  | Some meta =>
      let session := meta_session meta (ev_session ev) in
      let lc := lifecycle_ (meta_semantics meta) in
      if lc =? lifecycle.ASYNC_COMPLETE then async_complete process session ev s
      else if (lc =? lifecycle.ASYNC_GET_ID) && (ev_rv ev =? rv_OK) then async_get_id process session ev s
      else if (lc =? lifecycle.ASYNC_JOIN) && (ev_rv ev =? rv_OK) then async_join process session ev s
      else s
  end.

(** ** Forks *)

(** The parent's in-flight operations of a session, by operation. *)
Definition grouped_ops (parent : pkey) (session : SessionRef) (s : State) : list (Z * Binding) :=
  in_order (λ e : Z * Binding, [e.1])
    ((λ kv : pkey * SessionRef * Z * Binding, (kv.1.2, kv.2)) <$>
       map_to_list (filter (λ kv : pkey * SessionRef * Z * Binding, kv.1.1 = (parent, session)) (active_ops s))).

Definition inherit_op (child : pkey) (session : SessionRef) (s : State) (entry : Z * Binding) : State :=
  if binding_fork_safe entry.2 then bind_op (child, session, entry.1) entry.2 s
  else mark_ambiguous (child, session) s.

Definition count_inherited (s : State) : State :=
  set_sessions (λ t, mkStats (st_opened t) (saturating_add 64 (st_inherited t) 1) (st_closed t)
                       (st_async_opened t) (st_peak_concurrent t)) s.

(** One session of the fork; [ops] are the parent's before the loop. *)
Definition inherit_session (parent child : pkey) (ops : SessionRef → list (Z * Binding)) (s : State)
    (entry : SessionRef * SessionInfo) : State :=
  let '(session, info) := entry in
  if info_fork_safe info then
    let needed := Z.b2z (negb (bool_decide (is_Some (next_pseudonym s !! child))))
                  + Z.b2z (negb (bool_decide (is_Some (open s !! (child, session))))) in
    let '(ok, s) := State_admit needed s in
    if ok then
      let s := count_inherited (enter_session child session (info_slot info) (info_fork_safe info) s) in
      let s := foldl (inherit_op child session) s (ops session) in
      if bool_decide ((parent, session) ∈ find_active s) then mark_find (child, session) s else s
    else s
  else mark_ambiguous (child, session) s.

Definition fork_process (parent child : ProcessKey) (s : State) : State :=
  let pk := ProcessKey_identity parent in
  let ck := ProcessKey_identity child in
  if negb (pk_domain parent =? pk_domain child) || negb (accepts_domain s (pk_domain parent)) then s
  else if bool_decide (is_Some (reduced_histories s !! ck)) then s
  else
    let '(ok, s) := State_admit 1 s in
    if ok then
      let s := set_reduced_histories (insert ck child) s in
      let sessions_ := open_sessions (λ p _ _, bool_decide (p = pk)) s in
      let ops session := grouped_ops pk session s in
      update_peak (foldl (inherit_session pk ck ops) s sessions_)
    else s.

(** ** Events *)

Definition is_async (lc : Z) : bool :=
  (lc =? lifecycle.ASYNC_COMPLETE) || (lc =? lifecycle.ASYNC_GET_ID) || (lc =? lifecycle.ASYNC_JOIN).

(** The history of the process and the cgroup row of the call. *)
Definition note_history (process : ProcessKey) (s : State) : State :=
  let key := ProcessKey_identity process in
  if bool_decide (is_Some (reduced_histories s !! key)) then s
  else
    let '(ok, s) := State_admit 1 s in
    if ok then set_reduced_histories (insert key process) s else s.

(** A first use of a session that was inherited in doubt. *)
Definition settle_inherited (process : pkey) (session : SessionRef) (s : State) : State :=
  if bool_decide ((process, session) ∈ inherited_ambiguous s)
  then bump_evidence At_fork_state_ambiguities (set_inherited_ambiguous (λ m, m ∖ {[(process, session)]}) s)
  else s.

Definition observe_process (process : ProcessKey) (ev : Event) (s : State) : State :=
  let key := ProcessKey_identity process in
  if negb (accepts_domain s (pk_domain process)) then reject_history ev s
  else
    let s := count_cgroup (λ n, as_u64 (n + 1)) ev (note_history process s) in
    match slot_of s (ev_slot ev) with
    | None => s
    | Some meta =>
        if bool_decide (meta_semantics meta = COUNT_ONLY) then s
        else
          let s := if ev_session ev =? SESSION_NONE then s
                   else settle_inherited key (meta_session meta (ev_session ev)) s in
          if is_async (lifecycle_ (meta_semantics meta)) then observe_async key ev s
          else if ev_rv ev =? rv_PENDING then queue_pending key ev meta s
          else apply_completed key ev meta false s
    end.

Definition observe (ev : Event) (s : State) : State :=
  if ev_event_type ev =? event_type.FORK
  then fork_process (ProcessKey_from_pid (pid_of ev)) (ProcessKey_from_pid (as_u32 (ev_session ev))) s
  else if ev_event_type ev =? event_type.FORK_INTO_CGROUP then s
  else observe_process (ProcessKey_from_pid (pid_of ev)) ev s.

(** ** Queries *)

Definition session_pseudonym_process (process : ProcessKey) (slot raw : Z) (s : State) : option Z :=
  let module := from_option meta_module MODULE_UNRESOLVED (slot_of s slot) in
  info_pseudonym <$> open s !! (ProcessKey_identity process, mkSession module raw).

Definition session_pseudonym (pid slot raw : Z) (s : State) : option Z :=
  session_pseudonym_process (ProcessKey_from_pid pid) slot raw s.

Definition has_process_state (process : ProcessKey) (s : State) : bool :=
  has_scope_state (ProcessKey_identity process) None s.

Definition pid_has_process_state (pid : Z) (s : State) : bool :=
  map_any (λ _ process, (pk_pid process =? pid) && has_process_state process s) (reduced_histories s).

Definition pending_at_end (s : State) : Z := Z.of_nat (size (pending s) + size (detached s)).

Definition templates_truncated (s : State) : bool := map_any (λ _ t, ts_truncated t) (templates s).

Definition shape_decode_failures (s : State) : Z :=
  if uses_unsafe_decoders (policy s) then
    as_u64 (sum_by ms_init_no_shape (filter (λ kv : Z * MechStat,
      negb (size (ms_param_combos kv.2) =? 0)%nat || bool_decide (is_Some (mech_shapes s !! kv.1)) = true)
      (mechanisms s)))
  else 0.

Definition total_shape_decode_failures (s : State) : Z :=
  if uses_unsafe_decoders (policy s) then
    Z.of_nat (size (filter (λ kv : Z * MechStat,
      (size (ms_param_combos kv.2) =? 0)%nat && bool_decide (is_Some (mech_shapes s !! kv.1)) = true)
      (mechanisms s)))
  else 0.

(** The number of keys the capture retains. *)
Definition retained_dynamic_keys (s : State) : Z :=
  Z.of_nat (size (reduced_histories s)) + Z.of_nat (size (next_pseudonym s)) + Z.of_nat (size (open s))
  + Z.of_nat (size (active_ops s)) + Z.of_nat (size (find_active s)) + Z.of_nat (size (inherited_ambiguous s))
  + Z.of_nat (size (mechanisms s)) + sum_by (λ m, Z.of_nat (size (ms_param_combos m))) (mechanisms s)
  + Z.of_nat (size (templates s)) + sum_by (λ t, Z.of_nat (size (ts_attr_types t))) (templates s)
  + Z.of_nat (size (logins s)) + Z.of_nat (size (cgroups s))
  + sum_by (λ c, Z.of_nat (size (cg_mechanisms c))) (cgroups s).
End Reducer.
