(* ===== verification/SemanticsStep.v ===== *)
(** * The steps of the semantic state machine

    An abstract specification of the reducer of [Semantics].  Its state changes by
    small steps, each confined to the scope of one process and, for an event, one
    module ([step]): bookkeeping, an admitted key with the entry it pays for, an
    entry that goes away, and the moves of an asynchronous call.  Every handler is
    a sequence of such steps ([observe_process_steps], [fork_process_steps],
    [clear_scope_steps]), so that an invariant is a fact about single steps
    ([step_wf]). *)
From stdpp Require Import sorting.
From S2P Require Import Prelude Counters ObjectPolicy Semantics.

Lemma map_drop_subseteq {K A} `{Countable K} (P : K → A → bool) (m : gmap K A) : map_drop P m ⊆ m.
Proof. apply map_filter_subseteq. Qed.

Lemma map_drop_lookup {K A} `{Countable K} (P : K → A → bool) (m : gmap K A) k :
  map_drop P m !! k = m !! k ≫= λ x, if P k x then None else Some x.
Proof.
  unfold map_drop. destruct (m !! k) as [x|] eqn:Hk; cbn.
  - destruct (P k x) eqn:HP.
    + apply map_lookup_filter_None_2. right. intros y Hy. simplify_eq. cbn. congruence.
    + by apply map_lookup_filter_Some_2.
  - apply map_lookup_filter_None_2. by left.
Qed.

(** ** Steps *)

(** The keys of the aggregate tables. *)
Definition agg_keys (s : State) : Z :=
  Z.of_nat (size (mechanisms s)) + sum_by (λ m, Z.of_nat (size (ms_param_combos m))) (mechanisms s)
  + Z.of_nat (size (templates s)) + sum_by (λ t, Z.of_nat (size (ts_attr_types t))) (templates s)
  + Z.of_nat (size (logins s)) + Z.of_nat (size (cgroups s))
  + sum_by (λ c, Z.of_nat (size (cg_mechanisms c))) (cgroups s).

(** The configuration and the histories. *)
Definition config (s : State) :=
  (policy s, slots s, reduced_histories s, mech_shapes s, state_key_limit s, events_domain s).

(** The state of sessions and calls. *)
Definition live (s : State) :=
  (next_pseudonym s, open s, active_ops s, find_active s, inherited_ambiguous s, pending s, detached s).

(** A change of counters and aggregate tables, its new keys admitted. *)
Definition account (s s' : State) : Prop :=
  config s' = config s ∧ live s' = live s ∧
  ∃ k, 0 <= k ∧ state_keys s' = state_keys s + k ∧ (k = 0 ∨ state_keys s' <= state_key_limit s)
       ∧ agg_keys s' <= agg_keys s + k.

Definition in_scope (mo : option Z) (module : Z) : Prop :=
  match mo with None => True | Some m => module = m end.

(** [scoped] as a proposition. *)
Definition owns (p : pkey) (mo : option Z) (k : pkey * SessionRef) : Prop :=
  k.1 = p ∧ in_scope mo (session_module k.2).

(** The async id belongs to the scope. *)
Definition owns_async (p : pkey) (mo : option Z) (k : detached_key) (d : Detached) : Prop :=
  (detached_process d = p ∧ in_scope mo k.1.1.1.1) ∨ ∃ x, owner d = Some (p, x) ∧ in_scope mo (session_module x).

Definition disowned (d : Detached) : Detached :=
  mkDetached (detached_pending d) None (detached_process d) (collided d).

(** What may become of an async id when its scope loses state. *)
Definition async_shrinks (p : pkey) (mo : option Z) (k : detached_key) (a b : option Detached) : Prop :=
  b = a ∨ ∃ d, a = Some d ∧ owns_async p mo k d ∧ (b = None ∨ b = Some (disowned d)).

(** Entries of the scope go away, all else stays. *)
Record shrinks (p : pkey) (mo : option Z) (s s' : State) : Prop := {
  sh_config : config s' = config s;
  sh_keys : state_keys s' = state_keys s;
  sh_agg : agg_keys s' = agg_keys s;
  sh_counters : next_pseudonym s' ⊆ next_pseudonym s;
  sh_counters_other : ∀ q, q ≠ p → next_pseudonym s' !! q = next_pseudonym s !! q;
  sh_counters_own : next_pseudonym s' !! p = next_pseudonym s !! p ∨ ∀ x, open s' !! (p, x) = None;
  sh_open : open s' ⊆ open s;
  sh_open_other : ∀ k, ¬ owns p mo k → open s' !! k = open s !! k;
  sh_ops : active_ops s' ⊆ active_ops s;
  sh_ops_other : ∀ k, ¬ owns p mo k.1 → active_ops s' !! k = active_ops s !! k;
  sh_find : find_active s' ⊆ find_active s;
  sh_find_other : ∀ k, ¬ owns p mo k → k ∈ find_active s → k ∈ find_active s';
  sh_ambiguous : inherited_ambiguous s' ⊆ inherited_ambiguous s;
  sh_ambiguous_other : ∀ k, ¬ owns p mo k → k ∈ inherited_ambiguous s → k ∈ inherited_ambiguous s';
  sh_pending : pending s' ⊆ pending s;
  sh_pending_other : ∀ k, ¬ owns p mo k.1 → pending s' !! k = pending s !! k;
  sh_detached : ∀ k, async_shrinks p mo k (detached s !! k) (detached s' !! k);
}.

Definition charge (n : Z) (s : State) : State := set_state_keys (λ k, k + n) s.

(** One admitted key, unless the entry is there already. *)
Definition pay (present : bool) (s : State) : State := if present then s else charge 1 s.

Definition room (present : bool) (s : State) : Prop :=
  present = true ∨ state_keys s + 1 <= state_key_limit s.

Definition known_op (op : Z) : Prop := op ∈ OPERATIONS.*1.

Inductive step (p : pkey) (mo : option Z) : State → State → Prop :=
| step_account s s' : account s s' → step p mo s s'
| step_shrink s s' : shrinks p mo s s' → step p mo s s'
| step_history s process :
    ProcessKey_identity process = p → reduced_histories s !! p = None → room false s →
    step p mo s (set_reduced_histories (insert p process) (pay false s))
| step_open s x slot fork_safe n :
    in_scope mo (session_module x) → is_Some (reduced_histories s !! p) → open s !! (p, x) = None →
    n = 1 + Z.b2z (negb (bool_decide (is_Some (next_pseudonym s !! p)))) →
    state_keys s + n <= state_key_limit s →
    step p mo s (enter_session p x slot fork_safe (charge n s))
| step_bind s x op b present :
    in_scope mo (session_module x) → known_op op →
    present = bool_decide (is_Some (active_ops s !! (p, x, op))) → room present s →
    (present = false → is_Some (reduced_histories s !! p)) →
    step p mo s (set_active_ops (insert (p, x, op) b) (pay present s))
| step_find s x present :
    in_scope mo (session_module x) → present = bool_decide ((p, x) ∈ find_active s) → room present s →
    (present = false → is_Some (reduced_histories s !! p)) →
    step p mo s (set_find_active (λ m, {[(p, x)]} ∪ m) (pay present s))
| step_ambiguous s x present :
    in_scope mo (session_module x) → present = bool_decide ((p, x) ∈ inherited_ambiguous s) →
    room present s → (present = false → is_Some (reduced_histories s !! p)) →
    step p mo s (set_inherited_ambiguous (λ m, {[(p, x)]} ∪ m) (pay present s))
| step_queue s x f pd g :
    in_scope mo (session_module x) → meta_module (pending_meta pd) = session_module x →
    meta_function_id (pending_meta pd) = Some f →
    step p mo s (evict_pending_if_needed (set_evidence g (set_pending (insert (p, x, f) pd) s)))
| step_mint s x f pd k :
    in_scope mo (session_module x) → pending s !! (p, x, f) = Some pd →
    k.1.1.1.1 = session_module x → k.2 = pkey_domain p → k.1.1.2 = f →
    (∀ d, detached s !! k = Some d → detached_process d = p ∧ collided d = false) →
    step p mo s (set_detached (insert k (mkDetached pd (Some (p, x)) p false))
                   (set_pending (delete (p, x, f)) s))
| step_collide s k d :
    in_scope mo k.1.1.1.1 → k.2 = pkey_domain p → detached s !! k = Some d → detached_process d ≠ p →
    step p mo s (set_detached (insert k (tombstone d)) s)
| step_join s x k d :
    in_scope mo (session_module x) → k.1.1.1.1 = session_module x → k.2 = pkey_domain p →
    detached s !! k = Some d → collided d = false →
    step p mo s (set_detached (insert k (mkDetached (detached_pending d) (Some (p, x)) p false)) s).

(** The handlers run such steps. *)
Definition steps (p : pkey) (mo : option Z) : State → State → Prop := rtc (step p mo).

(** ** Well-formed states *)

(** The processes with operations, searches and doubts have a history. *)
Record homed (s : State) : Prop := {
  homed_ops : ∀ k b, active_ops s !! k = Some b → is_Some (reduced_histories s !! k.1.1);
  homed_find : ∀ k, k ∈ find_active s → is_Some (reduced_histories s !! k.1);
  homed_ambiguous : ∀ k, k ∈ inherited_ambiguous s → is_Some (reduced_histories s !! k.1);
}.

Record wf (s : State) : Prop := {
  wf_budget : retained_dynamic_keys s <= state_keys s <= state_key_limit s;
  wf_limit : state_key_limit s <= U64_MAX;
  wf_async : pending_at_end s <= MAX_PENDING;
  wf_histories : ∀ q process, reduced_histories s !! q = Some process → ProcessKey_identity process = q;
  wf_counters : ∀ q c, next_pseudonym s !! q = Some c → 0 <= c <= state_keys s;
  wf_open : ∀ q x i, open s !! (q, x) = Some i →
    is_Some (reduced_histories s !! q)
    ∧ ∃ c, next_pseudonym s !! q = Some c ∧ 1 <= info_pseudonym i <= c;
  wf_pseudonyms : ∀ q x y i j, open s !! (q, x) = Some i → open s !! (q, y) = Some j →
    info_pseudonym i = info_pseudonym j → x = y;
  wf_ops : ∀ k b, active_ops s !! k = Some b → known_op k.2;
  wf_homed : homed s;
  wf_pending : ∀ k pd, pending s !! k = Some pd →
    meta_module (pending_meta pd) = session_module k.1.2 ∧ meta_function_id (pending_meta pd) = Some k.2;
  wf_detached : ∀ k d, detached s !! k = Some d →
    meta_module (pending_meta (detached_pending d)) = k.1.1.1.1
    ∧ meta_function_id (pending_meta (detached_pending d)) = Some k.1.1.2
    ∧ pkey_domain (detached_process d) = k.2
    ∧ ∀ q x, owner d = Some (q, x) → q = detached_process d ∧ session_module x = k.1.1.1.1;
}.

(** ** Steps preserve well-formedness *)

(** The outcome of an eviction. *)
Inductive evicts (s : State) : State → Prop :=
| evicts_none : pending_at_end s <= MAX_PENDING → evicts s s
| evicts_pending k : is_Some (pending s !! k) →
    evicts s (bump_evidence At_async_evictions (set_pending (delete k) s))
| evicts_detached k : is_Some (detached s !! k) →
    evicts s (bump_evidence At_async_evictions (set_detached (delete k) s)).

Lemma evict_pending_evicts s : evicts s (evict_pending_if_needed s).
Proof.
  unfold evict_pending_if_needed. destruct (Z.leb_spec (Z.of_nat (size (pending s) + size (detached s))) MAX_PENDING)
    as [Hle|Hgt]; [by apply evicts_none|].
  assert (Hp : ∀ k pd, least pending_order (map_to_list (pending s)) = Some (k, pd) → is_Some (pending s !! k)).
  { intros k pd Hk%least_elem%elem_of_map_to_list. eauto. }
  assert (Hd : ∀ k d, least detached_order (map_to_list (detached s)) = Some (k, d) → is_Some (detached s !! k)).
  { intros k d Hk%least_elem%elem_of_map_to_list. eauto. }
  destruct (least pending_order _) as [[k pd]|] eqn:Ep, (least detached_order _) as [[dk d]|] eqn:Ed.
  - case_match; [apply evicts_pending | apply evicts_detached]; eauto.
  - apply evicts_pending; eauto.
  - apply evicts_detached; eauto.
  - apply least_None, map_to_list_empty_iff in Ep. apply least_None, map_to_list_empty_iff in Ed.
    rewrite Ep, Ed, !map_size_empty in Hgt. unfold MAX_PENDING in Hgt. lia.
Qed.

Lemma size_delete_some {K A} `{Countable K} (m : gmap K A) i :
  is_Some (m !! i) → (size (delete i m) = size m - 1 ∧ 1 <= size m)%nat.
Proof.
  intros Hi. rewrite map_size_delete_Some by done. split; [lia|].
  destruct (size m) eqn:E; [|lia]. apply map_size_empty_inv in E. subst.
  by rewrite lookup_empty in Hi; destruct Hi.
Qed.

(** The keys outside the aggregate tables. *)
Definition core_keys (s : State) : Z :=
  Z.of_nat (size (reduced_histories s)) + Z.of_nat (size (next_pseudonym s)) + Z.of_nat (size (open s))
  + Z.of_nat (size (active_ops s)) + Z.of_nat (size (find_active s)) + Z.of_nat (size (inherited_ambiguous s)).

Lemma retained_split s : retained_dynamic_keys s = core_keys s + agg_keys s.
Proof. unfold retained_dynamic_keys, core_keys, agg_keys. lia. Qed.

Ltac use_config H :=
  unfold config in H; injection H as Hpolicy Hslots Hhist Hshapes Hlimit Hdomain.

Ltac use_live H :=
  unfold live in H; injection H as Hcount Hopen Hops Hfind Hamb Hpend Hdet.

Lemma account_wf s s' : account s s' → wf s → wf s'.
Proof.
  intros (Hc & Hl & k & Hk0 & Hk & Hlim & Hagg) W. use_config Hc. use_live Hl.
  destruct W as [WB WL WA WH WC WO WP WOp WHo WPe WD].
  assert (core_keys s' = core_keys s) as Hcore by (unfold core_keys; congruence).
  rewrite retained_split in WB.
  split; rewrite ?Hhist, ?Hlimit, ?Hcount, ?Hopen, ?Hops, ?Hpend, ?Hdet; try done.
  - rewrite retained_split. lia.
  - unfold pending_at_end. by rewrite Hpend, Hdet.
  - intros q c Hq. specialize (WC q c Hq). lia.
  - destruct WHo. by split; rewrite ?Hhist, ?Hops, ?Hfind, ?Hamb.
Qed.

Lemma async_shrinks_Some p mo k a d :
  async_shrinks p mo k a (Some d) → a = Some d ∨ ∃ e, a = Some e ∧ d = disowned e.
Proof. intros [-> | (e & -> & _ & [?|?])]; simplify_eq; eauto. Qed.

Lemma async_shrinks_dom (p : pkey) (mo : option Z) (m m' : gmap detached_key Detached) :
  (∀ k, async_shrinks p mo k (m !! k) (m' !! k)) → dom m' ⊆ dom m.
Proof.
  intros Hm k. rewrite !elem_of_dom. intros [d Hd]. specialize (Hm k). rewrite Hd in Hm.
  destruct (async_shrinks_Some _ _ _ _ _ Hm) as [-> | (e & -> & _)]; eauto.
Qed.

Lemma size_of_dom {K A B} `{Countable K} (m : gmap K A) (m' : gmap K B) :
  dom m' ⊆ dom m → (size m' <= size m)%nat.
Proof. rewrite <- !size_dom. apply subseteq_size. Qed.

Lemma shrinks_core p mo s s' : shrinks p mo s s' → core_keys s' <= core_keys s.
Proof.
  intros [Hc Hk Ha H1 _ _ H2 _ H3 _ H4 _ H5 _ H6 _ H7]. use_config Hc. unfold core_keys. rewrite Hhist.
  apply map_subseteq_size in H1, H2, H3. apply subseteq_size in H4, H5. lia.
Qed.

Lemma shrinks_wf p mo s s' : shrinks p mo s s' → wf s → wf s'.
Proof.
  intros Hsh W. pose proof (shrinks_core _ _ _ _ Hsh) as Hcore.
  destruct Hsh as [Hc Hk Ha H1 H1o H1p H2 H2o H3 _ H4 _ H5 _ H6 _ H7]. use_config Hc.
  destruct W as [WB WL WA WH WC WO WP WOp WHo WPe WD]. rewrite retained_split in WB.
  assert (∀ {K A} `{Countable K} (m m' : gmap K A) i x, m' ⊆ m → m' !! i = Some x → m !! i = Some x) as Hsub
    by (intros; by eapply lookup_weaken).
  split; rewrite ?Hhist, ?Hlimit, ?Hk; eauto.
  - rewrite retained_split. lia.
  - unfold pending_at_end in *. apply async_shrinks_dom, size_of_dom in H7.
    apply map_subseteq_size in H6. lia.
  - intros q x i Hq. destruct (WO q x i) as [? (c & Hc' & ?)]; [eauto|]. split; [done|].
    exists c. split; [|done]. destruct (decide (q = p)) as [->|Hne]; [|by rewrite H1o].
    destruct H1p as [-> | Hnone]; [done|]. rewrite Hnone in Hq. done.
  - destruct WHo as [HO HF HM]. split; rewrite ?Hhist; eauto.
  - intros k d Hd. specialize (H7 k). rewrite Hd in H7.
    destruct (async_shrinks_Some _ _ _ _ _ H7) as [Hs | (e & He & ->)]; [eauto|].
    destruct (WD k e He) as (? & ? & ? & _). split_and!; done.
Qed.

Lemma pay_keys present s : state_keys (pay present s) = state_keys s + Z.b2z (negb present).
Proof. destruct present; cbn; lia. Qed.

(** A payment changes nothing but the budget. *)
Lemma pay_rest present s :
  config (pay present s) = config s ∧ live (pay present s) = live s ∧ agg_keys (pay present s) = agg_keys s.
Proof. by destruct present. Qed.

Lemma room_pay present s :
  room present s → state_keys s <= state_key_limit s → state_keys (pay present s) <= state_key_limit s.
Proof. rewrite pay_keys. intros [-> | ?] ?; [cbn; lia | destruct present; cbn; lia]. Qed.

(** A paid insertion into one of the tables keeps the rest of the invariant. *)
Lemma paid_wf present s s' :
  room present s → wf s →
  config s' = config s → state_keys s' = state_keys (pay present s) → agg_keys s' = agg_keys s →
  (next_pseudonym s', open s', pending s', detached s')
    = (next_pseudonym s, open s, pending s, detached s) →
  core_keys s' = core_keys s + Z.b2z (negb present) →
  (∀ k b, active_ops s' !! k = Some b → known_op k.2) → homed s' →
  wf s'.
Proof.
  intros Hroom [WB WL WA WH WC WO WP WOp WHo WPe WD] Hc Hk Ha Hl Hcore Hops Hhomed.
  use_config Hc. injection Hl as Hcount Hopen Hpend Hdet.
  pose proof (room_pay _ _ Hroom (proj2 WB)) as Hb. pose proof (pay_keys present s) as Hp.
  rewrite retained_split in WB.
  split; rewrite ?Hhist, ?Hlimit, ?Hcount, ?Hopen, ?Hpend, ?Hdet; try done.
  - rewrite retained_split. lia.
  - unfold pending_at_end. by rewrite Hpend, Hdet.
  - intros q c Hq. specialize (WC q c Hq). rewrite Hk, Hp. destruct present; cbn; lia.
Qed.

Lemma insert_is_Some {K A} `{Countable K} (m : gmap K A) i j x : is_Some (m !! j) → is_Some (<[i := x]> m !! j).
Proof. intros Hj. destruct (decide (i = j)) as [->|]; [rewrite lookup_insert_eq; eauto | by rewrite lookup_insert_ne]. Qed.

Lemma step_history_wf s p process :
  ProcessKey_identity process = p → reduced_histories s !! p = None → room false s → wf s →
  wf (set_reduced_histories (insert p process) (pay false s)).
Proof.
  intros Hid Hnone Hroom [WB WL WA WH WC WO WP WOp WHo WPe WD]. rewrite retained_split in WB.
  pose proof (room_pay _ _ Hroom (proj2 WB)) as Hb. cbn in Hb.
  split; try done; cbn.
  - rewrite retained_split. unfold core_keys, agg_keys in *. cbn.
    rewrite map_size_insert_None by done. lia.
  - intros q process'. rewrite lookup_insert_Some. intros [[<- <-] | [? ?]]; eauto.
  - intros q c Hq. specialize (WC q c Hq). lia.
  - intros q x i Hq. destruct (WO q x i Hq) as [Hh ?]. split; [|done].
    by apply insert_is_Some.
  - destruct WHo as [HO HF HM]. split; cbn; intros; apply insert_is_Some; eauto.
Qed.

Lemma agg_keys_nonneg s : 0 <= agg_keys s.
Proof.
  unfold agg_keys.
  pose proof (sum_by_nonneg (λ m, Z.of_nat (size (ms_param_combos m))) (mechanisms s) (λ _, Nat2Z.is_nonneg _)).
  pose proof (sum_by_nonneg (λ t, Z.of_nat (size (ts_attr_types t))) (templates s) (λ _, Nat2Z.is_nonneg _)).
  pose proof (sum_by_nonneg (λ c, Z.of_nat (size (cg_mechanisms c))) (cgroups s) (λ _, Nat2Z.is_nonneg _)). lia.
Qed.

Lemma wf_counter s p : wf s → 0 <= default 0 (next_pseudonym s !! p) <= state_keys s.
Proof.
  intros W. destruct (next_pseudonym s !! p) as [c|] eqn:E; cbn; [by eapply wf_counters|].
  pose proof (wf_budget _ W) as Hb. rewrite retained_split in Hb.
  pose proof (agg_keys_nonneg s). unfold core_keys in Hb. lia.
Qed.

(** The pseudonym of a new session. *)
Lemma next_counter s p n :
  wf s → 1 <= n → state_keys s + n <= state_key_limit s →
  as_u64 (default 0 (next_pseudonym s !! p) + 1) = default 0 (next_pseudonym s !! p) + 1.
Proof.
  intros W Hn Hlim. pose proof (wf_counter s p W). pose proof (wf_limit s W).
  unfold as_u64. apply wrap_small. unfold in_width, U64_MAX in *. lia.
Qed.

Lemma step_open_budget s p x slot fs n :
  open s !! (p, x) = None → n = 1 + Z.b2z (negb (bool_decide (is_Some (next_pseudonym s !! p)))) →
  core_keys (enter_session p x slot fs (charge n s)) = core_keys s + n.
Proof.
  intros Hx ->. unfold core_keys, enter_session. cbn.
  rewrite !size_insert, Hx, (bool_decide_eq_false_2 (is_Some (@None SessionInfo))) by (by intros []). cbn. lia.
Qed.

Lemma step_open_wf s p x slot fs n :
  is_Some (reduced_histories s !! p) → open s !! (p, x) = None →
  n = 1 + Z.b2z (negb (bool_decide (is_Some (next_pseudonym s !! p)))) →
  state_keys s + n <= state_key_limit s → wf s →
  wf (enter_session p x slot fs (charge n s)).
Proof.
  intros Hh Hx Hn Hlim W.
  assert (1 <= n) as Hn1 by (subst n; destruct (bool_decide _); cbn; lia).
  pose proof (next_counter s p n W Hn1 Hlim) as Hc. pose proof (wf_counter s p W) as Hc0.
  pose proof (step_open_budget s p x slot fs n Hx Hn) as Hcore.
  destruct W as [WB WL WA WH WC WO WP WOp WHo WPe WD]. rewrite retained_split in WB.
  split; try done.
  - rewrite retained_split, Hcore. unfold agg_keys in *. cbn. lia.
  - intros q c. cbn. rewrite Hc, lookup_insert_Some. intros [[<- <-] | [_ Hq]]; [lia|].
    specialize (WC q c Hq). lia.
  - intros q y i. cbn. rewrite Hc, !lookup_insert_Some. intros [[[= <- <-] <-] | [Hne Hy]].
    + split; [done|]. eexists. rewrite lookup_insert_eq. split; [done | cbn; lia].
    + destruct (WO q y i Hy) as [? (c & Hq & ?)]. split; [done|].
      destruct (decide (p = q)) as [->|Hpq].
      * eexists. rewrite lookup_insert_eq. split; [done|]. rewrite Hq in *. cbn in *. lia.
      * exists c. by rewrite lookup_insert_ne.
  - intros q y z i j. cbn. rewrite Hc, !lookup_insert_Some.
    assert (∀ w k, open s !! (q, w) = Some k → p = q →
      info_pseudonym k < default 0 (next_pseudonym s !! p) + 1) as Hlt.
    { intros w k Hw <-. destruct (WO p w k Hw) as [_ (c & -> & ?)]. cbn. lia. }
    intros [[[= <- <-] <-] | [_ Hy]] [[Hz <-] | [_ Hz]] Heq; simplify_eq; cbn in *; eauto.
    + specialize (Hlt z j Hz eq_refl). lia.
    + specialize (Hlt y i Hy eq_refl). lia.
  - destruct WHo. by split.
Qed.

(** The process of a paid entry has a history: it has one, or the entry was there. *)
Lemma step_bind_wf s p x op b present :
  known_op op → present = bool_decide (is_Some (active_ops s !! (p, x, op))) → room present s →
  (present = false → is_Some (reduced_histories s !! p)) → wf s →
  wf (set_active_ops (insert (p, x, op) b) (pay present s)).
Proof.
  intros Hop Hp Hroom Hh W. apply (paid_wf present s); try done; try by destruct present.
  - unfold core_keys. destruct present; cbn; rewrite size_insert, <- Hp; cbn; lia.
  - intros k b' Hk. assert (<[(p, x, op) := b]> (active_ops s) !! k = Some b') as Hk' by (by destruct present).
    apply lookup_insert_Some in Hk' as [[<- _] | [_ Hk']]; [done | by eapply wf_ops].
  - destruct (wf_homed _ W) as [HO HF HM].
    assert (is_Some (reduced_histories s !! p)) as Hp'.
    { destruct present; [|by apply Hh]. symmetry in Hp. apply bool_decide_eq_true in Hp as [? Hp].
      by apply HO in Hp. }
    destruct present; (split; cbn; eauto; intros k b' [[<- _] | [_ ?]]%lookup_insert_Some; eauto).
Qed.

Lemma step_find_wf s k present :
  present = bool_decide (k ∈ find_active s) → room present s →
  (present = false → is_Some (reduced_histories s !! k.1)) → wf s →
  wf (set_find_active (λ m, {[k]} ∪ m) (pay present s)).
Proof.
  intros Hp Hroom Hh W. apply (paid_wf present s); try done; try by destruct present.
  - unfold core_keys. destruct present; cbn; rewrite size_set_insert, <- Hp; cbn; lia.
  - intros k' b Hk. apply (wf_ops _ W k' b). by destruct present.
  - destruct (wf_homed _ W) as [HO HF HM].
    assert (is_Some (reduced_histories s !! k.1)) as Hp'.
    { destruct present; [|by apply Hh]. symmetry in Hp. apply bool_decide_eq_true in Hp. by apply HF. }
    destruct present; (split; cbn; eauto; intros k' [->%elem_of_singleton | ?]%elem_of_union; eauto).
Qed.

Lemma step_ambiguous_wf s k present :
  present = bool_decide (k ∈ inherited_ambiguous s) → room present s →
  (present = false → is_Some (reduced_histories s !! k.1)) → wf s →
  wf (set_inherited_ambiguous (λ m, {[k]} ∪ m) (pay present s)).
Proof.
  intros Hp Hroom Hh W. apply (paid_wf present s); try done; try by destruct present.
  - unfold core_keys. destruct present; cbn; rewrite size_set_insert, <- Hp; cbn; lia.
  - intros k' b Hk. apply (wf_ops _ W k' b). by destruct present.
  - destruct (wf_homed _ W) as [HO HF HM].
    assert (is_Some (reduced_histories s !! k.1)) as Hp'.
    { destruct present; [|by apply Hh]. symmetry in Hp. apply bool_decide_eq_true in Hp. by apply HM. }
    destruct present; (split; cbn; eauto; intros k' [->%elem_of_singleton | ?]%elem_of_union; eauto).
Qed.

(** A change of the async tables alone. *)
Lemma async_wf s s' :
  wf s → config s' = config s → state_keys s' = state_keys s → agg_keys s' = agg_keys s →
  (next_pseudonym s', open s', active_ops s', find_active s', inherited_ambiguous s')
    = (next_pseudonym s, open s, active_ops s, find_active s, inherited_ambiguous s) →
  pending_at_end s' <= MAX_PENDING →
  (∀ k pd, pending s' !! k = Some pd →
     meta_module (pending_meta pd) = session_module k.1.2 ∧ meta_function_id (pending_meta pd) = Some k.2) →
  (∀ k d, detached s' !! k = Some d →
     meta_module (pending_meta (detached_pending d)) = k.1.1.1.1
     ∧ meta_function_id (pending_meta (detached_pending d)) = Some k.1.1.2
     ∧ pkey_domain (detached_process d) = k.2
     ∧ ∀ q x, owner d = Some (q, x) → q = detached_process d ∧ session_module x = k.1.1.1.1) →
  wf s'.
Proof.
  intros [WB WL WA WH WC WO WP WOp WHo WPe WD] Hc Hk Ha Hl HA HP HD. use_config Hc.
  injection Hl as Hcount Hopen Hops Hfind Hamb.
  assert (core_keys s' = core_keys s) as Hcore by (unfold core_keys; congruence).
  rewrite retained_split in WB.
  split; rewrite ?Hhist, ?Hlimit, ?Hcount, ?Hopen, ?Hops, ?Hk; try done.
  - rewrite retained_split. lia.
  - destruct WHo. by split; rewrite ?Hhist, ?Hops, ?Hfind, ?Hamb.
Qed.

Lemma evicts_bound s s1 s' k pd :
  pending s1 = <[k := pd]> (pending s) → detached s1 = detached s → evicts s1 s' →
  pending_at_end s <= MAX_PENDING → pending_at_end s' <= MAX_PENDING.
Proof.
  unfold pending_at_end. intros Hp Hd Hev HA.
  assert (size (pending s1) <= size (pending s) + 1)%nat.
  { pose proof (size_insert (pending s) k pd) as Hs. rewrite Hp. destruct (bool_decide _); cbn in Hs; lia. }
  rewrite <- Hd in HA. destruct Hev as [Hle | k' Hk | k' Hk]; cbn in *; [done | |];
    apply size_delete_some in Hk as [Hsz ?]; rewrite Hsz; lia.
Qed.

Lemma evicts_rest s s' :
  evicts s s' →
  config s' = config s ∧ state_keys s' = state_keys s ∧ agg_keys s' = agg_keys s ∧
  (next_pseudonym s', open s', active_ops s', find_active s', inherited_ambiguous s')
    = (next_pseudonym s, open s, active_ops s, find_active s, inherited_ambiguous s) ∧
  pending s' ⊆ pending s ∧ detached s' ⊆ detached s.
Proof. destruct 1; split_and!; try done; apply delete_subseteq. Qed.

Lemma step_queue_wf s p x f pd g :
  meta_module (pending_meta pd) = session_module x → meta_function_id (pending_meta pd) = Some f → wf s →
  wf (evict_pending_if_needed (set_evidence g (set_pending (insert (p, x, f) pd) s))).
Proof.
  intros Hm Hf W. set (s1 := set_evidence g _). pose proof (evict_pending_evicts s1) as Hev.
  destruct (evicts_rest _ _ Hev) as (Hc & Hk & Ha & Hl & Hp & Hd).
  apply (async_wf s); try done.
  - by eapply (evicts_bound s s1), wf_async.
  - intros k pd' Hk'. eapply lookup_weaken in Hk'; [|exact Hp]. cbn in Hk'.
    apply lookup_insert_Some in Hk' as [[<- <-] | [_ Hk']]; [done | by eapply wf_pending].
  - intros k d Hk'. eapply lookup_weaken in Hk'; [|exact Hd]. by eapply wf_detached.
Qed.

(** An async id replaced by a well-formed one; the pending calls shrink. *)
Lemma set_detached_wf (s : State) (k : detached_key) (d0 : Detached) (P : gmap pending_key Pending) :
  wf s → P ⊆ pending s →
  (size P < size (pending s))%nat ∨ is_Some (detached s !! k) →
  meta_module (pending_meta (detached_pending d0)) = k.1.1.1.1 →
  meta_function_id (pending_meta (detached_pending d0)) = Some k.1.1.2 →
  pkey_domain (detached_process d0) = k.2 →
  (∀ q x, owner d0 = Some (q, x) → q = detached_process d0 ∧ session_module x = k.1.1.1.1) →
  wf (set_detached (insert k d0) (set_pending (λ _, P) s)).
Proof.
  intros W HP Hsz H1 H2 H3 H4. apply (async_wf s); try done.
  - pose proof (wf_async _ W) as HA. unfold pending_at_end in *. cbn.
    pose proof (size_insert (detached s) k d0) as Hi. apply map_subseteq_size in HP.
    case_bool_decide as Hk; cbn in Hi; destruct Hsz as [? | Hs]; try lia; by destruct Hk.
  - intros k' pd Hk'. cbn in Hk'. eapply lookup_weaken in Hk'; [|exact HP]. by eapply wf_pending.
  - intros k' d Hk'. cbn in Hk'. apply lookup_insert_Some in Hk' as [[<- <-] | [_ Hk']]; [done | by eapply wf_detached].
Qed.

Lemma step_wf p mo s s' : step p mo s s' → wf s → wf s'.
Proof.
  destruct 1 as [s s' Ha|s s' Hsh|s process|s x slot fs n|s x op b present|s x present|s x present
    |s x f pd g|s x f pd k Hsc Hpd Hk1 Hk2 Hk3 Hd|s k d Hsc Hdom Hd Hne|s x k d Hsc Hk1 Hk2 Hd Hcol]; intros W.
  - by eapply account_wf.
  - by eapply shrinks_wf.
  - by eapply step_history_wf.
  - by eapply step_open_wf.
  - by eapply step_bind_wf.
  - by eapply step_find_wf.
  - by eapply step_ambiguous_wf.
  - by eapply step_queue_wf.
  - destruct (wf_pending _ W _ _ Hpd) as [Hm Hf].
    apply (set_detached_wf s k _ (delete (p, x, f) (pending s))); cbn in *; try congruence.
    + apply delete_subseteq.
    + left. apply mk_is_Some, size_delete_some in Hpd as [-> ?]. lia.
    + intros q y [= <- <-]. done.
  - destruct (wf_detached _ W _ _ Hd) as (? & ? & ? & ?).
    apply (set_detached_wf s k _ (pending s)); eauto.
  - destruct (wf_detached _ W _ _ Hd) as (? & ? & ? & ?).
    apply (set_detached_wf s k _ (pending s)); cbn; eauto. intros q y [= <- <-]. done.
Qed.

Lemma steps_wf p mo s s' : steps p mo s s' → wf s → wf s'.
Proof. induction 1; eauto using step_wf. Qed.
