(* ===== verification/SemanticsRefine.v ===== *)
(** * The reducer refines its steps

    Every handler of [Semantics] is a sequence of the steps of [SemanticsStep],
    confined to the process and module of its event. *)
From stdpp Require Import sorting.
From S2P Require Import Prelude Counters ObjectPolicy Semantics SemanticsStep.

(** ** Admission *)

Inductive admits (n : Z) (s : State) : bool * State → Prop :=
| admits_zero : n = 0 → admits n s (true, s)
| admits_some : 0 < n → state_keys s + n <= state_key_limit s → admits n s (true, charge n s)
| admits_refused : 0 < n → (wf s → state_key_limit s < state_keys s + n) →
    admits n s (false, bump_evidence At_semantic_state_drops s).

Lemma wf_keys_nonneg s : wf s → 0 <= state_keys s.
Proof. intros W. pose proof (wf_counter s (0, 0, 0, 0) W). lia. Qed.

Lemma State_admit_admits n s : 0 <= n → admits n s (State_admit n s).
Proof.
  intros Hn. unfold State_admit. destruct (Z.eqb_spec n 0) as [->|Hne]; [by apply admits_zero|].
  unfold checked_add. destruct (checked_spec 64 (state_keys s + n)) as [[-> Hw]|[-> Hw]].
  - destruct (Z.leb_spec (state_keys s + n) (state_key_limit s)).
    + by apply admits_some; [lia|].
    + apply admits_refused; [lia|done].
  - apply admits_refused; [lia|]. intros W.
    pose proof (wf_keys_nonneg s W). pose proof (wf_limit s W). unfold in_width, U64_MAX in *. lia.
Qed.

Inductive admits_unless (present : bool) (s : State) : bool * State → Prop :=
| unless_paid : room present s → admits_unless present s (true, pay present s)
| unless_refused : present = false → admits_unless present s (false, bump_evidence At_semantic_state_drops s).

Lemma admit_unless_admits present s : admits_unless present s (admit_unless present s).
Proof.
  unfold admit_unless. destruct present; [by apply (unless_paid true); left|].
  destruct (State_admit_admits 1 s) as [? | ? ? | ? ?]; [lia | done | |].
  - apply (unless_paid false). by right.
  - by apply unless_refused.
Qed.

(** ** Accounting *)

Lemma account_refl s : account s s.
Proof. split; [done|]. split; [done|]. exists 0. split_and!; [lia | lia | by left | lia]. Qed.

Lemma account_trans s1 s2 s3 : account s1 s2 → account s2 s3 → account s1 s3.
Proof.
  intros (Hc1 & Hl1 & k1 & ? & ? & Hk1 & ?) (Hc2 & Hl2 & k2 & ? & ? & Hk2 & ?).
  split; [congruence|]. split; [congruence|]. exists (k1 + k2).
  assert (state_key_limit s2 = state_key_limit s1) as Hlim by (use_config Hc1; done).
  split_and!; lia.
Qed.

#[export] Instance account_preorder : PreOrder account.
Proof. split; [exact account_refl | exact account_trans]. Qed.

(** A change that leaves the live state and the aggregate keys as they are. *)
Lemma account_same s s' :
  config s' = config s → live s' = live s → state_keys s' = state_keys s → agg_keys s' <= agg_keys s →
  account s s'.
Proof.
  intros Hc Hl Hk Ha. split; [done|]. split; [done|]. exists 0. split_and!; [lia | lia | by left | lia].
Qed.

(** A paid change of the aggregate tables. *)
Lemma account_paid present s s' :
  room present s → config s' = config s → live s' = live s → state_keys s' = state_keys (pay present s) →
  agg_keys s' <= agg_keys s + Z.b2z (negb present) → account s s'.
Proof.
  intros Hr Hc Hl Hk Ha. pose proof (pay_keys present s). split; [done|]. split; [done|].
  exists (Z.b2z (negb present)). split_and!; [destruct present; cbn; lia | lia | | done].
  destruct present; [by left|]. right. destruct Hr as [?|?]; [done|]. cbn in *. lia.
Qed.

Ltac same := apply account_same; done.

Lemma account_evidence g s : account s (set_evidence g s).
Proof. same. Qed.

Lemma account_sessions g s : account s (set_sessions g s).
Proof. same. Qed.

Lemma account_orphans g s : account s (set_orphan_ops g s).
Proof. same. Qed.

Lemma account_bump c s : account s (bump_evidence c s).
Proof. same. Qed.

Lemma account_note c b s : account s (note_if c b s).
Proof. same. Qed.

Create HintDb account.
#[export] Hint Resolve account_refl account_evidence account_sessions account_orphans account_bump account_note
  : account.

Lemma sum_by_insert {K A} `{Countable K} (f : A → Z) (m : gmap K A) i x :
  sum_by f (<[i := x]> m) = sum_by f m + f x - from_option f 0 (m !! i).
Proof.
  destruct (m !! i) as [y|] eqn:E; cbn.
  - rewrite (sum_by_insert_old _ _ _ _ y) by done. lia.
  - rewrite sum_by_insert_new by done. lia.
Qed.

(** The aggregate keys after an insertion into each table. *)
Lemma agg_set_cgroups s k c :
  agg_keys (set_cgroups (insert k c) s)
  = agg_keys s + Z.b2z (negb (bool_decide (is_Some (cgroups s !! k)))) + Z.of_nat (size (cg_mechanisms c))
    - from_option (λ c, Z.of_nat (size (cg_mechanisms c))) 0 (cgroups s !! k).
Proof. unfold agg_keys. cbn. rewrite size_insert, sum_by_insert. lia. Qed.

Lemma agg_set_mechanisms s k m :
  agg_keys (set_mechanisms (insert k m) s)
  = agg_keys s + Z.b2z (negb (bool_decide (is_Some (mechanisms s !! k)))) + Z.of_nat (size (ms_param_combos m))
    - from_option (λ m, Z.of_nat (size (ms_param_combos m))) 0 (mechanisms s !! k).
Proof. unfold agg_keys. cbn. rewrite size_insert, sum_by_insert. lia. Qed.

Lemma agg_set_templates s k t :
  agg_keys (set_templates (insert k t) s)
  = agg_keys s + Z.b2z (negb (bool_decide (is_Some (templates s !! k)))) + Z.of_nat (size (ts_attr_types t))
    - from_option (λ t, Z.of_nat (size (ts_attr_types t))) 0 (templates s !! k).
Proof. unfold agg_keys. cbn. rewrite size_insert, sum_by_insert. lia. Qed.

Lemma agg_set_logins s k n :
  agg_keys (set_logins (insert k n) s)
  = agg_keys s + Z.b2z (negb (bool_decide (is_Some (logins s !! k)))).
Proof. unfold agg_keys. cbn. rewrite size_insert. lia. Qed.

Section Reducer.
Context {RV : RvCodes}.

Lemma count_cgroup_account bump ev s : account s (count_cgroup bump ev s).
Proof.
  unfold count_cgroup. destruct (cgroups s !! ev_cgroup_id ev) as [cg|] eqn:E.
  - apply account_same; try done. rewrite agg_set_cgroups, E. cbn. lia.
  - destruct (State_admit_admits 1 s) as [? | ? ? | ? ?]; [lia | done | | auto with account].
    apply (account_paid false); try done; [by right|].
    rewrite agg_set_cgroups. cbn. rewrite E. cbn. change (agg_keys (charge 1 s)) with (agg_keys s).
    rewrite map_size_empty. lia.
Qed.

Lemma reject_history_account ev s : account s (reject_history ev s).
Proof.
  unfold reject_history. etrans; [apply (account_bump At_semantic_history_drops)|].
  case_match; [apply count_cgroup_account | apply account_refl].
Qed.

Lemma record_cgroup_mechanism_account cgroup_id mechanism rv u s :
  account s (record_cgroup_mechanism cgroup_id mechanism rv u s).
Proof.
  unfold record_cgroup_mechanism. destruct (cgroups s !! cgroup_id) as [cg|] eqn:E; [|apply account_refl].
  remember (bool_decide (is_Some (cg_mechanisms cg !! mechanism))) as present eqn:Hp.
  destruct (admit_unless_admits present s) as [Hr | ?]; [|auto with account].
  apply (account_paid present); try done; try (by destruct present).
  rewrite agg_set_cgroups. cbn. rewrite size_insert, <- Hp.
  replace (cgroups (pay present s)) with (cgroups s) by (by destruct present).
  rewrite E. cbn. destruct (pay_rest present s) as (_ & _ & ->). lia.
Qed.

Lemma alter_as_insert {K A} `{Countable K} (g : A → A) (m : gmap K A) k x :
  m !! k = Some x → alter g k m = <[k := g x]> m.
Proof.
  intros Hk. apply map_eq. intros j. destruct (decide (k = j)) as [<-|Hne].
  - by rewrite lookup_alter_eq, lookup_insert_eq, Hk.
  - by rewrite lookup_alter_ne, lookup_insert_ne.
Qed.

(** A change of one mechanism row. *)
Lemma agg_alter_mechanism g k n s :
  0 <= n →
  (∀ m, mechanisms s !! k = Some m →
     Z.of_nat (size (ms_param_combos (g m))) <= Z.of_nat (size (ms_param_combos m)) + n) →
  agg_keys (set_mechanisms (alter g k) s) <= agg_keys s + n.
Proof.
  intros Hn Hg. destruct (mechanisms s !! k) as [m|] eqn:E.
  - assert (set_mechanisms (alter g k) s = set_mechanisms (insert k (g m)) s) as ->.
    { unfold set_mechanisms. by rewrite (alter_as_insert _ _ _ m). }
    rewrite agg_set_mechanisms, E. cbn. specialize (Hg m eq_refl). lia.
  - assert (mechanisms (set_mechanisms (alter g k) s) = mechanisms s) as Heq.
    { cbn. apply map_eq. intros j. destruct (decide (k = j)) as [<-|Hne];
        [by rewrite lookup_alter_eq, E | by rewrite lookup_alter_ne]. }
    unfold agg_keys in *. rewrite Heq. cbn. lia.
Qed.

Lemma record_shape_account mechanism ev s : account s (record_shape mechanism ev s).
Proof.
  unfold record_shape. destruct (uses_unsafe_decoders (policy s)); [|apply account_refl].
  destruct (ev_shape ev =? SHAPE_NONE).
  { apply account_same; try done. rewrite <- (Z.add_0_r (agg_keys s)).
    apply agg_alter_mechanism; [lia|]. cbn. lia. }
  set (combo := (ev_shape ev, ev_p0 ev, ev_p1 ev, ev_p2 ev)).
  destruct (mechanisms s !! mechanism ≫= _) as [count|] eqn:E.
  - apply account_same; try done. rewrite <- (Z.add_0_r (agg_keys s)).
    apply agg_alter_mechanism; [lia|]. intros m Hm. rewrite Hm in E. cbn in *.
    rewrite size_insert, E. cbn. lia.
  - destruct (State_admit_admits 1 s) as [? | ? ? | ? ?]; [lia | done | | auto with account].
    apply (account_paid false); try done; [by right|]. cbn [negb Z.b2z].
    change (agg_keys s) with (agg_keys (charge 1 s)).
    apply agg_alter_mechanism; [lia|]. intros m Hm. cbn. rewrite size_insert.
    destruct (bool_decide _); cbn; lia.
Qed.

(** A row of the mechanism table that keeps its combinations. *)
Lemma mechanism_row_account present m m' mechanism s :
  present = bool_decide (is_Some (mechanisms s !! mechanism)) → room present s →
  m = default MechStat_default (mechanisms s !! mechanism) → ms_param_combos m' = ms_param_combos m →
  account s (set_mechanisms (insert mechanism m') (pay present s)).
Proof.
  intros Hp Hr Hm Hcombo.
  apply (account_paid present); try done; try (by destruct present).
  rewrite agg_set_mechanisms. destruct (pay_rest present s) as (_ & _ & ->).
  replace (mechanisms (pay present s)) with (mechanisms s) by (by destruct present).
  rewrite <- Hp, Hcombo, Hm. destruct (mechanisms s !! mechanism); cbn; [lia|].
  rewrite map_size_empty. lia.
Qed.

Lemma record_requested_mechanism_account ev meta s : account s (record_requested_mechanism ev meta s).
Proof.
  unfold record_requested_mechanism. destruct (mechanism_capture ev) as [| | |mechanism]; try apply account_refl.
  destruct (admit_unless_admits (bool_decide (is_Some (mechanisms s !! mechanism))) s) as [Hr | ?];
    [|auto with account].
  etrans; [|apply record_cgroup_mechanism_account]. etrans; [|apply record_shape_account].
  by eapply mechanism_row_account.
Qed.

Lemma record_mechanism_call_account ev s e : account s (record_mechanism_call ev s e).
Proof.
  unfold record_mechanism_call. destruct e as [mechanism u].
  destruct (admit_unless_admits (bool_decide (is_Some (mechanisms s !! mechanism))) s) as [Hr | ?];
    (etrans; [|apply record_cgroup_mechanism_account]); [by eapply mechanism_row_account | auto with account].
Qed.

Lemma templates_row_account key t t' s :
  templates s !! key = Some t → (size (ts_attr_types t') <= size (ts_attr_types t))%nat →
  account s (set_templates (insert key t') s).
Proof.
  intros Hk Ht. apply account_same; try done. rewrite agg_set_templates, Hk. cbn. lia.
Qed.

(** New attribute types of a template row, admitted together. *)
Lemma templates_types_account key t t' n s :
  templates s !! key = Some t → 0 < n → state_keys s + n <= state_key_limit s →
  Z.of_nat (size (ts_attr_types t')) <= Z.of_nat (size (ts_attr_types t)) + n →
  account s (set_templates (insert key t') (charge n s)).
Proof.
  intros Hk Hn Hlim Ht. split; [done|]. split; [done|]. exists n.
  split_and!; [lia | done | by right |].
  rewrite agg_set_templates. change (agg_keys (charge n s)) with (agg_keys s). cbn. rewrite Hk. cbn. lia.
Qed.

Lemma templates_new_account present key t s :
  present = bool_decide (is_Some (templates s !! key)) → room present s →
  t = default (mkTemplate (ts_names t) (ts_aliased t) (ts_role t) ∅ (ts_bools_true t) (ts_bools_false t)
                 (ts_truncated t)) (templates s !! key) →
  account s (set_templates (insert key t) (pay present s)).
Proof.
  intros Hp Hr Ht.
  apply (account_paid present); try done; try (by destruct present).
  rewrite agg_set_templates. destruct (pay_rest present s) as (_ & _ & ->).
  replace (templates (pay present s)) with (templates s) by (by destruct present).
  rewrite <- Hp. destruct (templates s !! key) as [t0|]; cbn in *; [subst; lia|].
  rewrite Ht. cbn. rewrite size_empty. lia.
Qed.

Lemma record_template_account slot index role meta types count total bools seen s :
  account s (record_template slot index role meta types count total bools seen s).
Proof.
  unfold record_template. set (key := (slot, index)).
  destruct (admit_unless_admits (bool_decide (is_Some (templates s !! key))) s) as [Hr | ?];
    [|auto with account].
  remember (bool_decide _) as present eqn:Hp.
  replace (templates (pay present s)) with (templates s) by (by destruct present).
  set (t := default _ (templates s !! key)). set (s1 := set_templates (insert key t) (pay present s)).
  assert (account s s1) as H1.
  { apply templates_new_account; [done | done |]. unfold t. by destruct (templates s !! key). }
  etrans; [exact H1|]. clear H1.
  assert (templates s1 !! key = Some t) as Ht by apply lookup_insert_eq.
  set (missing := list_to_set _ ∖ _).
  destruct (State_admit_admits (Z.of_nat (size missing)) s1) as [Hz | ? ? | ? ?]; [lia | | |].
  - eapply templates_row_account; [exact Ht|]. cbn.
    assert (missing = ∅) as -> by (apply leibniz_equiv, size_empty_iff; lia).
    by rewrite (right_id_L ∅ (∪)).
  - eapply templates_types_account; [exact Ht | done | done |]. cbn.
    rewrite size_union by (unfold missing; set_solver). lia.
  - etrans; [apply account_bump|]. eapply templates_row_account; [exact Ht | done].
Qed.

Lemma observe_templates_account ev meta s : account s (observe_templates ev meta s).
Proof.
  unfold observe_templates. destruct (uses_unsafe_decoders (policy s)); [|apply account_refl].
  destruct (negb (template1_arg _ =? _)), (negb (template0_arg _ =? _));
    first [apply account_refl | apply record_template_account | etrans; apply record_template_account].
Qed.

Lemma count_login_account user_type s : account s (count_login user_type s).
Proof.
  unfold count_login.
  destruct (admit_unless_admits (bool_decide (is_Some (logins s !! user_type))) s) as [Hr | ?];
    [|auto with account].
  remember (bool_decide _) as present eqn:Hp.
  apply (account_paid present); try done; try (by destruct present).
  rewrite agg_set_logins. destruct (pay_rest present s) as (_ & _ & ->).
  replace (logins (pay present s)) with (logins s) by (by destruct present). rewrite <- Hp. lia.
Qed.

(** ** Clearing *)

Lemma async_shrinks_trans p mo k a b c :
  async_shrinks p mo k a b → async_shrinks p mo k b c → async_shrinks p mo k a c.
Proof.
  intros [-> | (d & -> & Ho & [-> | ->])] [-> | (e & He & Ho' & Hc)]; simplify_eq; unfold async_shrinks; eauto 10.
Qed.

Lemma shrinks_refl p mo s : shrinks p mo s s.
Proof. split; try done; [by left | intros; by left]. Qed.

Lemma shrinks_trans p mo s1 s2 s3 : shrinks p mo s1 s2 → shrinks p mo s2 s3 → shrinks p mo s1 s3.
Proof.
  intros A B. split.
  - by rewrite (sh_config _ _ _ _ B), (sh_config _ _ _ _ A).
  - by rewrite (sh_keys _ _ _ _ B), (sh_keys _ _ _ _ A).
  - by rewrite (sh_agg _ _ _ _ B), (sh_agg _ _ _ _ A).
  - etrans; [apply (sh_counters _ _ _ _ B) | apply (sh_counters _ _ _ _ A)].
  - intros q Hq. by rewrite (sh_counters_other _ _ _ _ B), (sh_counters_other _ _ _ _ A).
  - destruct (sh_counters_own _ _ _ _ B) as [-> | Hn]; [|by right].
    destruct (sh_counters_own _ _ _ _ A) as [-> | Hn]; [by left|]. right. intros x.
    eapply lookup_weaken_None; [apply Hn | apply (sh_open _ _ _ _ B)].
  - etrans; [apply (sh_open _ _ _ _ B) | apply (sh_open _ _ _ _ A)].
  - intros k Hk. by rewrite (sh_open_other _ _ _ _ B), (sh_open_other _ _ _ _ A).
  - etrans; [apply (sh_ops _ _ _ _ B) | apply (sh_ops _ _ _ _ A)].
  - intros k Hk. by rewrite (sh_ops_other _ _ _ _ B), (sh_ops_other _ _ _ _ A).
  - etrans; [apply (sh_find _ _ _ _ B) | apply (sh_find _ _ _ _ A)].
  - intros k Hk Hin. by apply (sh_find_other _ _ _ _ B), (sh_find_other _ _ _ _ A).
  - etrans; [apply (sh_ambiguous _ _ _ _ B) | apply (sh_ambiguous _ _ _ _ A)].
  - intros k Hk Hin. by apply (sh_ambiguous_other _ _ _ _ B), (sh_ambiguous_other _ _ _ _ A).
  - etrans; [apply (sh_pending _ _ _ _ B) | apply (sh_pending _ _ _ _ A)].
  - intros k Hk. by rewrite (sh_pending_other _ _ _ _ B), (sh_pending_other _ _ _ _ A).
  - intros k. eapply async_shrinks_trans; [apply (sh_detached _ _ _ _ A) | apply (sh_detached _ _ _ _ B)].
Qed.

#[local] Instance shrinks_preorder p mo : PreOrder (shrinks p mo).
Proof. split; [exact (shrinks_refl p mo) | exact (shrinks_trans p mo)]. Qed.

Ltac shrink_one := split; cbn; try done; first [by left | intros; by left | idtac].

(** One table at a time. *)
Lemma shrinks_counts p mo s s' :
  config s' = config s → live s' = live s → state_keys s' = state_keys s → agg_keys s' = agg_keys s →
  shrinks p mo s s'.
Proof.
  intros Hc Hl Hk Ha. use_live Hl.
  split; rewrite ?Hcount, ?Hopen, ?Hops, ?Hfind, ?Hamb, ?Hpend, ?Hdet; try done; [by left | intros; by left].
Qed.

Lemma shrinks_open p mo g s :
  g (open s) ⊆ open s → (∀ k, ¬ owns p mo k → g (open s) !! k = open s !! k) →
  shrinks p mo s (set_open g s).
Proof. intros H1 H2. shrink_one. Qed.

Lemma shrinks_ops p mo g s :
  g (active_ops s) ⊆ active_ops s → (∀ k, ¬ owns p mo k.1 → g (active_ops s) !! k = active_ops s !! k) →
  shrinks p mo s (set_active_ops g s).
Proof. intros H1 H2. shrink_one. Qed.

Lemma shrinks_find p mo g s :
  g (find_active s) ⊆ find_active s → (∀ k, ¬ owns p mo k → k ∈ find_active s → k ∈ g (find_active s)) →
  shrinks p mo s (set_find_active g s).
Proof. intros H1 H2. shrink_one. Qed.

Lemma shrinks_ambiguous p mo g s :
  g (inherited_ambiguous s) ⊆ inherited_ambiguous s →
  (∀ k, ¬ owns p mo k → k ∈ inherited_ambiguous s → k ∈ g (inherited_ambiguous s)) →
  shrinks p mo s (set_inherited_ambiguous g s).
Proof. intros H1 H2. shrink_one. Qed.

Lemma shrinks_pending p mo g s :
  g (pending s) ⊆ pending s → (∀ k, ¬ owns p mo k.1 → g (pending s) !! k = pending s !! k) →
  shrinks p mo s (set_pending g s).
Proof. intros H1 H2. shrink_one. Qed.

Lemma shrinks_detached p mo g s :
  (∀ k, async_shrinks p mo k (detached s !! k) (g (detached s) !! k)) →
  shrinks p mo s (set_detached g s).
Proof. intros H1. shrink_one. Qed.

Lemma shrinks_counter p s :
  (∀ x, open s !! (p, x) = None) → shrinks p None s (set_next_pseudonym (delete p) s).
Proof.
  intros Hx. shrink_one.
  - apply delete_subseteq.
  - intros q Hq. by rewrite lookup_delete_ne.
  - by right.
Qed.

Lemma map_drop_keep {K A} `{Countable K} (P : K → A → bool) (m : gmap K A) k :
  (∀ x, P k x = false) → map_drop P m !! k = m !! k.
Proof. intros HP. rewrite map_drop_lookup. destruct (m !! k); cbn; [by rewrite HP | done]. Qed.

Lemma set_drop_spec {K} `{Countable K} (P : K → bool) (m : gset K) k :
  k ∈ set_drop P m ↔ k ∈ m ∧ P k = false.
Proof. unfold set_drop. rewrite elem_of_filter. naive_solver. Qed.

Lemma not_owns_session p mo x k :
  in_scope mo (session_module x) → ¬ owns p mo k → k ≠ (p, x).
Proof. intros Hx Hk ->. by apply Hk. Qed.

Lemma scoped_false p mo q x : ¬ owns p mo (q, x) → scoped p mo q x = false.
Proof.
  unfold owns, scoped. cbn. intros Hn. case_bool_decide as Hq; [|done]. cbn. subst q.
  destruct mo as [m|]; cbn in *; [|by destruct Hn]. apply Z.eqb_neq. intros Heq. by apply Hn.
Qed.

Lemma scoped_true p mo q x : scoped p mo q x = true → owns p mo (q, x).
Proof.
  unfold owns, scoped. cbn. case_bool_decide; [|done]. cbn.
  destruct mo as [m|]; cbn; [|done]. intros ->%Z.eqb_eq. done.
Qed.

Section Session.
Context (p : pkey) (mo : option Z) (x : SessionRef) (Hx : in_scope mo (session_module x)).

Lemma clear_operations_shrinks mask s : shrinks p mo s (clear_operations p x mask s).2.
Proof using Hx.
  apply shrinks_ops; [apply map_drop_subseteq|]. intros k Hk. apply map_drop_keep. intros _.
  rewrite bool_decide_eq_false_2; [done | by eapply not_owns_session].
Qed.

Lemma remove_op_shrinks s op : shrinks p mo s (remove_op p x s op).
Proof using Hx.
  apply shrinks_ops; [apply delete_subseteq|]. intros k Hk. apply lookup_delete_ne. intros <-.
  by apply (not_owns_session _ _ _ _ Hx Hk).
Qed.

Lemma remove_find_shrinks s : shrinks p mo s (set_find_active (λ m, m ∖ {[(p, x)]}) s).
Proof using Hx.
  apply shrinks_find; [set_solver|]. intros k Hk Hin. pose proof (not_owns_session _ _ _ _ Hx Hk). set_solver.
Qed.

Lemma remove_ambiguous_shrinks s : shrinks p mo s (set_inherited_ambiguous (λ m, m ∖ {[(p, x)]}) s).
Proof using Hx.
  apply shrinks_ambiguous; [set_solver|]. intros k Hk Hin.
  pose proof (not_owns_session _ _ _ _ Hx Hk). set_solver.
Qed.

Lemma drop_pending_shrinks P s :
  (∀ k pd, P k pd = true → k.1 = (p, x)) → shrinks p mo s (set_pending (map_drop P) s).
Proof using Hx.
  intros HP. apply shrinks_pending; [apply map_drop_subseteq|]. intros k Hk. apply map_drop_keep.
  intros pd. destruct (P k pd) eqn:E; [|done]. by destruct (not_owns_session _ _ _ _ Hx Hk (HP k pd E)).
Qed.

Lemma disown_shrinks s : shrinks p mo s (set_detached (fmap (disown p x)) s).
Proof using Hx.
  apply shrinks_detached. intros k. rewrite lookup_fmap.
  destruct (detached s !! k) as [d|] eqn:E; [|by left]. unfold disown. cbn.
  case_bool_decide as Ho; [|by left]. right. exists d. split_and!; [done | | by right].
  right. eauto.
Qed.

Lemma clear_session_state_shrinks s : shrinks p mo s (clear_session_state p x s).2.
Proof using Hx.
  unfold clear_session_state. pose proof (clear_operations_shrinks U16_MAX s) as H1.
  destruct (clear_operations p x U16_MAX s) as [c1 s1]. cbn in H1 |- *.
  etrans; [exact H1|]. etrans; [apply remove_find_shrinks|]. etrans; [apply remove_ambiguous_shrinks|].
  etrans; [apply drop_pending_shrinks | apply disown_shrinks]. intros k pd ?%bool_decide_eq_true. done.
Qed.

Lemma delete_open_shrinks s : shrinks p mo s (set_open (delete (p, x)) s).
Proof using Hx.
  apply shrinks_open; [apply delete_subseteq|]. intros k Hk. apply lookup_delete_ne. intros <-.
  by apply (not_owns_session _ _ _ _ Hx Hk).
Qed.

Lemma count_closed_shrinks s : shrinks p mo s (count_closed s).
Proof using. by apply shrinks_counts. Qed.

Lemma retire_session_shrinks s : shrinks p mo s (retire_session p x s).2.
Proof using Hx.
  unfold retire_session. cbn. etrans; [apply delete_open_shrinks|].
  etrans; [apply clear_session_state_shrinks|]. case_match; [apply count_closed_shrinks | done].
Qed.

Lemma clear_scope_session_shrinks count s : shrinks p mo s (clear_scope_session p count s x).
Proof using Hx.
  unfold clear_scope_session. etrans; [apply delete_open_shrinks|].
  etrans; [apply clear_session_state_shrinks|]. case_match; [apply count_closed_shrinks | done].
Qed.

Lemma clear_selected_shrinks flags s : shrinks p mo s (clear_selected p x flags s).
Proof using Hx.
  unfold clear_selected. etrans; [apply (clear_operations_shrinks (cancel_operation_mask flags))|].
  set (s1 := (clear_operations _ _ _ _).2).
  set (s2 := if nz (flags &' CKF_FIND_OBJECTS) then _ else s1).
  assert (shrinks p mo s1 s2) as H2 by (unfold s2; case_match; [apply remove_find_shrinks | done]).
  etrans; [exact H2|].
  etrans; [apply drop_pending_shrinks; intros k pd [?%bool_decide_eq_true _]%andb_true_iff; done|].
  apply shrinks_detached. intros k. rewrite map_drop_lookup.
  destruct (detached _ !! k) as [d|]; cbn; [|by left].
  destruct (negb (collided d) && _) eqn:E; [|by left].
  apply andb_true_iff in E as [_ [Ho%bool_decide_eq_true _]%andb_true_iff].
  right. exists d. split_and!; [done | right; eauto | by left].
Qed.
End Session.

Lemma foldl_rel {A} (R : State → State → Prop) `{!PreOrder R} (f : State → A → State) (l : list A) s :
  (∀ x s, x ∈ l → R s (f s x)) → R s (foldl f s l).
Proof.
  revert s. induction l as [|x l IH]; intros s Hf; cbn; [done|].
  etrans; [apply Hf, list_elem_of_here|]. apply IH. intros y s' Hy. apply Hf. by right.
Qed.

Lemma foldl_rel_snd {A B} (R : State → State → Prop) `{!PreOrder R} (f : B * State → A → B * State) (l : list A) acc :
  (∀ x acc, x ∈ l → R acc.2 (f acc x).2) → R acc.2 (foldl f acc l).2.
Proof.
  revert acc. induction l as [|x l IH]; intros acc Hf; cbn; [done|].
  etrans; [apply Hf, list_elem_of_here|]. apply IH. intros y s' Hy. apply Hf. by right.
Qed.

Lemma elem_of_open_sessions P s x i :
  (x, i) ∈ open_sessions P s ↔ ∃ q, open s !! (q, x) = Some i ∧ P q x i = true.
Proof.
  unfold open_sessions. rewrite in_order_perm, list_elem_of_fmap. split.
  - intros ([[q y] j] & [= -> ->] & Hin%elem_of_map_to_list). apply map_lookup_filter_Some in Hin as [? ?]. eauto.
  - intros (q & Hq & HP). exists (q, x, i). split; [done|]. apply elem_of_map_to_list, map_lookup_filter_Some. done.
Qed.

Lemma elem_of_open_sessions_fst P s x :
  x ∈ (open_sessions P s).*1 ↔ ∃ q i, open s !! (q, x) = Some i ∧ P q x i = true.
Proof.
  rewrite list_elem_of_fmap. split.
  - intros ([y i] & -> & (q & ?)%elem_of_open_sessions). eauto.
  - intros (q & i & ?). exists (x, i). split; [done|]. apply elem_of_open_sessions. eauto.
Qed.

Lemma clear_session_state_open p x s : open (clear_session_state p x s).2 = open s.
Proof. done. Qed.

Lemma clear_scope_session_open p count s x :
  open (clear_scope_session p count s x) = delete (p, x) (open s).
Proof. unfold clear_scope_session. by case_match. Qed.

Lemma foldl_clear_open p count l s k :
  open (foldl (clear_scope_session p count) s l) !! k
  = if bool_decide (k.1 = p ∧ k.2 ∈ l) then None else open s !! k.
Proof.
  revert s. induction l as [|x l IH]; intros s; cbn.
  { rewrite bool_decide_eq_false_2; [done|]. intros [_ Hk]. by apply elem_of_nil in Hk. }
  rewrite IH, clear_scope_session_open. destruct (decide (k = (p, x))) as [->|Hne].
  - rewrite lookup_delete_eq. rewrite (bool_decide_eq_true_2 (_ ∧ _ ∈ x :: l)); [by case_match|].
    split; [done | left].
  - rewrite lookup_delete_ne by done.
    rewrite (bool_decide_ext (k.1 = p ∧ k.2 ∈ x :: l) (k.1 = p ∧ k.2 ∈ l)); [done|].
    rewrite elem_of_cons. destruct k as [q y]; cbn. split; [|naive_solver].
    intros [-> [-> | ?]]; [by destruct Hne | done].
Qed.

(** Everything the sweep does after its sessions. *)
Definition sweep_scope (p : pkey) (mo : option Z) (s : State) : State :=
  let owned := scoped p mo in
  let s := set_active_ops (map_drop (λ k _, owned k.1.1 k.1.2)) s in
  let s := set_find_active (set_drop (λ k, owned k.1 k.2)) s in
  let s := set_inherited_ambiguous (set_drop (λ k, owned k.1 k.2)) s in
  let s := set_pending (map_drop (λ k _, owned k.1.1 k.1.2)) s in
  set_detached (map_drop (λ k d, scoped_detached p mo k.1.1.1.1 d)) s.

Lemma clear_scope_eq p mo count s :
  clear_scope p mo count s
  = (Z.b2z (has_scope_state p mo s),
     let s := sweep_scope p mo
       (foldl (clear_scope_session p count) s (open_sessions (λ q x _, scoped p mo q x) s).*1) in
     match mo with None => set_next_pseudonym (delete p) s | Some _ => s end).
Proof. done. Qed.

Lemma scoped_detached_owns p mo k d :
  scoped_detached p mo k.1.1.1.1 d = true → owns_async p mo k d.
Proof.
  unfold scoped_detached. intros [Hp%bool_decide_eq_true Hm]%andb_true_iff. left. split; [done|].
  destruct mo as [m|]; [by apply Z.eqb_eq | done].
Qed.

Lemma sweep_scope_shrinks p mo s : shrinks p mo s (sweep_scope p mo s).
Proof.
  unfold sweep_scope.
  etrans; [apply (shrinks_ops p mo (map_drop (λ k _, scoped p mo k.1.1 k.1.2))); [apply map_drop_subseteq|]|].
  { intros [[q x] op] Hk. apply map_drop_keep. intros _. by apply scoped_false. }
  etrans; [apply (shrinks_find p mo (set_drop (λ k, scoped p mo k.1 k.2)))|].
  { intros k [? ?]%set_drop_spec. done. }
  { intros [q x] Hk Hin. apply set_drop_spec. split; [done | by apply scoped_false]. }
  etrans; [apply (shrinks_ambiguous p mo (set_drop (λ k, scoped p mo k.1 k.2)))|].
  { intros k [? ?]%set_drop_spec. done. }
  { intros [q x] Hk Hin. apply set_drop_spec. split; [done | by apply scoped_false]. }
  etrans; [apply (shrinks_pending p mo (map_drop (λ k _, scoped p mo k.1.1 k.1.2))); [apply map_drop_subseteq|]|].
  { intros [[q x] f] Hk. apply map_drop_keep. intros _. by apply scoped_false. }
  apply shrinks_detached. intros k. rewrite map_drop_lookup. destruct (detached _ !! k) as [d|]; [|by left]. cbn.
  destruct (scoped_detached _ _ _ d) eqn:E; [|by left]. apply scoped_detached_owns in E.
  right. exists d. split_and!; [done | done | by left].
Qed.

Lemma clear_scope_shrinks p mo count s : shrinks p mo s (clear_scope p mo count s).2.
Proof.
  rewrite clear_scope_eq. cbn. set (l := (open_sessions _ s).*1).
  set (s1 := foldl _ s l).
  assert (shrinks p mo s s1) as H1.
  { apply (foldl_rel (shrinks p mo)). intros x s' Hx. apply clear_scope_session_shrinks.
    apply elem_of_open_sessions_fst in Hx as (q & i & _ & [_ ?]%scoped_true). done. }
  etrans; [exact H1|]. etrans; [apply sweep_scope_shrinks|].
  destruct mo as [m|]; [done|]. apply shrinks_counter. intros x. cbn. unfold s1. rewrite foldl_clear_open.
  case_bool_decide as Hx; [done|]. destruct (open s !! (p, x)) as [i|] eqn:E; [|done]. destruct Hx.
  split; [done|]. apply elem_of_open_sessions_fst. exists p, i. split; [done|].
  unfold scoped. by rewrite bool_decide_eq_true_2.
Qed.

(** ** Handlers *)

#[local] Instance steps_preorder p mo : PreOrder (steps p mo).
Proof. unfold steps. apply _. Qed.

Lemma steps_account p mo s s' : account s s' → steps p mo s s'.
Proof. intros H. by apply rtc_once, step_account. Qed.

Lemma steps_shrink p mo s s' : shrinks p mo s s' → steps p mo s s'.
Proof. intros H. by apply rtc_once, step_shrink. Qed.

(** What the steps of a scope never undo. *)
Definition monotone (s s' : State) : Prop :=
  policy s' = policy s ∧ slots s' = slots s ∧ state_key_limit s' = state_key_limit s
  ∧ events_domain s' = events_domain s ∧ state_keys s <= state_keys s'
  ∧ reduced_histories s ⊆ reduced_histories s'.

#[local] Instance monotone_preorder : PreOrder monotone.
Proof.
  split; [done|]. intros s1 s2 s3 (? & ? & ? & ? & ? & ?) (? & ? & ? & ? & ? & ?).
  split_and!; try congruence; [lia | by etrans].
Qed.

Lemma monotone_pay present s s' :
  config s' = config s → state_keys s' = state_keys (pay present s) → monotone s s'.
Proof.
  intros Hc Hk. use_config Hc. rewrite pay_keys in Hk.
  split_and!; try congruence; [destruct present; cbn in *; lia | by rewrite Hhist].
Qed.

Lemma step_monotone p mo s s' : step p mo s s' → monotone s s'.
Proof.
  destruct 1 as [s s' (Hc & _ & k & ? & ? & _)|s s' Hsh|s process Hid Hnone|s x slot fs n Hsc Hh Ho Hn
    |s x op b present|s x present|s x present|s x f pd g|s x f pd k|s k d|s x k d].
  - use_config Hc. split_and!; try congruence; [lia | by rewrite Hhist].
  - pose proof (sh_config _ _ _ _ Hsh) as Hc. pose proof (sh_keys _ _ _ _ Hsh). use_config Hc.
    split_and!; try congruence; [lia | by rewrite Hhist].
  - split_and!; try done; [cbn; lia | by apply insert_subseteq].
  - split_and!; try done. cbn. destruct (bool_decide _); cbn in Hn; lia.
  - apply (monotone_pay present); by destruct present.
  - apply (monotone_pay present); by destruct present.
  - apply (monotone_pay present); by destruct present.
  - set (s1 := set_evidence g _).
    destruct (evicts_rest _ _ (evict_pending_evicts s1)) as (Hc & Hk & _). by apply (monotone_pay true).
  - done.
  - done.
  - done.
Qed.

Lemma steps_monotone p mo s s' : steps p mo s s' → monotone s s'.
Proof. induction 1; [done | etrans; [by eapply step_monotone | done]]. Qed.

(** The process has a history, or none can be admitted any more. *)
Definition tracked (p : pkey) (s : State) : Prop :=
  is_Some (reduced_histories s !! p) ∨ state_key_limit s <= state_keys s.

Lemma steps_tracked p mo s s' q : steps p mo s s' → tracked q s → tracked q s'.
Proof.
  intros (_ & _ & Hl & _ & Hk & Hh)%steps_monotone [[P HP] | ?]; [left | right; lia].
  exists P. by eapply lookup_weaken.
Qed.

Lemma tracked_room p s present : tracked p s → room present s → present = false → is_Some (reduced_histories s !! p).
Proof. intros [?|?] [?|?] ->; [done | done | done | lia]. Qed.

(** The steps of a tracked process. *)
Definition tracked_steps (p : pkey) (mo : option Z) (s s' : State) : Prop := tracked p s → steps p mo s s'.

#[local] Instance tracked_steps_preorder p mo : PreOrder (tracked_steps p mo).
Proof.
  split; [by intros s _|]. intros s1 s2 s3 H1 H2 Ht. etrans; [by apply H1|]. apply H2.
  eapply steps_tracked; [by apply H1 | done].
Qed.

Section Scope.
Context (p : pkey) (mo : option Z).

Lemma bind_op_steps x op b s :
  in_scope mo (session_module x) → known_op op → tracked_steps p mo s (bind_op (p, x, op) b s).
Proof using.
  intros Hx Hop Ht. unfold bind_op.
  destruct (admit_unless_admits (bool_decide (is_Some (active_ops s !! (p, x, op)))) s) as [Hr | ?];
    [|apply steps_account; auto with account].
  apply rtc_once, step_bind; eauto using tracked_room.
Qed.

Lemma mark_find_steps x s :
  in_scope mo (session_module x) → tracked_steps p mo s (mark_find (p, x) s).
Proof using.
  intros Hx Ht. unfold mark_find.
  destruct (admit_unless_admits (bool_decide ((p, x) ∈ find_active s)) s) as [Hr | ?];
    [apply rtc_once, step_find; eauto using tracked_room | apply steps_account; auto with account].
Qed.

Lemma mark_ambiguous_steps x s :
  in_scope mo (session_module x) → tracked_steps p mo s (mark_ambiguous (p, x) s).
Proof using.
  intros Hx Ht. unfold mark_ambiguous.
  destruct (admit_unless_admits (bool_decide ((p, x) ∈ inherited_ambiguous s)) s) as [Hr | ?];
    [apply rtc_once, step_ambiguous; eauto using tracked_room | apply steps_account; auto with account].
Qed.
End Scope.

Lemma meta_ops_known meta op : op ∈ meta_ops meta → known_op op.
Proof.
  unfold meta_ops, known_op, operation_bits. rewrite !list_elem_of_fmap.
  intros (e & -> & Hin). exists e. split; [done|].
  by apply list_elem_of_In, filter_In in Hin as [?%list_elem_of_In _].
Qed.

Section Event.
Context (p : pkey) (ev : Event) (meta : SlotMeta).

(** The scope and the session of the event. *)
Let mo := Some (meta_module meta).
Let x := meta_session meta (ev_session ev).

Lemma session_in_scope : in_scope mo (session_module x).
Proof using. done. Qed.
#[local] Hint Resolve session_in_scope : core.

Lemma init_op_steps s op : known_op op → tracked_steps p mo s (init_op p ev meta s op).
Proof using.
  intros Hop Ht. unfold init_op. fold x. destruct (mechanism_capture ev).
  - by apply steps_shrink, remove_op_shrinks.
  - etrans; [by apply steps_shrink, (remove_op_shrinks p mo x); auto|].
    case_match; [done | apply steps_account; auto with account].
  - by apply steps_shrink, remove_op_shrinks.
  - by apply bind_op_steps.
Qed.

Lemma apply_init_steps s : tracked_steps p mo s (apply_init p ev meta s).
Proof using.
  unfold apply_init. case_match; [done|].
  apply (foldl_rel (tracked_steps p mo)). intros op s' Hop. by apply init_op_steps, (meta_ops_known meta).
Qed.

Lemma attribute_op_account acc op : account acc.2 (attribute_op p x acc op).2.
Proof using. unfold attribute_op. case_match; cbn; auto with account. Qed.

Lemma apply_operations_steps s : steps p mo s (apply_operations p ev meta s).
Proof using.
  unfold apply_operations. fold x.
  pose proof (foldl_rel_snd account (attribute_op p x) (meta_ops meta) (∅, s)
    (λ op acc _, attribute_op_account acc op)) as H1.
  destruct (foldl (attribute_op p x) (∅, s) (meta_ops meta)) as [used s1]. cbn in H1.
  etrans; [by apply steps_account|].
  set (s2 := foldl _ s1 _).
  assert (account s1 s2) as H2.
  { apply (foldl_rel account). intros e s' _. apply record_mechanism_call_account. }
  etrans; [by apply steps_account|]. case_match; [done|].
  apply (foldl_rel (steps p mo)). intros op s' _. by apply steps_shrink, remove_op_shrinks.
Qed.

Lemma reconcile_conclusive_steps s : steps p mo s (reconcile_conclusive p ev meta s).2.
Proof using.
  unfold reconcile_conclusive. fold x. destruct (ev_rv ev =? rv_OPERATION_NOT_INITIALIZED).
  { pose proof (foldl_rel_snd (shrinks p mo) (reconcile_op p x) (meta_ops meta) (false, s)
      (λ op acc _, remove_op_shrinks p mo x session_in_scope acc.2 op)) as H1.
    destruct (foldl (reconcile_op p x) (false, s) (meta_ops meta)) as [c s1]. cbn in H1.
    etrans; [by apply steps_shrink|].
    destruct (_ || _); cbn; [|apply steps_account; auto with account].
    etrans; [by apply steps_shrink, (remove_find_shrinks p mo x); auto|].
    apply steps_account; auto with account. }
  destruct ((ev_rv ev =? 0xb0) || (ev_rv ev =? 0xb3)).
  { pose proof (retire_session_shrinks p mo x session_in_scope s) as H1.
    destruct (retire_session p x s) as [c s1]. cbn in *.
    etrans; [by apply steps_shrink | apply steps_account; auto with account]. }
  case_match; [|done].
  pose proof (clear_scope_shrinks p mo true s) as H1. unfold retire_scope. fold mo.
  destruct (clear_scope p mo true s) as [c s1]. cbn in *.
  etrans; [by apply steps_shrink | apply steps_account; auto with account].
Qed.

(** Sessions of the event's module. *)
Lemma owned_session_in_scope P s y :
  y ∈ (open_sessions (λ q z i, scoped p mo q z && P i) s).*1 → in_scope mo (session_module y).
Proof using.
  intros (q & i & _ & [[_ ?]%scoped_true _]%andb_true_iff)%elem_of_open_sessions_fst. done.
Qed.

Lemma apply_auth_steps s : steps p mo s (apply_auth p ev meta s).
Proof using.
  unfold apply_auth. fold x. case_match; [done|]. case_match; [done|].
  destruct (open s !! (p, x)) as [info|]; [|done]. fold mo. set (l := (open_sessions _ s).*1).
  pose proof (foldl_rel_snd (shrinks p mo) (clear_sessions p) l (false, s)) as H1.
  assert (shrinks p mo s (foldl (clear_sessions p) (false, s) l).2) as H2.
  { apply H1. intros y acc Hy. apply owned_session_in_scope in Hy.
    pose proof (clear_session_state_shrinks p mo y Hy acc.2) as H2.
    unfold clear_sessions. by destruct (clear_session_state p y acc.2). }
  destruct (foldl (clear_sessions p) (false, s) l) as [c s1]. cbn in *.
  etrans; [by apply steps_shrink | apply steps_account; auto with account].
Qed.

Lemma apply_session_cancel_steps s : steps p mo s (apply_session_cancel p ev x s).
Proof using.
  unfold apply_session_cancel.
  set (s1 := if nz (ev_flags ev &~ KNOWN_CANCEL_FLAGS) then _ else s).
  assert (account s s1) as H1 by (unfold s1; case_match; auto with account).
  etrans; [by apply steps_account|]. case_match.
  - etrans; [by apply steps_shrink, (clear_selected_shrinks p mo x); auto|].
    apply steps_account; auto with account.
  - case_match; [by apply steps_shrink, clear_selected_shrinks | done].
Qed.

Lemma retire_session_open s : open (retire_session p x s).2 = delete (p, x) (open s).
Proof using. unfold retire_session. cbn. by case_match. Qed.

Lemma open_session_steps s : tracked p s → steps p mo s (open_session p ev meta s).
Proof using.
  intros Ht. unfold open_session. fold x.
  pose proof (retire_session_shrinks p mo x session_in_scope s) as H1.
  pose proof (retire_session_open s) as Hopen.
  destruct (retire_session p x s) as [c s1]. cbn in H1, Hopen.
  set (s2 := count_opened _ _).
  assert (steps p mo s s2) as H2.
  { etrans; [by apply steps_shrink|]. apply steps_account. unfold s2. etrans; [|apply account_sessions].
    destruct c; auto with account. }
  etrans; [exact H2|]. assert (open s2 !! (p, x) = None) as Hx.
  { replace (open s2) with (open s1) by (unfold s2; by destruct c). by rewrite Hopen, lookup_delete_eq. }
  pose proof (steps_tracked _ _ _ _ p H2 Ht) as Ht2.
  set (n := 1 + _).
  assert (0 < n) as Hn by (unfold n; destruct (bool_decide _); cbn; lia).
  destruct (State_admit_admits n s2) as [? | ? ? | ? ?]; [lia | lia | | apply steps_account; auto with account].
  etrans; [|apply steps_account, account_sessions].
  apply rtc_once, step_open; try done. destruct Ht2; [done | lia].
Qed.

Lemma apply_lifecycle_steps s : tracked p s → steps p mo s (apply_lifecycle p ev meta s).
Proof using.
  intros Ht. unfold apply_lifecycle. fold x mo.
  destruct (_ && (_ && negb _)); [by apply open_session_steps|].
  destruct ((_ =? lifecycle.CLOSE_SESSION) && _).
  { pose proof (retire_session_shrinks p mo x session_in_scope s) as H1.
    destruct (retire_session p x s) as [c s1]. cbn in H1.
    etrans; [by apply steps_shrink|]. destruct c; [done|]. apply steps_account. same. }
  destruct ((_ =? lifecycle.CLOSE_ALL_SESSIONS) && _).
  { apply (foldl_rel (steps p mo)). intros y s' Hy%owned_session_in_scope.
    by apply steps_shrink, retire_session_shrinks. }
  destruct ((_ =? lifecycle.FINALIZE) && _); [apply steps_shrink, clear_scope_shrinks|].
  destruct (_ || _); [apply apply_auth_steps|].
  destruct ((_ =? lifecycle.FIND_INIT) && _); [by apply mark_find_steps|].
  destruct ((_ =? lifecycle.FIND_FINAL) && _); [by apply steps_shrink, remove_find_shrinks|].
  destruct (_ =? lifecycle.SESSION_CANCEL); [apply apply_session_cancel_steps|].
  destruct ((_ =? lifecycle.SET_OPERATION_STATE) && _); [|done].
  etrans; [by apply steps_shrink, (clear_operations_shrinks p mo x)|]. apply steps_account; auto with account.
Qed.

Lemma apply_completed_steps was_pending s :
  tracked p s → steps p mo s (apply_completed p ev meta was_pending s).
Proof using.
  intros Ht. unfold apply_completed.
  set (s1 := observe_templates ev meta s).
  match goal with |- context [if ?b then record_requested_mechanism ev meta s1 else s1] =>
    set (s2 := if b then record_requested_mechanism ev meta s1 else s1) end.
  match goal with |- context [if ?b then count_login ?u s2 else s2] =>
    set (s3 := if b then count_login u s2 else s2) end.
  assert (account s s3) as H3.
  { unfold s3, s2, s1. etrans; [apply observe_templates_account|].
    etrans; [|case_match; [apply count_login_account | apply account_refl]].
    case_match; [apply record_requested_mechanism_account | apply account_refl]. }
  etrans; [by apply steps_account|].
  pose proof (reconcile_conclusive_steps s3) as H4.
  destruct (reconcile_conclusive p ev meta s3) as [d s4]. cbn in H4.
  etrans; [exact H4|]. destruct d; [done|].
  assert (tracked p s4) as Ht4.
  { eapply steps_tracked; [exact H4|]. by eapply steps_tracked; [apply (steps_account p mo), H3|]. }
  pose proof (apply_lifecycle_steps s4 Ht4) as H5. etrans; [exact H5|].
  case_match; [by eapply apply_init_steps, steps_tracked|]. case_match; [apply apply_operations_steps | done].
Qed.

Lemma queue_pending_steps s : steps p mo s (queue_pending p ev meta s).
Proof using.
  unfold queue_pending. destruct (meta_function_id meta) as [f|] eqn:Ef;
    [|apply steps_account; auto with account].
  case_match; [apply steps_account; auto with account|].
  etrans; [apply steps_account; apply (account_same s (set_sequence (λ n, as_u64 (n + 1)) s)); done|].
  by apply rtc_once, step_queue.
Qed.
End Event.

(** A stored call of the same module and session. *)
Lemma complete_pending_steps p m ev pd s :
  tracked p s → meta_module (pending_meta pd) = m → steps p (Some m) s (complete_pending p ev pd s).
Proof.
  intros Ht <-. unfold complete_pending. case_match; [apply queue_pending_steps | by apply apply_completed_steps].
Qed.

Section Async.
Context (p : pkey) (x : SessionRef) (ev : Event).
Let mo := Some (session_module x).

Lemma find_detached_spec f s k d :
  find_detached p x f s = Some (k, d) → detached s !! k = Some d ∧ owner d = Some (p, x).
Proof using.
  intros [Hin [Ho%bool_decide_eq_true _]%andb_true_iff]%least_elem%list_elem_of_In%filter_In.
  apply list_elem_of_In, elem_of_map_to_list in Hin. done.
Qed.

Lemma async_complete_steps s : wf s → tracked p s → steps p mo s (async_complete p x ev s).
Proof using.
  intros W Ht. unfold async_complete. case_match; [done|].
  destruct (pending s !! _) as [pd|] eqn:E.
  { assert (steps p mo s (set_pending (delete (p, x, ev_target_function ev)) s)) as H1.
    { apply steps_shrink, shrinks_pending; [apply delete_subseteq|]. intros k Hk. apply lookup_delete_ne.
      intros <-. by destruct Hk. }
    etrans; [exact H1|]. apply complete_pending_steps; [by eapply steps_tracked|].
    by destruct (wf_pending _ W _ _ E). }
  destruct (find_detached _ _ _ _) as [[k d]|] eqn:Ed; [|apply steps_account; auto with account].
  destruct (collided d); [apply steps_account; auto with account|].
  apply find_detached_spec in Ed as [Hd Ho]. destruct (wf_detached _ W _ _ Hd) as (Hm & _ & _ & Hw).
  destruct (Hw _ _ Ho) as [Hp Hk].
  assert (steps p mo s (set_detached (delete k) s)) as H1.
  { apply steps_shrink, shrinks_detached. intros j. destruct (decide (k = j)) as [<-|Hne].
    - rewrite lookup_delete_eq, Hd. right. exists d. split_and!; [done | right; by eexists | by left].
    - rewrite lookup_delete_ne by done. by left. }
  etrans; [exact H1|]. apply complete_pending_steps; [by eapply steps_tracked | congruence].
Qed.

Lemma async_get_id_steps s : steps p mo s (async_get_id p x ev s).
Proof using.
  unfold async_get_id. destruct (open s !! (p, x)) as [info|]; [|apply steps_account; auto with account].
  destruct (pending s !! _) as [pd|] eqn:E; [|apply steps_account; auto with account].
  set (key := (p, x, ev_target_function ev)) in *.
  assert (steps p mo s (set_pending (delete key) s)) as H1.
  { apply steps_shrink, shrinks_pending; [apply delete_subseteq|]. intros k Hk. apply lookup_delete_ne.
    intros <-. by destruct Hk. }
  set (dk := async_id p x (info_slot info) ev). cbn [detached set_pending].
  assert (∀ d, detached s !! dk = Some d → detached_process d = p → collided d = false →
    steps p mo s (set_detached (insert dk (mkDetached pd (Some (p, x)) p false)) (set_pending (delete key) s)))
    as Hmint.
  { intros d Hd Hp Hc. apply rtc_once, step_mint; try done. intros e He. simplify_eq. done. }
  destruct (detached s !! dk) as [d|] eqn:Ed.
  - case_bool_decide as Hp; cbn [negb]; [destruct (collided d) eqn:Ec|].
    + etrans; [exact H1 | apply steps_account; auto with account].
    + etrans; [by eapply Hmint | apply steps_account; auto with account].
    + etrans; [exact H1|]. etrans; [by eapply rtc_once, (step_collide p mo _ dk d)|].
      apply steps_account; auto with account.
  - apply rtc_once, step_mint; try done. intros e He. congruence.
Qed.

Lemma async_join_steps s : steps p mo s (async_join p x ev s).
Proof using.
  unfold async_join. destruct (open s !! (p, x)) as [info|]; [|apply steps_account; auto with account].
  destruct (detached s !! _) as [d|] eqn:Ed; [|apply steps_account; auto with account].
  destruct (collided d) eqn:Ec; [apply steps_account; auto with account|].
  by apply rtc_once, step_join.
Qed.
End Async.

Definition event_module (s : State) (ev : Event) : Z :=
  from_option meta_module MODULE_UNRESOLVED (slot_of s (ev_slot ev)).

Lemma observe_async_steps p ev s :
  wf s → tracked p s → steps p (Some (event_module s ev)) s (observe_async p ev s).
Proof.
  intros W Ht. unfold observe_async, event_module.
  case_match; [apply steps_account; auto with account|]. case_match; [apply steps_account; auto with account|].
  destruct (slot_of s (ev_slot ev)) as [meta|]; [|done]. cbn [from_option].
  set (x := meta_session meta (ev_session ev)). change (meta_module meta) with (session_module x).
  case_match; [by apply async_complete_steps|]. case_match; [apply async_get_id_steps|].
  case_match; [apply async_join_steps | done].
Qed.

Lemma note_history_steps process s mo :
  wf s →
  steps (ProcessKey_identity process) mo s (note_history process s)
  ∧ tracked (ProcessKey_identity process) (note_history process s).
Proof.
  intros W. unfold note_history. case_bool_decide as Hh; [split; [done | by left]|].
  destruct (State_admit_admits 1 s) as [? | ? ? | ? Hlim]; [lia | done | |].
  - split; [|left; cbn; rewrite lookup_insert_eq; eauto].
    apply rtc_once, (step_history _ mo s); [done | by apply eq_None_not_Some | by right].
  - split; [apply steps_account; auto with account|]. right. specialize (Hlim W). cbn. lia.
Qed.

Lemma settle_inherited_shrinks p mo x s :
  in_scope mo (session_module x) → shrinks p mo s (settle_inherited p x s).
Proof.
  intros Hx. unfold settle_inherited. case_bool_decide; [|done].
  etrans; [by apply (remove_ambiguous_shrinks p mo x)|]. by apply shrinks_counts.
Qed.

(** An event is a sequence of steps of its process and module. *)
Lemma observe_process_steps process ev s :
  wf s →
  steps (ProcessKey_identity process) (Some (event_module s ev)) s (observe_process process ev s).
Proof.
  intros W. unfold observe_process. set (p := ProcessKey_identity process).
  case_match; [apply steps_account, reject_history_account|].
  destruct (note_history_steps process s (Some (event_module s ev)) W) as [H1 Ht]. fold p in H1, Ht.
  set (s2 := count_cgroup _ ev _).
  assert (steps p (Some (event_module s ev)) s s2) as H2.
  { etrans; [exact H1|]. apply steps_account, count_cgroup_account. }
  pose proof (steps_monotone _ _ _ _ H2) as (_ & Hslots & _).
  assert (slot_of s2 (ev_slot ev) = slot_of s (ev_slot ev)) as Hslot by (unfold slot_of; by rewrite Hslots).
  assert (tracked p s2) as Ht2.
  { eapply (steps_tracked p (Some (event_module s ev))); [|exact Ht]. apply steps_account, count_cgroup_account. }
  etrans; [exact H2|]. rewrite Hslot. unfold event_module.
  destruct (slot_of s (ev_slot ev)) as [meta|] eqn:Em; [|done]. cbn [from_option].
  case_bool_decide; [done|].
  match goal with |- context [if ?b then s2 else ?t] => set (s3 := if b then s2 else t) end.
  assert (steps p (Some (meta_module meta)) s2 s3) as H3.
  { unfold s3. case_match; [done|]. by apply steps_shrink, settle_inherited_shrinks. }
  pose proof (steps_tracked _ _ _ _ p H3 Ht2) as Ht3.
  etrans; [exact H3|]. pose proof (steps_monotone _ _ _ _ H3) as (_ & Hslots3 & _).
  case_match; [|case_match; [apply queue_pending_steps | by apply apply_completed_steps]].
  assert (event_module s3 ev = meta_module meta) as <-.
  { unfold event_module, slot_of in *. by rewrite Hslots3, Hslots, Em. }
  apply observe_async_steps; [|done]. eapply steps_wf; [exact H3|]. by eapply steps_wf.
Qed.

(** *** Forks *)

Section Fork.
Context (parent child : pkey) (ops : SessionRef → list (Z * Binding)).
Hypothesis Hops : ∀ x e, e ∈ ops x → known_op e.1.

Lemma inherit_op_steps x s e :
  known_op e.1 → tracked_steps child None s (inherit_op child x s e) ∧ open (inherit_op child x s e) = open s.
Proof using.
  intros He. unfold inherit_op. destruct (binding_fork_safe e.2).
  - split; [by apply bind_op_steps|]. unfold bind_op.
    destruct (admit_unless_admits (bool_decide (is_Some (active_ops s !! (child, x, e.1)))) s); [|done].
    by destruct (bool_decide _).
  - split; [by apply mark_ambiguous_steps|]. unfold mark_ambiguous.
    destruct (admit_unless_admits (bool_decide ((child, x) ∈ inherited_ambiguous s)) s); [|done].
    by destruct (bool_decide _).
Qed.

Lemma inherit_ops_steps x l s :
  (∀ e, e ∈ l → known_op e.1) →
  tracked_steps child None s (foldl (inherit_op child x) s l) ∧ open (foldl (inherit_op child x) s l) = open s.
Proof using.
  revert s. induction l as [|e l IH]; intros s Hl; cbn; [done|].
  destruct (inherit_op_steps x s e) as [H1 H2]; [apply Hl, list_elem_of_here|].
  destruct (IH (inherit_op child x s e)) as [H3 H4]; [intros; apply Hl; by right|].
  split; [by etrans | congruence].
Qed.

Lemma mark_find_open k s : open (mark_find k s) = open s.
Proof using.
  unfold mark_find. destruct (admit_unless_admits (bool_decide (k ∈ find_active s)) s); [|done].
  by destruct (bool_decide _).
Qed.

Lemma mark_ambiguous_open k s : open (mark_ambiguous k s) = open s.
Proof using.
  unfold mark_ambiguous. destruct (admit_unless_admits (bool_decide (k ∈ inherited_ambiguous s)) s); [|done].
  by destruct (bool_decide _).
Qed.

Lemma inherit_session_steps s x i :
  is_Some (reduced_histories s !! child) → open s !! (child, x) = None →
  steps child None s (inherit_session parent child ops s (x, i))
  ∧ ∀ y, y ≠ x → open (inherit_session parent child ops s (x, i)) !! (child, y) = open s !! (child, y).
Proof using Hops.
  intros Hh Hx. unfold inherit_session. destruct (info_fork_safe i).
  2: { split; [apply mark_ambiguous_steps; [done | by left]|]. by rewrite mark_ambiguous_open. }
  rewrite Hx, (bool_decide_eq_false_2 (is_Some (@None SessionInfo))) by (by intros []). cbn [negb Z.b2z].
  set (n := Z.b2z _ + 1). assert (0 < n) as Hn by (unfold n; destruct (bool_decide _); cbn; lia).
  destruct (State_admit_admits n s) as [? | ? ? | ? ?]; [lia | lia | |].
  2: { split; [apply steps_account; auto with account | done]. }
  set (s1 := count_inherited _). set (s2 := foldl _ s1 _).
  assert (steps child None s s1) as H1.
  { etrans; [|apply steps_account, account_sessions]. apply rtc_once, step_open; try done. unfold n. lia. }
  destruct (inherit_ops_steps x (ops x) s1) as [H2 Ho]; [intros e; apply Hops|]. fold s2 in H2, Ho.
  assert (∀ y, y ≠ x → open s2 !! (child, y) = open s !! (child, y)) as Hy.
  { intros y Hy. rewrite Ho. cbn. rewrite lookup_insert_ne by congruence. done. }
  assert (tracked child s) as Ht by (by left).
  pose proof (steps_tracked _ _ _ _ child H1 Ht) as Ht1. specialize (H2 Ht1).
  pose proof (steps_tracked _ _ _ _ child H2 Ht1) as Ht2.
  split.
  - etrans; [exact H1|]. etrans; [exact H2|]. case_bool_decide; [by apply mark_find_steps | done].
  - intros y Hne. case_bool_decide; [rewrite mark_find_open|]; by apply Hy.
Qed.

Lemma inherit_sessions_steps l s :
  NoDup l.*1 → is_Some (reduced_histories s !! child) → (∀ x, x ∈ l.*1 → open s !! (child, x) = None) →
  steps child None s (foldl (inherit_session parent child ops) s l).
Proof using Hops.
  revert s. induction l as [|[x i] l IH]; intros s; cbn; [done|].
  rewrite NoDup_cons. intros [Hx Hnd] Hh Hopen.
  destruct (inherit_session_steps s x i) as [H1 H2]; [done | apply Hopen; left |].
  etrans; [exact H1|]. apply IH; [done | |].
  - pose proof (steps_monotone _ _ _ _ H1) as (_ & _ & _ & _ & _ & Hsub). destruct Hh as [P HP].
    exists P. by eapply lookup_weaken.
  - intros y Hy. rewrite H2 by (by intros ->). apply Hopen. by right.
Qed.
End Fork.

Lemma grouped_ops_spec parent x s e :
  e ∈ grouped_ops parent x s ↔ active_ops s !! (parent, x, e.1) = Some e.2.
Proof.
  unfold grouped_ops. rewrite in_order_perm, list_elem_of_fmap. destruct e as [op b]. split.
  - intros ([[[q y] o] c] & [= -> ->] & Hin%elem_of_map_to_list).
    apply map_lookup_filter_Some in Hin as [Hin Heq]. cbn in Heq. by simplify_eq.
  - intros Hb. exists (parent, x, op, b). split; [done|]. by apply elem_of_map_to_list, map_lookup_filter_Some.
Qed.

Lemma open_sessions_NoDup parent s : NoDup (open_sessions (λ q _ _, bool_decide (q = parent)) s).*1.
Proof.
  unfold open_sessions. rewrite in_order_perm, <- list_fmap_compose. apply NoDup_fmap_2_strong.
  - intros [[q x] i] [[r y] j] H1%elem_of_map_to_list H2%elem_of_map_to_list. cbn. intros <-.
    apply map_lookup_filter_Some in H1 as [G1 Hq%bool_decide_eq_true].
    apply map_lookup_filter_Some in H2 as [G2 Hr%bool_decide_eq_true]. cbn in *. subst. by simplify_eq.
  - apply NoDup_map_to_list.
Qed.

(** A fork is a sequence of steps of the child. *)
Lemma fork_process_steps parent child s :
  wf s → steps (ProcessKey_identity child) None s (fork_process parent child s).
Proof.
  intros W. unfold fork_process. case_match; [done|]. case_bool_decide as Hh; [done|].
  apply eq_None_not_Some in Hh.
  destruct (State_admit_admits 1 s) as [? | ? ? | ? ?]; [lia | done | | apply steps_account; auto with account].
  set (ck := ProcessKey_identity child) in *. set (s1 := set_reduced_histories _ _).
  assert (steps ck None s s1) as Hs1.
  { apply rtc_once, (step_history _ _ s); [done | done | by right]. }
  etrans; [exact Hs1|]. etrans; [|apply steps_account, account_sessions].
  apply inherit_sessions_steps.
  - intros x e He%grouped_ops_spec. by apply (wf_ops _ W) in He.
  - apply open_sessions_NoDup.
  - cbn. rewrite lookup_insert_eq. eauto.
  - intros x _. cbn. destruct (open s !! (ck, x)) as [i|] eqn:E; [|done].
    destruct (wf_open _ W _ _ _ E) as [[? ?] _]. congruence.
Qed.
End Reducer.
