(* ===== verification/SemanticsProps.v ===== *)
(** * What the semantic state machine guarantees

    The invariants and the contracts of [src/semantics.rs] for every history of its
    public methods ([Command], [run]): the key budget, the pseudonyms, the typing of
    its tables, the isolation of processes and modules, the sweep of a scope, the
    inheritance of a fork and the fate of asynchronous ids. *)
From stdpp Require Import sorting.
From S2P Require Import Prelude Counters ObjectPolicy Semantics SemanticsStep SemanticsRefine.

(** ** Isolation *)

Record isolated (p : pkey) (mo : option Z) (s s' : State) : Prop := {
  iso_open : ∀ k, ¬ owns p mo k → open s' !! k = open s !! k;
  iso_ops : ∀ k, ¬ owns p mo k.1 → active_ops s' !! k = active_ops s !! k;
  iso_find : ∀ k, ¬ owns p mo k → (k ∈ find_active s' ↔ k ∈ find_active s);
  iso_ambiguous : ∀ k, ¬ owns p mo k → (k ∈ inherited_ambiguous s' ↔ k ∈ inherited_ambiguous s);
  iso_counters : ∀ q, q ≠ p → next_pseudonym s' !! q = next_pseudonym s !! q;
  iso_pending : ∀ k, ¬ owns p mo k.1 → pending s' !! k = pending s !! k ∨ pending s' !! k = None;
  iso_detached : ∀ k : detached_key, ¬ (in_scope mo k.1.1.1.1 ∧ k.2 = pkey_domain p) →
    detached s' !! k = detached s !! k ∨ detached s' !! k = None;
}.

Lemma isolated_refl p mo s : isolated p mo s s.
Proof. split; try done; by left. Qed.

Lemma isolated_trans p mo s1 s2 s3 : isolated p mo s1 s2 → isolated p mo s2 s3 → isolated p mo s1 s3.
Proof.
  intros [A1 A2 A3 A4 A5 A6 A7] [B1 B2 B3 B4 B5 B6 B7].
  split; intros k Hk; rewrite ?B1, ?B2, ?B3, ?B4, ?B5 by done; try by auto.
  - destruct (B6 k Hk) as [-> | ->]; [by apply A6 | by right].
  - destruct (B7 k Hk) as [-> | ->]; [by apply A7 | by right].
Qed.

(** A change of counters leaves the live state. *)
Lemma isolated_live p mo s s' : live s' = live s → isolated p mo s s'.
Proof.
  intros Hl. use_live Hl. split; rewrite ?Hcount, ?Hopen, ?Hops, ?Hfind, ?Hamb, ?Hpend, ?Hdet; try done; by left.
Qed.

Lemma isolated_shrinks p mo s s' : wf s → shrinks p mo s s' → isolated p mo s s'.
Proof.
  intros W [_ _ _ _ H1 _ _ H2 _ H3 H4 H4' H5 H5' _ H6 H7].
  split; try by auto.
  - intros k Hk. split; [apply H4 | by apply H4'].
  - intros k Hk. split; [apply H5 | by apply H5'].
  - intros k Hk. destruct (H7 k) as [Heq | (d & Hd & Ho & _)]; [by left|]. destruct Hk.
    destruct (wf_detached _ W _ _ Hd) as (_ & _ & Hdom & Hw).
    destruct Ho as [[Hp Hm] | (x & Ho & Hm)]; [by subst p|].
    destruct (Hw _ _ Ho) as [Hp Hx]. rewrite <- Hx, <- Hdom, <- Hp. done.
Qed.

Lemma isolated_queue p mo s x f pd g :
  in_scope mo (session_module x) →
  isolated p mo s (evict_pending_if_needed (set_evidence g (set_pending (insert (p, x, f) pd) s))).
Proof.
  intros Hx. set (s1 := set_evidence g _).
  destruct (evicts_rest _ _ (evict_pending_evicts s1)) as (_ & _ & _ & Hl & Hp & Hd).
  injection Hl as Hcount Hopen Hops Hfind Hamb.
  split; rewrite ?Hcount, ?Hopen, ?Hops, ?Hfind, ?Hamb; try done.
  - intros k Hk. destruct (pending (evict_pending_if_needed s1) !! k) as [pd'|] eqn:E; [left | by right].
    eapply lookup_weaken in E; [|exact Hp]. cbn in E. rewrite lookup_insert_ne in E; [done|].
    intros <-. by destruct Hk.
  - intros k _. destruct (detached (evict_pending_if_needed s1) !! k) as [d|] eqn:E; [left | by right].
    symmetry. by eapply lookup_weaken in E; [|exact Hd].
Qed.

Lemma isolated_detached p mo s s' k d :
  in_scope mo k.1.1.1.1 → k.2 = pkey_domain p → isolated p mo s s' →
  isolated p mo s (set_detached (insert k d) s').
Proof.
  intros Hm Hd [H1 H2 H3 H4 H5 H6 H7]. split; try done.
  intros j Hj. cbn. rewrite lookup_insert_ne; [by apply H7|]. intros <-. by destruct Hj.
Qed.

Lemma isolated_pending p mo s k : owns p mo k.1 → isolated p mo s (set_pending (delete k) s).
Proof.
  intros Hk. split; try done; [|intros; by left]. intros j Hj. left. apply lookup_delete_ne. by intros <-.
Qed.

Lemma isolated_step p mo s s' : wf s → step p mo s s' → isolated p mo s s'.
Proof.
  intros W. destruct 1 as [s s' (_ & Hl & _)|s s' Hsh|s process Hid Hnone|s x slot fs n Hsc Hh Ho Hn
    |s x op b present Hsc|s x present Hsc|s x present Hsc|s x f pd g Hsc|s x f pd k Hsc Hpd Hk1 Hk2
    |s k d Hsc Hdom|s x k d Hsc Hk1 Hk2].
  - by apply isolated_live.
  - by apply isolated_shrinks.
  - by apply isolated_live.
  - split; try done; try (by left); cbn; intros k Hk.
    + rewrite lookup_insert_ne; [done|]. intros <-. by destruct Hk.
    + by rewrite lookup_insert_ne by congruence.
  - destruct present; (split; try done; try (by left); cbn; intros k Hk;
      rewrite lookup_insert_ne; [done|]; intros <-; by destruct Hk).
  - destruct present; (split; try done; try (by left); cbn; intros k Hk;
      rewrite elem_of_union, elem_of_singleton; split; [intros [-> | ?]; [by destruct Hk | done] | by right]).
  - destruct present; (split; try done; try (by left); cbn; intros k Hk;
      rewrite elem_of_union, elem_of_singleton; split; [intros [-> | ?]; [by destruct Hk | done] | by right]).
  - by apply isolated_queue.
  - apply isolated_detached; [by rewrite Hk1 | done | by apply isolated_pending].
  - apply isolated_detached; [done | done | apply isolated_refl].
  - apply isolated_detached; [by rewrite Hk1 | done | apply isolated_refl].
Qed.

Lemma isolated_steps p mo s s' : wf s → steps p mo s s' → isolated p mo s s'.
Proof.
  intros W H. revert W. induction H as [s | s1 s2 s3 H1 _ IH]; intros W; [apply isolated_refl|].
  eapply isolated_trans; [by apply isolated_step|]. apply IH. by eapply step_wf.
Qed.

(** ** Histories *)

(** The public methods that change a state. *)
Inductive Command :=
| Observe (process : ProcessKey) (ev : Event)
| ObservePid (ev : Event)
| Reject (ev : Event)
| Fork (parent child : ProcessKey)
| Retire (process : ProcessKey)
| Sync (plan : AttachPlan)
| Purge (modules : gset Z)
| Shapes (shapes : gmap Z Z).

Section Histories.
Context {RV : RvCodes} {FI : FunctionIds}.

Definition apply_command (s : State) (c : Command) : State :=
  match c with
  | Observe process ev => observe_process process ev s
  | ObservePid ev => observe ev s
  | Reject ev => reject_history ev s
  | Fork parent child => fork_process parent child s
  | Retire process => (retire_process (ProcessKey_identity process) s).2
  | Sync plan => sync_plan plan s
  | Purge modules => purge_modules modules s
  | Shapes shapes => set_mech_shapes (λ _, shapes) s
  end.

Definition run (s : State) (l : list Command) : State := foldl apply_command s l.

(** The states of a capture. *)
Definition reachable (s : State) : Prop :=
  ∃ plan policy domain l, s = run (for_capture plan policy domain) l.

Lemma wf_initial plan policy limit domain :
  0 <= limit <= U64_MAX → wf (with_key_limit plan policy limit domain).
Proof using.
  intros Hl. split; cbn; try (intros *; by rewrite lookup_empty); try lia.
  - unfold retained_dynamic_keys. cbn. rewrite !map_size_empty, !size_empty, !sum_by_empty. lia.
  - unfold pending_at_end, MAX_PENDING. cbn. rewrite !map_size_empty. lia.
  - split; cbn; [intros *; by rewrite lookup_empty | set_solver | set_solver].
Qed.

(** A well-formed state with the budget of its capture. *)
Definition bounded (limit : Z) (s : State) : Prop := wf s ∧ state_key_limit s = limit.

Lemma steps_bounded p mo limit s s' : steps p mo s s' → bounded limit s → bounded limit s'.
Proof using.
  intros H [W Hl]. split; [by eapply steps_wf|]. by destruct (steps_monotone _ _ _ _ H) as (_ & _ & -> & _).
Qed.

Lemma account_bounded limit s s' : account s s' → bounded limit s → bounded limit s'.
Proof using. intros H. by apply (steps_bounded (0, 0, 0, 0) None), steps_account. Qed.

Lemma shrinks_bounded p mo limit s s' : shrinks p mo s s' → bounded limit s → bounded limit s'.
Proof using. intros H. by eapply steps_bounded, steps_shrink. Qed.

(** The configuration does not matter to well-formedness. *)
Lemma config_bounded limit s s' :
  live s' = live s → (reduced_histories s', state_key_limit s', state_keys s')
    = (reduced_histories s, state_key_limit s, state_keys s) → agg_keys s' = agg_keys s →
  bounded limit s → bounded limit s'.
Proof using.
  intros Hl Hc Ha [W Hlim]. use_live Hl. injection Hc as Hhist Hlimit Hk.
  destruct W as [WB WL WA WH WC WO WP WOp [HO HF HM] WPe WD].
  assert (core_keys s' = core_keys s) as Hcore by (unfold core_keys; congruence).
  rewrite retained_split in WB. split; [|congruence].
  split; rewrite ?Hhist, ?Hlimit, ?Hk, ?Hcount, ?Hopen, ?Hops, ?Hpend, ?Hdet; try done.
  - rewrite retained_split. lia.
  - unfold pending_at_end. by rewrite Hpend, Hdet.
  - by split; rewrite ?Hhist, ?Hops, ?Hfind, ?Hamb.
Qed.

Lemma set_slots_bounded g limit s : bounded limit s → bounded limit (set_slots g s).
Proof using. by apply config_bounded. Qed.

Lemma set_shapes_bounded g limit s : bounded limit s → bounded limit (set_mech_shapes g s).
Proof using. by apply config_bounded. Qed.

Lemma clear_aggregates_account s : account s (clear_aggregates s).
Proof using.
  apply account_same; try done. unfold agg_keys at 1. cbn.
  rewrite !map_size_empty, !sum_by_empty. pose proof (agg_keys_nonneg s). lia.
Qed.

Lemma purge_scope_shrinks acc scope : shrinks scope.1 (Some scope.2) acc.2 (purge_scope acc scope).2.
Proof using.
  pose proof (clear_scope_shrinks scope.1 (Some scope.2) false acc.2) as Hsh. unfold purge_scope.
  by destruct (clear_scope scope.1 (Some scope.2) false acc.2).
Qed.

Lemma purge_modules_bounded modules limit s : bounded limit s → bounded limit (purge_modules modules s).
Proof using.
  intros W. unfold purge_modules. case_bool_decide; [done|].
  assert (∀ l acc, bounded limit acc.2 → bounded limit (foldl purge_scope acc l).2) as Hl.
  { intros l. induction l as [|scope l IH]; intros acc Wa; [done|]. apply IH.
    eapply shrinks_bounded; [apply purge_scope_shrinks | done]. }
  specialize (Hl (purge_scopes modules s) (false, s) W).
  destruct (foldl purge_scope _ _) as [c s1]. cbn in Hl.
  eapply account_bounded; [|exact Hl]. etrans; [apply clear_aggregates_account | auto with account].
Qed.

Lemma apply_command_bounded c limit s : bounded limit s → bounded limit (apply_command s c).
Proof using.
  intros W. destruct c as [process ev|ev|ev|parent child|process|plan|modules|shapes]; cbn [apply_command].
  - eapply steps_bounded; [by apply observe_process_steps, W | done].
  - unfold observe. case_match; [eapply steps_bounded; [by apply fork_process_steps, W | done]|].
    case_match; [done|]. eapply steps_bounded; [by apply observe_process_steps, W | done].
  - eapply account_bounded; [apply reject_history_account | done].
  - eapply steps_bounded; [by apply fork_process_steps, W | done].
  - eapply shrinks_bounded; [apply clear_scope_shrinks | done].
  - unfold sync_plan. case_match. by apply purge_modules_bounded, set_slots_bounded.
  - by apply purge_modules_bounded.
  - by apply set_shapes_bounded.
Qed.

Lemma run_bounded l limit s : bounded limit s → bounded limit (run s l).
Proof using.
  revert s. induction l as [|c l IH]; intros s W; cbn; [done|]. by apply IH, apply_command_bounded.
Qed.

Lemma reachable_bounded s : reachable s → bounded MAX_STATE_KEYS s.
Proof using.
  intros (plan & pol & dom & l & ->). apply run_bounded. split; [|done].
  apply wf_initial. unfold MAX_STATE_KEYS, U64_MAX. lia.
Qed.

Lemma capture_bounded plan pol domain l : bounded MAX_STATE_KEYS (run (for_capture plan pol domain) l).
Proof using. apply reachable_bounded. by exists plan, pol, domain, l. Qed.

(** ** Budget, pseudonyms and typing *)

(** C13: whatever events, forks, exits and plan changes a capture sees, its reducer
    retains no more keys than it admitted and admits at most [MAX_STATE_KEYS]; the
    calls in flight, pending and detached together, stay within [MAX_PENDING]. *)
Theorem reducer_budget plan pol domain l :
  let s := run (for_capture plan pol domain) l in
  retained_dynamic_keys s <= state_keys s <= MAX_STATE_KEYS ∧ pending_at_end s <= MAX_PENDING.
Proof using.
  destruct (capture_bounded plan pol domain l) as [W Hl]. cbn zeta.
  pose proof (wf_budget _ W). pose proof (wf_async _ W). rewrite Hl in *. done.
Qed.

(** two sessions of one process that show the same pseudonym are the same
    session of the same module, and a pseudonym is a positive number: no handle of
    a capture is ever rendered as another. *)
Theorem session_pseudonyms_distinct s process a b h h' n :
  reachable s →
  session_pseudonym_process process a h s = Some n → session_pseudonym_process process b h' s = Some n →
  1 <= n ∧ h = h' ∧ from_option meta_module MODULE_UNRESOLVED (slot_of s a)
                  = from_option meta_module MODULE_UNRESOLVED (slot_of s b).
Proof using.
  intros [W _]%reachable_bounded. unfold session_pseudonym_process.
  intros (i & Hi & ->)%fmap_Some (j & Hj & Heq)%fmap_Some.
  destruct (wf_open _ W _ _ _ Hi) as [_ (c & _ & ?)].
  pose proof (wf_pseudonyms _ W _ _ _ _ _ Hi Hj Heq) as [= ? ?]. split_and!; [lia | done | done].
Qed.

(** C31: the tables of a capture are typed: a history is stored under the identity of
    its process, a pending call under the module and function of its slot, an async
    id under the module and function of its call and the domain of its process, its
    owner a session of that process and module; a process with sessions, operations
    or searches has a history. *)
Theorem reducer_typed plan pol domain l :
  let s := run (for_capture plan pol domain) l in
  (∀ q process, reduced_histories s !! q = Some process → ProcessKey_identity process = q)
  ∧ (∀ q x f pd, pending s !! (q, x, f) = Some pd →
       meta_module (pending_meta pd) = session_module x ∧ meta_function_id (pending_meta pd) = Some f)
  ∧ (∀ m slot f v dom d, detached s !! (m, slot, f, v, dom) = Some d →
       meta_module (pending_meta (detached_pending d)) = m
       ∧ meta_function_id (pending_meta (detached_pending d)) = Some f
       ∧ pkey_domain (detached_process d) = dom
       ∧ ∀ q x, owner d = Some (q, x) → q = detached_process d ∧ session_module x = m)
  ∧ (∀ q x i, open s !! (q, x) = Some i → is_Some (reduced_histories s !! q))
  ∧ (∀ q x op b, active_ops s !! (q, x, op) = Some b → is_Some (reduced_histories s !! q) ∧ known_op op)
  ∧ (∀ q x, (q, x) ∈ find_active s → is_Some (reduced_histories s !! q)).
Proof using.
  destruct (capture_bounded plan pol domain l) as [W _]. cbn zeta.
  destruct (wf_homed _ W) as [HO HF _]. split_and!.
  - apply (wf_histories _ W).
  - intros q x f pd Hpd. by apply (wf_pending _ W) in Hpd.
  - intros m slot f v dom d Hd. by apply (wf_detached _ W) in Hd.
  - intros q x i Hi. by apply (wf_open _ W) in Hi as [? _].
  - intros q x op b Hb. split; [by apply HO in Hb | by apply (wf_ops _ W) in Hb].
  - intros q x Hx. by apply HF in Hx.
Qed.

(** ** Isolation of an event *)

(** C8: an event of one process and module leaves the sessions, operations, searches
    and fork doubts of every other process, and of every other module of the same
    process, as they are; their pending calls can only be evicted, and so can the
    async ids of another module or another domain. *)
Theorem event_isolation s process ev q x :
  reachable s →
  ¬ (q = ProcessKey_identity process ∧ session_module x = event_module s ev) →
  let s' := observe_process process ev s in
  open s' !! (q, x) = open s !! (q, x)
  ∧ (∀ op, active_ops s' !! (q, x, op) = active_ops s !! (q, x, op))
  ∧ ((q, x) ∈ find_active s' ↔ (q, x) ∈ find_active s)
  ∧ ((q, x) ∈ inherited_ambiguous s' ↔ (q, x) ∈ inherited_ambiguous s)
  ∧ (∀ f, pending s' !! (q, x, f) = pending s !! (q, x, f) ∨ pending s' !! (q, x, f) = None)
  ∧ (∀ m slot f v dom, m ≠ event_module s ev ∨ dom ≠ pk_domain process →
       detached s' !! (m, slot, f, v, dom) = detached s !! (m, slot, f, v, dom)
       ∨ detached s' !! (m, slot, f, v, dom) = None).
Proof using.
  intros [W _]%reachable_bounded Hk. cbn zeta.
  destruct (isolated_steps _ _ _ _ W (observe_process_steps process ev s W)) as [H1 H2 H3 H4 _ H6 H7].
  assert (¬ owns (ProcessKey_identity process) (Some (event_module s ev)) (q, x)) as Ho by done.
  split_and!; eauto. intros m slot f v dom Hne. apply H7. cbn. intros [-> ->]. by destruct Hne.
Qed.

(** ** The sweep of a scope *)

Lemma map_any_false {K A} `{Countable K} (P : K → A → bool) (m : gmap K A) :
  map_any P m = false ↔ ∀ k x, m !! k = Some x → P k x = false.
Proof using.
  unfold map_any. rewrite negb_false_iff, Nat.eqb_eq, map_size_empty_iff. split.
  - intros Hm k x Hk. apply not_true_is_false. intros HP.
    assert (filter (λ kv : K * A, P kv.1 kv.2 = true) m !! k = Some x) as Hf by (by apply map_lookup_filter_Some).
    by rewrite Hm, lookup_empty in Hf.
  - intros Hm. apply map_empty. intros k. apply map_lookup_filter_None_2. right. intros x Hk. cbn.
    by rewrite (Hm k x Hk).
Qed.

Lemma set_any_false {K} `{Countable K} (P : K → bool) (m : gset K) :
  set_any P m = false ↔ ∀ k, k ∈ m → P k = false.
Proof using.
  unfold set_any. rewrite negb_false_iff, Nat.eqb_eq, size_empty_iff. split.
  - intros Hm k Hk. apply not_true_is_false. intros HP.
    assert (k ∈ filter (λ k, P k = true) m) as Hf by (by apply elem_of_filter). set_solver.
  - intros Hm k. rewrite elem_of_filter. split; [|set_solver]. intros [HP Hk]. rewrite (Hm k Hk) in HP. done.
Qed.

Lemma sweep_scope_empty p mo s :
  (∀ q x i, open s !! (q, x) = Some i → scoped p mo q x = false) →
  has_scope_state p mo (sweep_scope p mo s) = false.
Proof using.
  intros Hopen. unfold has_scope_state. rewrite !orb_false_iff. split_and!.
  - apply map_any_false. intros [q x] i Hi. by eapply Hopen.
  - apply map_any_false. intros k b. cbn. rewrite map_drop_lookup. intros (? & _ & Hk)%bind_Some.
    by destruct (scoped _ _ _ _).
  - apply set_any_false. intros k Hk. by apply set_drop_spec in Hk as [_ ?].
  - apply map_any_false. intros k b. cbn. rewrite map_drop_lookup. intros (? & _ & Hk)%bind_Some.
    by destruct (scoped _ _ _ _).
  - apply map_any_false. intros k d. cbn. rewrite map_drop_lookup. intros (e & _ & Hk)%bind_Some.
    destruct (scoped_detached p mo k.1.1.1.1 e) eqn:E; [done|]. by simplify_eq.
  - apply set_any_false. intros k Hk. by apply set_drop_spec in Hk as [_ ?].
Qed.

Lemma has_scope_state_counters p mo g s : has_scope_state p mo (set_next_pseudonym g s) = has_scope_state p mo s.
Proof using. reflexivity. Qed.

Lemma clear_scope_empty p mo count s : has_scope_state p mo (clear_scope p mo count s).2 = false.
Proof using.
  rewrite clear_scope_eq. cbn [snd]. set (s1 := foldl _ s _).
  assert (has_scope_state p mo (sweep_scope p mo s1) = false) as H1.
  { apply sweep_scope_empty. intros q x i Hi. unfold s1 in Hi. rewrite foldl_clear_open in Hi.
    case_bool_decide as Hx; [done|]. apply not_true_is_false. intros Hs. apply Hx. cbn.
    destruct (scoped_true _ _ _ _ Hs) as [Hq _]. cbn in Hq. split; [done|].
    apply elem_of_open_sessions_fst. eauto. }
  destruct mo; [exact H1|]. rewrite has_scope_state_counters. exact H1.
Qed.

(** C29: retiring a process, or one module's Cryptoki in it, reports whether the
    scope held any state, leaves none of it, and leaves every other scope as it was:
    the sessions, operations, searches, doubts and pending calls of other processes
    and modules, the async ids held by other processes or issued by other modules,
    and the pseudonym counters of other processes. *)
Theorem retire_scope_exact s p mo :
  reachable s →
  let s' := (retire_scope p mo s).2 in
  (retire_scope p mo s).1 = Z.b2z (has_scope_state p mo s)
  ∧ has_scope_state p mo s' = false
  ∧ (∀ q x, scoped p mo q x = false →
       open s' !! (q, x) = open s !! (q, x)
       ∧ (∀ op, active_ops s' !! (q, x, op) = active_ops s !! (q, x, op))
       ∧ ((q, x) ∈ find_active s' ↔ (q, x) ∈ find_active s)
       ∧ ((q, x) ∈ inherited_ambiguous s' ↔ (q, x) ∈ inherited_ambiguous s)
       ∧ ∀ f, pending s' !! (q, x, f) = pending s !! (q, x, f))
  ∧ (∀ m slot f v dom d, detached s !! (m, slot, f, v, dom) = Some d → scoped_detached p mo m d = false →
       detached s' !! (m, slot, f, v, dom) = Some d)
  ∧ (∀ q, q ≠ p → next_pseudonym s' !! q = next_pseudonym s !! q).
Proof using.
  intros [W _]%reachable_bounded. cbn zeta. unfold retire_scope.
  split; [done|]. split; [apply clear_scope_empty|].
  destruct (clear_scope_shrinks p mo true s) as [_ _ _ _ Hc _ _ H2 _ H3 H4 H4' H5 H5' _ H6 H7].
  split; [|split; [|done]].
  - intros q x Hs. assert (¬ owns p mo (q, x)) as Ho.
    { intros [Hq Hm]. cbn in *. subst q. unfold scoped in Hs. rewrite bool_decide_eq_true_2 in Hs by done.
      destruct mo as [m|]; [|done]. cbn in *. by apply Z.eqb_neq in Hs. }
    split_and!; eauto; split; [apply H4 | by apply H4' | apply H5 | by apply H5'].
  - intros m slot f v dom d Hd Hs. set (k := (m, slot, f, v, dom)) in *.
    destruct (H7 k) as [-> | (e & He & Ho & _)]; [done|]. rewrite Hd in He. injection He as <-.
    destruct (wf_detached _ W _ _ Hd) as (_ & _ & _ & Hw).
    assert (detached_process d = p ∧ in_scope mo m) as [Hp Hm].
    { destruct Ho as [? | (x & Ho & Hm)]; [done|]. destruct (Hw _ _ Ho) as [-> Hx]. cbn in Hx. by subst m. }
    unfold scoped_detached in Hs. rewrite bool_decide_eq_true_2 in Hs by done.
    destruct mo as [m'|]; [|done]. cbn in *. by apply Z.eqb_neq in Hs.
Qed.
End Histories.

(** ** A capture *)

(** Return codes and a catalog to run the reducer with. *)
Definition demo_rv : RvCodes := Build_RvCodes 0x205 0x150 0x91 0x190 0xa4 0x202.
Definition demo_ids : FunctionIds := λ name,
  if String.eqb name "C_Sign" then Some 42 else None.

Definition demo_semantics (operations transition lifecycle : Z) : SlotSemantics :=
  mkSemantics operations transition lifecycle direct.NONE 0 0 ARG_NONE ARG_NONE ARG_NONE
    ARG_NONE ARG_NONE ARG_NONE ARG_NONE ARG_NONE ARG_NONE ARG_NONE ARG_NONE.

Definition demo_slot (index : Z) (name : string) (sem : SlotSemantics) : Slot :=
  mkPlanSlot index 1 0 "module" 0 [name] false sem true false true [7].

(** Two modules: 7 with its signing and async calls, 8 with its own [C_OpenSession]. *)
Definition demo_plan : AttachPlan :=
  mkPlan
    [demo_slot 0 "C_OpenSession" (demo_semantics 0 transition.NONE lifecycle.OPEN_SESSION);
     demo_slot 1 "C_SignInit" (demo_semantics operation.SIGN transition.INITIALIZE lifecycle.NONE);
     demo_slot 2 "C_Sign" (demo_semantics operation.SIGN transition.FINISH_WITH_OUTPUT lifecycle.NONE);
     demo_slot 3 "C_AsyncGetID" (demo_semantics 0 transition.NONE lifecycle.ASYNC_GET_ID);
     mkPlanSlot 4 1 1 "other" 0 ["C_OpenSession"%string] false
       (demo_semantics 0 transition.NONE lifecycle.OPEN_SESSION) true false false [8]]
    [Sole 7; Sole 7; Sole 7; Sole 7; Sole 8].

Definition demo_event (slot session rv mechanism cap : Z) : Event :=
  mkEvent 100 10 0 1 session 3 mechanism 0 rv 0 0 0 5 slot 42 USER_TYPE_NONE 0
    [] 0 0 0 0 [] 0 0 0 0 cap event_type.CALL.

Definition demo_process (pid : Z) : ProcessKey := mkProcess pid pid 9 0.

(** Two processes open a session each in module 7, the first one also in module 8, and
    bind a signing mechanism. *)
Definition demo_history : list Command :=
  [Observe (demo_process 1) (demo_event 0 5 0 0 0);
   Observe (demo_process 1) (demo_event 4 5 0 0 0);
   Observe (demo_process 2) (demo_event 0 6 0 0 0);
   Observe (demo_process 1) (demo_event 1 5 0 0x1041 capture.MECHANISM_VALUE)].

Definition demo_state : State :=
  @run demo_rv demo_ids (@for_capture demo_ids demo_plan Allowlisted 9) demo_history.

Lemma demo_reachable : @reachable demo_rv demo_ids demo_state.
Proof. by exists demo_plan, Allowlisted, 9, demo_history. Qed.

Lemma session_pseudonyms_distinct_witness :
  session_pseudonym_process (demo_process 1) 4 5 demo_state = Some 2
  ∧ from_option meta_module MODULE_UNRESOLVED (slot_of demo_state 4) = 8.
Proof.
  split; [vm_compute; reflexivity|].
  destruct (@session_pseudonyms_distinct demo_rv demo_ids demo_state (demo_process 1) 4 4 5 5 2)
    as (_ & _ & H); [exact demo_reachable | vm_compute; reflexivity | vm_compute; reflexivity |].
  vm_compute. reflexivity.
Defined.

Lemma event_isolation_witness :
  @event_module demo_state (demo_event 2 6 0 0 0) = 7
  ∧ active_ops (@observe_process demo_rv (demo_process 2) (demo_event 2 6 0 0 0) demo_state)
      !! (ProcessKey_identity (demo_process 1), mkSession 7 5, operation.SIGN)
    = active_ops demo_state !! (ProcessKey_identity (demo_process 1), mkSession 7 5, operation.SIGN).
Proof.
  split; [vm_compute; reflexivity|].
  apply (@event_isolation demo_rv demo_ids demo_state (demo_process 2) (demo_event 2 6 0 0 0)
    (ProcessKey_identity (demo_process 1)) (mkSession 7 5)); [exact demo_reachable|].
  vm_compute. intros [H _]. discriminate H.
Defined.

Lemma retire_scope_exact_witness :
  (retire_scope (ProcessKey_identity (demo_process 1)) (Some 7) demo_state).1 = 1
  ∧ has_scope_state (ProcessKey_identity (demo_process 1)) (Some 7)
      (retire_scope (ProcessKey_identity (demo_process 1)) (Some 7) demo_state).2 = false.
Proof.
  destruct (@retire_scope_exact demo_rv demo_ids demo_state (ProcessKey_identity (demo_process 1)) (Some 7)
    demo_reachable) as (H1 & H2 & _).
  split; [vm_compute; reflexivity | exact H2].
Defined.
