(* ===== verification/SemanticsFork.v ===== *)
(** * Forks and asynchronous ids

    What a child inherits from its parent when the budget has room
    ([fork_inherits_exactly]), and why two processes that mint the same async id are
    never credited with each other's call ([async_collision_refused]). *)
From stdpp Require Import sorting.
From S2P Require Import Prelude Counters ObjectPolicy Semantics SemanticsStep SemanticsRefine SemanticsProps.

(** ** Admission with room *)

(** The budget arithmetic cannot overflow. *)
Definition sane (s : State) : Prop := 0 <= state_keys s ∧ state_key_limit s <= U64_MAX.

(** At most [n] keys were admitted. *)
Definition grew (n : Z) (s s' : State) : Prop :=
  state_keys s <= state_keys s' <= state_keys s + n ∧ state_key_limit s' = state_key_limit s.

Lemma grew_sane n s s' : grew n s s' → sane s → sane s'.
Proof. unfold sane. intros [? ->] [? ?]. lia. Qed.

Lemma grew_trans n m s1 s2 s3 : grew n s1 s2 → grew m s2 s3 → grew (n + m) s1 s3.
Proof. intros [? ?] [? ?]. split; [lia | congruence]. Qed.

Lemma State_admit_room n s :
  sane s → 0 < n → state_keys s + n <= state_key_limit s → State_admit n s = (true, charge n s).
Proof.
  intros [H1 H2] Hn Hlim. unfold State_admit. destruct (Z.eqb_spec n 0); [lia|].
  unfold checked_add. rewrite checked_small by (unfold in_width, U64_MAX in *; lia).
  by rewrite (proj2 (Z.leb_le _ _) Hlim).
Qed.

Lemma admit_unless_room present s :
  sane s → state_keys s + 1 <= state_key_limit s → admit_unless present s = (true, pay present s).
Proof. intros Hs Hlim. destruct present; [done|]. by apply State_admit_room. Qed.

Lemma pay_grew present s : grew 1 s (pay present s).
Proof. destruct present; split; cbn; try done; lia. Qed.

Section Fork.
Context (pk ck : pkey).

(** The parent's fork-safe operations under the child's key. *)
Definition inherited_ops (x : SessionRef) (l : list (Z * Binding)) (m : gmap pending_key Binding) :=
  foldl (λ m e, if binding_fork_safe e.2 then <[(ck, x, e.1) := e.2]> m else m) m l.

Definition doubtful (l : list (Z * Binding)) : bool := existsb (λ e, negb (binding_fork_safe e.2)) l.

Lemma inherit_op_exact x s e :
  sane s → state_keys s + 1 <= state_key_limit s →
  let s' := inherit_op ck x s e in
  grew 1 s s' ∧ open s' = open s ∧ find_active s' = find_active s
  ∧ active_ops s' = inherited_ops x [e] (active_ops s)
  ∧ inherited_ambiguous s'
    = if doubtful [e] then {[(ck, x)]} ∪ inherited_ambiguous s else inherited_ambiguous s.
Proof using.
  intros Hs Hlim. unfold inherit_op, inherited_ops, doubtful. cbn. destruct (binding_fork_safe e.2); cbn.
  - unfold bind_op. rewrite admit_unless_room by done.
    pose proof (pay_grew (bool_decide (is_Some (active_ops s !! (ck, x, e.1)))) s) as Hg.
    by destruct (bool_decide _).
  - unfold mark_ambiguous. rewrite admit_unless_room by done.
    pose proof (pay_grew (bool_decide ((ck, x) ∈ inherited_ambiguous s)) s) as Hg.
    by destruct (bool_decide _).
Qed.

Lemma inherit_ops_exact x l s :
  sane s → state_keys s + Z.of_nat (length l) <= state_key_limit s →
  let s' := foldl (inherit_op ck x) s l in
  grew (Z.of_nat (length l)) s s' ∧ open s' = open s ∧ find_active s' = find_active s
  ∧ active_ops s' = inherited_ops x l (active_ops s)
  ∧ inherited_ambiguous s'
    = if doubtful l then {[(ck, x)]} ∪ inherited_ambiguous s else inherited_ambiguous s.
Proof using.
  revert s. induction l as [|e l IH]; intros s Hs Hlim; cbn [foldl length] in *.
  { split; [split; [lia | done] | done]. }
  destruct (inherit_op_exact x s e) as (Hg & Ho & Hf & Ha & Hm); [done | lia |].
  destruct (IH (inherit_op ck x s e)) as (Hg' & Ho' & Hf' & Ha' & Hm').
  { by eapply grew_sane. }
  { destruct Hg as [? ->]. lia. }
  split_and!; [| congruence | congruence | |].
  - replace (Z.of_nat (S (length l))) with (1 + Z.of_nat (length l)) by lia. by eapply grew_trans.
  - rewrite Ha', Ha. done.
  - rewrite Hm', Hm. unfold doubtful. cbn. rewrite orb_false_r.
    destruct (binding_fork_safe e.2), (existsb _ l); cbn; set_solver.
Qed.

Lemma inherited_ops_other x l m k : k.1 ≠ (ck, x) → inherited_ops x l m !! k = m !! k.
Proof using.
  intros Hk. unfold inherited_ops. revert m. induction l as [|e l IH]; intros m; cbn; [done|].
  rewrite IH. destruct (binding_fork_safe e.2); [|done]. apply lookup_insert_ne. by intros <-.
Qed.

Lemma inherited_ops_absent x l m op : op ∉ l.*1 → inherited_ops x l m !! (ck, x, op) = m !! (ck, x, op).
Proof using.
  unfold inherited_ops. revert m. induction l as [|e l IH]; intros m; cbn; [done|].
  rewrite not_elem_of_cons. intros [Hne Hl]. rewrite IH by done.
  destruct (binding_fork_safe e.2); [|done]. rewrite lookup_insert_ne; [done|]. congruence.
Qed.

Lemma inherited_ops_present x l m op b :
  NoDup l.*1 → (op, b) ∈ l → m !! (ck, x, op) = None →
  inherited_ops x l m !! (ck, x, op) = if binding_fork_safe b then Some b else None.
Proof using.
  revert m. induction l as [|e l IH]; intros m; [by intros _ ?%elem_of_nil|].
  change (inherited_ops x (e :: l) m)
    with (inherited_ops x l (if binding_fork_safe e.2 then <[(ck, x, e.1) := e.2]> m else m)).
  cbn [fmap list_fmap]. rewrite NoDup_cons, elem_of_cons. intros [He Hnd] [<- | Hin] Hm; cbn [fst snd] in *.
  - rewrite inherited_ops_absent by done. destruct (binding_fork_safe b); [by rewrite lookup_insert_eq | done].
  - apply IH; [done | done |]. destruct (binding_fork_safe e.2); [|done].
    rewrite lookup_insert_ne; [done|]. intros [= Heq]. apply He. rewrite Heq.
    apply list_elem_of_fmap. by exists (op, b).
Qed.

(** ** One session *)

Context (ops : SessionRef → list (Z * Binding)).

(** What the child holds under a session of the parent. *)
Definition child_inherits (searching : Prop) (x : SessionRef) (i : SessionInfo) (s : State) : Prop :=
  if info_fork_safe i
  then (∃ n, open s !! (ck, x) = Some (mkInfo n (info_slot i) true))
       ∧ (∀ op, op ∉ (ops x).*1 → active_ops s !! (ck, x, op) = None)
       ∧ (∀ op b, (op, b) ∈ ops x →
            active_ops s !! (ck, x, op) = if binding_fork_safe b then Some b else None)
       ∧ ((ck, x) ∈ find_active s ↔ searching)
       ∧ ((ck, x) ∈ inherited_ambiguous s ↔ doubtful (ops x) = true)
  else open s !! (ck, x) = None ∧ (∀ op, active_ops s !! (ck, x, op) = None)
       ∧ ((ck, x) ∉ find_active s) ∧ (ck, x) ∈ inherited_ambiguous s.

(** The child holds nothing under a session. *)
Definition child_empty (x : SessionRef) (s : State) : Prop :=
  open s !! (ck, x) = None ∧ (∀ op, active_ops s !! (ck, x, op) = None)
  ∧ ((ck, x) ∉ find_active s) ∧ (ck, x) ∉ inherited_ambiguous s.

(** The states agree away from the child's session. *)
Definition same_but (x : SessionRef) (s s' : State) : Prop :=
  (∀ k, k ≠ (ck, x) → open s' !! k = open s !! k)
  ∧ (∀ k, k.1 ≠ (ck, x) → active_ops s' !! k = active_ops s !! k)
  ∧ (∀ k, k ≠ (ck, x) → (k ∈ find_active s' ↔ k ∈ find_active s))
  ∧ (∀ k, k ≠ (ck, x) → (k ∈ inherited_ambiguous s' ↔ k ∈ inherited_ambiguous s)).

Definition session_cost (x : SessionRef) : Z := 3 + Z.of_nat (length (ops x)).

Lemma refused_session_exact x i s :
  sane s → state_keys s + session_cost x <= state_key_limit s → child_empty x s → info_fork_safe i = false →
  let s' := inherit_session pk ck ops s (x, i) in
  grew (session_cost x) s s' ∧ same_but x s s' ∧ child_inherits ((pk, x) ∈ find_active s) x i s'.
Proof using.
  intros Hs Hlim (He1 & He2 & He3 & He4) Hi. unfold session_cost in *. unfold inherit_session, child_inherits.
  rewrite Hi. unfold mark_ambiguous. rewrite admit_unless_room by (done || lia).
  rewrite bool_decide_eq_false_2 by done. cbn.
  split; [split; cbn; [lia | done]|]. split; [|cbn; split_and!; [done | done | done | set_solver]].
  split_and!; try done. cbn. set_solver.
Qed.

Lemma charge_grew n s : 0 <= n → grew n s (charge n s).
Proof using. intros Hn. split; cbn; [lia | done]. Qed.

(** A session taken over, before its search: the entry, the operations, the doubt. *)
Lemma entered_session_exact x i n s :
  sane s → 0 < n <= 2 → state_keys s + session_cost x <= state_key_limit s →
  let s' := foldl (inherit_op ck x)
    (count_inherited (enter_session ck x (info_slot i) (info_fork_safe i) (charge n s))) (ops x) in
  grew (2 + Z.of_nat (length (ops x))) s s'
  ∧ (∃ c, open s' = <[(ck, x) := mkInfo c (info_slot i) (info_fork_safe i)]> (open s))
  ∧ find_active s' = find_active s
  ∧ active_ops s' = inherited_ops x (ops x) (active_ops s)
  ∧ inherited_ambiguous s'
    = if doubtful (ops x) then {[(ck, x)]} ∪ inherited_ambiguous s else inherited_ambiguous s.
Proof using.
  intros Hs Hn Hlim. unfold session_cost in Hlim. set (s1 := count_inherited _).
  assert (grew 2 s s1) as Hg by (split; cbn; [lia | done]).
  destruct (inherit_ops_exact x (ops x) s1) as (Hg' & Ho & Hf & Ha & Hm).
  { by eapply grew_sane. }
  { destruct Hg as [? ->]. lia. }
  split; [by eapply grew_trans|]. rewrite Ho, Hf, Ha, Hm. split; [by eexists | done].
Qed.

(** A search marks the child's session, with room. *)
Lemma mark_find_exact k s :
  sane s → state_keys s + 1 <= state_key_limit s →
  let s' := mark_find k s in
  grew 1 s s' ∧ open s' = open s ∧ active_ops s' = active_ops s
  ∧ find_active s' = {[k]} ∪ find_active s ∧ inherited_ambiguous s' = inherited_ambiguous s.
Proof using.
  intros Hs Hlim. unfold mark_find. rewrite admit_unless_room by done.
  pose proof (pay_grew (bool_decide (k ∈ find_active s)) s) as Hg. by destruct (bool_decide _).
Qed.

(** The facts of a session taken over, from its tables. *)
Lemma taken_session_view x i c s s' (searching : Prop) :
  NoDup (ops x).*1 → child_empty x s → info_fork_safe i = true →
  open s' = <[(ck, x) := mkInfo c (info_slot i) (info_fork_safe i)]> (open s) →
  active_ops s' = inherited_ops x (ops x) (active_ops s) →
  (∀ k, k ∈ find_active s' ↔ k ∈ find_active s ∨ (k = (ck, x) ∧ searching)) →
  inherited_ambiguous s'
    = (if doubtful (ops x) then {[(ck, x)]} ∪ inherited_ambiguous s else inherited_ambiguous s) →
  same_but x s s' ∧ child_inherits searching x i s'.
Proof using.
  intros Hnd (He1 & He2 & He3 & He4) Hi Ho Ha Hf Hm. rewrite Hi in Ho.
  assert (∀ k, k ≠ (ck, x) → (k ∈ inherited_ambiguous s' ↔ k ∈ inherited_ambiguous s)) as Hm1.
  { intros k Hk. rewrite Hm. destruct (doubtful _); set_solver. }
  assert ((ck, x) ∈ inherited_ambiguous s' ↔ doubtful (ops x) = true) as Hm2.
  { rewrite Hm. destruct (doubtful _); set_solver. }
  split.
  - split_and!; [| | |done].
    + intros k Hk. by rewrite Ho, lookup_insert_ne.
    + intros k Hk. by rewrite Ha, inherited_ops_other.
    + intros k Hk. rewrite Hf. naive_solver.
  - unfold child_inherits. rewrite Hi. split_and!; [| | | |done].
    + exists c. by rewrite Ho, lookup_insert_eq.
    + intros op Hop. by rewrite Ha, inherited_ops_absent.
    + intros op b Hb. rewrite Ha. by apply inherited_ops_present.
    + rewrite Hf. naive_solver.
Qed.

Lemma inherit_session_exact x i s :
  sane s → state_keys s + session_cost x <= state_key_limit s → child_empty x s → NoDup (ops x).*1 →
  let s' := inherit_session pk ck ops s (x, i) in
  grew (session_cost x) s s' ∧ same_but x s s' ∧ child_inherits ((pk, x) ∈ find_active s) x i s'.
Proof using.
  intros Hs Hlim He Hnd. destruct (info_fork_safe i) eqn:Hi; [|by apply refused_session_exact].
  unfold inherit_session. rewrite Hi, (proj1 He), (bool_decide_eq_false_2 (is_Some (@None SessionInfo)))
    by (by intros []). cbn [negb Z.b2z].
  set (n := Z.b2z _ + 1). assert (0 < n <= 2) as Hn by (unfold n; destruct (bool_decide _); cbn; lia).
  pose proof Hlim as Hlim'. unfold session_cost in Hlim'.
  rewrite State_admit_room by (done || lia).
  destruct (entered_session_exact x i n s Hs Hn Hlim) as (Hg & (c & Ho) & Hf & Ha & Hm).
  rewrite Hi in Ho, Hg, Hf, Ha, Hm.
  set (s1 := foldl _ _ (ops x)) in *. rewrite Hf.
  assert (state_keys s1 + 1 <= state_key_limit s1) as Hlim1 by (destruct Hg as [? ->]; lia).
  case_bool_decide as Hp.
  - destruct (mark_find_exact (ck, x) s1) as (Hg' & Ho' & Ha' & Hf' & Hm'); [by eapply grew_sane | done |].
    split; [unfold session_cost; replace (3 + Z.of_nat (length (ops x))) with (2 + Z.of_nat (length (ops x)) + 1)
      by lia; by eapply grew_trans|].
    apply (taken_session_view x i c); try done; [by rewrite Ho', Ho, Hi | by rewrite Ha', Ha | | by rewrite Hm', Hm].
    intros k. rewrite Hf', Hf. set_solver.
  - split; [destruct Hg; split; unfold session_cost; [lia | done]|].
    apply (taken_session_view x i c); try done; [by rewrite Ho, Hi|]. intros k. rewrite Hf. naive_solver.
Qed.

(** ** All sessions *)

(** The child's session looks the same. *)
Definition same_view (x : SessionRef) (s s' : State) : Prop :=
  open s' !! (ck, x) = open s !! (ck, x)
  ∧ (∀ op, active_ops s' !! (ck, x, op) = active_ops s !! (ck, x, op))
  ∧ ((ck, x) ∈ find_active s' ↔ (ck, x) ∈ find_active s)
  ∧ ((ck, x) ∈ inherited_ambiguous s' ↔ (ck, x) ∈ inherited_ambiguous s).

Lemma same_but_view x y s s' : same_but x s s' → y ≠ x → same_view y s s'.
Proof using.
  intros (H1 & H2 & H3 & H4) Hy. split_and!; [apply H1 | intros; apply H2 | apply H3 | apply H4]; cbn; congruence.
Qed.

Lemma same_view_trans x s1 s2 s3 : same_view x s1 s2 → same_view x s2 s3 → same_view x s1 s3.
Proof using.
  intros (A1 & A2 & A3 & A4) (B1 & B2 & B3 & B4). split_and!; [congruence | | |].
  - intros op. by rewrite B2, A2.
  - by rewrite B3, A3.
  - by rewrite B4, A4.
Qed.

Lemma child_empty_view x s s' : same_view x s s' → child_empty x s → child_empty x s'.
Proof using.
  intros (H1 & H2 & H3 & H4) (E1 & E2 & E3 & E4).
  split_and!; [by rewrite H1 | intros; by rewrite H2 | by rewrite H3 | by rewrite H4].
Qed.

Lemma child_inherits_view F F' x i s s' :
  same_view x s s' → (F ↔ F') → child_inherits F x i s → child_inherits F' x i s'.
Proof using.
  intros (H1 & H2 & H3 & H4) HF. unfold child_inherits. destruct (info_fork_safe i).
  - intros ([n A] & B & C & D & E). split_and!.
    + exists n. by rewrite H1.
    + intros op Hop. rewrite H2. by apply B.
    + intros op b Hb. rewrite H2. by apply C.
    + by rewrite H3, D.
    + by rewrite H4.
  - intros (A & B & C & D). split_and!; [by rewrite H1 | intros; by rewrite H2 | by rewrite H3 | by rewrite H4].
Qed.

Definition sessions_cost (l : list (SessionRef * SessionInfo)) : Z :=
  foldr (λ e n, session_cost e.1 + n) 0 l.

Lemma sessions_cost_nonneg l : 0 <= sessions_cost l.
Proof using.
  induction l as [|e l IH]; [done|]. change (0 <= session_cost e.1 + sessions_cost l). unfold session_cost. lia.
Qed.

Hypothesis Hne : pk ≠ ck.
Hypothesis Hnd : ∀ x, NoDup (ops x).*1.

Lemma inherit_sessions_exact l s :
  sane s → state_keys s + sessions_cost l <= state_key_limit s → NoDup l.*1 →
  (∀ x, x ∈ l.*1 → child_empty x s) →
  let s' := foldl (inherit_session pk ck ops) s l in
  (∀ x i, (x, i) ∈ l → child_inherits ((pk, x) ∈ find_active s) x i s')
  ∧ (∀ x, x ∉ l.*1 → same_view x s s').
Proof using Hne Hnd.
  revert s. induction l as [|[x i] l IH]; intros s Hs Hlim.
  { intros _ _. split; [by intros ? ? ?%elem_of_nil | done]. }
  cbn [fmap list_fmap foldl sessions_cost foldr fst] in *. fold (sessions_cost l) in Hlim.
  rewrite NoDup_cons. intros [Hx Hl] Hempty. pose proof (sessions_cost_nonneg l).
  destruct (inherit_session_exact x i s) as (Hg & Hsb & Hci);
    [done | lia | apply Hempty; left | apply Hnd |].
  set (s1 := inherit_session pk ck ops s (x, i)) in *.
  destruct (IH s1) as [Hin Hout].
  { by eapply grew_sane. }
  { destruct Hg as [? ->]. lia. }
  { done. }
  { intros y Hy. eapply child_empty_view; [|apply Hempty; by right].
    eapply same_but_view; [done|]. by intros ->. }
  split.
  - intros y j. rewrite elem_of_cons. intros [[= -> ->] | Hy].
    + eapply child_inherits_view; [by apply Hout | done | done].
    + eapply child_inherits_view; [done | | by apply Hin].
      destruct Hsb as (_ & _ & Hfind & _). apply Hfind. congruence.
  - intros y [Hyx Hy]%not_elem_of_cons.
    eapply same_view_trans; [by eapply same_but_view | by apply Hout].
Qed.
End Fork.

Lemma grouped_ops_NoDup parent x s : NoDup (grouped_ops parent x s).*1.
Proof.
  unfold grouped_ops. rewrite in_order_perm, <- list_fmap_compose. apply NoDup_fmap_2_strong.
  - intros [[k o] b] [[k' o'] b'] H1%elem_of_map_to_list H2%elem_of_map_to_list. cbn. intros <-.
    apply map_lookup_filter_Some in H1 as [G1 Hq]. apply map_lookup_filter_Some in H2 as [G2 Hr].
    cbn in *. subst. by simplify_eq.
  - apply NoDup_map_to_list.
Qed.

Lemma doubtful_grouped pk x s :
  doubtful (grouped_ops pk x s) = true
  ↔ ∃ op b, active_ops s !! (pk, x, op) = Some b ∧ binding_fork_safe b = false.
Proof.
  unfold doubtful. rewrite existsb_exists. split.
  - intros ([op b] & Hin%list_elem_of_In%grouped_ops_spec & Hb%negb_true_iff). eauto.
  - intros (op & b & Hb & Hs). exists (op, b). rewrite <- list_elem_of_In, grouped_ops_spec. cbn. by rewrite Hs.
Qed.

(** The parent's operations seen through the child's key. *)
Lemma grouped_ops_lookup pk ck x s s' :
  (∀ op, op ∉ (grouped_ops pk x s).*1 → active_ops s' !! (ck, x, op) = None) →
  (∀ op b, (op, b) ∈ grouped_ops pk x s →
     active_ops s' !! (ck, x, op) = if binding_fork_safe b then Some b else None) →
  ∀ op, active_ops s' !! (ck, x, op)
        = active_ops s !! (pk, x, op) ≫= λ b, if binding_fork_safe b then Some b else None.
Proof.
  intros H1 H2 op. destruct (active_ops s !! (pk, x, op)) as [b|] eqn:E; cbn.
  - apply H2. by apply grouped_ops_spec.
  - apply H1. rewrite list_elem_of_fmap. intros ([o b] & -> & Hin%grouped_ops_spec). cbn in *. congruence.
Qed.

(** The keys a fork may admit: the history, and for every session of the parent its
    entry with a counter, its operations and its search. *)
Definition fork_cost (pk : pkey) (s : State) : Z :=
  1 + sessions_cost (λ x, grouped_ops pk x s) (open_sessions (λ p _ _, bool_decide (p = pk)) s).

Lemma wf_child_empty s ck x : wf s → reduced_histories s !! ck = None → child_empty ck x s.
Proof.
  intros W Hh. destruct (wf_homed _ W) as [HO HF HM].
  assert (¬ is_Some (reduced_histories s !! ck)) as Hn by (rewrite Hh; by intros []).
  split_and!.
  - destruct (open s !! (ck, x)) as [i|] eqn:E; [|done]. by apply (wf_open _ W) in E as [? _].
  - intros op. destruct (active_ops s !! (ck, x, op)) as [b|] eqn:E; [|done]. by apply HO in E.
  - by intros ?%HF.
  - by intros ?%HM.
Qed.

Section Reachable.
Context {RV : RvCodes} {FI : FunctionIds}.

(** C14: a fork with room in the budget gives a child that has no history exactly the
    parent's fork-safe state, under new pseudonyms: each fork-safe session with its
    slot, of its operations the fork-safe ones with their mechanisms, and its
    search.  A session that is not fork-safe, or that carries an operation that is
    not, is only marked as in doubt; nothing else reaches the child. *)
Theorem fork_inherits_exactly s parent child :
  reachable s → pk_domain parent = pk_domain child → accepts_domain s (pk_domain parent) = true →
  reduced_histories s !! ProcessKey_identity child = None →
  state_keys s + fork_cost (ProcessKey_identity parent) s <= state_key_limit s →
  let pk := ProcessKey_identity parent in
  let ck := ProcessKey_identity child in
  let s' := fork_process parent child s in
  ∀ x, match open s !! (pk, x) with
       | Some i =>
           if info_fork_safe i
           then (∃ n, open s' !! (ck, x) = Some (mkInfo n (info_slot i) true))
                ∧ (∀ op, active_ops s' !! (ck, x, op)
                         = active_ops s !! (pk, x, op) ≫= λ b, if binding_fork_safe b then Some b else None)
                ∧ ((ck, x) ∈ find_active s' ↔ (pk, x) ∈ find_active s)
                ∧ ((ck, x) ∈ inherited_ambiguous s'
                   ↔ ∃ op b, active_ops s !! (pk, x, op) = Some b ∧ binding_fork_safe b = false)
           else open s' !! (ck, x) = None ∧ (∀ op, active_ops s' !! (ck, x, op) = None)
                ∧ ((ck, x) ∉ find_active s') ∧ (ck, x) ∈ inherited_ambiguous s'
       | None => child_empty ck x s'
       end.
Proof using.
  intros [W _]%reachable_bounded Hdom Hacc Hh Hlim pk ck s' x.
  pose proof (wf_keys_nonneg s W) as Hk0. pose proof (wf_limit s W) as Hl0.
  assert (∀ x, open s !! (ck, x) = None) as Hck by (intros y; apply (wf_child_empty s ck y W Hh)).
  unfold s', fork_process. fold pk ck. fold ck in Hh. rewrite Hdom, Z.eqb_refl, <- Hdom, Hacc, Hh. cbn [negb orb].
  rewrite bool_decide_eq_false_2 by (by intros []). unfold fork_cost in Hlim. fold pk in Hlim.
  set (l := open_sessions _ s) in *.
  pose proof (sessions_cost_nonneg (λ x, grouped_ops pk x s) l).
  rewrite State_admit_room by (try split; done || lia). set (s1 := set_reduced_histories _ _).
  change (open_sessions _ s1) with l. set (ops := λ x, grouped_ops pk x s1).
  assert (∀ y, child_empty ck y s1) as Hempty by (intros y; by apply (wf_child_empty s ck y)).
  assert (∀ y i, (y, i) ∈ l ↔ open s !! (pk, y) = Some i) as Hl.
  { intros y i. unfold l. rewrite elem_of_open_sessions. split.
    - by intros (q & ? & ->%bool_decide_eq_true).
    - intros ?. exists pk. by rewrite bool_decide_eq_true_2. }
  destruct (decide (pk = ck)) as [Heq|Hne].
  { assert (l = []) as ->.
    { destruct l as [|[y i] l']; [done|]. specialize (proj1 (Hl y i) (list_elem_of_here _ _)) as Hy.
      rewrite Heq, Hck in Hy. done. }
    rewrite Heq, Hck. apply Hempty. }
  destruct (inherit_sessions_exact pk ck ops Hne (λ x, grouped_ops_NoDup pk x s1) l s1) as [Hin Hout].
  { split; cbn; lia. }
  { cbn. change (sessions_cost ops l) with (sessions_cost (λ x, grouped_ops pk x s) l). lia. }
  { apply open_sessions_NoDup. }
  { intros y _. apply Hempty. }
  destruct (open s !! (pk, x)) as [i|] eqn:E.
  - apply Hl, Hin in E. unfold child_inherits in E. destruct (info_fork_safe i); [|done].
    destruct E as (A & B1 & B2 & C & D). split_and!; [done | by apply grouped_ops_lookup | done |].
    cbn. rewrite D. apply (doubtful_grouped pk x s).
  - eapply child_empty_view; [apply Hout | apply Hempty].
    rewrite list_elem_of_fmap. intros ([y i] & -> & Hy%Hl). cbn in *. congruence.
Qed.
End Reachable.

(** ** Colliding async ids *)

Section Async.
Context {RV : RvCodes} {FI : FunctionIds}.

Lemma clear_selected_tombstone p x flags s k d :
  detached s !! k = Some d → collided d = true → detached (clear_selected p x flags s) !! k = Some d.
Proof using.
  intros Hd Hc. unfold clear_selected. cbn. rewrite map_drop_lookup.
  replace (detached _) with (detached s) by (by destruct (nz (flags &' CKF_FIND_OBJECTS))).
  rewrite Hd. cbn. by rewrite Hc.
Qed.

Lemma retire_session_tombstone p x s k pd o q :
  detached s !! k = Some (mkDetached pd o q true) →
  ∃ o', detached (retire_session p x s).2 !! k = Some (mkDetached pd o' q true).
Proof using.
  intros Hd. unfold retire_session, clear_session_state. cbn.
  assert (∃ o', disown p x <$> detached s !! k = Some (mkDetached pd o' q true)) as [o' Ho].
  { rewrite Hd. cbn. unfold disown. cbn. case_bool_decide; eauto. }
  exists o'. rewrite <- lookup_fmap in Ho. by destruct (bool_decide _).
Qed.

(** C30: when two processes mint the same async id for their own calls, the record of
    the first stays and is tombstoned: no session can join it, a completion that
    reaches it is counted as an orphan and applies to nobody, and neither process
    can mint the id anew, cancel it away or free it by closing its session, so no
    call is credited to the wrong process. *)
Theorem async_collision_refused s p q x y i j ev ev' pd pd' :
  p ≠ q → open s !! (p, x) = Some i → open s !! (q, y) = Some j →
  async_id p x (info_slot i) ev = async_id q y (info_slot j) ev' →
  detached s !! async_id p x (info_slot i) ev = None →
  pending s !! (p, x, ev_target_function ev) = Some pd →
  pending s !! (q, y, ev_target_function ev') = Some pd' →
  let k := async_id p x (info_slot i) ev in
  let s' := async_get_id q y ev' (async_get_id p x ev s) in
  detached s' !! k = Some (mkDetached pd (Some (p, x)) p true)
  ∧ (pending s' !! (p, x, ev_target_function ev) = None ∧ pending s' !! (q, y, ev_target_function ev') = None)
  ∧ (∀ r z h e, open s' !! (r, z) = Some h → async_id r z (info_slot h) e = k →
       async_join r z e s' = bump_evidence At_async_orphans s'
       ∧ detached (async_get_id r z e s') !! k = Some (mkDetached pd (Some (p, x)) p true))
  ∧ (∀ e, ev_rv e ≠ rv_PENDING → ev_target_function e = ev_target_function ev →
       find_detached p x (ev_target_function ev) s' = Some (k, mkDetached pd (Some (p, x)) p true) →
       async_complete p x e s' = bump_evidence At_async_orphans s')
  ∧ (∀ r z flags, detached (clear_selected r z flags s') !! k = Some (mkDetached pd (Some (p, x)) p true))
  ∧ (∀ r z, ∃ o, detached (retire_session r z s').2 !! k = Some (mkDetached pd o p true)).
Proof using.
  intros Hpq Hi Hj Hk Hnone Hpd Hpd' k s'.
  assert (async_get_id p x ev s = set_detached (insert k (mkDetached pd (Some (p, x)) p false))
    (set_pending (delete (p, x, ev_target_function ev)) s)) as H1.
  { unfold async_get_id. rewrite Hi, Hpd. cbn. fold k. unfold k. by rewrite Hnone. }
  assert (s' = bump_evidence At_async_duplicates
    (set_detached (insert k (mkDetached pd (Some (p, x)) p true))
      (set_pending (delete (q, y, ev_target_function ev')) (async_get_id p x ev s)))) as H2.
  { unfold s'. rewrite H1. unfold async_get_id at 1. cbn. rewrite Hj, lookup_delete_ne, Hpd' by congruence.
    rewrite <- Hk. fold k. rewrite lookup_insert_eq. cbn. by rewrite bool_decide_eq_false_2 by done. }
  assert (detached s' !! k = Some (mkDetached pd (Some (p, x)) p true)) as Hd.
  { rewrite H2. cbn. apply lookup_insert_eq. }
  assert (pending s' !! (p, x, ev_target_function ev) = None) as Hp1.
  { rewrite H2, H1. cbn. rewrite lookup_delete_ne by congruence. apply lookup_delete_eq. }
  split; [done|]. split; [split; [done|]; rewrite H2; apply lookup_delete_eq|].
  split; [|split; [|split; [intros; by apply clear_selected_tombstone | intros; by eapply retire_session_tombstone]]].
  - intros r z h e Hh He. split.
    + unfold async_join. by rewrite Hh, He, Hd.
    + unfold async_get_id. rewrite Hh. destruct (pending s' !! (r, z, _)); [|exact Hd].
      cbn. rewrite He, Hd. cbn. destruct (bool_decide (p = r)); cbn; [exact Hd|].
      by rewrite lookup_insert_eq.
  - intros e He Hf Hfind. unfold async_complete. rewrite (proj2 (Z.eqb_neq _ _) He), Hf, Hp1, Hfind. done.
Qed.
End Async.

(** ** A fork and a collision *)

Lemma fork_inherits_exactly_witness :
  state_keys demo_state + fork_cost (ProcessKey_identity (demo_process 1)) demo_state
    <= state_key_limit demo_state
  ∧ ∃ n, open (fork_process (demo_process 1) (demo_process 3) demo_state)
           !! (ProcessKey_identity (demo_process 3), mkSession 7 5) = Some (mkInfo n 3 true).
Proof.
  split; [vm_compute; discriminate|].
  pose proof (@fork_inherits_exactly demo_rv demo_ids demo_state (demo_process 1) (demo_process 3)
    demo_reachable eq_refl ltac:(vm_compute; reflexivity) ltac:(vm_compute; reflexivity)
    ltac:(vm_compute; discriminate) (mkSession 7 5)) as H.
  replace (open demo_state !! (ProcessKey_identity (demo_process 1), mkSession 7 5))
    with (Some (mkInfo 1 3 true)) in H by (vm_compute; reflexivity).
  destruct H as [H _]. exact H.
Defined.

(** Both processes have a signing call in flight. *)
Definition pending_state : State :=
  @run demo_rv demo_ids demo_state
    [Observe (demo_process 1) (demo_event 2 5 0x205 0 0); Observe (demo_process 2) (demo_event 2 6 0x205 0 0)].

Definition demo_pending (session seq : Z) : Pending :=
  mkPending (demo_event 2 session 0x205 0 0)
    (mkMeta ["C_Sign"%string] false (demo_semantics operation.SIGN transition.FINISH_WITH_OUTPUT lifecycle.NONE)
       (Some 42) true 7 [7]) 90 seq.

Lemma async_collision_refused_witness :
  let p := ProcessKey_identity (demo_process 1) in
  let q := ProcessKey_identity (demo_process 2) in
  let ev := demo_event 3 5 0 0 0 in
  p ≠ q
  ∧ detached (async_get_id q (mkSession 7 6) (demo_event 3 6 0 0 0)
                (async_get_id p (mkSession 7 5) ev pending_state)) !! (7, 3, 42, 5, 9)
    = Some (mkDetached (demo_pending 5 1) (Some (p, mkSession 7 5)) p true).
Proof.
  split; [vm_compute; discriminate|].
  destruct (@async_collision_refused demo_rv pending_state
    (ProcessKey_identity (demo_process 1)) (ProcessKey_identity (demo_process 2))
    (mkSession 7 5) (mkSession 7 6) (mkInfo 1 3 true) (mkInfo 1 3 true)
    (demo_event 3 5 0 0 0) (demo_event 3 6 0 0 0) (demo_pending 5 1) (demo_pending 6 2))
    as [H _]; [vm_compute; discriminate | vm_compute; reflexivity | vm_compute; reflexivity
              | vm_compute; reflexivity | vm_compute; reflexivity | vm_compute; reflexivity
              | vm_compute; reflexivity | exact H].
Defined.
