(* ===== verification/Lifetime.v ===== *)
(** * Loader lifetimes

    [src/discovery/loader_lifetime.rs]: tokens with per-slot generations, export
    descriptors, and the retirement of one loader context from [Prepared] to
    reclaimed storage or permanent quarantine.  A method is a computation of the
    state-and-error monad of [Prelude]; [live_mut] runs one on the context a token
    names, keeping what it wrote before an error. *)
From S2P Require Import Prelude.

(** ** Tokens and cookies *)

Definition MAX_LIFETIME_SLOTS : Z := 256.
Definition MAX_SITE_ORDINAL : Z := 0x00ffffff.
Definition TOKEN_BITS : Z := 40.
Definition TOKEN_MAX : Z := (1 << TOKEN_BITS) - 1.

Definition LoaderToken_new (generation slot : Z) : option Z :=
  if generation =? 0 then None else Some ((generation << 8) |' slot).

Definition LoaderToken_from_bits (bits : Z) : option Z :=
  if (bits =? 0) || (TOKEN_MAX <? bits) || (bits >> 8 =? 0) then None else Some bits.

Definition LoaderToken_generation (token : Z) : Z := as_u32 (token >> 8).

Definition LoaderToken_slot (token : Z) : Z := as_u8 (token &' 0xff).

Definition LoaderToken_bits (token : Z) : Z := token.

Definition loader_attach_cookie (token : Z) : Z := LoaderToken_bits token.

Definition decode_loader_cookie (cookie : Z) : option Z := LoaderToken_from_bits cookie.

Definition export_cookie (token ordinal : Z) : option Z :=
  if (ordinal =? 0) || (MAX_SITE_ORDINAL <? ordinal) then None
  else Some (as_u64 (LoaderToken_bits token << 24) |' ordinal).

Definition decode_export_cookie (cookie : Z) : option (Z * Z) :=
  let ordinal := as_u32 (cookie &' 0x00ffffff) in
  if ordinal =? 0 then None
  else token ← LoaderToken_from_bits (cookie >> 24); Some (token, ordinal).

(** ** Contexts *)

Inductive SlotPhase := Prepared | Active | Closing | ProducersQuiet | Draining | Quarantined.

#[export] Instance SlotPhase_eq_dec : EqDecision SlotPhase.
Proof. solve_decision. Defined.

Inductive SlotView :=
| ViewFree (generation : Z)
| ViewReclaimable (generation : Z)
| ViewLive (token : Z) (phase : SlotPhase).

Inductive QueueKind := Collected | PendingQueue | Deferred | TerminalBatch | SelectionHandoff.

Definition QueueKind_ALL : list QueueKind := [Collected; PendingQueue; Deferred; TerminalBatch; SelectionHandoff].

Definition QueueKind_index (q : QueueKind) : nat :=
  match q with
  | Collected => 0 | PendingQueue => 1 | Deferred => 2 | TerminalBatch => 3 | SelectionHandoff => 4
  end.

Record SymbolFact := mkSymbol {
  virtual_address : Z;
  symbol_offset : Z;
}.

Inductive ElfAbi := Lp64 | Ilp32.

Record ExportBinding := mkExport {
  binding_view : Z;
  binding_object : Z;
  binding_offset : Z;
  hook : SymbolFact;
  abi : ElfAbi;
}.

#[export] Instance SymbolFact_eq_dec : EqDecision SymbolFact.
Proof. solve_decision. Defined.

#[export] Instance ElfAbi_eq_dec : EqDecision ElfAbi.
Proof. solve_decision. Defined.

#[export] Instance ExportBinding_eq_dec : EqDecision ExportBinding.
Proof. solve_decision. Defined.

Record ConsumerDrain := mkDrain {
  consumer : Z;
  busy_before_q : bool;
}.

Inductive PendingReason := StillDraining | ForeignBusy.

Inductive PrefixOutcome := PrefixPending (reason : PendingReason) | PrefixComplete.

Record LoaderRetirement := mkRetirement {
  retirement_domain : Z;
  retirement_token : Z;
}.

Record LoaderRetirementFence := mkFence {
  fence_domain : Z;
  fence_token : Z;
  fence_position : Z;
}.

Record ReclaimedSlot := mkReclaimed {
  reclaimed_slot : Z;
  retired_generation : Z;
}.

Record HistoricalFact := mkFact {
  fact_token : Z;
  fact_arms : Z;
  fact_calls : Z;
}.

Inductive LifetimeError :=
| ForeignDomain
| StaleToken
| CapacityExhausted
| GenerationExhausted
| GenerationRollback
| SiteExhausted
| DescriptorExhausted
| AdmissionClosed
| UnexpectedPhase (expected : string) (actual : SlotPhase)
| ProducersActive (short long : Z)
| QAlreadyFixed
| DrainIncomplete (consumer fence_q : Z)
| ForeignBusyBeforeQ
| RecordsPending (queue : QueueKind) (count : Z)
| ScansPending (count : Z)
| DescriptorsPending (count : Z)
| CleanupIncomplete
| CleanupFailed
| QuarantinedContext
| PermanentQuarantine
| BookkeepingOverflow
| UnbalancedRelease
| MissingShortGuard
| StateDeleteFailed
| LinksStillOpen
| UnknownDescriptor
| ExportAlreadyClosed
| PendingMismatch
| InvalidCeiling
| InjectedPrepareFault (slot generation : Z).

(** An error of the source, or a failed [expect] or index. *)
Inductive Stop := Refuse (e : LifetimeError) | Panic.

Record LiveDescriptor := mkDescriptor {
  descriptor_cookie : Z;
  descriptor_binding : ExportBinding;
  links_closed : bool;
}.

Record LiveSlot := mkLive {
  token : Z;
  phase : SlotPhase;
  short_refs : Z;
  long_refs : Z;
  queued : list Z;
  pending_scans : Z;
  site_high_water : Z;
  descriptors : list LiveDescriptor;
  fence_q : option Z;
  prefix_complete : bool;
  cleanup : option bool;
  publication_arms : Z;
  useful_calls : Z;
}.

(** Field updates. *)

Definition set_token (g : Z → Z) (c : LiveSlot) : LiveSlot :=
  mkLive (g (token c)) (phase c) (short_refs c) (long_refs c) (queued c) (pending_scans c)
    (site_high_water c) (descriptors c) (fence_q c) (prefix_complete c) (cleanup c)
    (publication_arms c) (useful_calls c).

Definition set_phase (g : SlotPhase → SlotPhase) (c : LiveSlot) : LiveSlot :=
  mkLive (token c) (g (phase c)) (short_refs c) (long_refs c) (queued c) (pending_scans c)
    (site_high_water c) (descriptors c) (fence_q c) (prefix_complete c) (cleanup c)
    (publication_arms c) (useful_calls c).

Definition set_short_refs (g : Z → Z) (c : LiveSlot) : LiveSlot :=
  mkLive (token c) (phase c) (g (short_refs c)) (long_refs c) (queued c) (pending_scans c)
    (site_high_water c) (descriptors c) (fence_q c) (prefix_complete c) (cleanup c)
    (publication_arms c) (useful_calls c).

Definition set_long_refs (g : Z → Z) (c : LiveSlot) : LiveSlot :=
  mkLive (token c) (phase c) (short_refs c) (g (long_refs c)) (queued c) (pending_scans c)
    (site_high_water c) (descriptors c) (fence_q c) (prefix_complete c) (cleanup c)
    (publication_arms c) (useful_calls c).

Definition set_queued (g : list Z → list Z) (c : LiveSlot) : LiveSlot :=
  mkLive (token c) (phase c) (short_refs c) (long_refs c) (g (queued c)) (pending_scans c)
    (site_high_water c) (descriptors c) (fence_q c) (prefix_complete c) (cleanup c)
    (publication_arms c) (useful_calls c).

Definition set_pending_scans (g : Z → Z) (c : LiveSlot) : LiveSlot :=
  mkLive (token c) (phase c) (short_refs c) (long_refs c) (queued c) (g (pending_scans c))
    (site_high_water c) (descriptors c) (fence_q c) (prefix_complete c) (cleanup c)
    (publication_arms c) (useful_calls c).

Definition set_site_high_water (g : Z → Z) (c : LiveSlot) : LiveSlot :=
  mkLive (token c) (phase c) (short_refs c) (long_refs c) (queued c) (pending_scans c) (g
    (site_high_water c)) (descriptors c) (fence_q c) (prefix_complete c) (cleanup c)
    (publication_arms c) (useful_calls c).

Definition set_descriptors (g : list LiveDescriptor → list LiveDescriptor) (c : LiveSlot) : LiveSlot :=
  mkLive (token c) (phase c) (short_refs c) (long_refs c) (queued c) (pending_scans c)
    (site_high_water c) (g (descriptors c)) (fence_q c) (prefix_complete c) (cleanup c)
    (publication_arms c) (useful_calls c).

Definition set_fence_q (g : option Z → option Z) (c : LiveSlot) : LiveSlot :=
  mkLive (token c) (phase c) (short_refs c) (long_refs c) (queued c) (pending_scans c)
    (site_high_water c) (descriptors c) (g (fence_q c)) (prefix_complete c) (cleanup c)
    (publication_arms c) (useful_calls c).

Definition set_prefix_complete (g : bool → bool) (c : LiveSlot) : LiveSlot :=
  mkLive (token c) (phase c) (short_refs c) (long_refs c) (queued c) (pending_scans c)
    (site_high_water c) (descriptors c) (fence_q c) (g (prefix_complete c)) (cleanup c)
    (publication_arms c) (useful_calls c).

Definition set_cleanup (g : option bool → option bool) (c : LiveSlot) : LiveSlot :=
  mkLive (token c) (phase c) (short_refs c) (long_refs c) (queued c) (pending_scans c)
    (site_high_water c) (descriptors c) (fence_q c) (prefix_complete c) (g (cleanup c))
    (publication_arms c) (useful_calls c).

Definition set_publication_arms (g : Z → Z) (c : LiveSlot) : LiveSlot :=
  mkLive (token c) (phase c) (short_refs c) (long_refs c) (queued c) (pending_scans c)
    (site_high_water c) (descriptors c) (fence_q c) (prefix_complete c) (cleanup c) (g
    (publication_arms c)) (useful_calls c).

Definition set_useful_calls (g : Z → Z) (c : LiveSlot) : LiveSlot :=
  mkLive (token c) (phase c) (short_refs c) (long_refs c) (queued c) (pending_scans c)
    (site_high_water c) (descriptors c) (fence_q c) (prefix_complete c) (cleanup c)
    (publication_arms c) (g (useful_calls c)).

Definition LiveSlot_new (token : Z) : LiveSlot :=
  mkLive token Prepared 0 0 (replicate 5 0) 0 0 [] None false None 0 0.

Inductive Slot :=
| Free (generation : Z)
| Reclaimable (generation : Z)
| Live (context : LiveSlot).

Record PendingCharge := mkCharge {
  charge_slot : Z;
  charge_generation : Z;
}.

Record LifetimeRegistry := mkRegistry {
  domain : Z;
  slots : list Slot;
  descriptor_ceiling : Z;
  pending_charges : list PendingCharge;
  history : list HistoricalFact;
}.

(** Field updates. *)

Definition set_domain (g : Z → Z) (c : LifetimeRegistry) : LifetimeRegistry :=
  mkRegistry (g (domain c)) (slots c) (descriptor_ceiling c) (pending_charges c) (history c).

Definition set_slots (g : list Slot → list Slot) (c : LifetimeRegistry) : LifetimeRegistry :=
  mkRegistry (domain c) (g (slots c)) (descriptor_ceiling c) (pending_charges c) (history c).

Definition set_descriptor_ceiling (g : Z → Z) (c : LifetimeRegistry) : LifetimeRegistry :=
  mkRegistry (domain c) (slots c) (g (descriptor_ceiling c)) (pending_charges c) (history c).

Definition set_pending_charges (g : list PendingCharge → list PendingCharge) (c : LifetimeRegistry) : LifetimeRegistry :=
  mkRegistry (domain c) (slots c) (descriptor_ceiling c) (g (pending_charges c)) (history c).

Definition set_history (g : list HistoricalFact → list HistoricalFact) (c : LifetimeRegistry) : LifetimeRegistry :=
  mkRegistry (domain c) (slots c) (descriptor_ceiling c) (pending_charges c) (g (history c)).

(** ** The registry: reading *)

Definition Registry_new (domain descriptor_ceiling : Z) : result LifetimeError LifetimeRegistry :=
  if descriptor_ceiling =? 0 then Err InvalidCeiling
  else Ok (mkRegistry domain (replicate (Z.to_nat MAX_LIFETIME_SLOTS) (Free 0)) descriptor_ceiling [] []).

Definition max_descriptors (r : LifetimeRegistry) : Z := descriptor_ceiling r / 2.

Definition charged_contexts (r : LifetimeRegistry) : Z :=
  zsum (λ s, match s with Live _ => 1 | _ => 0 end) (slots r).

Definition charged_descriptors (r : LifetimeRegistry) : Z :=
  zsum (λ s, match s with Live c => Z.of_nat (length (descriptors c)) | _ => 0 end) (slots r)
  + Z.of_nat (length (pending_charges r)).

Definition slot_state (slot : Z) (r : LifetimeRegistry) : option SlotView :=
  match slots r !! Z.to_nat slot with
  | Some (Free generation) => Some (ViewFree generation)
  | Some (Reclaimable generation) => Some (ViewReclaimable generation)
  | Some (Live c) => Some (ViewLive (token c) (phase c))
  | None => None
  end.

(** The context [tok] names, if it is the current occupant of its slot. *)
Definition find_live (tok : Z) (r : LifetimeRegistry) : option LiveSlot :=
  match slots r !! Z.to_nat (LoaderToken_slot tok) with
  | Some (Live c) => if token c =? tok then Some c else None
  | _ => None
  end.

Definition phase_of (tok : Z) (r : LifetimeRegistry) : option SlotPhase := phase <$> find_live tok r.

Definition prefix_complete_of (tok : Z) (r : LifetimeRegistry) : option bool :=
  prefix_complete <$> find_live tok r.

Abbreviation Lifetime := (SE LifetimeRegistry Stop).
Abbreviation OnContext := (SE LiveSlot Stop).

Definition refuse {S A} (e : LifetimeError) : SE S Stop A := se_err (Refuse e).

Definition get {S} : SE S Stop S := λ s, (inr s, s).

Definition modify {S} (f : S → S) : SE S Stop () := λ s, (inr tt, f s).

Definition check_domain (d : Z) : Lifetime () := λ r,
  if d =? domain r then (inr tt, r) else (inl (Refuse ForeignDomain), r).

Definition live (tok : Z) : Lifetime LiveSlot := λ r,
  match find_live tok r with Some c => (inr c, r) | None => (inl (Refuse StaleToken), r) end.

(** [let context = self.live_mut(token)?; m(context)]: what [m] wrote stays, also
    when it returns an error. *)
Definition live_mut {A} (tok : Z) (m : OnContext A) : Lifetime A := λ r,
  match find_live tok r with
  | Some c => let '(a, c') := m c in
              (a, set_slots (<[Z.to_nat (LoaderToken_slot tok) := Live c']>) r)
  | None => (inl (Refuse StaleToken), r)
  end.

Definition set_slot (slot : Z) (s : Slot) : Lifetime () := modify (set_slots (<[Z.to_nat slot := s]>)).

Fixpoint burnable_from (index : Z) (l : list Slot) : option (Z * Z) :=
  match l with
  | [] => None
  | s :: l =>
      match s with
      | Live _ => burnable_from (index + 1) l
      | Free generation | Reclaimable generation =>
          if generation <? U32_MAX then Some (as_u8 index, generation) else burnable_from (index + 1) l
      end
  end.

Definition burnable_slot (r : LifetimeRegistry) : option (Z * Z) := burnable_from 0 (slots r).

(** ** The registry: preparation *)

Definition prepare_new (d : Z) : Lifetime Z :=
  check_domain d ;;
  r ← get;
  if charged_contexts r =? MAX_LIFETIME_SLOTS then refuse CapacityExhausted
  else match burnable_slot r with
       | None => refuse GenerationExhausted
       | Some (slot, burned) =>
           let generation := burned + 1 in
           tok ← se_some Panic (LoaderToken_new generation slot);
           set_slot slot (Live (LiveSlot_new tok)) ;;
           mret tok
       end.

Definition prepare_new_faulted (d : Z) : Lifetime Z :=
  check_domain d ;;
  r ← get;
  if charged_contexts r =? MAX_LIFETIME_SLOTS then refuse CapacityExhausted
  else match burnable_slot r with
       | None => refuse GenerationExhausted
       | Some (slot, burned) =>
           let generation := burned + 1 in
           set_slot slot (Free generation) ;;
           r ← get;
           if charged_descriptors r <? max_descriptors r then
             modify (set_pending_charges (λ l, l ++ [mkCharge slot generation])) ;;
             refuse (InjectedPrepareFault slot generation)
           else refuse DescriptorExhausted
       end.

Definition cleanup_pending (d slot generation : Z) : Lifetime () :=
  check_domain d ;;
  r ← get;
  i ← se_some (Refuse PendingMismatch)
        (position (λ c, (charge_slot c =? slot) && (charge_generation c =? generation)) (pending_charges r));
  modify (set_pending_charges (delete i)).

(** [if context.phase != phase { return Err(UnexpectedPhase { .. }) }] *)
Definition expect_phase (expected : string) (p : SlotPhase) : OnContext () := λ c,
  if decide (phase c = p) then (inr tt, c) else (inl (Refuse (UnexpectedPhase expected (phase c))), c).

Definition activate (d tok : Z) : Lifetime () :=
  check_domain d ;;
  live_mut tok (expect_phase "Prepared" Prepared ;; modify (set_phase (λ _, Active))).

Definition no_producers : OnContext () := λ c,
  if negb (short_refs c =? 0) || negb (long_refs c =? 0)
  then (inl (Refuse (ProducersActive (short_refs c) (long_refs c))), c) else (inr tt, c).

Fixpoint queues_settled (queues : list QueueKind) : OnContext () :=
  match queues with
  | [] => mret tt
  | queue :: queues =>
      c ← get;
      count ← se_some Panic (queued c !! QueueKind_index queue);
      if negb (count =? 0) then refuse (RecordsPending queue count) else queues_settled queues
  end.

Definition scans_settled : OnContext () := λ c,
  if negb (pending_scans c =? 0) then (inl (Refuse (ScansPending (pending_scans c))), c) else (inr tt, c).

Definition cancel_prepared (d tok : Z) : Lifetime () :=
  check_domain d ;;
  generation ← live_mut tok
    (expect_phase "Prepared" Prepared ;; no_producers ;; queues_settled QueueKind_ALL ;;
     scans_settled ;; c ← get; mret (LoaderToken_generation (token c)));
  set_slot (LoaderToken_slot tok) (Free generation).

(** ** The registry: references, queues and scans *)

(** [checked_add(1)] on a counter of the context; overflow quarantines. *)
Definition count_up (field : LiveSlot → Z) (set_field : (Z → Z) → LiveSlot → LiveSlot) : OnContext () := λ c,
  match checked_add 64 (field c) 1 with
  | Some n => (inr tt, set_field (λ _, n) c)
  | None => (inl (Refuse BookkeepingOverflow), set_phase (λ _, Quarantined) c)
  end.

Definition count_down (field : LiveSlot → Z) (set_field : (Z → Z) → LiveSlot → LiveSlot) : OnContext () := λ c,
  match checked_sub 64 (field c) 1 with
  | Some n => (inr tt, set_field (λ _, n) c)
  | None => (inl (Refuse UnbalancedRelease), c)
  end.

(** The phases that admit, and the error outside them. *)
Definition admit_phase (open : list SlotPhase) (closed : SlotPhase → LifetimeError) : OnContext () := λ c,
  if bool_decide (phase c ∈ open) then (inr tt, c)
  else match phase c with
       | Quarantined => (inl (Refuse QuarantinedContext), c)
       | p => (inl (Refuse (closed p)), c)
       end.

Definition acquire_short (d tok : Z) : Lifetime () :=
  check_domain d ;;
  live_mut tok (admit_phase [Prepared; Active] (λ _, AdmissionClosed) ;; count_up short_refs set_short_refs).

Definition release_short (d tok : Z) : Lifetime () :=
  check_domain d ;; live_mut tok (count_down short_refs set_short_refs).

Definition insert_state (d tok : Z) : Lifetime () :=
  check_domain d ;;
  live_mut tok
    (admit_phase [Prepared; Active; Closing] (λ _, AdmissionClosed) ;;
     c ← get;
     if short_refs c =? 0 then refuse MissingShortGuard else count_up long_refs set_long_refs).

Definition remove_state (d tok : Z) (deleted : bool) : Lifetime () :=
  check_domain d ;;
  live_mut tok
    (c ← get;
     if long_refs c =? 0 then refuse UnbalancedRelease
     else if negb deleted then modify (set_phase (λ _, Quarantined)) ;; refuse StateDeleteFailed
     else modify (set_long_refs (λ n, n - 1))).

Definition collect_record (d tok : Z) (queue : QueueKind) : Lifetime () :=
  check_domain d ;;
  live_mut tok
    (c ← get;
     count ← se_some Panic (queued c !! QueueKind_index queue);
     match checked_add 64 count 1 with
     | Some next => modify (set_queued (<[QueueKind_index queue := next]>))
     | None => modify (set_phase (λ _, Quarantined)) ;; refuse BookkeepingOverflow
     end).

Definition dispose_record (d tok : Z) (queue : QueueKind) : Lifetime () :=
  check_domain d ;;
  live_mut tok
    (c ← get;
     count ← se_some Panic (queued c !! QueueKind_index queue);
     next ← se_some (Refuse UnbalancedRelease) (checked_sub 64 count 1);
     modify (set_queued (<[QueueKind_index queue := next]>))).

Definition register_scan (d tok : Z) : Lifetime () :=
  check_domain d ;; live_mut tok (count_up pending_scans set_pending_scans).

Definition settle_scan (d tok : Z) : Lifetime () :=
  check_domain d ;; live_mut tok (count_down pending_scans set_pending_scans).

Definition record_publication (d tok : Z) : Lifetime () :=
  check_domain d ;;
  live_mut tok
    (admit_phase [Prepared; Active] (UnexpectedPhase "Prepared or Active") ;;
     modify (set_publication_arms (λ n, saturating_add 64 n 1))).

Definition record_call (d tok : Z) : Lifetime () :=
  check_domain d ;;
  live_mut tok (expect_phase "Active" Active ;; modify (set_useful_calls (λ n, saturating_add 64 n 1))).

(** ** The registry: export descriptors *)

Definition bind_export (d tok : Z) (binding : ExportBinding) : Lifetime Z :=
  check_domain d ;;
  retry ← live_mut tok
    (admit_phase [Prepared; Active] (λ _, AdmissionClosed) ;;
     c ← get;
     mret (descriptor_cookie <$> List.find (λ known, bool_decide (descriptor_binding known = binding)) (descriptors c)));
  match retry with
  | Some cookie => mret cookie
  | None =>
      r ← get;
      if max_descriptors r <=? charged_descriptors r then refuse DescriptorExhausted
      else live_mut tok
        (c ← get;
         ordinal ← se_some (Refuse SiteExhausted)
           (next ← checked_add 32 (site_high_water c) 1;
            if next <=? MAX_SITE_ORDINAL then Some next else None);
         cookie ← se_some Panic (export_cookie tok ordinal);
         modify (set_site_high_water (λ _, ordinal)) ;;
         modify (set_descriptors (λ l, l ++ [mkDescriptor cookie binding false])) ;;
         mret cookie)
  end.

Definition release_export (d tok cookie : Z) : Lifetime () :=
  check_domain d ;;
  live_mut tok
    (c ← get;
     i ← se_some (Refuse UnknownDescriptor) (position (λ known, descriptor_cookie known =? cookie) (descriptors c));
     known ← se_some Panic (descriptors c !! i);
     if links_closed known then refuse ExportAlreadyClosed
     else modify (set_descriptors (<[i := mkDescriptor (descriptor_cookie known) (descriptor_binding known) true]>))).

Definition settle_export (d tok cookie : Z) : Lifetime () :=
  check_domain d ;;
  live_mut tok
    (c ← get;
     i ← se_some (Refuse UnknownDescriptor) (position (λ known, descriptor_cookie known =? cookie) (descriptors c));
     known ← se_some Panic (descriptors c !! i);
     if negb (links_closed known) then refuse LinksStillOpen
     else modify (set_descriptors (delete i))).

(** ** The registry: retirement *)

Definition begin_retirement (d tok : Z) : Lifetime LoaderRetirement :=
  check_domain d ;;
  live_mut tok
    (c ← get;
     match phase c with
     | Active => modify (set_phase (λ _, Closing)) ;; mret (mkRetirement d tok)
     | Quarantined => refuse PermanentQuarantine
     | p => refuse (UnexpectedPhase "Active" p)
     end).

Definition observe_closed_zero (retirement : LoaderRetirement) : Lifetime () :=
  check_domain (retirement_domain retirement) ;;
  live_mut (retirement_token retirement)
    (expect_phase "Closing" Closing ;; no_producers ;; modify (set_phase (λ _, ProducersQuiet))).

Definition sample_q (retirement : LoaderRetirement) (q : Z) : Lifetime () :=
  check_domain (retirement_domain retirement) ;;
  live_mut (retirement_token retirement)
    (c ← get;
     match fence_q c with
     | Some _ => refuse QAlreadyFixed
     | None =>
         expect_phase "ProducersQuiet" ProducersQuiet ;;
         modify (set_fence_q (λ _, Some q)) ;;
         modify (set_phase (λ _, Draining))
     end).

Definition drain_prefix (retirement : LoaderRetirement) (drain : ConsumerDrain) : Lifetime PrefixOutcome :=
  check_domain (retirement_domain retirement) ;;
  live_mut (retirement_token retirement)
    (expect_phase "Draining" Draining ;;
     c ← get;
     q ← se_some Panic (fence_q c);
     if consumer drain <? q then
       if busy_before_q drain then mret (PrefixPending ForeignBusy) else mret (PrefixPending StillDraining)
     else modify (set_prefix_complete (λ _, true)) ;; mret PrefixComplete).

Definition mint_fence (retirement : LoaderRetirement) : Lifetime LoaderRetirementFence :=
  check_domain (retirement_domain retirement) ;;
  live_mut (retirement_token retirement)
    (expect_phase "Draining" Draining ;;
     c ← get;
     q ← se_some Panic (fence_q c);
     mret (mkFence (retirement_domain retirement) (retirement_token retirement) q)).

Definition record_link_cleanup (d tok : Z) (success : bool) : Lifetime () :=
  check_domain d ;;
  live_mut tok (expect_phase "Draining" Draining ;; modify (set_cleanup (λ _, Some success))).

Definition fence_settled (fence : LoaderRetirementFence) : Lifetime (option Z) :=
  check_domain (fence_domain fence) ;;
  r ← get;
  match slots r !! Z.to_nat (LoaderToken_slot (fence_token fence)) with
  | Some (Reclaimable generation) =>
      mret (if generation =? LoaderToken_generation (fence_token fence) then Some (fence_token fence) else None)
  | _ => mret None
  end.

Definition descriptors_settled : OnContext () := λ c,
  match descriptors c with
  | [] => (inr tt, c)
  | l => (inl (Refuse (DescriptorsPending (Z.of_nat (length l)))), c)
  end.

(** The refusals of [ack_fence], in its order. *)
Definition acknowledgeable (fence : LoaderRetirementFence) (drain : ConsumerDrain) : OnContext () :=
  c ← get;
  if negb (token c =? fence_token fence) || negb (bool_decide (fence_q c = Some (fence_position fence)))
  then refuse StaleToken
  else
    expect_phase "Draining" Draining ;;
    match cleanup c with
    | Some true =>
        if consumer drain <? fence_position fence then
          if busy_before_q drain then refuse ForeignBusyBeforeQ
          else refuse (DrainIncomplete (consumer drain) (fence_position fence))
        else queues_settled QueueKind_ALL ;; scans_settled ;; descriptors_settled
    | Some false => refuse CleanupFailed
    | None => refuse CleanupIncomplete
    end.

Definition ack_fence (fence : LoaderRetirementFence) (drain : ConsumerDrain) : Lifetime ReclaimedSlot :=
  check_domain (fence_domain fence) ;;
  c ← live_mut (fence_token fence) (acknowledgeable fence drain ;; get);
  let generation := LoaderToken_generation (token c) in
  modify (set_history (λ l, l ++ [mkFact (token c) (publication_arms c) (useful_calls c)])) ;;
  set_slot (LoaderToken_slot (fence_token fence)) (Reclaimable generation) ;;
  mret (mkReclaimed (LoaderToken_slot (fence_token fence)) generation).

(** ** The model-test seams *)

Definition inject_slot_generation (d slot generation : Z) : Lifetime () :=
  check_domain d ;;
  r ← get;
  match slots r !! Z.to_nat slot with
  | Some (Free current) =>
      if generation <? current then refuse GenerationRollback else set_slot slot (Free generation)
  | Some (Reclaimable current) =>
      if generation <? current then refuse GenerationRollback else set_slot slot (Reclaimable generation)
  | Some (Live _) => refuse StaleToken
  | None => se_err Panic
  end.

Definition inject_site_high_water (d tok high_water : Z) : Lifetime () :=
  check_domain d ;;
  live_mut tok
    (c ← get;
     if high_water <? site_high_water c then refuse GenerationRollback
     else modify (set_site_high_water (λ _, high_water))).

Definition inject_refs (d tok short long queue : Z) : Lifetime () :=
  check_domain d ;;
  live_mut tok
    (modify (set_short_refs (λ _, short)) ;;
     modify (set_long_refs (λ _, long)) ;;
     modify (set_queued (λ _, replicate 5 queue))).
