(* ===== verification/LifetimeHistory.v ===== *)
(** * Histories of the loader lifetime registry

    Every call of [src/discovery/loader_lifetime.rs] a production driver makes, the
    well-formedness of the registry and the relation its states stand in over time:
    generations only grow, a token that lost its slot never names it again, an export
    ordinal is never minted twice, a fence is fixed once and quarantine is final. *)
From S2P Require Import Prelude Lifetime.

(** ** Tokens and cookies *)

Record token_at (slot tok : Z) : Prop := mkTokenAt {
  ta_slot : LoaderToken_slot tok = slot;
  ta_generation : 1 <= LoaderToken_generation tok < 2 ^ 32;
  ta_bits : tok = LoaderToken_generation tok * 2 ^ 8 + slot;
  ta_small : 0 <= slot < 2 ^ 8;
}.

Lemma LoaderToken_new_at g s tok :
  0 <= g < 2 ^ 32 → 0 <= s < 2 ^ 8 → LoaderToken_new g s = Some tok →
  token_at s tok ∧ LoaderToken_generation tok = g.
Proof.
  intros Hg Hs. unfold LoaderToken_new. case_match eqn:E; [done|]. intros [= <-]. bprop.
  rewrite shiftl_lor_add by (unfold in_width; lia).
  assert (LoaderToken_generation (g * 2 ^ 8 + s) = g) as Hgen.
  { unfold LoaderToken_generation. rewrite Z.shiftr_div_pow2, Z.div_add_l, Z.div_small by lia.
    unfold as_u32. rewrite wrap_small; unfold in_width; lia. }
  split; [|done]. constructor; rewrite ?Hgen; try lia.
  unfold LoaderToken_slot. change 0xff with (2 ^ 8 - 1). rewrite land_ones_mod by lia.
  rewrite Z.add_comm, Z.mod_add, Z.mod_small by lia.
  unfold as_u8. rewrite wrap_small; unfold in_width; lia.
Qed.

Lemma token_at_bits slot tok : token_at slot tok → LoaderToken_from_bits tok = Some tok ∧ 0 < tok < 2 ^ 40.
Proof.
  intros [_ Hg Hb Hs]. assert (0 < tok < 2 ^ 40) as Ht by lia. split; [|done].
  unfold LoaderToken_from_bits, TOKEN_MAX, TOKEN_BITS.
  assert (tok >> 8 = LoaderToken_generation tok) as ->.
  { rewrite Z.shiftr_div_pow2 by lia. symmetry. apply (Z.div_unique _ _ _ slot); lia. }
  change ((1 << 40) - 1) with (2 ^ 40 - 1). by rewrite !(proj2 (Z.eqb_neq _ _)), (proj2 (Z.ltb_ge _ _)) by lia.
Qed.

Lemma token_at_inj s s' t t' :
  token_at s t → token_at s' t' → s = s' → LoaderToken_generation t = LoaderToken_generation t' → t = t'.
Proof. intros [_ _ Ht _] [_ _ Ht' _] <- Hg. rewrite Ht, Ht', Hg. done. Qed.

Lemma export_cookie_value tok o k :
  0 <= tok < 2 ^ 40 → 0 <= o → export_cookie tok o = Some k →
  1 <= o <= MAX_SITE_ORDINAL ∧ k = tok * 2 ^ 24 + o.
Proof.
  unfold export_cookie, MAX_SITE_ORDINAL, LoaderToken_bits. intros Ht Ho. case_match eqn:E; [done|]. intros [= <-].
  bprop. destruct E as [E1 E2]. split; [lia|].
  unfold as_u64. rewrite wrap_small by word_lia. rewrite shiftl_lor_add; [done|lia|unfold in_width; lia].
Qed.

Lemma export_cookie_inj t t' o o' k :
  0 <= t < 2 ^ 40 → 0 <= t' < 2 ^ 40 → 0 <= o → 0 <= o' →
  export_cookie t o = Some k → export_cookie t' o' = Some k → t = t' ∧ o = o'.
Proof.
  unfold MAX_SITE_ORDINAL. intros Ht Ht' Ho Ho' H H'.
  apply export_cookie_value in H as [? Hk]; [|done..]. apply export_cookie_value in H' as [? Hk']; [|done..].
  unfold MAX_SITE_ORDINAL in *. lia.
Qed.

Lemma decode_export_cookie_encode tok slot o k :
  token_at slot tok → 0 <= o → export_cookie tok o = Some k → decode_export_cookie k = Some (tok, o).
Proof.
  intros Ht Ho Hk. destruct (token_at_bits _ _ Ht) as [Hb Hr].
  apply export_cookie_value in Hk as [Hm ->]; [|lia|done]. unfold MAX_SITE_ORDINAL in Hm.
  unfold decode_export_cookie. change 0x00ffffff with (2 ^ 24 - 1). rewrite land_ones_mod by lia.
  rewrite (Z.add_comm (tok * _)), Z.mod_add, Z.mod_small by lia.
  unfold as_u32. rewrite wrap_small by (unfold in_width; lia).
  rewrite (proj2 (Z.eqb_neq _ _)) by lia.
  rewrite Z.shiftr_div_pow2, Z.div_add, Z.div_small by lia. rewrite Z.add_0_l, Hb. done.
Qed.

(** ** Well-formed registries *)

Definition quiet (p : SlotPhase) : bool :=
  match p with ProducersQuiet | Draining => true | _ => false end.

(** Descriptors hold distinct bindings under distinct ordinals already minted. *)
Record descriptors_wf (tok high_water : Z) (l : list LiveDescriptor) : Prop := mkDescWf {
  dw_minted : Forall (λ d, ∃ o, 1 <= o <= high_water ∧ export_cookie tok o = Some (descriptor_cookie d)) l;
  dw_cookies : NoDup (descriptor_cookie <$> l);
  dw_bindings : NoDup (descriptor_binding <$> l);
}.

Record context_wf (slot : Z) (c : LiveSlot) : Prop := mkContextWf {
  cw_token : token_at slot (token c);
  cw_short : in_width 64 (short_refs c);
  cw_long : in_width 64 (long_refs c);
  cw_scans : in_width 64 (pending_scans c);
  cw_site : in_width 32 (site_high_water c);
  cw_arms : in_width 64 (publication_arms c);
  cw_calls : in_width 64 (useful_calls c);
  cw_queues : length (queued c) = 5%nat ∧ Forall (in_width 64) (queued c);
  cw_quiet : quiet (phase c) = true → short_refs c = 0 ∧ long_refs c = 0;
  cw_fenced : phase c = Draining → is_Some (fence_q c);
  cw_fence : is_Some (fence_q c) → phase c = Draining ∨ phase c = Quarantined;
  cw_descriptors : descriptors_wf (token c) (site_high_water c) (descriptors c);
}.

Definition slot_wf (slot : Z) (s : Slot) : Prop :=
  match s with
  | Free g | Reclaimable g => in_width 32 g
  | Live c => context_wf slot c
  end.

Record registry_wf (r : LifetimeRegistry) : Prop := mkRegistryWf {
  rw_length : length (slots r) = Z.to_nat MAX_LIFETIME_SLOTS;
  rw_slots : ∀ i s, slots r !! i = Some s → slot_wf (Z.of_nat i) s;
  rw_charged : charged_descriptors r <= max_descriptors r;
}.

(** ** What a call may do over time *)

Record context_rel (c c' : LiveSlot) : Prop := mkContextRel {
  cr_token : token c' = token c;
  cr_site : site_high_water c <= site_high_water c';
  cr_quarantine : phase c = Quarantined → phase c' = Quarantined;
  cr_fence : ∀ q, fence_q c = Some q → fence_q c' = Some q;
  cr_arms : publication_arms c <= publication_arms c';
  cr_calls : useful_calls c <= useful_calls c';
  cr_minted : ∀ d', d' ∈ descriptors c' →
    (∃ d, d ∈ descriptors c ∧ descriptor_cookie d = descriptor_cookie d' ∧ descriptor_binding d = descriptor_binding d') ∨
    (∃ o, site_high_water c < o <= site_high_water c' ∧ export_cookie (token c) o = Some (descriptor_cookie d'));
}.

#[export] Instance context_rel_preorder : PreOrder context_rel.
Proof.
  split.
  - intros c. constructor; try done. eauto.
  - intros a b c [Ht Hs Hq Hf Ha Hu Hm] [Ht' Hs' Hq' Hf' Ha' Hu' Hm']. constructor; try lia; eauto.
    intros d Hd. destruct (Hm' d Hd) as [(d1 & Hd1 & Hc1 & Hb1)|(o & Ho & Hk)].
    + destruct (Hm d1 Hd1) as [(d2 & Hd2 & Hc2 & Hb2)|(o & Ho & Hk)].
      * left. exists d2. split_and!; congruence.
      * right. exists o. split; [lia|congruence].
    + right. exists o. split; [lia|congruence].
Qed.

Definition slot_generation (s : Slot) : Z :=
  match s with Free g | Reclaimable g => g | Live c => LoaderToken_generation (token c) end.

Record slot_rel (s s' : Slot) : Prop := mkSlotRel {
  sr_generation : slot_generation s <= slot_generation s';
  sr_live : ∀ c', s' = Live c' → slot_generation s = slot_generation s' →
    ∃ c, s = Live c ∧ context_rel c c';
  sr_quarantine : ∀ c, s = Live c → phase c = Quarantined →
    ∃ c', s' = Live c' ∧ context_rel c c';
}.

#[export] Instance slot_rel_preorder : PreOrder slot_rel.
Proof.
  split.
  - intros s. constructor; [done|..]; intros c -> *; exists c; done.
  - intros a b c [Hg Hl Hq] [Hg' Hl' Hq']. constructor; [lia|..].
    + intros c' -> Heq. destruct (Hl' c' eq_refl) as (b' & -> & Hb); [lia|].
      destruct (Hl b' eq_refl) as (a' & -> & Ha); [lia|]. exists a'. split; [done|by etrans].
    + intros a' -> Hp. destruct (Hq a' eq_refl Hp) as (b' & -> & Ha).
      destruct (Hq' b' eq_refl (cr_quarantine _ _ Ha Hp)) as (c' & -> & Hb). exists c'. split; [done|by etrans].
Qed.

Record registry_rel (r r' : LifetimeRegistry) : Prop := mkRegistryRel {
  rr_domain : domain r' = domain r;
  rr_ceiling : descriptor_ceiling r' = descriptor_ceiling r;
  rr_history : history r `prefix_of` history r';
  rr_slots : Forall2 slot_rel (slots r) (slots r');
}.

#[export] Instance registry_rel_preorder : PreOrder registry_rel.
Proof.
  split.
  - intros r. constructor; done.
  - intros a b c [Hd Hc Hh Hs] [Hd' Hc' Hh' Hs']. constructor; try congruence; by etrans.
Qed.

(** ** One slot changed *)

Definition slot_descriptors (s : Slot) : Z :=
  match s with Live c => Z.of_nat (length (descriptors c)) | _ => 0 end.

Lemma charged_descriptors_insert r i s s' :
  slots r !! i = Some s →
  charged_descriptors (set_slots (<[i := s']>) r) = charged_descriptors r - slot_descriptors s + slot_descriptors s'.
Proof. intros Hi. unfold charged_descriptors. simpl. rewrite (zsum_insert _ _ _ _ _ Hi). destruct s, s'; simpl; lia. Qed.

Lemma set_slots_ok r i s s' :
  registry_wf r → slots r !! i = Some s → slot_wf (Z.of_nat i) s' → slot_rel s s' →
  charged_descriptors r - slot_descriptors s + slot_descriptors s' <= max_descriptors r →
  registry_wf (set_slots (<[i := s']>) r) ∧ registry_rel r (set_slots (<[i := s']>) r).
Proof.
  intros [Hl Hs Hc] Hi Hw Hr Hn. split.
  - constructor; simpl; [by rewrite length_insert|..].
    + intros j t Hj. apply list_lookup_insert_Some in Hj as [(<- & <- & _)|[_ Hj]]; [done|by apply Hs].
    + by rewrite (charged_descriptors_insert _ _ _ _ Hi).
  - constructor; simpl; try done. rewrite <-(list_insert_id _ _ _ Hi) at 1. apply Forall2_insert; done.
Qed.

Lemma find_live_Some r tok c :
  find_live tok r = Some c ↔
  slots r !! Z.to_nat (LoaderToken_slot tok) = Some (Live c) ∧ token c = tok.
Proof.
  unfold find_live. destruct (slots r !! _) as [[| |c']|] eqn:E; try (split; [done|by intros [[=] _]]).
  zif; split; [intros [= ->]|intros [[= ->] ?]|done|intros [[= ->] ?]]; done.
Qed.

Lemma LoaderToken_slot_range tok : 0 <= LoaderToken_slot tok < 2 ^ 8.
Proof. apply wrap_width. lia. Qed.

Lemma find_live_wf r tok c :
  registry_wf r → find_live tok r = Some c → context_wf (LoaderToken_slot tok) c.
Proof.
  intros Hw [Hi _]%find_live_Some. apply (rw_slots _ Hw) in Hi. simpl in Hi.
  by rewrite Z2Nat.id in Hi by apply LoaderToken_slot_range.
Qed.

(** ** Calls *)

Definition no_panic {A} (a : Stop + A) : Prop := a ≠ inl Panic.

(** A computation on one context: safe, monotone, and without new descriptors. *)
Record context_good {A} (slot : Z) (c : LiveSlot) (o : (Stop + A) * LiveSlot) : Prop := mkContextGood {
  cg_panic : no_panic o.1;
  cg_wf : context_wf slot o.2;
  cg_rel : context_rel c o.2;
  cg_size : (length (descriptors o.2) <= length (descriptors c))%nat;
}.

Record call_good {A} (r : LifetimeRegistry) (o : (Stop + A) * LifetimeRegistry) : Prop := mkCallGood {
  cl_panic : no_panic o.1;
  cl_wf : registry_wf o.2;
  cl_rel : registry_rel r o.2;
}.

Definition safe_on_context {A} (m : OnContext A) : Prop :=
  ∀ slot c, context_wf slot c → context_good slot c (m c).

Definition safe_call {A} (m : Lifetime A) : Prop :=
  ∀ r, registry_wf r → call_good r (m r).

Lemma live_slot_rel c c' : context_rel c c' → slot_rel (Live c) (Live c').
Proof.
  intros H. pose proof (cr_token _ _ H) as Ht.
  constructor; simpl; rewrite ?Ht; [done|..]; [intros ? [= <-]|intros ? [= <-]]; eauto.
Qed.

Lemma refuse_good {A} r e : registry_wf r → call_good r (inl (Refuse e) : Stop + A, r).
Proof. intros Hw. constructor; done. Qed.

Lemma live_mut_safe {A} tok (m : OnContext A) : safe_on_context m → safe_call (live_mut tok m).
Proof.
  intros Hm r Hw. unfold live_mut. destruct (find_live tok r) as [c|] eqn:Hf; [|by apply refuse_good].
  destruct (Hm _ _ (find_live_wf _ _ _ Hw Hf)) as [Hp Hcw Hr Hs].
  apply find_live_Some in Hf as [Hi _]. destruct (m c) as [a c']. simpl in *.
  destruct (set_slots_ok r _ _ (Live c') Hw Hi) as [Hw' Hrel].
  - by rewrite Z2Nat.id by apply LoaderToken_slot_range.
  - by apply live_slot_rel.
  - pose proof (rw_charged _ Hw). simpl. lia.
  - by constructor.
Qed.

Lemma bind_safe {A B} (m : Lifetime A) (k : A → Lifetime B) :
  safe_call m → (∀ a, safe_call (k a)) → safe_call (m ≫= k).
Proof.
  intros Hm Hk r Hw. unfold mbind, se_mbind, se_bind. destruct (Hm r Hw) as [Hp Hw' Hr].
  destruct (m r) as [[e|a] r']; simpl in *; [by constructor; [intros [= ->]|..]|].
  destruct (Hk a r' Hw') as [Hp'' Hw'' Hr'']. constructor; [done..|by etrans].
Qed.

Lemma ret_safe {A} (a : A) : safe_call (mret a).
Proof. intros r Hw. by constructor. Qed.

Lemma check_domain_safe d : safe_call (check_domain d).
Proof. intros r Hw. unfold check_domain. case_match; by constructor. Qed.

Create HintDb lifetime.
#[export] Hint Resolve live_mut_safe bind_safe ret_safe check_domain_safe : lifetime.

(** ** Computations on one context *)

Lemma same_good {A} slot c (a : Stop + A) : context_wf slot c → no_panic a → context_good slot c (a, c).
Proof. intros Hw Hp. by constructor. Qed.

(** Case analysis on a scrutinee that holds no further match. *)
Ltac case_inner :=
  match goal with
  | |- context [match ?x with _ => _ end] =>
      lazymatch x with context [match _ with _ => _ end] => fail | _ => destruct x eqn:? end
  end.

(** The result of one context computation, split along its branches. *)
Ltac context_cases :=
  intros slot c Hw;
  unfold expect_phase, no_producers, scans_settled, admit_phase, count_up, count_down,
    refuse, se_err, se_some, get, modify;
  unfold mbind, se_mbind, se_bind, mret, se_mret, se_ret; cbn;
  repeat (case_inner; simplify_eq/=; try (apply same_good; done)).

(** One field changed: the other facts carry over. *)
Ltac context_step :=
  match goal with H : context_wf _ _ |- _ => destruct H as [Htok Hsh Hlo Hsc Hsi Har Hca [Hql Hqw] Hqu Hfd Hfe Hde] end;
  constructor; [done| |constructor; simpl; try done; try lia; eauto|simpl; try done];
  [constructor; simpl; try done; eauto|..].

Lemma open_not_quiet p : p ∈ [Prepared; Active] → quiet p = false.
Proof. intros H. set_unfold in H. naive_solver. Qed.

Lemma fenced_draining slot c : context_wf slot c → phase c = Draining → fence_q c = None → False.
Proof. intros Hw Hp Hf. destruct (cw_fenced _ _ Hw Hp) as [q Hq]. congruence. Qed.

Lemma queue_present slot c queue :
  context_wf slot c → ∃ n, queued c !! QueueKind_index queue = Some n ∧ in_width 64 n.
Proof.
  intros Hw. destruct (cw_queues _ _ Hw) as [Hl Hq].
  destruct (lookup_lt_is_Some_2 (queued c) (QueueKind_index queue)) as [n Hn]; [destruct queue; simpl; lia|].
  exists n. split; [done|]. by eapply Forall_lookup_1.
Qed.

Lemma queue_absent slot c queue : context_wf slot c → queued c !! QueueKind_index queue = None → False.
Proof. intros Hw Hq. destruct (queue_present _ _ queue Hw) as (n & Hn & _). congruence. Qed.

Lemma position_absent {A} (p : A → bool) l i : position p l = Some i → l !! i = None → False.
Proof. intros (x & Hx & _)%position_Some H. congruence. Qed.

Ltac context_solve :=
  context_cases; try solve [exfalso; eauto using fenced_draining, queue_absent, position_absent];
  unfold checked_add, checked_sub in *;
  repeat match goal with
  | H : checked _ _ = Some _ |- _ => apply checked_Some in H as [-> ?]
  | H : bool_decide _ = true |- _ => apply bool_decide_eq_true in H
  end;
  context_step;
  try solve [ chk; word_lia
            | unfold saturating_add; word_lia
            | intros; congruence
            | match goal with E : phase ?c = _, H : quiet (phase ?c) = true → _ |- _ => rewrite E in H; done end
            | intros Hs; match goal with H : is_Some _ → _ ∨ _ |- _ => destruct (H Hs); congruence end
            | intros Hs; match goal with H : quiet _ = true → _ |- _ => destruct (H Hs) end; width; lia
            | intros Hs; match goal with H : _ ∈ [Prepared; Active] |- _ => apply open_not_quiet in H end; congruence ].

Ltac on_context := apply bind_safe; [apply check_domain_safe|intros _]; apply live_mut_safe.

Lemma activate_safe d tok : safe_call (activate d tok).
Proof. on_context. context_solve. Qed.

Lemma acquire_short_safe d tok : safe_call (acquire_short d tok).
Proof. on_context. context_solve. Qed.

Lemma release_short_safe d tok : safe_call (release_short d tok).
Proof. on_context. context_solve. Qed.

Lemma insert_state_safe d tok : safe_call (insert_state d tok).
Proof. on_context. context_solve. Qed.

Lemma remove_state_safe d tok deleted : safe_call (remove_state d tok deleted).
Proof. on_context. context_solve. Qed.

Lemma register_scan_safe d tok : safe_call (register_scan d tok).
Proof. on_context. context_solve. Qed.

Lemma settle_scan_safe d tok : safe_call (settle_scan d tok).
Proof. on_context. context_solve. Qed.

Lemma record_publication_safe d tok : safe_call (record_publication d tok).
Proof. on_context. context_solve. Qed.

Lemma record_call_safe d tok : safe_call (record_call d tok).
Proof. on_context. context_solve. Qed.

Lemma begin_retirement_safe d tok : safe_call (begin_retirement d tok).
Proof. on_context. context_solve. Qed.

Lemma observe_closed_zero_safe retirement : safe_call (observe_closed_zero retirement).
Proof. on_context. context_solve. Qed.

Lemma sample_q_safe retirement q : safe_call (sample_q retirement q).
Proof. on_context. context_solve. Qed.

Lemma drain_prefix_safe retirement drain : safe_call (drain_prefix retirement drain).
Proof. on_context. context_solve. Qed.

Lemma mint_fence_safe retirement : safe_call (mint_fence retirement).
Proof. on_context. context_solve. Qed.

Lemma record_link_cleanup_safe d tok success : safe_call (record_link_cleanup d tok success).
Proof. on_context. context_solve. Qed.

Lemma collect_record_safe d tok queue : safe_call (collect_record d tok queue).
Proof. on_context. context_solve. rewrite length_insert. split; [done|]. by apply Forall_insert. Qed.

Lemma dispose_record_safe d tok queue : safe_call (dispose_record d tok queue).
Proof. on_context. context_solve. rewrite length_insert. split; [done|]. by apply Forall_insert. Qed.

(** Closing the links of a descriptor keeps its cookie and its binding. *)
Lemma descriptors_close tok hw l i d :
  l !! i = Some d → descriptors_wf tok hw l →
  descriptors_wf tok hw (<[i := mkDescriptor (descriptor_cookie d) (descriptor_binding d) true]> l).
Proof.
  intros Hi [Hm Hc Hb]. constructor.
  - apply Forall_insert; [done|]. simpl. by eapply (Forall_lookup_1 _ _ _ _ Hm).
  - rewrite list_fmap_insert. simpl. rewrite list_insert_id; [done|]. by rewrite list_lookup_fmap, Hi.
  - rewrite list_fmap_insert. simpl. rewrite list_insert_id; [done|]. by rewrite list_lookup_fmap, Hi.
Qed.

Lemma NoDup_fmap_delete {A B} (f : A → B) l i : NoDup (f <$> l) → NoDup (f <$> delete i l).
Proof.
  intros H. eapply sublist_NoDup; [exact H|]. clear H. revert i.
  induction l as [|x l IH]; intros [|i]; simpl; [done..|by constructor|].
  apply sublist_skip, IH.
Qed.

Lemma descriptors_drop tok hw l i : descriptors_wf tok hw l → descriptors_wf tok hw (delete i l).
Proof.
  intros [Hm Hc Hb]. constructor; [by apply Forall_delete|by apply NoDup_fmap_delete..].
Qed.

Lemma release_export_safe d tok cookie : safe_call (release_export d tok cookie).
Proof.
  on_context. context_solve; [by apply descriptors_close| |by rewrite length_insert].
  intros d' Hd. left. apply list_elem_of_lookup in Hd as [j Hj].
  apply list_lookup_insert_Some in Hj as [(_ & <- & _)|[_ Hj]]; eauto using list_elem_of_lookup_2.
Qed.

Lemma settle_export_safe d tok cookie : safe_call (settle_export d tok cookie).
Proof.
  on_context. context_solve; [by apply descriptors_drop| |apply sublist_length, sublist_delete].
  intros d' Hd. left. exists d'. split; [|done]. revert Hd. apply elem_of_subseteq.
  apply sublist_subseteq, sublist_delete.
Qed.

(** ** Preparation *)

Definition is_live (s : Slot) : bool := match s with Live _ => true | _ => false end.

Lemma burnable_from_Some k l slot g :
  0 <= k → k + Z.of_nat (length l) <= 256 → burnable_from k l = Some (slot, g) →
  ∃ j s, l !! j = Some s ∧ slot = k + Z.of_nat j ∧ is_live s = false ∧ slot_generation s = g ∧ g < U32_MAX.
Proof.
  revert k. induction l as [|s l IH]; intros k Hk Hl H; simpl in *; [done|].
  assert (burnable_from (k + 1) l = Some (slot, g) →
    ∃ j x, (s :: l) !! j = Some x ∧ slot = k + Z.of_nat j ∧ is_live x = false ∧ slot_generation x = g ∧ g < U32_MAX)
    as Hrec.
  { intros Hb. destruct (IH (k + 1)) as (j & x & Hj & -> & Hx); [lia..|done|].
    exists (S j), x. split; [done|]. split; [lia|done]. }
  destruct s as [gen|gen|c]; [| |by apply Hrec]; destruct (gen <? U32_MAX) eqn:Hlt;
    try (by apply Hrec); injection H as <- <-; bprop; exists 0%nat; eexists; (split; [done|]); simpl;
    unfold as_u8; rewrite wrap_small by (unfold in_width; lia); (split; [lia|done]).
Qed.

Lemma burnable_slot_Some r slot g :
  registry_wf r → burnable_slot r = Some (slot, g) →
  ∃ s, slots r !! Z.to_nat slot = Some s ∧ is_live s = false ∧ slot_generation s = g ∧
    0 <= g < U32_MAX ∧ 0 <= slot < 2 ^ 8.
Proof.
  intros Hw Hb. pose proof (rw_length _ Hw) as Hl. unfold MAX_LIFETIME_SLOTS in Hl.
  apply burnable_from_Some in Hb as (j & s & Hj & -> & Hs & Hg & Hm); [|lia..].
  exists s. rewrite Z.add_0_l, Nat2Z.id. pose proof (rw_slots _ Hw _ _ Hj).
  apply lookup_lt_Some in Hj as ?. split_and!; try done; try lia.
  destruct s; simpl in *; [unfold in_width in *; lia..|done].
Qed.

(** A vacant slot whose generation burns: nothing it held can come back. *)
Lemma burn_ok r slot s s' :
  registry_wf r → slots r !! Z.to_nat slot = Some s → is_live s = false → 0 <= slot →
  slot_wf slot s' → slot_generation s < slot_generation s' → slot_descriptors s' = 0 →
  call_good r (inr tt : Stop + (), set_slots (<[Z.to_nat slot := s']>) r).
Proof.
  intros Hw Hi Hs H0 Hs' Hg Hd. destruct (set_slots_ok r _ _ s' Hw Hi) as [Hw' Hr].
  - by rewrite Z2Nat.id.
  - constructor; [lia|intros; lia|intros c ->; done].
  - pose proof (rw_charged _ Hw). destruct s; simpl in *; [lia..|done].
  - by constructor.
Qed.

Lemma LiveSlot_new_wf slot tok : token_at slot tok → context_wf slot (LiveSlot_new tok).
Proof.
  intros Ht. constructor; simpl; try done; try (unfold in_width; lia).
  - split; [done|]. repeat constructor; unfold in_width; lia.
  - constructor; simpl; constructor.
Qed.

Lemma prepare_new_ok d r :
  registry_wf r →
  (∃ e, prepare_new d r = (inl (Refuse e), r)) ∨
  ∃ slot g tok s, slots r !! Z.to_nat slot = Some s ∧ is_live s = false ∧ slot_generation s = g ∧
    token_at slot tok ∧ LoaderToken_generation tok = g + 1 ∧
    prepare_new d r = (inr tok, set_slots (<[Z.to_nat slot := Live (LiveSlot_new tok)]>) r).
Proof.
  intros Hw. unfold prepare_new, check_domain, get, refuse, se_some, set_slot, modify.
  unfold mbind, se_mbind, se_bind, mret, se_mret, se_ret, se_err; simpl.
  destruct (d =? domain r); [|eauto]. destruct (charged_contexts r =? _); [eauto|].
  destruct (burnable_slot r) as [[slot g]|] eqn:Hb; [|eauto].
  apply burnable_slot_Some in Hb as (s & Hi & Hs & Hg & [Hr Hr'] & Hsl); [|done]. unfold U32_MAX in *.
  destruct (LoaderToken_new (g + 1) slot) as [tok|] eqn:Ht.
  - apply LoaderToken_new_at in Ht as [Hat Hgen]; [|lia..]. right. by exists slot, g, tok, s.
  - unfold LoaderToken_new in Ht. destruct (g + 1 =? 0) eqn:E; [bprop; lia|done].
Qed.

Lemma prepare_new_safe d : safe_call (prepare_new d).
Proof.
  intros r Hw. destruct (prepare_new_ok d r Hw) as [[e ->]|(slot & g & tok & s & Hi & Hs & Hg & Ht & Hgen & ->)];
    [by apply refuse_good|].
  destruct (burn_ok r slot s (Live (LiveSlot_new tok)) Hw Hi Hs) as [_ Hw' Hr]; simpl;
    [apply (ta_small _ _ Ht)|by apply LiveSlot_new_wf|lia|done|]. by constructor.
Qed.

Lemma pending_charges_ok r l :
  registry_wf r → charged_descriptors (set_pending_charges l r) <= max_descriptors r →
  registry_wf (set_pending_charges l r) ∧ registry_rel r (set_pending_charges l r).
Proof.
  intros [Hl Hs _] Hc. split; [by constructor|]. by constructor.
Qed.

Lemma prepare_new_faulted_safe d : safe_call (prepare_new_faulted d).
Proof.
  apply bind_safe; [apply check_domain_safe|intros _]. intros r Hw.
  unfold get, refuse, set_slot, modify, mbind, se_mbind, se_bind, se_err; simpl.
  destruct (charged_contexts r =? _); [by apply refuse_good|].
  destruct (burnable_slot r) as [[slot g]|] eqn:Hb; [|by apply refuse_good].
  apply burnable_slot_Some in Hb as (s & Hi & Hs & Hg & [Hr Hr'] & Hsl); [|done]. unfold U32_MAX in *.
  destruct (burn_ok r slot s (Free (g + 1)) Hw Hi Hs) as [_ Hw' Hrel]; simpl;
    [lia|unfold in_width; lia|lia|done|]. simpl in *.
  destruct (_ <? _) eqn:Hlt; [|by constructor]. bprop.
  destruct (pending_charges_ok _ (λ l, l ++ [mkCharge slot (g + 1)]) Hw') as [Hw'' Hrel'].
  - unfold charged_descriptors in *. simpl in *. rewrite length_app. simpl. lia.
  - constructor; [done..|by etrans].
Qed.

Lemma cleanup_pending_safe d slot generation : safe_call (cleanup_pending d slot generation).
Proof.
  apply bind_safe; [apply check_domain_safe|intros _]. intros r Hw.
  unfold get, se_some, modify, mbind, se_mbind, se_bind, se_err, se_ret; simpl.
  destruct (position _ _) as [i|]; [|by apply refuse_good].
  destruct (pending_charges_ok r (delete i) Hw) as [Hw' Hr]; [|by constructor].
  pose proof (rw_charged _ Hw). unfold charged_descriptors in *. simpl in *.
  pose proof (sublist_length _ _ (sublist_delete (pending_charges r) i)). lia.
Qed.

(** ** Reclaiming a slot *)

Lemma set_slots_id r i s : slots r !! i = Some s → set_slots (<[i := s]>) r = r.
Proof. intros Hi. unfold set_slots. rewrite (list_insert_id _ _ _ Hi). by destruct r. Qed.

Lemma live_mut_read {A} tok (m : OnContext A) r c a :
  find_live tok r = Some c → m c = (a, c) → live_mut tok m r = (a, r).
Proof.
  intros Hf Hm. unfold live_mut. rewrite Hf, Hm, set_slots_id; [done|]. by apply find_live_Some in Hf as [Hi _].
Qed.

(** A context that is not quarantined leaves its slot with its generation burned. *)
Lemma vacate_context_ok r tok c s' :
  registry_wf r → find_live tok r = Some c → phase c ≠ Quarantined →
  is_live s' = false → slot_generation s' = LoaderToken_generation tok →
  registry_wf (set_slots (<[Z.to_nat (LoaderToken_slot tok) := s']>) r) ∧
  registry_rel r (set_slots (<[Z.to_nat (LoaderToken_slot tok) := s']>) r).
Proof.
  intros Hw Hf Hp Hs Hg. pose proof (find_live_wf _ _ _ Hw Hf) as Hc.
  apply find_live_Some in Hf as [Hi <-]. pose proof (ta_generation _ _ (cw_token _ _ Hc)) as Hgen.
  apply (set_slots_ok r _ _ s' Hw Hi).
  - destruct s'; simpl in *; [subst; unfold in_width; lia..|done].
  - constructor; simpl; [lia|intros c' ->; done|intros ? [= <-]; done].
  - pose proof (rw_charged _ Hw). destruct s'; simpl in *; [lia..|done].
Qed.

(** A computation that reads the context: it succeeds under [P] or refuses. *)
Definition reads_exactly {A} (c : LiveSlot) (P : Prop) (a : A) (o : (Stop + A) * LiveSlot) : Prop :=
  (o = (inr a, c) ∧ P) ∨ (∃ e, o = (inl (Refuse e), c)) ∧ ¬ P.

Lemma reads_bind {A B} c P Q (a : A) (b : B) (m : OnContext A) (k : A → OnContext B) :
  reads_exactly c P a (m c) → reads_exactly c Q b (k a c) → reads_exactly c (P ∧ Q) b ((m ≫= k) c).
Proof.
  unfold mbind, se_mbind, se_bind. intros [[-> HP]|[[e ->] HP]]; simpl.
  - intros [[-> HQ]|[[e ->] HQ]]; [left; done|right; split; [eauto|naive_solver]].
  - intros _. right. split; [eauto|naive_solver].
Qed.

Lemma reads_iff {A} c P Q (a : A) o : (P ↔ Q) → reads_exactly c P a o → reads_exactly c Q a o.
Proof. unfold reads_exactly. naive_solver. Qed.

Lemma queues_settled_reads slot c l :
  context_wf slot c →
  reads_exactly c (∀ q, q ∈ l → queued c !! QueueKind_index q = Some 0) tt (queues_settled l c).
Proof.
  intros Hw. induction l as [|q l IH]; simpl; [left; split; [done|set_solver]|].
  destruct (queue_present _ _ q Hw) as (n & Hn & _).
  unfold mbind, se_mbind, se_bind, get, se_some. simpl. rewrite Hn. simpl.
  destruct (n =? 0) eqn:E; bprop; simpl.
  - subst. eapply reads_iff, IH. set_unfold. naive_solver.
  - right. split; [by eexists|]. intros H. specialize (H q). set_unfold in H. naive_solver.
Qed.

Lemma all_queues_zero slot c :
  context_wf slot c → (∀ q, q ∈ QueueKind_ALL → queued c !! QueueKind_index q = Some 0) ↔ queued c = replicate 5 0.
Proof.
  intros Hw. destruct (cw_queues _ _ Hw) as [Hl _].
  destruct (queued c) as [|a [|b [|x [|y [|z [|]]]]]]; try done. simpl. split.
  - intros H. pose proof (H Collected). pose proof (H PendingQueue). pose proof (H Deferred).
    pose proof (H TerminalBatch). pose proof (H SelectionHandoff). set_unfold. naive_solver.
  - intros [= -> -> -> -> ->] [] _; done.
Qed.

Lemma expect_phase_reads s p c : reads_exactly c (phase c = p) tt (expect_phase s p c).
Proof. unfold expect_phase. case_decide; [by left|right; split; [by eexists|done]]. Qed.

Lemma no_producers_reads c : reads_exactly c (short_refs c = 0 ∧ long_refs c = 0) tt (no_producers c).
Proof.
  unfold no_producers. destruct (short_refs c =? 0) eqn:E, (long_refs c =? 0) eqn:E'; bprop; simpl;
    [by left|right; split; [by eexists|lia]..].
Qed.

Lemma scans_settled_reads c : reads_exactly c (pending_scans c = 0) tt (scans_settled c).
Proof.
  unfold scans_settled. destruct (pending_scans c =? 0) eqn:E; bprop; simpl;
    [by left|right; split; [by eexists|lia]].
Qed.

Lemma descriptors_settled_reads c : reads_exactly c (descriptors c = []) tt (descriptors_settled c).
Proof. unfold descriptors_settled. destruct (descriptors c); [by left|right; split; [by eexists|done]]. Qed.

(** What an acknowledgement needs of the context a fence names. *)
Record settled (fence : LoaderRetirementFence) (drain : ConsumerDrain) (c : LiveSlot) : Prop := mkSettled {
  st_token : token c = fence_token fence;
  st_fence : fence_q c = Some (fence_position fence);
  st_phase : phase c = Draining;
  st_cleanup : cleanup c = Some true;
  st_drained : fence_position fence <= consumer drain;
  st_queues : queued c = replicate 5 0;
  st_scans : pending_scans c = 0;
  st_descriptors : descriptors c = [];
}.

Lemma acknowledgeable_reads slot fence drain c :
  context_wf slot c → reads_exactly c (settled fence drain c) tt (acknowledgeable fence drain c).
Proof.
  intros Hw. unfold acknowledgeable, refuse, se_err, get. unfold mbind at 1, se_mbind at 1, se_bind at 1. simpl.
  assert (∀ e, ¬ settled fence drain c → reads_exactly c (settled fence drain c) tt (inl (Refuse e), c)) as Hno
    by (intros e H; right; eauto).
  destruct (token c =? fence_token fence) eqn:Et; bprop; simpl; [|apply Hno; intros []; done].
  case_bool_decide as Eq; simpl; [|apply Hno; intros []; done].
  eapply (reads_iff _ (phase c = Draining ∧ cleanup c = Some true ∧ fence_position fence <= consumer drain ∧
    (queued c = replicate 5 0 ∧ pending_scans c = 0 ∧ descriptors c = []))).
  { split; [intros (? & ? & ? & ? & ? & ?); by constructor|intros []; done]. }
  apply reads_bind with tt; [apply expect_phase_reads|].
  destruct (cleanup c) as [[]|]; [|right; split; [by eexists|naive_solver]..].
  destruct (consumer drain <? _) eqn:Ed; bprop.
  { destruct (busy_before_q drain); right; (split; [by eexists|lia]). }
  eapply (reads_iff _ (queued c = replicate 5 0 ∧ pending_scans c = 0 ∧ descriptors c = [])); [naive_solver|].
  apply reads_bind with tt; [|apply reads_bind with tt; [apply scans_settled_reads|apply descriptors_settled_reads]].
  eapply reads_iff; [by apply (all_queues_zero slot)|exact (queues_settled_reads slot c QueueKind_ALL Hw)].
Qed.

Lemma ack_fence_cases fence drain r :
  registry_wf r → fence_domain fence = domain r →
  (∃ c, find_live (fence_token fence) r = Some c ∧ settled fence drain c ∧
     ack_fence fence drain r =
       (inr (mkReclaimed (LoaderToken_slot (fence_token fence)) (LoaderToken_generation (fence_token fence))),
        set_slots (<[Z.to_nat (LoaderToken_slot (fence_token fence)) :=
                       Reclaimable (LoaderToken_generation (fence_token fence))]>)
          (set_history (λ l, l ++ [mkFact (fence_token fence) (publication_arms c) (useful_calls c)]) r))) ∨
  ((∀ c, find_live (fence_token fence) r = Some c → ¬ settled fence drain c) ∧
   ∃ e, ack_fence fence drain r = (inl (Refuse e), r)).
Proof.
  intros Hw Hd. unfold ack_fence. rewrite (bind_ok _ _ r tt r)
    by (unfold check_domain; by rewrite Hd, Z.eqb_refl).
  cbn beta. destruct (find_live (fence_token fence) r) as [c|] eqn:Hf.
  - pose proof (find_live_wf _ _ _ Hw Hf) as Hc.
    destruct (acknowledgeable_reads _ fence drain c Hc) as [[Ha Hs]|[[e Ha] Hs]].
    + left. exists c. split_and!; [done..|]. erewrite bind_ok; [by rewrite (st_token _ _ _ Hs)|].
      apply (live_mut_read _ _ _ c _ Hf). by rewrite (bind_ok _ _ _ _ _ Ha).
    + right. split; [intros ? [= <-]; done|]. exists e. erewrite bind_err; [done|].
      apply (live_mut_read _ _ _ c _ Hf). by rewrite (bind_err _ _ _ _ _ Ha).
  - right. split; [done|]. exists StaleToken. erewrite bind_err; [done|]. unfold live_mut. by rewrite Hf.
Qed.

Lemma set_history_ok r l :
  registry_wf r → registry_wf (set_history (λ h, h ++ l) r) ∧ registry_rel r (set_history (λ h, h ++ l) r).
Proof.
  intros [Hl Hs Hc]. split; [by constructor|]. constructor; simpl; try done. by apply prefix_app_r.
Qed.

Lemma foreign_refused {A} d (k : () → Lifetime A) r :
  d ≠ domain r → (check_domain d ≫= k) r = (inl (Refuse ForeignDomain), r).
Proof.
  intros Hd. unfold mbind, se_mbind, se_bind, check_domain. by rewrite (proj2 (Z.eqb_neq _ _)).
Qed.

Lemma ack_fence_safe fence drain : safe_call (ack_fence fence drain).
Proof.
  intros r Hw. destruct (decide (fence_domain fence = domain r)) as [Hd|Hd].
  - destruct (ack_fence_cases fence drain r Hw Hd) as [(c & Hf & Hs & ->)|[_ [e ->]]]; [|by apply refuse_good].
    destruct (set_history_ok r [mkFact (fence_token fence) (publication_arms c) (useful_calls c)] Hw) as [Hw' Hr].
    destruct (vacate_context_ok _ (fence_token fence) c (Reclaimable (LoaderToken_generation (fence_token fence))) Hw')
      as [Hw'' Hr']; try done; [by rewrite (st_phase _ _ _ Hs)|].
    constructor; [done..|by etrans].
  - unfold ack_fence. rewrite foreign_refused by done. by apply refuse_good.
Qed.

Lemma fence_settled_safe fence : safe_call (fence_settled fence).
Proof.
  apply bind_safe; [apply check_domain_safe|intros _]. intros r Hw.
  unfold get, mbind, se_mbind, se_bind. repeat case_match; by constructor.
Qed.

Lemma cancel_prepared_cases d tok r :
  registry_wf r →
  (∃ e, cancel_prepared d tok r = (inl (Refuse e), r)) ∨
  ∃ c, find_live tok r = Some c ∧ phase c = Prepared ∧ short_refs c = 0 ∧ long_refs c = 0 ∧
    queued c = replicate 5 0 ∧ pending_scans c = 0 ∧
    cancel_prepared d tok r =
      (inr tt, set_slots (<[Z.to_nat (LoaderToken_slot tok) := Free (LoaderToken_generation tok)]>) r).
Proof.
  intros Hw. destruct (decide (d = domain r)) as [->|Hd];
    [|left; eexists; unfold cancel_prepared; by rewrite foreign_refused].
  unfold cancel_prepared. rewrite (bind_ok _ _ r tt r) by (unfold check_domain; by rewrite Z.eqb_refl).
  destruct (find_live tok r) as [c|] eqn:Hf;
    [|left; exists StaleToken; erewrite bind_err; [done|unfold live_mut; by rewrite Hf]].
  pose proof (find_live_wf _ _ _ Hw Hf) as Hc. pose proof (proj1 (find_live_Some _ _ _) Hf) as [_ Ht].
  set (m := expect_phase _ _ ≫= _).
  assert (reads_exactly c (phase c = Prepared ∧ (short_refs c = 0 ∧ long_refs c = 0) ∧
    queued c = replicate 5 0 ∧ pending_scans c = 0 ∧ True) (LoaderToken_generation tok) (m c)) as Hm.
  { apply reads_bind with tt; [apply expect_phase_reads|]. apply reads_bind with tt; [apply no_producers_reads|].
    apply reads_bind with tt.
    { eapply reads_iff; [by apply (all_queues_zero (LoaderToken_slot tok))|by eapply queues_settled_reads]. }
    apply reads_bind with tt; [apply scans_settled_reads|]. left. by rewrite <-Ht. }
  destruct Hm as [[Hm (Hp & [Hsh Hlo] & Hq & Hsc & _)]|[[e Hm] _]].
  - right. exists c. split_and!; [done..|]. by rewrite (bind_ok _ _ _ _ _ (live_mut_read _ _ _ _ _ Hf Hm)).
  - left. exists e. by rewrite (bind_err _ _ _ _ _ (live_mut_read _ _ _ _ _ Hf Hm)).
Qed.

Lemma cancel_prepared_safe d tok : safe_call (cancel_prepared d tok).
Proof.
  intros r Hw. destruct (cancel_prepared_cases d tok r Hw) as [[e ->]|(c & Hf & Hp & _ & _ & _ & _ & ->)];
    [by apply refuse_good|].
  destruct (vacate_context_ok r tok c (Free (LoaderToken_generation tok)) Hw Hf) as [Hw' Hr]; [by rewrite Hp|done..|].
  by constructor.
Qed.

(** ** Binding an export *)

Definition minted (cookie : Z) (binding : ExportBinding) (c : LiveSlot) : LiveSlot :=
  set_descriptors (λ l, l ++ [mkDescriptor cookie binding false])
    (set_site_high_water (λ n, n + 1) c).

Lemma admit_phase_reads open closed c :
  Quarantined ∉ open → reads_exactly c (phase c ∈ open) tt (admit_phase open closed c).
Proof.
  intros Ho. unfold admit_phase. case_bool_decide; [by left|].
  right. split; [|done]. destruct (phase c); by eexists.
Qed.

Inductive bind_result (tok : Z) (binding : ExportBinding) (r : LifetimeRegistry) (c : LiveSlot) :
    (Stop + Z) * LifetimeRegistry → Prop :=
| bind_refused e : bind_result tok binding r c (inl (Refuse e), r)
| bind_retry d :
    d ∈ descriptors c → descriptor_binding d = binding → phase c ∈ [Prepared; Active] →
    bind_result tok binding r c (inr (descriptor_cookie d), r)
| bind_minted cookie :
    (∀ d, d ∈ descriptors c → descriptor_binding d ≠ binding) → phase c ∈ [Prepared; Active] →
    charged_descriptors r < max_descriptors r →
    export_cookie tok (site_high_water c + 1) = Some cookie → site_high_water c + 1 <= MAX_SITE_ORDINAL →
    bind_result tok binding r c
      (inr cookie, set_slots (<[Z.to_nat (LoaderToken_slot tok) := Live (minted cookie binding c)]>) r).

Lemma bind_export_cases d tok binding r c :
  registry_wf r → d = domain r → find_live tok r = Some c → bind_result tok binding r c (bind_export d tok binding r).
Proof.
  intros Hw -> Hf. unfold bind_export. rewrite (bind_ok _ _ r tt r) by (unfold check_domain; by rewrite Z.eqb_refl).
  set (found := List.find (λ known, bool_decide (descriptor_binding known = binding)) (descriptors c)).
  set (m := admit_phase _ _ ≫= _).
  assert (reads_exactly c (phase c ∈ [Prepared; Active] ∧ True) (descriptor_cookie <$> found) (m c)) as Hm.
  { apply reads_bind with tt; [apply admit_phase_reads; set_solver|]. left. done. }
  destruct Hm as [[Hm [Hp _]]|[[e Hm] _]];
    [rewrite (bind_ok _ _ _ _ _ (live_mut_read _ _ _ _ _ Hf Hm))
    |rewrite (bind_err _ _ _ _ _ (live_mut_read _ _ _ _ _ Hf Hm)); constructor].
  destruct found as [k|] eqn:Hk; simpl.
  { apply find_some in Hk as [Hk Hb]. apply bool_decide_eq_true in Hb. apply list_elem_of_In in Hk. by constructor. }
  rewrite (bind_ok _ _ r r r) by done. destruct (_ <=? _) eqn:Hc; bprop; [constructor|].
  pose proof (find_live_wf _ _ _ Hw Hf) as Hcw. pose proof (cw_site _ _ Hcw) as Hsite.
  assert (site_high_water c + 1 <= MAX_SITE_ORDINAL → is_Some (export_cookie tok (site_high_water c + 1))) as Hek.
  { intros Hle. unfold export_cookie. rewrite (proj2 (Z.eqb_neq _ _)), (proj2 (Z.ltb_ge _ _)) by (width; lia).
    by eexists. }
  assert (set_slots (<[Z.to_nat (LoaderToken_slot tok) := Live c]>) r = r) as Hid
    by (by apply set_slots_id; apply find_live_Some in Hf as [Hi _]).
  unfold live_mut. rewrite Hf. unfold get, se_some, modify. unfold mbind at 1 2 3 4 5, se_mbind, se_bind. simpl.
  unfold checked_add. destruct (checked_spec 32 (site_high_water c + 1)) as [[-> _]|[-> _]];
    cbn -[MAX_SITE_ORDINAL Z.leb Z.add]; [|rewrite Hid; constructor].
  destruct (_ <=? MAX_SITE_ORDINAL) eqn:Hle; bprop; [|simpl; rewrite Hid; constructor].
  destruct (Hek Hle) as [cookie Hcookie]. simpl. rewrite Hcookie. simpl.
  apply bind_minted; [|done..]. intros k' Hin Hb. subst found.
  apply list_elem_of_In, (find_none _ _ Hk), bool_decide_eq_false in Hin. done.
Qed.

Lemma minted_ok tok slot binding c cookie :
  context_wf slot c → token c = tok →
  (∀ d, d ∈ descriptors c → descriptor_binding d ≠ binding) → phase c ∈ [Prepared; Active] →
  export_cookie tok (site_high_water c + 1) = Some cookie → site_high_water c + 1 <= MAX_SITE_ORDINAL →
  context_wf slot (minted cookie binding c) ∧ context_rel c (minted cookie binding c).
Proof.
  intros Hw <- Hnew Hp Hk Hle. pose proof (cw_site _ _ Hw) as Hs.
  destruct (token_at_bits _ _ (cw_token _ _ Hw)) as [_ Hrange].
  destruct Hw as [Htok Hsh Hlo Hsc Hsi Har Hca Hql Hqu Hfd Hfe [Hm Hc Hb]]. split.
  - constructor; simpl; try done; [unfold MAX_SITE_ORDINAL in *; width; lia|]. constructor.
    + apply Forall_app_2; [|repeat constructor; exists (site_high_water c + 1); width; split; [lia|done]].
      eapply Forall_impl; [exact Hm|]. intros d (o & Ho & Hd). exists o. split; [lia|done].
    + rewrite fmap_app. apply NoDup_app. split_and!; [done| |apply NoDup_singleton].
      intros k (d & -> & Hd)%list_elem_of_fmap Hk'%list_elem_of_singleton. simpl in Hk'.
      rewrite Forall_forall in Hm. destruct (Hm d Hd) as (o & Ho & Hdo). rewrite <-Hk' in Hk.
      destruct (export_cookie_inj (token c) (token c) o (site_high_water c + 1) (descriptor_cookie d)); try done;
        width; lia.
    + rewrite fmap_app. apply NoDup_app. split_and!; [done| |apply NoDup_singleton].
      intros b (d & -> & Hd)%list_elem_of_fmap ?%list_elem_of_singleton. by apply (Hnew d).
  - constructor; simpl; try done; try lia. intros d' [Hd|Hd]%elem_of_app; [left; eauto|].
    apply list_elem_of_singleton in Hd as ->. right. exists (site_high_water c + 1). split; [lia|done].
Qed.

Lemma bind_export_safe d tok binding : safe_call (bind_export d tok binding).
Proof.
  intros r Hw. destruct (decide (d = domain r)) as [Hd|Hd];
    [|unfold bind_export; rewrite foreign_refused by done; by apply refuse_good].
  destruct (find_live tok r) as [c|] eqn:Hf.
  - destruct (bind_export_cases d tok binding r c Hw Hd Hf) as [e|k Hk Hb Hp|k Hnew Hp Hch Hk Hle];
      [by constructor..|].
    apply find_live_Some in Hf as Hi. destruct Hi as [Hi Ht].
    destruct (minted_ok tok _ binding c k (find_live_wf _ _ _ Hw Hf) Ht Hnew Hp Hk Hle) as [Hcw Hcr].
    destruct (set_slots_ok r _ _ (Live (minted k binding c)) Hw Hi) as [Hw' Hr].
    + by rewrite Z2Nat.id by apply LoaderToken_slot_range.
    + by apply live_slot_rel.
    + simpl. rewrite length_app. simpl. lia.
    + by constructor.
  - unfold bind_export. subst d. rewrite (bind_ok _ _ r tt r) by (unfold check_domain; by rewrite Z.eqb_refl).
    erewrite bind_err; [by apply refuse_good|]. unfold live_mut. by rewrite Hf.
Qed.

(** ** Calls of a driver *)

Inductive call :=
| PrepareNew (d : Z)
| PrepareNewFaulted (d : Z)
| CleanupPending (d slot generation : Z)
| Activate (d tok : Z)
| CancelPrepared (d tok : Z)
| AcquireShort (d tok : Z)
| ReleaseShort (d tok : Z)
| InsertState (d tok : Z)
| RemoveState (d tok : Z) (deleted : bool)
| CollectRecord (d tok : Z) (queue : QueueKind)
| DisposeRecord (d tok : Z) (queue : QueueKind)
| RegisterScan (d tok : Z)
| SettleScan (d tok : Z)
| RecordPublication (d tok : Z)
| RecordCall (d tok : Z)
| BindExport (d tok : Z) (binding : ExportBinding)
| ReleaseExport (d tok cookie : Z)
| SettleExport (d tok cookie : Z)
| BeginRetirement (d tok : Z)
| ObserveClosedZero (retirement : LoaderRetirement)
| SampleQ (retirement : LoaderRetirement) (q : Z)
| DrainPrefix (retirement : LoaderRetirement) (drain : ConsumerDrain)
| MintFence (retirement : LoaderRetirement)
| RecordLinkCleanup (d tok : Z) (success : bool)
| FenceSettled (fence : LoaderRetirementFence)
| AckFence (fence : LoaderRetirementFence) (drain : ConsumerDrain).

Inductive reply :=
| Done
| Token (tok : Z)
| Cookie (cookie : Z)
| Retirement (retirement : LoaderRetirement)
| Prefix (outcome : PrefixOutcome)
| Fence (fence : LoaderRetirementFence)
| Settled (tok : option Z)
| Reclaimed (slot : ReclaimedSlot).

Definition reply_with {A} (f : A → reply) (m : Lifetime A) : Lifetime reply := a ← m; mret (f a).

Definition exec (k : call) : Lifetime reply :=
  let unit := reply_with (λ _ : (), Done) in
  match k with
  | PrepareNew d => reply_with Token (prepare_new d)
  | PrepareNewFaulted d => reply_with Token (prepare_new_faulted d)
  | CleanupPending d slot generation => unit (cleanup_pending d slot generation)
  | Activate d tok => unit (activate d tok)
  | CancelPrepared d tok => unit (cancel_prepared d tok)
  | AcquireShort d tok => unit (acquire_short d tok)
  | ReleaseShort d tok => unit (release_short d tok)
  | InsertState d tok => unit (insert_state d tok)
  | RemoveState d tok deleted => unit (remove_state d tok deleted)
  | CollectRecord d tok queue => unit (collect_record d tok queue)
  | DisposeRecord d tok queue => unit (dispose_record d tok queue)
  | RegisterScan d tok => unit (register_scan d tok)
  | SettleScan d tok => unit (settle_scan d tok)
  | RecordPublication d tok => unit (record_publication d tok)
  | RecordCall d tok => unit (record_call d tok)
  | BindExport d tok binding => reply_with Cookie (bind_export d tok binding)
  | ReleaseExport d tok cookie => unit (release_export d tok cookie)
  | SettleExport d tok cookie => unit (settle_export d tok cookie)
  | BeginRetirement d tok => reply_with Retirement (begin_retirement d tok)
  | ObserveClosedZero retirement => unit (observe_closed_zero retirement)
  | SampleQ retirement q => unit (sample_q retirement q)
  | DrainPrefix retirement drain => reply_with Prefix (drain_prefix retirement drain)
  | MintFence retirement => reply_with Fence (mint_fence retirement)
  | RecordLinkCleanup d tok success => unit (record_link_cleanup d tok success)
  | FenceSettled fence => reply_with Settled (fence_settled fence)
  | AckFence fence drain => reply_with Reclaimed (ack_fence fence drain)
  end.

(** The answers of a sequence of calls, and the registry after it. *)
Fixpoint run (ks : list call) (r : LifetimeRegistry) : list (call * (Stop + reply)) * LifetimeRegistry :=
  match ks with
  | [] => ([], r)
  | k :: ks => let '(a, r) := exec k r in let '(l, r) := run ks r in ((k, a) :: l, r)
  end.

#[export] Hint Resolve prepare_new_safe prepare_new_faulted_safe cleanup_pending_safe activate_safe cancel_prepared_safe
  acquire_short_safe release_short_safe insert_state_safe remove_state_safe collect_record_safe dispose_record_safe
  register_scan_safe settle_scan_safe record_publication_safe record_call_safe bind_export_safe release_export_safe
  settle_export_safe begin_retirement_safe observe_closed_zero_safe sample_q_safe drain_prefix_safe mint_fence_safe
  record_link_cleanup_safe fence_settled_safe ack_fence_safe : lifetime.

Lemma exec_safe k : safe_call (exec k).
Proof. destruct k; simpl; unfold reply_with; (apply bind_safe; [|intros; apply ret_safe]); auto with lifetime. Qed.
