(* ===== verification/LifetimeProps.v ===== *)
(** * Loader lifetimes: what a history guarantees

    Theorems over every sequence of calls on the registry of
    [src/discovery/loader_lifetime.rs]: tokens and export cookies name one thing for
    ever, reclamation waits for all custody, quarantine is final, the charges stay
    within their ceilings and an active context can always be retired. *)
From S2P Require Import Prelude Lifetime LifetimeHistory.

(** ** Reachable registries *)

Lemma Registry_new_eq d ceiling r :
  Registry_new d ceiling = Ok r →
  r = mkRegistry d (replicate (Z.to_nat MAX_LIFETIME_SLOTS) (Free 0)) ceiling [] [].
Proof. unfold Registry_new. destruct (ceiling =? 0); [discriminate|]. intros H. injection H as H. symmetry. exact H. Qed.

Lemma Registry_new_wf d ceiling r : 0 <= ceiling → Registry_new d ceiling = Ok r → registry_wf r ∧ domain r = d.
Proof.
  intros Hc ->%Registry_new_eq. split; [|done]. constructor.
  - done.
  - intros i s [-> _]%lookup_replicate. simpl. unfold in_width. lia.
  - change (0 <= ceiling / 2). apply Z.div_pos; lia.
Qed.

Lemma run_cons k ks r trace r' :
  run (k :: ks) r = (trace, r') →
  ∃ a r1 trace', exec k r = (a, r1) ∧ run ks r1 = (trace', r') ∧ trace = (k, a) :: trace'.
Proof.
  simpl. destruct (exec k r) as [a r1], (run ks r1) as [l r2] eqn:E. intros [= <- <-]. by exists a, r1, l.
Qed.

Lemma run_safe ks r trace r' :
  registry_wf r → run ks r = (trace, r') →
  registry_wf r' ∧ registry_rel r r' ∧ Forall (λ p, no_panic p.2) trace.
Proof.
  revert r trace. induction ks as [|k ks IH]; intros r trace Hw Hrun.
  - injection Hrun as <- <-. done.
  - apply run_cons in Hrun as (a & r1 & trace' & He & Hrun & ->).
    destruct (exec_safe k r Hw) as [Hp Hw1 Hr]. rewrite He in *. simpl in *.
    destruct (IH r1 trace' Hw1 Hrun) as (Hw' & Hr' & Hf). split_and!; [done|by etrans|by constructor].
Qed.

(** [r] after the calls [ks] on a registry opened for [d] with descriptor ceiling [ceiling]. *)
Definition reached (d ceiling : Z) (ks : list call) (trace : list (call * (Stop + reply))) (r : LifetimeRegistry) : Prop :=
  0 <= ceiling ∧ ∃ r0, Registry_new d ceiling = Ok r0 ∧ run ks r0 = (trace, r).

(** The tokens handed out, in order. *)
Definition issued (trace : list (call * (Stop + reply))) : list Z :=
  omap (λ p, match p with (PrepareNew _, inr (Token tok)) => Some tok | _ => None end) trace.

(** The exports bound: token, binding and cookie. *)
Definition bound (trace : list (call * (Stop + reply))) : list (Z * ExportBinding * Z) :=
  omap (λ p, match p with (BindExport _ tok b, inr (Cookie k)) => Some (tok, b, k) | _ => None end) trace.

Lemma NoDup_fmap_elem {A B} (f : A → B) l x y : NoDup (f <$> l) → x ∈ l → y ∈ l → f x = f y → x = y.
Proof.
  intros Hn (i & Hi)%list_elem_of_lookup (j & Hj)%list_elem_of_lookup Heq.
  assert (i = j) as <-; [|congruence].
  eapply NoDup_lookup; [exact Hn|by rewrite list_lookup_fmap, Hi|by rewrite list_lookup_fmap, Hj, Heq].
Qed.

(** ** Tokens over time *)

(** [tok] was issued no later than the current generation of its slot. *)
Definition known (tok : Z) (r : LifetimeRegistry) : Prop :=
  token_at (LoaderToken_slot tok) tok ∧
  ∃ s, slots r !! Z.to_nat (LoaderToken_slot tok) = Some s ∧ LoaderToken_generation tok <= slot_generation s.

Lemma known_mono tok r r' : registry_rel r r' → known tok r → known tok r'.
Proof.
  intros Hr [Ht (s & Hs & Hg)]. split; [done|].
  destruct (Forall2_lookup_l _ _ _ _ _ (rr_slots _ _ Hr) Hs) as (s' & Hs' & Hrel).
  exists s'. split; [done|]. pose proof (sr_generation _ _ Hrel). lia.
Qed.

(** A known token that is live later was live before, with the same context. *)
Lemma live_before tok r r' c' :
  registry_rel r r' → known tok r → find_live tok r' = Some c' →
  ∃ c, find_live tok r = Some c ∧ context_rel c c'.
Proof.
  intros Hr [Ht (s & Hs & Hg)] [Hs' Htok]%find_live_Some.
  destruct (Forall2_lookup_lr _ _ _ _ _ _ (rr_slots _ _ Hr) Hs Hs') as [Hmono Hl _]. simpl in *.
  destruct (Hl c' eq_refl) as (c & -> & Hc); [rewrite Htok in *; simpl in *; lia|].
  exists c. split; [|done]. apply find_live_Some. split; [done|]. by rewrite <-(cr_token _ _ Hc).
Qed.

Lemma live_known tok r c : registry_wf r → find_live tok r = Some c → known tok r.
Proof.
  intros Hw Hf. pose proof (cw_token _ _ (find_live_wf _ _ _ Hw Hf)) as Ht.
  apply find_live_Some in Hf as [Hi <-]. split; [done|]. by exists (Live c).
Qed.

Lemma reached_wf d ceiling ks trace r :
  reached d ceiling ks trace r →
  registry_wf r ∧ domain r = d ∧ descriptor_ceiling r = ceiling ∧ Forall (λ p, no_panic p.2) trace.
Proof.
  intros (Hc & r0 & Hn & Hrun). destruct (Registry_new_wf _ _ _ Hc Hn) as [Hw Hd].
  destruct (run_safe _ _ _ _ Hw Hrun) as (Hw' & Hr & Hf). split_and!; try done.
  - by rewrite (rr_domain _ _ Hr).
  - rewrite (rr_ceiling _ _ Hr). by rewrite (Registry_new_eq _ _ _ Hn).
Qed.

Lemma exec_prepare d r a r' :
  registry_wf r → exec (PrepareNew d) r = (a, r') →
  (∃ e, a = inl (Refuse e) ∧ r' = r) ∨
  ∃ tok s, a = inr (Token tok) ∧ token_at (LoaderToken_slot tok) tok ∧
    slots r !! Z.to_nat (LoaderToken_slot tok) = Some s ∧ slot_generation s < LoaderToken_generation tok ∧
    slots r' !! Z.to_nat (LoaderToken_slot tok) = Some (Live (LiveSlot_new tok)).
Proof.
  intros Hw. unfold exec, reply_with. unfold mbind, se_mbind, se_bind.
  destruct (prepare_new_ok d r Hw) as [[e ->]|(slot & g & tok & s & Hi & Hs & Hg & Ht & Hgen & ->)].
  - intros [= <- <-]. eauto.
  - intros [= <- <-]. right. exists tok, s. rewrite (ta_slot _ _ Ht). split_and!; try done; [lia|].
    simpl. apply list_lookup_insert_eq. by eapply lookup_lt_Some.
Qed.

Lemma issued_cons k a trace :
  issued ((k, a) :: trace) = (match k, a with PrepareNew _, inr (Token tok) => [tok] | _, _ => [] end) ++ issued trace.
Proof. unfold issued. simpl. destruct k; try done. by destruct a as [|[]]. Qed.

(** Tokens issued from [r] on are new: they are distinct from each other and from every
    token known before. *)
Lemma run_issued ks r trace r' :
  registry_wf r → run ks r = (trace, r') →
  NoDup (issued trace) ∧ ∀ tok, tok ∈ issued trace → known tok r' ∧ ¬ known tok r.
Proof.
  revert r trace. induction ks as [|k ks IH]; intros r trace Hw Hrun.
  { injection Hrun as <- <-. split; [constructor|set_solver]. }
  apply run_cons in Hrun as (a & r1 & trace' & He & Hrun & ->).
  destruct (exec_safe k r Hw) as [_ Hw1 Hr]. rewrite He in Hw1, Hr. simpl in Hw1, Hr.
  destruct (IH r1 trace' Hw1 Hrun) as [Hnd Hnew]. destruct (run_safe _ _ _ _ Hw1 Hrun) as (_ & Hr' & _).
  assert (∀ tok, tok ∈ issued trace' → known tok r' ∧ ¬ known tok r) as Hlater.
  { intros tok Htok. destruct (Hnew tok Htok) as [? Hn]. split; [done|]. intros Hk. by apply Hn, (known_mono _ r). }
  rewrite issued_cons. destruct k; try done. destruct (exec_prepare _ _ _ _ Hw He)
    as [(e & -> & ->)|(tok & s & -> & Ht & Hs & Hg & Hs')]; [done|].
  assert (known tok r1) as Hk1 by (split; [done|]; by exists (Live (LiveSlot_new tok))).
  simpl. split.
  - constructor; [|done]. intros Hin. by destruct (Hnew tok Hin).
  - intros t [->|Hin]%elem_of_cons; [|by apply Hlater]. split; [by eapply known_mono|].
    intros [_ (s' & Hs'' & Hg')]. simplify_eq. lia.
Qed.

(** ** Bound exports over time *)

(** What the registry remembers of an export it bound. *)
Definition export_known (x : Z * ExportBinding * Z) (r : LifetimeRegistry) : Prop :=
  let '(tok, binding, cookie) := x in
  known tok r ∧ ∃ o, 1 <= o ∧ export_cookie tok o = Some cookie ∧
  ∀ c, find_live tok r = Some c →
    o <= site_high_water c ∧
    ∀ d, d ∈ descriptors c → descriptor_cookie d = cookie → descriptor_binding d = binding.

Lemma export_known_mono x r r' : registry_rel r r' → export_known x r → export_known x r'.
Proof.
  destruct x as [[tok b] k]. intros Hr (Hk & o & Ho & Hc & Hl).
  split; [by eapply known_mono|]. exists o. split_and!; [done..|]. intros c' Hf.
  destruct (live_before _ _ _ _ Hr Hk Hf) as (c & Hf0 & Hrel). destruct (Hl c Hf0) as [Hs Hd].
  pose proof (cr_site _ _ Hrel) as Hmono. split; [lia|]. intros d' Hin Hd'.
  destruct (cr_minted _ _ Hrel d' Hin) as [(d & Hd1 & Hd2 & Hd3)|(o' & Ho' & Hk')].
  - rewrite <-Hd3. apply Hd; congruence.
  - apply find_live_Some in Hf0 as [_ Htok]. rewrite Htok, Hd' in Hk'.
    destruct (token_at_bits _ _ (proj1 Hk)) as [_ Hrange].
    destruct (export_cookie_inj tok tok o o' k); try done; lia.
Qed.

Lemma exec_bind d tok b r a r' :
  registry_wf r → exec (BindExport d tok b) r = (a, r') →
  (∃ e, a = inl (Refuse e)) ∨
  ∃ c k, a = inr (Cookie k) ∧ find_live tok r = Some c ∧ bind_result tok b r c (inr k, r').
Proof.
  intros Hw. unfold exec, reply_with, mbind, se_mbind, se_bind.
  destruct (decide (d = domain r)) as [Hd|Hd].
  - destruct (find_live tok r) as [c|] eqn:Hf.
    + pose proof (bind_export_cases d tok b r c Hw Hd Hf) as Hb.
      destruct (bind_export d tok b r) as [[e|k] r1]; intros [= <- <-]; [|right; eauto 6].
      inversion Hb; subst; eauto.
    + assert (bind_export d tok b r = (inl (Refuse StaleToken), r)) as ->; [|intros [= <- <-]; eauto].
      unfold bind_export. rewrite (bind_ok _ _ r tt r) by (unfold check_domain; by rewrite Hd, Z.eqb_refl).
      erewrite bind_err; [done|]. unfold live_mut. by rewrite Hf.
  - unfold bind_export. rewrite foreign_refused by done. intros [= <- <-]. eauto.
Qed.

(** A cookie the registry answers with is known afterwards under its token and binding, and
    agrees with every export known before. *)
Lemma bind_result_known tok b r c k r' :
  registry_wf r → registry_rel r r' → find_live tok r = Some c → bind_result tok b r c (inr k, r') →
  export_known (tok, b, k) r' ∧
  ∀ t' b', export_known (t', b', k) r → t' = tok ∧ b' = b.
Proof.
  intros Hw Hr Hf Hb. pose proof (live_known _ _ _ Hw Hf) as Hk.
  pose proof (find_live_wf _ _ _ Hw Hf) as Hcw. apply find_live_Some in Hf as Hi. destruct Hi as [Hi Htok].
  destruct (token_at_bits _ _ (proj1 Hk)) as [_ Hrange].
  assert (∀ t' b' o, 1 <= o → export_cookie tok o = Some k → export_known (t', b', k) r →
    t' = tok ∧ o <= site_high_water c ∧ ∀ d, d ∈ descriptors c → descriptor_cookie d = k → descriptor_binding d = b')
    as Hold.
  { intros t' b' o Ho Hok (Hk' & o' & Ho' & Hk2 & Hl). destruct (token_at_bits _ _ (proj1 Hk')) as [_ Hrange'].
    destruct (export_cookie_inj tok t' o o' k) as [<- <-]; try done; [lia..|].
    destruct (Hl c Hf). done. }
  inversion Hb as [|d Hd Hdb Hp|k' Hnew Hp Hch Hk' Hle]; subst.
  - pose proof (cw_descriptors _ _ Hcw) as [Hm Hcook _]. rewrite Forall_forall in Hm.
    destruct (Hm d Hd) as (o & Ho & Hok). split.
    + split; [done|]. exists o. split_and!; [lia|done|]. intros c' Hf'. simplify_eq. split; [lia|].
      intros d' Hd' Heq. by rewrite (NoDup_fmap_elem _ _ d' d Hcook Hd' Hd Heq).
    + intros t' b' Hold'. destruct (Hold t' b' o) as (-> & _ & Hagree); [lia|done..|]. split; [done|].
      symmetry. by apply Hagree.
  - pose proof (cw_site _ _ Hcw) as Hsite. split.
    + split; [by eapply known_mono|]. exists (site_high_water c + 1). split_and!; [width; lia|done|].
      intros c' [Hi' _]%find_live_Some. simpl in Hi'. rewrite list_lookup_insert_eq in Hi' by (by eapply lookup_lt_Some).
      injection Hi' as <-. split; [simpl; lia|]. intros d Hd Heq.
      pose proof (minted_ok _ _ b c k Hcw eq_refl Hnew Hp Hk' Hle) as [Hcw' _].
      apply (f_equal descriptor_binding (x := d) (y := mkDescriptor k b false)).
      apply (NoDup_fmap_elem descriptor_cookie (descriptors (minted k b c)));
        [apply (cw_descriptors _ _ Hcw')|done|simpl; set_solver|done].
    + intros t' b' Hold'. destruct (Hold t' b' (site_high_water c + 1)) as (_ & Hbad & _); [width; lia|done..|lia].
Qed.

(** A cookie of the list belongs to one token and one binding. *)
Definition consistent (l : list (Z * ExportBinding * Z)) : Prop :=
  ∀ t b t' b' k, (t, b, k) ∈ l → (t', b', k) ∈ l → t = t' ∧ b = b'.

Lemma consistent_snoc l t b k :
  consistent l → (∀ t' b', (t', b', k) ∈ l → t' = t ∧ b' = b) → consistent (l ++ [(t, b, k)]).
Proof.
  intros Hl Hk t1 b1 t2 b2 kk H1 H2. rewrite elem_of_app, list_elem_of_singleton in H1, H2.
  destruct H1 as [H1|[= -> -> ->]], H2 as [H2|H2].
  - by eapply Hl.
  - injection H2 as -> -> ->. by apply Hk.
  - by destruct (Hk _ _ H2) as [-> ->].
  - by injection H2 as -> ->.
Qed.

Lemma run_bound ks r trace r' past :
  registry_wf r → run ks r = (trace, r') → (∀ x, x ∈ past → export_known x r) → consistent past →
  (∀ x, x ∈ past ++ bound trace → export_known x r') ∧ consistent (past ++ bound trace).
Proof.
  revert r trace past. induction ks as [|k ks IH]; intros r trace past Hw Hrun Hp Hu.
  { injection Hrun as <- <-. by rewrite app_nil_r. }
  apply run_cons in Hrun as (a & r1 & trace' & He & Hrun & ->).
  destruct (exec_safe k r Hw) as [_ Hw1 Hr]. rewrite He in Hw1, Hr. simpl in Hw1, Hr.
  assert (∀ x, x ∈ past → export_known x r1) as Hp1 by (intros; eapply export_known_mono; eauto).
  destruct k; try (change (bound _) with (bound trace'); by apply (IH r1)).
  destruct (exec_bind _ _ _ _ _ _ Hw He) as [[e ->]|(c & kk & -> & Hf & Hb)];
    [change (bound _) with (bound trace'); by apply (IH r1)|].
  destruct (bind_result_known _ _ _ _ _ _ Hw Hr Hf Hb) as [Hnew Hagree].
  change (bound _) with ([(tok, binding, kk)] ++ bound trace'). rewrite (assoc_L (++)). apply (IH r1); try done.
  - intros x [Hx|Hx]%elem_of_app; [by apply Hp1|]. by apply list_elem_of_singleton in Hx as ->.
  - apply consistent_snoc; [done|]. intros t' b' Hin. apply Hagree, Hp, Hin.
Qed.

(** ** Calls that name a token *)

(** The domain and the token a call is checked against: every call that acts on
    a token. The first three name none, and [fence_settled] asks after a token
    without acting on it. *)
Definition call_target (k : call) : option (Z * Z) :=
  match k with
  | Activate d tok | CancelPrepared d tok | AcquireShort d tok | ReleaseShort d tok | InsertState d tok
  | RemoveState d tok _ | CollectRecord d tok _ | DisposeRecord d tok _ | RegisterScan d tok | SettleScan d tok
  | RecordPublication d tok | RecordCall d tok | BindExport d tok _ | ReleaseExport d tok _ | SettleExport d tok _
  | BeginRetirement d tok | RecordLinkCleanup d tok _ => Some (d, tok)
  | ObserveClosedZero x | SampleQ x _ | DrainPrefix x _ | MintFence x => Some (retirement_domain x, retirement_token x)
  | AckFence f _ => Some (fence_domain f, fence_token f)
  | PrepareNew _ | PrepareNewFaulted _ | CleanupPending _ _ _ | FenceSettled _ => None
  end.

Lemma stale_bind {A B} d tok (m : OnContext A) (k : A → Lifetime B) r :
  find_live tok r = None →
  (check_domain d ;; a ← live_mut tok m; k a) r = (inl (Refuse (if d =? domain r then StaleToken else ForeignDomain)), r).
Proof.
  intros Hf. unfold mbind, se_mbind, se_bind, check_domain, live_mut.
  destruct (d =? domain r); [|done]. by rewrite Hf.
Qed.

Lemma stale_live_mut {A} d tok (m : OnContext A) r :
  find_live tok r = None →
  (check_domain d ;; live_mut tok m) r = (inl (Refuse (if d =? domain r then StaleToken else ForeignDomain)), r).
Proof.
  intros Hf. unfold mbind, se_mbind, se_bind, check_domain, live_mut.
  destruct (d =? domain r); [|done]. by rewrite Hf.
Qed.

Lemma exec_stale k d tok r :
  call_target k = Some (d, tok) → find_live tok r = None →
  exec k r = (inl (Refuse (if d =? domain r then StaleToken else ForeignDomain)), r).
Proof.
  intros Hk Hf. destruct k; simplify_eq/=; unfold reply_with; eapply bind_err;
    first [by apply stale_live_mut|by apply stale_bind].
Qed.

(** The one call that answers for a token without a slot: it only reads. *)
Lemma exec_fence_settled fence r :
  fence_domain fence = domain r →
  ∃ x, exec (FenceSettled fence) r = (inr (Settled x), r) ∧
    (x = None ∨ x = Some (fence_token fence)) ∧
    (x = Some (fence_token fence) ↔
     slots r !! Z.to_nat (LoaderToken_slot (fence_token fence)) =
       Some (Reclaimable (LoaderToken_generation (fence_token fence)))).
Proof.
  intros Hd. cbn [exec]. unfold reply_with, fence_settled, check_domain, mbind, se_mbind, se_bind, get, mret, se_ret.
  rewrite Hd, Z.eqb_refl. destruct (slots r !! _) as [[]|];
    try (eexists; split; [reflexivity|]; split; [by left|]; by split).
  eexists. split; [reflexivity|]. destruct (Z.eqb_spec generation (LoaderToken_generation (fence_token fence))) as [->|Hne];
    (split; [by auto|]); split; congruence.
Qed.

(** ** Retiring an active context *)

Definition succeeded (a : Stop + reply) : Prop := match a with inr _ => True | inl _ => False end.

(** From context [c] the calls [ks] all succeed and leave [c']. *)
Definition leads (d tok : Z) (c : LiveSlot) (ks : list call) (c' : LiveSlot) : Prop :=
  ∀ r, domain r = d → find_live tok r = Some c →
  ∃ trace r', run ks r = (trace, r') ∧ domain r' = d ∧ history r' = history r ∧ find_live tok r' = Some c' ∧
    Forall (λ p, succeeded p.2) trace.

Lemma run_app ks ks' r :
  run (ks ++ ks') r = let '(t, r1) := run ks r in let '(t', r2) := run ks' r1 in (t ++ t', r2).
Proof.
  revert r. induction ks as [|k ks IH]; intros r; simpl; [by destruct (run ks' r)|].
  destruct (exec k r) as [a r1]. rewrite IH. destruct (run ks r1) as [t r2]. by destruct (run ks' r2).
Qed.

Lemma leads_app d tok c ks c1 ks' c2 : leads d tok c ks c1 → leads d tok c1 ks' c2 → leads d tok c (ks ++ ks') c2.
Proof.
  intros H1 H2 r Hd Hf. destruct (H1 r Hd Hf) as (t & r1 & Hr1 & Hd1 & Hh1 & Hf1 & Ht).
  destruct (H2 r1 Hd1 Hf1) as (t' & r2 & Hr2 & Hd2 & Hh2 & Hf2 & Ht'). exists (t ++ t'), r2.
  rewrite run_app, Hr1, Hr2. split_and!; [done..|congruence|done|by apply Forall_app_2].
Qed.

Lemma leads_nil d tok c : leads d tok c [] c.
Proof. intros r Hd Hf. by exists [], r. Qed.

Lemma leads_call {A} d tok c k (f : A → reply) (m : OnContext A) a c' :
  exec k = reply_with f (check_domain d ;; live_mut tok m) → m c = (inr a, c') → token c' = token c →
  leads d tok c [k] c'.
Proof.
  intros Hk Hm Ht r Hd Hf. simpl. rewrite Hk. unfold reply_with.
  erewrite bind_ok; [|erewrite bind_ok; [|unfold check_domain; by rewrite Hd, Z.eqb_refl];
    cbn beta; unfold live_mut; rewrite Hf, Hm; done].
  unfold mret, se_mret, se_ret. eexists _, _. split_and!; [done|done|done| |by repeat constructor].
  apply find_live_Some in Hf as [Hi Htok]. apply find_live_Some. simpl.
  rewrite list_lookup_insert_eq by (by eapply lookup_lt_Some). split; [done|congruence].
Qed.

Lemma leads_count d tok k (f : nat → LiveSlot) n :
  (∀ i, (i < n)%nat → leads d tok (f (S i)) [k] (f i)) → leads d tok (f n) (replicate n k) (f 0%nat).
Proof.
  induction n as [|n IH]; intros H; simpl; [apply leads_nil|].
  change (k :: replicate n k) with ([k] ++ replicate n k). eapply leads_app; [apply H; lia|]. apply IH. intros. apply H. lia.
Qed.

Definition export_calls (d tok : Z) (l : list LiveDescriptor) : list call :=
  concat ((λ x, (if links_closed x then [] else [ReleaseExport d tok (descriptor_cookie x)]) ++
                [SettleExport d tok (descriptor_cookie x)]) <$> l).

Definition queue_calls (d tok : Z) (queued : list Z) : list call :=
  concat ((λ q, replicate (Z.to_nat (default 0 (queued !! QueueKind_index q))) (DisposeRecord d tok q)) <$> QueueKind_ALL).

(** The calls that retire an active context with the fence at [q]. *)
Definition retire_calls (d tok q : Z) (c : LiveSlot) : list call :=
  replicate (Z.to_nat (long_refs c)) (RemoveState d tok true) ++
  replicate (Z.to_nat (short_refs c)) (ReleaseShort d tok) ++
  [BeginRetirement d tok; ObserveClosedZero (mkRetirement d tok); SampleQ (mkRetirement d tok) q] ++
  queue_calls d tok (queued c) ++
  replicate (Z.to_nat (pending_scans c)) (SettleScan d tok) ++
  export_calls d tok (descriptors c) ++
  [RecordLinkCleanup d tok true].

(** A counter of the context counted down to zero, one call at a time. *)
Lemma leads_down d tok c k n (set : Z → LiveSlot) :
  in_width 64 n → c = set n →
  (∀ m, 0 <= m < 2 ^ 64 → leads d tok (set (m + 1)) [k] (set m)) →
  leads d tok c (replicate (Z.to_nat n) k) (set 0).
Proof.
  intros Hw Hc H. rewrite Hc. rewrite <-(Z2Nat.id n) at 1 by (width; lia).
  apply (leads_count d tok k (λ i, set (Z.of_nat i))). intros i Hi.
  replace (Z.of_nat (S i)) with (Z.of_nat i + 1) by lia. apply H. width. lia.
Qed.

Lemma leads_long d tok c :
  in_width 64 (long_refs c) →
  leads d tok c (replicate (Z.to_nat (long_refs c)) (RemoveState d tok true)) (set_long_refs (λ _, 0) c).
Proof.
  intros Hw. apply (leads_down d tok c _ _ (λ n, set_long_refs (λ _, n) c)); [done|by destruct c|].
  intros m Hm. eapply leads_call; [done| |done]. unfold get, modify, mbind, se_mbind, se_bind. simpl.
  rewrite (proj2 (Z.eqb_neq _ _)) by lia. unfold set_long_refs. simpl. do 2 f_equal. lia.
Qed.

Lemma count_down_step field (set_field : (Z → Z) → LiveSlot → LiveSlot) c m :
  (∀ n, field (set_field (λ _, n) c) = n) → (∀ n n', set_field (λ _, n') (set_field (λ _, n) c) = set_field (λ _, n') c) →
  0 <= m < 2 ^ 64 → count_down field set_field (set_field (λ _, m + 1) c) = (inr tt, set_field (λ _, m) c).
Proof.
  intros Hget Hset Hm. unfold count_down, checked_sub. rewrite Hget, checked_small by (width; lia).
  rewrite Hset. by replace (m + 1 - 1) with m by lia.
Qed.

Lemma leads_short d tok c :
  in_width 64 (short_refs c) →
  leads d tok c (replicate (Z.to_nat (short_refs c)) (ReleaseShort d tok)) (set_short_refs (λ _, 0) c).
Proof.
  intros Hw. apply (leads_down d tok c _ _ (λ n, set_short_refs (λ _, n) c)); [done|by destruct c|].
  intros m Hm. eapply leads_call; [done|by apply count_down_step|done].
Qed.

Lemma leads_scans d tok c :
  in_width 64 (pending_scans c) →
  leads d tok c (replicate (Z.to_nat (pending_scans c)) (SettleScan d tok)) (set_pending_scans (λ _, 0) c).
Proof.
  intros Hw. apply (leads_down d tok c _ _ (λ n, set_pending_scans (λ _, n) c)); [done|by destruct c|].
  intros m Hm. eapply leads_call; [done|by apply count_down_step|done].
Qed.

Lemma leads_queue d tok c q n :
  queued c !! QueueKind_index q = Some n → in_width 64 n →
  leads d tok c (replicate (Z.to_nat n) (DisposeRecord d tok q)) (set_queued (<[QueueKind_index q := 0]>) c).
Proof.
  intros Hq Hw. apply (leads_down d tok c _ _ (λ n, set_queued (<[QueueKind_index q := n]>) c)); [done|..].
  { unfold set_queued. rewrite list_insert_id by done. by destruct c. }
  intros m Hm. eapply leads_call; [done| |done]. unfold get, se_some, modify, mbind, se_mbind, se_bind. simpl.
  rewrite list_lookup_insert_eq by (by eapply lookup_lt_Some). simpl.
  unfold checked_sub. rewrite checked_small by (width; lia). unfold set_queued. simpl.
  rewrite list_insert_insert_eq. by replace (m + 1 - 1) with m by lia.
Qed.

Lemma leads_queues d tok c :
  length (queued c) = 5%nat ∧ Forall (in_width 64) (queued c) → leads d tok c (queue_calls d tok (queued c)) (set_queued (λ _, replicate 5 0) c).
Proof.
  intros [Hl Hq]. unfold queue_calls.
  destruct (queued c) as [|n0 [|n1 [|n2 [|n3 [|n4 [|]]]]]] eqn:E; try done.
  rewrite !Forall_cons in Hq. destruct Hq as (H0 & H1 & H2 & H3 & H4 & _). simpl. rewrite app_nil_r.
  eapply leads_app; [by apply leads_queue; [rewrite E|]|].
  eapply leads_app; [by apply leads_queue; [simpl; rewrite E|]|].
  eapply leads_app; [by apply leads_queue; [simpl; rewrite E|]|].
  eapply leads_app; [by apply leads_queue; [simpl; rewrite E|]|].
  match goal with |- leads _ _ ?x _ ?y => assert (y = set_queued (<[4%nat := 0]>) x) as -> end.
  { unfold set_queued. simpl. by rewrite E. }
  apply leads_queue; [simpl; by rewrite E|done].
Qed.

Lemma leads_exports d tok l c :
  descriptors c = l → leads d tok c (export_calls d tok l) (set_descriptors (λ _, []) c).
Proof.
  revert c. induction l as [|x l IH]; intros c Hl.
  { replace (set_descriptors _ c) with c by (destruct c; simpl in *; by subst). apply leads_nil. }
  unfold export_calls. simpl. rewrite <-(assoc_L (++)).
  eapply (leads_app _ _ _ _ (set_descriptors (λ _, mkDescriptor (descriptor_cookie x) (descriptor_binding x) true :: l) c)).
  - destruct (links_closed x) eqn:E.
    + replace (set_descriptors _ c) with c; [apply leads_nil|]. destruct c, x; simpl in *. by subst.
    + eapply leads_call; [done| |done].
      unfold get, se_some, modify, mbind, se_mbind, se_bind. simpl. rewrite Hl. simpl.
      rewrite Z.eqb_refl. simpl. rewrite E. unfold set_descriptors. rewrite Hl. done.
  - eapply (leads_app _ _ _ _ (set_descriptors (λ _, l) c)); [|by apply (IH (set_descriptors (λ _, l) c))].
    eapply leads_call; [done| |done].
    unfold get, se_some, modify, mbind, se_mbind, se_bind. simpl. rewrite Z.eqb_refl. done.
Qed.

Lemma leads_retire d tok q slot c :
  context_wf slot c → phase c = Active →
  leads d tok c (retire_calls d tok q c)
    (mkLive (token c) Draining 0 0 (replicate 5 0) 0 (site_high_water c) [] (Some q) (prefix_complete c) (Some true)
       (publication_arms c) (useful_calls c)).
Proof.
  intros Hw Hp. assert (fence_q c = None) as Hq.
  { destruct (fence_q c) as [p|] eqn:E; [|done]. destruct (cw_fence _ _ Hw); [by eexists|congruence..]. }
  pose proof (cw_queues _ _ Hw) as [Hql Hqw]. unfold retire_calls.
  eapply leads_app; [by apply leads_long, (cw_long _ _ Hw)|].
  eapply leads_app; [exact (leads_short d tok (set_long_refs (λ _, 0) c) (cw_short _ _ Hw))|].
  match goal with |- leads _ _ _ ([?a; ?b; ?x] ++ ?l) _ => change ([a; b; x] ++ l) with ([a] ++ [b] ++ [x] ++ l) end.
  eapply leads_app; [eapply leads_call; [done|unfold get, mbind, se_mbind, se_bind; simpl; rewrite Hp; reflexivity|done]|].
  eapply leads_app; [eapply leads_call; [done|reflexivity|done]|].
  eapply leads_app; [eapply leads_call; [done|unfold get, mbind, se_mbind, se_bind; simpl; rewrite Hq; reflexivity|done]|].
  eapply leads_app; [match goal with |- leads _ _ ?x _ _ => exact (leads_queues d tok x (conj Hql Hqw)) end|].
  eapply leads_app; [match goal with |- leads _ _ ?x _ _ => exact (leads_scans d tok x (cw_scans _ _ Hw)) end|].
  eapply leads_app; [by apply leads_exports|]. eapply leads_call; [done|reflexivity|done].
Qed.

Lemma charged_contexts_live r i c : slots r !! i = Some (Live c) → 1 <= charged_contexts r.
Proof.
  intros Hi. unfold charged_contexts.
  set (f := λ s, match s with Live _ => 1 | _ => 0 end).
  destruct (decide (zsum f (slots r) = 0)) as [H0|H0].
  - pose proof (zsum_zero f (slots r) ltac:(intros []; simpl; lia) H0 i _ Hi). done.
  - pose proof (zsum_nonneg f (slots r) ltac:(intros []; simpl; lia)). lia.
Qed.

(** ** Theorems *)

(** C11: over any history of calls the registry never hands out a token twice, and a token
    that lost its slot (cancelled or reclaimed) is refused as stale by every later call
    that acts on it, which changes nothing, however often the slot is reused. The one call
    that still answers for it, [fence_settled], changes nothing either and says whether the
    slot is reclaimable under that token's own generation. *)
Theorem lifetime_tokens_permanent d ceiling ks t1 r1 ks' t2 r2 :
  reached d ceiling ks t1 r1 → run ks' r1 = (t2, r2) →
  NoDup (issued (t1 ++ t2)) ∧
  ∀ tok, tok ∈ issued t1 → phase_of tok r1 = None →
    (∀ k, call_target k = Some (d, tok) → exec k r2 = (inl (Refuse StaleToken), r2)) ∧
    (∀ q, ∃ x, exec (FenceSettled (mkFence d tok q)) r2 = (inr (Settled x), r2) ∧
       (x = None ∨ x = Some tok) ∧
       (x = Some tok ↔ slots r2 !! Z.to_nat (LoaderToken_slot tok) =
                         Some (Reclaimable (LoaderToken_generation tok)))).
Proof.
  intros Hre Hrun. destruct (reached_wf _ _ _ _ _ Hre) as (Hw1 & Hd1 & _ & _).
  destruct Hre as (Hc & r0 & Hn & Hrun0). destruct (Registry_new_wf _ _ _ Hc Hn) as [Hw0 _].
  destruct (run_safe _ _ _ _ Hw1 Hrun) as (_ & Hr & _). split.
  - apply (run_issued (ks ++ ks') r0 (t1 ++ t2) r2 Hw0). by rewrite run_app, Hrun0, Hrun.
  - intros tok Htok Hp. split; [|intros q; apply (exec_fence_settled (mkFence d tok q));
      rewrite (rr_domain _ _ Hr); by symmetry].
    intros k Hk. destruct (run_issued _ _ _ _ Hw0 Hrun0) as [_ Hi].
    destruct (Hi tok Htok) as [Hknown _].
    assert (find_live tok r2 = None) as Hf.
    { destruct (find_live tok r2) as [c|] eqn:E; [|done].
      destruct (live_before _ _ _ _ Hr Hknown E) as (c0 & E0 & _). unfold phase_of in Hp. by rewrite E0 in Hp. }
    rewrite (exec_stale k d tok r2 Hk Hf), (rr_domain _ _ Hr), Hd1, Z.eqb_refl. done.
Qed.

(** C23: an export cookie names one token and one binding for ever: two binds of a history
    that answer the same cookie were for the same context and the same export, also when
    the descriptor was settled in between, and the cookie decodes to that token. *)
Theorem export_cookie_identity d ceiling ks trace r d1 t1 b1 d2 t2 b2 k :
  reached d ceiling ks trace r →
  (BindExport d1 t1 b1, inr (Cookie k)) ∈ trace → (BindExport d2 t2 b2, inr (Cookie k)) ∈ trace →
  t1 = t2 ∧ b1 = b2 ∧ ∃ o, decode_export_cookie k = Some (t1, o) ∧ 1 <= o <= MAX_SITE_ORDINAL.
Proof.
  intros (Hc & r0 & Hn & Hrun) H1 H2. destruct (Registry_new_wf _ _ _ Hc Hn) as [Hw0 _].
  destruct (run_bound _ _ _ _ [] Hw0 Hrun) as [Hkn Hcon]; [set_solver|intros ?; set_solver|]. simpl in *.
  assert (∀ d t b, (BindExport d t b, inr (Cookie k)) ∈ trace → (t, b, k) ∈ bound trace) as Hin.
  { intros d' t b H. apply list_elem_of_omap. by eexists. }
  apply Hin in H1, H2. destruct (Hcon _ _ _ _ _ H1 H2) as [<- <-]. split_and!; [done..|].
  destruct (Hkn _ H1) as ([Ht _] & o & Ho & Hk & _). exists o.
  destruct (token_at_bits _ _ Ht) as [_ Hr]. split; [by eapply decode_export_cookie_encode; [|lia|]|].
  apply export_cookie_value in Hk; [|lia..]. tauto.
Qed.

(** C12: an acknowledgement reclaims a slot exactly when the fence names the current
    context of its slot in this domain, drained to the fixed position with cleanup done and
    no queued record, scan or descriptor left; no producer reference is held then.  The
    slot keeps its burned generation and the historical fact is appended; every refused
    acknowledgement leaves the registry as it was. *)
Theorem ack_fence_exact d ceiling ks trace r fence drain :
  reached d ceiling ks trace r →
  (fence_domain fence = d ∧ ∃ c, find_live (fence_token fence) r = Some c ∧ settled fence drain c ∧
     short_refs c = 0 ∧ long_refs c = 0 ∧
     ack_fence fence drain r =
       (inr (mkReclaimed (LoaderToken_slot (fence_token fence)) (LoaderToken_generation (fence_token fence))),
        set_slots (<[Z.to_nat (LoaderToken_slot (fence_token fence)) :=
                       Reclaimable (LoaderToken_generation (fence_token fence))]>)
          (set_history (λ l, l ++ [mkFact (fence_token fence) (publication_arms c) (useful_calls c)]) r))) ∨
  (¬ (fence_domain fence = d ∧ ∃ c, find_live (fence_token fence) r = Some c ∧ settled fence drain c) ∧
   ∃ e, ack_fence fence drain r = (inl (Refuse e), r)).
Proof.
  intros Hre. destruct (reached_wf _ _ _ _ _ Hre) as (Hw & Hd & _ & _).
  destruct (decide (fence_domain fence = d)) as [Hfd|Hfd].
  - destruct (ack_fence_cases fence drain r Hw) as [(c & Hf & Hs & He)|[Hno He]]; [congruence|left|right].
    + split; [done|]. exists c. split_and!; try done;
        apply (cw_quiet _ _ (find_live_wf _ _ _ Hw Hf)); by rewrite (st_phase _ _ _ Hs).
    + split; [|done]. intros [_ (c & Hf & Hs)]. by apply (Hno c).
  - right. split; [tauto|]. eexists. unfold ack_fence. apply foreign_refused. congruence.
Qed.

(** C25: quarantine is permanent.  A context that was quarantined (a counter that would
    overflow, or a state entry that could not be deleted) still occupies its slot, is still
    quarantined and still charged after any later calls, and cannot be acknowledged. *)
Theorem quarantine_permanent d ceiling ks t1 r1 ks' t2 r2 tok :
  reached d ceiling ks t1 r1 → phase_of tok r1 = Some Quarantined → run ks' r1 = (t2, r2) →
  phase_of tok r2 = Some Quarantined ∧ 1 <= charged_contexts r2 ∧
  ∀ fence drain, fence_token fence = tok → ∃ e, ack_fence fence drain r2 = (inl (Refuse e), r2).
Proof.
  intros Hre Hp Hrun. destruct (reached_wf _ _ _ _ _ Hre) as (Hw1 & Hd1 & _ & _).
  destruct (run_safe _ _ _ _ Hw1 Hrun) as (Hw2 & Hr & _). unfold phase_of in *.
  apply fmap_Some in Hp as (c & Hf & Hq). apply find_live_Some in Hf as [Hi Ht].
  destruct (Forall2_lookup_l _ _ _ _ _ (rr_slots _ _ Hr) Hi) as (s' & Hi' & Hsr).
  destruct (sr_quarantine _ _ Hsr c eq_refl (eq_sym Hq)) as (c' & -> & Hcr).
  assert (find_live tok r2 = Some c') as Hf2 by (apply find_live_Some; split; [done|by rewrite (cr_token _ _ Hcr)]).
  assert (phase c' = Quarantined) as Hq' by (by apply (cr_quarantine _ _ Hcr)).
  split_and!; [by rewrite Hf2; simpl; rewrite Hq'|by eapply charged_contexts_live|].
  intros fence drain <-. destruct (decide (fence_domain fence = domain r2)) as [Hd|Hd].
  - destruct (ack_fence_cases fence drain r2 Hw2 Hd) as [(c2 & Hf3 & Hs & _)|[_ He]]; [|done].
    rewrite Hf2 in Hf3. injection Hf3 as <-. pose proof (st_phase _ _ _ Hs). congruence.
  - eexists. by apply foreign_refused.
Qed.

(** the charges stay within their ceilings after any history: at most 256 contexts in
    every phase, quarantine included, and at most half the descriptor ceiling of export
    descriptors and pending charges; and no call of the history failed an [expect]. *)
Theorem lifetime_charges_bounded d ceiling ks trace r :
  reached d ceiling ks trace r →
  charged_contexts r <= MAX_LIFETIME_SLOTS ∧ charged_descriptors r <= ceiling / 2 ∧
  Forall (λ p, p.2 ≠ inl Panic) trace.
Proof.
  intros Hre. destruct (reached_wf _ _ _ _ _ Hre) as (Hw & _ & Hc & Hf). split_and!; [| |done].
  - unfold charged_contexts. etrans; [apply (zsum_bounds _ 0 1); intros []; lia|].
    rewrite (rw_length _ Hw). unfold MAX_LIFETIME_SLOTS. lia.
  - pose proof (rw_charged _ Hw) as H. unfold max_descriptors in H. by rewrite Hc in H.
Qed.

(** C24: an active context can always be retired.  From any reachable registry the calls
    that release its references, close it, fix the fence at [q], dispose of its records,
    scans and exports and record the cleanup all succeed, and the acknowledgement of that
    fence by a consumer at or past [q] then reclaims the slot. *)
Theorem active_context_retires d ceiling ks trace r tok c q drain :
  reached d ceiling ks trace r → find_live tok r = Some c → phase c = Active → q <= consumer drain →
  ∃ trace' r', run (retire_calls d tok q c ++ [AckFence (mkFence d tok q) drain]) r = (trace', r') ∧
    Forall (λ p, succeeded p.2) trace' ∧
    slot_state (LoaderToken_slot tok) r' = Some (ViewReclaimable (LoaderToken_generation tok)) ∧
    history r' = history r ++ [mkFact tok (publication_arms c) (useful_calls c)].
Proof.
  intros Hre Hf Hp Hq. destruct (reached_wf _ _ _ _ _ Hre) as (Hw & Hd & _ & _).
  destruct (leads_retire d tok q _ c (find_live_wf _ _ _ Hw Hf) Hp r Hd Hf) as (t1 & r1 & Hrun & Hd1 & Hh1 & Hf1 & Ht1).
  destruct (run_safe _ _ _ _ Hw Hrun) as (Hw1 & _ & _). rewrite run_app, Hrun.
  assert (token c = tok) as Htok by (by apply find_live_Some in Hf as [_ ?]).
  destruct (ack_fence_cases (mkFence d tok q) drain r1 Hw1) as [(c1 & Hf1' & Hs & He)|[Hno _]]; [done| |].
  - simpl in *. rewrite Hf1 in Hf1'. injection Hf1' as <-.
    unfold reply_with. rewrite (bind_ok _ _ _ _ _ He). unfold mret, se_mret, se_ret.
    eexists _, _. split_and!; [done|by apply Forall_app_2; [|repeat constructor]| |simpl; by rewrite Hh1].
    unfold slot_state. simpl. rewrite list_lookup_insert_eq; [done|].
    apply find_live_Some in Hf1 as [Hi _]. by eapply lookup_lt_Some.
  - exfalso. eapply (Hno _ Hf1). by constructor.
Qed.

(** ** A history *)

Definition demo_binding (offset : Z) : ExportBinding := mkExport 1 2 offset (mkSymbol 4096 offset) Lp64.

Definition demo_retire : list call :=
  [BeginRetirement 7 256; ObserveClosedZero (mkRetirement 7 256); SampleQ (mkRetirement 7 256) 40;
   DrainPrefix (mkRetirement 7 256) (mkDrain 40 false); RecordLinkCleanup 7 256 true].

(** One export bound, settled and bound again, then the context retired. *)
Definition demo_calls : list call :=
  [PrepareNew 7; Activate 7 256; BindExport 7 256 (demo_binding 8); BindExport 7 256 (demo_binding 8);
   ReleaseExport 7 256 0x100000001; SettleExport 7 256 0x100000001] ++ demo_retire.

Definition demo_fence : LoaderRetirementFence := mkFence 7 256 40.

Definition demo_start : LifetimeRegistry :=
  mkRegistry 7 (replicate (Z.to_nat MAX_LIFETIME_SLOTS) (Free 0)) 8 [] [].

Lemma demo_reached ks : reached 7 8 ks (run ks demo_start).1 (run ks demo_start).2.
Proof. split; [lia|]. exists demo_start. split; [done|]. by destruct (run ks demo_start). Qed.

Lemma lifetime_tokens_permanent_witness :
  let r1 := (run (demo_calls ++ [AckFence demo_fence (mkDrain 41 false)]) demo_start).2 in
  let t1 := (run (demo_calls ++ [AckFence demo_fence (mkDrain 41 false)]) demo_start).1 in
  let r2 := (run [PrepareNew 7; Activate 7 512] r1).2 in
  exec (AckFence demo_fence (mkDrain 99 false)) r2 = (inl (Refuse StaleToken), r2) ∧ phase_of 512 r2 = Some Active.
Proof.
  split; [|by vm_compute].
  eapply (lifetime_tokens_permanent 7 8 _ _ _ [PrepareNew 7; Activate 7 512] _ _
    (demo_reached (demo_calls ++ [AckFence demo_fence (mkDrain 41 false)])));
    [apply surjective_pairing|vm_compute; left|by vm_compute|done].
Defined.

Lemma export_cookie_identity_witness :
  256 = 256 ∧ demo_binding 8 = demo_binding 8 ∧
  ∃ o, decode_export_cookie 0x100000001 = Some (256, o) ∧ 1 <= o <= MAX_SITE_ORDINAL.
Proof.
  apply (export_cookie_identity 7 8 demo_calls _ _ 7 256 (demo_binding 8) 7 256 (demo_binding 8) _ (demo_reached demo_calls)).
  - vm_compute. do 2 right. left.
  - vm_compute. do 3 right. left.
Defined.

Lemma ack_fence_exact_witness :
  (ack_fence demo_fence (mkDrain 41 false) (run demo_calls demo_start).2).1 = inr (mkReclaimed 0 1).
Proof.
  destruct (ack_fence_exact 7 8 demo_calls _ _ demo_fence (mkDrain 41 false) (demo_reached demo_calls))
    as [(_ & c & _ & _ & _ & _ & ->)|[_ [e He]]]; [done|by vm_compute in He].
Defined.

Definition demo_poison : list call :=
  [PrepareNew 7; Activate 7 256; AcquireShort 7 256; InsertState 7 256; RemoveState 7 256 false].

Lemma quarantine_permanent_witness :
  phase_of 256 (run (RemoveState 7 256 true :: demo_retire) (run demo_poison demo_start).2).2 = Some Quarantined.
Proof.
  eapply (quarantine_permanent 7 8 demo_poison _ _ (RemoveState 7 256 true :: demo_retire) _ _ 256 (demo_reached demo_poison));
    [by vm_compute|apply surjective_pairing].
Defined.

Lemma lifetime_charges_bounded_witness :
  charged_descriptors (run (firstn 4 demo_calls) demo_start).2 = 1 ∧
  charged_descriptors (run (firstn 4 demo_calls) demo_start).2 <= 8 / 2.
Proof.
  split; [by vm_compute|]. apply (lifetime_charges_bounded 7 8 _ _ _ (demo_reached (firstn 4 demo_calls))).
Defined.

Definition demo_busy : list call :=
  [PrepareNew 7; Activate 7 256; AcquireShort 7 256; AcquireShort 7 256; InsertState 7 256;
   CollectRecord 7 256 Deferred; RegisterScan 7 256; BindExport 7 256 (demo_binding 8); RecordCall 7 256].

Lemma active_context_retires_witness :
  ∃ c trace r', find_live 256 (run demo_busy demo_start).2 = Some c ∧
  run (retire_calls 7 256 40 c ++ [AckFence (mkFence 7 256 40) (mkDrain 40 false)]) (run demo_busy demo_start).2 = (trace, r') ∧
  history r' = [mkFact 256 0 1].
Proof.
  destruct (find_live 256 (run demo_busy demo_start).2) as [c|] eqn:Hf; [|by vm_compute in Hf].
  assert (phase c = Active ∧ useful_calls c = 1 ∧ publication_arms c = 0) as (Hp & Hu & Ha)
    by (vm_compute in Hf; by injection Hf as <-).
  destruct (active_context_retires 7 8 demo_busy _ _ 256 c 40 (mkDrain 40 false) (demo_reached demo_busy) Hf Hp)
    as (trace & r' & Hrun & _ & _ & Hh); [done|]. exists c, trace, r'. split_and!; [done..|].
  rewrite Hh, Hu, Ha. by vm_compute.
Defined.
