(* ===== verification/Reservations.v ===== *)
(** * Reservation table of the object journal

    [src/semantics_objects/journal/reservations.rs]: a fixed table of operations, each with
    up to five role memberships and up to five reservation ids, found through intrusive
    hash chains (small tables) or linear scans (large ones), and the free list of its
    vacant slots.  A failed assertion, [expect], index or unchecked subtraction is [Panic],
    and so is a chain walk that outlives its fuel. *)
From S2P Require Import Prelude.

Definition ROLES : nat := 5.
Definition MAX_INDEXED : nat := 1024.
Definition INDEX_BUCKETS : nat := 1024.
Definition INDEX_NONE : Z := U16_MAX.
Definition KEY_LINKS : nat := 0.
Definition ID_LINKS : nat := 1.

(** ** Nodes and hashes *)

Definition node_code (slot lane : nat) : Z := as_u16 (Z.of_nat (slot * ROLES + lane)).
Definition node_slot (code : Z) : nat := Z.to_nat (code / 5).
Definition node_lane (code : Z) : nat := Z.to_nat (code mod 5).

Definition rotate_left_64 (x k : Z) : Z := as_u64 (x << k) |' (x >> (64 - k)).

Definition index_hash (parts : list Z) : Z :=
  let SEED := 0x517cc1b727220a95 in
  foldl (λ hash part, as_u64 (rotate_left_64 (as_u64 (hash + part)) 5 * SEED)) SEED parts.

Inductive Role := Raw | H8Open | Model | H9Staged | Association.

#[export] Instance Role_eq_dec : EqDecision Role.
Proof. solve_decision. Defined.

Definition Role_index (role : Role) : nat :=
  match role with Raw => 0 | H8Open => 1 | Model => 2 | H9Staged => 3 | Association => 4 end.

Definition Role_ALL : list Role := [Raw; H8Open; Model; H9Staged; Association].

Definition Role_at (lane : nat) : option Role := Role_ALL !! lane.

Record RoleKey := mkKey {
  namespace : Z;
  value : Z;
}.

#[export] Instance RoleKey_eq_dec : EqDecision RoleKey.
Proof. solve_decision. Defined.

Inductive Refusal := Full | Replay | Foreign.

(** A refusal of the source, or a failed assertion. *)
Inductive Stop := Refuse (e : Refusal) | Panic.

Definition key_bucket (lane : nat) (key : RoleKey) : nat :=
  Z.to_nat (index_hash [Z.of_nat lane; namespace key; value key] mod Z.of_nat INDEX_BUCKETS).

Definition id_bucket (id : Z) : nat := Z.to_nat (index_hash [id] mod Z.of_nat INDEX_BUCKETS).

Section table.
Context {C : Type}.

Record Membership := mkMember {
  member_key : RoleKey;
  member_bytes_ : Z;
  member_charge : C;
}.

Record Operation := mkOperation {
  aliases : list (option Z);
  roles : list (option Membership);
}.

Record TableSlot := mkSlot {
  operation : option Operation;
  links : list (list Z);
  free_next : Z;
}.

(** Field updates. *)

Definition set_operation (g : option Operation → option Operation) (c : TableSlot) : TableSlot :=
  mkSlot (g (operation c)) (links c) (free_next c).

Definition set_links (g : list (list Z) → list (list Z)) (c : TableSlot) : TableSlot :=
  mkSlot (operation c) (g (links c)) (free_next c).

Definition set_free_next (g : Z → Z) (c : TableSlot) : TableSlot :=
  mkSlot (operation c) (links c) (g (free_next c)).

Definition vacant : TableSlot := mkSlot None (replicate 2 (replicate ROLES INDEX_NONE)) INDEX_NONE.

Record ReservationTable := mkTable {
  slots : list TableSlot;
  next : Z;
  live : Z;
  bytes : Z;
  populations : list Z;
  key_heads : list Z;
  id_heads : list Z;
  free_head : Z;
}.

(** Field updates. *)

Definition set_slots (g : list TableSlot → list TableSlot) (c : ReservationTable) : ReservationTable :=
  mkTable (g (slots c)) (next c) (live c) (bytes c) (populations c) (key_heads c) (id_heads c)
    (free_head c).

Definition set_next (g : Z → Z) (c : ReservationTable) : ReservationTable :=
  mkTable (slots c) (g (next c)) (live c) (bytes c) (populations c) (key_heads c) (id_heads c)
    (free_head c).

Definition set_live (g : Z → Z) (c : ReservationTable) : ReservationTable :=
  mkTable (slots c) (next c) (g (live c)) (bytes c) (populations c) (key_heads c) (id_heads c)
    (free_head c).

Definition set_bytes (g : Z → Z) (c : ReservationTable) : ReservationTable :=
  mkTable (slots c) (next c) (live c) (g (bytes c)) (populations c) (key_heads c) (id_heads c)
    (free_head c).

Definition set_populations (g : list Z → list Z) (c : ReservationTable) : ReservationTable :=
  mkTable (slots c) (next c) (live c) (bytes c) (g (populations c)) (key_heads c) (id_heads c)
    (free_head c).

Definition set_key_heads (g : list Z → list Z) (c : ReservationTable) : ReservationTable :=
  mkTable (slots c) (next c) (live c) (bytes c) (populations c) (g (key_heads c)) (id_heads c)
    (free_head c).

Definition set_id_heads (g : list Z → list Z) (c : ReservationTable) : ReservationTable :=
  mkTable (slots c) (next c) (live c) (bytes c) (populations c) (key_heads c) (g (id_heads c))
    (free_head c).

Definition set_free_head (g : Z → Z) (c : ReservationTable) : ReservationTable :=
  mkTable (slots c) (next c) (live c) (bytes c) (populations c) (key_heads c) (id_heads c) (g
    (free_head c)).

(** ** Chains *)

Definition link_of (plane : nat) (node : Z) (sl : list TableSlot) : option Z :=
  slot ← sl !! node_slot node; row ← links slot !! plane; row !! node_lane node.

Definition set_link (plane : nat) (node v : Z) (sl : list TableSlot) : option (list TableSlot) :=
  slot ← sl !! node_slot node; row ← links slot !! plane; _ ← row !! node_lane node;
  Some (<[node_slot node := set_links (<[plane := <[node_lane node := v]> row]>) slot]> sl).

Definition chain_link (plane bucket : nat) (node : Z) (heads : list Z) (sl : list TableSlot)
    : option (list Z * list TableSlot) :=
  head ← heads !! bucket;
  sl ← set_link plane node head sl;
  Some (<[bucket := node]> heads, sl).

(** The loop of [chain_unlink], [prev] onwards. *)
Fixpoint unlink_after (fuel : nat) (plane : nat) (node prev : Z) (sl : list TableSlot) : option (list TableSlot) :=
  match fuel with
  | O => None
  | S fuel =>
      if prev =? INDEX_NONE then None
      else
        next ← link_of plane prev sl;
        if next =? node then after ← link_of plane node sl; set_link plane prev after sl
        else unlink_after fuel plane node next sl
  end.

(** One step for each node and one more. *)
Definition walk_fuel (sl : list TableSlot) : nat := S (length sl * ROLES).

Definition chain_unlink (plane bucket : nat) (node : Z) (heads : list Z) (sl : list TableSlot)
    : option (list Z * list TableSlot) :=
  head ← heads !! bucket;
  if head =? node then after ← link_of plane node sl; Some (<[bucket := after]> heads, sl)
  else sl ← unlink_after (walk_fuel sl) plane node head sl; Some (heads, sl).

Definition free_pop (head : Z) (sl : list TableSlot) : option (option nat * Z * list TableSlot) :=
  if head =? INDEX_NONE then Some (None, head, sl)
  else
    let at_ := Z.to_nat head in
    slot ← sl !! at_;
    Some (Some at_, free_next slot, <[at_ := set_free_next (λ _, INDEX_NONE) slot]> sl).

Definition free_push (head : Z) (sl : list TableSlot) (at_ : nat) : option (Z * list TableSlot) :=
  slot ← sl !! at_;
  Some (as_u16 (Z.of_nat at_), <[at_ := set_free_next (λ _, head) slot]> sl).

(** ** Construction and lookup *)

Fixpoint link_free (at_ : nat) (sl : list TableSlot) : list TableSlot * Z :=
  match sl with
  | [] => ([], INDEX_NONE)
  | slot :: rest =>
      let '(rest, prev) := link_free (S at_) rest in
      (set_free_next (λ _, prev) slot :: rest, as_u16 (Z.of_nat at_))
  end.

Definition try_new (capacity : nat) : ReservationTable :=
  let sl := replicate capacity vacant in
  let '(sl, free_head) := if (capacity <=? MAX_INDEXED)%nat then link_free 0 sl else (sl, INDEX_NONE) in
  mkTable sl 0 0 0 (replicate ROLES 0) (replicate INDEX_BUCKETS INDEX_NONE) (replicate INDEX_BUCKETS INDEX_NONE) free_head.

Definition indexed (t : ReservationTable) : bool := (length (slots t) <=? MAX_INDEXED)%nat.

Definition has_key (lane : nat) (key : RoleKey) (o : Operation) : bool :=
  match roles o !! lane with Some (Some m) => bool_decide (member_key m = key) | _ => false end.

Definition has_alias (id : Z) (o : Operation) : bool := bool_decide (Some id ∈ aliases o).

Definition slot_has (p : Operation → bool) (slot : TableSlot) : bool :=
  match operation slot with Some o => p o | None => false end.

(** The walk of an indexed lookup from [code]; [None] is a panic. *)
Fixpoint chain_find (fuel plane : nat) (found : nat → Operation → bool) (code : Z) (sl : list TableSlot)
    : option (option nat) :=
  match fuel with
  | O => None
  | S fuel =>
      if code =? INDEX_NONE then Some None
      else
        slot ← sl !! node_slot code;
        if slot_has (found (node_lane code)) slot then Some (Some (node_slot code))
        else next ← link_of plane code sl; chain_find fuel plane found next sl
  end.

Definition key_slot (role : Role) (key : RoleKey) (t : ReservationTable) : option (option nat) :=
  let lane := Role_index role in
  if indexed t then
    head ← key_heads t !! key_bucket lane key;
    chain_find (walk_fuel (slots t)) KEY_LINKS (λ l o, (l =? lane)%nat && has_key l key o) head (slots t)
  else Some (position (slot_has (has_key lane key)) (slots t)).

Definition alias_at (id : Z) (lane : nat) (o : Operation) : bool :=
  match aliases o !! lane with Some (Some a) => a =? id | _ => false end.

Definition id_slot (id : Z) (t : ReservationTable) : option (option nat) :=
  if indexed t then
    head ← id_heads t !! id_bucket id;
    chain_find (walk_fuel (slots t)) ID_LINKS (alias_at id) head (slots t)
  else Some (position (slot_has (has_alias id)) (slots t)).

Definition operation_at (at_ : nat) (t : ReservationTable) : option Operation :=
  slot ← slots t !! at_; operation slot.

(** ** The table monad *)

Abbreviation Table := (SE ReservationTable Stop).

Definition refuse {A} (e : Refusal) : Table A := se_err (Refuse e).

Definition get : Table ReservationTable := λ t, (inr t, t).

Definition modify (f : ReservationTable → ReservationTable) : Table () := λ t, (inr tt, f t).

Definition or_panic {A} (o : option A) : Table A := se_some Panic o.

(** [self.key_slot(role, key)] and [self.id_slot(id)] *)
Definition find_key (role : Role) (key : RoleKey) : Table (option nat) :=
  t ← get; or_panic (key_slot role key t).

Definition find_id (id : Z) : Table (option nat) := t ← get; or_panic (id_slot id t).

(** [self.slots[at].operation.as_ref().unwrap()] and the assignment of a new value. *)
Definition get_operation (at_ : nat) : Table Operation := t ← get; or_panic (operation_at at_ t).

Definition put_operation (at_ : nat) (o : option Operation) : Table () :=
  t ← get;
  slot ← or_panic (slots t !! at_);
  modify (set_slots (<[at_ := set_operation (λ _, o) slot]>)).

Definition on_key_chains (f : list Z → list TableSlot → option (list Z * list TableSlot)) : Table () :=
  t ← get;
  hs ← or_panic (f (key_heads t) (slots t));
  modify (λ t, set_slots (λ _, hs.2) (set_key_heads (λ _, hs.1) t)).

Definition on_id_chains (f : list Z → list TableSlot → option (list Z * list TableSlot)) : Table () :=
  t ← get;
  hs ← or_panic (f (id_heads t) (slots t));
  modify (λ t, set_slots (λ _, hs.2) (set_id_heads (λ _, hs.1) t)).

(** [if self.indexed() { .. }] *)
Definition when_indexed (m : Table ()) : Table () := t ← get; if indexed t then m else mret tt.

Definition link_key (at_ lane : nat) (key : RoleKey) : Table () :=
  on_key_chains (chain_link KEY_LINKS (key_bucket lane key) (node_code at_ lane)).

Definition unlink_key (at_ lane : nat) (key : RoleKey) : Table () :=
  on_key_chains (chain_unlink KEY_LINKS (key_bucket lane key) (node_code at_ lane)).

Definition link_id (at_ lane : nat) (id : Z) : Table () :=
  on_id_chains (chain_link ID_LINKS (id_bucket id) (node_code at_ lane)).

Definition unlink_id (at_ lane : nat) (id : Z) : Table () :=
  on_id_chains (chain_unlink ID_LINKS (id_bucket id) (node_code at_ lane)).

Definition pop_free : Table (option nat) :=
  t ← get;
  r ← or_panic (free_pop (free_head t) (slots t));
  let '(at_, head, sl) := r in
  modify (λ t, set_slots (λ _, sl) (set_free_head (λ _, head) t)) ;; mret at_.

Definition push_free (at_ : nat) : Table () :=
  t ← get;
  r ← or_panic (free_push (free_head t) (slots t) at_);
  modify (λ t, set_slots (λ _, r.2) (set_free_head (λ _, r.1) t)).

(** Arithmetic on the counters, with the overflow a panic. *)
Definition add_live (d : Z) : Table () :=
  t ← get; n ← or_panic (checked 64 (live t + d)); modify (set_live (λ _, n)).

Definition add_bytes (d : Z) : Table () :=
  t ← get; n ← or_panic (checked 64 (bytes t + d)); modify (set_bytes (λ _, n)).

Definition add_population (lane : nat) (d : Z) : Table () :=
  t ← get;
  p ← or_panic (populations t !! lane);
  n ← or_panic (checked 64 (p + d));
  modify (set_populations (<[lane := n]>)).

(** The elements of a loop, run in order. *)
Fixpoint for_each {A} (f : A → Table ()) (l : list A) : Table () :=
  match l with [] => mret tt | x :: l => f x ;; for_each f l end.

(** The present entries of an array with their lanes. *)
Fixpoint present_from {A} (lane : nat) (l : list (option A)) : list (nat * A) :=
  match l with
  | [] => []
  | Some x :: l => (lane, x) :: present_from (S lane) l
  | None :: l => present_from (S lane) l
  end.

Definition present {A} (l : list (option A)) : list (nat * A) := present_from 0 l.

Definition all_none {A} (l : list (option A)) : bool := forallb (λ x, match x with None => true | Some _ => false end) l.

(** The operation at [at_] lost its last role: its slot is vacated and its aliases leave the
    id index. *)
Definition vacate (at_ : nat) (o : Operation) : Table () :=
  put_operation at_ None ;;
  add_live (-1) ;;
  when_indexed
    (for_each (λ p, unlink_id at_ (fst p) (snd p)) (present (aliases o)) ;; push_free at_).

(** ** Reading *)

Definition reservation (role : Role) (key : RoleKey) : Table (option Z) :=
  found ← find_key role key;
  match found with
  | None => mret None
  | Some at_ =>
      t ← get;
      _ ← or_panic (slots t !! at_);
      match operation_at at_ t with
      | None => mret None
      | Some o => or_panic (aliases o !! 0%nat)
      end
  end.

Definition member_bytes (role : Role) (key : RoleKey) : Table (option Z) :=
  found ← find_key role key;
  match found with
  | None => mret None
  | Some at_ =>
      t ← get;
      _ ← or_panic (slots t !! at_);
      match operation_at at_ t with
      | None => mret None
      | Some o => m ← or_panic (roles o !! Role_index role); mret (member_bytes_ <$> m)
      end
  end.

Definition lane_key (o : Operation) (role : Role) : option RoleKey :=
  match roles o !! Role_index role with Some (Some m) => Some (member_key m) | _ => None end.

Definition lane_vacant (o : Operation) (role : Role) : bool :=
  match roles o !! Role_index role with Some (Some _) => false | _ => true end.

Definition unconverted_staging (open staged : RoleKey) (id : Z) : Table bool :=
  found ← find_key H8Open open;
  match found with
  | None => mret false
  | Some at_ =>
      o ← get_operation at_;
      mret (has_alias id o && bool_decide (lane_key o H9Staged = Some staged)
            && lane_vacant o Raw && lane_vacant o Model)
  end.

Definition unconverted_original (open : RoleKey) (id : Z) (staged : option RoleKey) : Table bool :=
  found ← find_key H8Open open;
  match found with
  | None => mret false
  | Some at_ =>
      o ← get_operation at_;
      mret (has_alias id o && bool_decide (lane_key o H9Staged = staged)
            && lane_vacant o Raw && lane_vacant o Model)
  end.

Definition reservation_is_released (id : Z) : Table bool :=
  t ← get;
  if negb (id =? 0) && (id <=? next t) then found ← find_id id; mret (negb (bool_decide (is_Some found)))
  else mret false.

(** ** Inserting and releasing *)

Definition preflight (role : Role) (key : RoleKey) (existing : option Z) (n : Z) : Table () :=
  found ← find_key role key;
  match found with
  | Some _ => refuse Replay
  | None =>
      t ← get;
      match checked_add 64 (bytes t) n with
      | None => refuse Full
      | Some _ =>
          match existing with
          | Some id =>
              found ← find_id id;
              at_ ← se_some (Refuse Foreign) found;
              o ← get_operation at_;
              r ← or_panic (roles o !! Role_index role);
              match r with Some _ => refuse Replay | None => mret tt end
          | None =>
              if (Z.of_nat (length (slots t)) <=? live t) || negb (bool_decide (is_Some (checked_add 64 (next t) 1)))
              then refuse Full else mret tt
          end
      end
  end.

(** A new operation in a vacant slot, under the next id. *)
Definition mint_operation : Table nat :=
  t ← get;
  let id := next t + 1 in
  found ← (if indexed t then pop_free
           else mret (position (λ slot, match operation slot with None => true | Some _ => false end) (slots t)));
  at_ ← or_panic found;
  put_operation at_ (Some (mkOperation (<[0%nat := Some id]> (replicate ROLES None)) (replicate ROLES None))) ;;
  modify (set_next (λ _, id)) ;;
  add_live 1 ;;
  when_indexed (link_id at_ 0 id) ;;
  mret at_.

(** The role written into the operation at [at_]. *)
Definition occupy (role : Role) (key : RoleKey) (n : Z) (charge : C) (at_ : nat) : Table Z :=
  o ← get_operation at_;
  put_operation at_ (Some (mkOperation (aliases o) (<[Role_index role := Some (mkMember key n charge)]> (roles o)))) ;;
  add_population (Role_index role) 1 ;;
  add_bytes n ;;
  head ← or_panic (aliases o !! 0%nat);
  head ← or_panic head;
  when_indexed (link_key at_ (Role_index role) key) ;;
  mret head.

Definition insert (role : Role) (key : RoleKey) (existing : option Z) (n : Z) (charge : C) : Table Z :=
  preflight role key existing n ;;
  at_ ← match existing with
        | Some id => found ← find_id id; or_panic found
        | None => mint_operation
        end;
  occupy role key n charge at_.

Definition release (role : Role) (key : RoleKey) : Table (option (Z * C)) :=
  let lane := Role_index role in
  found ← find_key role key;
  match found with
  | None => mret None
  | Some at_ =>
      when_indexed (unlink_key at_ lane key) ;;
      o ← get_operation at_;
      m ← or_panic (roles o !! lane);
      m ← or_panic m;
      let o' := mkOperation (aliases o) (<[lane := None]> (roles o)) in
      put_operation at_ (Some o') ;;
      add_bytes (- member_bytes_ m) ;;
      add_population lane (-1) ;;
      (if all_none (roles o') then vacate at_ o' else mret tt) ;;
      mret (Some (member_bytes_ m, member_charge m))
  end.

Definition release_role_at (role : Role) (at_ : nat) : Table () :=
  let lane := Role_index role in
  t ← get;
  slot ← or_panic (slots t !! at_);
  match operation slot with
  | None => mret tt
  | Some o =>
      taken ← or_panic (roles o !! lane);
      let o' := mkOperation (aliases o) (<[lane := None]> (roles o)) in
      match taken with
      | None => mret tt
      | Some m =>
          put_operation at_ (Some o') ;;
          when_indexed (unlink_key at_ lane (member_key m)) ;;
          add_population lane (-1) ;;
          add_bytes (- member_bytes_ m)
      end ;;
      if all_none (roles o') then vacate at_ o' else mret tt
  end.

Definition release_role (role : Role) : Table () :=
  t ← get; for_each (release_role_at role) (seq 0 (length (slots t))).

(** ** Merging and transferring *)

Definition overlapping (a b : list (option Membership)) : bool :=
  existsb (λ p, match p with (Some _, Some _) => true | _ => false end) (combine a b).

(** The aliases of the right operation, each moved to the first vacant lane of the left;
    the lanes they took. *)
Fixpoint adopt_aliases (l : list (option Z)) (ids : list Z) : option (list (option Z) * list nat) :=
  match ids with
  | [] => Some (l, [])
  | id :: ids =>
      pos ← position (λ x, match x with None => true | Some _ => false end) l;
      r ← adopt_aliases (<[pos := Some id]> l) ids;
      Some (r.1, pos :: r.2)
  end.

Definition adopt_roles (left right : list (option Membership)) : list (option Membership) :=
  zip_with (λ destination source, match source with Some _ => source | None => destination end) left right.

Definition merge (left right : Z) : Table Z :=
  found ← find_id left; left ← se_some (Refuse Foreign) found;
  found ← find_id right; right ← se_some (Refuse Foreign) found;
  if (left =? right)%nat then
    o ← get_operation left; head ← or_panic (aliases o !! 0%nat); or_panic head
  else
    a ← get_operation left;
    b ← get_operation right;
    if overlapping (roles a) (roles b) then refuse Replay
    else if (ROLES <? length (present (aliases a)) + length (present (aliases b)))%nat then refuse Full
    else
      let moved_roles := (λ p, (fst p, member_key (snd p))) <$> present (roles b) in
      let moved_ids := snd <$> present (aliases b) in
      when_indexed
        (for_each (λ p, unlink_key right (fst p) (snd p)) moved_roles ;;
         for_each (λ p, unlink_id right (fst p) (snd p)) (present (aliases b))) ;;
      put_operation right None ;;
      adopted ← or_panic (adopt_aliases (aliases a) moved_ids);
      let a' := mkOperation adopted.1 (adopt_roles (roles a) (roles b)) in
      put_operation left (Some a') ;;
      head ← or_panic (aliases a' !! 0%nat);
      head ← or_panic head;
      add_live (-1) ;;
      when_indexed
        (for_each (λ p, link_key left (fst p) (snd p)) moved_roles ;;
         for_each (λ p, link_id left (fst p) (snd p)) (combine adopted.2 moved_ids) ;;
         push_free right) ;;
      mret head.

Definition transfer (from : Role) (from_key : RoleKey) (to : Role) (to_key : RoleKey) (n : Z) (charge : C)
    : Table (Z * Z * C) :=
  found ← find_key from from_key;
  at_ ← se_some (Refuse Foreign) found;
  o ← get_operation at_;
  replayed ← (if bool_decide (from = to) then mret true
              else
                found ← find_key to to_key;
                if bool_decide (is_Some found) then mret true
                else r ← or_panic (roles o !! Role_index to); mret (bool_decide (is_Some r)));
  if replayed : bool then refuse Replay
  else
    old ← or_panic (roles o !! Role_index from);
    old ← or_panic old;
    t ← get;
    total ← se_some (Refuse Full) (rest ← checked_sub 64 (bytes t) (member_bytes_ old); checked_add 64 rest n);
    put_operation at_
      (Some (mkOperation (aliases o)
               (<[Role_index to := Some (mkMember to_key n charge)]> (<[Role_index from := None]> (roles o))))) ;;
    add_population (Role_index from) (-1) ;;
    add_population (Role_index to) 1 ;;
    modify (set_bytes (λ _, total)) ;;
    head ← or_panic (aliases o !! 0%nat);
    head ← or_panic head;
    when_indexed
      (unlink_key at_ (Role_index from) from_key ;; link_key at_ (Role_index to) to_key) ;;
    mret (head, member_bytes_ old, member_charge old).
End table.

Arguments Membership : clear implicits.
Arguments Operation : clear implicits.
Arguments TableSlot : clear implicits.
Arguments ReservationTable : clear implicits.

Abbreviation Table C := (SE (ReservationTable C) Stop).
