(* ===== verification/ReservationIndex.v ===== *)
(** * The intrusive index of the reservation table

    The hash chains and the free list of
    [src/semantics_objects/journal/reservations.rs] as linked lists in the slot array:
    what linking and unlinking a node does to every chain, that a walk ends, and what a
    lookup along a chain finds. *)
From S2P Require Import Prelude Reservations.

(** ** Linked lists over a link function *)

Inductive chain (f : Z → option Z) : Z → list Z → Prop :=
| chain_nil : chain f INDEX_NONE []
| chain_cons n m l : n ≠ INDEX_NONE → f n = Some m → chain f m l → chain f n (n :: l).

Lemma chain_ext f g h l : (∀ n, n ∈ l → f n = g n) → chain f h l → chain g h l.
Proof.
  intros He Hc. induction Hc as [|n m l Hn Hf Hc IH]; [constructor|].
  econstructor; [done|by rewrite <-He by left|]. apply IH. intros x Hx. apply He. by right.
Qed.

Lemma chain_head f h l : chain f h l → h ≠ INDEX_NONE → ∃ l', l = h :: l'.
Proof. intros [] Hh; [done|]. by eexists. Qed.

Definition upd {A} (n : Z) (v : A) (f : Z → A) : Z → A := λ m, if m =? n then v else f m.

Lemma upd_same {A} n (v : A) f : upd n v f n = v.
Proof. unfold upd. by rewrite Z.eqb_refl. Qed.

Lemma upd_other {A} n m (v : A) f : m ≠ n → upd n v f m = f m.
Proof. intros H. unfold upd. by rewrite (proj2 (Z.eqb_neq _ _)). Qed.

Lemma filter_absent (n : Z) (l : list Z) : n ∉ l → filter (.≠ n) l = l.
Proof.
  induction l as [|x l IH]; intros H; [done|]. rewrite filter_cons_True by set_solver.
  f_equal. apply IH. set_solver.
Qed.

(** ** Bucket chains *)

(** Every bucket's chain holds exactly the nodes [P] sends to it. *)
Record index_ok (f : Z → option Z) (heads : list Z) (P : Z → option nat) : Prop := mkIndexOk {
  io_length : length heads = INDEX_BUCKETS;
  io_chain : ∀ b h, heads !! b = Some h → ∃ l, chain f h l ∧ NoDup l ∧ ∀ n, n ∈ l ↔ P n = Some b;
}.

Lemma index_ok_ext f g heads P Q :
  (∀ n, is_Some (P n) → f n = g n) → (∀ n, P n = Q n) → index_ok f heads P → index_ok g heads Q.
Proof.
  intros Hf HP [Hl Hc]. constructor; [done|]. intros b h Hb. destruct (Hc b h Hb) as (l & Hch & Hnd & Hin).
  exists l. split_and!; [|done|intros n; by rewrite <-HP].
  eapply chain_ext; [|done]. intros n Hn. apply Hf. rewrite (proj1 (Hin n) Hn). by eexists.
Qed.

Lemma index_ok_link f heads P b h n :
  index_ok f heads P → heads !! b = Some h → P n = None → n ≠ INDEX_NONE →
  index_ok (upd n (Some h) f) (<[b := n]> heads) (upd n (Some b) P).
Proof.
  intros [Hl Hc] Hb HP Hn. constructor; [by rewrite length_insert|].
  intros b' h' [(<- & <- & _)|[Hne Hb']]%list_lookup_insert_Some.
  - destruct (Hc b h Hb) as (l & Hch & Hnd & Hin). exists (n :: l).
    assert (n ∉ l) as Hnl by (rewrite Hin; congruence). split_and!.
    + econstructor; [done|apply upd_same|]. eapply chain_ext; [|exact Hch].
      intros m Hm. rewrite upd_other; [done|]. set_solver.
    + by constructor.
    + intros m. rewrite elem_of_cons. destruct (decide (m = n)) as [->|Hm]; [rewrite upd_same; tauto|].
      rewrite upd_other by done. rewrite Hin. tauto.
  - destruct (Hc b' h' Hb') as (l & Hch & Hnd & Hin). exists l. split_and!; [|done|].
    + eapply chain_ext; [|exact Hch]. intros m Hm. rewrite upd_other; [done|]. intros ->.
      apply Hin in Hm. congruence.
    + intros m. rewrite Hin. destruct (decide (m = n)) as [->|Hm]; [|by rewrite upd_other].
      rewrite upd_same, HP. split; [done|]. intros [= ->]. done.
Qed.

(** Dropping [n] from the front of its chain. *)
Lemma index_ok_unlink_head f heads P b n :
  index_ok f heads P → heads !! b = Some n → P n = Some b →
  ∃ after, f n = Some after ∧ index_ok f (<[b := after]> heads) (upd n None P).
Proof.
  intros [Hl Hc] Hb HP. destruct (Hc b n Hb) as (l & Hch & Hnd & Hin).
  inversion Hch as [|? after l' Hn Hf Hch' Hnn]; subst; [apply Hin in HP; set_solver|].
  apply NoDup_cons in Hnd as [Hnl Hnd]. exists after. split; [done|].
  constructor; [by rewrite length_insert|].
  intros b' h' [(<- & <- & _)|[Hne Hb']]%list_lookup_insert_Some.
  - exists l'. split_and!; [done..|]. intros m. destruct (decide (m = n)) as [->|Hm].
    + rewrite upd_same. split; [done|congruence].
    + rewrite upd_other, <-Hin by done. set_solver.
  - destruct (Hc b' h' Hb') as (l & Hch2 & Hnd2 & Hin2). exists l. split_and!; [done..|].
    intros m. rewrite Hin2. destruct (decide (m = n)) as [->|Hm]; [|by rewrite upd_other].
    rewrite upd_same, HP. split; [by intros [= ->]|done].
Qed.

(** Dropping [n] from the middle of its chain. *)
Lemma index_ok_unlink_mid f heads P b h n l p after :
  index_ok f heads P → heads !! b = Some h → P n = Some b →
  NoDup l → (∀ m, m ∈ l ↔ P m = Some b) → p ∈ l → chain (upd p (Some after) f) h (filter (.≠ n) l) →
  index_ok (upd p (Some after) f) heads (upd n None P).
Proof.
  intros [Hl Hc] Hb HP Hnd Hin Hp Hch. apply Hin in Hp as HPp.
  constructor; [done|]. intros b' h' Hb'. destruct (decide (b' = b)) as [->|Hbb].
  - simplify_eq. exists (filter (.≠ n) l). split_and!; [done|by apply NoDup_filter|].
    intros m. rewrite list_elem_of_filter, Hin. destruct (decide (m = n)) as [->|Hm].
    + rewrite upd_same. split; [by intros []|done].
    + rewrite upd_other by done. tauto.
  - destruct (Hc b' h' Hb') as (l2 & Hch2 & Hnd2 & Hin2). exists l2. split_and!; [|done|].
    + eapply chain_ext; [|exact Hch2]. intros m Hm. rewrite upd_other; [done|]. intros ->.
      apply Hin2 in Hm. congruence.
    + intros m. rewrite Hin2. destruct (decide (m = n)) as [->|Hm]; [|by rewrite upd_other].
      rewrite upd_same, HP. split; [by intros [= ->]|done].
Qed.

(** ** Nodes *)

Lemma node_code_val s l : (s < MAX_INDEXED)%nat → (l < ROLES)%nat → node_code s l = 5 * Z.of_nat s + Z.of_nat l.
Proof.
  unfold node_code, MAX_INDEXED, ROLES. intros Hs Hl. unfold as_u16. rewrite wrap_small; [lia|]. unfold in_width. lia.
Qed.

Lemma node_slot_code s l : (s < MAX_INDEXED)%nat → (l < ROLES)%nat → node_slot (node_code s l) = s.
Proof.
  intros Hs Hl. rewrite node_code_val by done. unfold node_slot, ROLES in *.
  rewrite Z.mul_comm, Z.div_add_l, Z.div_small by lia. lia.
Qed.

Lemma node_lane_code s l : (s < MAX_INDEXED)%nat → (l < ROLES)%nat → node_lane (node_code s l) = l.
Proof.
  intros Hs Hl. rewrite node_code_val by done. unfold node_lane, ROLES in *.
  rewrite Z.add_comm, Z.mul_comm, Z.mod_add, Z.mod_small by lia. lia.
Qed.

Lemma node_inj m n : 0 <= m → 0 <= n → node_slot m = node_slot n → node_lane m = node_lane n → m = n.
Proof.
  unfold node_slot, node_lane. intros Hm Hn Hs Hl.
  pose proof (Z.div_pos m 5) as ?. pose proof (Z.div_pos n 5) as ?.
  pose proof (Z.mod_pos_bound m 5) as ?. pose proof (Z.mod_pos_bound n 5) as ?.
  rewrite (Z.div_mod m 5), (Z.div_mod n 5) by lia. lia.
Qed.

Lemma node_lane_lt n : (node_lane n < ROLES)%nat.
Proof. unfold node_lane, ROLES. pose proof (Z.mod_pos_bound n 5). lia. Qed.

(** A node of a table with [k] slots. *)
Definition node_in (k : nat) (n : Z) : Prop := 0 <= n ∧ (node_slot n < k)%nat.

Lemma node_in_range k n : node_in k n → 0 <= n < 5 * Z.of_nat k.
Proof.
  intros [Hn Hs]. unfold node_slot in Hs. split; [done|].
  pose proof (Z.div_mod n 5). pose proof (Z.mod_pos_bound n 5). pose proof (Z.div_pos n 5). lia.
Qed.

Lemma node_code_in k s l : (s < k)%nat → (k <= MAX_INDEXED)%nat → (l < ROLES)%nat → node_in k (node_code s l).
Proof.
  intros Hs Hk Hl. split; [|by rewrite node_slot_code by lia]. rewrite node_code_val by lia. lia.
Qed.

Lemma node_not_none k n : (k <= MAX_INDEXED)%nat → node_in k n → n ≠ INDEX_NONE.
Proof. intros Hk Hn%node_in_range. unfold MAX_INDEXED, INDEX_NONE, U16_MAX in *. lia. Qed.

Lemma nodes_length k l : NoDup l → (∀ n, n ∈ l → node_in k n) → (length l <= k * ROLES)%nat.
Proof.
  intros Hnd Hin. transitivity (length (Z.of_nat <$> seq 0 (k * ROLES))); [|by rewrite length_fmap, length_seq].
  apply submseteq_length, NoDup_submseteq; [done|]. intros n Hn. specialize (Hin n Hn). apply node_in_range in Hin.
  apply list_elem_of_fmap. exists (Z.to_nat n). split; [lia|]. apply elem_of_seq. unfold ROLES. lia.
Qed.

Section arrays.
Context {C : Type}.
Implicit Types (sl : list (TableSlot C)).

(** Two rows of five links in every slot. *)
Definition shape sl : Prop :=
  Forall (λ s, ∃ a b, links s = [a; b] ∧ length a = ROLES ∧ length b = ROLES) sl.

Lemma shape_lookup sl i s plane :
  shape sl → sl !! i = Some s → (plane < 2)%nat → ∃ row, links s !! plane = Some row ∧ length row = ROLES.
Proof.
  intros Hs Hi Hp. destruct (Forall_lookup_1 _ _ _ _ Hs Hi) as (a & b & -> & Ha & Hb).
  destruct plane as [|[|]]; simpl; [eauto..|lia].
Qed.

(** What differs is the links of one plane. *)
Record links_only (plane : nat) (sl sl' : list (TableSlot C)) : Prop := mkLinksOnly {
  lo_contents : operation <$> sl' = operation <$> sl;
  lo_free : free_next <$> sl' = free_next <$> sl;
  lo_shape : shape sl';
  lo_links : ∀ p m, p ≠ plane → link_of p m sl' = link_of p m sl;
}.

Lemma links_only_length plane sl sl' : links_only plane sl sl' → length sl' = length sl.
Proof. intros H. rewrite <-(length_fmap operation sl'), (lo_contents _ _ _ H). apply length_fmap. Qed.

Lemma links_only_refl plane sl : shape sl → links_only plane sl sl.
Proof. by constructor. Qed.

Lemma link_of_Some sl plane n : shape sl → (plane < 2)%nat → node_in (length sl) n → is_Some (link_of plane n sl).
Proof.
  intros Hs Hp [_ Hn]. unfold link_of. destruct (lookup_lt_is_Some_2 _ _ Hn) as [s Hi]. rewrite Hi. simpl.
  destruct (shape_lookup _ _ _ plane Hs Hi Hp) as (row & -> & Hr). simpl.
  apply lookup_lt_is_Some_2. rewrite Hr. apply node_lane_lt.
Qed.

Lemma set_link_ok sl plane n v :
  shape sl → (plane < 2)%nat → node_in (length sl) n →
  ∃ sl', set_link plane n v sl = Some sl' ∧ links_only plane sl sl' ∧
    ∀ m, 0 <= m → link_of plane m sl' = upd n (Some v) (λ m, link_of plane m sl) m.
Proof.
  intros Hs Hp [Hn0 Hn]. unfold set_link. destruct (lookup_lt_is_Some_2 _ _ Hn) as [s Hi]. rewrite Hi. simpl.
  destruct (shape_lookup _ _ _ plane Hs Hi Hp) as (row & Hrow & Hr). rewrite Hrow. simpl.
  destruct (lookup_lt_is_Some_2 row (node_lane n)) as [old Hold]; [rewrite Hr; apply node_lane_lt|].
  rewrite Hold. simpl. eexists. split; [done|].
  assert (plane < length (links s))%nat as Hpl by (by eapply lookup_lt_Some). split; [constructor|].
  - rewrite list_fmap_insert. simpl. apply list_insert_id. by rewrite list_lookup_fmap, Hi.
  - rewrite list_fmap_insert. simpl. apply list_insert_id. by rewrite list_lookup_fmap, Hi.
  - apply Forall_insert; [done|]. simpl. destruct (Forall_lookup_1 _ _ _ _ Hs Hi) as (a & b & E & Ha & Hb).
    rewrite E in *. destruct plane as [|[|]]; simplify_eq/=;
      eexists _, _; split_and!; try done; by rewrite length_insert.
  - intros p m Hne. unfold link_of. destruct (decide (node_slot m = node_slot n)) as [->|Hm].
    + rewrite list_lookup_insert_eq, Hi by done. simpl. by rewrite list_lookup_insert_ne.
    + by rewrite list_lookup_insert_ne.
  - intros m Hm0. unfold link_of. destruct (decide (m = n)) as [->|Hmn].
    + rewrite upd_same, list_lookup_insert_eq by done. simpl. rewrite list_lookup_insert_eq by done. simpl.
      rewrite list_lookup_insert_eq; [done|]. rewrite Hr. apply node_lane_lt.
    + rewrite upd_other by done. destruct (decide (node_slot m = node_slot n)) as [E|Hm].
      * rewrite E, list_lookup_insert_eq, Hi by done. simpl. rewrite list_lookup_insert_eq, Hrow by done. simpl.
        apply list_lookup_insert_ne. intros El. apply Hmn. by apply node_inj.
      * by rewrite list_lookup_insert_ne.
Qed.

(** ** Linking and unlinking in the array *)

Record index_at (plane : nat) sl (heads : list Z) (P : Z → option nat) : Prop := mkIndexAt {
  ia_index : index_ok (λ m, link_of plane m sl) heads P;
  ia_nodes : ∀ n b, P n = Some b → node_in (length sl) n;
}.

Lemma index_at_ext plane sl sl' heads P Q :
  length sl' = length sl → (∀ n, link_of plane n sl' = link_of plane n sl) → (∀ n, P n = Q n) →
  index_at plane sl heads P → index_at plane sl' heads Q.
Proof.
  intros Hl Hs HP [Hi Hn]. constructor.
  - eapply index_ok_ext; [|exact HP|exact Hi]. intros n _. symmetry. apply Hs.
  - intros n b Hb. rewrite Hl. apply (Hn n b). by rewrite HP.
Qed.

(** The nodes whose links the walk reads are nodes of the table. *)
Lemma index_ok_relink plane sl sl' heads P Q f :
  length sl' = length sl → (∀ n b, Q n = Some b → node_in (length sl) n) →
  (∀ m, 0 <= m → link_of plane m sl' = f m) → index_ok f heads Q → (∀ n, Q n = P n) → index_at plane sl' heads P.
Proof.
  intros Hl Hn Hf Hi HQ. constructor.
  - eapply index_ok_ext; [|exact HQ|exact Hi]. intros n [b Hb]. symmetry. apply Hf. by apply (Hn n b).
  - intros n b Hb. rewrite Hl. apply (Hn n b). by rewrite HQ.
Qed.

Lemma bucket_head heads P f b : index_ok f heads P → (b < INDEX_BUCKETS)%nat → ∃ h, heads !! b = Some h.
Proof. intros Hi Hb. apply lookup_lt_is_Some_2. by rewrite (io_length _ _ _ Hi). Qed.

Lemma chain_link_ok plane sl heads P b n :
  shape sl → (plane < 2)%nat → (length sl <= MAX_INDEXED)%nat → index_at plane sl heads P →
  node_in (length sl) n → P n = None → (b < INDEX_BUCKETS)%nat →
  ∃ heads' sl', chain_link plane b n heads sl = Some (heads', sl') ∧ links_only plane sl sl' ∧
    index_at plane sl' heads' (upd n (Some b) P).
Proof.
  intros Hs Hp Hk [Hi Hin] Hn HP Hb. destruct (bucket_head _ _ _ _ Hi Hb) as [h Hh].
  unfold chain_link. rewrite Hh. simpl. destruct (set_link_ok sl plane n h Hs Hp Hn) as (sl' & -> & Hlo & Hlink).
  simpl. eexists _, _. split_and!; [done..|].
  eapply index_ok_relink; [by apply (links_only_length plane)| |exact Hlink| |done].
  - intros m b'. destruct (decide (m = n)) as [->|Hm]; [done|]. rewrite upd_other by done. apply Hin.
  - apply index_ok_link; [done..|]. by apply (node_not_none (length sl)).
Qed.

(** The walk finds the predecessor of [n] and links it to what follows [n]. *)
Lemma unlink_after_ok plane sl prev l n fuel :
  chain (λ m, link_of plane m sl) prev l → NoDup l → n ∈ l → prev ≠ n → (length l < fuel)%nat →
  ∃ p after, p ∈ l ∧ unlink_after fuel plane n prev sl = set_link plane p after sl ∧
    chain (upd p (Some after) (λ m, link_of plane m sl)) prev (filter (.≠ n) l).
Proof.
  intros Hc. revert fuel. induction Hc as [|x m l Hx Hf Hc IH]; intros [|fuel] Hnd Hin Hne Hlen;
    simpl in Hlen; try lia; [set_solver|].
  apply NoDup_cons in Hnd as [Hxl Hnd]. apply elem_of_cons in Hin as [->|Hin]; [done|]. simpl.
  rewrite (proj2 (Z.eqb_neq _ _)) by done. rewrite Hf. simpl. rewrite filter_cons_True by done.
  destruct (m =? n) eqn:E; bprop.
  - subst m. inversion Hc as [|? after l' Hn Hfn Hc']; subst; [set_solver|].
    apply NoDup_cons in Hnd as [Hnl' Hnd]. exists x, after. rewrite Hfn. split_and!; [left|done|].
    rewrite filter_cons_False by auto. econstructor; [done|apply upd_same|]. rewrite filter_absent by done.
    eapply chain_ext; [|exact Hc']. intros y Hy. rewrite upd_other; [done|]. set_solver.
  - destruct (IH fuel Hnd Hin E) as (p & after & Hp & -> & Hc'); [lia|]. exists p, after.
    split_and!; [by right|done|]. econstructor; [done| |exact Hc']. rewrite upd_other; [done|]. set_solver.
Qed.

Lemma chain_unlink_ok plane sl heads P b n :
  shape sl → (plane < 2)%nat → index_at plane sl heads P → P n = Some b → (b < INDEX_BUCKETS)%nat →
  ∃ heads' sl', chain_unlink plane b n heads sl = Some (heads', sl') ∧ links_only plane sl sl' ∧
    index_at plane sl' heads' (upd n None P).
Proof.
  intros Hs Hp [Hi Hin] HP Hb. destruct (bucket_head _ _ _ _ Hi Hb) as [h Hh].
  assert (∀ m b', upd n None P m = Some b' → node_in (length sl) m) as Hin'.
  { intros m b'. destruct (decide (m = n)) as [->|Hm]; [by rewrite upd_same|].
    rewrite upd_other by done. apply Hin. }
  unfold chain_unlink. rewrite Hh. cbn [mbind option_bind]. destruct (h =? n) eqn:E; bprop.
  - subst h. destruct (index_ok_unlink_head _ _ _ _ _ Hi Hh HP) as (after & Ha & Hi'). rewrite Ha. simpl.
    eexists _, _. split_and!; [done|by apply links_only_refl|by constructor].
  - destruct (io_chain _ _ _ Hi b h Hh) as (l & Hch & Hnd & Hl).
    destruct (unlink_after_ok plane sl h l n (walk_fuel sl) Hch Hnd) as (q & after & Hq & -> & Hch'); [by apply Hl|done|..].
    { unfold walk_fuel. pose proof (nodes_length (length sl) l Hnd). 
      assert (∀ m, m ∈ l → node_in (length sl) m) as Hlin by (intros m Hm; apply (Hin m b), Hl, Hm).
      specialize (H Hlin). lia. }
    destruct (set_link_ok sl plane q after Hs Hp) as (sl' & -> & Hlo & Hlink); [by apply (Hin q b), Hl|].
    simpl. eexists _, _. split_and!; [done..|].
    eapply index_ok_relink; [by apply (links_only_length plane)|exact Hin'|exact Hlink| |done].
    by eapply index_ok_unlink_mid.
Qed.

(** ** Walking a chain *)

Definition node_has sl (found : nat → Operation C → bool) (n : Z) : bool :=
  match sl !! node_slot n with Some slot => slot_has (found (node_lane n)) slot | None => false end.

Lemma chain_find_ok plane sl found h l fuel :
  chain (λ m, link_of plane m sl) h l → (∀ n, n ∈ l → node_in (length sl) n) → (length l < fuel)%nat →
  chain_find fuel plane found h sl = Some (node_slot <$> List.find (node_has sl found) l).
Proof.
  intros Hc. revert fuel. induction Hc as [|x m l Hx Hf Hc IH]; intros [|fuel] Hin Hlen; simpl in *; try lia; [done|].
  rewrite (proj2 (Z.eqb_neq _ _)) by done. destruct (Hin x) as [_ Hs]; [left|].
  destruct (lookup_lt_is_Some_2 _ _ Hs) as [s Es]. unfold node_has at 1. rewrite Es. simpl.
  destruct (slot_has _ s); [done|]. rewrite Hf. simpl. apply IH; [|lia]. intros n Hn. apply Hin. by right.
Qed.

(** An indexed lookup: it ends, and finds a node [P] sends to the bucket. *)
Lemma index_find_ok plane sl heads P b found :
  index_at plane sl heads P → (b < INDEX_BUCKETS)%nat →
  ∃ h, heads !! b = Some h ∧
  ((chain_find (walk_fuel sl) plane found h sl = Some None ∧ ∀ n, P n = Some b → node_has sl found n = false) ∨
   ∃ n, chain_find (walk_fuel sl) plane found h sl = Some (Some (node_slot n)) ∧ P n = Some b ∧ node_has sl found n = true).
Proof.
  intros [Hi Hin] Hb. destruct (bucket_head _ _ _ _ Hi Hb) as [h Hh]. exists h. split; [done|].
  destruct (io_chain _ _ _ Hi b h Hh) as (l & Hch & Hnd & Hl).
  assert (∀ m, m ∈ l → node_in (length sl) m) as Hlin by (intros m Hm; apply (Hin m b), Hl, Hm).
  rewrite (chain_find_ok plane sl found h l) by
    (done || unfold walk_fuel; pose proof (nodes_length (length sl) l Hnd Hlin); lia).
  destruct (List.find _ l) as [n|] eqn:E; simpl.
  - right. exists n. apply find_some in E as [Hn Hf]. split_and!; [done| |done]. by apply Hl, list_elem_of_In.
  - left. split; [done|]. intros n Hn. apply (find_none _ _ E), list_elem_of_In, Hl, Hn.
Qed.
End arrays.
