(* ===== verification/ReservationState.v ===== *)
(** * The reservation table: contents and index together

    The two halves of a table state, what it holds and how its index is linked, and the
    effect of every primitive step of [src/semantics_objects/journal/reservations.rs] on
    each. *)
From S2P Require Import Prelude Reservations ReservationIndex.

Section state.
Context {C : Type}.
Implicit Types (sl : list (TableSlot C)) (t : ReservationTable C) (K I : Z → option nat) (V : nat → Prop).

Definition contents t : list (option (Operation C)) := operation <$> slots t.

Lemma contents_length t : length (contents t) = length (slots t).
Proof. apply length_fmap. Qed.

(** ** The free list *)

Definition free_at sl (head : Z) V : Prop :=
  ∃ l, chain (λ n, free_next <$> sl !! Z.to_nat n) head l ∧ NoDup l ∧
    ∀ n, n ∈ l ↔ 0 <= n < Z.of_nat (length sl) ∧ V (Z.to_nat n).

Lemma free_at_ext sl sl' head V V' :
  free_next <$> sl' = free_next <$> sl → (∀ i, V i ↔ V' i) → free_at sl head V → free_at sl' head V'.
Proof.
  intros Hf HV (l & Hc & Hnd & Hl). assert (length sl' = length sl) as Hlen
    by (rewrite <-(length_fmap free_next sl'), Hf; apply length_fmap).
  exists l. split_and!; [|done|intros n; by rewrite Hl, Hlen, HV].
  eapply chain_ext; [|exact Hc]. intros n _. by rewrite <-!list_lookup_fmap, Hf.
Qed.

(** Only the free links differ. *)
Record free_only sl sl' : Prop := mkFreeOnly {
  fo_contents : operation <$> sl' = operation <$> sl;
  fo_links : links <$> sl' = links <$> sl;
}.

Lemma free_only_set sl i s v : sl !! i = Some s → free_only sl (<[i := set_free_next v s]> sl).
Proof.
  intros Hi. constructor; rewrite list_fmap_insert; simpl; apply list_insert_id; by rewrite list_lookup_fmap, Hi.
Qed.

Lemma free_only_length sl sl' : free_only sl sl' → length sl' = length sl.
Proof. intros H. rewrite <-(length_fmap links sl'), (fo_links _ _ H). apply length_fmap. Qed.

Lemma free_pop_ok sl head V :
  (length sl <= MAX_INDEXED)%nat → free_at sl head V →
  (free_pop head sl = Some (None, head, sl) ∧ ∀ i, (i < length sl)%nat → ¬ V i) ∨
  ∃ i head' sl', free_pop head sl = Some (Some i, head', sl') ∧ (i < length sl)%nat ∧ V i ∧ free_only sl sl' ∧
    free_at sl' head' (λ j, V j ∧ j ≠ i).
Proof.
  intros Hk (l & Hc & Hnd & Hl). unfold free_pop. inversion Hc as [|n m l' Hn Hf Hc']; subst; simpl.
  - left. split; [done|]. intros i Hi HV. cut (Z.of_nat i ∈ @nil Z); [set_solver|].
    apply Hl. rewrite Nat2Z.id. split; [lia|done].
  - right. rewrite (proj2 (Z.eqb_neq _ _)) by done. destruct (proj1 (Hl head)) as [Hr HV]; [left|].
    destruct (sl !! Z.to_nat head) as [s|] eqn:Es; [|done]. injection Hf as Hf. simpl. rewrite Hf.
    apply NoDup_cons in Hnd as [Hhl Hnd]. eexists _, _, _. split_and!; [done|lia|done|by apply free_only_set|].
    exists l'. split_and!; [|done|].
    + eapply chain_ext; [|exact Hc']. intros x Hx. rewrite list_lookup_insert_ne; [done|].
      intros Heq. apply Hhl. destruct (proj1 (Hl x)) as [Hx' _]; [by right|]. by replace head with x by lia.
    + intros x. rewrite length_insert. destruct (decide (x = head)) as [->|Hx].
      * split; [done|]. intros (_ & _ & []). done.
      * split.
        -- intros Hin. destruct (proj1 (Hl x)) as [? ?]; [by right|]. split_and!; [lia..|done|lia].
        -- intros (Hr' & HV' & _). assert (x ∈ head :: l') as Hin by (by apply Hl). set_solver.
Qed.

Lemma free_push_ok sl head V i :
  (length sl <= MAX_INDEXED)%nat → free_at sl head V → (i < length sl)%nat → ¬ V i →
  ∃ head' sl', free_push head sl i = Some (head', sl') ∧ free_only sl sl' ∧ free_at sl' head' (λ j, V j ∨ j = i).
Proof.
  intros Hk (l & Hc & Hnd & Hl) Hi HV. unfold free_push, MAX_INDEXED in *.
  destruct (lookup_lt_is_Some_2 _ _ Hi) as [s Es]. rewrite Es. simpl.
  unfold as_u16. rewrite wrap_small by (unfold in_width; lia).
  assert (Z.of_nat i ∉ l) as Hil by (rewrite Hl, Nat2Z.id; tauto).
  eexists _, _. split_and!; [done|by apply free_only_set|]. exists (Z.of_nat i :: l). split_and!.
  - econstructor; [unfold INDEX_NONE, U16_MAX; lia| |].
    + rewrite Nat2Z.id, list_lookup_insert_eq by done. done.
    + eapply chain_ext; [|exact Hc]. intros x Hx. rewrite list_lookup_insert_ne; [done|].
      intros ->. apply Hil. destruct (proj1 (Hl x) Hx). by rewrite Z2Nat.id by lia.
  - by constructor.
  - intros x. rewrite elem_of_cons, Hl, length_insert. split.
    + intros [->|[? ?]]; [rewrite Nat2Z.id; split; [lia|by right]|split; [lia|by left]].
    + intros [? [?|Hx]]; [by right|left; lia].
Qed.

(** ** The index of a table *)

Record idx_ok t K I V : Prop := mkIdx {
  ix_small : (length (slots t) <= MAX_INDEXED)%nat;
  ix_shape : shape (slots t);
  ix_keys : index_at KEY_LINKS (slots t) (key_heads t) K;
  ix_ids : index_at ID_LINKS (slots t) (id_heads t) I;
  ix_free : free_at (slots t) (free_head t) V;
}.

(** A table past [MAX_INDEXED] keeps no index. *)
Definition idx t K I V : Prop := indexed t = true → idx_ok t K I V.

Lemma idx_ext t K I V K' I' V' :
  (∀ n, K n = K' n) → (∀ n, I n = I' n) → (∀ i, V i ↔ V' i) → idx t K I V → idx t K' I' V'.
Proof.
  intros HK HI HV H Hx. destruct (H Hx) as [Hs Hsh Hk Hi Hf]. constructor; try done.
  - by eapply index_at_ext.
  - by eapply index_at_ext.
  - by eapply free_at_ext.
Qed.

(** The index does not see the counters. *)
Lemma idx_frame t t' K I V :
  slots t' = slots t → key_heads t' = key_heads t → id_heads t' = id_heads t → free_head t' = free_head t →
  idx t K I V → idx t' K I V.
Proof.
  intros Hs Hk Hi Hf H Hx. unfold indexed in Hx. rewrite Hs in Hx. destruct (H Hx) as [? ? ? ? ?].
  constructor; by rewrite ?Hs, ?Hk, ?Hi, ?Hf.
Qed.

(** The data of a table: everything but the index. *)
Record same_data t t' : Prop := mkSame {
  sd_contents : contents t' = contents t;
  sd_next : next t' = next t;
  sd_live : live t' = live t;
  sd_bytes : bytes t' = bytes t;
  sd_populations : populations t' = populations t;
}.

#[local] Instance same_data_preorder : PreOrder same_data.
Proof. split; [done|]. intros a b c [] []. constructor; congruence. Qed.

Lemma same_length t t' : contents t' = contents t → length (slots t') = length (slots t).
Proof. intros H. by rewrite <-!contents_length, H. Qed.

Lemma same_indexed t t' : contents t' = contents t → indexed t' = indexed t.
Proof. intros H. unfold indexed. by rewrite (same_length _ _ H). Qed.

(** A step that changes only the index. *)
Definition index_step (m : Table C ()) t K I V : Prop :=
  ∃ t', m t = (inr tt, t') ∧ same_data t t' ∧ idx_ok t' K I V.

Lemma index_bind m m' t K I V K' I' V' :
  index_step m t K I V → (∀ t', same_data t t' → idx_ok t' K I V → index_step m' t' K' I' V') →
  index_step (m ;; m') t K' I' V'.
Proof.
  intros (t1 & Hm & Hs & Hi) Hk. destruct (Hk t1 Hs Hi) as (t2 & Hm' & Hs' & Hi').
  exists t2. split_and!; [by rewrite (bind_ok _ _ _ _ _ Hm)|by etrans|done].
Qed.

Lemma when_indexed_ok m t K I V K' I' V' :
  idx t K I V → (idx_ok t K I V → index_step m t K' I' V') →
  ∃ t', when_indexed m t = (inr tt, t') ∧ same_data t t' ∧ idx t' K' I' V'.
Proof.
  intros Hi Hm. unfold when_indexed. rewrite (bind_ok _ _ t t t) by done. destruct (indexed t) eqn:E.
  - destruct (Hm (Hi E)) as (t' & Ht & Hs & Hi'). exists t'. split_and!; [done..|]. by intros _.
  - exists t. split_and!; [done..|]. unfold idx. by rewrite E.
Qed.

(** A chain operation that relinks one plane. *)
Lemma key_chain_step f t K I V K' :
  idx_ok t K I V →
  (∃ heads' sl', f (key_heads t) (slots t) = Some (heads', sl') ∧ links_only KEY_LINKS (slots t) sl' ∧
    index_at KEY_LINKS sl' heads' K') →
  index_step (on_key_chains f) t K' I V.
Proof.
  intros [Hs Hsh Hk Hi Hf] (heads' & sl' & Hfe & Hlo & Hix). unfold on_key_chains.
  eexists. split; [rewrite (bind_ok _ _ t t t) by done; unfold or_panic, mbind, se_mbind, se_bind, modify; by rewrite Hfe|].
  simpl. pose proof (links_only_length _ _ _ Hlo) as Hlen. destruct Hlo as [Hc Hfr Hsh' Hl].
  split; [by constructor|]. constructor; simpl; [by rewrite Hlen|done..| |].
  - eapply index_at_ext; [exact Hlen|intros n; by apply Hl|done|done].
  - by eapply free_at_ext.
Qed.

Lemma id_chain_step f t K I V I' :
  idx_ok t K I V →
  (∃ heads' sl', f (id_heads t) (slots t) = Some (heads', sl') ∧ links_only ID_LINKS (slots t) sl' ∧
    index_at ID_LINKS sl' heads' I') →
  index_step (on_id_chains f) t K I' V.
Proof.
  intros [Hs Hsh Hk Hi Hf] (heads' & sl' & Hfe & Hlo & Hix). unfold on_id_chains.
  eexists. split; [rewrite (bind_ok _ _ t t t) by done; unfold or_panic, mbind, se_mbind, se_bind, modify; by rewrite Hfe|].
  simpl. pose proof (links_only_length _ _ _ Hlo) as Hlen. destruct Hlo as [Hc Hfr Hsh' Hl].
  split; [by constructor|]. constructor; simpl; [by rewrite Hlen|done| |done|].
  - eapply index_at_ext; [exact Hlen|intros n; by apply Hl|done|done].
  - by eapply free_at_ext.
Qed.

Lemma key_bucket_lt lane key : (key_bucket lane key < INDEX_BUCKETS)%nat.
Proof. unfold key_bucket, INDEX_BUCKETS. pose proof (Z.mod_pos_bound (index_hash [Z.of_nat lane; namespace key; value key]) (Z.of_nat 1024)). lia. Qed.

Lemma id_bucket_lt id : (id_bucket id < INDEX_BUCKETS)%nat.
Proof. unfold id_bucket, INDEX_BUCKETS. pose proof (Z.mod_pos_bound (index_hash [id]) (Z.of_nat 1024)). lia. Qed.

Lemma link_key_ok t K I V at_ lane key :
  idx_ok t K I V → (at_ < length (slots t))%nat → (lane < ROLES)%nat → K (node_code at_ lane) = None →
  index_step (link_key at_ lane key) t (upd (node_code at_ lane) (Some (key_bucket lane key)) K) I V.
Proof.
  intros Hix Ha Hl HK. apply (key_chain_step _ _ _ _ _ _ Hix). destruct Hix as [Hs Hsh Hk Hi Hf].
  apply chain_link_ok; try done; [unfold KEY_LINKS; lia|by apply node_code_in|apply key_bucket_lt].
Qed.

Lemma unlink_key_ok t K I V at_ lane key :
  idx_ok t K I V → K (node_code at_ lane) = Some (key_bucket lane key) →
  index_step (unlink_key at_ lane key) t (upd (node_code at_ lane) None K) I V.
Proof.
  intros Hix HK. apply (key_chain_step _ _ _ _ _ _ Hix). destruct Hix as [Hs Hsh Hk Hi Hf].
  apply chain_unlink_ok; try done; [unfold KEY_LINKS; lia|apply key_bucket_lt].
Qed.

Lemma link_id_ok t K I V at_ lane id :
  idx_ok t K I V → (at_ < length (slots t))%nat → (lane < ROLES)%nat → I (node_code at_ lane) = None →
  index_step (link_id at_ lane id) t K (upd (node_code at_ lane) (Some (id_bucket id)) I) V.
Proof.
  intros Hix Ha Hl HK. apply (id_chain_step _ _ _ _ _ _ Hix). destruct Hix as [Hs Hsh Hk Hi Hf].
  apply chain_link_ok; try done; [unfold ID_LINKS; lia|by apply node_code_in|apply id_bucket_lt].
Qed.

Lemma unlink_id_ok t K I V at_ lane id :
  idx_ok t K I V → I (node_code at_ lane) = Some (id_bucket id) →
  index_step (unlink_id at_ lane id) t K (upd (node_code at_ lane) None I) V.
Proof.
  intros Hix HK. apply (id_chain_step _ _ _ _ _ _ Hix). destruct Hix as [Hs Hsh Hk Hi Hf].
  apply chain_unlink_ok; try done; [unfold ID_LINKS; lia|apply id_bucket_lt].
Qed.

Lemma shape_links sl sl' : links <$> sl' = links <$> sl → shape sl → shape sl'.
Proof.
  unfold shape. intros H Hs. rewrite <-(Forall_fmap links (λ x, ∃ a b, x = [a; b] ∧ length a = ROLES ∧ length b = ROLES)) in Hs |- *.
  by rewrite H.
Qed.

Lemma link_of_links sl sl' plane n : links <$> sl' = links <$> sl → link_of plane n sl' = link_of plane n sl.
Proof.
  intros H. unfold link_of. assert (links <$> sl' !! node_slot n = links <$> sl !! node_slot n) as Hn
    by (by rewrite <-!list_lookup_fmap, H).
  destruct (sl' !! _), (sl !! _); simplify_eq/=; [congruence|done..].
Qed.

Lemma free_only_idx t sl' head K I V V' :
  idx_ok t K I V → free_only (slots t) sl' → free_at sl' head V' →
  idx_ok (set_slots (λ _, sl') (set_free_head (λ _, head) t)) K I V' ∧
  same_data t (set_slots (λ _, sl') (set_free_head (λ _, head) t)).
Proof.
  intros [Hs Hsh Hk Hi Hf] Hfo Hfree. pose proof (free_only_length _ _ Hfo) as Hlen. destruct Hfo as [Hc Hl].
  split; constructor; simpl; try done; [by rewrite Hlen|by eapply shape_links|..];
    (eapply index_at_ext; [exact Hlen|intros n; by apply link_of_links|done|done]).
Qed.

Lemma push_free_ok t K I V at_ :
  idx_ok t K I V → (at_ < length (slots t))%nat → ¬ V at_ → index_step (push_free at_) t K I (λ j, V j ∨ j = at_).
Proof.
  intros Hix Ha HV. destruct (free_push_ok _ _ _ at_ (ix_small _ _ _ _ Hix) (ix_free _ _ _ _ Hix) Ha HV)
    as (head' & sl' & Hp & Hfo & Hfree).
  destruct (free_only_idx t sl' head' K I V _ Hix Hfo Hfree) as [Hi' Hs'].
  eexists. split; [|split; [exact Hs'|exact Hi']]. unfold push_free. rewrite (bind_ok _ _ t t t) by done.
  unfold or_panic, mbind, se_mbind, se_bind, modify. by rewrite Hp.
Qed.

Lemma pop_free_ok t K I V :
  idx_ok t K I V → (∃ i, (i < length (slots t))%nat ∧ V i) →
  ∃ at_ t', pop_free t = (inr (Some at_), t') ∧ same_data t t' ∧ (at_ < length (slots t))%nat ∧ V at_ ∧
    idx_ok t' K I (λ j, V j ∧ j ≠ at_).
Proof.
  intros Hix (i & Hi & HV). destruct (free_pop_ok _ _ _ (ix_small _ _ _ _ Hix) (ix_free _ _ _ _ Hix))
    as [[_ Hno]|(at_ & head' & sl' & Hp & Ha & HVa & Hfo & Hfree)]; [by destruct (Hno i Hi)|].
  destruct (free_only_idx t sl' head' K I V _ Hix Hfo Hfree) as [Hi' Hs'].
  exists at_. eexists. split_and!; [|exact Hs'|done|done|exact Hi'].
  unfold pop_free. rewrite (bind_ok _ _ t t t) by done. unfold or_panic, mbind, se_mbind, se_bind, modify. by rewrite Hp.
Qed.

(** ** Loops over nodes *)

Definition upds {A} (node : A → Z) (v : A → option nat) (xs : list A) (J : Z → option nat) : Z → option nat :=
  foldl (λ J x, upd (node x) (v x) J) J xs.

Lemma upds_other {A} (node : A → Z) v xs J n : n ∉ node <$> xs → upds node v xs J n = J n.
Proof.
  revert J. induction xs as [|x xs IH]; intros J Hn; [done|]. rewrite fmap_cons in Hn. simpl.
  rewrite IH by set_solver. apply upd_other. set_solver.
Qed.

Lemma upds_in {A} (node : A → Z) v xs J x : NoDup (node <$> xs) → x ∈ xs → upds node v xs J (node x) = v x.
Proof.
  revert J. induction xs as [|y xs IH]; intros J Hnd Hx; [set_solver|]. rewrite fmap_cons in Hnd.
  apply NoDup_cons in Hnd as [Hy Hnd]. simpl. apply elem_of_cons in Hx as [->|Hx]; [|by apply IH].
  unfold upds in *. fold (upds node v xs (upd (node y) (v y) J)). rewrite upds_other by done. apply upd_same.
Qed.

Lemma for_each_index {A} (f : A → Table C ()) (node : A → Z) v (pre : A → option nat)
    (P : (Z → option nat) → ReservationTable C → Prop) xs J t :
  (∀ x J t, x ∈ xs → P J t → J (node x) = pre x → ∃ t', f x t = (inr tt, t') ∧ same_data t t' ∧ P (upd (node x) (v x) J) t') →
  P J t → NoDup (node <$> xs) → (∀ x, x ∈ xs → J (node x) = pre x) →
  ∃ t', for_each f xs t = (inr tt, t') ∧ same_data t t' ∧ P (upds node v xs J) t'.
Proof.
  revert J t. induction xs as [|x xs IH]; intros J t Hstep HP Hnd Hpre; simpl; [by exists t|].
  rewrite fmap_cons in Hnd. apply NoDup_cons in Hnd as [Hx Hnd].
  destruct (Hstep x J t) as (t1 & Hf & Hs & HP1); [left|done|apply Hpre; left|].
  rewrite (bind_ok _ _ _ _ _ Hf). destruct (IH (upd (node x) (v x) J) t1) as (t2 & Hf2 & Hs2 & HP2); try done.
  - intros y J' t' Hy. apply Hstep. by right.
  - intros y Hy. rewrite upd_other; [apply Hpre; by right|]. intros E. apply Hx. rewrite <-E. by apply list_elem_of_fmap_2.
  - exists t2. split_and!; [done|by etrans|done].
Qed.

(** The node of an entry of slot [at_]. *)
Definition entry_node {A} (at_ : nat) (p : nat * A) : Z := node_code at_ (fst p).

Lemma entry_nodes_nodup {A} at_ (ps : list (nat * A)) :
  (at_ < MAX_INDEXED)%nat → NoDup (fst <$> ps) → (∀ p, p ∈ ps → (fst p < ROLES)%nat) → NoDup (entry_node at_ <$> ps).
Proof.
  intros Ha Hnd Hl. induction ps as [|p ps IH]; [constructor|]. rewrite fmap_cons in *.
  apply NoDup_cons in Hnd as [Hp Hnd]. constructor; [|apply IH; [done|intros q Hq; apply Hl; by right]].
  intros (q & He & Hq)%list_elem_of_fmap. apply Hp. apply list_elem_of_fmap. exists q. split; [|done].
  unfold entry_node in He. rewrite <-(node_lane_code at_ (fst p)), He, node_lane_code; auto; apply Hl; [by right|left].
Qed.

Lemma unlink_ids_ok t K I V at_ (ps : list (nat * Z)) :
  idx_ok t K I V → NoDup (entry_node at_ <$> ps) → (∀ p, p ∈ ps → I (entry_node at_ p) = Some (id_bucket (snd p))) →
  index_step (for_each (λ p, unlink_id at_ (fst p) (snd p)) ps) t K (upds (entry_node at_) (λ _, None) ps I) V.
Proof.
  intros Hi Hnd HI. apply (for_each_index _ _ _ (λ p, Some (id_bucket (snd p))) (λ J u, idx_ok u K J V)); try done.
  intros p J u _ Hu HJ. by apply unlink_id_ok.
Qed.

Lemma unlink_keys_ok t K I V at_ (ps : list (nat * RoleKey)) :
  idx_ok t K I V → NoDup (entry_node at_ <$> ps) →
  (∀ p, p ∈ ps → K (entry_node at_ p) = Some (key_bucket (fst p) (snd p))) →
  index_step (for_each (λ p, unlink_key at_ (fst p) (snd p)) ps) t (upds (entry_node at_) (λ _, None) ps K) I V.
Proof.
  intros Hi Hnd HI. apply (for_each_index _ _ _ (λ p, Some (key_bucket (fst p) (snd p))) (λ J u, idx_ok u J I V)); try done.
  intros p J u _ Hu HJ. by apply unlink_key_ok.
Qed.

Lemma link_ids_ok t K I V at_ (ps : list (nat * Z)) :
  idx_ok t K I V → (at_ < length (slots t))%nat → NoDup (entry_node at_ <$> ps) →
  (∀ p, p ∈ ps → (fst p < ROLES)%nat ∧ I (entry_node at_ p) = None) →
  index_step (for_each (λ p, link_id at_ (fst p) (snd p)) ps) t K
    (upds (entry_node at_) (λ p, Some (id_bucket (snd p))) ps I) V.
Proof.
  intros Hi Ha Hnd HI.
  destruct (for_each_index (λ p, link_id at_ (fst p) (snd p)) (entry_node at_) (λ p, Some (id_bucket (snd p))) (λ _, None)
    (λ J u, idx_ok u K J V ∧ (at_ < length (slots u))%nat) ps I t) as (t' & Hf & Hs & Hi' & _); try done.
  - intros p J u Hp [Hu Hau] HJ. destruct (link_id_ok u K J V at_ (fst p) (snd p)) as (u' & Hm & Hs & Hi'); try done; [by apply HI|].
    exists u'. split_and!; [done..|]. by rewrite (same_length _ _ (sd_contents _ _ Hs)).
  - intros p Hp. by apply HI.
  - by exists t'.
Qed.

Lemma link_keys_ok t K I V at_ (ps : list (nat * RoleKey)) :
  idx_ok t K I V → (at_ < length (slots t))%nat → NoDup (entry_node at_ <$> ps) →
  (∀ p, p ∈ ps → (fst p < ROLES)%nat ∧ K (entry_node at_ p) = None) →
  index_step (for_each (λ p, link_key at_ (fst p) (snd p)) ps) t
    (upds (entry_node at_) (λ p, Some (key_bucket (fst p) (snd p))) ps K) I V.
Proof.
  intros Hi Ha Hnd HI.
  destruct (for_each_index (λ p, link_key at_ (fst p) (snd p)) (entry_node at_) (λ p, Some (key_bucket (fst p) (snd p))) (λ _, None)
    (λ J u, idx_ok u J I V ∧ (at_ < length (slots u))%nat) ps K t) as (t' & Hf & Hs & Hi' & _); try done.
  - intros p J u Hp [Hu Hau] HJ. destruct (link_key_ok u J I V at_ (fst p) (snd p)) as (u' & Hm & Hs & Hi'); try done; [by apply HI|].
    exists u'. split_and!; [done..|]. by rewrite (same_length _ _ (sd_contents _ _ Hs)).
  - intros p Hp. by apply HI.
  - by exists t'.
Qed.

(** ** What the index says of the contents *)

Definition key_lane (o : Operation C) (lane : nat) : option nat :=
  match roles o !! lane with Some (Some m) => Some (key_bucket lane (member_key m)) | _ => None end.

Definition id_lane (o : Operation C) (lane : nat) : option nat :=
  match aliases o !! lane with Some (Some id) => Some (id_bucket id) | _ => None end.

(** The bucket of a node under [g], if the table holds anything there. *)
Definition lane_at (g : Operation C → nat → option nat) (cs : list (option (Operation C))) (n : Z) : option nat :=
  if 0 <=? n then match cs !! node_slot n with Some (Some o) => g o (node_lane n) | _ => None end else None.

Definition vacant_at (cs : list (option (Operation C))) (i : nat) : Prop := cs !! i = Some None.

(** The index describes the contents exactly. *)
Definition idx_exact t : Prop := idx t (lane_at key_lane (contents t)) (lane_at id_lane (contents t)) (vacant_at (contents t)).

Lemma lane_at_code g cs at_ lane o :
  (length cs <= MAX_INDEXED)%nat → cs !! at_ = Some (Some o) → (lane < ROLES)%nat →
  lane_at g cs (node_code at_ lane) = g o lane.
Proof.
  intros Hk Ha Hl. assert (at_ < length cs)%nat as Hlt by (by eapply lookup_lt_Some).
  unfold lane_at. rewrite node_slot_code, node_lane_code, Ha, node_code_val by lia.
  by rewrite (proj2 (Z.leb_le _ _)) by lia.
Qed.

Lemma node_has_contents t found n :
  node_has (slots t) found n = match contents t !! node_slot n with Some (Some o) => found (node_lane n) o | _ => false end.
Proof.
  unfold node_has, contents, slot_has. rewrite list_lookup_fmap. destruct (slots t !! _) as [s|]; simpl; [|done].
  by destruct (operation s).
Qed.

Lemma lane_at_Some g cs n b :
  lane_at g cs n = Some b → ∃ o, 0 <= n ∧ cs !! node_slot n = Some (Some o) ∧ g o (node_lane n) = Some b.
Proof.
  unfold lane_at. destruct (0 <=? n) eqn:E; [|done]. bprop. destruct (cs !! _) as [[o|]|]; try done. eauto.
Qed.

(** The outcome of a lookup for [p]. *)
Definition looked_up (cs : list (option (Operation C))) (p : Operation C → bool) (res : option nat) : Prop :=
  match res with
  | Some at_ => ∃ o, cs !! at_ = Some (Some o) ∧ p o = true
  | None => ∀ at_ o, cs !! at_ = Some (Some o) → p o = false
  end.

Lemma position_looked_up t p : looked_up (contents t) p (position (slot_has p) (slots t)).
Proof.
  unfold contents. induction (slots t) as [|s sl IH]; simpl; [done|].
  destruct (slot_has p s) eqn:E; simpl.
  - unfold slot_has in E. destruct (operation s) as [o|]; [|done]. by exists o.
  - destruct (position _ sl) as [i|]; simpl in *; [done|]. intros [|at_] o Ho; simpl in Ho; [|by eapply IH].
    injection Ho as Ho. unfold slot_has in E. by rewrite Ho in E.
Qed.

(** An indexed lookup by lane: every operation [p] accepts has a lane [q] accepts in the
    bucket, and the converse. *)
Lemma index_looked_up t plane heads g q p b :
  (length (slots t) <= MAX_INDEXED)%nat →
  index_at plane (slots t) heads (lane_at g (contents t)) → (b < INDEX_BUCKETS)%nat →
  (∀ o lane, q lane o = true → p o = true) →
  (∀ i o, contents t !! i = Some (Some o) → p o = true → ∃ lane, (lane < ROLES)%nat ∧ q lane o = true ∧ g o lane = Some b) →
  ∃ h res, heads !! b = Some h ∧ chain_find (walk_fuel (slots t)) plane q h (slots t) = Some res ∧
    looked_up (contents t) p res.
Proof.
  intros Hk Hi Hb Hqp Hpq. destruct (index_find_ok plane (slots t) heads _ b q Hi Hb) as (h & Hh & Hres).
  exists h. destruct Hres as [[Hf Hno]|(n & Hf & HP & Hhas)]; eexists; (split_and!; [done..|]); simpl.
  - intros at_ o Ho. destruct (p o) eqn:E; [|done]. destruct (Hpq at_ o Ho E) as (lane & Hl & Hq & Hg).
    assert (at_ < length (slots t))%nat by (rewrite <-contents_length; by eapply lookup_lt_Some).
    rewrite <-(lane_at_code g (contents t) at_ lane o) in Hg by (rewrite ?contents_length; done).
    apply Hno in Hg. rewrite node_has_contents, node_slot_code, node_lane_code, Ho in Hg by lia. congruence.
  - apply lane_at_Some in HP as (o & Hn & Ho & Hg). rewrite node_has_contents, Ho in Hhas.
    exists o. split; [done|]. by eapply Hqp.
Qed.

Lemma has_key_lane lane key (o : Operation C) : has_key lane key o = true → key_lane o lane = Some (key_bucket lane key).
Proof.
  unfold has_key, key_lane. destruct (roles o !! lane) as [[m|]|]; try done. intros H. apply bool_decide_eq_true in H. by subst.
Qed.

Lemma Role_index_lt role : (Role_index role < ROLES)%nat.
Proof. unfold ROLES. destruct role; simpl; lia. Qed.

Lemma find_key_ok role key t :
  idx_exact t → ∃ res, find_key role key t = (inr res, t) ∧ looked_up (contents t) (has_key (Role_index role) key) res.
Proof.
  intros Hi. cut (∃ res, key_slot role key t = Some res ∧ looked_up (contents t) (has_key (Role_index role) key) res).
  { intros (res & Hk & Hl). exists res. split; [|done]. unfold find_key. rewrite (bind_ok _ _ t t t) by done. by rewrite Hk. }
  unfold key_slot. destruct (indexed t) eqn:E; [|eexists; split; [done|apply position_looked_up]].
  destruct (Hi E) as [Hs _ Hk _ _].
  destruct (index_looked_up t KEY_LINKS (key_heads t) key_lane (λ l o, (l =? Role_index role)%nat && has_key l key o)
    (has_key (Role_index role) key) (key_bucket (Role_index role) key) Hs Hk) as (h & res & Hh & Hf & Hl).
  - apply key_bucket_lt.
  - intros o lane [Hl Hk']%andb_true_iff. apply Nat.eqb_eq in Hl. by subst.
  - intros _ o _ Ho. exists (Role_index role). split_and!; [apply Role_index_lt|by rewrite Nat.eqb_refl|by apply has_key_lane].
  - exists res. rewrite Hh. done.
Qed.

Lemma alias_at_has id lane (o : Operation C) : alias_at id lane o = true ↔ aliases o !! lane = Some (Some id).
Proof.
  unfold alias_at. destruct (aliases o !! lane) as [[a|]|]; try done. rewrite Z.eqb_eq. split; [by intros ->|by intros [= ->]].
Qed.

Lemma find_id_ok id t :
  idx_exact t → Forall (λ x, match x with Some o => length (aliases o) = ROLES | None => True end) (contents t) →
  ∃ res, find_id id t = (inr res, t) ∧ looked_up (contents t) (has_alias id) res.
Proof.
  intros Hi Hw. cut (∃ res, id_slot id t = Some res ∧ looked_up (contents t) (has_alias id) res).
  { intros (res & Hk & Hl). exists res. split; [|done]. unfold find_id. rewrite (bind_ok _ _ t t t) by done. by rewrite Hk. }
  unfold id_slot. destruct (indexed t) eqn:E; [|eexists; split; [done|apply position_looked_up]].
  destruct (Hi E) as [Hs _ _ Hk _].
  destruct (index_looked_up t ID_LINKS (id_heads t) id_lane (alias_at id) (has_alias id) (id_bucket id) Hs Hk)
    as (h & res & Hh & Hf & Hl).
  - apply id_bucket_lt.
  - intros o lane Ha%alias_at_has. apply bool_decide_eq_true. by eapply list_elem_of_lookup_2.
  - intros i o Ho Ha. apply bool_decide_eq_true, list_elem_of_lookup in Ha as [lane Ha].
    pose proof (Forall_lookup_1 _ _ _ _ Hw Ho) as Hlen. simpl in Hlen. exists lane. split_and!.
    + rewrite <-Hlen. by eapply lookup_lt_Some.
    + by apply alias_at_has.
    + unfold id_lane. by rewrite Ha.
  - exists res. rewrite Hh. done.
Qed.

(** ** Changing the contents *)

(** Like [same_data], with the contents changed at one slot. *)
Record put_data t t' (at_ : nat) (x : option (Operation C)) : Prop := mkPut {
  pd_contents : contents t' = <[at_ := x]> (contents t);
  pd_next : next t' = next t;
  pd_live : live t' = live t;
  pd_bytes : bytes t' = bytes t;
  pd_populations : populations t' = populations t;
}.

Lemma put_operation_ok t K I V at_ x :
  idx t K I V → (at_ < length (slots t))%nat →
  ∃ t', put_operation at_ x t = (inr tt, t') ∧ put_data t t' at_ x ∧ idx t' K I V.
Proof.
  intros Hi Ha. destruct (lookup_lt_is_Some_2 _ _ Ha) as [s Es].
  exists (set_slots (<[at_ := set_operation (λ _, x) s]>) t). split_and!.
  - unfold put_operation. rewrite (bind_ok _ _ t t t) by done. unfold or_panic, mbind, se_mbind, se_bind, modify. by rewrite Es.
  - constructor; simpl; try done. unfold contents. simpl. by rewrite list_fmap_insert.
  - intros Hx. unfold indexed in Hx. simpl in Hx. rewrite length_insert in Hx. destruct (Hi Hx) as [Hs Hsh Hk Hi' Hf].
    assert (links <$> <[at_ := set_operation (λ _, x) s]> (slots t) = links <$> slots t) as Hl.
    { rewrite list_fmap_insert. simpl. apply list_insert_id. by rewrite list_lookup_fmap, Es. }
    constructor; simpl; [by rewrite length_insert|by eapply shape_links|..].
    + eapply index_at_ext; [apply length_insert|intros n; by apply link_of_links|done|done].
    + eapply index_at_ext; [apply length_insert|intros n; by apply link_of_links|done|done].
    + eapply free_at_ext; [|done|done]. rewrite list_fmap_insert. simpl. apply list_insert_id. by rewrite list_lookup_fmap, Es.
Qed.

Lemma get_operation_ok t at_ o : contents t !! at_ = Some (Some o) → get_operation at_ t = (inr o, t).
Proof.
  unfold contents. rewrite list_lookup_fmap. intros H. unfold get_operation. rewrite (bind_ok _ _ t t t) by done.
  unfold or_panic, operation_at. destruct (slots t !! at_) as [s|]; [|done]. injection H as H. simpl. by rewrite H.
Qed.
End state.
