(* ===== verification/ReservationSpec.v ===== *)
(** * What the reservation table promises

    A reference for [src/semantics_objects/journal/reservations.rs] without slots, chains or
    a free list: the operations held, in any order, and the last id minted.  Counts and
    byte totals are functions of the operations. *)
From S2P Require Import Prelude Reservations.

Section spec.
Context {C : Type}.
Implicit Types (o : Operation C) (ops : list (Operation C)).

Record Spec := mkSpec {
  s_capacity : nat;
  s_ops : list (Operation C);
  s_next : Z;
}.

Definition with_ops (s : Spec) ops : Spec := mkSpec (s_capacity s) ops (s_next s).

(** ** Derived figures *)

Definition role_bytes (r : option (Membership C)) : Z := match r with Some m => member_bytes_ m | None => 0 end.

Definition op_bytes o : Z := zsum role_bytes (roles o).

Definition spec_bytes ops : Z := zsum op_bytes ops.

Definition lane_taken (lane : nat) o : bool := match roles o !! lane with Some (Some _) => true | _ => false end.

Definition spec_population (lane : nat) ops : Z := zsum (λ o, if lane_taken lane o then 1 else 0) ops.

Definition head_alias o : Z := match aliases o !! 0%nat with Some (Some id) => id | _ => 0 end.

Definition put_role (lane : nat) (m : option (Membership C)) o : Operation C :=
  mkOperation (aliases o) (<[lane := m]> (roles o)).

(** The first operation [p] accepts, and the others. *)
Fixpoint take_op (p : Operation C → bool) ops : option (Operation C * list (Operation C)) :=
  match ops with
  | [] => None
  | o :: ops => if p o then Some (o, ops) else prod_map id (cons o) <$> take_op p ops
  end.

(** ** The operations *)

Definition spec_new (capacity : nat) : Spec := mkSpec capacity [] 0.

Definition new_operation (id : Z) : Operation C :=
  mkOperation (<[0%nat := Some id]> (replicate ROLES None)) (replicate ROLES None).

(** Why an insertion is refused, if it is. *)
Definition spec_preflight (role : Role) (key : RoleKey) (existing : option Z) (n : Z) (s : Spec) : option Refusal :=
  if existsb (has_key (Role_index role) key) (s_ops s) then Some Replay
  else if 2 ^ 64 <=? spec_bytes (s_ops s) + n then Some Full
  else
    match existing with
    | Some id =>
        match take_op (has_alias id) (s_ops s) with
        | None => Some Foreign
        | Some (o, _) => if lane_taken (Role_index role) o then Some Replay else None
        end
    | None => if (s_capacity s <=? length (s_ops s))%nat || (2 ^ 64 <=? s_next s + 1) then Some Full else None
    end.

Definition spec_insert (role : Role) (key : RoleKey) (existing : option Z) (n : Z) (charge : C) (s : Spec)
    : (Refusal + Z) * Spec :=
  let put := put_role (Role_index role) (Some (mkMember key n charge)) in
  match spec_preflight role key existing n s with
  | Some e => (inl e, s)
  | None =>
      match existing with
      | Some id =>
          match take_op (has_alias id) (s_ops s) with
          | Some (o, rest) => (inr (head_alias o), with_ops s (put o :: rest))
          | None => (inl Foreign, s)
          end
      | None =>
          let id := s_next s + 1 in
          (inr id, mkSpec (s_capacity s) (put (new_operation id) :: s_ops s) id)
      end
  end.

(** An operation without a role, unless that was its last one. *)
Definition drop_role (lane : nat) o : option (Operation C) :=
  let o' := put_role lane None o in if all_none (roles o') then None else Some o'.

Definition spec_release (role : Role) (key : RoleKey) (s : Spec) : option (Z * C) * Spec :=
  let lane := Role_index role in
  match take_op (has_key lane key) (s_ops s) with
  | None => (None, s)
  | Some (o, rest) =>
      (match roles o !! lane with Some (Some m) => Some (member_bytes_ m, member_charge m) | _ => None end,
       with_ops s (option_list (drop_role lane o) ++ rest))
  end.

Definition spec_release_role (role : Role) (s : Spec) : Spec :=
  with_ops s (omap (drop_role (Role_index role)) (s_ops s)).

Definition join (a b : Operation C) : Operation C :=
  mkOperation (default [] (fst <$> adopt_aliases (aliases a) (snd <$> present (aliases b))))
    (adopt_roles (roles a) (roles b)).

Definition spec_merge (left right : Z) (s : Spec) : (Refusal + Z) * Spec :=
  match take_op (has_alias left) (s_ops s) with
  | None => (inl Foreign, s)
  | Some (a, rest) =>
      if has_alias right a then (inr (head_alias a), s)
      else
        match take_op (has_alias right) rest with
        | None => (inl Foreign, s)
        | Some (b, rest) =>
            if overlapping (roles a) (roles b) then (inl Replay, s)
            else if (ROLES <? length (present (aliases a)) + length (present (aliases b)))%nat then (inl Full, s)
            else (inr (head_alias a), with_ops s (join a b :: rest))
        end
  end.

Definition spec_transfer (from : Role) (from_key : RoleKey) (to : Role) (to_key : RoleKey) (n : Z) (charge : C) (s : Spec)
    : (Refusal + Z * Z * C) * Spec :=
  match take_op (has_key (Role_index from) from_key) (s_ops s) with
  | None => (inl Foreign, s)
  | Some (o, rest) =>
      if bool_decide (from = to) || existsb (has_key (Role_index to) to_key) (s_ops s) || lane_taken (Role_index to) o
      then (inl Replay, s)
      else
        match roles o !! Role_index from with
        | Some (Some old) =>
            if 2 ^ 64 <=? spec_bytes (s_ops s) - member_bytes_ old + n then (inl Full, s)
            else (inr (head_alias o, member_bytes_ old, member_charge old),
                  with_ops s (put_role (Role_index to) (Some (mkMember to_key n charge))
                                (put_role (Role_index from) None o) :: rest))
        | _ => (inl Foreign, s)
        end
  end.

Definition spec_reservation (role : Role) (key : RoleKey) (s : Spec) : option Z :=
  head_alias ∘ fst <$> take_op (has_key (Role_index role) key) (s_ops s).

Definition spec_member_bytes (role : Role) (key : RoleKey) (s : Spec) : option Z :=
  '(o, _) ← take_op (has_key (Role_index role) key) (s_ops s);
  r ← roles o !! Role_index role; member_bytes_ <$> r.

Definition spec_unconverted (open : RoleKey) (id : Z) (staged : option RoleKey) (s : Spec) : bool :=
  match take_op (has_key (Role_index H8Open) open) (s_ops s) with
  | None => false
  | Some (o, _) =>
      has_alias id o && bool_decide (lane_key o H9Staged = staged) && lane_vacant o Raw && lane_vacant o Model
  end.

(** An id was minted and no operation answers to it any more. *)
Definition spec_released (id : Z) (s : Spec) : bool :=
  negb (id =? 0) && (id <=? s_next s) && negb (existsb (has_alias id) (s_ops s)).

(** ** Present entries *)

Lemma present_from_elem {A} (l : list (option A)) k lane x :
  (lane, x) ∈ present_from k l ↔ ∃ i, lane = (k + i)%nat ∧ l !! i = Some (Some x).
Proof.
  revert k. induction l as [|[y|] l IH]; intros k; simpl.
  - split; [set_solver|by intros (? & _ & ?)].
  - rewrite elem_of_cons, IH. split.
    + intros [[= -> ->]|(i & -> & Hi)]; [exists 0%nat; split; [lia|done]|exists (S i); split; [lia|done]].
    + intros ([|i] & -> & Hi); simpl in Hi; [left; f_equal; [lia|congruence]|right; exists i; split; [lia|done]].
  - rewrite IH. split.
    + intros (i & -> & Hi). exists (S i). split; [lia|done].
    + intros ([|i] & -> & Hi); simpl in Hi; [done|]. exists i. split; [lia|done].
Qed.

Lemma present_elem {A} (l : list (option A)) lane x : (lane, x) ∈ present l ↔ l !! lane = Some (Some x).
Proof. unfold present. rewrite present_from_elem. split; [by intros (i & -> & Hi)|intros H; by exists lane]. Qed.

Lemma present_from_lanes {A} (l : list (option A)) k : NoDup (fst <$> present_from k l).
Proof.
  revert k. induction l as [|[y|] l IH]; intros k; simpl; [constructor| |apply IH].
  constructor; [|apply IH]. intros ([lane x] & Hk & Hin)%list_elem_of_fmap. simpl in Hk. subst lane.
  apply present_from_elem in Hin as (i & Hi & _). lia.
Qed.

Lemma present_from_insert {A} (l : list (option A)) k i x :
  l !! i = Some None → present_from k (<[i := Some x]> l) ≡ₚ ((k + i)%nat, x) :: present_from k l.
Proof.
  revert k i. induction l as [|[y|] l IH]; intros k [|i] Hi; simplify_eq/=; [|by rewrite Nat.add_0_r|].
  - rewrite (IH _ _ Hi), <-plus_n_Sm. apply perm_swap.
  - by rewrite (IH _ _ Hi), <-plus_n_Sm.
Qed.

Lemma present_insert {A} (l : list (option A)) i x :
  l !! i = Some None → present (<[i := Some x]> l) ≡ₚ (i, x) :: present l.
Proof. apply (present_from_insert l 0). Qed.

Lemma present_delete {A} (l : list (option A)) i x :
  l !! i = Some (Some x) → present l ≡ₚ (i, x) :: present (<[i := None]> l).
Proof.
  intros Hi. rewrite <-(present_insert (<[i := None]> l)), list_insert_insert_eq, (list_insert_id l) by
    (done || by apply list_lookup_insert_eq; eapply lookup_lt_Some). done.
Qed.

(** ** Well-formed operations *)

Record op_shape o : Prop := mkShape {
  os_aliases : length (aliases o) = ROLES;
  os_roles : length (roles o) = ROLES;
  os_head : ∃ id, aliases o !! 0%nat = Some (Some id);
  os_bytes : Forall (λ r, 0 <= role_bytes r) (roles o);
}.

(** An operation of the table holds at least one role. *)
Definition op_wf o : Prop := op_shape o ∧ all_none (roles o) = false.

Definition op_keys o : list (nat * RoleKey) := (λ p, (fst p, member_key (snd p))) <$> present (roles o).

Definition op_ids o : list Z := snd <$> present (aliases o).

Definition keys ops : list (nat * RoleKey) := concat (op_keys <$> ops).

Definition ids ops : list Z := concat (op_ids <$> ops).

(** Every membership key has one owner in its role, every id one operation. *)
Record ops_wf (next : Z) ops : Prop := mkOpsWf {
  pw_each : Forall op_wf ops;
  pw_keys : NoDup (keys ops);
  pw_ids : NoDup (ids ops);
  pw_next : Forall (λ id, 1 <= id <= next) (ids ops);
}.

Lemma has_key_elem lane key o : has_key lane key o = true ↔ (lane, key) ∈ op_keys o.
Proof.
  unfold has_key, op_keys. rewrite list_elem_of_fmap. split.
  - destruct (roles o !! lane) as [[m|]|] eqn:E; try done. intros <-%bool_decide_eq_true.
    exists (lane, m). split; [done|]. by apply present_elem.
  - intros ([l m] & [= -> ->] & Hm%present_elem). simpl in *. rewrite Hm. by apply bool_decide_eq_true.
Qed.

Lemma has_alias_elem id o : has_alias id o = true ↔ id ∈ op_ids o.
Proof.
  unfold has_alias, op_ids. rewrite bool_decide_eq_true, list_elem_of_fmap. split.
  - intros (lane & Hl)%list_elem_of_lookup. exists (lane, id). split; [done|]. by apply present_elem.
  - intros ([l x] & -> & Hm%present_elem). by eapply list_elem_of_lookup_2.
Qed.

#[export] Instance keys_proper : Proper ((≡ₚ) ==> (≡ₚ)) keys.
Proof. intros l l' H. unfold keys. by rewrite H. Qed.

#[export] Instance ids_proper : Proper ((≡ₚ) ==> (≡ₚ)) ids.
Proof. intros l l' H. unfold ids. by rewrite H. Qed.

#[export] Instance ops_wf_proper next : Proper ((≡ₚ) ==> iff) (ops_wf next).
Proof.
  intros l l' H. split; intros [He Hk Hi Hn]; constructor;
    [by rewrite <-H|by rewrite <-H|by rewrite <-H|by rewrite <-H|by rewrite H|by rewrite H|by rewrite H|by rewrite H].
Qed.

Lemma take_op_Some p ops o rest : take_op p ops = Some (o, rest) → ops ≡ₚ o :: rest ∧ p o = true.
Proof.
  revert rest. induction ops as [|x ops IH]; intros rest H; simpl in H; [done|].
  destruct (p x) eqn:E; [by injection H as <- <-|].
  apply fmap_Some in H as ([o' r] & Ht & [= -> ->]). destruct (IH _ Ht) as [Hp Hpo]. split; [|done].
  rewrite Hp. apply perm_swap.
Qed.

Lemma take_op_None p ops : take_op p ops = None ↔ ∀ o, o ∈ ops → p o = false.
Proof.
  induction ops as [|x ops IH]; simpl; [split; [set_solver|done]|]. destruct (p x) eqn:E.
  - split; [done|]. intros H. specialize (H x). set_unfold in H. rewrite E in H. naive_solver.
  - rewrite fmap_None, IH. set_unfold. naive_solver.
Qed.

Lemma existsb_take_op p ops : existsb p ops = bool_decide (is_Some (take_op p ops)).
Proof.
  destruct (take_op p ops) as [[o rest]|] eqn:E.
  - apply take_op_Some in E as [Hp Ho]. apply existsb_exists. exists o. split; [|done]. apply list_elem_of_In. rewrite Hp. left.
  - destruct (existsb p ops) eqn:Ex; [|done]. apply existsb_exists in Ex as (o & Ho & Hp).
    apply list_elem_of_In in Ho. by rewrite (proj1 (take_op_None p ops) E o Ho) in Hp.
Qed.

(** At most one operation satisfies [p]. *)
Definition unique_op (p : Operation C → bool) ops : Prop :=
  ∀ a b rest, ops ≡ₚ a :: b :: rest → p a = true → p b = true → False.

Lemma unique_key next ops lane key : ops_wf next ops → unique_op (has_key lane key) ops.
Proof.
  intros [_ Hk _ _] a b rest Hp Ha%has_key_elem Hb%has_key_elem. rewrite Hp in Hk. unfold keys in Hk. simpl in Hk.
  apply NoDup_app in Hk as (_ & Hd & _). apply (Hd _ Ha). apply elem_of_app. by left.
Qed.

Lemma unique_id next ops id : ops_wf next ops → unique_op (has_alias id) ops.
Proof.
  intros [_ _ Hi _] a b rest Hp Ha%has_alias_elem Hb%has_alias_elem. rewrite Hp in Hi. unfold ids in Hi. simpl in Hi.
  apply NoDup_app in Hi as (_ & Hd & _). apply (Hd _ Ha). apply elem_of_app. by left.
Qed.

(** ** The reference keeps its operations well formed *)

(** [o] may stand beside [rest]. *)
Record op_fits (next : Z) o rest : Prop := mkFits {
  of_shape : op_shape o;
  of_rest : ops_wf next rest;
  of_keys : NoDup (op_keys o);
  of_ids : NoDup (op_ids o);
  of_next : Forall (λ id, 1 <= id <= next) (op_ids o);
  of_keys_new : ∀ k, k ∈ op_keys o → k ∉ keys rest;
  of_ids_new : ∀ i, i ∈ op_ids o → i ∉ ids rest;
}.

Lemma ops_wf_cons next o ops : ops_wf next (o :: ops) ↔ op_fits next o ops ∧ all_none (roles o) = false.
Proof.
  split.
  - intros [He Hk Hi Hn]. unfold keys, ids in *. simpl in *. apply Forall_cons in He as [[Ho Hl] He].
    apply NoDup_app in Hk as (Hk1 & Hk2 & Hk3), Hi as (Hi1 & Hi2 & Hi3). apply Forall_app in Hn as [Hn1 Hn2].
    split; [|done]. by constructor.
  - intros [[Ho [He Hk Hi Hn] Hk1 Hi1 Hn1 Hk2 Hi2] Hl]. constructor; unfold keys, ids; simpl.
    + by constructor.
    + by apply NoDup_app.
    + by apply NoDup_app.
    + by apply Forall_app.
Qed.

Lemma ops_wf_next next next' ops : next <= next' → ops_wf next ops → ops_wf next' ops.
Proof. intros Hle [He Hk Hi Hn]. constructor; try done. eapply Forall_impl; [exact Hn|]. simpl. lia. Qed.

Lemma all_none_false {A} (l : list (option A)) : all_none l = false ↔ ∃ i x, l !! i = Some (Some x).
Proof.
  unfold all_none. induction l as [|[x|] l IH]; simpl.
  - split; [done|by intros (? & ? & ?)].
  - split; [intros _; by exists 0%nat, x|done].
  - rewrite IH. split; [intros (i & x & H); by exists (S i), x|intros ([|i] & x & H); simpl in H; [done|by exists i, x]].
Qed.

Lemma put_role_shape lane r o : op_shape o → 0 <= role_bytes r → op_shape (put_role lane r o).
Proof.
  intros [Ha Hr Hh Hb] Hm. constructor; simpl; [done|by rewrite length_insert|done|]. by apply Forall_insert.
Qed.

Lemma put_role_keys lane m o :
  roles o !! lane = Some None → op_keys (put_role lane (Some m) o) ≡ₚ (lane, member_key m) :: op_keys o.
Proof. intros H. unfold op_keys, put_role. simpl. by rewrite (present_insert _ _ _ H). Qed.

Lemma drop_role_keys lane m o :
  roles o !! lane = Some (Some m) → op_keys o ≡ₚ (lane, member_key m) :: op_keys (put_role lane None o).
Proof. intros H. unfold op_keys, put_role. simpl. by rewrite (present_delete _ _ _ H). Qed.

(** A role added under a key nobody has. *)
Lemma fits_put next lane m o rest :
  op_fits next o rest → roles o !! lane = Some None → 0 <= member_bytes_ m →
  (lane, member_key m) ∉ op_keys o → (lane, member_key m) ∉ keys rest →
  ops_wf next (put_role lane (Some m) o :: rest).
Proof.
  intros [Ho Hr Hk Hi Hn Hk2 Hi2] Hl Hm Hko Hkr. pose proof (put_role_keys lane m o Hl) as Hp.
  apply ops_wf_cons. split; [constructor|]; try done.
  - by apply put_role_shape.
  - rewrite Hp. by constructor.
  - intros k Hk'. rewrite Hp in Hk'. apply elem_of_cons in Hk' as [->|]; [done|by apply Hk2].
  - apply all_none_false. exists lane, m. apply list_lookup_insert_eq. by eapply lookup_lt_Some.
Qed.

Lemma fits_drop next lane m o rest :
  op_fits next o rest → roles o !! lane = Some (Some m) → op_fits next (put_role lane None o) rest.
Proof.
  intros [Ho Hr Hk Hi Hn Hk2 Hi2] Hl. pose proof (drop_role_keys lane m o Hl) as Hp. rewrite Hp in Hk.
  apply NoDup_cons in Hk as [_ Hk]. constructor; try done.
  - apply put_role_shape; [done|simpl; lia].
  - intros k Hk'. apply Hk2. rewrite Hp. by right.
Qed.

Lemma drop_role_wf next lane o rest :
  op_fits next o rest → ops_wf next (option_list (drop_role lane o) ++ rest).
Proof.
  intros Hf. assert (op_fits next (put_role lane None o) rest) as Hf'.
  { destruct (roles o !! lane) as [[m|]|] eqn:E; [by eapply fits_drop|..]; unfold put_role.
    - rewrite list_insert_id by done. by destruct o.
    - rewrite list_insert_ge by (by apply lookup_ge_None_1). by destruct o. }
  unfold drop_role. destruct (all_none _) eqn:E; simpl; [apply Hf|]. by apply ops_wf_cons.
Qed.

Lemma new_operation_fits next ops : 0 <= next → ops_wf next ops → op_fits (next + 1) (new_operation (next + 1)) ops.
Proof.
  intros H0 Hw. constructor; unfold op_keys, op_ids; simpl.
  - constructor; simpl; [done|done|by eexists|]. repeat constructor; simpl; lia.
  - by apply (ops_wf_next next); [lia|].
  - constructor.
  - apply NoDup_singleton.
  - repeat constructor; lia.
  - set_solver.
  - intros i ->%list_elem_of_singleton Hin. pose proof (pw_next _ _ Hw) as Hn. rewrite Forall_forall in Hn.
    apply Hn in Hin. lia.
Qed.

(** ** Joining two operations *)

Lemma present_full {A} (l : list (option A)) k :
  Forall (λ x, match x with None => true | Some _ => false end = false) l → length (present_from k l) = length l.
Proof. intros H. revert k. induction H as [|[x|] l Hx Hl IH]; intros k; simpl; [done|by rewrite IH|done]. Qed.

Lemma adopt_aliases_ok (l : list (option Z)) new :
  (length (present l) + length new <= length l)%nat →
  ∃ l' pos, adopt_aliases l new = Some (l', pos) ∧ length l' = length l ∧ length pos = length new ∧
    present l' ≡ₚ combine pos new ++ present l ∧ NoDup pos ∧
    (∀ i, i ∈ pos → l !! i = Some None) ∧ (∀ i, i ∉ pos → l' !! i = l !! i).
Proof.
  revert l. induction new as [|id new IH]; intros l Hlen; simpl in *.
  { exists l, []. split_and!; try done; [constructor|set_solver]. }
  destruct (position _ l) as [p|] eqn:E.
  - apply position_Some in E as ([x|] & Hx & Hn); [done|]. simpl.
    assert (p < length l)%nat as Hpl by (by eapply lookup_lt_Some).
    destruct (IH (<[p := Some id]> l)) as (l' & pos & -> & Hl' & Hpos & Hp & Hnd & Hnone & Hkeep).
    { rewrite (Permutation_length (present_insert l p id Hx)), length_insert. simpl. lia. }
    simpl. assert (p ∉ pos) as Hpp.
    { intros Hin. apply Hnone in Hin. by rewrite list_lookup_insert_eq in Hin. }
    eexists _, _. split_and!; [done|by rewrite Hl', length_insert|simpl; lia| | | |].
    + rewrite Hp, (present_insert l p id Hx). simpl. by rewrite Permutation_middle.
    + by constructor.
    + intros i [->|Hi]%elem_of_cons; [done|]. apply Hnone in Hi as Hi'.
      rewrite list_lookup_insert_ne in Hi'; [done|]. by intros ->.
    + intros i Hi. rewrite Hkeep by set_solver. apply list_lookup_insert_ne. set_solver.
  - apply position_None, (present_full l 0) in E. unfold present in Hlen. lia.
Qed.

Lemma overlapping_false (a b : list (option (Membership C))) :
  length a = length b → overlapping a b = false → ∀ i m m', a !! i = Some (Some m) → b !! i = Some (Some m') → False.
Proof.
  unfold overlapping. revert b. induction a as [|x a IH]; intros [|y b] Hl Ho [|i] m m' Ha Hb; simplify_eq/=.
  apply orb_false_iff in Ho as [_ Ho]. by eapply (IH b).
Qed.

Lemma adopt_roles_present (a b : list (option (Membership C))) k :
  length a = length b → overlapping a b = false →
  present_from k (adopt_roles a b) ≡ₚ present_from k a ++ present_from k b.
Proof.
  unfold overlapping, adopt_roles. revert b k. induction a as [|x a IH]; intros [|y b] k Hl Ho; simplify_eq/=; [done|].
  apply orb_false_iff in Ho as [Hxy Ho].
  destruct x as [x|], y as [y|]; simpl in *; [done|by rewrite IH|by rewrite IH, Permutation_middle|by rewrite IH].
Qed.

Lemma adopt_roles_sum (f : option (Membership C) → Z) (a b : list (option (Membership C))) :
  f None = 0 → length a = length b → overlapping a b = false → zsum f (adopt_roles a b) = zsum f a + zsum f b.
Proof.
  unfold overlapping, adopt_roles, zsum. intros H0. revert b.
  induction a as [|x a IH]; intros [|y b] Hl Ho; simplify_eq/=; [done|].
  apply orb_false_iff in Ho as [Hxy Ho]. rewrite (IH b) by done. destruct x, y; simpl in *; try done; lia.
Qed.

Lemma adopt_roles_lookup (a b : list (option (Membership C))) i :
  length a = length b → overlapping a b = false →
  adopt_roles a b !! i = match b !! i with Some (Some m) => Some (Some m) | _ => a !! i end.
Proof.
  intros Hl Ho. unfold adopt_roles. rewrite lookup_zip_with.
  destruct (a !! i) as [x|] eqn:Ea, (b !! i) as [[m|]|] eqn:Eb; try done.
  - apply lookup_lt_Some in Ea. apply lookup_ge_None_1 in Eb. lia.
  - apply lookup_lt_Some in Eb. apply lookup_ge_None_1 in Ea. lia.
Qed.

Lemma join_ok next a b rest :
  ops_wf next (a :: b :: rest) → overlapping (roles a) (roles b) = false →
  (length (present (aliases a)) + length (present (aliases b)) <= ROLES)%nat →
  ops_wf next (join a b :: rest) ∧ head_alias (join a b) = head_alias a ∧
  op_bytes (join a b) = op_bytes a + op_bytes b ∧
  ∀ lane, (if lane_taken lane (join a b) then 1 else 0) =
    (if lane_taken lane a then 1 else 0) + (if lane_taken lane b then 1 else 0).
Proof.
  intros Hw Ho Hc. apply ops_wf_cons in Hw as [[Ha Hw Hka Hia Hna Hka2 Hia2] Hla].
  apply ops_wf_cons in Hw as [[Hb Hr Hkb Hib Hnb Hkb2 Hib2] Hlb].
  destruct (adopt_aliases_ok (aliases a) (snd <$> present (aliases b))) as (l' & pos & Had & Hl' & Hpos & Hp & Hnd & Hnone & Hkeep).
  { rewrite length_fmap, (os_aliases _ Ha). done. }
  assert (length (roles a) = length (roles b)) as Hlen by (by rewrite (os_roles _ Ha), (os_roles _ Hb)).
  assert (op_keys (join a b) ≡ₚ op_keys a ++ op_keys b) as Hkeys.
  { unfold op_keys, join, present. simpl. by rewrite (adopt_roles_present _ _ 0 Hlen Ho), fmap_app. }
  assert (op_ids (join a b) ≡ₚ op_ids b ++ op_ids a) as Hids.
  { unfold op_ids, join. simpl. rewrite Had. simpl. rewrite Hp, fmap_app.
    change (combine pos ?l) with (zip pos l). by rewrite snd_zip by (rewrite Hpos; done). }
  split_and!.
  - apply ops_wf_cons. split; [constructor|]; try done.
    + constructor; simpl; [by rewrite Had; simpl; rewrite Hl'; apply Ha| | |].
      * unfold adopt_roles. rewrite length_zip_with, (os_roles _ Ha), (os_roles _ Hb). done.
      * destruct (os_head _ Ha) as [id Hid]. exists id. rewrite Had. simpl. rewrite Hkeep; [done|].
        intros H%Hnone. congruence.
      * apply Forall_lookup. intros i x. rewrite adopt_roles_lookup by done.
        pose proof (os_bytes _ Ha) as Hba. pose proof (os_bytes _ Hb) as Hbb. rewrite Forall_lookup in Hba, Hbb.
        destruct (roles b !! i) as [[m|]|] eqn:E; [intros [= <-]; by apply (Hbb i)|by apply Hba..].
    + rewrite Hkeys. apply NoDup_app. split_and!; [done| |done]. intros k Hk Hk'. apply (Hka2 k Hk).
      unfold keys. simpl. apply elem_of_app. by left.
    + rewrite Hids. apply NoDup_app. split_and!; [done| |done]. intros i Hi Hi'. apply (Hia2 i Hi').
      unfold ids. simpl. apply elem_of_app. by left.
    + rewrite Hids. by apply Forall_app.
    + intros k. rewrite Hkeys. intros [Hk|Hk]%elem_of_app; [|by apply Hkb2]. intros Hin. apply (Hka2 k Hk).
      unfold keys. simpl. apply elem_of_app. by right.
    + intros i. rewrite Hids. intros [Hk|Hk]%elem_of_app; [by apply Hib2|]. intros Hin. apply (Hia2 i Hk).
      unfold ids. simpl. apply elem_of_app. by right.
    + apply all_none_false in Hla as (i & m & Hm). apply all_none_false. exists i, m. simpl.
      rewrite adopt_roles_lookup by done. destruct (roles b !! i) as [[m'|]|] eqn:E; [|done..].
      exfalso. by eapply (overlapping_false _ _ Hlen Ho i m m').
  - unfold head_alias, join. simpl. rewrite Had. simpl. rewrite Hkeep; [done|].
    destruct (os_head _ Ha) as [id Hid]. intros H%Hnone. congruence.
  - by apply adopt_roles_sum.
  - intros lane. unfold lane_taken, join. simpl. rewrite adopt_roles_lookup by done.
    pose proof (overlapping_false _ _ Hlen Ho lane) as Hno.
    destruct (roles a !! lane) as [[m|]|], (roles b !! lane) as [[m'|]|]; try done. exfalso. by eapply Hno.
Qed.
End spec.

Arguments Spec : clear implicits.
