(* ===== verification/ReservationRefine.v ===== *)
(** * The reservation table implements its reference

    The simulation between [ReservationTable] of
    [src/semantics_objects/journal/reservations.rs], indexed or scanned, and the
    specification: same answers, no failed assertion, and a walk that always ends. *)
From S2P Require Import Prelude Reservations ReservationIndex ReservationState ReservationSpec.

Section refine.
Context {C : Type}.
Implicit Types (t : ReservationTable C) (o : Operation C) (ops : list (Operation C)) (s : Spec C)
  (cs : list (option (Operation C))).

(** ** Contents and operations *)

Fixpoint occupied cs : list (Operation C) :=
  match cs with [] => [] | Some o :: cs => o :: occupied cs | None :: cs => occupied cs end.

Lemma occupied_put cs i x :
  (i < length cs)%nat → occupied (<[i := x]> cs) ≡ₚ option_list x ++ occupied (<[i := None]> cs).
Proof.
  revert i. induction cs as [|y cs IH]; intros [|i] Hi; simpl in *; [lia|lia|by destruct x|].
  assert (i < length cs)%nat as Hi' by lia. destruct y as [y|]; simpl; [|by apply IH].
  rewrite (IH i Hi'). apply Permutation_middle.
Qed.

Lemma occupied_take cs i o : cs !! i = Some (Some o) → occupied cs ≡ₚ o :: occupied (<[i := None]> cs).
Proof.
  intros Hi. rewrite <-(list_insert_id cs i (Some o) Hi) at 1. rewrite occupied_put; [done|]. by eapply lookup_lt_Some.
Qed.

Lemma occupied_vacant cs i : cs !! i = Some None → <[i := None]> cs = cs.
Proof. apply list_insert_id. Qed.

Lemma occupied_elem cs o : o ∈ occupied cs ↔ ∃ i, cs !! i = Some (Some o).
Proof.
  induction cs as [|[x|] cs IH]; simpl.
  - split; [set_solver|by intros [? ?]].
  - rewrite elem_of_cons, IH. split.
    + intros [->|[i Hi]]; [by exists 0%nat|by exists (S i)].
    + intros [[|i] Hi]; simpl in Hi; [left; congruence|right; by exists i].
  - rewrite IH. split; [intros [i Hi]; by exists (S i)|]. intros [[|i] Hi]; simpl in Hi; [done|by exists i].
Qed.

Lemma occupied_length cs : (length (occupied cs) <= length cs)%nat.
Proof. induction cs as [|[x|] cs IH]; simpl; lia. Qed.

Lemma occupied_room cs : (length (occupied cs) < length cs)%nat → ∃ i, cs !! i = Some None.
Proof.
  induction cs as [|[x|] cs IH]; simpl; intros H; [lia| |by exists 0%nat].
  destruct IH as [i Hi]; [lia|]. by exists (S i).
Qed.

(** A lookup in the table and the choice of the reference name the same operation. *)
Lemma lookup_match cs ops p res :
  looked_up cs p res → occupied cs ≡ₚ ops → unique_op p ops →
  match res with
  | None => take_op p ops = None
  | Some at_ => ∃ o rest, take_op p ops = Some (o, rest) ∧ cs !! at_ = Some (Some o) ∧ p o = true ∧
      occupied (<[at_ := None]> cs) ≡ₚ rest
  end.
Proof.
  intros Hl Hp Hu. destruct res as [at_|]; simpl in Hl.
  - destruct Hl as (o & Ho & Hpo). pose proof (occupied_take _ _ _ Ho) as Ht. rewrite Hp in Ht.
    destruct (take_op p ops) as [[o1 rest]|] eqn:E.
    + apply take_op_Some in E as [Hp1 Hpo1]. exists o1, rest.
      assert (o ∈ o1 :: rest) as Hin by (rewrite <-Hp1, Ht; left).
      apply elem_of_cons in Hin as [->|Hin].
      * split_and!; try done. rewrite Hp1 in Ht. symmetry. by eapply Permutation_cons_inv.
      * exfalso. apply elem_of_Permutation in Hin as [l Hin]. eapply (Hu o1 o l); try done. by rewrite Hp1, Hin.
    + rewrite take_op_None in E. rewrite E in Hpo; [done|]. rewrite Ht. left.
  - apply take_op_None. intros o Ho. rewrite <-Hp in Ho. apply occupied_elem in Ho as [i Hi]. by eapply Hl.
Qed.

(** ** The relation *)

Definition pops ops : list Z := (λ lane, spec_population lane ops) <$> seq 0 ROLES.

Record refines t s : Prop := mkRefines {
  rf_index : idx_exact t;
  rf_ops : occupied (contents t) ≡ₚ s_ops s;
  rf_capacity : length (slots t) = s_capacity s;
  rf_size : Z.of_nat (s_capacity s) < 2 ^ 64;
  rf_next : next t = s_next s;
  rf_next_width : in_width 64 (s_next s);
  rf_live : live t = Z.of_nat (length (s_ops s));
  rf_bytes : bytes t = spec_bytes (s_ops s);
  rf_bytes_width : spec_bytes (s_ops s) < 2 ^ 64;
  rf_pops : populations t = pops (s_ops s);
  rf_wf : ops_wf (s_next s) (s_ops s);
}.

Lemma role_bytes_nonneg o : op_shape o → 0 <= op_bytes o.
Proof.
  intros H. pose proof (os_bytes _ H) as Hb. unfold op_bytes, zsum. induction Hb as [|r l Hr Hb IH]; simpl; lia.
Qed.

Lemma spec_bytes_nonneg next ops : ops_wf next ops → 0 <= spec_bytes ops.
Proof.
  intros [He _ _ _]. unfold spec_bytes, zsum. induction He as [|o l [Ho _] He IH]; simpl; [lia|].
  pose proof (role_bytes_nonneg o Ho). lia.
Qed.

Lemma spec_population_range lane ops : 0 <= spec_population lane ops <= Z.of_nat (length ops).
Proof.
  unfold spec_population. pose proof (zsum_bounds (λ o, if lane_taken lane o then 1 else 0) 0 1 ops) as H.
  destruct H as [? ?]; [intros o; destruct (lane_taken lane o); lia|]. lia.
Qed.

Lemma refines_room t s : refines t s → (length (s_ops s) <= s_capacity s)%nat.
Proof.
  intros H. rewrite <-(rf_capacity _ _ H), <-(Permutation_length (rf_ops _ _ H)), <-contents_length. apply occupied_length.
Qed.

Lemma pops_lookup ops lane : (lane < ROLES)%nat → pops ops !! lane = Some (spec_population lane ops).
Proof. intros Hl. unfold pops. rewrite list_lookup_fmap, lookup_seq_lt by done. done. Qed.

Lemma pops_update ops ops' lane d :
  (lane < ROLES)%nat → spec_population lane ops' = spec_population lane ops + d →
  (∀ l, l ≠ lane → spec_population l ops' = spec_population l ops) →
  <[lane := spec_population lane ops + d]> (pops ops) = pops ops'.
Proof.
  intros Hl Hd Hs. apply list_eq. intros i. destruct (decide (i = lane)) as [->|Hi].
  - rewrite list_lookup_insert_eq by (unfold pops; by rewrite length_fmap, length_seq). by rewrite pops_lookup, Hd.
  - rewrite list_lookup_insert_ne by done. unfold pops. rewrite !list_lookup_fmap.
    destruct (seq 0 ROLES !! i) as [j|] eqn:E; [|done]. apply lookup_seq in E as [-> _]. simpl. by rewrite Hs.
Qed.

(** The lookups of the code under the relation. *)
Lemma refines_key t s role key :
  refines t s → ∃ res, find_key role key t = (inr res, t) ∧
  match res with
  | None => take_op (has_key (Role_index role) key) (s_ops s) = None
  | Some at_ => ∃ o rest, take_op (has_key (Role_index role) key) (s_ops s) = Some (o, rest) ∧
      contents t !! at_ = Some (Some o) ∧ has_key (Role_index role) key o = true ∧ occupied (<[at_ := None]> (contents t)) ≡ₚ rest
  end.
Proof.
  intros Hr. destruct (find_key_ok role key t (rf_index _ _ Hr)) as (res & Hf & Hl). exists res. split; [done|].
  apply (lookup_match _ _ _ _ Hl (rf_ops _ _ Hr)). by eapply unique_key, (rf_wf _ _ Hr).
Qed.

Lemma refines_shape t s i o : refines t s → contents t !! i = Some (Some o) → op_wf o.
Proof.
  intros Hr Hi. pose proof (pw_each _ _ (rf_wf _ _ Hr)) as He. rewrite Forall_forall in He. apply He.
  rewrite <-(rf_ops _ _ Hr). apply occupied_elem. by exists i.
Qed.

Lemma refines_id t s id :
  refines t s → ∃ res, find_id id t = (inr res, t) ∧
  match res with
  | None => take_op (has_alias id) (s_ops s) = None
  | Some at_ => ∃ o rest, take_op (has_alias id) (s_ops s) = Some (o, rest) ∧
      contents t !! at_ = Some (Some o) ∧ has_alias id o = true ∧ occupied (<[at_ := None]> (contents t)) ≡ₚ rest
  end.
Proof.
  intros Hr. destruct (find_id_ok id t (rf_index _ _ Hr)) as (res & Hf & Hl).
  { apply Forall_lookup. intros i [o|] Hi; [|done]. apply (refines_shape _ _ _ _ Hr Hi). }
  exists res. split; [done|]. apply (lookup_match _ _ _ _ Hl (rf_ops _ _ Hr)). by eapply unique_id, (rf_wf _ _ Hr).
Qed.

(** ** Counters *)

Lemma add_live_ok t d : in_width 64 (live t + d) → add_live d t = (inr tt, set_live (λ _, live t + d) t).
Proof.
  intros H. unfold add_live. rewrite (bind_ok _ _ t t t) by done. unfold or_panic. by rewrite checked_small.
Qed.

Lemma add_bytes_ok t d : in_width 64 (bytes t + d) → add_bytes d t = (inr tt, set_bytes (λ _, bytes t + d) t).
Proof.
  intros H. unfold add_bytes. rewrite (bind_ok _ _ t t t) by done. unfold or_panic. by rewrite checked_small.
Qed.

Lemma add_population_ok t lane p d :
  populations t !! lane = Some p → in_width 64 (p + d) →
  add_population lane d t = (inr tt, set_populations (<[lane := p + d]>) t).
Proof.
  intros Hp H. unfold add_population. rewrite (bind_ok _ _ t t t) by done. rewrite Hp.
  unfold or_panic. simpl. unfold mbind at 1, se_mbind, se_bind at 1. simpl. by rewrite checked_small.
Qed.

(** ** The index after one slot changed *)

Lemma node_split k n at_ :
  (k <= MAX_INDEXED)%nat → (at_ < k)%nat → 0 <= n → node_slot n = at_ → n = node_code at_ (node_lane n).
Proof.
  intros Hk Ha Hn Hs. pose proof (node_lane_lt n) as Hl. apply node_inj; [done|..].
  - rewrite node_code_val by lia. lia.
  - by rewrite node_slot_code by lia.
  - by rewrite node_lane_code by lia.
Qed.

Lemma lane_at_put (g : Operation C → nat → option nat) cs at_ x n :
  (at_ < length cs)%nat →
  lane_at g (<[at_ := x]> cs) n =
    if (0 <=? n) && (node_slot n =? at_)%nat then match x with Some o => g o (node_lane n) | None => None end
    else lane_at g cs n.
Proof.
  intros Ha. unfold lane_at. destruct (0 <=? n); [|done]. simpl. destruct (node_slot n =? at_)%nat eqn:E.
  - apply Nat.eqb_eq in E. rewrite E, list_lookup_insert_eq by done. by destruct x.
  - apply Nat.eqb_neq in E. by rewrite list_lookup_insert_ne.
Qed.

(** One lane of an operation changed. *)
Lemma lane_at_upd (g : Operation C → nat → option nat) cs at_ o o' lane n :
  (length cs <= MAX_INDEXED)%nat → cs !! at_ = Some (Some o) → (lane < ROLES)%nat →
  (∀ l, l ≠ lane → g o' l = g o l) →
  upd (node_code at_ lane) (g o' lane) (lane_at g cs) n = lane_at g (<[at_ := Some o']> cs) n.
Proof.
  intros Hk Ho Hl Hg. assert (at_ < length cs)%nat as Ha by (by eapply lookup_lt_Some).
  rewrite lane_at_put by done. destruct (decide (n = node_code at_ lane)) as [->|Hn].
  - rewrite upd_same, node_slot_code, node_lane_code, Nat.eqb_refl by lia.
    rewrite node_code_val by lia. by rewrite (proj2 (Z.leb_le _ _)) by lia.
  - rewrite upd_other by done. unfold lane_at. destruct (0 <=? n) eqn:E0; [|done]. simpl. bprop.
    destruct (node_slot n =? at_)%nat eqn:E; [|done]. apply Nat.eqb_eq in E. rewrite E, Ho. symmetry. apply Hg.
    intros El. apply Hn. rewrite <-El. by apply (node_split (length cs)).
Qed.

Lemma lane_at_same (g : Operation C → nat → option nat) cs at_ o o' n :
  cs !! at_ = Some (Some o) → (∀ l, g o' l = g o l) → lane_at g (<[at_ := Some o']> cs) n = lane_at g cs n.
Proof.
  intros Ho Hg. rewrite lane_at_put by (by eapply lookup_lt_Some). unfold lane_at.
  destruct (0 <=? n); [|done]. simpl. destruct (node_slot n =? at_)%nat eqn:E; [|done].
  apply Nat.eqb_eq in E. by rewrite E, Ho, Hg.
Qed.

Lemma vacant_at_keep cs at_ o o' i : cs !! at_ = Some (Some o) → vacant_at cs i ↔ vacant_at (<[at_ := Some o']> cs) i.
Proof.
  intros Ho. unfold vacant_at. destruct (decide (i = at_)) as [->|Hi].
  - rewrite list_lookup_insert_eq by (by eapply lookup_lt_Some). rewrite Ho. naive_solver.
  - by rewrite list_lookup_insert_ne.
Qed.

Lemma idx_length t K I V : idx t K I V → indexed t = true → (length (contents t) <= MAX_INDEXED)%nat.
Proof. intros H Hx. rewrite contents_length. by apply (ix_small _ _ _ _ (H Hx)). Qed.

(** [idx_ext] where the functions need agree only for an indexed table. *)
Lemma idx_ext_indexed t K I V K' I' V' :
  idx t K I V →
  ((length (contents t) <= MAX_INDEXED)%nat → (∀ n, K n = K' n) ∧ (∀ n, I n = I' n) ∧ (∀ i, V i ↔ V' i)) →
  idx t K' I' V'.
Proof.
  intros Hi He Hx. destruct (He (idx_length _ _ _ _ Hi Hx)) as (HK & HI & HV).
  eapply (idx_ext _ _ _ _ _ _ _ HK HI HV); done.
Qed.

Lemma key_lane_put lane r o l : l ≠ lane → key_lane (put_role lane r o) l = key_lane o l.
Proof. intros H. unfold key_lane. simpl. by rewrite list_lookup_insert_ne. Qed.

Lemma key_lane_same lane r o :
  (lane < length (roles o))%nat →
  key_lane (put_role lane r o) lane = match r with Some m => Some (key_bucket lane (member_key m)) | None => None end.
Proof. intros H. unfold key_lane. simpl. rewrite list_lookup_insert_eq by done. by destruct r. Qed.

(** ** Inserting *)

Lemma or_panic_ok {A} (x : A) t : or_panic (Some x) t = (inr x, t).
Proof. done. Qed.

Lemma head_alias_lookup o : op_shape o → aliases o !! 0%nat = Some (Some (head_alias o)).
Proof. intros H. destruct (os_head _ H) as [id Hid]. unfold head_alias. by rewrite Hid. Qed.

Lemma contents_lt t at_ x : contents t !! at_ = Some x → (at_ < length (slots t))%nat.
Proof. intros H. rewrite <-contents_length. by eapply lookup_lt_Some. Qed.

Lemma occupy_ok t role key n charge at_ o p :
  let lane := Role_index role in
  idx_exact t → contents t !! at_ = Some (Some o) → op_shape o → roles o !! lane = Some None →
  populations t !! lane = Some p → in_width 64 (p + 1) → in_width 64 (bytes t + n) →
  ∃ t', occupy role key n charge at_ t = (inr (head_alias o), t') ∧ idx_exact t' ∧
    contents t' = <[at_ := Some (put_role lane (Some (mkMember key n charge)) o)]> (contents t) ∧
    next t' = next t ∧ live t' = live t ∧ bytes t' = bytes t + n ∧ populations t' = <[lane := p + 1]> (populations t).
Proof.
  intros lane Hi Ho Hs Hl Hp Hpw Hbw. set (o' := put_role lane (Some (mkMember key n charge)) o).
  pose proof (Role_index_lt role : (lane < ROLES)%nat) as Hlane. unfold occupy. rewrite (bind_ok _ _ _ _ _ (get_operation_ok _ _ _ Ho)).
  destruct (put_operation_ok t _ _ _ at_ (Some o') Hi (contents_lt _ _ _ Ho)) as (t1 & Hput & Hd & Hi1).
  rewrite (bind_ok _ _ _ _ _ Hput). destruct Hd as [Hc Hnx Hlv Hby Hpo].
  rewrite (bind_ok _ _ _ _ _ (add_population_ok t1 lane p 1 ltac:(by rewrite Hpo) Hpw)).
  rewrite (bind_ok _ _ _ _ _ (add_bytes_ok (set_populations (<[lane := p + 1]>) t1) n ltac:(simpl; by rewrite Hby))).
  rewrite (head_alias_lookup _ Hs), !(bind_ok _ _ _ _ _ (or_panic_ok _ _)).
  set (t3 := set_bytes _ _).
  destruct (when_indexed_ok (link_key at_ lane key) t3 _ _ _
    (upd (node_code at_ lane) (Some (key_bucket lane key)) (lane_at key_lane (contents t)))
    (lane_at id_lane (contents t)) (vacant_at (contents t)) (idx_frame t1 t3 _ _ _ eq_refl eq_refl eq_refl eq_refl Hi1))
    as (t4 & Hw & Hd4 & Hi4).
  { intros Hix. apply link_key_ok; [done| |done|].
    - change (slots t3) with (slots t1). apply (contents_lt t1 at_ (Some o')). rewrite Hc.
      apply list_lookup_insert_eq. by eapply lookup_lt_Some.
    - assert (length (contents t) <= MAX_INDEXED)%nat as Hk.
      { rewrite <-(length_insert (contents t) at_ (Some o')), <-Hc, contents_length. apply (ix_small _ _ _ _ Hix). }
      rewrite (lane_at_code key_lane _ _ _ _ Hk Ho Hlane). unfold key_lane. by rewrite Hl. }
  rewrite (bind_ok _ _ _ _ _ Hw). destruct Hd4 as [Hc4 Hn4 Hl4 Hb4 Hp4].
  assert (contents t4 = <[at_ := Some o']> (contents t)) as Hct4 by (rewrite Hc4; exact Hc).
  exists t4. split_and!; [done| |done|by rewrite Hn4; exact Hnx|by rewrite Hl4; exact Hlv|rewrite Hb4; simpl; by rewrite Hby|rewrite Hp4; simpl; by rewrite Hpo].
  unfold idx_exact. rewrite Hct4. eapply idx_ext_indexed; [exact Hi4|]. rewrite Hct4, length_insert. intros Hk. split_and!.
  - intros m. rewrite <-(lane_at_upd key_lane _ _ _ _ lane m Hk Ho Hlane) by (intros l Hne; by apply key_lane_put).
    unfold o'. rewrite key_lane_same; [done|]. by eapply lookup_lt_Some.
  - intros m. symmetry. by apply (lane_at_same _ _ _ o).
  - intros i. by eapply vacant_at_keep.
Qed.

(** A vacant slot, from the free list or by scanning. *)
Lemma vacancy_ok t :
  idx_exact t → (∃ i, contents t !! i = Some None) →
  ∃ at_ t', (if indexed t then pop_free
     else mret (position (λ slot, match operation slot with None => true | Some _ => false end) (slots t))) t
     = (inr (Some at_), t') ∧
    same_data t t' ∧ contents t !! at_ = Some None ∧
    idx t' (lane_at key_lane (contents t)) (lane_at id_lane (contents t)) (λ j, vacant_at (contents t) j ∧ j ≠ at_).
Proof.
  intros Hi [i Hv]. destruct (indexed t) eqn:E.
  - destruct (pop_free_ok t _ _ _ (Hi E)) as (at_ & t' & Hp & Hs & Ha & HV & Hi').
    { exists i. split; [by eapply contents_lt|done]. }
    exists at_, t'. split_and!; [done..|]. by intros _.
  - destruct (position _ (slots t)) as [at_|] eqn:Ep.
    + exists at_, t. split_and!; [done..| |by intros Hx; rewrite E in Hx].
      apply position_Some in Ep as (sl & Hsl & Hn). unfold contents. rewrite list_lookup_fmap, Hsl. simpl.
      by destruct (operation sl).
    + apply position_None in Ep. rewrite Forall_lookup in Ep. unfold contents in Hv. rewrite list_lookup_fmap in Hv.
      destruct (slots t !! i) as [sl|] eqn:Es; [|done]. injection Hv as Hv. apply Ep in Es. by rewrite Hv in Es.
Qed.

Lemma mint_ok t :
  idx_exact t → (∃ i, contents t !! i = Some None) → in_width 64 (live t + 1) →
  ∃ at_ t', mint_operation t = (inr at_, t') ∧ contents t !! at_ = Some None ∧ idx_exact t' ∧
    contents t' = <[at_ := Some (new_operation (next t + 1))]> (contents t) ∧
    next t' = next t + 1 ∧ live t' = live t + 1 ∧ bytes t' = bytes t ∧ populations t' = populations t.
Proof.
  intros Hi Hv Hlw. destruct (vacancy_ok t Hi Hv) as (at_ & t1 & Hp & [Hc1 Hn1 Hl1 Hb1 Hp1] & Ha & Hi1).
  assert (at_ < length (contents t))%nat as Halt by (by eapply lookup_lt_Some).
  set (o := new_operation (next t + 1)) in *.
  unfold mint_operation. rewrite (bind_ok _ _ t t t) by done. rewrite (bind_ok _ _ _ _ _ Hp), (bind_ok _ _ _ _ _ (or_panic_ok _ _)).
  destruct (put_operation_ok t1 _ _ _ at_ (Some o) Hi1) as (t2 & Hput & [Hc2 Hn2 Hl2 Hb2 Hp2] & Hi2).
  { by rewrite <-contents_length, Hc1. }
  rewrite (bind_ok _ _ _ _ _ Hput), (bind_ok _ _ t2 tt (set_next (λ _, next t + 1) t2)) by done.
  rewrite (bind_ok _ _ _ _ _ (add_live_ok (set_next (λ _, next t + 1) t2) 1 ltac:(simpl; by rewrite Hl2, Hl1))).
  set (t3 := set_live _ _). assert (contents t3 = <[at_ := Some o]> (contents t)) as Hc3 by (rewrite <-Hc1; exact Hc2).
  destruct (when_indexed_ok (link_id at_ 0 (next t + 1)) t3 _ _ _ (lane_at key_lane (contents t))
    (upd (node_code at_ 0) (Some (id_bucket (next t + 1))) (lane_at id_lane (contents t)))
    (λ j, vacant_at (contents t) j ∧ j ≠ at_) (idx_frame t2 t3 _ _ _ eq_refl eq_refl eq_refl eq_refl Hi2))
    as (t4 & Hw & [Hc4 Hn4 Hl4 Hb4 Hp4] & Hi4).
  { intros Hix. apply link_id_ok; [done| |unfold ROLES; lia|].
    - by rewrite <-contents_length, Hc3, length_insert.
    - pose proof (ix_small _ _ _ _ Hix) as Hk. rewrite <-contents_length, Hc3, length_insert in Hk.
      unfold lane_at. rewrite node_slot_code, Ha by (unfold ROLES; lia). by destruct (_ <=? _). }
  rewrite (bind_ok _ _ _ _ _ Hw). exists at_, t4. rewrite Hc4, Hn4, Hl4, Hb4, Hp4. unfold t3. simpl. rewrite Hl2, Hl1, Hb2, Hb1, Hp2, Hp1.
  split_and!; try done. unfold idx_exact. rewrite Hc4, Hc3. eapply idx_ext_indexed; [exact Hi4|].
  rewrite Hc4, Hc3, length_insert. intros Hk. split_and!.
  - intros n. rewrite lane_at_put by done. unfold lane_at. destruct (0 <=? n); [|done]. simpl.
    destruct (node_slot n =? at_)%nat eqn:E; [|done]. apply Nat.eqb_eq in E. rewrite E, Ha.
    unfold key_lane, o, new_operation. simpl. pose proof (node_lane_lt n) as Hl. unfold ROLES in Hl. 
    destruct (node_lane n) as [|[|[|[|[|]]]]]; done.
  - intros n. rewrite lane_at_put by done. destruct (decide (n = node_code at_ 0)) as [->|Hn].
    + rewrite upd_same, node_slot_code, node_lane_code, Nat.eqb_refl by (unfold ROLES; lia).
      rewrite node_code_val by (unfold ROLES; lia). by rewrite (proj2 (Z.leb_le _ _)) by lia.
    + rewrite upd_other by done. unfold lane_at. destruct (0 <=? n) eqn:E0; [|done]. simpl. bprop.
      destruct (node_slot n =? at_)%nat eqn:E; [|done]. apply Nat.eqb_eq in E. rewrite E, Ha.
      pose proof (node_split (length (contents t)) n at_ Hk Halt E0 E) as Hsp. pose proof (node_lane_lt n) as Hl. unfold ROLES in Hl.
      unfold id_lane, o, new_operation. simpl. destruct (node_lane n) as [|[|[|[|[|]]]]]; done.
  - intros i. unfold vacant_at. destruct (decide (i = at_)) as [->|Hne].
    + rewrite list_lookup_insert_eq by done. naive_solver.
    + rewrite list_lookup_insert_ne by done. naive_solver.
Qed.

(** An answer of the reference, as the code gives it. *)
Definition lift {A} (a : Refusal + A) : Stop + A := match a with inl e => inl (Refuse e) | inr x => inr x end.

Lemma lane_taken_lookup o lane :
  op_shape o → (lane < ROLES)%nat → ∃ r, roles o !! lane = Some r ∧ lane_taken lane o = bool_decide (is_Some r).
Proof.
  intros Hs Hl. destruct (lookup_lt_is_Some_2 (roles o) lane) as [r Hr]; [by rewrite (os_roles _ Hs)|].
  exists r. split; [done|]. unfold lane_taken. rewrite Hr. by destruct r.
Qed.

Lemma preflight_ok t s role key existing n :
  refines t s → 0 <= n →
  preflight role key existing n t =
    (match spec_preflight role key existing n s with Some e => inl (Refuse e) | None => inr tt end, t).
Proof.
  intros Hr Hn. unfold preflight, spec_preflight. destruct (refines_key t s role key Hr) as (res & -> %(bind_ok _ _ _ _ _) & Hres).
  rewrite existsb_take_op. destruct res as [at_|]; [by destruct Hres as (o & rest & -> & _)|]. rewrite Hres. simpl.
  rewrite (bind_ok _ _ t t t) by done. unfold checked_add. rewrite (rf_bytes _ _ Hr).
  pose proof (spec_bytes_nonneg _ _ (rf_wf _ _ Hr)) as Hb0.
  destruct (checked_spec 64 (spec_bytes (s_ops s) + n)) as [[-> Hw]|[-> Hw]].
  2:{ by rewrite (proj2 (Z.leb_le (2 ^ 64) (spec_bytes (s_ops s) + n))) by (unfold in_width in Hw; lia). }
  rewrite (proj2 (Z.leb_gt (2 ^ 64) (spec_bytes (s_ops s) + n))) by (unfold in_width in Hw; lia). destruct existing as [id|].
  - destruct (refines_id t s id Hr) as (res & -> %(bind_ok _ _ _ _ _) & Hres').
    destruct res as [at_|]; [|by rewrite Hres']. destruct Hres' as (o & rest & -> & Ho & _).
    rewrite (bind_ok _ _ t at_ t) by done. rewrite (bind_ok _ _ _ _ _ (get_operation_ok _ _ _ Ho)).
    destruct (lane_taken_lookup o (Role_index role)) as (r & Hro & ->); [apply (refines_shape _ _ _ _ Hr Ho)|apply Role_index_lt|].
    rewrite Hro, (bind_ok _ _ _ _ _ (or_panic_ok _ _)). by destruct r.
  - rewrite (rf_capacity _ _ Hr), (rf_live _ _ Hr), (rf_next _ _ Hr). unfold checked_add.
    pose proof (rf_next_width _ _ Hr) as Hnw.
    destruct (s_capacity s <=? length (s_ops s))%nat eqn:E.
    + apply Nat.leb_le in E. by rewrite (proj2 (Z.leb_le _ _)) by lia.
    + apply Nat.leb_gt in E. rewrite (proj2 (Z.leb_gt _ _)) by lia. simpl.
      destruct (checked_spec 64 (s_next s + 1)) as [[-> Hw']|[-> Hw']]; simpl; unfold in_width in *.
      * by rewrite (proj2 (Z.leb_gt _ _)) by lia.
      * by rewrite (proj2 (Z.leb_le _ _)) by lia.
Qed.

#[local] Instance spec_bytes_proper : Proper ((≡ₚ) ==> (=)) (@spec_bytes C).
Proof. intros l l' H. unfold spec_bytes. by rewrite H. Qed.

#[local] Instance spec_population_proper lane : Proper ((≡ₚ) ==> (=)) (@spec_population C lane).
Proof. intros l l' H. unfold spec_population. by rewrite H. Qed.

#[local] Instance pops_proper : Proper ((≡ₚ) ==> (=)) pops.
Proof. intros l l' H. unfold pops. apply list_fmap_ext. intros i lane _. by rewrite H. Qed.

Lemma op_bytes_put lane r r' o :
  roles o !! lane = Some r' → op_bytes (put_role lane r o) = op_bytes o - role_bytes r' + role_bytes r.
Proof. intros H. unfold op_bytes, put_role. simpl. by rewrite (zsum_insert _ _ _ _ _ H). Qed.

Lemma lane_taken_put lane r o l :
  (lane < length (roles o))%nat →
  lane_taken l (put_role lane r o) = if decide (l = lane) then bool_decide (is_Some r) else lane_taken l o.
Proof.
  intros Hl. unfold lane_taken, put_role. simpl. case_decide as E.
  - subst l. rewrite list_lookup_insert_eq by done. by destruct r.
  - by rewrite list_lookup_insert_ne.
Qed.

(** The relation for a table whose operation at [at_] may still lack a role. *)
Record holds t (at_ : nat) o rest (capacity : nat) (next' : Z) : Prop := mkHolds {
  hd_index : idx_exact t;
  hd_at : contents t !! at_ = Some (Some o);
  hd_rest : occupied (<[at_ := None]> (contents t)) ≡ₚ rest;
  hd_capacity : length (slots t) = capacity;
  hd_size : Z.of_nat capacity < 2 ^ 64;
  hd_next : next t = next';
  hd_next_width : in_width 64 next';
  hd_live : live t = Z.of_nat (length (o :: rest));
  hd_bytes : bytes t = spec_bytes (o :: rest);
  hd_bytes_width : spec_bytes (o :: rest) < 2 ^ 64;
  hd_pops : populations t = pops (o :: rest);
  hd_fits : op_fits next' o rest;
}.

Lemma refines_holds t s at_ o rest :
  refines t s → contents t !! at_ = Some (Some o) → occupied (<[at_ := None]> (contents t)) ≡ₚ rest →
  s_ops s ≡ₚ o :: rest ∧ holds t at_ o rest (s_capacity s) (s_next s).
Proof.
  intros Hr Ho Hocc. assert (s_ops s ≡ₚ o :: rest) as Hp by (by rewrite <-(rf_ops _ _ Hr), (occupied_take _ _ _ Ho), Hocc).
  split; [done|]. destruct Hr as [Hi Hops Hcap Hsz Hn Hnw Hl Hb Hbw Hpo Hw]. rewrite Hp in Hl, Hb, Hbw, Hpo, Hw.
  constructor; try done. by apply ops_wf_cons in Hw as [? _].
Qed.

Lemma holds_refines t at_ o rest capacity next' :
  holds t at_ o rest capacity next' → all_none (roles o) = false → refines t (mkSpec capacity (o :: rest) next').
Proof.
  intros [Hi Ho Hr Hcap Hsz Hn Hnw Hl Hb Hbw Hpo Hf] Hlive. constructor; simpl; try done.
  - by rewrite (occupied_take _ _ _ Ho), Hr.
  - by apply ops_wf_cons.
Qed.

Lemma existsb_key_elem lane key ops : existsb (has_key lane key) ops = false → (lane, key) ∉ keys ops.
Proof.
  intros H Hin. unfold keys in Hin. apply list_elem_of_In, in_concat in Hin as (l & Hl & Hin).
  apply list_elem_of_In in Hl, Hin. apply list_elem_of_fmap in Hl as (o & -> & Ho).
  apply has_key_elem in Hin. assert (existsb (has_key lane key) ops = true); [|congruence].
  apply existsb_exists. exists o. split; [by apply list_elem_of_In|done].
Qed.

Lemma keys_cons_not k o ops : k ∉ keys (o :: ops) → (k ∉ op_keys o) ∧ (k ∉ keys ops).
Proof. unfold keys. simpl. rewrite elem_of_app. tauto. Qed.

Lemma holds_length t at_ o rest capacity next' :
  holds t at_ o rest capacity next' → (length (o :: rest) <= capacity)%nat.
Proof.
  intros H. pose proof (occupied_length (contents t)) as Hlen.
  rewrite contents_length, (hd_capacity _ _ _ _ _ _ H) in Hlen.
  rewrite (Permutation_length (occupied_take _ _ _ (hd_at _ _ _ _ _ _ H))) in Hlen. simpl in *.
  by rewrite (Permutation_length (hd_rest _ _ _ _ _ _ H)) in Hlen.
Qed.

Lemma spec_population_cons lane o ops :
  spec_population lane (o :: ops) = (if lane_taken lane o then 1 else 0) + spec_population lane ops.
Proof. done. Qed.

Lemma spec_bytes_cons o ops : spec_bytes (o :: ops) = op_bytes o + spec_bytes ops.
Proof. done. Qed.

(** A lane of the operation in hand written: the populations follow. *)
Lemma pops_put lane r r' o rest :
  (lane < ROLES)%nat → roles o !! lane = Some r' →
  <[lane := spec_population lane (o :: rest) +
      ((if bool_decide (is_Some r) then 1 else 0) - (if bool_decide (is_Some r') then 1 else 0))]> (pops (o :: rest)) =
  pops (put_role lane r o :: rest).
Proof.
  intros Hl Hr. assert (lane < length (roles o))%nat as Hlen by (by eapply lookup_lt_Some).
  assert (lane_taken lane o = bool_decide (is_Some r')) as Ht by (unfold lane_taken; rewrite Hr; by destruct r').
  apply pops_update; [done|..].
  - rewrite !spec_population_cons, lane_taken_put, decide_True, Ht by done. lia.
  - intros l Hne. by rewrite !spec_population_cons, lane_taken_put, decide_False.
Qed.

Lemma occupy_refines t at_ o rest capacity next' role key n charge :
  holds t at_ o rest capacity next' → roles o !! Role_index role = Some None → 0 <= n →
  (Role_index role, key) ∉ keys (o :: rest) → spec_bytes (o :: rest) + n < 2 ^ 64 →
  ∃ t', occupy role key n charge at_ t = (inr (head_alias o), t') ∧
    refines t' (mkSpec capacity (put_role (Role_index role) (Some (mkMember key n charge)) o :: rest) next').
Proof.
  intros H Hl Hn Hk Hb. set (lane := Role_index role) in *. set (m := mkMember key n charge).
  pose proof (Role_index_lt role : (lane < ROLES)%nat) as Hlane. pose proof (holds_length _ _ _ _ _ _ H) as Hlen.
  pose proof (hd_size _ _ _ _ _ _ H) as Hsz. pose proof (spec_population_range lane rest) as Hpr.
  assert (lane_taken lane o = false) as Ht by (unfold lane_taken; by rewrite Hl).
  pose proof (of_shape _ _ _ (hd_fits _ _ _ _ _ _ H)) as Hos. pose proof (role_bytes_nonneg _ Hos).
  pose proof (spec_bytes_nonneg _ _ (of_rest _ _ _ (hd_fits _ _ _ _ _ _ H))).
  assert (spec_population lane (o :: rest) = spec_population lane rest) as Hpe by (rewrite spec_population_cons, Ht; lia).
  destruct (occupy_ok t role key n charge at_ o (spec_population lane (o :: rest))) as (t' & He & Hi' & Hc' & Hn' & Hl' & Hb' & Hp').
  - apply H.
  - apply H.
  - done.
  - done.
  - rewrite (hd_pops _ _ _ _ _ _ H). by apply pops_lookup.
  - rewrite Hpe. simpl in Hlen. unfold in_width. lia.
  - rewrite (hd_bytes _ _ _ _ _ _ H), spec_bytes_cons in *. unfold in_width. lia.
  - exists t'. split; [done|]. fold lane m in Hc', Hp'.
    assert (spec_bytes (put_role lane (Some m) o :: rest) = spec_bytes (o :: rest) + n) as Hbe.
    { rewrite !spec_bytes_cons, (op_bytes_put _ _ _ _ Hl). simpl. lia. }
    assert (at_ < length (contents t))%nat as Hat by (eapply lookup_lt_Some, H).
    apply keys_cons_not in Hk as [Hk1 Hk3].
    constructor; cbn [s_ops s_next s_capacity]; try done.
    + rewrite Hc', occupied_put by done. simpl. by rewrite (hd_rest _ _ _ _ _ _ H).
    + rewrite <-contents_length, Hc', length_insert, contents_length. apply H.
    + rewrite Hn'. apply H.
    + apply H.
    + rewrite Hl', (hd_live _ _ _ _ _ _ H). done.
    + rewrite Hb', (hd_bytes _ _ _ _ _ _ H), Hbe. done.
    + by rewrite Hbe.
    + rewrite Hp', (hd_pops _ _ _ _ _ _ H). by rewrite <-(pops_put lane (Some m) None o rest Hlane Hl).
    + apply fits_put; [by apply H|done..].
Qed.

Lemma mint_holds t s :
  refines t s → (length (s_ops s) < s_capacity s)%nat → s_next s + 1 < 2 ^ 64 →
  ∃ at_ t', mint_operation t = (inr at_, t') ∧
    holds t' at_ (new_operation (s_next s + 1)) (s_ops s) (s_capacity s) (s_next s + 1).
Proof.
  intros Hr Hroom Hnx. pose proof (rf_next_width _ _ Hr) as Hnw. pose proof (rf_size _ _ Hr) as Hsz.
  destruct (mint_ok t) as (at_ & t1 & Hm & Hv & Hi1 & Hc1 & Hn1 & Hl1 & Hb1 & Hp1).
  - apply Hr.
  - apply occupied_room. by rewrite (Permutation_length (rf_ops _ _ Hr)), contents_length, (rf_capacity _ _ Hr).
  - rewrite (rf_live _ _ Hr). unfold in_width. lia.
  - rewrite (rf_next _ _ Hr) in Hc1, Hn1. assert (at_ < length (contents t))%nat as Hat by (by eapply lookup_lt_Some).
    exists at_, t1. split; [done|]. constructor; try done.
    + rewrite Hc1. by apply list_lookup_insert_eq.
    + rewrite Hc1, list_insert_insert_eq, (list_insert_id _ _ _ Hv). apply Hr.
    + rewrite <-contents_length, Hc1, length_insert, contents_length. apply Hr.
    + unfold in_width in *. lia.
    + rewrite Hl1, (rf_live _ _ Hr). simpl. lia.
    + rewrite Hb1, (rf_bytes _ _ Hr). done.
    + rewrite spec_bytes_cons. pose proof (rf_bytes_width _ _ Hr). unfold op_bytes, new_operation. simpl. lia.
    + rewrite Hp1, (rf_pops _ _ Hr). unfold pops. apply list_fmap_ext. intros i lane [-> Hl]%lookup_seq.
      rewrite spec_population_cons. unfold lane_taken, new_operation. simpl in *. unfold ROLES in *.
      destruct i as [|[|[|[|[|]]]]]; simpl; lia.
    + apply new_operation_fits; [apply Hnw|apply Hr].
Qed.

Lemma new_operation_lane id lane : (lane < ROLES)%nat → roles (@new_operation C id) !! lane = Some None.
Proof. intros H. by apply lookup_replicate_2. Qed.

Lemma insert_refines t s role key existing n charge :
  refines t s → 0 <= n →
  ∃ t', insert role key existing n charge t = (lift (spec_insert role key existing n charge s).1, t') ∧
    refines t' (spec_insert role key existing n charge s).2.
Proof.
  intros Hr Hn. unfold insert, spec_insert. pose proof (preflight_ok t s role key existing n Hr Hn) as Hpre.
  destruct (spec_preflight role key existing n s) as [e|] eqn:Es; [exists t; by rewrite (bind_err _ _ _ _ _ Hpre)|].
  rewrite (bind_ok _ _ _ _ _ Hpre). unfold spec_preflight in Es.
  destruct (existsb _ _) eqn:Ek; [done|]. apply existsb_key_elem in Ek.
  destruct (2 ^ 64 <=? spec_bytes (s_ops s) + n) eqn:Eb; [done|]. bprop.
  destruct existing as [id|].
  - destruct (refines_id t s id Hr) as (res & Hf & Hres).
    destruct (take_op (has_alias id) (s_ops s)) as [[o rest]|] eqn:Et; [|done].
    destruct res as [at_|]; [|done]. destruct Hres as (o' & rest' & [= <- <-] & Ho & _ & Hocc).
    rewrite (bind_ok _ _ t at_ t) by (by rewrite (bind_ok _ _ _ _ _ Hf)).
    destruct (refines_holds _ _ _ _ _ Hr Ho Hocc) as [Hp Hh]. rewrite Hp in Ek, Eb.
    destruct (lane_taken_lookup o (Role_index role)) as (r & Hro & Htk); [by apply Hh|apply Role_index_lt|].
    rewrite Htk in Es. destruct r; [done|]. by apply occupy_refines.
  - destruct (s_capacity s <=? length (s_ops s))%nat eqn:Ec; [done|]. apply Nat.leb_gt in Ec.
    simpl in Es. destruct (2 ^ 64 <=? s_next s + 1) eqn:En; [done|]. bprop.
    destruct (mint_holds t s Hr Ec En) as (at_ & t1 & Hm & Hh). rewrite (bind_ok _ _ _ _ _ Hm).
    apply (occupy_refines t1 at_ _ _ _ _ role key n charge Hh); [apply new_operation_lane, Role_index_lt|done|..].
    + exact Ek.
    + rewrite spec_bytes_cons. change (op_bytes _) with 0. lia.
Qed.

(** ** Releasing *)

Lemma key_lane_none o lane : all_none (roles o) = true → key_lane o lane = None.
Proof.
  intros H. unfold key_lane. destruct (roles o !! lane) as [[m|]|] eqn:E; [|done..].
  assert (all_none (roles o) = false); [|congruence]. apply all_none_false. eauto.
Qed.

(** A loop over entries of one slot brings the index to its new operation. *)
Lemma upds_put {A} (g : Operation C → nat → option nat) cs at_ o x (ps : list (nat * A)) v n :
  let g' lane := match x with Some o' => g o' lane | None => None end in
  (length cs <= MAX_INDEXED)%nat → cs !! at_ = Some (Some o) → NoDup (entry_node at_ <$> ps) →
  (∀ p, p ∈ ps → (fst p < ROLES)%nat) → (∀ p, p ∈ ps → v p = g' (fst p)) →
  (∀ lane, (lane < ROLES)%nat → lane ∉ fst <$> ps → g o lane = g' lane) →
  upds (entry_node at_) v ps (lane_at g cs) n = lane_at g (<[at_ := x]> cs) n.
Proof.
  intros g' Hk Ho Hnd Hl Hv Hold. assert (at_ < length cs)%nat as Ha by (by eapply lookup_lt_Some).
  rewrite lane_at_put by done. fold (g' (node_lane n)).
  destruct (0 <=? n) eqn:E0; simpl; bprop.
  2:{ rewrite upds_other; [done|]. intros (p & -> & Hp)%list_elem_of_fmap. unfold entry_node in E0.
      rewrite node_code_val in E0 by (apply Hl in Hp; lia). lia. }
  destruct (node_slot n =? at_)%nat eqn:E.
  - apply Nat.eqb_eq in E. pose proof (node_split (length cs) n at_ Hk Ha E0 E) as Hn.
    destruct (decide (node_lane n ∈ fst <$> ps)) as [Hin|Hin].
    + apply list_elem_of_fmap in Hin as (p & Hlp & Hp). assert (n = entry_node at_ p) as Hne by (unfold entry_node; by rewrite <-Hlp).
      rewrite Hne, upds_in, Hv by done. unfold entry_node. rewrite node_lane_code; [done|lia|by apply Hl].
    + rewrite upds_other.
      * unfold lane_at. rewrite (proj2 (Z.leb_le _ _)), E, Ho by done. apply Hold; [apply node_lane_lt|done].
      * intros (p & He & Hp)%list_elem_of_fmap. apply Hin, list_elem_of_fmap. exists p. split; [|done].
        rewrite He. unfold entry_node. rewrite node_lane_code; [done|lia|by apply Hl].
  - apply Nat.eqb_neq in E. rewrite upds_other; [done|]. intros (p & He & Hp)%list_elem_of_fmap. apply E. rewrite He.
    unfold entry_node. rewrite node_slot_code; [done|lia|by apply Hl].
Qed.

(** An operation without roles leaves the table. *)
Lemma vacate_ok t at_ o :
  idx_exact t → contents t !! at_ = Some (Some o) → length (aliases o) = ROLES → all_none (roles o) = true →
  in_width 64 (live t - 1) →
  ∃ t', vacate at_ o t = (inr tt, t') ∧ idx_exact t' ∧ contents t' = <[at_ := None]> (contents t) ∧
    next t' = next t ∧ live t' = live t - 1 ∧ bytes t' = bytes t ∧ populations t' = populations t.
Proof.
  intros Hi Ho Hal Hno Hlw. assert (at_ < length (contents t))%nat as Hat by (by eapply lookup_lt_Some).
  unfold vacate. destruct (put_operation_ok t _ _ _ at_ None Hi (contents_lt _ _ _ Ho)) as (t1 & Hput & [Hc1 Hn1 Hl1 Hb1 Hp1] & Hi1).
  rewrite (bind_ok _ _ _ _ _ Hput).
  rewrite (bind_ok _ _ _ _ _ (add_live_ok t1 (-1) ltac:(rewrite Hl1; done))). set (t2 := set_live _ _).
  pose proof (present_from_lanes (aliases o) 0) as Hlanes.
  assert (∀ p, p ∈ present (aliases o) → (fst p < ROLES)%nat) as Hsmall.
  { intros [lane id] Hp%present_elem. rewrite <-Hal. by eapply lookup_lt_Some. }
  destruct (when_indexed_ok (for_each (λ p, unlink_id at_ (fst p) (snd p)) (present (aliases o)) ;; push_free at_) t2 _ _ _
    (lane_at key_lane (contents t)) (upds (entry_node at_) (λ _, None) (present (aliases o)) (lane_at id_lane (contents t)))
    (λ j, vacant_at (contents t) j ∨ j = at_) (idx_frame t1 t2 _ _ _ eq_refl eq_refl eq_refl eq_refl Hi1))
    as (t3 & Hw & [Hc3 Hn3 Hl3 Hb3 Hp3] & Hi3).
  { intros Hix. pose proof (ix_small _ _ _ _ Hix) as Hk. change (slots t2) with (slots t1) in Hk.
    rewrite <-contents_length, Hc1, length_insert in Hk. eapply index_bind.
    - apply unlink_ids_ok; [done|apply entry_nodes_nodup; [lia|done..]|].
      intros [lane id] Hp. unfold entry_node. rewrite (lane_at_code id_lane _ _ _ _ Hk Ho (Hsmall _ Hp)). simpl.
      apply present_elem in Hp. unfold id_lane. by rewrite Hp.
    - intros t' Hs Hi'. apply push_free_ok; [done| |].
      + rewrite (same_length _ _ (sd_contents _ _ Hs)). change (slots t2) with (slots t1).
        by rewrite <-contents_length, Hc1, length_insert.
      + unfold vacant_at. rewrite Ho. done. }
  exists t3. rewrite Hw, Hc3, Hn3, Hl3, Hb3, Hp3. unfold t2. simpl. rewrite Hl1, Hb1, Hp1.
  split_and!; try done. unfold idx_exact. rewrite Hc3. change (contents t2) with (contents t1). rewrite Hc1.
  eapply idx_ext_indexed; [exact Hi3|]. rewrite Hc3. change (contents t2) with (contents t1). rewrite Hc1, length_insert.
  intros Hk. split_and!.
  - intros n. rewrite lane_at_put by done. unfold lane_at. destruct (0 <=? n); [|done]. simpl.
    destruct (node_slot n =? at_)%nat eqn:E; [|done]. apply Nat.eqb_eq in E. rewrite E, Ho. by apply key_lane_none.
  - intros n. eapply (upds_put id_lane); try done; [apply entry_nodes_nodup; [lia|done..]|].
    intros lane Hlane Hnot. unfold id_lane. destruct (aliases o !! lane) as [[id|]|] eqn:E; [|done..].
    exfalso. apply Hnot, list_elem_of_fmap. exists (lane, id). split; [done|]. by apply present_elem.
  - intros i. unfold vacant_at. destruct (decide (i = at_)) as [->|Hne].
    + rewrite list_lookup_insert_eq by done. naive_solver.
    + rewrite list_lookup_insert_ne by done. naive_solver.
Qed.

Lemma all_none_bytes (l : list (option (Membership C))) : all_none l = true → zsum role_bytes l = 0.
Proof. unfold all_none, zsum. induction l as [|[m|] l IH]; simpl; intros H; [done|done|]. by rewrite IH. Qed.

Lemma all_none_taken o lane : all_none (roles o) = true → lane_taken lane o = false.
Proof.
  intros H. unfold lane_taken. destruct (roles o !! lane) as [[m|]|] eqn:E; [|done..].
  assert (all_none (roles o) = false); [|congruence]. apply all_none_false. eauto.
Qed.

(** The operation in hand leaves the table if it has no role left. *)
Lemma settle_refines t at_ o rest capacity next' :
  holds t at_ o rest capacity next' →
  ∃ t', (if all_none (roles o) then vacate at_ o else mret tt) t = (inr tt, t') ∧
    contents t' = <[at_ := if all_none (roles o) then None else Some o]> (contents t) ∧
    refines t' (mkSpec capacity (option_list (if all_none (roles o) then None else Some o) ++ rest) next').
Proof.
  intros H. destruct (all_none (roles o)) eqn:E.
  2:{ exists t. rewrite list_insert_id by apply H. split_and!; [done..|by apply (holds_refines _ at_)]. }
  destruct (vacate_ok t at_ o) as (t' & Hv & Hi & Hc & Hn & Hl & Hb & Hp); try apply H; [done|..].
  { rewrite (hd_live _ _ _ _ _ _ H). pose proof (holds_length _ _ _ _ _ _ H). pose proof (hd_size _ _ _ _ _ _ H).
    unfold in_width. simpl in *. lia. }
  exists t'. split_and!; [done..|]. assert (spec_bytes (o :: rest) = spec_bytes rest) as Hbe.
  { rewrite spec_bytes_cons. unfold op_bytes. by rewrite all_none_bytes. }
  change (option_list None ++ rest) with rest. constructor; cbn [s_ops s_next s_capacity]; try apply H; try done.
  - rewrite Hc. apply H.
  - rewrite <-contents_length, Hc, length_insert, contents_length. apply H.
  - rewrite Hn. apply H.
  - rewrite Hl, (hd_live _ _ _ _ _ _ H). simpl. lia.
  - by rewrite Hb, (hd_bytes _ _ _ _ _ _ H).
  - rewrite <-Hbe. apply H.
  - rewrite Hp, (hd_pops _ _ _ _ _ _ H). unfold pops. apply list_fmap_ext. intros i lane _.
    by rewrite spec_population_cons, all_none_taken.
Qed.

(** One role dropped from the operation in hand. *)
Lemma holds_drop t t' at_ o rest capacity next' lane m :
  holds t at_ o rest capacity next' → roles o !! lane = Some (Some m) → (lane < ROLES)%nat →
  idx_exact t' → contents t' = <[at_ := Some (put_role lane None o)]> (contents t) → next t' = next t → live t' = live t →
  bytes t' = bytes t + - member_bytes_ m →
  populations t' = <[lane := spec_population lane (o :: rest) + -1]> (populations t) →
  holds t' at_ (put_role lane None o) rest capacity next'.
Proof.
  intros H Hm Hl Hi Hc Hn Hlv Hb Hp. assert (at_ < length (contents t))%nat as Hat by (eapply lookup_lt_Some, H).
  assert (spec_bytes (put_role lane None o :: rest) = spec_bytes (o :: rest) - member_bytes_ m) as Hbe.
  { rewrite !spec_bytes_cons, (op_bytes_put _ _ _ _ Hm). simpl. lia. }
  assert (0 <= member_bytes_ m) as Hm0.
  { pose proof (os_bytes _ (of_shape _ _ _ (hd_fits _ _ _ _ _ _ H))) as Hob. by apply (Forall_lookup_1 _ _ _ _ Hob Hm). }
  constructor; try apply H; try done.
  - rewrite Hc. by apply list_lookup_insert_eq.
  - rewrite Hc, list_insert_insert_eq. apply H.
  - rewrite <-contents_length, Hc, length_insert, contents_length. apply H.
  - rewrite Hn. apply H.
  - rewrite Hlv. apply H.
  - rewrite Hb, (hd_bytes _ _ _ _ _ _ H), Hbe. lia.
  - rewrite Hbe. pose proof (hd_bytes_width _ _ _ _ _ _ H). lia.
  - rewrite Hp, (hd_pops _ _ _ _ _ _ H), <-(pops_put lane None (Some m) o rest Hl Hm). done.
  - eapply fits_drop; [apply H|done].
Qed.

Lemma holds_counts t at_ o rest capacity next' lane m :
  holds t at_ o rest capacity next' → roles o !! lane = Some (Some m) → (lane < ROLES)%nat →
  populations t !! lane = Some (spec_population lane (o :: rest)) ∧
  in_width 64 (spec_population lane (o :: rest) + -1) ∧ in_width 64 (bytes t + - member_bytes_ m).
Proof.
  intros H Hm Hl. split_and!.
  - rewrite (hd_pops _ _ _ _ _ _ H). by apply pops_lookup.
  - rewrite spec_population_cons. unfold lane_taken. rewrite Hm. pose proof (spec_population_range lane rest).
    pose proof (holds_length _ _ _ _ _ _ H). pose proof (hd_size _ _ _ _ _ _ H). unfold in_width. simpl in *. lia.
  - rewrite (hd_bytes _ _ _ _ _ _ H), spec_bytes_cons. pose proof (hd_fits _ _ _ _ _ _ H) as [Hs Hr _ _ _ _ _].
    pose proof (spec_bytes_nonneg _ _ Hr). pose proof (hd_bytes_width _ _ _ _ _ _ H) as Hw. rewrite spec_bytes_cons in Hw.
    pose proof (role_bytes_nonneg _ (put_role_shape lane None o Hs ltac:(simpl; lia))) as Hd.
    rewrite (op_bytes_put _ _ _ _ Hm) in Hd. simpl in Hd.
    pose proof (Forall_lookup_1 _ _ _ _ (os_bytes _ Hs) Hm) as Hm0. simpl in Hm0. unfold in_width. lia.
Qed.

(** The index for the operation in hand without one of its roles. *)
Lemma idx_dropped t t' at_ o lane m :
  idx t' (upd (node_code at_ lane) None (lane_at key_lane (contents t))) (lane_at id_lane (contents t)) (vacant_at (contents t)) →
  contents t !! at_ = Some (Some o) → roles o !! lane = Some (Some m) → (lane < ROLES)%nat →
  contents t' = <[at_ := Some (put_role lane None o)]> (contents t) → idx_exact t'.
Proof.
  intros Hi Ho Hm Hl Hc. unfold idx_exact. rewrite Hc. eapply idx_ext_indexed; [exact Hi|].
  rewrite Hc, length_insert. intros Hk. split_and!.
  - intros n. rewrite <-(lane_at_upd key_lane _ _ _ _ lane n Hk Ho Hl) by (intros l Hne; by apply key_lane_put).
    rewrite key_lane_same; [done|]. by eapply lookup_lt_Some.
  - intros n. symmetry. by apply (lane_at_same _ _ _ o).
  - intros i. by eapply vacant_at_keep.
Qed.

Lemma unlink_present t t' K I V at_ o lane m :
  idx t' (lane_at key_lane (contents t)) I V → K = lane_at key_lane (contents t) →
  (length (slots t') = length (slots t))%nat →
  contents t !! at_ = Some (Some o) → roles o !! lane = Some (Some m) → (lane < ROLES)%nat →
  ∃ t1, when_indexed (unlink_key at_ lane (member_key m)) t' = (inr tt, t1) ∧ same_data t' t1 ∧
    idx t1 (upd (node_code at_ lane) None K) I V.
Proof.
  intros Hi -> Hlen Ho Hm Hl. eapply when_indexed_ok; [exact Hi|]. intros Hix. apply unlink_key_ok; [done|].
  rewrite (lane_at_code key_lane _ _ _ o); [|rewrite contents_length, <-Hlen; apply Hix|done..].
  unfold key_lane. by rewrite Hm.
Qed.

Lemma has_key_member lane key o :
  has_key lane key o = true → ∃ m, roles o !! lane = Some (Some m) ∧ member_key m = key.
Proof.
  unfold has_key. destruct (roles o !! lane) as [[m|]|]; try done. intros H%bool_decide_eq_true. eauto.
Qed.

Lemma release_refines t s role key :
  refines t s →
  ∃ t', release role key t = (inr (spec_release role key s).1, t') ∧ refines t' (spec_release role key s).2.
Proof.
  intros Hr. unfold release, spec_release. destruct (refines_key t s role key Hr) as (res & Hf & Hres).
  rewrite (bind_ok _ _ _ _ _ Hf). set (lane := Role_index role) in *.
  pose proof (Role_index_lt role : (lane < ROLES)%nat) as Hlane.
  destruct res as [at_|]; [|rewrite Hres; by exists t].
  destruct Hres as (o & rest & -> & Ho & Hkey & Hocc). apply has_key_member in Hkey as (m & Hm & <-).
  destruct (refines_holds _ _ _ _ _ Hr Ho Hocc) as [_ Hh].
  destruct (unlink_present t t _ _ _ at_ o lane m (hd_index _ _ _ _ _ _ Hh) eq_refl eq_refl Ho Hm Hlane)
    as (t1 & Hu & [Hc1 Hn1 Hl1 Hb1 Hp1] & Hi1).
  rewrite (bind_ok _ _ _ _ _ Hu), (bind_ok _ _ _ _ _ (get_operation_ok t1 at_ o ltac:(by rewrite Hc1))).
  rewrite Hm, !(bind_ok _ _ _ _ _ (or_panic_ok _ _)). cbv zeta.
  change (mkOperation (aliases o) (<[lane := None]> (roles o))) with (put_role lane None o).
  destruct (put_operation_ok t1 _ _ _ at_ (Some (put_role lane None o)) Hi1) as (t2 & Hput & [Hc2 Hn2 Hl2 Hb2 Hp2] & Hi2).
  { rewrite <-contents_length, Hc1. by eapply lookup_lt_Some. }
  destruct (holds_counts _ _ _ _ _ _ lane m Hh Hm Hlane) as (Hpop & Hpw & Hbw).
  rewrite (bind_ok _ _ _ _ _ Hput), (bind_ok _ _ _ _ _ (add_bytes_ok t2 (- member_bytes_ m) ltac:(by rewrite Hb2, Hb1))).
  set (t3 := set_bytes _ _).
  rewrite (bind_ok _ _ _ _ _ (add_population_ok t3 lane _ (-1) ltac:(simpl; rewrite Hp2, Hp1; exact Hpop) Hpw)).
  set (t4 := set_populations _ _). assert (holds t4 at_ (put_role lane None o) rest (s_capacity s) (s_next s)) as Hh4.
  { assert (contents t4 = <[at_ := Some (put_role lane None o)]> (contents t)) as Hc4 by (rewrite <-Hc1; exact Hc2).
    eapply (holds_drop t t4); try done.
    - eapply (idx_dropped t t4); try done. by apply (idx_frame t2).
    - simpl. by rewrite Hn2.
    - simpl. by rewrite Hl2.
    - simpl. by rewrite Hb2, Hb1.
    - simpl. by rewrite Hp2, Hp1. }
  destruct (settle_refines _ _ _ _ _ _ Hh4) as (t5 & Hs & _ & Hr5). rewrite (bind_ok _ _ _ _ _ Hs).
  exists t5. split; [done|]. exact Hr5.
Qed.

Lemma refines_perm t s ops : refines t s → s_ops s ≡ₚ ops → refines t (with_ops s ops).
Proof.
  intros [Hi Ho Hcap Hsz Hn Hnw Hl Hb Hbw Hpo Hw] Hp. rewrite Hp in Ho, Hl, Hb, Hbw, Hpo, Hw. by constructor.
Qed.

Lemma drop_absent lane o : roles o !! lane = Some None → put_role lane None o = o.
Proof. intros H. unfold put_role. rewrite list_insert_id by done. by destruct o. Qed.

Lemma release_role_at_refines t s role at_ :
  refines t s → (at_ < length (slots t))%nat →
  ∃ t' x, release_role_at role at_ t = (inr tt, t') ∧ contents t !! at_ = Some x ∧
    contents t' = <[at_ := x ≫= drop_role (Role_index role)]> (contents t) ∧
    refines t' (with_ops s (occupied (contents t'))).
Proof.
  intros Hr Ha. set (lane := Role_index role) in *. pose proof (Role_index_lt role : (lane < ROLES)%nat) as Hlane.
  destruct (lookup_lt_is_Some_2 _ _ Ha) as [sl Hsl].
  assert (contents t !! at_ = Some (operation sl)) as Hx by (unfold contents; by rewrite list_lookup_fmap, Hsl).
  unfold release_role_at. rewrite (bind_ok _ _ t t t) by done. rewrite Hsl, (bind_ok _ _ _ _ _ (or_panic_ok _ _)). fold lane.
  destruct (operation sl) as [o|].
  2:{ exists t, None. simpl. rewrite (list_insert_id _ _ _ Hx). split_and!; [done..|]. eapply refines_perm; [done|]. symmetry. apply Hr. }
  destruct (refines_holds _ _ _ _ _ Hr Hx (Permutation_refl _)) as [_ Hh].
  destruct (lookup_lt_is_Some_2 (roles o) lane) as [r Hro].
  { rewrite (os_roles _ (of_shape _ _ _ (hd_fits _ _ _ _ _ _ Hh))). done. }
  rewrite Hro, (bind_ok _ _ _ _ _ (or_panic_ok _ _)). cbv zeta.
  change (mkOperation (aliases o) (<[lane := None]> (roles o))) with (put_role lane None o).
  destruct r as [m|].
  - set (o' := put_role lane None o). cbn beta iota.
    destruct (put_operation_ok t _ _ _ at_ (Some o') (rf_index _ _ Hr) Ha) as (t1 & Hput & [Hc1 Hn1 Hl1 Hb1 Hp1] & Hi1).
    destruct (unlink_present t t1 _ _ _ at_ o lane m Hi1 eq_refl) as (t2 & Hu & [Hc2 Hn2 Hl2 Hb2 Hp2] & Hi2); try done.
    { by rewrite <-!contents_length, Hc1, length_insert. }
    destruct (holds_counts _ _ _ _ _ _ lane m Hh Hro Hlane) as (Hpop & Hpw & Hbw).
    rewrite (bind_ok _ _ t tt (set_bytes (λ _, bytes t2 + - member_bytes_ m)
      (set_populations (<[lane := spec_population lane (o :: occupied (<[at_ := None]> (contents t))) + -1]>) t2))).
    2:{ rewrite (bind_ok _ _ _ _ _ Hput), (bind_ok _ _ _ _ _ Hu).
        rewrite (bind_ok _ _ _ _ _ (add_population_ok t2 lane _ (-1) ltac:(rewrite Hp2, Hp1; exact Hpop) Hpw)).
        exact (add_bytes_ok (set_populations _ t2) _ ltac:(simpl; by rewrite Hb2, Hb1)). }
    set (t4 := set_bytes _ _). assert (contents t4 = <[at_ := Some o']> (contents t)) as Hc4 by (rewrite <-Hc1; exact Hc2).
    assert (holds t4 at_ o' (occupied (<[at_ := None]> (contents t))) (s_capacity s) (s_next s)) as Hh4.
    { eapply (holds_drop t t4); try done.
      - eapply (idx_dropped t t4); try done. by apply (idx_frame t2).
      - simpl. by rewrite Hn2.
      - simpl. by rewrite Hl2.
      - simpl. by rewrite Hb2, Hb1.
      - simpl. by rewrite Hp2, Hp1. }
    destruct (settle_refines _ _ _ _ _ _ Hh4) as (t5 & Hs & Hc5 & Hr5). exists t5, (Some o).
    rewrite Hc4, list_insert_insert_eq in Hc5. split_and!; [done..|].
    eapply (refines_perm _ _ (occupied (contents t5))) in Hr5; [exact Hr5|]. symmetry. apply (rf_ops _ _ Hr5).
  - rewrite (bind_ok _ _ t tt t) by done. rewrite drop_absent by done.
    rewrite (proj2 (refines_shape _ _ _ _ Hr Hx)). exists t, (Some o). simpl. unfold drop_role.
    rewrite drop_absent, (proj2 (refines_shape _ _ _ _ Hr Hx)) by done. rewrite (list_insert_id _ _ _ Hx).
    split_and!; [done..|]. eapply refines_perm; [done|]. symmetry. apply Hr.
Qed.

Lemma release_role_loop role k n t s :
  refines t s → (k + n = length (slots t))%nat →
  ∃ t', for_each (release_role_at role) (seq k n) t = (inr tt, t') ∧
    contents t' = take k (contents t) ++ ((λ x, x ≫= drop_role (Role_index role)) <$> drop k (contents t)) ∧
    refines t' (with_ops s (occupied (contents t'))).
Proof.
  revert k t s. induction n as [|n IH]; intros k t s Hr Hk; simpl.
  - exists t. rewrite drop_ge by (rewrite contents_length; lia). simpl.
    rewrite take_ge, app_nil_r by (rewrite contents_length; lia). split_and!; [done..|].
    eapply refines_perm; [done|]. symmetry. apply Hr.
  - destruct (release_role_at_refines t s role k Hr) as (t1 & x & H1 & Hx & Hc1 & Hr1); [lia|].
    rewrite (bind_ok _ _ _ _ _ H1). destruct (IH (S k) t1 _ Hr1) as (t2 & H2 & Hc2 & Hr2).
    { rewrite <-contents_length, Hc1, length_insert, contents_length. lia. }
    exists t2. split_and!; [done| |exact Hr2].
    rewrite Hc2, Hc1. assert (k < length (contents t))%nat as Hlt by (by eapply lookup_lt_Some).
    rewrite drop_insert_lt by lia. rewrite (drop_S (contents t) x k Hx). simpl.
    rewrite (take_S_r _ k (x ≫= drop_role (Role_index role))) by (by apply list_lookup_insert_eq).
    rewrite take_insert_ge by lia. by rewrite <-(assoc_L (++)).
Qed.

Lemma occupied_drop (f : Operation C → option (Operation C)) cs :
  occupied ((λ x, x ≫= f) <$> cs) = omap f (occupied cs).
Proof.
  induction cs as [|[x|] cs IH]; [done| |exact IH]. rewrite fmap_cons. change (Some x ≫= f) with (f x).
  change (omap f (occupied (Some x :: cs))) with (match f x with Some y => y :: omap f (occupied cs) | None => omap f (occupied cs) end).
  destruct (f x); simpl; [f_equal|]; exact IH.
Qed.

Lemma release_role_refines t s role :
  refines t s → ∃ t', release_role role t = (inr tt, t') ∧ refines t' (spec_release_role role s).
Proof.
  intros Hr. unfold release_role. rewrite (bind_ok _ _ t t t) by done.
  destruct (release_role_loop role 0 (length (slots t)) t s Hr eq_refl) as (t' & Hf & Hc & Hr').
  exists t'. split; [done|]. eapply (refines_perm _ _ (omap (drop_role (Role_index role)) (s_ops s))) in Hr'; [exact Hr'|].
  simpl. rewrite Hc. simpl. rewrite occupied_drop. by rewrite (rf_ops _ _ Hr).
Qed.

(** ** Transferring *)

Lemma Role_index_inj a b : Role_index a = Role_index b → a = b.
Proof. destruct a, b; simpl; lia || done. Qed.

Lemma upd_pointwise {A} n (v : A) f g m : (∀ x, f x = g x) → upd n v f m = upd n v g m.
Proof. intros H. unfold upd. by rewrite H. Qed.

Lemma transfer_index t t' at_ o from to to_key n charge old :
  idx t' (lane_at key_lane (contents t)) (lane_at id_lane (contents t)) (vacant_at (contents t)) →
  contents t !! at_ = Some (Some o) → op_shape o → roles o !! Role_index from = Some (Some old) → from ≠ to →
  roles o !! Role_index to = Some None →
  let o' := put_role (Role_index to) (Some (mkMember to_key n charge)) (put_role (Role_index from) None o) in
  contents t' = <[at_ := Some o']> (contents t) →
  ∃ t2, when_indexed (unlink_key at_ (Role_index from) (member_key old) ;; link_key at_ (Role_index to) to_key) t' = (inr tt, t2) ∧
    same_data t' t2 ∧ idx_exact t2.
Proof.
  intros Hi Ho Hs Hold Hft Hto o' Hc. pose proof (Role_index_lt from) as Hfl. pose proof (Role_index_lt to) as Htl.
  assert (Role_index from ≠ Role_index to) as Hne by (intros E; by apply Role_index_inj in E).
  assert (at_ < length (contents t))%nat as Hat by (by eapply lookup_lt_Some).
  set (o1 := put_role (Role_index from) None o) in *.
  destruct (when_indexed_ok (unlink_key at_ (Role_index from) (member_key old) ;; link_key at_ (Role_index to) to_key) t' _ _ _
    (upd (node_code at_ (Role_index to)) (Some (key_bucket (Role_index to) to_key))
      (upd (node_code at_ (Role_index from)) None (lane_at key_lane (contents t))))
    (lane_at id_lane (contents t)) (vacant_at (contents t)) Hi) as (t2 & Hw & Hs2 & Hi2).
  { intros Hix. pose proof (ix_small _ _ _ _ Hix) as Hk. rewrite <-contents_length, Hc, length_insert in Hk.
    eapply index_bind.
    - apply unlink_key_ok; [done|]. rewrite (lane_at_code key_lane _ _ _ _ Hk Ho Hfl). unfold key_lane. by rewrite Hold.
    - intros u Hsu Hiu. apply link_key_ok; [done| |done|].
      + by rewrite (same_length _ _ (sd_contents _ _ Hsu)), <-contents_length, Hc, length_insert.
      + rewrite upd_other.
        * rewrite (lane_at_code key_lane _ _ _ _ Hk Ho Htl). unfold key_lane. by rewrite Hto.
        * intros E. apply Hne. rewrite <-(node_lane_code at_ (Role_index from)), <-E, node_lane_code; lia || done. }
  exists t2. split_and!; [done..|]. unfold idx_exact. rewrite (sd_contents _ _ Hs2), Hc.
  eapply idx_ext_indexed; [exact Hi2|]. rewrite (sd_contents _ _ Hs2), Hc, length_insert. intros Hk.
  assert (Role_index from < length (roles o))%nat as Hfr by (by eapply lookup_lt_Some).
  split_and!.
  - intros x. transitivity (upd (node_code at_ (Role_index to)) (key_lane o' (Role_index to)) (lane_at key_lane (<[at_ := Some o1]> (contents t))) x).
    + unfold o'. rewrite key_lane_same by (simpl; rewrite length_insert; by eapply lookup_lt_Some). simpl.
      apply upd_pointwise. intros y.
      rewrite <-(lane_at_upd key_lane _ _ _ o1 (Role_index from) y Hk Ho Hfl) by (intros l Hl; by apply key_lane_put).
      unfold o1. by rewrite key_lane_same.
    + rewrite (lane_at_upd key_lane _ _ o1 o'); [by rewrite list_insert_insert_eq|by rewrite length_insert|by apply list_lookup_insert_eq|done|].
      intros l Hl. by apply key_lane_put.
  - intros x. symmetry. by apply (lane_at_same _ _ _ o).
  - intros i. by eapply vacant_at_keep.
Qed.

(** Why a transfer is a replay, as the code decides it. *)
Lemma replayed_ok t s at_ o from to to_key :
  refines t s → contents t !! at_ = Some (Some o) →
  (if bool_decide (from = to) then mret true
   else
     found ← find_key to to_key;
     if bool_decide (is_Some found) then mret true
     else r ← or_panic (roles o !! Role_index to); mret (bool_decide (is_Some r))) t =
  (inr (bool_decide (from = to) || existsb (has_key (Role_index to) to_key) (s_ops s) || lane_taken (Role_index to) o), t).
Proof.
  intros Hr Ho. case_bool_decide as E; [done|]. destruct (refines_key t s to to_key Hr) as (res & Hf & Hres).
  rewrite (bind_ok _ _ _ _ _ Hf), existsb_take_op. simpl. destruct res as [i|].
  - destruct Hres as (o' & rest' & -> & _). by rewrite !bool_decide_eq_true_2 by (by eexists).
  - rewrite Hres. rewrite !bool_decide_eq_false_2 by (by intros [? ?]). simpl.
    destruct (lane_taken_lookup o (Role_index to)) as (r & Hro & ->); [apply (refines_shape _ _ _ _ Hr Ho)|apply Role_index_lt|].
    by rewrite Hro.
Qed.

Lemma transfer_room t at_ o rest capacity next' from to :
  holds t at_ o rest capacity next' → roles (put_role from None o) !! to = Some None →
  in_width 64 (spec_population to (put_role from None o :: rest) + 1).
Proof.
  intros H Hto. rewrite spec_population_cons. unfold lane_taken. rewrite Hto.
  pose proof (spec_population_range to rest). pose proof (holds_length _ _ _ _ _ _ H). pose proof (hd_size _ _ _ _ _ _ H).
  unfold in_width. simpl in *. lia.
Qed.

(** The rest of a transfer once nothing refuses it. *)
Lemma transfer_tail t at_ o rest capacity next' from to to_key n charge old :
  holds t at_ o rest capacity next' → roles o !! Role_index from = Some (Some old) → from ≠ to →
  roles o !! Role_index to = Some None → (Role_index to, to_key) ∉ keys (o :: rest) → 0 <= n →
  spec_bytes (o :: rest) - member_bytes_ old + n < 2 ^ 64 →
  let o' := put_role (Role_index to) (Some (mkMember to_key n charge)) (put_role (Role_index from) None o) in
  let total := spec_bytes (o :: rest) - member_bytes_ old + n in
  ∃ t', (put_operation at_ (Some o') ;;
    add_population (Role_index from) (-1) ;;
    add_population (Role_index to) 1 ;;
    modify (set_bytes (λ _, total)) ;;
    head ← or_panic (aliases o !! 0%nat);
    head ← or_panic head;
    when_indexed (unlink_key at_ (Role_index from) (member_key old) ;; link_key at_ (Role_index to) to_key) ;;
    mret (head, member_bytes_ old, member_charge old)) t
    = (inr (head_alias o, member_bytes_ old, member_charge old), t') ∧ refines t' (mkSpec capacity (o' :: rest) next').
Proof.
  intros H Hold Hft Hto Hk Hn Hbw o' total. pose proof (Role_index_lt from) as Hfl. pose proof (Role_index_lt to) as Htl.
  assert (Role_index from ≠ Role_index to) as Hne by (intros E; by apply Role_index_inj in E).
  pose proof (of_shape _ _ _ (hd_fits _ _ _ _ _ _ H)) as Hos. pose proof (hd_at _ _ _ _ _ _ H) as Ho.
  destruct (holds_counts _ _ _ _ _ _ _ old H Hold Hfl) as (Hpop & Hpw & Hb1). set (o1 := put_role (Role_index from) None o) in *.
  assert (roles o1 !! Role_index to = Some None) as Hto1 by (unfold o1; simpl; by rewrite list_lookup_insert_ne).
  destruct (put_operation_ok t _ _ _ at_ (Some o') (hd_index _ _ _ _ _ _ H) (contents_lt _ _ _ Ho))
    as (t1 & Hput & [Hc1 Hn1 Hl1 Hb1' Hp1] & Hi1).
  rewrite (bind_ok _ _ _ _ _ Hput).
  rewrite (bind_ok _ _ _ _ _ (add_population_ok t1 (Role_index from) _ (-1) ltac:(rewrite Hp1; exact Hpop) Hpw)).
  set (t2 := set_populations _ t1). assert (populations t2 = pops (o1 :: rest)) as Hp2.
  { unfold t2, o1. simpl populations. by rewrite Hp1, (hd_pops _ _ _ _ _ _ H), <-(pops_put _ None (Some old) o rest Hfl Hold). }
  rewrite (bind_ok _ _ _ _ _ (add_population_ok t2 (Role_index to) (spec_population (Role_index to) (o1 :: rest)) 1
    ltac:(rewrite Hp2; by apply pops_lookup) ltac:(by apply (transfer_room t at_ o rest capacity next')))).
  set (t3 := set_populations _ t2). rewrite (bind_ok _ _ t3 tt (set_bytes (λ _, total) t3)) by done.
  rewrite (head_alias_lookup _ Hos), !(bind_ok _ _ _ _ _ (or_panic_ok _ _)). set (t4 := set_bytes _ t3).
  destruct (transfer_index t t4 at_ o from to to_key n charge old (idx_frame t1 t4 _ _ _ eq_refl eq_refl eq_refl eq_refl Hi1)
    Ho Hos Hold Hft Hto Hc1) as (t5 & Hw & [Hc5 Hn5 Hl5 Hb5 Hp5] & Hi5).
  rewrite (bind_ok _ _ _ _ _ Hw). exists t5. split; [done|].
  assert (spec_bytes (o' :: rest) = total) as Hbe.
  { unfold o', total. rewrite !spec_bytes_cons, (op_bytes_put _ _ _ _ Hto1). unfold o1. rewrite (op_bytes_put _ _ _ _ Hold). simpl. lia. }
  apply keys_cons_not in Hk as [Hk1 Hk2].
  constructor; cbn [s_ops s_next s_capacity]; try apply H; try done.
  - rewrite Hc5. change (contents t4) with (contents t1). rewrite Hc1, occupied_put by (by eapply lookup_lt_Some).
    simpl. by rewrite (hd_rest _ _ _ _ _ _ H).
  - rewrite <-contents_length, Hc5. change (contents t4) with (contents t1). rewrite Hc1, length_insert, contents_length. apply H.
  - rewrite Hn5. simpl. rewrite Hn1. apply H.
  - rewrite Hl5. simpl. rewrite Hl1. apply H.
  - by rewrite Hb5, Hbe.
  - by rewrite Hbe.
  - rewrite Hp5. change (populations t4) with (<[Role_index to := spec_population (Role_index to) (o1 :: rest) + 1]> (populations t2)).
    unfold o'. by rewrite Hp2, <-(pops_put (Role_index to) (Some (mkMember to_key n charge)) None o1 rest Htl Hto1).
  - apply fits_put; [|done..| |done].
    + eapply fits_drop; [apply H|done].
    + simpl. intros Hin. apply Hk1. rewrite (drop_role_keys _ _ _ Hold). by right.
Qed.

Lemma transfer_refines t s from from_key to to_key n charge :
  refines t s → 0 <= n →
  ∃ t', transfer from from_key to to_key n charge t = (lift (spec_transfer from from_key to to_key n charge s).1, t') ∧
    refines t' (spec_transfer from from_key to to_key n charge s).2.
Proof.
  intros Hr Hn. unfold transfer, spec_transfer. destruct (refines_key t s from from_key Hr) as (res & Hf & Hres).
  rewrite (bind_ok _ _ _ _ _ Hf). destruct res as [at_|]; [|rewrite Hres; by exists t].
  destruct Hres as (o & rest & -> & Ho & Hkey & Hocc). rewrite (bind_ok _ _ t at_ t) by done.
  rewrite (bind_ok _ _ _ _ _ (get_operation_ok _ _ _ Ho)), (bind_ok _ _ _ _ _ (replayed_ok t s at_ o from to to_key Hr Ho)).
  destruct (bool_decide (from = to) || _ || _) eqn:Erep; [by exists t|].
  apply orb_false_iff in Erep as [[Hft%bool_decide_eq_false Hex]%orb_false_iff Htk].
  apply has_key_member in Hkey as (old & Hold & <-). rewrite Hold, !(bind_ok _ _ _ _ _ (or_panic_ok _ _)).
  rewrite (bind_ok _ _ t t t) by done. destruct (refines_holds _ _ _ _ _ Hr Ho Hocc) as [Hp Hh].
  pose proof (Role_index_lt from) as Hfl. pose proof (Role_index_lt to) as Htl.
  destruct (holds_counts _ _ _ _ _ _ _ old Hh Hold Hfl) as (Hpop & Hpw & Hbw).
  pose proof (of_shape _ _ _ (hd_fits _ _ _ _ _ _ Hh)) as Hos.
  unfold checked_sub, checked_add. rewrite checked_small by done. cbn [mbind option_bind].
  replace (bytes t - member_bytes_ old + n) with (spec_bytes (s_ops s) - member_bytes_ old + n) by (rewrite (rf_bytes _ _ Hr); lia).
  rewrite (rf_bytes _ _ Hr) in Hbw.
  destruct (2 ^ 64 <=? spec_bytes (s_ops s) - member_bytes_ old + n) eqn:Eb; bprop.
  { exists t. destruct (checked_spec 64 (spec_bytes (s_ops s) - member_bytes_ old + n)) as [[_ Hw]|[-> _]]; [|done].
    unfold in_width in Hw. lia. }
  rewrite checked_small by (unfold in_width in *; lia). rewrite (bind_ok _ _ t (spec_bytes (s_ops s) - member_bytes_ old + n) t) by done.
  destruct (lane_taken_lookup o (Role_index to) Hos Htl) as (r & Hro & Hr'). rewrite Hr' in Htk. destruct r as [m|]; [done|].
  apply existsb_key_elem in Hex. rewrite Hp in Hex.
  assert (spec_bytes (s_ops s) = spec_bytes (o :: rest)) as Hbe by (by rewrite Hp). rewrite Hbe in *. by apply transfer_tail.
Qed.
End refine.
