(* ===== verification/ReservationMerge.v ===== *)
(** * Merging two operations of the reservation table

    [ReservationTable::merge]: every membership and every id of the right operation leaves
    its chain and its slot, joins the left operation and is linked there again. *)
From S2P Require Import Prelude Reservations ReservationIndex ReservationState ReservationSpec ReservationRefine.

Section merge.
Context {C : Type}.
Implicit Types (t : ReservationTable C) (o a b : Operation C) (ops : list (Operation C)) (s : Spec C)
  (cs : list (option (Operation C))).

Lemma upds_ext {A} (node : A → Z) v xs J J' n : (∀ m, J m = J' m) → upds node v xs J n = upds node v xs J' n.
Proof.
  revert J J'. induction xs as [|x xs IH]; intros J J' H; simpl; [done|]. apply IH. intros m. by apply upd_pointwise.
Qed.

Lemma unique_op_rest p o ops : unique_op p (o :: ops) → unique_op p ops.
Proof.
  intros H x y rest Hp. apply (H x y (o :: rest)). rewrite Hp. by rewrite !(Permutation_swap _ o).
Qed.

(** The memberships of [b] with their keys, as the code gathers them. *)
Definition moved_roles b : list (nat * RoleKey) := (λ p, (fst p, member_key (snd p))) <$> present (roles b).

Lemma moved_roles_elem b lane key :
  (lane, key) ∈ moved_roles b ↔ ∃ m, roles b !! lane = Some (Some m) ∧ member_key m = key.
Proof.
  unfold moved_roles. rewrite list_elem_of_fmap. split.
  - intros ([l m] & [= -> ->] & Hm%present_elem). eauto.
  - intros (m & Hm & <-). exists (lane, m). split; [done|]. by apply present_elem.
Qed.

Lemma moved_roles_lanes b : NoDup (fst <$> moved_roles b).
Proof. unfold moved_roles. rewrite <-list_fmap_compose. apply (present_from_lanes (roles b) 0). Qed.

Lemma moved_roles_small b p : op_shape b → p ∈ moved_roles b → (fst p < ROLES)%nat.
Proof.
  intros Hs Hp. destruct p as [lane key]. apply moved_roles_elem in Hp as (m & Hm & _).
  rewrite <-(os_roles _ Hs). by eapply lookup_lt_Some.
Qed.

Lemma aliases_small b p : op_shape b → p ∈ present (aliases b) → (fst p < ROLES)%nat.
Proof.
  intros Hs Hp. destruct p as [lane id]. apply present_elem in Hp. rewrite <-(os_aliases _ Hs). by eapply lookup_lt_Some.
Qed.

(** Emptying slot [r] of the index. *)
Lemma unlink_all_ok t K I V r b :
  idx_ok t K I V → op_shape b → contents t !! r = Some (Some b) →
  (∀ n, K n = lane_at key_lane (contents t) n) → (∀ n, I n = lane_at id_lane (contents t) n) →
  ∃ K' I',
    index_step (for_each (λ p, unlink_key r (fst p) (snd p)) (moved_roles b) ;;
                for_each (λ p, unlink_id r (fst p) (snd p)) (present (aliases b))) t K' I' V ∧
    (∀ n, K' n = lane_at key_lane (<[r := None]> (contents t)) n) ∧
    (∀ n, I' n = lane_at id_lane (<[r := None]> (contents t)) n).
Proof.
  intros Hi Hs Hb HK HI. pose proof (ix_small _ _ _ _ Hi) as Hk. rewrite <-contents_length in Hk.
  assert (r < length (contents t))%nat as Hr by (by eapply lookup_lt_Some).
  assert (NoDup (entry_node r <$> moved_roles b)) as Hnk
    by (apply entry_nodes_nodup; [lia|apply moved_roles_lanes|intros p; by apply moved_roles_small]).
  assert (NoDup (entry_node r <$> present (aliases b))) as Hni
    by (apply entry_nodes_nodup; [lia|apply (present_from_lanes (aliases b) 0)|intros p; by apply aliases_small]).
  eexists _, _. split; [|split].
  - eapply index_bind.
    + apply unlink_keys_ok; [done..|]. intros [lane key] Hp. rewrite HK. unfold entry_node.
      rewrite (lane_at_code key_lane _ _ _ _ Hk Hb (moved_roles_small _ _ Hs Hp)). simpl.
      apply moved_roles_elem in Hp as (m & Hm & <-). unfold key_lane. by rewrite Hm.
    + intros u _ Hu. apply unlink_ids_ok; [done..|]. intros [lane id] Hp. rewrite HI. unfold entry_node.
      rewrite (lane_at_code id_lane _ _ _ _ Hk Hb (aliases_small _ _ Hs Hp)). simpl.
      apply present_elem in Hp. unfold id_lane. by rewrite Hp.
  - intros n. rewrite (upds_ext _ _ _ _ _ n HK). apply (upds_put key_lane _ _ b None); try done.
    + intros p. by apply moved_roles_small.
    + intros lane _ Hnot. unfold key_lane. destruct (roles b !! lane) as [[m|]|] eqn:E; [|done..].
      exfalso. apply Hnot, list_elem_of_fmap. exists (lane, member_key m). split; [done|]. apply moved_roles_elem. eauto.
  - intros n. rewrite (upds_ext _ _ _ _ _ n HI). apply (upds_put id_lane _ _ b None); try done.
    + intros p. by apply aliases_small.
    + intros lane _ Hnot. unfold id_lane. destruct (aliases b !! lane) as [[id|]|] eqn:E; [|done..].
      exfalso. apply Hnot, list_elem_of_fmap. exists (lane, id). split; [done|]. by apply present_elem.
Qed.

Section link.
Context (a b : Operation C) (l' : list (option Z)) (pos : list nat).
Context (Ha : op_shape a) (Hb : op_shape b) (Ho : overlapping (roles a) (roles b) = false).
Context (Hlen' : length l' = length (aliases a)) (Hpos : length pos = length (snd <$> present (aliases b))).
Context (Hp : present l' ≡ₚ combine pos (snd <$> present (aliases b)) ++ present (aliases a)).
Context (Hnd : NoDup pos) (Hnone : ∀ i, i ∈ pos → aliases a !! i = Some None).
Context (Hkeep : ∀ i, i ∉ pos → l' !! i = aliases a !! i).

Let a' := mkOperation l' (adopt_roles (roles a) (roles b)).
Let ids := combine pos (snd <$> present (aliases b)).

Lemma link_roles_length : length (roles a) = length (roles b).
Proof using Ha Hb. by rewrite (os_roles _ Ha), (os_roles _ Hb). Qed.

Lemma moved_ids_fst : fst <$> ids = pos.
Proof using Hpos. unfold ids. change (combine pos ?l) with (zip pos l). apply fst_zip, Nat.eq_le_incl, Hpos. Qed.

Lemma moved_ids_lane p : p ∈ ids → (fst p < ROLES)%nat ∧ aliases a !! fst p = Some None ∧ l' !! fst p = Some (Some (snd p)).
Proof using Ha Hp Hnone Hpos.
  intros Hin. assert (fst p ∈ pos) as Hl by (rewrite <-moved_ids_fst; by apply list_elem_of_fmap_2).
  apply Hnone in Hl. split_and!; [rewrite <-(os_aliases _ Ha); by eapply lookup_lt_Some|done|].
  apply present_elem. rewrite Hp. apply elem_of_app. left. by destruct p.
Qed.

(** Filling the joined operation of slot [l] into the index. *)
Lemma link_all_ok t K I V cs l r :
  idx_ok t K I V → contents t = <[l := Some a']> cs → cs !! l = Some (Some a) →
  (∀ n, K n = lane_at key_lane cs n) → (∀ n, I n = lane_at id_lane cs n) →
  (r < length cs)%nat → ¬ V r →
  ∃ K' I',
    index_step (for_each (λ p, link_key l (fst p) (snd p)) (moved_roles b) ;;
                for_each (λ p, link_id l (fst p) (snd p)) ids ;; push_free r) t K' I' (λ j, V j ∨ j = r) ∧
    (∀ n, K' n = lane_at key_lane (<[l := Some a']> cs) n) ∧ (∀ n, I' n = lane_at id_lane (<[l := Some a']> cs) n).
Proof using Ha Hb Ho Hlen' Hpos Hp Hnd Hnone Hkeep.
  intros Hi Hc Hl HK HI Hr HV. pose proof (ix_small _ _ _ _ Hi) as Hk. rewrite <-contents_length, Hc, length_insert in Hk.
  assert (l < length cs)%nat as Hll by (by eapply lookup_lt_Some).
  assert (length (slots t) = length cs) as Hsl by (by rewrite <-contents_length, Hc, length_insert).
  assert (NoDup (entry_node l <$> moved_roles b)) as Hnk
    by (apply entry_nodes_nodup; [lia|apply moved_roles_lanes|intros p; by apply moved_roles_small]).
  assert (NoDup (entry_node l <$> ids)) as Hni.
  { apply entry_nodes_nodup; [lia|by rewrite moved_ids_fst|intros p Hin; by apply moved_ids_lane]. }
  eexists _, _. split; [|split].
  - eapply index_bind; [|intros u Hu Hiu; eapply index_bind].
    + apply link_keys_ok; [done|by rewrite Hsl|done|]. intros [lane key] Hin. pose proof (moved_roles_small _ _ Hb Hin) as Hlane.
      split; [done|]. rewrite HK. unfold entry_node. rewrite (lane_at_code key_lane _ _ _ _ Hk Hl Hlane). simpl.
      apply moved_roles_elem in Hin as (m & Hm & _). unfold key_lane. destruct (roles a !! lane) as [[m'|]|] eqn:E; [|done..].
      exfalso. by eapply (overlapping_false _ _ link_roles_length Ho lane m' m).
    + apply link_ids_ok; [done|by rewrite (same_length _ _ (sd_contents _ _ Hu)), Hsl|done|]. intros p Hin.
      destruct (moved_ids_lane p Hin) as (Hlane & Hnon & _). split; [done|]. rewrite HI. unfold entry_node.
      rewrite (lane_at_code id_lane _ _ _ _ Hk Hl Hlane). unfold id_lane. by rewrite Hnon.
    + intros u' Hu' Hiu'. apply push_free_ok; [done| |done].
      by rewrite (same_length _ _ (sd_contents _ _ Hu')), (same_length _ _ (sd_contents _ _ Hu)), Hsl.
  - intros n. rewrite (upds_ext _ _ _ _ _ n HK). apply (upds_put key_lane _ _ a (Some a')); try done.
    + intros p. by apply moved_roles_small.
    + intros [lane key] Hin. apply moved_roles_elem in Hin as (m & Hm & <-). unfold key_lane, a'. simpl.
      by rewrite (adopt_roles_lookup _ _ _ link_roles_length Ho), Hm.
    + intros lane _ Hnot. unfold key_lane, a'. simpl. rewrite (adopt_roles_lookup _ _ _ link_roles_length Ho).
      destruct (roles b !! lane) as [[m|]|] eqn:E; [|done..].
      exfalso. apply Hnot, list_elem_of_fmap. exists (lane, member_key m). split; [done|]. apply moved_roles_elem. eauto.
  - intros n. rewrite (upds_ext _ _ _ _ _ n HI). apply (upds_put id_lane _ _ a (Some a')); try done.
    + intros p Hin. by apply moved_ids_lane.
    + intros p Hin. destruct (moved_ids_lane p Hin) as (_ & _ & He). unfold id_lane, a'. simpl. by rewrite He.
    + intros lane _ Hnot. rewrite moved_ids_fst in Hnot. unfold id_lane, a'. simpl. by rewrite Hkeep.
Qed.
End link.

(** What the code does once nothing refuses the merge. *)
Definition merge_into (left right : nat) a b : Table C Z :=
  when_indexed
    (for_each (λ p, unlink_key right (fst p) (snd p)) (moved_roles b) ;;
     for_each (λ p, unlink_id right (fst p) (snd p)) (present (aliases b))) ;;
  put_operation right None ;;
  adopted ← or_panic (adopt_aliases (aliases a) (snd <$> present (aliases b)));
  let a' := mkOperation (fst adopted) (adopt_roles (roles a) (roles b)) in
  put_operation left (Some a') ;;
  head ← or_panic (aliases a' !! 0%nat);
  head ← or_panic head;
  add_live (-1) ;;
  when_indexed
    (for_each (λ p, link_key left (fst p) (snd p)) (moved_roles b) ;;
     for_each (λ p, link_id left (fst p) (snd p)) (combine (snd adopted) (snd <$> present (aliases b))) ;;
     push_free right) ;;
  mret head.

Lemma unlink_right_ok t s r b :
  refines t s → contents t !! r = Some (Some b) →
  ∃ t1, when_indexed
     (for_each (λ p, unlink_key r (fst p) (snd p)) (moved_roles b) ;;
      for_each (λ p, unlink_id r (fst p) (snd p)) (present (aliases b))) t = (inr tt, t1) ∧ same_data t t1 ∧
    idx t1 (lane_at key_lane (<[r := None]> (contents t))) (lane_at id_lane (<[r := None]> (contents t))) (vacant_at (contents t)).
Proof.
  intros Hr Hb. unfold when_indexed. rewrite (bind_ok _ _ t t t) by done. destruct (indexed t) eqn:E.
  - destruct (unlink_all_ok t _ _ _ r b (rf_index _ _ Hr E)) as (K' & I' & (t1 & Hm & Hs & Hi) & HK & HI); try done.
    { apply (refines_shape _ _ _ _ Hr Hb). }
    exists t1. split_and!; [done..|]. eapply idx_ext; [exact HK|exact HI|done|]. by intros _.
  - exists t. split_and!; [done..|]. intros Hx. congruence.
Qed.

Lemma link_left_ok t cs l r a b l' pos :
  idx t (lane_at key_lane (<[r := None]> cs)) (lane_at id_lane (<[r := None]> cs)) (vacant_at cs) →
  contents t = <[l := Some (mkOperation l' (adopt_roles (roles a) (roles b)))]> (<[r := None]> cs) →
  l ≠ r → cs !! l = Some (Some a) → cs !! r = Some (Some b) →
  op_shape a → op_shape b → overlapping (roles a) (roles b) = false →
  length l' = length (aliases a) → length pos = length (snd <$> present (aliases b)) →
  present l' ≡ₚ combine pos (snd <$> present (aliases b)) ++ present (aliases a) → NoDup pos →
  (∀ i, i ∈ pos → aliases a !! i = Some None) → (∀ i, i ∉ pos → l' !! i = aliases a !! i) →
  ∃ t', when_indexed
     (for_each (λ p, link_key l (fst p) (snd p)) (moved_roles b) ;;
      for_each (λ p, link_id l (fst p) (snd p)) (combine pos (snd <$> present (aliases b))) ;; push_free r) t = (inr tt, t') ∧
    same_data t t' ∧ idx_exact t'.
Proof.
  intros Hi Hc Hlr Ha Hb Hsa Hsb Ho Hl' Hpos Hp Hnd Hnone Hkeep.
  assert (r < length cs)%nat as Hrl by (by eapply lookup_lt_Some).
  unfold when_indexed. rewrite (bind_ok _ _ t t t) by done. destruct (indexed t) eqn:E.
  - destruct (link_all_ok a b l' pos Hsa Hsb Ho Hl' Hpos Hp Hnd Hnone Hkeep t _ _ _ (<[r := None]> cs) l r (Hi E) Hc)
      as (K' & I' & (t' & Hm & Hs & Hi') & HK & HI); try done.
    + by rewrite list_lookup_insert_ne.
    + by rewrite length_insert.
    + unfold vacant_at. by rewrite Hb.
    + exists t'. split_and!; [done..|]. unfold idx_exact. rewrite (sd_contents _ _ Hs), Hc.
      eapply idx_ext; [exact HK|exact HI| |by intros _]. intros i. unfold vacant_at.
      destruct (decide (i = l)) as [->|Hil].
      { rewrite list_lookup_insert_eq by (rewrite length_insert; by eapply lookup_lt_Some). rewrite Ha. naive_solver. }
      rewrite list_lookup_insert_ne by done. destruct (decide (i = r)) as [->|Hir].
      { rewrite list_lookup_insert_eq by done. naive_solver. }
      rewrite list_lookup_insert_ne by done. naive_solver.
  - exists t. split_and!; [done..|]. intros Hx. congruence.
Qed.

Lemma merge_into_refines t s left right a b rest :
  refines t s → left ≠ right → contents t !! left = Some (Some a) → contents t !! right = Some (Some b) →
  occupied (<[right := None]> (<[left := None]> (contents t))) ≡ₚ rest →
  overlapping (roles a) (roles b) = false → (length (present (aliases a)) + length (present (aliases b)) <= ROLES)%nat →
  ∃ t', merge_into left right a b t = (inr (head_alias a), t') ∧ refines t' (with_ops s (join a b :: rest)).
Proof.
  intros Hr Hlr Ha Hb Hrest Ho Hcount. set (cs := contents t) in *.
  pose proof (proj1 (refines_shape _ _ _ _ Hr Ha)) as Hsa. pose proof (proj1 (refines_shape _ _ _ _ Hr Hb)) as Hsb.
  assert (left < length cs)%nat as Hll by (by eapply lookup_lt_Some). assert (right < length cs)%nat as Hrl by (by eapply lookup_lt_Some).
  assert (s_ops s ≡ₚ a :: b :: rest) as Hp.
  { rewrite <-(rf_ops _ _ Hr). fold cs. rewrite (occupied_take _ _ _ Ha).
    rewrite (occupied_take (<[left := None]> cs) right b) by (by rewrite list_lookup_insert_ne). by rewrite Hrest. }
  pose proof (rf_wf _ _ Hr) as Hw. rewrite Hp in Hw. destruct (join_ok _ _ _ _ Hw Ho Hcount) as (Hwj & Hhead & Hbytes & Htaken).
  destruct (adopt_aliases_ok (aliases a) (snd <$> present (aliases b))) as (l' & pos & Had & Hl' & Hpos & Hpr & Hnd & Hnone & Hkeep).
  { by rewrite length_fmap, (os_aliases _ Hsa). }
  assert (join a b = mkOperation l' (adopt_roles (roles a) (roles b))) as Hj by (unfold join; by rewrite Had).
  unfold merge_into. destruct (unlink_right_ok t s right b Hr Hb) as (t1 & Hu & [Hc1 Hn1 Hl1 Hb1 Hp1] & Hi1).
  rewrite (bind_ok _ _ _ _ _ Hu). destruct (put_operation_ok t1 _ _ _ right None Hi1) as (t2 & Hput2 & [Hc2 Hn2 Hl2 Hb2 Hp2] & Hi2).
  { by rewrite <-contents_length, Hc1. }
  rewrite (bind_ok _ _ _ _ _ Hput2), Had, (bind_ok _ _ _ _ _ (or_panic_ok _ _)). cbn [fst snd]. cbv zeta. rewrite <-Hj.
  destruct (put_operation_ok t2 _ _ _ left (Some (join a b)) Hi2) as (t3 & Hput3 & [Hc3 Hn3 Hl3 Hb3 Hp3] & Hi3).
  { by rewrite <-contents_length, Hc2, length_insert, Hc1. }
  rewrite (bind_ok _ _ _ _ _ Hput3). apply ops_wf_cons in Hwj as Hfj. destruct Hfj as [Hfj _].
  rewrite (head_alias_lookup _ (of_shape _ _ _ Hfj)), !(bind_ok _ _ _ _ _ (or_panic_ok _ _)), Hhead.
  assert (live t3 = Z.of_nat (length (a :: b :: rest))) as Hlive.
  { rewrite Hl3, Hl2, Hl1, (rf_live _ _ Hr). by rewrite Hp. }
  pose proof (refines_room _ _ Hr) as Hroom. rewrite Hp in Hroom. pose proof (rf_size _ _ Hr) as Hsz.
  rewrite (bind_ok _ _ _ _ _ (add_live_ok t3 (-1) ltac:(rewrite Hlive; unfold in_width; simpl in *; lia))).
  set (t4 := set_live _ _). assert (contents t4 = <[left := Some (join a b)]> (<[right := None]> cs)) as Hc4.
  { change (contents t4) with (contents t3). by rewrite Hc3, Hc2, Hc1. }
  destruct (link_left_ok t4 cs left right a b l' pos) as (t5 & Hlk & [Hc5 Hn5 Hl5 Hb5 Hp5] & Hi5); try done.
  { by apply (idx_frame t3). }
  { by rewrite Hc4, Hj. }
  rewrite (bind_ok _ _ _ _ _ Hlk). exists t5. split; [done|].
  assert (spec_bytes (s_ops s) = spec_bytes (join a b :: rest)) as Hbe.
  { rewrite Hp, !spec_bytes_cons, Hbytes. lia. }
  constructor; cbn [s_ops s_next s_capacity with_ops]; try apply Hr; try done.
  - rewrite Hc5, Hc4, occupied_put by (by rewrite length_insert). simpl.
    rewrite list_insert_insert_ne by done. by rewrite Hrest.
  - rewrite <-contents_length, Hc5, Hc4, !length_insert. unfold cs. rewrite contents_length. apply Hr.
  - rewrite Hn5. simpl. rewrite Hn3, Hn2, Hn1. apply Hr.
  - rewrite Hl5. simpl. rewrite Hlive. simpl. lia.
  - rewrite Hb5. simpl. by rewrite Hb3, Hb2, Hb1, (rf_bytes _ _ Hr), Hbe.
  - rewrite <-Hbe. apply Hr.
  - rewrite Hp5. simpl. rewrite Hp3, Hp2, Hp1, (rf_pops _ _ Hr). unfold pops. apply list_fmap_ext. intros i lane _.
    rewrite Hp, !spec_population_cons, Htaken. lia.
Qed.
End merge.
