(* ===== verification/ReservationProps.v ===== *)
(** * Histories of the reservation table

    Every public operation of [src/semantics_objects/journal/reservations.rs] as a call:
    a table answers any sequence of calls as its reference does, whether it is indexed or
    scanned, and what that gives for ids and for siblings of a released role. *)
From S2P Require Import Prelude Reservations ReservationIndex ReservationState ReservationSpec ReservationRefine ReservationMerge.

Section props.
Context {C : Type}.
Implicit Types (t : ReservationTable C) (o : Operation C) (ops : list (Operation C)) (s : Spec C).

(** ** Merging and reading *)

Lemma refines_right t s at_ a rest right :
  refines t s → contents t !! at_ = Some (Some a) → occupied (<[at_ := None]> (contents t)) ≡ₚ rest →
  ∃ res, find_id right t = (inr res, t) ∧
  match res with
  | None => has_alias right a = false ∧ take_op (has_alias right) rest = None
  | Some i =>
      if decide (i = at_) then has_alias right a = true
      else has_alias right a = false ∧ ∃ b rest', take_op (has_alias right) rest = Some (b, rest') ∧
        contents t !! i = Some (Some b) ∧ occupied (<[i := None]> (<[at_ := None]> (contents t))) ≡ₚ rest'
  end.
Proof.
  intros Hr Ha Hocc. destruct (refines_holds _ _ _ _ _ Hr Ha Hocc) as [Hp _].
  pose proof (unique_id _ _ right (rf_wf _ _ Hr)) as Hu.
  assert (unique_op (has_alias right) rest) as Hur.
  { apply (unique_op_rest _ a). intros x y l Hl. apply (Hu x y l). by rewrite Hp. }
  destruct (refines_id t s right Hr) as (res & Hf & Hres). exists res. split; [done|]. destruct res as [i|].
  - destruct Hres as (b & rest1 & _ & Hb & Hab & _). case_decide as E; [subst i; by simplify_eq|].
    assert ((<[at_ := None]> (contents t)) !! i = Some (Some b)) as Hb' by (by rewrite list_lookup_insert_ne).
    split.
    + destruct (has_alias right a) eqn:Eh; [|done]. exfalso.
      eapply (Hu a b (occupied (<[i := None]> (<[at_ := None]> (contents t))))); try done.
      by rewrite Hp, <-Hocc, (occupied_take _ _ _ Hb').
    + pose proof (lookup_match (<[at_ := None]> (contents t)) rest (has_alias right) (Some i)) as Hm. simpl in Hm.
      destruct Hm as (b' & rest' & Ht & Hb2 & _ & Hocc'); [by exists b|done|done|]. exists b', rest'.
      rewrite list_lookup_insert_ne in Hb2 by done. done.
  - rewrite take_op_None in Hres. split; [apply Hres; rewrite Hp; left|]. apply take_op_None. intros o Ho. apply Hres. rewrite Hp. by right.
Qed.

Lemma merge_refines t s left right :
  refines t s →
  ∃ t', merge left right t = (lift (spec_merge left right s).1, t') ∧ refines t' (spec_merge left right s).2.
Proof.
  intros Hr. unfold merge, spec_merge. destruct (refines_id t s left Hr) as (res & Hf & Hres).
  rewrite (bind_ok _ _ _ _ _ Hf). destruct res as [l|]; [|rewrite Hres; by exists t].
  destruct Hres as (a & rest & -> & Ha & _ & Hocc). rewrite (bind_ok _ _ t l t) by done.
  destruct (refines_right t s l a rest right Hr Ha Hocc) as (res & Hf' & Hres). rewrite (bind_ok _ _ _ _ _ Hf').
  destruct res as [r|]; [|destruct Hres as [-> ->]; by exists t]. rewrite (bind_ok _ _ t r t) by done.
  pose proof (proj1 (refines_shape _ _ _ _ Hr Ha)) as Hsa. case_decide as E.
  - subst r. rewrite Nat.eqb_refl, Hres. exists t.
    rewrite (bind_ok _ _ _ _ _ (get_operation_ok _ _ _ Ha)), (head_alias_lookup _ Hsa). done.
  - rewrite (proj2 (Nat.eqb_neq l r)) by done. destruct Hres as (-> & b & rest' & -> & Hb & Hocc').
    rewrite (bind_ok _ _ _ _ _ (get_operation_ok _ _ _ Ha)), (bind_ok _ _ _ _ _ (get_operation_ok _ _ _ Hb)).
    destruct (overlapping (roles a) (roles b)) eqn:Eo; [by exists t|].
    destruct (ROLES <? _)%nat eqn:Ec; [by exists t|]. apply Nat.ltb_ge in Ec.
    destruct (merge_into_refines t s l r a b rest' Hr) as (t' & Hm & Hr'); try done; auto; by exists t'.
Qed.

Lemma reservation_refines t s role key :
  refines t s → reservation role key t = (inr (spec_reservation role key s), t).
Proof.
  intros Hr. unfold reservation, spec_reservation. destruct (refines_key t s role key Hr) as (res & Hf & Hres).
  rewrite (bind_ok _ _ _ _ _ Hf). destruct res as [i|]; [|by rewrite Hres]. destruct Hres as (o & rest & -> & Ho & _).
  rewrite (bind_ok _ _ t t t) by done. pose proof (proj1 (refines_shape _ _ _ _ Hr Ho)) as Hs.
  unfold contents in Ho. rewrite list_lookup_fmap in Ho. unfold operation_at. destruct (slots t !! i) as [sl|]; [|done].
  injection Ho as Ho. rewrite (bind_ok _ _ _ _ _ (or_panic_ok _ _)). simpl. rewrite Ho, (head_alias_lookup _ Hs). done.
Qed.

Lemma member_bytes_refines t s role key :
  refines t s → member_bytes role key t = (inr (spec_member_bytes role key s), t).
Proof.
  intros Hr. unfold member_bytes, spec_member_bytes. destruct (refines_key t s role key Hr) as (res & Hf & Hres).
  rewrite (bind_ok _ _ _ _ _ Hf). destruct res as [i|]; [|by rewrite Hres]. destruct Hres as (o & rest & -> & Ho & Hk & _).
  rewrite (bind_ok _ _ t t t) by done. apply has_key_member in Hk as (m & Hm & _).
  unfold contents in Ho. rewrite list_lookup_fmap in Ho. unfold operation_at. destruct (slots t !! i) as [sl|]; [|done].
  injection Ho as Ho. rewrite (bind_ok _ _ _ _ _ (or_panic_ok _ _)). simpl. by rewrite Ho, Hm.
Qed.

Lemma unconverted_original_refines t s open id staged :
  refines t s → unconverted_original open id staged t = (inr (spec_unconverted open id staged s), t).
Proof.
  intros Hr. unfold unconverted_original, spec_unconverted. destruct (refines_key t s H8Open open Hr) as (res & Hf & Hres).
  rewrite (bind_ok _ _ _ _ _ Hf). destruct res as [i|]; [|by rewrite Hres]. destruct Hres as (o & rest & -> & Ho & _).
  by rewrite (bind_ok _ _ _ _ _ (get_operation_ok _ _ _ Ho)).
Qed.

Lemma unconverted_staging_refines t s open id staged :
  refines t s → unconverted_staging open staged id t = (inr (spec_unconverted open id (Some staged) s), t).
Proof. apply unconverted_original_refines. Qed.

Lemma released_refines t s id :
  refines t s → reservation_is_released id t = (inr (spec_released id s), t).
Proof.
  intros Hr. unfold reservation_is_released, spec_released. rewrite (bind_ok _ _ t t t), (rf_next _ _ Hr) by done.
  destruct (negb (id =? 0) && (id <=? s_next s)); [|done]. destruct (refines_id t s id Hr) as (res & Hf & Hres).
  rewrite (bind_ok _ _ _ _ _ Hf), existsb_take_op. simpl. destruct res as [i|]; [|by rewrite Hres].
  by destruct Hres as (o & rest & -> & _).
Qed.

(** ** A fresh table *)

Lemma link_free_ok (pre : list (TableSlot C)) n :
  let '(sl, head) := link_free (length pre) (replicate n vacant) in
  (length pre + n <= MAX_INDEXED)%nat →
  length sl = n ∧ operation <$> sl = replicate n None ∧ links <$> sl = replicate n (links (@vacant C)) ∧
  (n ≠ 0%nat → head = Z.of_nat (length pre)) ∧
  chain (λ m, free_next <$> (pre ++ sl) !! Z.to_nat m) head (Z.of_nat <$> seq (length pre) n).
Proof.
  revert pre. induction n as [|n IH]; intros pre; simpl; [intros _; split_and!; try done; constructor|].
  destruct (link_free (S (length pre)) (replicate n vacant)) as [sl head] eqn:E. intros Hk.
  pose proof (IH (pre ++ [set_free_next (λ _, head) vacant])) as IH'. rewrite length_app in IH'. simpl in IH'.
  rewrite Nat.add_1_r, E in IH'. destruct IH' as (Hl & Ho & Hlk & Hh & Hc); [lia|].
  unfold MAX_INDEXED in Hk. assert (as_u16 (Z.of_nat (length pre)) = Z.of_nat (length pre)) as Has.
  { unfold as_u16. apply wrap_small. unfold in_width. lia. }
  rewrite Has. split_and!; [simpl; lia|exact (f_equal (cons None) Ho)|exact (f_equal (cons _) Hlk)|done|].
  rewrite <-(assoc_L (++)) in Hc. econstructor; [unfold INDEX_NONE, U16_MAX; lia| |exact Hc].
  rewrite Nat2Z.id, lookup_app_r, Nat.sub_diag by lia. done.
Qed.

Lemma empty_index (f : Z → option Z) : index_ok f (replicate INDEX_BUCKETS INDEX_NONE) (λ _, None).
Proof.
  constructor; [apply length_replicate|]. intros b h [-> _]%lookup_replicate. exists [].
  split_and!; [constructor|constructor|]. intros n. split; [set_solver|done].
Qed.

Lemma shape_vacant n : shape (replicate n (@vacant C)).
Proof. apply Forall_replicate. by eexists _, _. Qed.

Lemma lane_at_empty (g : Operation C → nat → option nat) n m : lane_at g (replicate n None) m = None.
Proof.
  unfold lane_at. destruct (0 <=? m); [|done]. destruct (replicate n None !! node_slot m) as [x|] eqn:E; [|done].
  by apply lookup_replicate in E as [-> _].
Qed.

Lemma occupied_empty n : occupied (replicate n (@None (Operation C))) = [].
Proof. induction n; done. Qed.

Lemma fresh_refines capacity sl heads head :
  Z.of_nat capacity < 2 ^ 64 → length sl = capacity → operation <$> sl = replicate capacity None →
  (∀ f, index_ok f heads (λ _, None)) →
  ((capacity <= MAX_INDEXED)%nat → shape sl ∧
     chain (λ m, free_next <$> sl !! Z.to_nat m) head (Z.of_nat <$> seq 0 capacity)) →
  refines (mkTable sl 0 0 0 (replicate ROLES 0) heads heads head) (spec_new capacity : Spec C).
Proof.
  intros Hsz Hl Ho Hh Hsm. assert (contents (mkTable sl 0 0 0 (replicate ROLES 0) heads heads head) = replicate capacity None) as Hc by done.
  assert (∀ plane (g : Operation C → nat → option nat), index_at plane sl heads (lane_at g (replicate capacity None))) as Hix.
  { intros plane g. constructor; [|intros n b; by rewrite lane_at_empty].
    eapply index_ok_ext; [..|apply (Hh (λ m, link_of plane m sl))]; [done|]. intros n. by rewrite lane_at_empty. }
  constructor; try done.
  - unfold idx_exact. rewrite Hc. intros Hx. unfold indexed in Hx. simpl in Hx. rewrite Hl in Hx. apply Nat.leb_le in Hx as Hk.
    destruct (Hsm Hk) as [Hsh Hch]. constructor; simpl; [lia|done|apply Hix|apply Hix|].
    exists (Z.of_nat <$> seq 0 capacity). split_and!; [exact Hch|apply NoDup_fmap_2; [apply _|apply NoDup_seq]|].
    intros n. rewrite list_elem_of_fmap. unfold vacant_at. split.
    + intros (i & -> & Hi). apply elem_of_seq in Hi. rewrite Hl, Nat2Z.id. split; [lia|]. apply lookup_replicate_2. lia.
    + intros [Hn _]. exists (Z.to_nat n). rewrite elem_of_seq. lia.
  - by rewrite Hc, occupied_empty.
  - constructor; constructor.
Qed.

Lemma try_new_refines capacity :
  Z.of_nat capacity < 2 ^ 64 → refines (try_new capacity) (spec_new capacity : Spec C).
Proof.
  intros Hsz. unfold try_new. destruct (capacity <=? MAX_INDEXED)%nat eqn:E.
  - apply Nat.leb_le in E. pose proof (link_free_ok [] capacity) as H. simpl in H.
    destruct (link_free 0 (replicate capacity vacant)) as [sl head]. destruct (H E) as (Hl & Ho & Hlk & _ & Hc).
    apply fresh_refines; [done..|apply empty_index|]. intros _. split; [|exact Hc].
    apply (shape_links (replicate capacity vacant)); [|apply shape_vacant]. by rewrite Hlk, fmap_replicate.
  - apply Nat.leb_gt in E. apply fresh_refines; [done|apply length_replicate|by rewrite fmap_replicate|apply empty_index|lia].
Qed.

(** ** Histories *)

Inductive call :=
| Insert (role : Role) (key : RoleKey) (existing : option Z) (n : Z) (charge : C)
| Release (role : Role) (key : RoleKey)
| ReleaseRole (role : Role)
| Merge (left right : Z)
| Transfer (from : Role) (from_key : RoleKey) (to : Role) (to_key : RoleKey) (n : Z) (charge : C)
| AskReservation (role : Role) (key : RoleKey)
| AskBytes (role : Role) (key : RoleKey)
| AskStaging (open staged : RoleKey) (id : Z)
| AskOriginal (open : RoleKey) (id : Z) (staged : option RoleKey)
| AskReleased (id : Z)
| Census
| TotalBytes
| Population (role : Role).

Inductive answer :=
| Id (id : Z)
| Freed (member : option (Z * C))
| Done
| Moved (id old_bytes : Z) (old_charge : C)
| Maybe (x : option Z)
| Bool (x : bool)
| Number (n : Z).

Definition answer_with {A} (f : A → answer) (m : Table C A) : Table C answer := a ← m; mret (f a).

Definition exec (k : call) : Table C answer :=
  match k with
  | Insert role key existing n charge => answer_with Id (insert role key existing n charge)
  | Release role key => answer_with Freed (release role key)
  | ReleaseRole role => answer_with (λ _, Done) (release_role role)
  | Merge l r => answer_with Id (merge l r)
  | Transfer from from_key to to_key n charge =>
      answer_with (λ r, Moved (fst (fst r)) (snd (fst r)) (snd r)) (transfer from from_key to to_key n charge)
  | AskReservation role key => answer_with Maybe (reservation role key)
  | AskBytes role key => answer_with Maybe (member_bytes role key)
  | AskStaging open staged id => answer_with Bool (unconverted_staging open staged id)
  | AskOriginal open id staged => answer_with Bool (unconverted_original open id staged)
  | AskReleased id => answer_with Bool (reservation_is_released id)
  | Census => t ← get; mret (Number (live t))
  | TotalBytes => t ← get; mret (Number (bytes t))
  | Population role => t ← get; n ← or_panic (populations t !! Role_index role); mret (Number n)
  end.

Definition ref_with {A} (f : A → answer) (r : (Refusal + A) * Spec C) : (Refusal + answer) * Spec C :=
  (match fst r with inl e => inl e | inr a => inr (f a) end, snd r).

Definition ref_exec (k : call) (s : Spec C) : (Refusal + answer) * Spec C :=
  match k with
  | Insert role key existing n charge => ref_with Id (spec_insert role key existing n charge s)
  | Release role key => (inr (Freed (fst (spec_release role key s))), snd (spec_release role key s))
  | ReleaseRole role => (inr Done, spec_release_role role s)
  | Merge l r => ref_with Id (spec_merge l r s)
  | Transfer from from_key to to_key n charge =>
      ref_with (λ r, Moved (fst (fst r)) (snd (fst r)) (snd r)) (spec_transfer from from_key to to_key n charge s)
  | AskReservation role key => (inr (Maybe (spec_reservation role key s)), s)
  | AskBytes role key => (inr (Maybe (spec_member_bytes role key s)), s)
  | AskStaging open staged id => (inr (Bool (spec_unconverted open id (Some staged) s)), s)
  | AskOriginal open id staged => (inr (Bool (spec_unconverted open id staged s)), s)
  | AskReleased id => (inr (Bool (spec_released id s)), s)
  | Census => (inr (Number (Z.of_nat (length (s_ops s)))), s)
  | TotalBytes => (inr (Number (spec_bytes (s_ops s))), s)
  | Population role => (inr (Number (spec_population (Role_index role) (s_ops s))), s)
  end.

(** Byte counts are unsigned. *)
Definition call_ok (k : call) : Prop :=
  match k with Insert _ _ _ n _ | Transfer _ _ _ _ n _ => 0 <= n | _ => True end.

Fixpoint run (ks : list call) t : list (Stop + answer) * ReservationTable C :=
  match ks with
  | [] => ([], t)
  | k :: ks => let '(a, t) := exec k t in let '(l, t) := run ks t in (a :: l, t)
  end.

Fixpoint ref_run (ks : list call) s : list (Refusal + answer) * Spec C :=
  match ks with
  | [] => ([], s)
  | k :: ks => let '(a, s) := ref_exec k s in let '(l, s) := ref_run ks s in (a :: l, s)
  end.

Lemma exec_refines k t s :
  refines t s → call_ok k →
  ∃ t', exec k t = (lift (ref_exec k s).1, t') ∧ refines t' (ref_exec k s).2.
Proof.
  intros Hr Hk.
  assert (∀ A (f : A → answer) (m : Table C A) (r : (Refusal + A) * Spec C),
    (∃ t', m t = (lift r.1, t') ∧ refines t' r.2) →
    ∃ t', answer_with f m t = (lift (ref_with f r).1, t') ∧ refines t' (ref_with f r).2) as Hlift.
  { intros A f m [[e|a] s'] (t' & Hm & Hr'); simpl in *; exists t'; unfold answer_with;
      [by rewrite (bind_err _ _ _ _ _ Hm)|by rewrite (bind_ok _ _ _ _ _ Hm)]. }
  assert (∀ A (f : A → answer) (m : Table C A) (a : A) s', (∃ t', m t = (inr a, t') ∧ refines t' s') →
    ∃ t', answer_with f m t = (inr (f a), t') ∧ refines t' s') as Hok.
  { intros A f m a s' (t' & Hm & Hr'). exists t'. unfold answer_with. by rewrite (bind_ok _ _ _ _ _ Hm). }
  destruct k; simpl in Hk.
  - by apply Hlift, insert_refines.
  - by apply Hok, release_refines.
  - by apply (Hok unit (λ _, Done) _ tt), release_role_refines.
  - by apply Hlift, merge_refines.
  - by apply Hlift, transfer_refines.
  - apply Hok. exists t. by rewrite (reservation_refines _ s).
  - apply Hok. exists t. by rewrite (member_bytes_refines _ s).
  - apply Hok. exists t. by rewrite (unconverted_staging_refines _ s).
  - apply Hok. exists t. by rewrite (unconverted_original_refines _ s).
  - apply Hok. exists t. by rewrite (released_refines _ s).
  - exists t. unfold exec. rewrite (bind_ok _ _ t t t), (rf_live _ _ Hr) by done. done.
  - exists t. unfold exec. rewrite (bind_ok _ _ t t t), (rf_bytes _ _ Hr) by done. done.
  - exists t. unfold exec. rewrite (bind_ok _ _ t t t), (rf_pops _ _ Hr), pops_lookup by (done || apply Role_index_lt). done.
Qed.

Lemma run_refines ks t s :
  refines t s → Forall call_ok ks →
  (run ks t).1 = lift <$> (ref_run ks s).1 ∧ refines (run ks t).2 (ref_run ks s).2.
Proof.
  revert t s. induction ks as [|k ks IH]; intros t s Hr Hok; [done|]. apply Forall_cons in Hok as [Hk Hok]. simpl.
  destruct (exec_refines k t s Hr Hk) as (t1 & He & Hr1). rewrite He. destruct (ref_exec k s) as [a s1]. simpl in *.
  destruct (IH t1 s1 Hr1 Hok) as [Hl Hr2]. destruct (run ks t1), (ref_run ks s1). simpl in *. by rewrite Hl.
Qed.

Lemma reached_refines capacity ks :
  Z.of_nat capacity < 2 ^ 64 → Forall call_ok ks →
  refines (run ks (try_new capacity)).2 (ref_run ks (spec_new capacity)).2.
Proof. intros Hc Hk. by apply run_refines, Hk; apply try_new_refines. Qed.

(** ** Ids over time *)

Lemma ids_elem id ops : id ∈ ids ops ↔ ∃ o, o ∈ ops ∧ id ∈ op_ids o.
Proof.
  unfold ids. rewrite list_elem_of_In, in_concat. split.
  - intros (l & Hl & Hin). apply list_elem_of_In in Hl, Hin. apply list_elem_of_fmap in Hl as (o & -> & Ho). eauto.
  - intros (o & Ho & Hin). exists (op_ids o). split; apply list_elem_of_In; [by apply list_elem_of_fmap_2|done].
Qed.

Lemma join_ids (a b : Operation C) id :
  op_shape a → (length (present (aliases a)) + length (present (aliases b)) <= ROLES)%nat →
  id ∈ op_ids (join a b) → id ∈ op_ids a ∨ id ∈ op_ids b.
Proof.
  intros Ha Hc. destruct (adopt_aliases_ok (aliases a) (snd <$> present (aliases b))) as (l' & pos & Had & _ & Hpos & Hp & _).
  { by rewrite length_fmap, (os_aliases _ Ha). }
  unfold op_ids, join. simpl. rewrite Had. simpl. rewrite Hp, fmap_app, elem_of_app.
  change (combine pos ?l) with (zip pos l). rewrite snd_zip by (by rewrite Hpos). tauto.
Qed.

(** A call keeps every id it does not mint: nothing old comes back. *)
Lemma ref_exec_ids k s next' :
  ops_wf next' (s_ops s) →
  s_next s <= s_next (ref_exec k s).2 ∧
  ∀ id, id ∈ ids (s_ops (ref_exec k s).2) → id ∈ ids (s_ops s) ∨ s_next s < id.
Proof.
  intros Hw. assert (∀ p o rest id (o' : Operation C), take_op p (s_ops s) = Some (o, rest) → op_ids o' = op_ids o →
    id ∈ ids (o' :: rest) → id ∈ ids (s_ops s)) as Hput.
  { intros p o rest id o' [Hp _]%take_op_Some Ho Hin. rewrite Hp. unfold ids in *. simpl in *. by rewrite <-Ho. }
  destruct k; simpl; try (split; [lia|tauto]).
  - unfold spec_insert. destruct (spec_preflight _ _ _ _ _); simpl; [split; [lia|tauto]|].
    destruct existing as [i|]; simpl.
    + destruct (take_op _ _) as [[o rest]|] eqn:E; simpl; (split; [lia|]); [|tauto]. intros id Hid. left. by eapply Hput.
    + split; [lia|]. intros id. unfold ids. simpl. rewrite elem_of_cons. intros [->|?]; [lia|tauto].
  - unfold spec_release. destruct (take_op _ _) as [[o rest]|] eqn:E; simpl; (split; [lia|]); [|tauto].
    intros id. unfold drop_role. destruct (all_none _); simpl; intros Hid; left; [|by eapply Hput].
    eapply (Hput _ _ _ id o E eq_refl). unfold ids. simpl. apply elem_of_app. by right.
  - split; [lia|]. intros id (o' & Ho' & Hid)%ids_elem. apply list_elem_of_omap in Ho' as (o & Ho & Hd).
    left. apply ids_elem. exists o. split; [done|]. unfold drop_role in Hd. destruct (all_none _); [done|]. by injection Hd as <-.
  - unfold spec_merge. destruct (take_op _ (s_ops s)) as [[a rest]|] eqn:Ea; simpl; [|split; [lia|tauto]].
    destruct (has_alias right a); simpl; [split; [lia|tauto]|].
    destruct (take_op _ rest) as [[b rest']|] eqn:Eb; simpl; [|split; [lia|tauto]].
    destruct (overlapping _ _); simpl; [split; [lia|tauto]|]. destruct (ROLES <? _)%nat eqn:Ec; simpl; [split; [lia|tauto]|].
    apply Nat.ltb_ge in Ec. split; [lia|]. intros id Hid. left. apply take_op_Some in Ea as [Hpa _], Eb as [Hpb _].
    rewrite Hpa in Hw. apply ops_wf_cons in Hw as [[Hsa _ _ _ _ _ _] _]. rewrite Hpa, Hpb. unfold ids in *. simpl in *.
    rewrite !elem_of_app in *. destruct Hid as [Hid|]; [|tauto]. apply (join_ids a b) in Hid; [tauto|done|lia].
  - unfold spec_transfer. destruct (take_op _ _) as [[o rest]|] eqn:E; simpl; [|split; [lia|tauto]].
    destruct (_ || _); simpl; [split; [lia|tauto]|].
    destruct (roles o !! _) as [[m|]|]; simpl; [|split; [lia|tauto]..]. destruct (2 ^ 64 <=? _); simpl; [split; [lia|tauto]|].
    split; [lia|]. intros id Hid. left. by eapply Hput.
Qed.

Lemma spec_released_ids id s : spec_released id s = true ↔ id ≠ 0 ∧ id <= s_next s ∧ (id ∉ ids (s_ops s)).
Proof.
  unfold spec_released. rewrite !andb_true_iff, !negb_true_iff, Z.eqb_neq, Z.leb_le.
  assert (existsb (has_alias id) (s_ops s) = false ↔ id ∉ ids (s_ops s)) as Hx; [|tauto].
  rewrite ids_elem. split.
  - intros He (o & Ho & Hid). apply has_alias_elem in Hid. apply Bool.not_true_iff_false in He. apply He, existsb_exists.
    exists o. split; [by apply list_elem_of_In|done].
  - intros Hn. apply Bool.not_true_iff_false. intros He. apply existsb_exists in He as (o & Ho & Hid).
    apply Hn. exists o. split; [by apply list_elem_of_In|by apply has_alias_elem].
Qed.

Lemma ref_run_released ks id t s :
  refines t s → Forall call_ok ks → spec_released id s = true → spec_released id (ref_run ks s).2 = true.
Proof.
  revert t s. induction ks as [|k ks IH]; intros t s Hr Hok Hrel; [done|]. apply Forall_cons in Hok as [Hk Hok]. simpl.
  destruct (exec_refines k t s Hr Hk) as (t1 & _ & Hr1). destruct (ref_exec_ids k s _ (rf_wf _ _ Hr)) as [Hn Hi].
  destruct (ref_exec k s) as [a s1]. simpl in *. specialize (IH t1 s1 Hr1 Hok). destruct (ref_run ks s1) as [l s2]. simpl in *.
  apply IH. rewrite spec_released_ids in *. split_and!; [tauto|lia|]. intros Hin. apply Hi in Hin as [?|?]; [tauto|lia].
Qed.

(** ** Siblings of a released role *)

Lemma take_op_perm p ops ops' :
  ops ≡ₚ ops' → unique_op p ops → fst <$> take_op p ops = fst <$> take_op p ops'.
Proof.
  intros Hp Hu. destruct (take_op p ops) as [[o rest]|] eqn:E.
  - apply take_op_Some in E as [Ho Hpo]. destruct (take_op p ops') as [[o' rest']|] eqn:E'; simpl.
    + apply take_op_Some in E' as [Ho' Hpo']. f_equal. assert (o ∈ o' :: rest') as Hin by (rewrite <-Ho', <-Hp, Ho; left).
      apply elem_of_cons in Hin as [->|Hin]; [done|]. exfalso. apply elem_of_Permutation in Hin as [l Hl].
      apply (Hu o' o l); [|done..]. by rewrite Hp, Ho', Hl.
    + rewrite take_op_None in E'. rewrite E' in Hpo; [done|]. rewrite <-Hp, Ho. left.
  - rewrite take_op_None in E. destruct (take_op p ops') as [[o' rest']|] eqn:E'; [|done].
    apply take_op_Some in E' as [Ho' Hpo']. rewrite E in Hpo'; [done|]. rewrite Hp, Ho'. left.
Qed.

Lemma has_key_put lane lane' key' o :
  lane' ≠ lane → has_key lane' key' (put_role lane None o) = has_key lane' key' o.
Proof. intros H. unfold has_key. simpl. by rewrite list_lookup_insert_ne. Qed.

Lemma has_key_dropped lane key' o : (lane < length (roles o))%nat → has_key lane key' (put_role lane None o) = false.
Proof. intros H. unfold has_key. simpl. by rewrite list_lookup_insert_eq. Qed.

(** The owner of another key after a release is its owner before, short of the role. *)
Lemma spec_release_owner role key lane' key' s next' :
  ops_wf next' (s_ops s) → (lane', key') ≠ (Role_index role, key) →
  ∃ (f : Operation C → Operation C), fst <$> take_op (has_key lane' key') (s_ops (spec_release role key s).2) =
      f <$> (fst <$> take_op (has_key lane' key') (s_ops s)) ∧
    ∀ o, aliases (f o) = aliases o ∧ (has_key lane' key' o = true → roles (f o) !! lane' = roles o !! lane').
Proof.
  intros Hw Hne. unfold spec_release. set (lane := Role_index role) in *.
  destruct (take_op (has_key lane key) (s_ops s)) as [[o rest]|] eqn:E.
  2:{ exists id. split; [|done]. simpl. by destruct (take_op (has_key lane' key') (s_ops s)) as [[]|]. }
  apply take_op_Some in E as [Hp Ho]. rewrite (take_op_perm _ _ _ Hp (unique_key _ _ lane' key' Hw)). simpl.
  apply has_key_member in Ho as (m & Hm & Hmk). assert (lane < length (roles o))%nat as Hl by (by eapply lookup_lt_Some).
  destruct (has_key lane' key' o) eqn:Eo; simpl.
  - assert (lane' ≠ lane) as Hll.
    { intros ->. apply has_key_member in Eo as (m' & Hm' & Hk'). congruence. }
    exists (put_role lane None). unfold drop_role. assert (all_none (roles (put_role lane None o)) = false) as ->.
    { apply has_key_member in Eo as (m' & Hm' & _). apply all_none_false. exists lane', m'. simpl. by rewrite list_lookup_insert_ne. }
    simpl. rewrite has_key_put, Eo by done. simpl. split; [done|]. intros x. split; [done|]. intros _. simpl. by rewrite list_lookup_insert_ne.
  - exists id. split; [|done]. assert (has_key lane' key' (put_role lane None o) = false) as Ep.
    { destruct (decide (lane' = lane)) as [->|Hll]; [by apply has_key_dropped|by rewrite has_key_put]. }
    unfold drop_role. destruct (all_none _); simpl; [|rewrite Ep]; destruct (take_op (has_key lane' key') rest) as [[x r]|]; done.
Qed.

Lemma spec_release_siblings role key role' key' s next' :
  ops_wf next' (s_ops s) → (role', key') ≠ (role, key) →
  spec_reservation role' key' (spec_release role key s).2 = spec_reservation role' key' s ∧
  spec_member_bytes role' key' (spec_release role key s).2 = spec_member_bytes role' key' s.
Proof.
  intros Hw Hne. destruct (spec_release_owner role key (Role_index role') key' s next' Hw) as (f & Hf & Hkeep).
  { intros [= E ->]. apply Hne. by rewrite (Role_index_inj _ _ E). }
  unfold spec_reservation, spec_member_bytes.
  destruct (take_op _ (s_ops (spec_release role key s).2)) as [[o' r']|], (take_op _ (s_ops s)) as [[o r]|] eqn:E; simplify_eq/=; try done.
  apply take_op_Some in E as [_ Ho]. destruct (Hkeep o) as [Ha Hr]. split; [|by rewrite Hr].
  unfold head_alias. simpl. by rewrite Ha.
Qed.
End props.

(** ** Theorems *)

(** C4: for every capacity and every sequence of insertions, releases, merges, transfers and
    questions, the reservation table answers as its reference does, refusals included.  A
    table of at most 1024 slots is the indexed one and a larger one scans, so both answer
    alike; no answer is a failed assertion, a counter out of range or a chain walk that
    does not end. *)
Theorem reservation_table_refines (C : Type) (capacity : nat) (ks : list (@call C)) :
  Z.of_nat capacity < 2 ^ 64 → Forall call_ok ks →
  (run ks (try_new capacity)).1 = lift <$> (ref_run ks (spec_new capacity)).1.
Proof. intros Hc Hk. by apply run_refines, Hk; apply try_new_refines. Qed.

(** a reservation id is never recycled: once the table says an id is released, it says
    so after any further calls, also when the slot was taken again. *)
Theorem reservation_released_final (C : Type) (capacity : nat) (ks ks' : list (@call C)) id :
  Z.of_nat capacity < 2 ^ 64 → Forall call_ok ks → Forall call_ok ks' →
  let t := (run ks (try_new capacity)).2 in
  (exec (AskReleased id) t).1 = inr (Bool true) → (exec (AskReleased id) (run ks' t).2).1 = inr (Bool true).
Proof.
  intros Hc Hk Hk' t. pose proof (reached_refines capacity ks Hc Hk) as Hr. fold t in Hr.
  pose proof (run_refines ks' _ _ Hr Hk') as [_ Hr']. unfold exec, answer_with.
  rewrite (bind_ok _ _ _ _ _ (released_refines _ _ id Hr)), (bind_ok _ _ _ _ _ (released_refines _ _ id Hr')).
  intros [= H]. simpl. by rewrite (ref_run_released ks' id t _ Hr Hk' H).
Qed.

(** Releasing one role leaves every other membership of the table in place, those of the
    same operation included: each keeps its reservation id and its bytes. *)
Theorem release_keeps_siblings (C : Type) (capacity : nat) (ks : list (@call C)) role key role' key' :
  Z.of_nat capacity < 2 ^ 64 → Forall call_ok ks → (role', key') ≠ (role, key) →
  let t := (run ks (try_new capacity)).2 in
  let t' := (exec (Release role key) t).2 in
  (exec (AskReservation role' key') t').1 = (exec (AskReservation role' key') t).1 ∧
  (exec (AskBytes role' key') t').1 = (exec (AskBytes role' key') t).1.
Proof.
  intros Hc Hk Hne t t'. pose proof (reached_refines capacity ks Hc Hk) as Hr. fold t in Hr.
  destruct (exec_refines (Release role key) t _ Hr I) as (t1 & He & Hr1). unfold t'. rewrite He. simpl in Hr1 |- *.
  unfold answer_with. rewrite !(bind_ok _ _ _ _ _ (reservation_refines _ _ role' key' Hr)), !(bind_ok _ _ _ _ _ (reservation_refines _ _ role' key' Hr1)).
  rewrite !(bind_ok _ _ _ _ _ (member_bytes_refines _ _ role' key' Hr)), !(bind_ok _ _ _ _ _ (member_bytes_refines _ _ role' key' Hr1)).
  destruct (spec_release_siblings role key role' key' _ _ (rf_wf _ _ Hr) Hne) as [-> ->]. done.
Qed.

(** ** A history *)

Definition demo_key (n : Z) : RoleKey := mkKey 7 n.

(** Two operations built up, merged, a role moved, and everything released. *)
Definition demo_calls : list (@call Z) :=
  [Insert Raw (demo_key 1) None 10 100; Insert H8Open (demo_key 2) (Some 1) 20 200; Insert Model (demo_key 3) None 5 300;
   Insert Association (demo_key 9) None 1 1; Merge 1 2; AskReservation Model (demo_key 3);
   Transfer Raw (demo_key 1) H9Staged (demo_key 4) 7 400; Release H8Open (demo_key 2); TotalBytes;
   ReleaseRole Model; Release H9Staged (demo_key 4); AskReleased 2].

Lemma demo_calls_ok : Forall call_ok demo_calls.
Proof. repeat constructor; simpl; lia. Qed.

Lemma reservation_table_refines_witness :
  (run demo_calls (try_new 2)).1 =
  [inr (Id 1); inr (Id 1); inr (Id 2); inl (Refuse Full); inr (Id 1); inr (Maybe (Some 1)); inr (Moved 1 10 100);
   inr (Freed (Some (20, 200))); inr (Number 12); inr Done; inr (Freed (Some (7, 400))); inr (Bool true)].
Proof.
  rewrite (reservation_table_refines Z 2 demo_calls ltac:(lia) demo_calls_ok). by vm_compute.
Defined.

Lemma reservation_released_final_witness :
  (exec (AskReleased 2) (run [Insert Raw (demo_key 1) None 10 100] (run demo_calls (try_new 2)).2).2).1 = inr (Bool true).
Proof.
  apply (reservation_released_final Z 2 demo_calls [Insert Raw (demo_key 1) None 10 100] 2); [lia|apply demo_calls_ok|..].
  - repeat constructor; simpl; lia.
  - by vm_compute.
Defined.

Lemma release_keeps_siblings_witness :
  let t := (run (firstn 2 demo_calls) (try_new 2)).2 in
  (exec (AskBytes Raw (demo_key 1)) (exec (Release H8Open (demo_key 2)) t).2).1 = (exec (AskBytes Raw (demo_key 1)) t).1 ∧
  (exec (AskBytes Raw (demo_key 1)) t).1 = inr (Maybe (Some 10)).
Proof.
  split; [|by vm_compute].
  apply (release_keeps_siblings Z 2 (firstn 2 demo_calls) H8Open (demo_key 2) Raw (demo_key 1)); [lia| |done].
  repeat constructor; simpl; lia.
Defined.
