(* ===== verification/Promotion.v ===== *)
(** * Promotion control

    [src/inventory/promotion/state.rs]: the one-slot mailbox between the operator and the
    runtime, its request serials and the visible state machine of a promotion. *)
From Stdlib Require Import Sorted.
From S2P Require Import Prelude.

Definition EXHAUSTED : Z := U64_MAX.

Record PromotionPair := mkPair {
  pair_caller : Z;
  pair_provider : Z;
}.

#[export] Instance PromotionPair_eq_dec : EqDecision PromotionPair.
Proof. solve_decision. Defined.

Inductive PromotionRefusal :=
| Disabled | Busy | Duplicate | AlreadyDetailed | Exhausted | ForeignCapture | StaleView | UnknownCaller
| CallerRetired | CallerChanged | ProviderChanged | ProviderUnloaded | ManifestUnavailable | EndpointAmbiguous
| EndpointDependency | ScopeEnded | ScopeUnsupported | PreparationFailed | ActivationFailed | Capacity.

Definition PromotionRefusal_label (r : PromotionRefusal) : string :=
  match r with
  | Disabled => "control disabled"
  | Busy => "another promotion is outstanding"
  | Duplicate => "same pair already requested"
  | AlreadyDetailed => "pair already detailed"
  | Exhausted => "request serials exhausted"
  | ForeignCapture => "foreign capture"
  | StaleView => "view expired"
  | UnknownCaller => "unknown caller"
  | CallerRetired => "caller retired"
  | CallerChanged => "caller identity changed"
  | ProviderChanged => "provider changed"
  | ProviderUnloaded => "provider unloaded"
  | ManifestUnavailable => "no manifest permission"
  | EndpointAmbiguous => "ambiguous endpoints"
  | EndpointDependency => "dependency endpoints outside closure"
  | ScopeEnded => "parent scope ended"
  | ScopeUnsupported => "parent scope unsupported"
  | PreparationFailed => "preparation failed"
  | ActivationFailed => "activation failed"
  | Capacity => "install capacity unavailable"
  end.

Inductive PromotionEnd := EndCancelled | EndRunStopped | EndLaneClosed.

Definition PromotionEnd_label (e : PromotionEnd) : string :=
  match e with
  | EndCancelled => "cancelled by operator"
  | EndRunStopped => "run stopped"
  | EndLaneClosed => "lane closed"
  end.

Inductive PromotionState :=
| Idle | Queued | Preparing | Validating | Active
| Refused (reason : PromotionRefusal) | Stopping | Ended (reason : PromotionEnd).

Inductive PromotionOutcome :=
| OutcomePreparing | OutcomeValidating
| OutcomeActive (pair : PromotionPair)
| OutcomeRefused (reason : PromotionRefusal)
| OutcomeEnded (reason : PromotionEnd).

Record PromotionStatusUpdate := mkUpdate {
  update_capture : Z;
  update_request : Z;
  outcome : PromotionOutcome;
}.

Record RequestTicket := mkTicket {
  ticket_id : Z;
  ticket_view : Z;
  ticket_pair : PromotionPair;
}.

Inductive PromotionCancel := CancelNothing | CancelDone | CancelStopping.

Inductive PromotionNote :=
| NoteBusy | NoteDuplicate | NoteAlreadyDetailed | NoteExhausted | NoteNoSelection | NoteStaleSelection | NoteNothingToCancel.

Definition for_refusal (r : PromotionRefusal) : option PromotionNote :=
  match r with
  | Busy => Some NoteBusy
  | Duplicate => Some NoteDuplicate
  | AlreadyDetailed => Some NoteAlreadyDetailed
  | Exhausted => Some NoteExhausted
  | _ => None
  end.

Definition PromotionNote_label (n : PromotionNote) : string :=
  match n with
  | NoteBusy => "busy"
  | NoteDuplicate => "duplicate of in-flight request"
  | NoteAlreadyDetailed => "already detailed"
  | NoteExhausted => "request serials exhausted"
  | NoteNoSelection => "no pair selected"
  | NoteStaleSelection => "selection left the displayed view"
  | NoteNothingToCancel => "nothing to cancel"
  end.

Record PromotionControl := mkControl {
  enabled : bool;
  capture : option Z;
  next_serial : Z;
  outstanding : option RequestTicket;
  state : PromotionState;
  taken : bool;
  note : option PromotionNote;
  run_stopped : bool;
}.

(** Field updates. *)

Definition set_enabled (g : bool → bool) (c : PromotionControl) : PromotionControl :=
  mkControl (g (enabled c)) (capture c) (next_serial c) (outstanding c) (state c) (taken c) (note
    c) (run_stopped c).

Definition set_capture (g : option Z → option Z) (c : PromotionControl) : PromotionControl :=
  mkControl (enabled c) (g (capture c)) (next_serial c) (outstanding c) (state c) (taken c) (note
    c) (run_stopped c).

Definition set_next_serial (g : Z → Z) (c : PromotionControl) : PromotionControl :=
  mkControl (enabled c) (capture c) (g (next_serial c)) (outstanding c) (state c) (taken c) (note
    c) (run_stopped c).

Definition set_outstanding (g : option RequestTicket → option RequestTicket) (c : PromotionControl) : PromotionControl :=
  mkControl (enabled c) (capture c) (next_serial c) (g (outstanding c)) (state c) (taken c) (note
    c) (run_stopped c).

Definition set_state (g : PromotionState → PromotionState) (c : PromotionControl) : PromotionControl :=
  mkControl (enabled c) (capture c) (next_serial c) (outstanding c) (g (state c)) (taken c) (note
    c) (run_stopped c).

Definition set_taken (g : bool → bool) (c : PromotionControl) : PromotionControl :=
  mkControl (enabled c) (capture c) (next_serial c) (outstanding c) (state c) (g (taken c)) (note
    c) (run_stopped c).

Definition set_note (g : option PromotionNote → option PromotionNote) (c : PromotionControl) : PromotionControl :=
  mkControl (enabled c) (capture c) (next_serial c) (outstanding c) (state c) (taken c) (g (note
    c)) (run_stopped c).

Definition set_run_stopped (g : bool → bool) (c : PromotionControl) : PromotionControl :=
  mkControl (enabled c) (capture c) (next_serial c) (outstanding c) (state c) (taken c) (note c)
    (g (run_stopped c)).

Definition PromotionControl_new : PromotionControl := mkControl false None 1 None Idle false None false.

(** ** Operator side *)

Definition request (view : Z) (pair : PromotionPair) (c : PromotionControl)
    : result PromotionRefusal Z * PromotionControl :=
  if negb (enabled c) then (Err Disabled, c)
  else if run_stopped c then (Err ScopeEnded, c)
  else
    let same_pair := match outstanding c with Some t => bool_decide (ticket_pair t = pair) | None => false end in
    match state c with
    | Active => (Err (if same_pair then AlreadyDetailed else Busy), c)
    | Queued | Preparing | Validating => (Err (if same_pair then Duplicate else Busy), c)
    | Stopping => (Err Busy, c)
    | Idle | Refused _ | Ended _ =>
        if next_serial c =? EXHAUSTED then (Err Exhausted, c)
        else
          let id := next_serial c in
          (Ok id, mkControl (enabled c) (capture c) (next_serial c + 1) (Some (mkTicket id view pair)) Queued false None
                    (run_stopped c))
    end.

Definition cancel (c : PromotionControl) : PromotionCancel * PromotionControl :=
  match state c with
  | Idle | Refused _ | Ended _ => (CancelNothing, c)
  | Stopping => (CancelStopping, c)
  | Active => (CancelStopping, set_state (λ _, Stopping) c)
  | Queued | Preparing | Validating =>
      if taken c then (CancelStopping, set_state (λ _, Stopping) c)
      else (CancelDone, set_state (λ _, Ended EndCancelled) (set_taken (λ _, true) c))
  end.

Definition note_run_stopped (c : PromotionControl) : bool * PromotionControl :=
  if run_stopped c then (false, c)
  else
    let c := set_run_stopped (λ _, true) c in
    match state c with
    | Idle | Refused _ | Ended _ => (false, c)
    | Queued =>
        if negb (taken c) then (true, set_state (λ _, Ended EndRunStopped) (set_taken (λ _, true) c))
        else (true, set_state (λ _, Stopping) c)
    | Preparing | Validating | Active | Stopping => (true, set_state (λ _, Stopping) c)
    end.

(** ** Runtime side *)

Definition enable (id : Z) (c : PromotionControl) : bool * PromotionControl :=
  if run_stopped c then (false, c)
  else if negb (enabled c) then (true, set_capture (λ _, Some id) (set_enabled (λ _, true) c))
  else (bool_decide (capture c = Some id), c).

Definition take_ticket (c : PromotionControl) : option RequestTicket * PromotionControl :=
  if run_stopped c then (None, c)
  else if taken c then (None, c)
  else match state c with
       | Queued => (outstanding c, set_taken (λ _, true) c)
       | _ => (None, c)
       end.

(** The legal transitions of [set_status]. *)
Definition next_state (s : PromotionState) (o : PromotionOutcome) (pair : PromotionPair) : option PromotionState :=
  match s, o with
  | Queued, OutcomePreparing => Some Preparing
  | Queued, OutcomeValidating => Some Validating
  | Preparing, OutcomePreparing => Some Preparing
  | Preparing, OutcomeValidating => Some Validating
  | Validating, OutcomeValidating => Some Validating
  | (Queued | Preparing | Validating), OutcomeActive p => if bool_decide (p = pair) then Some Active else None
  | (Queued | Preparing | Validating | Stopping), OutcomeRefused reason => Some (Refused reason)
  | (Queued | Preparing | Validating | Stopping | Active), OutcomeEnded reason => Some (Ended reason)
  | _, _ => None
  end.

Definition set_status (u : PromotionStatusUpdate) (c : PromotionControl) : option PromotionState * PromotionControl :=
  if negb (bool_decide (Some (update_capture u) = capture c)) then (None, c)
  else
    match outstanding c with
    | None => (None, c)
    | Some t =>
        if negb (ticket_id t =? update_request u) then (None, c)
        else
          match next_state (state c) (outcome u) (ticket_pair t) with
          | None => (None, c)
          | Some next => (Some next, set_note (λ _, None) (set_taken (λ _, true) (set_state (λ _, next) c)))
          end
    end.

(** ** Histories *)

Inductive call :=
| Request (view : Z) (pair : PromotionPair)
| Cancel
| RunStopped
| Note (n : option PromotionNote)
| Enable (id : Z)
| Take
| Status (u : PromotionStatusUpdate).

(** What a call handed over: a ticket accepted from the operator, or one given to the runtime. *)
Inductive event := Accepted (t : RequestTicket) | Took (t : RequestTicket).

Definition exec (k : call) (c : PromotionControl) : list event * PromotionControl :=
  match k with
  | Request view p =>
      let '(r, c) := request view p c in
      (match r with Ok id => [Accepted (mkTicket id view p)] | Err _ => [] end, c)
  | Cancel => ([], snd (cancel c))
  | RunStopped => ([], snd (note_run_stopped c))
  | Note n => ([], set_note (λ _, n) c)
  | Enable id => ([], snd (enable id c))
  | Take => let '(t, c) := take_ticket c in (match t with Some t => [Took t] | None => [] end, c)
  | Status u => ([], snd (set_status u c))
  end.

Fixpoint run (ks : list call) (c : PromotionControl) : list event * PromotionControl :=
  match ks with
  | [] => ([], c)
  | k :: ks => let '(e, c) := exec k c in let '(l, c) := run ks c in (e ++ l, c)
  end.

Definition accepted (l : list event) : list RequestTicket :=
  omap (λ e, match e with Accepted t => Some t | Took _ => None end) l.

Definition took (l : list event) : list RequestTicket :=
  omap (λ e, match e with Took t => Some t | Accepted _ => None end) l.

Definition terminal (s : PromotionState) : bool :=
  match s with Idle | Refused _ | Ended _ => true | _ => false end.

(** Accepted and taken tickets of the past, beside the control. *)
Record control_wf (acc tk : list RequestTicket) (c : PromotionControl) : Prop := mkControlWf {
  pc_serial : 1 <= next_serial c <= EXHAUSTED;
  pc_order : StronglySorted Z.lt (ticket_id <$> acc);
  pc_ids : Forall (λ t, 1 <= ticket_id t < next_serial c) acc;
  pc_outstanding : outstanding c = last acc;
  pc_taken : tk `sublist_of` acc;
  pc_untaken : taken c = false → acc = [] ∧ tk = [] ∧ state c = Idle ∨
    ∃ pre t, acc = pre ++ [t] ∧ tk `sublist_of` pre ∧ state c = Queued;
  pc_stopped : run_stopped c = true → terminal (state c) = true ∨ state c = Stopping;
}.

(** A call that leaves the mailbox alone. *)
Lemma control_wf_keep acc tk c c' :
  control_wf acc tk c → next_serial c' = next_serial c → outstanding c' = outstanding c →
  (taken c' = false → taken c = false ∧ state c' = state c) →
  (run_stopped c' = true → terminal (state c') = true ∨ state c' = Stopping) → control_wf acc tk c'.
Proof.
  intros [Hs Ho Hi Hout Ht Hu Hst] En Eo Et Es. constructor; rewrite ?En, ?Eo; try done.
  intros E. destruct (Et E) as [E' ->]. by apply Hu.
Qed.

Lemma request_wf acc tk view pair c :
  control_wf acc tk c →
  control_wf (acc ++ accepted (exec (Request view pair) c).1) (tk ++ took (exec (Request view pair) c).1) (exec (Request view pair) c).2.
Proof.
  intros Hw. unfold exec, request.
  destruct (enabled c); simpl; [|by rewrite !app_nil_r]. destruct (run_stopped c) eqn:Er; simpl; [by rewrite !app_nil_r|].
  assert (next_serial c ≠ EXHAUSTED → control_wf (acc ++ [mkTicket (next_serial c) view pair]) (tk ++ [])
    (mkControl true (capture c) (next_serial c + 1) (Some (mkTicket (next_serial c) view pair)) Queued false None false)) as Hnew.
  { intros Hne. destruct Hw as [Hs Ho Hi Hout Ht Hu Hst]. rewrite app_nil_r. constructor; simpl.
    - lia.
    - rewrite fmap_app. apply StronglySorted_snoc; [done|]. apply Forall_forall, Forall_fmap. eapply Forall_impl; [exact Hi|]. simpl. lia.
    - apply Forall_app. split; [|repeat constructor; simpl; lia]. eapply Forall_impl; [exact Hi|]. simpl. lia.
    - by rewrite last_snoc.
    - by apply sublist_inserts_r.
    - intros _. right. by eexists _, _.
    - done. }
  destruct (state c); simpl; rewrite ?app_nil_r; try done; destruct (next_serial c =? EXHAUSTED) eqn:E; bprop;
    simpl; rewrite ?app_nil_r; try done; rewrite app_nil_r in Hnew; by apply Hnew.
Qed.

Lemma take_wf acc tk c :
  control_wf acc tk c →
  control_wf (acc ++ accepted (exec Take c).1) (tk ++ took (exec Take c).1) (exec Take c).2.
Proof.
  intros Hw. unfold exec, take_ticket. destruct (run_stopped c) eqn:Er; simpl; [by rewrite !app_nil_r|].
  destruct (taken c) eqn:Et; simpl; [by rewrite !app_nil_r|].
  destruct (state c) eqn:Es; simpl; rewrite ?app_nil_r; try done.
  destruct Hw as [Hs Ho Hi Hout Ht Hu Hst]. destruct (Hu Et) as [(_ & _ & ?)|(pre & t & -> & Hp & _)]; [congruence|].
  rewrite last_snoc in Hout. rewrite Hout. simpl. rewrite app_nil_r.
  constructor; simpl; try done; [by rewrite last_snoc|by apply sublist_app].
Qed.

Lemma next_state_stopping s o pair s' : terminal s = true ∨ s = Stopping → next_state s o pair = Some s' → terminal s' = true.
Proof. intros [H|H] Hn; destruct s; simplify_eq/=; destruct o; simpl in Hn; by simplify_eq. Qed.

Lemma untaken_state acc tk c : control_wf acc tk c → taken c = false → state c = Idle ∨ state c = Queued.
Proof. intros Hw H. destruct (pc_untaken _ _ _ Hw H) as [(_ & _ & ?)|(? & ? & _ & _ & ?)]; auto. Qed.

Lemma status_wf acc tk u c : control_wf acc tk c → control_wf acc tk (set_status u c).2.
Proof.
  intros Hw. unfold set_status. destruct (negb _); [done|]. destruct (outstanding c) as [t|] eqn:Eo; [|done].
  destruct (negb _); [done|]. destruct (next_state _ _ _) as [s|] eqn:E; [|done].
  apply (control_wf_keep _ _ c); simpl; try done. intros Hr. left.
  eapply next_state_stopping; [|exact E]. by apply (pc_stopped _ _ _ Hw).
Qed.

(** A finished case of a call: the state it saw decides what is left. *)
Ltac control :=
  intros; repeat match goal with E : state ?c = _ |- context [state ?c] => rewrite E end; simpl in *;
  repeat match goal with
         | E : taken ?c = _, F : context [taken ?c] |- _ => rewrite E in F; simpl in F
         end; intuition congruence.

Lemma exec_wf acc tk k c :
  control_wf acc tk c → control_wf (acc ++ accepted (exec k c).1) (tk ++ took (exec k c).1) (exec k c).2.
Proof.
  intros Hw. pose proof (pc_stopped _ _ _ Hw) as Hst. pose proof (untaken_state _ _ _ Hw) as Hun.
  destruct k; [by apply request_wf|..|by apply take_wf|]; cbn [exec fst snd]; rewrite !app_nil_r; [..|by apply status_wf];
    apply (control_wf_keep _ _ c); try done; unfold cancel, note_run_stopped, enable;
    repeat (case_match; simpl in *; try done); control.
Qed.

Lemma run_wf ks acc tk c :
  control_wf acc tk c → control_wf (acc ++ accepted (run ks c).1) (tk ++ took (run ks c).1) (run ks c).2.
Proof.
  revert acc tk c. induction ks as [|k ks IH]; intros acc tk c Hw; simpl; [by rewrite !app_nil_r|].
  pose proof (exec_wf _ _ k c Hw) as He. destruct (exec k c) as [e c1]. simpl in He. specialize (IH _ _ _ He).
  destruct (run ks c1) as [l c2]. simpl in *. unfold accepted, took in *. by rewrite !omap_app, !(assoc_L (++)).
Qed.

Lemma new_wf : control_wf [] [] PromotionControl_new.
Proof.
  constructor; simpl; try done; [constructor|intros _; by left].
Qed.

(** ** Theorems *)

(** C17: over any history of operator and runtime calls the accepted requests carry strictly
    increasing serials, never 0 and never the exhausted marker, and the tickets handed to
    the runtime are a subsequence of the accepted ones: each at most once, in order,
    with the view and pair that were requested. *)
Theorem promotion_custody ks :
  let l := (run ks PromotionControl_new).1 in
  StronglySorted Z.lt (ticket_id <$> accepted l) ∧
  Forall (λ t, 1 <= ticket_id t < EXHAUSTED) (accepted l) ∧
  took l `sublist_of` accepted l.
Proof.
  intros l. destruct (run_wf ks [] [] _ new_wf) as [Hs Ho Hi Hout Ht _ _]. simpl in *. split_and!; [done| |done].
  eapply Forall_impl; [exact Hi|]. simpl. lia.
Qed.

(** The runtime's report on the outstanding request of the bound capture. *)
Definition matching (u : PromotionStatusUpdate) (c : PromotionControl) : Prop :=
  capture c = Some (update_capture u) ∧ ∃ t, outstanding c = Some t ∧ ticket_id t = update_request u.

(** A report changes the state only when it matches, along a legal transition. *)
Lemma set_status_cases u c :
  (set_status u c).2 = c ∨
  matching u c ∧ ∃ t s, outstanding c = Some t ∧ next_state (state c) (outcome u) (ticket_pair t) = Some s ∧
    state (set_status u c).2 = s.
Proof.
  unfold set_status. destruct (bool_decide _) eqn:Eb; simpl; [|by left]. apply bool_decide_eq_true in Eb.
  destruct (outstanding c) as [t|] eqn:Eo; [|by left]. destruct (ticket_id t =? _) eqn:E; simpl; [|by left]. bprop.
  destruct (next_state _ _ _) as [s|] eqn:En; [|by left]. right. split; [|by exists t, s].
  split; [done|]. by exists t.
Qed.

Lemma next_state_active s o pair : next_state s o pair = Some Active → o = OutcomeActive pair.
Proof. destruct s, o; simpl; try done; case_bool_decide; congruence. Qed.

(** What a call that is no report does to the state. *)
Lemma exec_state k c :
  (∀ u, k ≠ Status u) →
  state (exec k c).2 ≠ Active ∨ state (exec k c).2 = state c.
Proof.
  intros Hk. destruct k; try (by destruct (Hk u)); cbn [exec fst snd]; try by right.
  - unfold request. repeat (case_match; simplify_eq/=); try (by left); by right.
  - unfold cancel. repeat (case_match; simpl); try (by left); by right.
  - unfold note_run_stopped. repeat (case_match; simpl); try (by left); by right.
  - unfold enable. repeat (case_match; simpl); try (by left); by right.
  - unfold take_ticket. repeat (case_match; simplify_eq/=); try (by left); by right.
Qed.

Lemma exec_terminal k c :
  (∀ u, k ≠ Status u) → taken c = true → terminal (state c) = false → terminal (state (exec k c).2) = false.
Proof.
  intros Hk Ht Hs. destruct k; try (by destruct (Hk u)); cbn [exec fst snd]; try done.
  - unfold request. destruct (negb _); [done|]. destruct (run_stopped c); [done|]. revert Hs; destruct (state c) eqn:E; simpl; rewrite ?E; done.
  - unfold cancel. rewrite Ht. revert Hs; destruct (state c) eqn:E; simpl; rewrite ?E; done.
  - unfold note_run_stopped. simpl. rewrite Ht. destruct (run_stopped c); [done|]. revert Hs; destruct (state c) eqn:E; simpl; rewrite ?E; done.
  - unfold enable. repeat (case_match; simpl; auto).
  - unfold take_ticket. rewrite Ht. by destruct (run_stopped c).
Qed.

(** C18: in any control only a matching runtime report activates a promotion, and
    only for the pair that was requested; and a request the runtime holds ends, refused or
    ended, only by a matching report: no operator call and no shutdown ends it. *)
Theorem promotion_reports_genuine k c :
  let c' := (exec k c).2 in
  (state c' = Active → state c = Active ∨
     ∃ u t, k = Status u ∧ matching u c ∧ outstanding c = Some t ∧ outcome u = OutcomeActive (ticket_pair t)) ∧
  (taken c = true → terminal (state c) = false → terminal (state c') = true → ∃ u, k = Status u ∧ matching u c).
Proof.
  simpl. assert ((∃ u, k = Status u) ∨ ∀ u, k ≠ Status u) as [[u ->]|Hk] by (destruct k; eauto).
  - cbn [exec snd]. destruct (set_status_cases u c) as [->|(Hm & t & s & Ho & Hn & ->)].
    { split; [by left|]. intros _ H1 H2. congruence. }
    split; [intros ->; right|]; [|by exists u]. exists u, t. by apply next_state_active in Hn.
  - split; [intros Ha; left; destruct (exec_state k c Hk); congruence|]. intros Ht Hs. by rewrite exec_terminal.
Qed.

(** After shutdown every call leaves the custody, the binding and the serials alone. *)
Lemma exec_stopped k c :
  run_stopped c = true →
  (exec k c).1 = [] ∧ run_stopped (exec k c).2 = true ∧ capture (exec k c).2 = capture c ∧
  next_serial (exec k c).2 = next_serial c ∧ outstanding (exec k c).2 = outstanding c.
Proof.
  intros Hr. destruct k; cbn [exec fst snd]; try done.
  - unfold request. rewrite Hr. by destruct (enabled c).
  - unfold cancel. repeat (case_match; simpl; auto).
  - unfold note_run_stopped. by rewrite Hr.
  - unfold enable. by rewrite Hr.
  - unfold take_ticket. by rewrite Hr.
  - unfold set_status. repeat (case_match; simpl; auto).
Qed.

Lemma run_stopped_final ks c :
  run_stopped c = true →
  (run ks c).1 = [] ∧ run_stopped (run ks c).2 = true ∧ capture (run ks c).2 = capture c ∧
  next_serial (run ks c).2 = next_serial c ∧ outstanding (run ks c).2 = outstanding c.
Proof.
  revert c. induction ks as [|k ks IH]; intros c Hr; simpl; [done|].
  destruct (exec_stopped k c Hr) as (He & Hr1 & <- & <- & <-). destruct (exec k c) as [e c1]. simpl in *. subst e.
  specialize (IH c1 Hr1). by destruct (run ks c1).
Qed.

(** once the run is noted stopped, whatever came before and whatever follows, nothing
    is accepted or handed to the runtime any more, the capture is never rebound, and the
    lane is Idle, Refused, Ended or Stopping, never queued, in preparation or active. *)
Theorem promotion_shutdown_final ks ks' :
  let c := (run (ks ++ [RunStopped]) PromotionControl_new).2 in
  let r := run ks' c in
  r.1 = [] ∧ capture r.2 = capture c ∧ outstanding r.2 = outstanding c ∧
  (terminal (state r.2) = true ∨ state r.2 = Stopping).
Proof.
  intros c r. assert (run_stopped c = true) as Hr.
  { unfold c. generalize PromotionControl_new. induction ks as [|k ks IH]; intros c0; simpl.
    - unfold note_run_stopped. destruct (run_stopped c0) eqn:?; [done|]. simpl. repeat (case_match; simpl; auto).
    - destruct (exec k c0) as [e c1]. specialize (IH c1). by destruct (run _ c1). }
  destruct (run_stopped_final ks' c Hr) as (He & Hr' & Hc & _ & Ho). split_and!; try done.
  pose proof (run_wf ks' _ _ _ (run_wf (ks ++ [RunStopped]) [] [] _ new_wf)) as Hw. by apply (pc_stopped _ _ _ Hw).
Qed.
