(* ===== verification/Kinds.v ===== *)
(** * Function kinds

    [src/kinds.rs]: the capture descriptor of each standard function name, the fixed
    descriptor table and the choice of one descriptor for a target with several names.
    The name lists of the [pkcs11-module] crate are a parameter ([FunctionCatalog]). *)
From S2P Require Import Prelude ObjectPolicy Semantics.

(** The published function names, in table order. *)
Class FunctionCatalog := function_catalog : list string.

Definition CRYPTOKI_INITIALIZE : Z := 15.
Definition TEMPLATE0_TYPES_ONLY : Z := 1 << 1.
Definition MAX_DESCRIPTORS : nat := 105.

(** ** Descriptors by name *)

(** A descriptor with the named fields set over [COUNT_ONLY]. *)
Definition with_session (v : SlotSemantics) (arg : Z) : SlotSemantics :=
  mkSemantics (operations v) (transition_ v) (lifecycle_ v) (direct_ v) (semantic_flags v) arg (slot_arg v)
    (mechanism_arg v) (output_arg v) (flags_arg v) (user_type_arg v) (template0_arg v) (template_count0_arg v)
    (template1_arg v) (template_count1_arg v) (async_name_arg v) (async_value_arg v).

Definition with_slot (v : SlotSemantics) (arg : Z) : SlotSemantics :=
  mkSemantics (operations v) (transition_ v) (lifecycle_ v) (direct_ v) (semantic_flags v) (session_arg v) arg
    (mechanism_arg v) (output_arg v) (flags_arg v) (user_type_arg v) (template0_arg v) (template_count0_arg v)
    (template1_arg v) (template_count1_arg v) (async_name_arg v) (async_value_arg v).

Definition with_output (v : SlotSemantics) (output : Z) : SlotSemantics :=
  mkSemantics (operations v) (transition_ v) (lifecycle_ v) (direct_ v) (semantic_flags v) (session_arg v) (slot_arg v)
    (mechanism_arg v) output (flags_arg v) (user_type_arg v) (template0_arg v) (template_count0_arg v)
    (template1_arg v) (template_count1_arg v) (async_name_arg v) (async_value_arg v).

Definition with_flags (v : SlotSemantics) (arg : Z) : SlotSemantics :=
  mkSemantics (operations v) (transition_ v) (lifecycle_ v) (direct_ v) (semantic_flags v) (session_arg v) (slot_arg v)
    (mechanism_arg v) (output_arg v) arg (user_type_arg v) (template0_arg v) (template_count0_arg v)
    (template1_arg v) (template_count1_arg v) (async_name_arg v) (async_value_arg v).

Definition with_user_type (v : SlotSemantics) (arg : Z) : SlotSemantics :=
  mkSemantics (operations v) (transition_ v) (lifecycle_ v) (direct_ v) (semantic_flags v) (session_arg v) (slot_arg v)
    (mechanism_arg v) (output_arg v) (flags_arg v) arg (template0_arg v) (template_count0_arg v)
    (template1_arg v) (template_count1_arg v) (async_name_arg v) (async_value_arg v).

Definition with_template (v : SlotSemantics) (template count : Z) : SlotSemantics :=
  mkSemantics (operations v) (transition_ v) (lifecycle_ v) (direct_ v) (semantic_flags v) (session_arg v) (slot_arg v)
    (mechanism_arg v) (output_arg v) (flags_arg v) (user_type_arg v) template count
    (template1_arg v) (template_count1_arg v) (async_name_arg v) (async_value_arg v).

Definition with_template1 (v : SlotSemantics) (template count : Z) : SlotSemantics :=
  mkSemantics (operations v) (transition_ v) (lifecycle_ v) (direct_ v) (semantic_flags v) (session_arg v) (slot_arg v)
    (mechanism_arg v) (output_arg v) (flags_arg v) (user_type_arg v) (template0_arg v) (template_count0_arg v)
    template count (async_name_arg v) (async_value_arg v).

Definition with_async (v : SlotSemantics) (name value : Z) : SlotSemantics :=
  mkSemantics (operations v) (transition_ v) (lifecycle_ v) (direct_ v) (semantic_flags v) (session_arg v) (slot_arg v)
    (mechanism_arg v) (output_arg v) (flags_arg v) (user_type_arg v) (template0_arg v) (template_count0_arg v)
    (template1_arg v) (template_count1_arg v) name value.

Definition with_lifecycle (v : SlotSemantics) (action : Z) : SlotSemantics :=
  mkSemantics (operations v) (transition_ v) action (direct_ v) (semantic_flags v) (session_arg v) (slot_arg v)
    (mechanism_arg v) (output_arg v) (flags_arg v) (user_type_arg v) (template0_arg v) (template_count0_arg v)
    (template1_arg v) (template_count1_arg v) (async_name_arg v) (async_value_arg v).

Definition or_flag (v : SlotSemantics) (flag : Z) : SlotSemantics :=
  mkSemantics (operations v) (transition_ v) (lifecycle_ v) (direct_ v) (semantic_flags v |' flag) (session_arg v)
    (slot_arg v) (mechanism_arg v) (output_arg v) (flags_arg v) (user_type_arg v) (template0_arg v)
    (template_count0_arg v) (template1_arg v) (template_count1_arg v) (async_name_arg v) (async_value_arg v).

Definition session (operations transition : Z) : SlotSemantics :=
  mkSemantics operations transition lifecycle.NONE direct.NONE 0 0 ARG_NONE ARG_NONE ARG_NONE ARG_NONE ARG_NONE
    ARG_NONE ARG_NONE ARG_NONE ARG_NONE ARG_NONE ARG_NONE.

Definition init (operation : Z) (null_cancel : bool) : SlotSemantics :=
  mkSemantics operation transition.INITIALIZE lifecycle.NONE direct.NONE
    (if null_cancel then NULL_MECHANISM_CANCEL else 0) 0 ARG_NONE 1 ARG_NONE ARG_NONE ARG_NONE
    ARG_NONE ARG_NONE ARG_NONE ARG_NONE ARG_NONE ARG_NONE.

Definition lifecycle_only (action : Z) : SlotSemantics := with_lifecycle COUNT_ONLY action.

Definition direct_operation (kind : Z) : SlotSemantics :=
  mkSemantics 0 transition.NONE lifecycle.NONE kind 0 0 ARG_NONE 1 ARG_NONE ARG_NONE ARG_NONE
    ARG_NONE ARG_NONE ARG_NONE ARG_NONE ARG_NONE ARG_NONE.

(** The arms of [descriptor], in order. *)
Definition arms : list (list string * SlotSemantics) := [
  (["C_Initialize"], lifecycle_only CRYPTOKI_INITIALIZE);
  (["C_GetInfo"; "C_GetFunctionList"; "C_GetSlotList"; "C_GetInterfaceList"; "C_GetInterface"], COUNT_ONLY);
  (["C_Finalize"], lifecycle_only lifecycle.FINALIZE);
  (["C_GetSlotInfo"; "C_GetTokenInfo"; "C_GetMechanismList"; "C_GetMechanismInfo"; "C_InitToken"], with_slot COUNT_ONLY 0);
  (["C_InitPIN"; "C_SetPIN"; "C_GetSessionInfo"; "C_GetOperationState"; "C_DestroyObject"; "C_GetObjectSize";
    "C_SeedRandom"; "C_GenerateRandom"; "C_GetFunctionStatus"; "C_CancelFunction"; "C_GetSessionValidationFlags"],
   session 0 transition.NONE);
  (["C_OpenSession"], with_output (with_flags (with_slot (lifecycle_only lifecycle.OPEN_SESSION) 0) 1) 4);
  (["C_CloseSession"], with_session (lifecycle_only lifecycle.CLOSE_SESSION) 0);
  (["C_CloseAllSessions"], with_slot (lifecycle_only lifecycle.CLOSE_ALL_SESSIONS) 0);
  (["C_SetOperationState"], with_session (lifecycle_only lifecycle.SET_OPERATION_STATE) 0);
  (["C_Login"; "C_LoginUser"], with_user_type (with_session (lifecycle_only lifecycle.LOGIN) 0) 1);
  (["C_Logout"], with_session (lifecycle_only lifecycle.LOGOUT) 0);
  (["C_CreateObject"], with_lifecycle (with_template (session 0 transition.NONE) 1 2) 0);
  (["C_FindObjectsInit"], with_lifecycle (with_template (session 0 transition.NONE) 1 2) lifecycle.FIND_INIT);
  (["C_CopyObject"; "C_SetAttributeValue"], with_template (session 0 transition.NONE) 2 3);
  (["C_GetAttributeValue"], or_flag (with_template (session 0 transition.NONE) 2 3) TEMPLATE0_TYPES_ONLY);
  (["C_FindObjectsFinal"], with_session (lifecycle_only lifecycle.FIND_FINAL) 0);
  (["C_FindObjects"], with_session (lifecycle_only lifecycle.FIND_OPERATION) 0);
  (["C_EncryptInit"], init operation.ENCRYPT true);
  (["C_DecryptInit"], init operation.DECRYPT true);
  (["C_DigestInit"], init operation.DIGEST true);
  (["C_SignInit"], init operation.SIGN true);
  (["C_SignRecoverInit"], init operation.SIGN_RECOVER true);
  (["C_VerifyInit"], init operation.VERIFY true);
  (["C_VerifyRecoverInit"], init operation.VERIFY_RECOVER true);
  (["C_Encrypt"], with_output (session operation.ENCRYPT transition.FINISH_WITH_OUTPUT) 3);
  (["C_Decrypt"], with_output (session operation.DECRYPT transition.FINISH_WITH_OUTPUT) 3);
  (["C_Digest"], with_output (session operation.DIGEST transition.FINISH_WITH_OUTPUT) 3);
  (["C_Sign"], with_output (session operation.SIGN transition.FINISH_WITH_OUTPUT) 3);
  (["C_SignRecover"], with_output (session operation.SIGN_RECOVER transition.FINISH_WITH_OUTPUT) 3);
  (["C_VerifyRecover"], with_output (session operation.VERIFY_RECOVER transition.FINISH_WITH_OUTPUT) 3);
  (["C_EncryptFinal"], with_output (session operation.ENCRYPT transition.FINISH_WITH_OUTPUT) 1);
  (["C_DecryptFinal"], with_output (session operation.DECRYPT transition.FINISH_WITH_OUTPUT) 1);
  (["C_DigestFinal"], with_output (session operation.DIGEST transition.FINISH_WITH_OUTPUT) 1);
  (["C_SignFinal"], with_output (session operation.SIGN transition.FINISH_WITH_OUTPUT) 1);
  (["C_Verify"; "C_VerifyFinal"], session operation.VERIFY transition.FINISH_ALWAYS);
  (["C_EncryptUpdate"], with_output (session operation.ENCRYPT transition.UPDATE_WITH_OUTPUT) 3);
  (["C_DecryptUpdate"], with_output (session operation.DECRYPT transition.UPDATE_WITH_OUTPUT) 3);
  (["C_DigestUpdate"], session operation.DIGEST transition.CONTINUE);
  (["C_SignUpdate"], session operation.SIGN transition.CONTINUE);
  (["C_VerifyUpdate"], session operation.VERIFY transition.CONTINUE);
  (["C_DigestKey"], session operation.DIGEST transition.RETAIN_ALWAYS);
  (["C_DigestEncryptUpdate"],
   with_output (session (operation.DIGEST |' operation.ENCRYPT) transition.RETAIN_ALWAYS) 3);
  (["C_DecryptDigestUpdate"],
   with_output (session (operation.DECRYPT |' operation.DIGEST) transition.RETAIN_ALWAYS) 3);
  (["C_SignEncryptUpdate"],
   with_output (session (operation.SIGN |' operation.ENCRYPT) transition.RETAIN_ALWAYS) 3);
  (["C_DecryptVerifyUpdate"],
   with_output (session (operation.DECRYPT |' operation.VERIFY) transition.RETAIN_ALWAYS) 3);
  (["C_GenerateKey"], with_template (direct_operation direct.GENERATE_KEY) 2 3);
  (["C_GenerateKeyPair"], with_template1 (with_template (direct_operation direct.GENERATE_KEY_PAIR) 2 3) 4 5);
  (["C_WrapKey"], with_output (direct_operation direct.WRAP) 4);
  (["C_UnwrapKey"], with_template (direct_operation direct.UNWRAP) 5 6);
  (["C_DeriveKey"], with_template (direct_operation direct.DERIVE) 3 4);
  (["C_WaitForSlotEvent"], with_flags COUNT_ONLY 0);
  (["C_SessionCancel"], with_flags (with_session (lifecycle_only lifecycle.SESSION_CANCEL) 0) 1);
  (["C_MessageEncryptInit"], init operation.MESSAGE_ENCRYPT true);
  (["C_MessageDecryptInit"], init operation.MESSAGE_DECRYPT false);
  (["C_MessageSignInit"], init operation.MESSAGE_SIGN false);
  (["C_MessageVerifyInit"], init operation.MESSAGE_VERIFY false);
  (["C_EncryptMessage"; "C_EncryptMessageBegin"; "C_EncryptMessageNext"],
   session operation.MESSAGE_ENCRYPT transition.RETAIN_ALWAYS);
  (["C_DecryptMessage"; "C_DecryptMessageBegin"; "C_DecryptMessageNext"],
   session operation.MESSAGE_DECRYPT transition.RETAIN_ALWAYS);
  (["C_SignMessage"; "C_SignMessageBegin"; "C_SignMessageNext"],
   session operation.MESSAGE_SIGN transition.RETAIN_ALWAYS);
  (["C_VerifyMessage"; "C_VerifyMessageBegin"; "C_VerifyMessageNext"],
   session operation.MESSAGE_VERIFY transition.RETAIN_ALWAYS);
  (["C_MessageEncryptFinal"], session operation.MESSAGE_ENCRYPT transition.FINISH_ON_SUCCESS);
  (["C_MessageDecryptFinal"], session operation.MESSAGE_DECRYPT transition.FINISH_ON_SUCCESS);
  (["C_MessageSignFinal"], session operation.MESSAGE_SIGN transition.FINISH_ON_SUCCESS);
  (["C_MessageVerifyFinal"], session operation.MESSAGE_VERIFY transition.FINISH_ON_SUCCESS);
  (["C_EncapsulateKey"], with_output (with_template (direct_operation direct.ENCAPSULATE) 3 4) 5);
  (["C_DecapsulateKey"], with_template (direct_operation direct.DECAPSULATE) 3 4);
  (["C_VerifySignatureInit"], init operation.VERIFY true);
  (["C_VerifySignature"; "C_VerifySignatureFinal"], session operation.VERIFY transition.FINISH_ALWAYS);
  (["C_VerifySignatureUpdate"], session operation.VERIFY transition.CONTINUE);
  (["C_AsyncComplete"], with_async (with_session (lifecycle_only lifecycle.ASYNC_COMPLETE) 0) 1 ARG_NONE);
  (["C_AsyncGetID"], with_async (with_session (lifecycle_only lifecycle.ASYNC_GET_ID) 0) 1 2);
  (["C_AsyncJoin"], with_async (with_session (lifecycle_only lifecycle.ASYNC_JOIN) 0) 1 2);
  (["C_WrapKeyAuthenticated"], with_output (direct_operation direct.WRAP_AUTHENTICATED) 6);
  (["C_UnwrapKeyAuthenticated"], with_template (direct_operation direct.UNWRAP_AUTHENTICATED) 5 6)
]%string.

Definition argument_indices (v : SlotSemantics) : list Z :=
  List.filter (λ index, negb (index =? ARG_NONE))
    [session_arg v; slot_arg v; mechanism_arg v; output_arg v; flags_arg v; user_type_arg v; template0_arg v;
     template_count0_arg v; template1_arg v; template_count1_arg v; async_name_arg v; async_value_arg v].

Definition descriptor (name : string) : option SlotSemantics :=
  snd <$> List.find (λ arm, bool_decide (name ∈ arm.1)) arms.

(** ** The fixed table *)

Section Catalog.
Context {Catalog : FunctionCatalog}.

Definition function_id (name : string) : option Z :=
  (λ index, as_u32 (Z.of_nat index)) <$> position (λ field, bool_decide (field = name)) function_catalog.

Definition object_descriptor `{FunctionNames} (name : string) : option ObjectCaptureDescriptor :=
  id ← function_id name; ObjectPolicy.object_descriptor id.

(** [None]: a published name lacks a descriptor, or the names do not fit the table. *)
Definition DESCRIPTORS : option (list SlotSemantics) :=
  rows ← mapM descriptor function_catalog;
  if (length rows <? MAX_DESCRIPTORS)%nat
  then Some (COUNT_ONLY :: rows ++ replicate (MAX_DESCRIPTORS - 1 - length rows) COUNT_ONLY)
  else None.

Definition row_at (index : Z) : option SlotSemantics := rows ← DESCRIPTORS; rows !! Z.to_nat index.

Fixpoint index_names (found : option (Z * SlotSemantics)) (names : list string) : option (Z * bool) :=
  match names with
  | [] => Some (match found with Some (index, _) => index | None => 0 end, false)
  | name :: names =>
      match function_id name with
      | None => Some (0, true)
      | Some id =>
          candidate ← row_at (id + 1);
          match found with
          | Some (previous, selected) =>
              if bool_decide (candidate ≠ selected) then Some (0, true)
              else index_names (Some (Z.min previous (id + 1), selected)) names
          | None => index_names (Some (id + 1, candidate)) names
          end
      end
  end.

Definition descriptor_index (names : list string) : option (Z * bool) :=
  match names with [] => Some (0, false) | _ => index_names None names end.

Definition descriptor_slot (names : list string) : option (SlotSemantics * bool) :=
  p ← descriptor_index names; row ← row_at p.1; Some (row, p.2).

Inductive AliasAgreement := Agree | S1Ambiguous | ObjectDisagree.

Fixpoint agree_names `{FunctionNames} (found : option (Z * SlotSemantics * option ObjectCaptureDescriptor))
    (names : list string) : option (Z * AliasAgreement) :=
  match names with
  | [] => Some (match found with Some (index, _, _) => index | None => 0 end, Agree)
  | name :: names =>
      match function_id name with
      | None => Some (0, S1Ambiguous)
      | Some id =>
          candidate ← row_at (id + 1);
          let object := object_descriptor name in
          match found with
          | Some (previous, s1, selected) =>
              if bool_decide (candidate ≠ s1) then Some (0, S1Ambiguous)
              else if bool_decide (object ≠ selected) then Some (0, ObjectDisagree)
              else agree_names (Some (Z.min previous (id + 1), s1, selected)) names
          | None => agree_names (Some (id + 1, candidate, object)) names
          end
      end
  end.

Definition descriptor_index_with_object_agreement `{FunctionNames} (names : list string) : option (Z * AliasAgreement) :=
  match names with [] => Some (0, Agree) | _ => agree_names None names end.
End Catalog.

(** ** Every arm *)

(** A fact about every arm holds of every descriptor. *)
Lemma descriptor_arm (P : SlotSemantics → bool) name v :
  forallb (λ arm, P arm.2) arms = true → descriptor name = Some v → P v = true.
Proof.
  intros H [[ns v'] [Hf ->]]%fmap_Some. apply find_some in Hf as [Hin _].
  rewrite forallb_forall in H. exact (H _ Hin).
Qed.

(** The assertion of [descriptor]: no descriptor reads past argument 6. *)
Lemma descriptor_arguments name v : descriptor name = Some v → Forall (λ index, 0 <= index <= 6) (argument_indices v).
Proof.
  intros H. apply (descriptor_arm (λ v, forallb (λ i, (0 <=? i) && (i <=? 6)) (argument_indices v))) in H;
    [|vm_compute; reflexivity].
  apply List.Forall_forall. intros i Hi. rewrite forallb_forall in H. specialize (H _ Hi). bprop. lia.
Qed.

(** ** The choice of a descriptor *)

Section Choice.
Context {Catalog : FunctionCatalog}.

Lemma function_id_row rows name id :
  DESCRIPTORS = Some rows → function_id name = Some id → 0 <= id ∧ row_at (id + 1) = descriptor name ∧ is_Some (descriptor name).
Proof.
  unfold row_at, function_id. intros Hd (i & Hp & ->)%fmap_Some. rewrite Hd. simpl.
  apply position_Some in Hp as (f & Hf & Hn). apply bool_decide_eq_true in Hn as ->.
  unfold DESCRIPTORS in Hd. apply bind_Some in Hd as (l & Hl & Hd).
  destruct (length l <? MAX_DESCRIPTORS)%nat eqn:El; [|done]. injection Hd as <-. apply Nat.ltb_lt in El.
  apply mapM_Some in Hl. destruct (Forall2_lookup_l _ _ _ _ _ Hl Hf) as (v & Hv & Hdv).
  assert (i < length l)%nat as Hi by (by eapply lookup_lt_Some).
  unfold as_u32. rewrite wrap_small by (unfold MAX_DESCRIPTORS in El; split; lia).
  split_and!; [lia| |by rewrite Hdv]. replace (Z.to_nat (Z.of_nat i + 1)) with (S i) by lia. simpl.
  by rewrite lookup_app_l, Hv.
Qed.

Definition agrees (v : SlotSemantics) (name : string) : Prop := is_Some (function_id name) ∧ descriptor name = Some v.

(** One pass over the names after the first. *)
Lemma index_names_spec rows names p v :
  DESCRIPTORS = Some rows →
  (∃ i, Forall (agrees v) names ∧ i <= p ∧ (i = p ∨ ∃ n, n ∈ names ∧ function_id n = Some (i - 1)) ∧
     (∀ n id, n ∈ names → function_id n = Some id → i <= id + 1) ∧ index_names (Some (p, v)) names = Some (i, false)) ∨
  ((∃ n, n ∈ names ∧ ¬ agrees v n) ∧ index_names (Some (p, v)) names = Some (0, true)).
Proof.
  intros Hd. revert p. induction names as [|n names IH]; intros p; simpl.
  { left. exists p. split_and!; [constructor|lia|by left|set_solver|done]. }
  destruct (function_id n) as [id|] eqn:Ef.
  2: { right. split; [|done]. exists n. split; [by left|]. intros [[? H] _]. congruence. }
  destruct (function_id_row _ _ _ Hd Ef) as (H0 & Hr & [v' Hv]). rewrite Hr, Hv. simpl.
  case_bool_decide as Hne.
  { right. split; [|done]. exists n. split; [by left|]. intros [_ H]. congruence. }
  subst v'.
  destruct (IH (Z.min p (id + 1))) as [(i & Hag & Hp & Hmin & Hle & ->)|[(m & Hm & Hn) ->]].
  - left. exists i. split_and!; [constructor; [by split; [eexists|]|done]|lia| | |done].
    + destruct Hmin as [->|(m & Hm & Hi)]; [|right; exists m; split; [by right|done]].
      destruct (Z.min_spec p (id + 1)) as [[_ ->]|[_ ->]]; [by left|].
      right. exists n. split; [by left|]. rewrite Ef. f_equal. lia.
    + intros m id' [->|Hm]%elem_of_cons He; [|by eapply Hle]. assert (id' = id) as -> by congruence. lia.
  - right. split; [|done]. exists m. split; [by right|done].
Qed.

(** A target with several names gets, whatever their order, the lowest table row of its
    names when all are published with one and the same descriptor, and otherwise the
    count-only row marked ambiguous. *)
Theorem descriptor_index_exact rows names :
  DESCRIPTORS = Some rows → names ≠ [] →
  (∃ v i, Forall (agrees v) names ∧ (∃ n, n ∈ names ∧ function_id n = Some (i - 1)) ∧
     (∀ n id, n ∈ names → function_id n = Some id → i <= id + 1) ∧
     descriptor_index names = Some (i, false) ∧ descriptor_slot names = Some (v, false)) ∨
  ((∀ v, ¬ Forall (agrees v) names) ∧ descriptor_index names = Some (0, true) ∧
     descriptor_slot names = Some (COUNT_ONLY, true)).
Proof.
  intros Hd Hne. destruct names as [|n names]; [done|]. unfold descriptor_slot. simpl.
  assert (row_at 0 = Some COUNT_ONLY) as H0.
  { unfold row_at. rewrite Hd. simpl. unfold DESCRIPTORS in Hd. apply bind_Some in Hd as (l & _ & Hl).
    destruct (_ <? _)%nat; [|done]. by injection Hl as <-. }
  destruct (function_id n) as [id|] eqn:Ef.
  2: { right. split_and!; [|done|simpl; by rewrite H0]. intros v [[[? H] _] _]%Forall_cons. congruence. }
  destruct (function_id_row _ _ _ Hd Ef) as (Hid & Hr & [v Hv]). rewrite Hr, Hv. simpl.
  destruct (index_names_spec _ names (id + 1) v Hd) as [(i & Hag & Hp & Hmin & Hle & ->)|[(m & Hm & Hn) ->]].
  - left. exists v, i. assert (∃ m, m ∈ n :: names ∧ function_id m = Some (i - 1)) as (m & Hm & Hi).
    { destruct Hmin as [->|(m & Hm & Hi)]; [|exists m; split; [by right|done]].
      exists n. split; [by left|]. rewrite Ef. f_equal. lia. }
    assert (Forall (agrees v) (n :: names)) as Hall by (constructor; [by split; [eexists|]|done]).
    split_and!; [done|by exists m| |done|].
    + intros m' id' [->|Hm']%elem_of_cons He; [|by eapply Hle]. assert (id' = id) as -> by congruence. lia.
    + rewrite Forall_forall in Hall. destruct (Hall _ Hm) as [_ Hvm].
      destruct (function_id_row _ _ _ Hd Hi) as (_ & Hrow & _). replace (i - 1 + 1) with i in Hrow by lia.
      simpl. by rewrite Hrow, Hvm.
  - right. split_and!; [|done|simpl; by rewrite H0].
    intros v' [[_ H1] H2]%Forall_cons. assert (v' = v) as -> by congruence. rewrite Forall_forall in H2. by apply Hn, H2.
Qed.
End Choice.
