(* ===== verification/Pool.v ===== *)
(** * The semantic resource pool

    [src/semantics_edge/resources.rs]: one capture-wide budget of allocation charges, the
    move-only leases on it and the scratch that one transition may borrow.  All leases of
    the model are on one pool, so the pointer comparisons of the source hold.  The
    compile-time size checks of the source are not modelled. *)
From S2P Require Import Prelude.

Definition SEMANTIC_RESOURCE_LIMIT : Z := 64 * 1024 * 1024.
Definition SEMANTIC_TRANSITION_SCRATCH : Z := 1024 * 1024.
Definition REDUCER_BASE_CHARGE : Z := 8192.
Definition OPEN_BINDING_CHARGE : Z := 512.
Definition ACTIVE_MACHINE_CHARGE : Z := 1024.
Definition ASYNC_FACT_CHARGE : Z := 4096.
Definition MECHANISM_CHARGE : Z := 2048.
Definition CATEGORY_CHARGE : Z := 512.
Definition FUNCTION_CHARGE : Z := 512.
Definition RETURN_CHARGE : Z := 256.
Definition OWNED_ALLOCATION_PADDING : Z := 32.

Record SemanticResourceRefusal := mkRefusal {
  limit_bytes : Z;
  requested_bytes : Z;
}.

Record SharedPool := mkPool {
  limit : Z;
  charged : Z;
  peak : Z;
  refused : Z;
  scratch_borrowed : bool;
}.

(** A lease is the bytes it holds; there is no way to copy one. *)
Record ResourceLease := mkLease { lease_bytes : Z }.

(** [None] is a failed assertion. *)
Definition pool_new (limit : Z) : option SharedPool :=
  if limit <? SEMANTIC_TRANSITION_SCRATCH then None
  else Some (mkPool limit SEMANTIC_TRANSITION_SCRATCH SEMANTIC_TRANSITION_SCRATCH 0 false).

Definition pool_refuse (requested : Z) (p : SharedPool) : SemanticResourceRefusal * SharedPool :=
  (mkRefusal (limit p) requested,
   mkPool (limit p) (charged p) (peak p) (saturating_add 64 (refused p) 1) (scratch_borrowed p)).

Definition acquire (bytes : Z) (p : SharedPool) : result SemanticResourceRefusal ResourceLease * SharedPool :=
  match checked_add 64 (charged p) bytes with
  | None => let '(e, p) := pool_refuse U64_MAX p in (Err e, p)
  | Some requested =>
      if limit p <? requested then let '(e, p) := pool_refuse requested p in (Err e, p)
      else (Ok (mkLease bytes), mkPool (limit p) requested (Z.max (peak p) requested) (refused p) (scratch_borrowed p))
  end.

Definition set_charged (n : Z) (p : SharedPool) : SharedPool :=
  mkPool (limit p) n (peak p) (refused p) (scratch_borrowed p).

Definition split (bytes : Z) (l : ResourceLease) : option (ResourceLease * ResourceLease) :=
  rest ← checked_sub 64 (lease_bytes l) bytes; Some (mkLease rest, mkLease bytes).

Definition absorb (l lease : ResourceLease) : option ResourceLease :=
  total ← checked_add 64 (lease_bytes l) (lease_bytes lease); Some (mkLease total).

Definition lease_release (bytes : Z) (l : ResourceLease) (p : SharedPool) : option (ResourceLease * SharedPool) :=
  rest ← checked_sub 64 (lease_bytes l) bytes;
  n ← checked_sub 64 (charged p) bytes;
  Some (mkLease rest, set_charged n p).

Definition lease_drop (l : ResourceLease) (p : SharedPool) : option SharedPool :=
  n ← checked_sub 64 (charged p) (lease_bytes l); Some (set_charged n p).

Definition set_scratch (b : bool) (p : SharedPool) : SharedPool :=
  mkPool (limit p) (charged p) (peak p) (refused p) b.

Definition scratch (p : SharedPool) : result SemanticResourceRefusal () * SharedPool :=
  if scratch_borrowed p then let '(e, p) := pool_refuse (charged p) p in (Err e, p)
  else (Ok (), set_scratch true p).

Definition scratch_drop (p : SharedPool) : option SharedPool :=
  if scratch_borrowed p then Some (set_scratch false p) else None.

(** ** Reserving and refunding *)

(** A refusal of the pool is a refusal of the budget: it would be exceeded. *)
Lemma acquire_ok n p :
  0 <= n → 0 <= charged p <= limit p → limit p < 2 ^ 64 →
  (charged p + n <= limit p ∧
   acquire n p = (Ok (mkLease n), mkPool (limit p) (charged p + n) (Z.max (peak p) (charged p + n)) (refused p) (scratch_borrowed p)))
  ∨ (limit p < charged p + n ∧ ∃ x, acquire n p =
      (Err x, mkPool (limit p) (charged p) (peak p) (saturating_add 64 (refused p) 1) (scratch_borrowed p))).
Proof.
  intros Hn Hc Hl. unfold acquire, checked_add. destruct (decide (charged p + n <= limit p)) as [Hle|Hgt].
  - left. split; [done|]. rewrite checked_small by (unfold in_width; lia). by rewrite (proj2 (Z.ltb_ge _ _)).
  - right. split; [lia|]. destruct (checked 64 (charged p + n)) as [z|] eqn:E; [|by eexists].
    apply checked_Some in E as [-> _]. rewrite (proj2 (Z.ltb_lt _ _)) by lia. by eexists.
Qed.

Lemma lease_drop_ok n p :
  0 <= n <= charged p → charged p < 2 ^ 64 → lease_drop (mkLease n) p = Some (set_charged (charged p - n) p).
Proof. intros Hn Hc. unfold lease_drop, checked_sub. simpl. by rewrite checked_small by (unfold in_width; lia). Qed.
