(* ===== verification/Ledger.v ===== *)
(** * The staging ledger

    [src/semantics_objects/journal/ledger.rs]: one capture's owner of staged resources.  Every
    role of an operation holds a lease on the pool beside its entry in the reservation
    table, and the table itself is paid for before it is allocated.  A method is a
    computation on the pool, the answers of the allocator and the ledger, which may refuse
    or fail an assertion.  The pool is the one of the ledger's reserver. *)
From S2P Require Import Prelude Reservations Pool.

Definition MAX_UNSETTLED_STAGED : nat := 1024.
Definition DEFERRED_NAMESPACE : Z := 1.

(** The compiled size of a table slot. *)
Class SlotLayout := slot_size : Z.

Record ExistingReservation := mkExisting {
  existing_generation : Z;
  existing_id : Z;
  raw_key : option RoleKey;
}.

Record StagedResourceOrigin := mkStaged {
  staged_generation : Z;
  staged_id : Z;
  staged_key : RoleKey;
}.

(** The part of the collector's origin that the ledger reads. *)
Record JointResourceOrigin := mkJointOrigin {
  joint_reservation : ExistingReservation;
  joint_native : Z;
}.

Record StagingLedger := mkLedger {
  table : option (ReservationTable (option ResourceLease));
  reserver : bool;
  table_storage : option ResourceLease;
  next_keyassoc : Z;
  next_raw : Z;
  ledger_generation : option Z;
  byte_limit : Z;
}.

(** Field updates. *)

Definition set_table (t : option (ReservationTable (option ResourceLease))) (l : StagingLedger) : StagingLedger :=
  mkLedger t (reserver l) (table_storage l) (next_keyassoc l) (next_raw l) (ledger_generation l) (byte_limit l).

Definition set_table_storage (s : option ResourceLease) (l : StagingLedger) : StagingLedger :=
  mkLedger (table l) (reserver l) s (next_keyassoc l) (next_raw l) (ledger_generation l) (byte_limit l).

Definition set_next_keyassoc (n : Z) (l : StagingLedger) : StagingLedger :=
  mkLedger (table l) (reserver l) (table_storage l) n (next_raw l) (ledger_generation l) (byte_limit l).

Definition set_next_raw (n : Z) (l : StagingLedger) : StagingLedger :=
  mkLedger (table l) (reserver l) (table_storage l) (next_keyassoc l) n (ledger_generation l) (byte_limit l).

Inductive LedgerRefusal := LedgerFull | ReplayRefused.

(** [From<Refusal> for LedgerRefusal] *)
Definition ledger_refusal (e : Refusal) : LedgerRefusal :=
  match e with Full => LedgerFull | Replay | Foreign => ReplayRefused end.

(** [last] is the process-wide generation counter. *)
Definition unallocated (reserver : bool) (last : Z) : StagingLedger * Z :=
  (mkLedger None reserver None 0 0 (checked_add 64 last 1) SEMANTIC_RESOURCE_LIMIT,
   default last (checked_add 64 last 1)).

Definition ledger_with_resources (last : Z) : StagingLedger * Z := unallocated true last.

(** ** Computations *)

Inductive LedgerStop := LedgerRefuse (e : LedgerRefusal) | LedgerPanic.

(** [l_allocs] are the next answers of the allocator to a table; it grants what follows. *)
Record LedgerRun := mkLedgerRun {
  l_pool : SharedPool;
  l_allocs : list bool;
  l_ledger : StagingLedger;
}.

Abbreviation Ledger := (SE LedgerRun LedgerStop).

Definition get_ledger : Ledger StagingLedger := λ r, (inr (l_ledger r), r).

Definition modify_ledger (f : StagingLedger → StagingLedger) : Ledger () := λ r,
  (inr tt, mkLedgerRun (l_pool r) (l_allocs r) (f (l_ledger r))).

Definition ledger_refuse {A} (e : LedgerRefusal) : Ledger A := se_err (LedgerRefuse e).

(** A method of the table, which must be there. *)
Definition on_table {A} (m : Table (option ResourceLease) A) : Ledger A := λ r,
  match table (l_ledger r) with
  | None => (inl LedgerPanic, r)
  | Some t =>
      let '(a, t) := m t in
      (match a with
       | inl (Refuse e) => inl (LedgerRefuse (ledger_refusal e))
       | inl Panic => inl LedgerPanic
       | inr a => inr a
       end, mkLedgerRun (l_pool r) (l_allocs r) (set_table (Some t) (l_ledger r)))
  end.

(** [self.table.as_ref().map_or(otherwise, ...)] *)
Definition read_table {A} (otherwise : A) (m : Table (option ResourceLease) A) : Ledger A :=
  l ← get_ledger; match table l with None => mret otherwise | Some _ => on_table m end.

(** [reserver.reserve(bytes).map_err(|_| Full)] *)
Definition reserve (bytes : Z) : Ledger ResourceLease := λ r,
  let '(a, p) := acquire bytes (l_pool r) in
  (match a with Ok lease => inr lease | Err _ => inl (LedgerRefuse LedgerFull) end, mkLedgerRun p (l_allocs r) (l_ledger r)).

Definition drop_charge (c : option ResourceLease) : Ledger () := λ r,
  match c with
  | None => (inr tt, r)
  | Some lease =>
      match lease_drop lease (l_pool r) with
      | Some p => (inr tt, mkLedgerRun p (l_allocs r) (l_ledger r))
      | None => (inl LedgerPanic, r)
      end
  end.

Fixpoint drop_charges (cs : list (option ResourceLease)) : Ledger () :=
  match cs with [] => mret tt | c :: cs => drop_charge c ;; drop_charges cs end.

(** [try_reserve_exact] of the table. *)
Definition allocate_table : Ledger bool := λ r,
  (inr (default true (head (l_allocs r))), mkLedgerRun (l_pool r) (tail (l_allocs r)) (l_ledger r)).

(** ** Reading *)

Definition has_reserver (l : StagingLedger) : bool := reserver l.

Definition census (l : StagingLedger) : Z := match table l with Some t => live t | None => 0 end.

Definition reservation_room (l : StagingLedger) : Z := saturating_sub (Z.of_nat MAX_UNSETTLED_STAGED) (census l).

Definition role_population (role : Role) (l : StagingLedger) : Z :=
  match table l with Some t => default 0 (populations t !! Role_index role) | None => 0 end.

Definition staged (l : StagingLedger) : Z := role_population H9Staged l.

Definition charged_bytes (l : StagingLedger) : Z := match table l with Some t => bytes t | None => 0 end.

Definition same_reservation (a b : ExistingReservation) : bool :=
  (existing_generation a =? existing_generation b) && (existing_id a =? existing_id b).

Definition matches_reservation (reservation : ExistingReservation) (l : StagingLedger) : bool :=
  bool_decide (ledger_generation l = Some (existing_generation reservation)).

Definition scalar_key (v : Z) : RoleKey := mkKey 0 v.

Definition deferred_key (v : Z) : RoleKey := mkKey DEFERRED_NAMESPACE v.

(** ** Charging and releasing *)

Section Operations.
Context {layout : SlotLayout}.

(** What the table costs. *)
Definition table_charge : option Z :=
  n ← checked_mul 64 (Z.of_nat MAX_UNSETTLED_STAGED) slot_size; checked_add 64 n OWNED_ALLOCATION_PADDING.

Definition prepare_capacity : Ledger () :=
  l ← get_ledger;
  match table l with
  | Some _ => mret tt
  | None =>
      bytes ← se_some (LedgerRefuse LedgerFull) table_charge;
      storage ← (if reserver l then reserve bytes else ledger_refuse LedgerFull);
      granted ← allocate_table;
      if granted : bool then
        modify_ledger (λ l, set_table_storage (Some storage) (set_table (Some (try_new MAX_UNSETTLED_STAGED)) l))
      else drop_charge (Some storage) ;; ledger_refuse LedgerFull
  end.

(** [table.insert], which drops the charge when it refuses. *)
Definition insert_charged (role : Role) (key : RoleKey) (existing : option Z) (n : Z) (charge : option ResourceLease) : Ledger Z := λ r,
  match on_table (insert role key existing n charge) r with
  | (inl (LedgerRefuse e), r) => (drop_charge charge ;; ledger_refuse e) r
  | x => x
  end.

Definition charge_role_with_credit (role : Role) (key : RoleKey) (existing : option Z) (n credit : Z) : Ledger Z :=
  l ← get_ledger;
  total ← se_some (LedgerRefuse LedgerFull) (checked_add 64 (saturating_sub (charged_bytes l) credit) n);
  if byte_limit l <? total then ledger_refuse LedgerFull
  else if bool_decide (is_Some existing) && negb (bool_decide (is_Some (table l))) then ledger_refuse ReplayRefused
  else
    prepare_capacity ;;
    on_table (preflight role key existing n) ;;
    charge ← (if reserver l then
                bytes ← se_some (LedgerRefuse LedgerFull) (checked_add 64 n OWNED_ALLOCATION_PADDING);
                lease ← reserve bytes; mret (Some lease)
              else mret None);
    insert_charged role key existing n charge.

Definition charge_role (role : Role) (key : RoleKey) (existing : option Z) (n : Z) : Ledger Z :=
  charge_role_with_credit role key existing n 0.

Definition release_role (role : Role) (key : RoleKey) : Ledger () :=
  l ← get_ledger;
  match table l with
  | None => mret tt
  | Some _ => released ← on_table (release role key); drop_charge (released ≫= snd)
  end.

(** [producers.native_domain().journal_tag()] is [tag]. *)
Definition reserve_raw (tag : Z) : Ledger ExistingReservation :=
  l ← get_ledger;
  generation ← se_some (LedgerRefuse LedgerFull) (ledger_generation l);
  next ← se_some (LedgerRefuse LedgerFull) (checked_add 64 (next_raw l) 1);
  let key := mkKey tag next in
  id ← charge_role Raw key None 0;
  modify_ledger (set_next_raw next) ;;
  mret (mkExisting generation id (Some key)).

Definition original_is_released (reservation : ExistingReservation) : Ledger bool :=
  l ← get_ledger;
  if matches_reservation reservation l then read_table false (reservation_is_released (existing_id reservation))
  else mret false.

Definition release_raw (reservation : ExistingReservation) : Ledger () :=
  l ← get_ledger;
  match raw_key reservation with
  | Some key => if matches_reservation reservation l then release_role Raw key else mret tt
  | None => mret tt
  end.

Definition checked_existing (reservation : ExistingReservation) : Ledger Z :=
  l ← get_ledger; if matches_reservation reservation l then mret (existing_id reservation) else ledger_refuse ReplayRefused.

Definition charge_h8open_from_raw (ordinal n : Z) (reservation : ExistingReservation) : Ledger () :=
  id ← checked_existing reservation; charge_role H8Open (scalar_key ordinal) (Some id) n ;; mret tt.

Definition h8_reservation (ordinal : Z) : Ledger (option ExistingReservation) :=
  l ← get_ledger;
  match ledger_generation l with
  | None => mret None
  | Some generation =>
      id ← read_table None (reservation H8Open (scalar_key ordinal));
      mret ((λ id, mkExisting generation id None) <$> id)
  end.

Definition matches_unconverted_original (begin : Z) (original : ExistingReservation) (staged : option RoleKey) : Ledger bool :=
  l ← get_ledger;
  if matches_reservation original l then
    read_table false (unconverted_original (scalar_key begin) (existing_id original) staged)
  else mret false.

Definition matches_completed_staging (begin_ordinal domain admission : Z) (staged : StagedResourceOrigin) : Ledger bool :=
  l ← get_ledger;
  if bool_decide (ledger_generation l = Some (staged_generation staged)) && bool_decide (staged_key staged = mkKey domain admission)
  then read_table false (unconverted_staging (scalar_key begin_ordinal) (staged_key staged) (staged_id staged))
  else mret false.

Definition charge_model_from_open (token n : Z) (reservation : ExistingReservation) : Ledger () :=
  id ← checked_existing reservation; charge_role Model (scalar_key token) (Some id) n ;; mret tt.

Definition charge (ticket n : Z) : Ledger () := charge_role H9Staged (scalar_key ticket) None n ;; mret tt.

Definition charge_collected (native ticket n : Z) (origin : option JointResourceOrigin) : Ledger StagedResourceOrigin :=
  l ← get_ledger;
  generation ← se_some (LedgerRefuse LedgerFull) (ledger_generation l);
  existing ← match origin with
             | Some origin =>
                 if joint_native origin =? native then id ← checked_existing (joint_reservation origin); mret (Some id)
                 else ledger_refuse ReplayRefused
             | None => mret None
             end;
  let key := mkKey native ticket in
  id ← charge_role H9Staged key existing n;
  mret (mkStaged generation id key).

Definition release_collected (native ticket : Z) : Ledger () := release_role H9Staged (mkKey native ticket).

Definition release_staged (ticket : Z) : Ledger () := release_role H9Staged (scalar_key ticket).

Definition charge_h8open (ordinal n : Z) : Ledger () := charge_role H8Open (scalar_key ordinal) None n ;; mret tt.

Definition release_h8open (ordinal : Z) : Ledger () := release_role H8Open (scalar_key ordinal).

(** The charges of a role, which go with their memberships. *)
Definition role_charges (role : Role) (t : ReservationTable (option ResourceLease)) : list (option ResourceLease) :=
  omap (λ slot, o ← operation slot; m ← roles o !! Role_index role; member_charge <$> m) (slots t).

Definition release_all_h8open : Ledger () :=
  l ← get_ledger;
  match table l with
  | None => mret tt
  | Some t => on_table (Reservations.release_role H8Open) ;; drop_charges (role_charges H8Open t)
  end.

Definition charge_model (token n : Z) : Ledger () := charge_role Model (scalar_key token) None n ;; mret tt.

Definition release_model (token : Z) : Ledger () := release_role Model (scalar_key token).

Definition charge_deferred (token n : Z) : Ledger () := charge_role Model (deferred_key token) None n ;; mret tt.

Definition release_deferred (token : Z) : Ledger () := release_role Model (deferred_key token).

Definition mint_keyassoc_from_stage (n : Z) (source : option StagedResourceOrigin) : Ledger Z :=
  l ← get_ledger;
  p ← match source with
      | Some source =>
          held ← read_table None (reservation H9Staged (staged_key source));
          if bool_decide (ledger_generation l = Some (staged_generation source)) && bool_decide (held = Some (staged_id source))
          then credit ← read_table None (member_bytes H9Staged (staged_key source)); mret (Some (staged_id source), default 0 credit)
          else ledger_refuse ReplayRefused
      | None => mret (None, 0)
      end;
  ticket ← se_some (LedgerRefuse LedgerFull) (checked_add 64 (next_keyassoc l) 1);
  charge_role_with_credit Association (scalar_key ticket) p.1 n p.2 ;;
  modify_ledger (set_next_keyassoc ticket) ;;
  mret ticket.

Definition mint_keyassoc (n : Z) : Ledger Z := mint_keyassoc_from_stage n None.

Definition release_keyassoc (ticket : Z) : Ledger () := release_role Association (scalar_key ticket).

(** The drop of the ledger: its memberships, then the charge of its buffer. *)
Definition ledger_drop : Ledger () :=
  l ← get_ledger;
  match table l with
  | None => mret tt
  | Some t => drop_charges (concat ((λ role, role_charges role t) <$> Role_ALL))
  end ;;
  drop_charge (table_storage l).
End Operations.
