(* ===== verification/LedgerInv.v ===== *)
(** * The account of the staging ledger

    What the ledger's leases hold of the pool, as a function of its table, and the
    invariant that ties the table, its reference and the pool together; every charge and
    release keeps it. *)
From S2P Require Import Prelude Reservations ReservationState ReservationSpec ReservationRefine ReservationProps Pool Ledger.

Abbreviation Charge := (option ResourceLease).
Abbreviation Op := (Operation Charge).
Abbreviation Ref := (Spec Charge).

(** ** What is held *)

Definition storage_held (l : StagingLedger) : Z := match table_storage l with Some s => lease_bytes s | None => 0 end.

(** The leases of a ledger, in bytes: its buffer, and for each membership its bytes and the padding. *)
Definition ledger_held (l : StagingLedger) : Z :=
  match table l with
  | None => 0
  | Some t => storage_held l + bytes t + OWNED_ALLOCATION_PADDING * zsum id (populations t)
  end.

Definition role_held (r : option (Membership Charge)) : Z :=
  match r with Some m => member_bytes_ m + OWNED_ALLOCATION_PADDING | None => 0 end.

Definition op_held (o : Op) : Z := zsum role_held (roles o).

Definition paid_role (r : option (Membership Charge)) : Prop :=
  match r with Some m => member_charge m = Some (mkLease (role_held r)) | None => True end.

(** Every role of the operation holds the lease of its bytes. *)
Definition paid (o : Op) : Prop := Forall paid_role (roles o).

Definition lane_bytes (lane : nat) (o : Op) : Z := match roles o !! lane with Some r => role_bytes r | None => 0 end.

(** The bytes that an operation between its mint and the release of its staged copy is charged twice. *)
Definition overlap (o : Op) : Z := Z.min (lane_bytes (Role_index H9Staged) o) (lane_bytes (Role_index Association) o).

Lemma pops_members (ops : list Op) :
  Forall op_shape ops → zsum op_held ops = spec_bytes ops + OWNED_ALLOCATION_PADDING * zsum id (pops ops).
Proof.
  induction 1 as [|o ops Ho _ IH]; [done|]. rewrite spec_bytes_cons.
  change (zsum op_held (o :: ops)) with (op_held o + zsum op_held ops). rewrite IH. clear IH.
  unfold pops. cbn [seq fmap list_fmap ROLES zsum foldr id]. rewrite !spec_population_cons.
  destruct o as [al rs]. pose proof (os_roles _ Ho) as Hl. cbn [roles] in Hl.
  destruct rs as [|r0 [|r1 [|r2 [|r3 [|r4 [|? ?]]]]]]; try discriminate Hl. unfold op_held, op_bytes, lane_taken.
  cbn [roles zsum foldr]. change ((r0 :: r1 :: r2 :: r3 :: [r4]) !! 0%nat) with (Some r0).
  change ((r0 :: r1 :: r2 :: r3 :: [r4]) !! 1%nat) with (Some r1). change ((r0 :: r1 :: r2 :: r3 :: [r4]) !! 2%nat) with (Some r2).
  change ((r0 :: r1 :: r2 :: r3 :: [r4]) !! 3%nat) with (Some r3). change ((r0 :: r1 :: r2 :: r3 :: [r4]) !! 4%nat) with (Some r4).
  assert (∀ r : option (Membership Charge), role_held r = role_bytes r + OWNED_ALLOCATION_PADDING * (match r with Some _ => 1 | None => 0 end)) as E.
  { intros [m|]; unfold role_held, role_bytes; lia. }
  rewrite !E. set (a := spec_population 0 ops). set (b := spec_population 1 ops). set (c := spec_population 2 ops).
  set (d := spec_population 3 ops). set (e := spec_population 4 ops). unfold OWNED_ALLOCATION_PADDING.
  destruct r0, r1, r2, r3, r4; lia.
Qed.

(** ** The effect of an insertion and of a release on the reference *)

Lemma op_held_put lane r r' (o : Op) :
  roles o !! lane = Some r' → op_held (put_role lane r o) = op_held o - role_held r' + role_held r.
Proof. intros H. unfold op_held, put_role. simpl. by rewrite (zsum_insert _ _ _ _ _ H). Qed.

Lemma paid_put lane r (o : Op) : paid o → paid_role r → paid (put_role lane r o).
Proof. intros Ho Hr. unfold paid. simpl. by apply Forall_insert. Qed.

Lemma lane_bytes_put lane r l (o : Op) :
  (lane < length (roles o))%nat → lane_bytes l (put_role lane r o) = if decide (l = lane) then role_bytes r else lane_bytes l o.
Proof.
  intros Hl. unfold lane_bytes, put_role. simpl. case_decide as E; [subst l; by rewrite list_lookup_insert_eq|by rewrite list_lookup_insert_ne].
Qed.

Lemma lane_bytes_nonneg l (o : Op) : op_shape o → 0 <= lane_bytes l o.
Proof.
  intros Ho. unfold lane_bytes. destruct (roles o !! l) as [r|] eqn:E; [|done].
  pose proof (os_bytes _ Ho) as Hb. rewrite Forall_lookup in Hb. by apply (Hb l).
Qed.

Lemma overlap_nonneg (o : Op) : op_shape o → 0 <= overlap o.
Proof. intros Ho. unfold overlap. pose proof (lane_bytes_nonneg (Role_index H9Staged) o Ho). pose proof (lane_bytes_nonneg (Role_index Association) o Ho). lia. Qed.

Lemma shapes next (ops : list Op) : ops_wf next ops → Forall op_shape ops.
Proof. intros Hw. eapply Forall_impl; [exact (pw_each _ _ Hw)|]. by intros o [? _]. Qed.

(** The operation that took the new role, and the others. *)
Lemma spec_insert_ops role key existing n (ch : Charge) (s : Ref) id s' :
  ops_wf (s_next s) (s_ops s) → spec_insert role key existing n ch s = (inr id, s') →
  let lane := Role_index role in
  s_capacity s' = s_capacity s ∧ (lane, key) ∉ keys (s_ops s) ∧
  ∃ o rest, s_ops s' = put_role lane (Some (mkMember key n ch)) o :: rest ∧ roles o !! lane = Some None ∧
    match existing with
    | Some i => take_op (has_alias i) (s_ops s) = Some (o, rest)
    | None => s_ops s = rest ∧ o = new_operation (s_next s + 1)
    end.
Proof.
  intros Hw H lane. unfold spec_insert in H. destruct (spec_preflight role key existing n s) as [e|] eqn:E; [done|].
  unfold spec_preflight in E. destruct (existsb _ _) eqn:Ek; [done|]. apply existsb_key_elem in Ek. destruct (_ <=? _); [done|].
  destruct existing as [i|].
  - destruct (take_op (has_alias i) (s_ops s)) as [[o rest]|] eqn:Et; [|done]. destruct (lane_taken _ o) eqn:El; [done|].
    injection H as _ <-. cbn [s_capacity with_ops s_ops]. split_and!; [done..|]. exists o, rest. split_and!; [done| |done].
    apply take_op_Some in Et as [Hp _]. pose proof (shapes _ _ Hw) as Hs. rewrite Hp in Hs. apply Forall_cons in Hs as [Ho _].
    destruct (lane_taken_lookup o lane Ho (Role_index_lt role)) as (r & Hr & Ht). unfold lane in *. rewrite Hr. rewrite El in Ht.
    destruct r; [done|done].
  - injection H as _ <-. cbn [s_capacity s_ops]. split_and!; [done..|]. eexists _, _. split_and!; [done| |done|done].
    apply new_operation_lane, Role_index_lt.
Qed.

(** A figure of the operations that is 0 for a new one. *)
Lemma spec_insert_sum (f : Op → Z) role key existing n (ch : Charge) (s : Ref) id s' :
  ops_wf (s_next s) (s_ops s) → spec_insert role key existing n ch s = (inr id, s') → f (new_operation (s_next s + 1)) = 0 →
  ∃ o rest, s_ops s' = put_role (Role_index role) (Some (mkMember key n ch)) o :: rest ∧ roles o !! Role_index role = Some None ∧
    zsum f (s_ops s') = zsum f (s_ops s) - f o + f (put_role (Role_index role) (Some (mkMember key n ch)) o) ∧ op_shape o.
Proof.
  intros Hw H H0. destruct (spec_insert_ops _ _ _ _ _ _ _ _ Hw H) as (_ & _ & o & rest & Hs & Hl & He). exists o, rest.
  split_and!; [done|done| |].
  - rewrite Hs. change (zsum f (?x :: rest)) with (f x + zsum f rest). destruct existing as [i|].
    + apply take_op_Some in He as [Hp _]. rewrite Hp. change (zsum f (o :: rest)) with (f o + zsum f rest). lia.
    + destruct He as [-> ->]. rewrite H0. lia.
  - destruct existing as [i|].
    + apply take_op_Some in He as [Hp _]. pose proof (shapes _ _ Hw) as Hsh. rewrite Hp in Hsh. by apply Forall_cons in Hsh as [? _].
    + destruct He as [_ ->]. constructor; simpl; [done|done|by eexists|]. repeat constructor; simpl; lia.
Qed.

Lemma spec_insert_held role key existing n (s : Ref) id s' :
  let ch := Some (mkLease (n + OWNED_ALLOCATION_PADDING)) in
  ops_wf (s_next s) (s_ops s) → Forall paid (s_ops s) → spec_insert role key existing n ch s = (inr id, s') →
  Forall paid (s_ops s') ∧ zsum op_held (s_ops s') = zsum op_held (s_ops s) + (n + OWNED_ALLOCATION_PADDING) ∧
  spec_bytes (s_ops s') = spec_bytes (s_ops s) + n.
Proof.
  intros ch Hw Hp H. split_and!.
  - destruct (spec_insert_ops _ _ _ _ _ _ _ _ Hw H) as (_ & _ & o & rest & -> & Hl & He).
    assert (paid o ∧ Forall paid rest) as [Ho Hr].
    { destruct existing as [i|]; [apply take_op_Some in He as [Hq _]; rewrite Hq in Hp; by apply Forall_cons in Hp|].
      destruct He as [<- ->]. split; [|done]. repeat constructor. }
    constructor; [|done]. by apply paid_put.
  - destruct (spec_insert_sum op_held _ _ _ _ _ _ _ _ Hw H) as (o & rest & _ & Hl & -> & _); [done|].
    rewrite (op_held_put _ _ _ _ Hl). unfold role_held. simpl. lia.
  - unfold spec_bytes. destruct (spec_insert_sum op_bytes _ _ _ _ _ _ _ _ Hw H) as (o & rest & _ & Hl & -> & _); [done|].
    rewrite (op_bytes_put _ _ _ _ Hl). simpl. lia.
Qed.

Lemma spec_insert_overlap role key existing n (ch : Charge) (s : Ref) id s' :
  ops_wf (s_next s) (s_ops s) → 0 <= n → spec_insert role key existing n ch s = (inr id, s') →
  zsum overlap (s_ops s) <= zsum overlap (s_ops s').
Proof.
  intros Hw Hn H. destruct (spec_insert_sum overlap _ _ _ _ _ _ _ _ Hw H) as (o & rest & _ & Hl & -> & Ho); [done|].
  assert (Role_index role < length (roles o))%nat as Hlen by (by eapply lookup_lt_Some). unfold overlap. rewrite !lane_bytes_put by done.
  assert (lane_bytes (Role_index role) o = 0) as Hz by (unfold lane_bytes; by rewrite Hl).
  pose proof (lane_bytes_nonneg (Role_index H9Staged) o Ho). pose proof (lane_bytes_nonneg (Role_index Association) o Ho).
  repeat case_decide; cbn [role_bytes member_bytes_]; try rewrite <-H2 in Hz; try rewrite <- H3 in Hz; lia.
Qed.

Lemma spec_insert_keys role key existing n (ch : Charge) (s : Ref) id s' :
  ops_wf (s_next s) (s_ops s) → spec_insert role key existing n ch s = (inr id, s') →
  keys (s_ops s') ≡ₚ (Role_index role, key) :: keys (s_ops s).
Proof.
  intros Hw H. destruct (spec_insert_ops _ _ _ _ _ _ _ _ Hw H) as (_ & _ & o & rest & -> & Hl & He).
  unfold keys. cbn [fmap list_fmap concat]. rewrite (put_role_keys _ _ _ Hl). cbn [member_key].
  destruct existing as [i|].
  - apply take_op_Some in He as [Hp _]. assert (concat (op_keys <$> s_ops s) ≡ₚ concat (op_keys <$> o :: rest)) as -> by by rewrite Hp.
    done.
  - destruct He as [-> ->]. done.
Qed.

Lemma all_none_held (o : Op) : all_none (roles o) = true → op_held o = 0.
Proof. unfold op_held. induction (roles o) as [|[m|] l IH]; simpl; [done|done|]. intros H. by rewrite IH. Qed.

Lemma all_none_overlap (o : Op) : all_none (roles o) = true → overlap o = 0.
Proof.
  intros H. assert (∀ l, lane_bytes l o = 0) as E; [|unfold overlap; by rewrite !E].
  intros l. unfold lane_bytes. destruct (roles o !! l) as [[m|]|] eqn:El; [|done|done].
  assert (all_none (roles o) = false); [apply all_none_false; eauto|congruence].
Qed.

Lemma op_keys_none (o : Op) : all_none (roles o) = true → op_keys o = [].
Proof.
  intros H. unfold op_keys. destruct (present (roles o)) as [|[i x] l] eqn:Ep; [done|].
  assert ((i, x) ∈ present (roles o)) as Hin by (rewrite Ep; left). apply present_elem in Hin.
  assert (all_none (roles o) = false); [apply all_none_false; eauto|congruence].
Qed.

Lemma drop_sum (f : Op → Z) lane (o : Op) :
  (∀ o, all_none (roles o) = true → f o = 0) → zsum f (option_list (drop_role lane o)) = f (put_role lane None o).
Proof.
  intros Hf. unfold drop_role. destruct (all_none (roles (put_role lane None o))) eqn:E; unfold zsum; simpl; [by rewrite Hf|lia].
Qed.

Lemma drop_paid lane (o : Op) : paid o → Forall paid (option_list (drop_role lane o)).
Proof. intros Ho. unfold drop_role. destruct (all_none _); repeat constructor. by apply paid_put. Qed.

Lemma overlap_drop lane m (o : Op) :
  op_shape o → roles o !! lane = Some (Some m) → overlap o - member_bytes_ m <= overlap (put_role lane None o) <= overlap o.
Proof.
  intros Ho Hm. assert (lane < length (roles o))%nat as Hlen by (by eapply lookup_lt_Some). unfold overlap. rewrite !lane_bytes_put by done.
  assert (lane_bytes lane o = member_bytes_ m) as Hz by (unfold lane_bytes; by rewrite Hm).
  pose proof (lane_bytes_nonneg (Role_index H9Staged) o Ho). pose proof (lane_bytes_nonneg (Role_index Association) o Ho).
  pose proof (lane_bytes_nonneg lane o Ho).
  assert (∀ l, l = lane → lane_bytes l o = member_bytes_ m) as He by by intros ? ->.
  destruct (decide (Role_index H9Staged = lane)) as [Ea|?], (decide (Role_index Association = lane)) as [Eb|?]; cbn [role_bytes];
    try apply He in Ea; try apply He in Eb; lia.
Qed.

(** What a release takes out of the operations. *)
Lemma spec_release_held role key (s : Ref) :
  ops_wf (s_next s) (s_ops s) → Forall paid (s_ops s) →
  let lane := Role_index role in
  let s' := (spec_release role key s).2 in
  s_capacity s' = s_capacity s ∧ Forall paid (s_ops s') ∧
  match (spec_release role key s).1 with
  | None => s' = s ∧ (lane, key) ∉ keys (s_ops s)
  | Some (b, ch) =>
      0 <= b ∧ ch = Some (mkLease (b + OWNED_ALLOCATION_PADDING)) ∧
      zsum op_held (s_ops s') = zsum op_held (s_ops s) - (b + OWNED_ALLOCATION_PADDING) ∧
      spec_bytes (s_ops s') = spec_bytes (s_ops s) - b ∧
      zsum overlap (s_ops s) - b <= zsum overlap (s_ops s') ∧
      keys (s_ops s) ≡ₚ (lane, key) :: keys (s_ops s')
  end.
Proof.
  intros Hw Hp lane. unfold spec_release. destruct (take_op (has_key (Role_index role) key) (s_ops s)) as [[o rest]|] eqn:E; cbn [fst snd].
  2:{ split_and!; try done. apply existsb_key_elem. unfold lane. rewrite existsb_take_op, E. by apply bool_decide_eq_false; intros []. }
  apply take_op_Some in E as [Hq Hk]. apply has_key_member in Hk as (m & Hm & Hkey). fold lane in Hm |- *. rewrite Hm.
  pose proof (shapes _ _ Hw) as Hsh. rewrite Hq in Hsh, Hp. apply Forall_cons in Hsh as [Ho _], Hp as [Hpo Hpr].
  assert (∀ f : Op → Z, (∀ o, all_none (roles o) = true → f o = 0) →
    zsum f (option_list (drop_role lane o) ++ rest) = zsum f (s_ops s) - f o + f (put_role lane None o)) as Hsum.
  { intros f Hf. rewrite zsum_app, (drop_sum f lane o Hf), Hq. change (zsum f (o :: rest)) with (f o + zsum f rest). lia. }
  cbn [s_capacity with_ops s_ops]. split_and!; [done|apply Forall_app; split; [by apply drop_paid|done]|..].
  - pose proof (os_bytes _ Ho) as Hb. rewrite Forall_lookup in Hb. exact (Hb _ _ Hm).
  - unfold paid in Hpo. rewrite Forall_lookup in Hpo. exact (Hpo _ _ Hm).
  - rewrite (Hsum _ all_none_held), (op_held_put _ _ _ _ Hm). cbn [role_held]. lia.
  - unfold spec_bytes. rewrite Hsum by (intros ?; apply all_none_bytes). rewrite (op_bytes_put _ _ _ _ Hm). cbn [role_bytes]. lia.
  - rewrite (Hsum _ all_none_overlap). pose proof (overlap_drop _ _ _ Ho Hm). lia.
  - unfold keys. rewrite fmap_app, concat_app.
    assert (concat (op_keys <$> s_ops s) ≡ₚ concat (op_keys <$> o :: rest)) as -> by by rewrite Hq.
    cbn [fmap list_fmap concat]. rewrite (drop_role_keys _ _ _ Hm), Hkey. cbn [app].
    apply perm_skip, Permutation_app_tail. unfold drop_role. destruct (all_none _) eqn:E; cbn [option_list fmap list_fmap concat app].
    + by rewrite op_keys_none.
    + cbn. by rewrite app_nil_r.
Qed.

(** ** The invariant *)

Section Account.
Context {layout : SlotLayout}.

(** The ledger is [s], and the pool's charge is what the ledger and the [rest] of the capture hold. *)
Record linv (rest lim : Z) (r : LedgerRun) (s : Ref) : Prop := mkLinv {
  li_table : match table (l_ledger r) with
             | Some t => refines t s ∧ ∃ n, table_charge = Some n ∧ table_storage (l_ledger r) = Some (mkLease n)
             | None => s = spec_new MAX_UNSETTLED_STAGED ∧ table_storage (l_ledger r) = None
             end;
  li_capacity : s_capacity s = MAX_UNSETTLED_STAGED;
  li_reserver : reserver (l_ledger r) = true;
  li_paid : Forall paid (s_ops s);
  li_charged : charged (l_pool r) = rest + ledger_held (l_ledger r);
  li_rest : 0 <= rest;
  li_limit : charged (l_pool r) <= lim;
  li_lim : limit (l_pool r) = lim;
  li_width : lim < 2 ^ 64;
}.

(** The bytes charged stay within the limit but for what is charged twice. *)
Definition bounded (l : StagingLedger) (s : Ref) : Prop :=
  spec_bytes (s_ops s) - zsum overlap (s_ops s) <= byte_limit l.

(** The keys of associations are tickets minted before. *)
Definition ticketed (l : StagingLedger) (s : Ref) : Prop :=
  in_width 64 (next_keyassoc l) ∧
  ∀ k, (Role_index Association, k) ∈ keys (s_ops s) → ∃ t, k = scalar_key t ∧ 1 <= t <= next_keyassoc l.

(** What no charge or release changes. *)
Record same_config (l l' : StagingLedger) : Prop := mkSameConfig {
  sc_reserver : reserver l' = reserver l;
  sc_keyassoc : next_keyassoc l' = next_keyassoc l;
  sc_raw : next_raw l' = next_raw l;
  sc_generation : ledger_generation l' = ledger_generation l;
  sc_limit : byte_limit l' = byte_limit l;
}.

#[local] Instance same_config_preorder : PreOrder same_config.
Proof. split; [by intros l|]. intros a b c [] []. constructor; congruence. Qed.

Lemma table_charge_nonneg n : table_charge = Some n → 0 <= n.
Proof.
  unfold table_charge. destruct (checked_mul _ _ _) as [k|]; [|done]. simpl. unfold checked_add. by intros [-> [? _]]%checked_Some.
Qed.

Lemma linv_wf rest lim r s : linv rest lim r s → ops_wf (s_next s) (s_ops s).
Proof.
  intros H. pose proof (li_table _ _ _ _ H) as Ht. destruct (table _) as [t|]; [apply Ht|].
  destruct Ht as [-> _]. constructor; constructor.
Qed.

Lemma held_spec l t s : table l = Some t → refines t s → ledger_held l = storage_held l + zsum op_held (s_ops s).
Proof.
  intros Ht Hr. unfold ledger_held. rewrite Ht, (rf_bytes _ _ Hr), (rf_pops _ _ Hr), (pops_members _ (shapes _ _ (rf_wf _ _ Hr))). lia.
Qed.

Lemma op_held_nonneg (o : Op) : op_shape o → 0 <= op_held o.
Proof.
  intros Ho. pose proof (os_bytes _ Ho) as Hb. unfold op_held, zsum. induction Hb as [|[m|] l Hm Hb IH]; simpl in *; [done| |done].
  unfold OWNED_ALLOCATION_PADDING. lia.
Qed.

Lemma held_nonneg next (ops : list Op) : ops_wf next ops → 0 <= zsum op_held ops.
Proof.
  intros Hw. pose proof (shapes _ _ Hw) as Hs. unfold zsum. induction Hs as [|o l Ho Hs IH]; simpl; [done|].
  pose proof (op_held_nonneg o Ho). assert (ops_wf next l) by by apply ops_wf_cons in Hw as [[] _]. specialize (IH H0). lia.
Qed.

Lemma ledger_held_nonneg rest lim r s : linv rest lim r s → 0 <= ledger_held (l_ledger r).
Proof.
  intros H. pose proof (li_table _ _ _ _ H) as Ht. destruct (table (l_ledger r)) as [t|] eqn:E; [|unfold ledger_held; by rewrite E].
  destruct Ht as (Hr & n & Hn & Hs). rewrite (held_spec _ _ _ E Hr). unfold storage_held. rewrite Hs. simpl.
  pose proof (held_nonneg _ _ (rf_wf _ _ Hr)). pose proof (table_charge_nonneg n Hn). lia.
Qed.

Lemma linv_table rest lim r s t :
  linv rest lim r s → table (l_ledger r) = Some t → refines t s.
Proof. intros H E. pose proof (li_table _ _ _ _ H) as Ht. rewrite E in Ht. apply Ht. Qed.

(** ** Pool operations *)

Lemma reserve_ok rest lim r s n :
  linv rest lim r s → 0 <= n →
  (charged (l_pool r) + n <= lim ∧ ∃ p, reserve n r = (inr (mkLease n), mkLedgerRun p (l_allocs r) (l_ledger r)) ∧
     charged p = charged (l_pool r) + n ∧ limit p = lim) ∨
  (lim < charged (l_pool r) + n ∧ ∃ p, reserve n r = (inl (LedgerRefuse LedgerFull), mkLedgerRun p (l_allocs r) (l_ledger r)) ∧
     charged p = charged (l_pool r) ∧ limit p = lim).
Proof.
  intros H Hn. pose proof (ledger_held_nonneg _ _ _ _ H) as Hh. destruct H as [_ _ _ _ Hc Hr Hl Hlim Hw].
  destruct (acquire_ok n (l_pool r)) as [[Hle E]|(Hgt & x & E)]; [done|lia|lia|left|right]; (split; [lia|]); unfold reserve; rewrite E; by eexists.
Qed.

Lemma drop_charge_ok n r :
  0 <= n <= charged (l_pool r) → charged (l_pool r) < 2 ^ 64 →
  drop_charge (Some (mkLease n)) r = (inr tt, mkLedgerRun (set_charged (charged (l_pool r) - n) (l_pool r)) (l_allocs r) (l_ledger r)).
Proof. intros Hn Hc. unfold drop_charge. by rewrite lease_drop_ok. Qed.

(** Another pool with the same charge and limit. *)
Lemma linv_pool rest lim r s p al :
  linv rest lim r s → charged p = charged (l_pool r) → limit p = lim → linv rest lim (mkLedgerRun p al (l_ledger r)) s.
Proof. intros [] Hc Hl. constructor; cbn [l_pool l_ledger]; try done; lia. Qed.

(** ** The table *)

Lemma prepare_capacity_ok rest lim r s :
  linv rest lim r s →
  ∃ a r', prepare_capacity r = (a, r') ∧ linv rest lim r' s ∧ same_config (l_ledger r) (l_ledger r') ∧
    match a with
    | inr _ => is_Some (table (l_ledger r'))
    | inl (LedgerRefuse e) => e = LedgerFull
    | inl LedgerPanic => False
    end.
Proof.
  intros H. unfold prepare_capacity. rewrite (bind_ok get_ledger _ _ _ _ eq_refl).
  destruct (table (l_ledger r)) as [t|] eqn:Et; [exists (inr tt), r; split_and!; try done; by rewrite Et|].
  destruct table_charge as [n|] eqn:En; [|by exists (inl (LedgerRefuse LedgerFull)), r].
  rewrite (bind_ok (se_some _ (Some n)) _ _ _ _ eq_refl), (li_reserver _ _ _ _ H).
  pose proof (table_charge_nonneg n En) as Hn.
  destruct (reserve_ok _ _ _ _ n H Hn) as [(Hle & p & E & Hc & Hl)|(Hgt & p & E & Hc & Hl)].
  2:{ rewrite (bind_err _ _ _ _ _ E). eexists _, _. split_and!; [done|by apply linv_pool|done|done]. }
  rewrite (bind_ok _ _ _ _ _ E), (bind_ok allocate_table _ _ _ _ eq_refl). cbn [l_pool l_allocs l_ledger].
  pose proof (li_table _ _ _ _ H) as Ht. rewrite Et in Ht. destruct Ht as [-> Hst]. destruct H as [_ Hcap Hres Hp Hch Hrst Hlm Hlim Hw].
  assert (ledger_held (l_ledger r) = 0) as H0 by (unfold ledger_held; by rewrite Et).
  destruct (default true (head (l_allocs r))).
  - eexists _, _. split_and!; [done| |by constructor|by eexists]. pose proof (try_new_refines (C := Charge) MAX_UNSETTLED_STAGED ltac:(done)) as Hr.
    assert (ledger_held (set_table_storage (Some (mkLease n)) (set_table (Some (try_new MAX_UNSETTLED_STAGED)) (l_ledger r))) = n) as Hh.
    { erewrite (held_spec (set_table_storage _ _)); [|reflexivity|exact Hr]. unfold storage_held. cbn. lia. }
    constructor; cbn [l_pool l_allocs l_ledger]; try done; [|rewrite Hh; lia|lia]. cbn [table set_table_storage table_storage set_table].
    split; [done|]. by exists n.
  - erewrite bind_ok; [|apply drop_charge_ok; cbn [l_pool]; lia]. eexists _, _. split_and!; [done| |done|done].
    constructor; cbn [l_pool l_allocs l_ledger set_charged charged limit]; try done; [by rewrite Et|lia|lia].
Qed.

Lemma on_table_ok {A} rest lim r s s' t (m : Table Charge A) a t' :
  linv rest lim r s → table (l_ledger r) = Some t → m t = (inr a, t') → refines t' s' →
  s_capacity s' = s_capacity s → Forall paid (s_ops s') → zsum op_held (s_ops s') = zsum op_held (s_ops s) →
  on_table m r = (inr a, mkLedgerRun (l_pool r) (l_allocs r) (set_table (Some t') (l_ledger r))) ∧
  linv rest lim (mkLedgerRun (l_pool r) (l_allocs r) (set_table (Some t') (l_ledger r))) s'.
Proof.
  intros H Ht Hm Hr Hc Hp Hh. unfold on_table. rewrite Ht, Hm. split; [done|].
  pose proof (linv_table _ _ _ _ _ H Ht) as Hr0. destruct H as [Htb Hcap Hres Hpd Hch Hrst Hlm Hlim Hw]. rewrite Ht in Htb.
  constructor; cbn [l_pool l_allocs l_ledger set_table table table_storage reserver]; try done; [split; [done|apply Htb]|congruence|].
  rewrite (held_spec (set_table (Some t') (l_ledger r)) _ _ eq_refl Hr), Hh. rewrite (held_spec _ _ _ Ht Hr0) in Hch. exact Hch.
Qed.

(** A refusal of the table leaves everything as it was. *)
Lemma on_table_refused {A} r t (m : Table Charge A) e :
  table (l_ledger r) = Some t → m t = (inl (Refuse e), t) → on_table m r = (inl (LedgerRefuse (ledger_refusal e)), r).
Proof. intros Ht Hm. unfold on_table. rewrite Ht, Hm. destruct r as [p al l]. destruct l; simpl in *. by rewrite Ht. Qed.

Lemma on_table_read {A} r t (m : Table Charge A) a :
  table (l_ledger r) = Some t → m t = (inr a, t) → on_table m r = (inr a, r).
Proof. intros Ht Hm. unfold on_table. rewrite Ht, Hm. destruct r as [p al l]. destruct l; simpl in *. by rewrite Ht. Qed.

Lemma spec_insert_inserts role key existing n (ch : Charge) (s : Ref) :
  spec_preflight role key existing n s = None → ∃ id s', spec_insert role key existing n ch s = (inr id, s').
Proof.
  intros E. unfold spec_insert. rewrite E. destruct existing as [i|]; [|by eexists _, _].
  unfold spec_preflight in E. destruct (existsb _ _); [done|]. destruct (_ <=? _); [done|].
  destruct (take_op _ _) as [[o rest]|]; [by eexists _, _|done].
Qed.

(** The outcome of a charge: the reference's insertion with its lease paid, or a refusal that keeps the account. *)
Definition charged_to (rest lim : Z) (s : Ref) role key existing n (l : StagingLedger) (credit : Z) (a : LedgerStop + Z) (r' : LedgerRun) : Prop :=
  match a with
  | inr id => ∃ s', spec_insert role key existing n (Some (mkLease (n + OWNED_ALLOCATION_PADDING))) s = (inr id, s') ∧
                linv rest lim r' s' ∧ saturating_sub (spec_bytes (s_ops s)) credit + n <= byte_limit l
  | inl (LedgerRefuse _) => linv rest lim r' s
  | inl LedgerPanic => False
  end.

Lemma insert_charged_ok rest lim r s role key existing n p t :
  linv rest lim r s → table (l_ledger r) = Some t → 0 <= n → spec_preflight role key existing n s = None →
  charged p = charged (l_pool r) + (n + OWNED_ALLOCATION_PADDING) → charged p <= lim → limit p = lim →
  ∃ id s' t', insert_charged role key existing n (Some (mkLease (n + OWNED_ALLOCATION_PADDING))) (mkLedgerRun p (l_allocs r) (l_ledger r)) =
      (inr id, mkLedgerRun p (l_allocs r) (set_table (Some t') (l_ledger r))) ∧
    spec_insert role key existing n (Some (mkLease (n + OWNED_ALLOCATION_PADDING))) s = (inr id, s') ∧
    linv rest lim (mkLedgerRun p (l_allocs r) (set_table (Some t') (l_ledger r))) s'.
Proof.
  intros H Ht Hn Hpre Hc Hl El. pose proof (linv_table _ _ _ _ _ H Ht) as Hr. set (ch := Some (mkLease _)) in *.
  destruct (spec_insert_inserts role key existing n ch s Hpre) as (id & s' & Es).
  destruct (insert_refines t s role key existing n ch Hr Hn) as (t' & Ei & Hr'). rewrite Es in Ei, Hr'. cbn [fst snd lift] in *.
  exists id, s', t'. split_and!; [unfold insert_charged, on_table; cbn [l_ledger]; by rewrite Ht, Ei|done|].
  pose proof (linv_wf _ _ _ _ H) as Hw. destruct H as [Htb Hcap Hres Hpd Hch Hrst Hlm Hlim Hwd]. rewrite Ht in Htb.
  destruct (spec_insert_held _ _ _ _ _ _ _ Hw Hpd Es) as (Hpd' & Hh & _). destruct (spec_insert_ops _ _ _ _ _ _ _ _ Hw Es) as (Hcap' & _).
  constructor; cbn [l_pool l_allocs l_ledger set_table table table_storage reserver]; try done; [split; [done|apply Htb]|congruence|].
  rewrite (held_spec (set_table (Some t') (l_ledger r)) _ _ eq_refl Hr'), Hh. rewrite (held_spec _ _ _ Ht Hr) in Hch.
  change (storage_held (set_table (Some t') (l_ledger r))) with (storage_held (l_ledger r)). lia.
Qed.

Lemma charge_role_with_credit_ok rest lim r s role key existing n credit :
  linv rest lim r s → 0 <= n →
  ∃ a r', charge_role_with_credit role key existing n credit r = (a, r') ∧ same_config (l_ledger r) (l_ledger r') ∧
    charged_to rest lim s role key existing n (l_ledger r) credit a r'.
Proof.
  intros H Hn. unfold charge_role_with_credit. rewrite (bind_ok get_ledger _ _ _ _ eq_refl).
  assert (charged_bytes (l_ledger r) = spec_bytes (s_ops s)) as Hb.
  { unfold charged_bytes. pose proof (li_table _ _ _ _ H) as Ht. destruct (table _); [by apply Ht|]. by destruct Ht as [-> _]. }
  rewrite Hb. set (before := saturating_sub _ _).
  destruct (checked_add 64 before n) as [total|] eqn:Etot; [|by exists (inl (LedgerRefuse LedgerFull)), r].
  apply checked_Some in Etot as [-> _].
  rewrite (bind_ok (se_some _ (Some _)) _ _ _ _ eq_refl). destruct (byte_limit (l_ledger r) <? before + n) eqn:Elim.
  { by exists (inl (LedgerRefuse LedgerFull)), r. }
  apply Z.ltb_ge in Elim. destruct (_ && _); [by exists (inl (LedgerRefuse ReplayRefused)), r|].
  destruct (prepare_capacity_ok rest lim r s H) as (a1 & r1 & E1 & H1 & Hc1 & Ha1). destruct a1 as [[e|]|[]]; [|done|].
  { rewrite (bind_err _ _ _ _ _ E1). by exists (inl (LedgerRefuse e)), r1. }
  rewrite (bind_ok _ _ _ _ _ E1). destruct Ha1 as [t Ht]. pose proof (linv_table _ _ _ _ _ H1 Ht) as Hr.
  pose proof (preflight_ok t s role key existing n Hr Hn) as Hpre. destruct (spec_preflight role key existing n s) as [e|] eqn:Es.
  { rewrite (bind_err _ _ _ _ _ (on_table_refused _ _ _ _ Ht Hpre)). by eexists _, r1. }
  rewrite (bind_ok _ _ _ _ _ (on_table_read _ _ _ _ Ht Hpre)), (li_reserver _ _ _ _ H).
  destruct (checked_add 64 n OWNED_ALLOCATION_PADDING) as [padded|] eqn:Ep; [|by exists (inl (LedgerRefuse LedgerFull)), r1].
  apply checked_Some in Ep as [-> _].
  assert (0 <= n + OWNED_ALLOCATION_PADDING) as Hn' by (unfold OWNED_ALLOCATION_PADDING; lia).
  destruct (reserve_ok _ _ _ _ _ H1 Hn') as [(Hle & p & E & Hc & Hl)|(Hgt & p & E & Hc & Hl)].
  - destruct (insert_charged_ok _ _ _ _ role key existing n p t H1 Ht Hn Es Hc ltac:(lia) Hl) as (id & s' & t' & Ei & Hs' & Hi).
    eexists (inr id), _. split_and!; [| |].
    + unfold mbind, se_mbind, se_bind. cbn [se_some se_ret]. rewrite E. cbn [mret se_mret se_ret]. exact Ei.
    + etrans; [exact Hc1|]. by constructor.
    + by exists s'.
  - exists (inl (LedgerRefuse LedgerFull)), (mkLedgerRun p (l_allocs r1) (l_ledger r1)). split_and!; [|exact Hc1|by apply (linv_pool _ _ _ _ p (l_allocs r1) H1)].
    unfold mbind, se_mbind, se_bind. cbn [se_some se_ret]. by rewrite E.
Qed.

Lemma drop_released rest lim r s p t' s' b :
  linv rest lim r s → 0 <= b →
  match table (l_ledger r) with Some t => refines t s | None => False end → refines t' s' → s_capacity s' = s_capacity s →
  Forall paid (s_ops s') → zsum op_held (s_ops s') = zsum op_held (s_ops s) - b → p = l_pool r →
  ∃ r', drop_charge (Some (mkLease b)) (mkLedgerRun p (l_allocs r) (set_table (Some t') (l_ledger r))) = (inr tt, r') ∧
    linv rest lim r' s' ∧ same_config (l_ledger r) (l_ledger r').
Proof.
  intros H Hb Ht Hr' Hcap' Hpd' Hh ->. destruct (table (l_ledger r)) as [t|] eqn:Et; [|done].
  destruct H as [Htb Hcap Hres Hpd Hch Hrst Hlm Hlim Hwd]. rewrite Et in Htb. destruct Htb as [_ (k & Hk & Hst)].
  rewrite (held_spec _ _ _ Et Ht) in Hch. pose proof (held_nonneg _ _ (rf_wf _ _ Hr')). pose proof (table_charge_nonneg k Hk).
  assert (storage_held (l_ledger r) = k) as Hsk by (unfold storage_held; by rewrite Hst).
  rewrite drop_charge_ok by (cbn [l_pool]; lia). eexists. split_and!; [done| |by constructor].
  constructor; cbn [l_pool l_allocs l_ledger set_table table table_storage reserver set_charged charged limit]; try done;
    [split; [done|by exists k]|congruence| |lia].
  rewrite (held_spec (set_table (Some t') (l_ledger r)) _ _ eq_refl Hr'), Hh.
  change (storage_held (set_table (Some t') (l_ledger r))) with (storage_held (l_ledger r)). lia.
Qed.

Lemma release_role_ok rest lim r s role key :
  linv rest lim r s →
  ∃ r', release_role role key r = (inr tt, r') ∧ linv rest lim r' (spec_release role key s).2 ∧ same_config (l_ledger r) (l_ledger r').
Proof.
  intros H. unfold release_role. rewrite (bind_ok get_ledger _ _ _ _ eq_refl). destruct (table (l_ledger r)) as [t|] eqn:Et.
  2:{ exists r. pose proof (li_table _ _ _ _ H) as Ht. rewrite Et in Ht. destruct Ht as [-> _]. done. }
  pose proof (linv_table _ _ _ _ _ H Et) as Hr. destruct (release_refines t s role key Hr) as (t' & Er & Hr').
  destruct (spec_release_held role key s (linv_wf _ _ _ _ H) (li_paid _ _ _ _ H)) as (Hcap & Hpd & Hrel).
  unfold on_table. unfold mbind, se_mbind, se_bind. rewrite Et, Er.
  destruct (spec_release role key s) as [[[b ch]|] s'] eqn:Es; cbn [fst snd] in *.
  - destruct Hrel as (Hb & -> & Hh & _). change (option_bind _ _ snd (Some (b, ?c))) with c.
    apply (drop_released rest lim r s _ t' s' _ H); try done; [unfold OWNED_ALLOCATION_PADDING; lia|by rewrite Et].
  - destruct Hrel as [-> _]. eexists. split_and!; [done| |by constructor].
    destruct (on_table_ok rest lim r s s t (release role key) None t' H Et Er Hr' eq_refl (li_paid _ _ _ _ H) eq_refl) as [_ Hi]. exact Hi.
Qed.

(** ** Releasing many *)

Definition lane_held (lane : nat) (o : Op) : Z := match roles o !! lane with Some r => role_held r | None => 0 end.

Definition lane_charge (lane : nat) (o : Op) : option Charge := m ← roles o !! lane; member_charge <$> m.

Definition charge_held (c : Charge) : Z := match c with Some l => lease_bytes l | None => 0 end.

Lemma role_charges_occupied role (t : ReservationTable Charge) :
  role_charges role t = omap (lane_charge (Role_index role)) (occupied (contents t)).
Proof.
  unfold role_charges, contents. induction (slots t) as [|[[o|] lk fn] sl IH]; [done| |exact IH].
  change (occupied (operation <$> mkSlot (Some o) lk fn :: sl)) with (o :: occupied (operation <$> sl)).
  cbn [omap list_omap operation mbind option_bind]. unfold lane_charge at 1. by rewrite <- IH.
Qed.

Lemma lane_charge_paid lane (o : Op) :
  paid o → op_shape o → ∀ c, lane_charge lane o = Some c → c = Some (mkLease (lane_held lane o)) ∧ 0 <= lane_held lane o.
Proof.
  intros Hp Ho c. unfold lane_charge, lane_held. destruct (roles o !! lane) as [[m|]|] eqn:E; simpl; [|done|done]. intros [= <-].
  unfold paid in Hp. rewrite Forall_lookup in Hp. pose proof (os_bytes _ Ho) as Hb. rewrite Forall_lookup in Hb.
  split; [exact (Hp _ _ E)|]. pose proof (Hb _ _ E) as H. unfold OWNED_ALLOCATION_PADDING. simpl in *. lia.
Qed.

Lemma lane_charges_held lane (ops : list Op) :
  Forall paid ops → Forall op_shape ops →
  zsum charge_held (omap (lane_charge lane) ops) = zsum (lane_held lane) ops ∧
  Forall (λ c, ∃ n, c = Some (mkLease n) ∧ 0 <= n) (omap (lane_charge lane) ops).
Proof.
  intros Hp Ho. induction ops as [|o ops IH]; [done|]. apply Forall_cons in Hp as [Hpo Hp], Ho as [Hoo Ho].
  destruct (IH Hp Ho) as [IH1 IH2]. pose proof (lane_charge_paid lane o Hpo Hoo) as Hc. cbn [omap list_omap].
  change (zsum (lane_held lane) (o :: ops)) with (lane_held lane o + zsum (lane_held lane) ops).
  destruct (lane_charge lane o) as [c|] eqn:E.
  - destruct (Hc c eq_refl) as [-> Hn]. change (zsum charge_held (?c :: ?l)) with (charge_held c + zsum charge_held l).
    split; [cbn [charge_held lease_bytes]; lia|]. constructor; [by eexists|done].
  - split; [|done]. rewrite IH1. unfold lane_charge in E. unfold lane_held at 2. destruct (roles o !! lane) as [[m|]|]; [done|simpl; lia|lia].
Qed.

Lemma charges_nonneg (cs : list Charge) : Forall (λ c, ∃ n, c = Some (mkLease n) ∧ 0 <= n) cs → 0 <= zsum charge_held cs.
Proof. unfold zsum. induction 1 as [|c cs (n & -> & Hn) _ IH]; simpl; lia. Qed.

Lemma drop_charges_ok (cs : list Charge) r :
  Forall (λ c, ∃ n, c = Some (mkLease n) ∧ 0 <= n) cs → zsum charge_held cs <= charged (l_pool r) → charged (l_pool r) < 2 ^ 64 →
  ∃ p, drop_charges cs r = (inr tt, mkLedgerRun p (l_allocs r) (l_ledger r)) ∧
    charged p = charged (l_pool r) - zsum charge_held cs ∧ limit p = limit (l_pool r).
Proof.
  intros Hcs. revert r. induction Hcs as [|c cs (n & -> & Hn) Hcs IH]; intros r Hle Hlt; cbn [drop_charges].
  { exists (l_pool r). split_and!; [by destruct r|unfold zsum; simpl; lia|done]. }
  change (zsum charge_held (?c :: ?l)) with (charge_held c + zsum charge_held l) in *. cbn [charge_held lease_bytes] in *.
  pose proof (charges_nonneg cs Hcs). rewrite (bind_ok _ _ _ _ _ (drop_charge_ok n r ltac:(lia) Hlt)).
  destruct (IH (mkLedgerRun (set_charged (charged (l_pool r) - n) (l_pool r)) (l_allocs r) (l_ledger r))) as (p & E & Hc & Hl);
    cbn [l_pool set_charged charged limit l_allocs l_ledger] in *; [lia|lia|]. exists p. split_and!; [done|lia|done].
Qed.

Lemma drop_lane_shape lane (o : Op) : op_shape o → (lane < ROLES)%nat → ∃ r, roles o !! lane = Some r.
Proof. intros Ho Hl. destruct (lane_taken_lookup o lane Ho Hl) as (r & Hr & _). eauto. Qed.

Lemma omap_drop_sum (f g : Op → Z) lane (ops : list Op) :
  (∀ o, all_none (roles o) = true → f o = 0) → Forall (λ o, f (put_role lane None o) = f o - g o) ops →
  zsum f (omap (drop_role lane) ops) = zsum f ops - zsum g ops.
Proof.
  intros Hf Hg. induction Hg as [|o ops Ho _ IH]; [done|]. cbn [omap list_omap]. pose proof (drop_sum f lane o Hf) as Hd.
  change (zsum f (o :: ops)) with (f o + zsum f ops). change (zsum g (o :: ops)) with (g o + zsum g ops).
  destruct (drop_role lane o) as [o'|]; unfold zsum in Hd |- *; simpl in *; unfold zsum in IH; lia.
Qed.

Lemma omap_drop_held lane (ops : list Op) :
  Forall op_shape ops → (lane < ROLES)%nat → zsum op_held (omap (drop_role lane) ops) = zsum op_held ops - zsum (lane_held lane) ops.
Proof.
  intros Ho Hl. apply omap_drop_sum; [apply all_none_held|]. eapply Forall_impl; [exact Ho|]. intros o Hs.
  destruct (drop_lane_shape lane o Hs Hl) as [r Hr]. rewrite (op_held_put _ _ _ _ Hr). unfold lane_held. rewrite Hr. simpl. lia.
Qed.

Lemma omap_drop_paid lane (ops : list Op) : Forall paid ops → Forall paid (omap (drop_role lane) ops).
Proof.
  induction 1 as [|o ops Ho _ IH]; [done|]. cbn [omap list_omap]. pose proof (drop_paid lane o Ho) as Hd.
  destruct (drop_role lane o); [|done]. constructor; [by apply Forall_cons in Hd as [? _]|done].
Qed.

Lemma release_all_h8open_ok rest lim r s :
  linv rest lim r s →
  ∃ r', release_all_h8open r = (inr tt, r') ∧ linv rest lim r' (spec_release_role H8Open s) ∧ same_config (l_ledger r) (l_ledger r').
Proof.
  intros H. unfold release_all_h8open. rewrite (bind_ok get_ledger _ _ _ _ eq_refl). destruct (table (l_ledger r)) as [t|] eqn:Et.
  2:{ exists r. pose proof (li_table _ _ _ _ H) as Ht. rewrite Et in Ht. destruct Ht as [-> _]. done. }
  pose proof (linv_table _ _ _ _ _ H Et) as Hr. destruct (release_role_refines t s H8Open Hr) as (t' & Er & Hr').
  pose proof (linv_wf _ _ _ _ H) as Hw. pose proof (shapes _ _ Hw) as Hsh.
  destruct H as [Htb Hcap Hres Hpd Hch Hrst Hlm Hlim Hwd]. rewrite Et in Htb. destruct Htb as [_ (k & Hk & Hst)].
  rewrite (held_spec _ _ _ Et Hr) in Hch. pose proof (table_charge_nonneg k Hk) as Hk0.
  assert (storage_held (l_ledger r) = k) as Hsk by (unfold storage_held; by rewrite Hst).
  destruct (lane_charges_held (Role_index H8Open) (occupied (contents t))) as [Hsum Hall];
    [by rewrite (rf_ops _ _ Hr)|by rewrite (rf_ops _ _ Hr)|]. rewrite (rf_ops _ _ Hr) in Hsum at 2.
  pose proof (omap_drop_held (Role_index H8Open) (s_ops s) Hsh (Role_index_lt H8Open)) as Hd.
  pose proof (held_nonneg _ _ (rf_wf _ _ Hr')) as Hn'. unfold spec_release_role in Hn'. cbn [with_ops s_ops] in Hn'.
  assert (on_table (Reservations.release_role H8Open) r = (inr tt, mkLedgerRun (l_pool r) (l_allocs r) (set_table (Some t') (l_ledger r)))) as E1
    by (unfold on_table; by rewrite Et, Er).
  rewrite (bind_ok _ _ _ _ _ E1), role_charges_occupied. pose proof (charges_nonneg _ Hall).
  destruct (drop_charges_ok _ (mkLedgerRun (l_pool r) (l_allocs r) (set_table (Some t') (l_ledger r))) Hall) as (p & E & Hc & Hl);
    cbn [l_pool l_allocs l_ledger] in *; [lia|lia|]. rewrite E. eexists. split_and!; [done| |by constructor].
  constructor; cbn [l_pool l_allocs l_ledger set_table table table_storage reserver spec_release_role with_ops s_ops s_capacity]; try done;
    [split; [done|by exists k]|by apply omap_drop_paid| |lia|lia].
  erewrite (held_spec (set_table (Some t') (l_ledger r))); [|reflexivity|exact Hr'].
  change (storage_held (set_table (Some t') (l_ledger r))) with (storage_held (l_ledger r)). cbn [spec_release_role with_ops s_ops]. lia.
Qed.

Lemma ledger_drop_ok rest lim r s :
  linv rest lim r s → ∃ r', ledger_drop r = (inr tt, r') ∧ charged (l_pool r') = rest ∧ limit (l_pool r') = lim.
Proof.
  intros H. unfold ledger_drop. rewrite (bind_ok get_ledger _ _ _ _ eq_refl). destruct (table (l_ledger r)) as [t|] eqn:Et.
  2:{ pose proof (li_table _ _ _ _ H) as Ht. rewrite Et in Ht. destruct Ht as [_ Hst]. rewrite Hst.
      exists r. pose proof (li_charged _ _ _ _ H) as Hc. unfold ledger_held in Hc. rewrite Et in Hc.
      rewrite (bind_ok (mret tt) _ _ _ _ eq_refl). split_and!; [done|lia|apply H]. }
  pose proof (linv_table _ _ _ _ _ H Et) as Hr. pose proof (shapes _ _ (linv_wf _ _ _ _ H)) as Hsh.
  destruct H as [Htb Hcap Hres Hpd Hch Hrst Hlm Hlim Hwd]. rewrite Et in Htb. destruct Htb as [_ (k & Hk & Hst)].
  rewrite (held_spec _ _ _ Et Hr) in Hch. pose proof (table_charge_nonneg k Hk) as Hk0.
  assert (storage_held (l_ledger r) = k) as Hsk by (unfold storage_held; by rewrite Hst).
  pose proof (λ lane, lane_charges_held lane (occupied (contents t)) ltac:(by rewrite (rf_ops _ _ Hr)) ltac:(by rewrite (rf_ops _ _ Hr))) as Hlanes.
  assert (zsum charge_held (concat ((λ role, role_charges role t) <$> Role_ALL)) = zsum op_held (s_ops s)) as Hsum.
  { unfold Role_ALL. cbn [fmap list_fmap concat]. rewrite !zsum_app, !role_charges_occupied, !(proj1 (Hlanes _)), !(rf_ops _ _ Hr).
    change (zsum charge_held []) with 0. clear -Hsh. induction Hsh as [|[al rs] ops Ho _ IH]; [done|].
    repeat match goal with |- context [zsum ?f (?o :: ops)] => change (zsum f (o :: ops)) with (f o + zsum f ops) end.
    rewrite <- IH. pose proof (os_roles _ Ho) as Hl. cbn [roles] in Hl.
    destruct rs as [|r0 [|r1 [|r2 [|r3 [|r4 [|? ?]]]]]]; try discriminate Hl. unfold op_held, lane_held, zsum. simpl. lia. }
  assert (Forall (λ c, ∃ n, c = Some (mkLease n) ∧ 0 <= n) (concat ((λ role, role_charges role t) <$> Role_ALL))) as Hall.
  { unfold Role_ALL. cbn [fmap list_fmap concat]. rewrite !role_charges_occupied. repeat (apply Forall_app; split); try apply (proj2 (Hlanes _)). done. }
  pose proof (charges_nonneg _ Hall). destruct (drop_charges_ok _ r Hall) as (p & E & Hc & Hl); [lia|lia|]. rewrite (bind_ok _ _ _ _ _ E), Hst.
  rewrite drop_charge_ok by (cbn [l_pool]; lia). eexists. split_and!; [done|cbn [l_pool set_charged charged]; lia|cbn [l_pool set_charged limit]; lia].
Qed.
End Account.
