(* ===== verification/LedgerProps.v ===== *)
(** * Histories of the staging ledger

    Every public method of [src/semantics_objects/journal/ledger.rs] as a call on a ledger
    whose pool is also used by the rest of the capture.  Over every sequence of calls the
    pool's account is exact and nothing panics, the ceilings hold, and association
    tickets are never issued twice. *)
From S2P Require Import Prelude Reservations ReservationState ReservationSpec ReservationRefine ReservationProps Pool Ledger LedgerInv.

Create HintDb ledger.

Section History.
Context {layout : SlotLayout}.

(** ** What a method keeps *)

Record good (rest lim : Z) (r : LedgerRun) (s : Ref) : Prop := mkGood {
  go_inv : linv rest lim r s;
  go_bounded : bounded (l_ledger r) s;
  go_ticketed : ticketed (l_ledger r) s;
}.

(** [m] does not panic, keeps the account and never takes a ticket back. *)
Definition keeps {A} (m : Ledger A) : Prop := ∀ rest lim r s,
  good rest lim r s →
  ∃ a r' s', m r = (a, r') ∧ a ≠ inl LedgerPanic ∧ good rest lim r' s' ∧ next_keyassoc (l_ledger r) <= next_keyassoc (l_ledger r').

Lemma keeps_ret {A} (a : A) : keeps (mret a).
Proof. intros rest lim r s H. exists (inr a), r, s. split_and!; try done; lia. Qed.

Lemma keeps_refuse {A} e : keeps (ledger_refuse e : Ledger A).
Proof. intros rest lim r s H. exists (inl (LedgerRefuse e)), r, s. split_and!; try done; lia. Qed.

Lemma keeps_some {A} e (o : option A) : keeps (se_some (LedgerRefuse e) o).
Proof. destruct o; [apply keeps_ret|apply keeps_refuse]. Qed.

Lemma keeps_get : keeps get_ledger.
Proof. intros rest lim r s H. exists (inr (l_ledger r)), r, s. split_and!; try done; lia. Qed.

Lemma keeps_bind {A B} (m : Ledger A) (k : A → Ledger B) : keeps m → (∀ a, keeps (k a)) → keeps (m ≫= k).
Proof.
  intros Hm Hk rest lim r s H. destruct (Hm _ _ _ _ H) as ([e|a] & r1 & s1 & E1 & Ha & H1 & Hle).
  - exists (inl e), r1, s1. rewrite (bind_err _ _ _ _ _ E1). split_and!; try done. congruence.
  - rewrite (bind_ok _ _ _ _ _ E1). destruct (Hk a _ _ _ _ H1) as (b & r2 & s2 & E2 & Hb & H2 & Hle2). exists b, r2, s2. split_and!; try done. lia.
Qed.

Lemma keeps_raw n : keeps (modify_ledger (set_next_raw n)).
Proof.
  intros rest lim r s [Hi Hb Ht]. eexists (inr tt), _, s. split_and!; [done|done| |simpl; lia]. constructor; [|done|done].
  destruct Hi. by constructor.
Qed.

Lemma keeps_query {A} (otherwise : A) (m : Table Charge A) :
  (∀ t s, refines t s → ∃ a, m t = (inr a, t)) → keeps (read_table otherwise m).
Proof.
  intros Hm rest lim r s H. unfold read_table. rewrite (bind_ok get_ledger _ _ _ _ eq_refl).
  destruct (table (l_ledger r)) as [t|] eqn:Et; [|exact (keeps_ret otherwise rest lim r s H)].
  destruct (Hm t s (linv_table _ _ _ _ _ (go_inv _ _ _ _ H) Et)) as [a Ha]. exists (inr a), r, s.
  rewrite (on_table_read _ _ _ _ Et Ha). split_and!; try done; lia.
Qed.

(** ** Charges *)

Lemma zsum_shapes (f : Op → Z) (ops : list Op) : (∀ o, op_shape o → 0 <= f o) → Forall op_shape ops → 0 <= zsum f ops.
Proof. intros Hf Hs. unfold zsum. induction Hs as [|o l Ho _ IH]; simpl; [done|]. specialize (Hf o Ho). lia. Qed.

(** The bytes that an insertion of [n] adds beyond those that it makes double. *)
Lemma bounded_insert n credit l (s s' : Ref) :
  ops_wf (s_next s) (s_ops s) → 0 <= n → bounded l s →
  0 <= credit <= spec_bytes (s_ops s) → saturating_sub (spec_bytes (s_ops s)) credit + n <= byte_limit l →
  spec_bytes (s_ops s') = spec_bytes (s_ops s) + n →
  zsum overlap (s_ops s) + Z.min credit n <= zsum overlap (s_ops s') → bounded l s'.
Proof.
  intros Hw Hn Hb Hc Hl Hsb Ho. unfold bounded, saturating_sub in *.
  pose proof (zsum_shapes overlap (s_ops s) overlap_nonneg (shapes _ _ Hw)). lia.
Qed.

Lemma ticketed_keys l l' s s' :
  ticketed l s → next_keyassoc l' = next_keyassoc l →
  (∀ k, (Role_index Association, k) ∈ keys (s_ops s') → (Role_index Association, k) ∈ keys (s_ops s)) → ticketed l' s'.
Proof. intros [Hw Ht] E Hk. split; [by rewrite E|]. intros k Hin. rewrite E. by apply Ht, Hk. Qed.

Lemma bounded_config l l' s : bounded l s → same_config l l' → bounded l' s.
Proof. intros Hb [_ _ _ _ E]. unfold bounded in *. by rewrite E. Qed.

Lemma keeps_charge_role role key existing n : role ≠ Association → 0 <= n → keeps (charge_role role key existing n).
Proof.
  intros Hrole Hn rest lim r s [Hi Hb Ht]. unfold charge_role.
  destruct (charge_role_with_credit_ok rest lim r s role key existing n 0 Hi Hn) as (a & r' & E & Hc & Ha).
  destruct a as [[e|]|id]; [|done|].
  { exists (inl (LedgerRefuse e)), r', s. split_and!; [done|done| |rewrite (sc_keyassoc _ _ Hc); lia].
    constructor; [done|by eapply bounded_config|by eapply ticketed_keys; [| apply Hc|]]. }
  destruct Ha as (s' & Hs & Hi' & Hlim). exists (inr id), r', s'. split_and!; [done|done| |rewrite (sc_keyassoc _ _ Hc); lia].
  pose proof (linv_wf _ _ _ _ Hi) as Hw. destruct (spec_insert_held _ _ _ _ _ _ _ Hw (li_paid _ _ _ _ Hi) Hs) as (_ & _ & Hsb).
  constructor; [done| |].
  - eapply bounded_config; [|exact Hc]. apply (bounded_insert n 0 _ s); try done.
    + pose proof (spec_bytes_nonneg _ _ Hw). lia.
    + pose proof (spec_insert_overlap _ _ _ _ _ _ _ _ Hw Hn Hs). lia.
  - eapply ticketed_keys; [exact Ht|apply Hc|]. intros k Hin. rewrite (spec_insert_keys _ _ _ _ _ _ _ _ Hw Hs) in Hin.
    apply elem_of_cons in Hin as [Hk|Hin]; [|done]. exfalso. apply (f_equal fst) in Hk. by apply (Role_index_inj Association role) in Hk.
Qed.

Lemma keeps_release_role role key : keeps (release_role role key).
Proof.
  intros rest lim r s [Hi Hb Ht]. destruct (release_role_ok rest lim r s role key Hi) as (r' & E & Hi' & Hc).
  exists (inr tt), r', (spec_release role key s).2. split_and!; [done|done| |rewrite (sc_keyassoc _ _ Hc); lia].
  destruct (spec_release_held role key s (linv_wf _ _ _ _ Hi) (li_paid _ _ _ _ Hi)) as (_ & _ & Hrel).
  constructor; [done|eapply bounded_config; [|exact Hc]|eapply ticketed_keys; [exact Ht|apply Hc|]].
  - destruct (spec_release role key s) as [[[b ch]|] s']; cbn [fst snd] in *; [|by destruct Hrel as [-> _]].
    destruct Hrel as (_ & _ & _ & Hsb & Ho & _). unfold bounded in *. lia.
  - intros k Hin. destruct (spec_release role key s) as [[[b ch]|] s']; cbn [fst snd] in *; [|by destruct Hrel as [-> _]].
    destruct Hrel as (_ & _ & _ & _ & _ & Hk). rewrite Hk. by right.
Qed.

Lemma overlap_lane lane r (o : Op) :
  lane ≠ Role_index H9Staged → lane ≠ Role_index Association → (lane < length (roles o))%nat → overlap (put_role lane r o) = overlap o.
Proof. intros H1 H2 Hl. unfold overlap. rewrite !lane_bytes_put by done. by repeat case_decide. Qed.

Lemma keys_drop_lane lane (ops : list Op) k : k ∈ keys (omap (drop_role lane) ops) → k ∈ keys ops.
Proof.
  unfold keys. induction ops as [|o ops IH]; [done|]. cbn [omap list_omap fmap list_fmap concat]. rewrite elem_of_app.
  destruct (drop_role lane o) as [o'|] eqn:E; [|by auto]. cbn [fmap list_fmap concat]. rewrite elem_of_app. intros [Hin|Hin]; [left|by auto].
  unfold drop_role in E. destruct (all_none _); [done|]. injection E as <-. destruct (roles o !! lane) as [[m|]|] eqn:El.
  - rewrite (drop_role_keys _ _ _ El). by right.
  - by rewrite drop_absent in Hin.
  - unfold op_keys, put_role in Hin. simpl in Hin. by rewrite list_insert_ge in Hin by (by apply lookup_ge_None_1).
Qed.

Lemma keeps_release_all : keeps release_all_h8open.
Proof.
  intros rest lim r s [Hi Hb Ht]. destruct (release_all_h8open_ok rest lim r s Hi) as (r' & E & Hi' & Hc).
  exists (inr tt), r', (spec_release_role H8Open s). split_and!; [done|done| |rewrite (sc_keyassoc _ _ Hc); lia].
  pose proof (shapes _ _ (linv_wf _ _ _ _ Hi)) as Hsh.
  assert (Forall (λ o : Op, (Role_index H8Open < length (roles o))%nat) (s_ops s)) as Hlen
    by (eapply Forall_impl; [exact Hsh|]; intros o Ho; rewrite (os_roles _ Ho); apply Role_index_lt).
  constructor; [done|eapply bounded_config; [|exact Hc]|eapply ticketed_keys; [exact Ht|apply Hc|]].
  - unfold bounded in *. cbn [spec_release_role with_ops s_ops]. unfold spec_bytes at 1.
    rewrite (omap_drop_sum op_bytes (lane_bytes (Role_index H8Open))) by
      first [intros o; apply all_none_bytes|eapply Forall_impl; [exact Hlen|]; intros o [x Hx]%lookup_lt_is_Some; rewrite (op_bytes_put _ _ _ _ Hx); unfold lane_bytes; rewrite Hx; simpl; lia].
    rewrite (omap_drop_sum overlap (λ _, 0)) by
      first [apply all_none_overlap|eapply Forall_impl; [exact Hlen|]; intros o Ho; rewrite overlap_lane by done; lia].
    pose proof (zsum_shapes (lane_bytes (Role_index H8Open)) (s_ops s) (lane_bytes_nonneg _) Hsh).
    pose proof (zsum_bounds (λ _ : Op, 0) 0 0 (s_ops s) ltac:(lia)). unfold spec_bytes in Hb. lia.
  - intros k. apply keys_drop_lane.
Qed.

(** ** Minting *)

(** The staged operation that a mint joins is the one its credit is read from. *)
Lemma staged_operation (s : Ref) key id (o : Op) l :
  ops_wf (s_next s) (s_ops s) → spec_reservation H9Staged key s = Some id → take_op (has_alias id) (s_ops s) = Some (o, l) →
  default 0 (spec_member_bytes H9Staged key s) = lane_bytes (Role_index H9Staged) o.
Proof.
  intros Hw Hres Hta. unfold spec_reservation in Hres. unfold spec_member_bytes.
  destruct (take_op (has_key (Role_index H9Staged) key) (s_ops s)) as [[o1 l1]|] eqn:E; [|done]. injection Hres as Hid.
  apply take_op_Some in E as [Hp1 Hk1], Hta as [Hp Ha]. pose proof (shapes _ _ Hw) as Hsh. rewrite Hp1 in Hsh. apply Forall_cons in Hsh as [Ho1 _].
  assert (has_alias id o1 = true) as Ha1.
  { apply bool_decide_eq_true_2. rewrite <- Hid. apply (list_elem_of_lookup_2 _ 0). by apply head_alias_lookup. }
  assert (o1 ∈ o :: l) as Hin by (rewrite <- Hp, Hp1; left). apply elem_of_cons in Hin as [->|Hin].
  - apply has_key_member in Hk1 as (m & Hm & _). unfold lane_bytes. cbn [mbind option_bind]. by rewrite Hm.
  - exfalso. apply elem_of_Permutation in Hin as [l' Hl']. eapply (unique_id _ _ id Hw o o1 l'); [|done|done]. by rewrite Hp, Hl'.
Qed.

Lemma member_bytes_range (s : Ref) role key : ops_wf (s_next s) (s_ops s) → 0 <= default 0 (spec_member_bytes role key s) <= spec_bytes (s_ops s).
Proof.
  intros Hw. unfold spec_member_bytes. pose proof (spec_bytes_nonneg _ _ Hw) as H0. destruct (take_op _ _) as [[o l]|] eqn:E; [|simpl; lia].
  apply take_op_Some in E as [Hp Hk]. apply has_key_member in Hk as (m & Hm & _). cbn [mbind option_bind]. rewrite Hm. cbn.
  pose proof (shapes _ _ Hw) as Hsh. rewrite Hp in Hsh, Hw. apply Forall_cons in Hsh as [Ho _]. apply ops_wf_cons in Hw as [[_ Hl _ _ _ _ _] _].
  unfold spec_bytes. rewrite Hp. change (zsum op_bytes (o :: l)) with (op_bytes o + spec_bytes l). pose proof (spec_bytes_nonneg _ _ Hl).
  pose proof (op_bytes_put _ None _ _ Hm) as Hput. cbn [role_bytes] in Hput.
  pose proof (role_bytes_nonneg _ (put_role_shape (Role_index role) None o Ho ltac:(done))).
  pose proof (os_bytes _ Ho) as Hb. rewrite Forall_lookup in Hb. pose proof (Hb _ _ Hm) as Hm0. simpl in Hm0. lia.
Qed.

Lemma mint_overlap key existing n ch (s s' : Ref) id credit :
  ops_wf (s_next s) (s_ops s) → 0 <= n → spec_insert Association key existing n ch s = (inr id, s') →
  match existing with
  | Some i => ∃ k, spec_reservation H9Staged k s = Some i ∧ credit = default 0 (spec_member_bytes H9Staged k s)
  | None => credit = 0
  end → zsum overlap (s_ops s) + Z.min credit n <= zsum overlap (s_ops s').
Proof.
  intros Hw Hn Hs Hc. destruct existing as [i|]; [|pose proof (spec_insert_overlap _ _ _ _ _ _ _ _ Hw Hn Hs); lia].
  destruct Hc as (k & Hres & ->). destruct (spec_insert_ops _ _ _ _ _ _ _ _ Hw Hs) as (_ & _ & o & l & Hops & Hl & He).
  rewrite (staged_operation s k i o l Hw Hres He). apply take_op_Some in He as [Hp _]. rewrite Hops, Hp.
  change (zsum overlap (?x :: l)) with (overlap x + zsum overlap l). assert (Role_index Association < length (roles o))%nat as Hlen
    by (by eapply lookup_lt_Some). unfold overlap. rewrite !lane_bytes_put by done. cbn [Role_index decide].
  pose proof (shapes _ _ Hw) as Hsh. rewrite Hp in Hsh. apply Forall_cons in Hsh as [Ho _].
  assert (lane_bytes 4 o = 0) as Hz by (unfold lane_bytes; change (roles o !! 4%nat) with (roles o !! Role_index Association); by rewrite Hl). pose proof (lane_bytes_nonneg 3 o Ho).
  destruct (decide (3 = 4)%nat); [done|]. destruct (decide (4 = 4)%nat); [|done]. cbn [role_bytes member_bytes_]. lia.
Qed.

(** The charge of a mint, for the operation and the credit that its source gives. *)
Lemma mint_charge rest lim r s existing n credit :
  good rest lim r s → 0 <= n →
  match existing with
  | Some i => ∃ k, spec_reservation H9Staged k s = Some i ∧ credit = default 0 (spec_member_bytes H9Staged k s)
  | None => credit = 0
  end →
  ∃ a r', (ticket ← se_some (LedgerRefuse LedgerFull) (checked_add 64 (next_keyassoc (l_ledger r)) 1);
           charge_role_with_credit Association (scalar_key ticket) existing n credit ;;
           modify_ledger (set_next_keyassoc ticket) ;; mret ticket) r = (a, r') ∧
    match a with
    | inr t => t = next_keyassoc (l_ledger r) + 1 ∧ next_keyassoc (l_ledger r') = t ∧
        ∃ s', good rest lim r' s' ∧ keys (s_ops s') ≡ₚ (Role_index Association, scalar_key t) :: keys (s_ops s)
    | inl (LedgerRefuse _) => good rest lim r' s ∧ next_keyassoc (l_ledger r') = next_keyassoc (l_ledger r)
    | inl LedgerPanic => False
    end.
Proof.
  intros [Hi Hb Ht] Hn Hcr. destruct (checked_add 64 (next_keyassoc (l_ledger r)) 1) as [t|] eqn:Et.
  2:{ eexists _, r. split; [done|]. by split. }
  apply checked_Some in Et as [-> Hwt]. rewrite (bind_ok (se_some _ (Some _)) _ _ _ _ eq_refl). set (t := _ + 1) in *.
  destruct (charge_role_with_credit_ok rest lim r s Association (scalar_key t) existing n credit Hi Hn) as (a & r' & E & Hc & Ha).
  destruct a as [[e|]|id]; [|done|].
  { rewrite (bind_err _ _ _ _ _ E). eexists _, r'. split; [done|]. split; [|apply Hc].
    constructor; [done|by eapply bounded_config|by eapply ticketed_keys; [| apply Hc|]]. }
  rewrite (bind_ok _ _ _ _ _ E), (bind_ok (modify_ledger _) _ _ _ _ eq_refl). eexists (inr t), _. split; [done|]. split_and!; [done|done|].
  destruct Ha as (s' & Hs & Hi' & Hlim). exists s'. pose proof (linv_wf _ _ _ _ Hi) as Hw.
  destruct (spec_insert_held _ _ _ _ _ _ _ Hw (li_paid _ _ _ _ Hi) Hs) as (_ & _ & Hsb).
  pose proof (spec_insert_keys _ _ _ _ _ _ _ _ Hw Hs) as Hk. split; [|done]. constructor.
  - destruct Hi'. by constructor.
  - change (bounded (l_ledger r') s'). eapply bounded_config; [|exact Hc].
    eapply (bounded_insert n credit); try done; [|by eapply mint_overlap].
    destruct existing; [destruct Hcr as (k & _ & ->); by apply member_bytes_range|subst; pose proof (spec_bytes_nonneg _ _ Hw); lia].
  - split; [done|]. cbn [l_ledger set_next_keyassoc next_keyassoc]. intros k Hin. rewrite Hk in Hin. destruct Ht as [Hwn Ht]. unfold in_width in *.
    apply elem_of_cons in Hin as [[= ->]|Hin]; [exists t; split; [done|]; lia|]. destruct (Ht k Hin) as (t0 & -> & ?). exists t0. split; [done|lia].
Qed.

Lemma read_table_ok {A} rest lim r s (otherwise : A) (m : Table Charge A) (f : Ref → A) :
  linv rest lim r s → (∀ t s, refines t s → m t = (inr (f s), t)) → f (spec_new MAX_UNSETTLED_STAGED) = otherwise →
  read_table otherwise m r = (inr (f s), r).
Proof.
  intros H Hm H0. unfold read_table. rewrite (bind_ok get_ledger _ _ _ _ eq_refl). destruct (table (l_ledger r)) as [t|] eqn:Et.
  - by apply (on_table_read _ t), Hm, (linv_table _ _ _ _ _ H Et).
  - pose proof (li_table _ _ _ _ H) as Ht. rewrite Et in Ht. destruct Ht as [-> _]. by rewrite H0.
Qed.

Lemma mint_association_ok rest lim r s n source :
  good rest lim r s → 0 <= n →
  ∃ a r', mint_keyassoc_from_stage n source r = (a, r') ∧
    match a with
    | inr t => t = next_keyassoc (l_ledger r) + 1 ∧ next_keyassoc (l_ledger r') = t ∧
        ∃ s', good rest lim r' s' ∧ keys (s_ops s') ≡ₚ (Role_index Association, scalar_key t) :: keys (s_ops s)
    | inl (LedgerRefuse _) => good rest lim r' s ∧ next_keyassoc (l_ledger r') = next_keyassoc (l_ledger r)
    | inl LedgerPanic => False
    end.
Proof.
  intros H Hn. unfold mint_keyassoc_from_stage. rewrite (bind_ok get_ledger _ _ _ _ eq_refl). pose proof (go_inv _ _ _ _ H) as Hi.
  destruct source as [src|].
  2:{ rewrite (bind_ok (mret _) _ _ _ _ eq_refl). by apply (mint_charge _ _ _ s None n 0). }
  pose proof (read_table_ok _ _ _ _ None (reservation H9Staged (staged_key src)) (spec_reservation H9Staged (staged_key src)) Hi
    (λ t s, reservation_refines t s _ _) eq_refl) as E1.
  pose proof (read_table_ok _ _ _ _ None (member_bytes H9Staged (staged_key src)) (spec_member_bytes H9Staged (staged_key src)) Hi
    (λ t s, member_bytes_refines t s _ _) eq_refl) as E2.
  destruct (bool_decide (ledger_generation (l_ledger r) = Some (staged_generation src)) && bool_decide (spec_reservation H9Staged (staged_key src) s = Some (staged_id src))) eqn:Eg.
  - erewrite bind_ok.
    2:{ rewrite (bind_ok _ _ _ _ _ E1), Eg, (bind_ok _ _ _ _ _ E2). reflexivity. }
    apply andb_true_iff in Eg as [_ Eg%bool_decide_eq_true]. cbn [fst snd].
    apply (mint_charge _ _ _ s (Some (staged_id src))); try done. by exists (staged_key src).
  - erewrite bind_err.
    2:{ rewrite (bind_ok _ _ _ _ _ E1), Eg. reflexivity. }
    eexists _, r. split; [done|]. by split.
Qed.

Lemma keeps_mint n source : 0 <= n → keeps (mint_keyassoc_from_stage n source).
Proof.
  intros Hn rest lim r s H. destruct (mint_association_ok rest lim r s n source H Hn) as (a & r' & E & Ha). exists a, r'.
  destruct a as [[e|]|t]; [exists s|done|].
  - destruct Ha as [Ha Hnext]. split_and!; try done. lia.
  - destruct Ha as (-> & Hnext & s' & Hg & _). exists s'. split_and!; try done. lia.
Qed.

(** ** Calls *)

Inductive Call :=
| ReserveRaw (tag : Z)
| ReleaseRaw (reservation : ExistingReservation)
| ChargeOpenFromRaw (ordinal n : Z) (reservation : ExistingReservation)
| ChargeModelFromOpen (token n : Z) (reservation : ExistingReservation)
| ChargeStaged (ticket n : Z)
| ChargeCollected (native ticket n : Z) (origin : option JointResourceOrigin)
| ReleaseCollected (native ticket : Z)
| ReleaseStaged (ticket : Z)
| ChargeOpen (ordinal n : Z)
| ReleaseOpen (ordinal : Z)
| ReleaseAllOpen
| ChargeModel (token n : Z)
| ReleaseModel (token : Z)
| ChargeDeferred (token n : Z)
| ReleaseDeferred (token : Z)
| MintAssociation (n : Z) (source : option StagedResourceOrigin)
| ReleaseAssociation (ticket : Z)
| AskReleased (reservation : ExistingReservation)
| AskOpen (ordinal : Z)
| AskOriginal (begin : Z) (original : ExistingReservation) (staged : option RoleKey)
| AskCompleted (begin domain admission : Z) (staged : StagedResourceOrigin).

(** A byte count is unsigned. *)
Definition call_fits (c : Call) : Prop :=
  match c with
  | ChargeOpenFromRaw _ n _ | ChargeModelFromOpen _ n _ | ChargeStaged _ n | ChargeCollected _ _ n _ | ChargeOpen _ n
  | ChargeModel _ n | ChargeDeferred _ n | MintAssociation n _ => 0 <= n
  | _ => True
  end.

Definition perform (c : Call) : Ledger () :=
  match c with
  | ReserveRaw tag => reserve_raw tag ;; mret tt
  | ReleaseRaw reservation => release_raw reservation
  | ChargeOpenFromRaw ordinal n reservation => charge_h8open_from_raw ordinal n reservation
  | ChargeModelFromOpen token n reservation => charge_model_from_open token n reservation
  | ChargeStaged ticket n => charge ticket n
  | ChargeCollected native ticket n origin => charge_collected native ticket n origin ;; mret tt
  | ReleaseCollected native ticket => release_collected native ticket
  | ReleaseStaged ticket => release_staged ticket
  | ChargeOpen ordinal n => charge_h8open ordinal n
  | ReleaseOpen ordinal => release_h8open ordinal
  | ReleaseAllOpen => release_all_h8open
  | ChargeModel token n => charge_model token n
  | ReleaseModel token => release_model token
  | ChargeDeferred token n => charge_deferred token n
  | ReleaseDeferred token => release_deferred token
  | MintAssociation n source => mint_keyassoc_from_stage n source ;; mret tt
  | ReleaseAssociation ticket => release_keyassoc ticket
  | AskReleased reservation => original_is_released reservation ;; mret tt
  | AskOpen ordinal => h8_reservation ordinal ;; mret tt
  | AskOriginal begin original staged => matches_unconverted_original begin original staged ;; mret tt
  | AskCompleted begin domain admission staged => matches_completed_staging begin domain admission staged ;; mret tt
  end.

#[local] Hint Resolve keeps_ret keeps_refuse keeps_some keeps_get keeps_raw keeps_release_role keeps_release_all keeps_mint : ledger.
#[local] Hint Extern 2 (keeps (charge_role _ _ _ _)) => apply keeps_charge_role; [discriminate|first [done|lia]] : ledger.
#[local] Hint Extern 2 (keeps (read_table _ _)) => apply keeps_query; intros t s Hr; eexists;
  first [by apply released_refines|by apply reservation_refines|by apply unconverted_original_refines|by apply unconverted_staging_refines] : ledger.

Ltac keeps := repeat first
  [ solve [auto with ledger]
  | apply keeps_bind; [|intros ?]
  | match goal with |- keeps (match ?x with _ => _ end) => destruct x end ].

Lemma checked_existing_keeps reservation : keeps (checked_existing reservation).
Proof. unfold checked_existing. keeps. Qed.
#[local] Hint Resolve checked_existing_keeps : ledger.

Lemma perform_keeps c : call_fits c → keeps (perform c).
Proof.
  intros Hc. destruct c; cbn [perform call_fits] in *;
    unfold reserve_raw, release_raw, charge_h8open_from_raw, charge_model_from_open, charge, charge_collected, release_collected,
      release_staged, charge_h8open, release_h8open, charge_model, release_model, charge_deferred, release_deferred, release_keyassoc,
      original_is_released, h8_reservation, matches_unconverted_original, matches_completed_staging; keeps.
Qed.

(** ** A ledger among the other users of its pool *)

(** [outside] are the leases that the rest of the capture holds. *)
Record Capture := mkCapture {
  ledger_run : LedgerRun;
  outside : list ResourceLease;
}.

Inductive Event :=
| Do (c : Call)
| Borrow (n : Z)
| Return (i : nat).

Definition event_fits (e : Event) : Prop := match e with Do c => call_fits c | Borrow n => 0 <= n | Return _ => True end.

(** [None] is a panic. *)
Definition capture_step (w : Capture) (e : Event) : option Capture :=
  let r := ledger_run w in
  match e with
  | Do c => match perform c r with (inl LedgerPanic, _) => None | (_, r) => Some (mkCapture r (outside w)) end
  | Borrow n =>
      let '(a, p) := acquire n (l_pool r) in
      Some (mkCapture (mkLedgerRun p (l_allocs r) (l_ledger r)) (match a with Ok lease => lease :: outside w | Err _ => outside w end))
  | Return i =>
      match outside w !! i with
      | None => Some w
      | Some lease =>
          p ← lease_drop lease (l_pool r);
          Some (mkCapture (mkLedgerRun p (l_allocs r) (l_ledger r)) (delete i (outside w)))
      end
  end.

Definition capture_run (w : Capture) (es : list Event) : option Capture := foldl (λ w e, w ← w; capture_step w e) (Some w) es.

Definition capture_new (p : SharedPool) (allocs : list bool) (last : Z) : Capture :=
  mkCapture (mkLedgerRun p allocs (ledger_with_resources last).1) [].

Definition others (w : Capture) : Z := SEMANTIC_TRANSITION_SCRATCH + zsum lease_bytes (outside w).

Definition capture_ok (lim : Z) (w : Capture) : Prop :=
  (∃ s, good (others w) lim (ledger_run w) s) ∧ Forall (λ l, 0 <= lease_bytes l) (outside w).

Lemma good_rest rest rest' lim r s p al :
  good rest lim r s → charged p = charged (l_pool r) - rest + rest' → 0 <= rest' → charged p <= lim → limit p = lim →
  good rest' lim (mkLedgerRun p al (l_ledger r)) s.
Proof. intros [[] Hb Ht] Hc Hr Hl El. constructor; [|done|done]. constructor; cbn [l_pool l_ledger]; try done. lia. Qed.

Lemma leases_nonneg (ls : list ResourceLease) : Forall (λ l, 0 <= lease_bytes l) ls → 0 <= zsum lease_bytes ls.
Proof. unfold zsum. induction 1; simpl; lia. Qed.

Lemma delete_lease (ls : list ResourceLease) i l : ls !! i = Some l → zsum lease_bytes ls = lease_bytes l + zsum lease_bytes (delete i ls).
Proof. intros Hi. by rewrite (delete_Permutation _ _ _ Hi) at 1. Qed.

(** A step panics on no account, and leaves the tickets where they are or ahead. *)
Lemma capture_step_ok lim w e :
  capture_ok lim w → event_fits e →
  ∃ w', capture_step w e = Some w' ∧ capture_ok lim w' ∧
    next_keyassoc (l_ledger (ledger_run w)) <= next_keyassoc (l_ledger (ledger_run w')).
Proof.
  intros [[s H] Ho] He. destruct e as [c|n|i]; cbn [capture_step event_fits] in *.
  - destruct (perform_keeps c He _ _ _ _ H) as (a & r' & s' & E & Ha & H' & Hle). rewrite E.
    destruct a as [[e|]|a]; [|done|]; (eexists; split_and!; [done| |done]); (split; [by exists s'|done]).
  - pose proof (ledger_held_nonneg _ _ _ _ (go_inv _ _ _ _ H)) as Hh. pose proof (go_inv _ _ _ _ H) as [_ _ _ _ Hc Hr Hl El Hw].
    destruct (acquire_ok n (l_pool (ledger_run w))) as [[Hle E]|(Hgt & x & E)]; [done|lia|lia| |]; rewrite E;
      (eexists; split_and!; [done| |done]); (split; [exists s|]); cbn [ledger_run outside]; try done.
    + eapply (good_rest (others w)); [exact H|..]; cbn [charged limit]; unfold others in *; cbn [outside zsum foldr lease_bytes] in *; unfold zsum in *; lia.
    + by constructor.
    + eapply (good_rest (others w)); [exact H|..]; cbn [charged limit]; unfold others in *; cbn [outside]; lia.
  - destruct (outside w !! i) as [[b]|] eqn:Ei; [|exists w; split_and!; [done|split; [by exists s|done]|lia]].
    pose proof (ledger_held_nonneg _ _ _ _ (go_inv _ _ _ _ H)) as Hh. pose proof (go_inv _ _ _ _ H) as [_ _ _ _ Hc Hr Hl El Hw].
    pose proof (delete_lease _ _ _ Ei) as Hd. assert (Forall (λ l, 0 <= lease_bytes l) (delete i (outside w))) as Ho' by by apply Forall_delete.
    pose proof (leases_nonneg _ Ho') as Hn'. rewrite Forall_lookup in Ho. pose proof (Ho _ _ Ei) as Hb. cbn [lease_bytes] in *.
    unfold others in *. unfold SEMANTIC_TRANSITION_SCRATCH in *. rewrite lease_drop_ok by lia. eexists. split_and!; [done| |done].
    split; [exists s|done]. cbn [ledger_run outside]. eapply good_rest; [exact H|..]; unfold others, SEMANTIC_TRANSITION_SCRATCH; cbn [charged set_charged limit outside]; lia.
Qed.

Lemma capture_run_cons w e es : capture_run w (e :: es) = capture_step w e ≫= λ w, capture_run w es.
Proof. unfold capture_run. simpl. destruct (capture_step w e) as [w'|]; [done|]. simpl. induction es; simpl; auto. Qed.

Lemma capture_run_ok lim es w :
  capture_ok lim w → Forall event_fits es →
  ∃ w', capture_run w es = Some w' ∧ capture_ok lim w' ∧
    next_keyassoc (l_ledger (ledger_run w)) <= next_keyassoc (l_ledger (ledger_run w')).
Proof.
  intros H He. revert w H. induction He as [|e es Hf He IH]; intros w H; [exists w; split_and!; [done..|lia]|].
  destruct (capture_step_ok lim w e H Hf) as (w1 & E1 & H1 & Hle1). destruct (IH w1 H1) as (w2 & E2 & H2 & Hle2).
  exists w2. rewrite capture_run_cons, E1. split_and!; [exact E2|done|lia].
Qed.

Lemma capture_new_ok lim p allocs last : pool_new lim = Some p → lim < 2 ^ 64 → capture_ok lim (capture_new p allocs last).
Proof.
  intros Hp Hw. unfold pool_new in Hp. destruct (lim <? SEMANTIC_TRANSITION_SCRATCH) eqn:E; [done|]. injection Hp as <-. apply Z.ltb_ge in E.
  split; [exists (spec_new MAX_UNSETTLED_STAGED)|constructor]. unfold others. cbn [capture_new outside]. constructor.
  - constructor; cbn; try done; unfold SEMANTIC_TRANSITION_SCRATCH in *; lia.
  - unfold bounded. cbn. unfold SEMANTIC_RESOURCE_LIMIT. lia.
  - split; [cbn; unfold in_width; lia|]. cbn. set_solver.
Qed.

(** ** Theorems *)

Section Theorems.
Context (lim : Z) (p : SharedPool) (Hp : pool_new lim = Some p) (Hlim : lim < 2 ^ 64) (allocs : list bool) (last : Z).

(** C7: Whatever is charged, joined, minted and released, in any order, refused or not, and
    whatever else is borrowed from the pool, no assertion of the ledger, its table or the
    pool fails.  The pool's charge is exactly what the others hold and, for the ledger,
    its table and each membership with its padding; dropping the ledger gives all of that
    back. *)
Theorem ledger_account_exact es :
  Forall event_fits es →
  ∃ w, capture_run (capture_new p allocs last) es = Some w ∧
    charged (l_pool (ledger_run w)) = others w + ledger_held (l_ledger (ledger_run w)) ∧
    charged (l_pool (ledger_run w)) <= lim ∧
    ∃ r, ledger_drop (ledger_run w) = (inr tt, r) ∧ charged (l_pool r) = others w.
Proof.
  intros He. destruct (capture_run_ok lim es _ (capture_new_ok lim p allocs last Hp Hlim) He) as (w & E & [[s Hg] _] & _).
  exists w. pose proof (go_inv _ _ _ _ Hg) as Hi. destruct (ledger_drop_ok _ _ _ _ Hi) as (r & Er & Hr & _).
  split_and!; [done|apply Hi|apply Hi|by exists r].
Qed.

Context (es : list Event) (Hes : Forall event_fits es) (w : Capture) (Hw : capture_run (capture_new p allocs last) es = Some w).

Lemma capture_reached : capture_ok lim w.
Proof.
  destruct (capture_run_ok lim es _ (capture_new_ok lim p allocs last Hp Hlim) Hes) as (w' & E & Hok & _). rewrite Hw in E. by injection E as <-.
Qed.

(** The bytes of operations that hold both the staged and the association copy of a replayed call. *)
Definition duplicated (l : StagingLedger) : Z :=
  match table l with Some t => zsum overlap (occupied (contents t)) | None => 0 end.

(** C27: A ledger never has more than 1,024 operations, and the bytes it charges exceed its
    limit by no more than the copies of calls that are between the mint of their
    association and the release of their staged payload. *)
Theorem ledger_ceilings :
  let l := l_ledger (ledger_run w) in
  0 <= census l <= 1024 ∧ reservation_room l = 1024 - census l ∧ 0 <= charged_bytes l <= byte_limit l + duplicated l.
Proof.
  intros l. destruct capture_reached as [[s [Hi Hb _]] _]. pose proof (li_table _ _ _ _ Hi) as Ht. fold l in Ht, Hb.
  unfold reservation_room, saturating_sub, census, charged_bytes, duplicated. unfold bounded in Hb.
  destruct (table l) as [t|] eqn:Et.
  - destruct Ht as [Hr _]. rewrite (rf_live _ _ Hr), (rf_bytes _ _ Hr), (rf_ops _ _ Hr). pose proof (refines_room _ _ Hr) as Hroom.
    rewrite (li_capacity _ _ _ _ Hi) in Hroom. pose proof (spec_bytes_nonneg _ _ (rf_wf _ _ Hr)). unfold MAX_UNSETTLED_STAGED in *. lia.
  - destruct Ht as [-> _]. unfold MAX_UNSETTLED_STAGED. cbn in Hb |- *. lia.
Qed.

(** C26: Association tickets are never issued twice, whether they were released or not: a
    ticket minted after any further calls is greater.  A mint makes exactly its own ticket
    live, and a ticket is a 64-bit number from 1. *)
Theorem association_tickets_unique n source t r es' w' n' source' t' r' :
  0 <= n → 0 <= n' → Forall event_fits es' →
  mint_keyassoc_from_stage n source (ledger_run w) = (inr t, r) →
  capture_run (mkCapture r (outside w)) es' = Some w' →
  mint_keyassoc_from_stage n' source' (ledger_run w') = (inr t', r') →
  1 <= t < t' ∧ t' < 2 ^ 64.
Proof.
  intros Hn Hn' Hf E E' E2. destruct capture_reached as [[s Hg] Ho].
  destruct (mint_association_ok _ _ _ _ n source Hg Hn) as (a & r1 & E1 & Ha). rewrite E in E1. injection E1 as <- <-. destruct Ha as (-> & Hnx & s1 & Hg1 & _).
  assert (capture_ok lim (mkCapture r (outside w))) as Hok by (split; [by exists s1|done]).
  destruct (capture_run_ok lim es' _ Hok Hf) as (w1 & E1 & [[s2 Hg2] _] & Hle). rewrite E' in E1. injection E1 as <-.
  destruct (mint_association_ok _ _ _ _ n' source' Hg2 Hn') as (a & r2 & E3 & Ha). rewrite E2 in E3. injection E3 as <- <-. destruct Ha as (-> & Hnx2 & s3 & Hg3 & _).
  destruct (go_ticketed _ _ _ _ Hg) as [Hw0 _], (go_ticketed _ _ _ _ Hg3) as [Hw3 _]. cbn [ledger_run] in Hle. unfold in_width in *. lia.
Qed.
End Theorems.
End History.

(** ** Instances of the theorems *)

Section Demo.
#[local] Instance demo_layout : SlotLayout := 512.

Definition ledger_pool : SharedPool := mkPool 4000000 SEMANTIC_TRANSITION_SCRATCH SEMANTIC_TRANSITION_SCRATCH 0 false.

(** A raw record becomes an open call and its staged payload; other work is charged and released. *)
Definition ledger_history : list Event :=
  [Borrow 100; Do (ReserveRaw 7); Do (ChargeOpenFromRaw 3 64 (mkExisting 1 1 (Some (mkKey 7 1))));
   Do (ChargeCollected 7 9 200 (Some (mkJointOrigin (mkExisting 1 1 (Some (mkKey 7 1))) 7)));
   Do (ChargeModel 4 50); Do ReleaseAllOpen; Do (ReleaseModel 4); Do (ReleaseRaw (mkExisting 1 1 (Some (mkKey 7 1))))].

Definition ledger_capture : Capture := default (capture_new ledger_pool [] 0) (capture_run (capture_new ledger_pool [] 0) ledger_history).

Definition produced {A} (o : option A) : bool := match o with Some _ => true | None => false end.

Lemma produced_default {A} (o : option A) d : produced o = true → o = Some (default d o).
Proof. by destruct o. Qed.

Lemma ledger_history_fits : Forall event_fits ledger_history.
Proof. repeat constructor; cbn; lia. Qed.

Lemma ledger_capture_run : capture_run (capture_new ledger_pool [] 0) ledger_history = Some ledger_capture.
Proof. apply produced_default. vm_compute. reflexivity. Qed.

Lemma ledger_capture_others : others ledger_capture = SEMANTIC_TRANSITION_SCRATCH + 100.
Proof. vm_compute. reflexivity. Qed.

Lemma ledger_account_exact_witness :
  charged (l_pool (ledger_run ledger_capture)) = SEMANTIC_TRANSITION_SCRATCH + 100 + (1024 * 512 + 32) + (200 + 32) ∧
  ∃ r, ledger_drop (ledger_run ledger_capture) = (inr tt, r) ∧ charged (l_pool r) = SEMANTIC_TRANSITION_SCRATCH + 100.
Proof.
  split; [vm_compute; reflexivity|]. rewrite <- ledger_capture_others.
  destruct (ledger_account_exact 4000000 ledger_pool eq_refl ltac:(lia) [] 0 ledger_history ledger_history_fits) as (w & E & _ & _ & Hd).
  rewrite ledger_capture_run in E. apply (inj Some) in E. rewrite E. exact Hd.
Defined.

Lemma ledger_ceilings_witness :
  census (l_ledger (ledger_run ledger_capture)) = 1 ∧
  reservation_room (l_ledger (ledger_run ledger_capture)) = 1024 - census (l_ledger (ledger_run ledger_capture)).
Proof.
  split; [vm_compute; reflexivity|].
  exact (proj1 (proj2 (ledger_ceilings 4000000 ledger_pool eq_refl ltac:(lia) [] 0 ledger_history ledger_history_fits ledger_capture ledger_capture_run))).
Defined.

(** The staged payload's association, its release, and a second one. *)
Local Abbreviation first_mint := (mint_keyassoc_from_stage 300 (Some (mkStaged 1 1 (mkKey 7 9))) (ledger_run ledger_capture)).

Definition between_mints : list Event := [Do (ReleaseCollected 7 9); Do (ReleaseAssociation 1)].

Definition second_capture : Capture := default ledger_capture (capture_run (mkCapture first_mint.2 (outside ledger_capture)) between_mints).

Lemma pair_fst {A B} (x : A * B) a : x.1 = a → x = (a, x.2).
Proof. by destruct x as [? ?]; intros <-. Qed.

Lemma first_mint_ticket : first_mint = (inr 1, first_mint.2).
Proof. apply (pair_fst first_mint). vm_compute. reflexivity. Qed.

Lemma second_capture_run : capture_run (mkCapture first_mint.2 (outside ledger_capture)) between_mints = Some second_capture.
Proof. apply produced_default. vm_compute. reflexivity. Qed.

Lemma second_mint_ticket :
  mint_keyassoc_from_stage 300 None (ledger_run second_capture) = (inr 2, (mint_keyassoc_from_stage 300 None (ledger_run second_capture)).2).
Proof. apply (pair_fst (mint_keyassoc_from_stage 300 None (ledger_run second_capture))). vm_compute. reflexivity. Qed.

Lemma association_tickets_unique_witness : 1 <= 1 < 2 ∧ 2 < 2 ^ 64.
Proof.
  refine (association_tickets_unique 4000000 ledger_pool eq_refl _ [] 0 ledger_history ledger_history_fits ledger_capture
    ledger_capture_run 300 _ 1 _ between_mints second_capture 300 _ 2 _ _ _ _ first_mint_ticket second_capture_run second_mint_ticket); try lia.
  repeat constructor.
Defined.
End Demo.
