(* ===== verification/Edge.v ===== *)
(** * The per-edge semantic reducer

    [src/semantics_edge.rs]: the mechanism and operation context of one inventory edge,
    reduced from its completed calls, with the typed effects it reports and the charges it
    pays to the shared pool of [Pool].  A method is a computation on a [Run]: the pool, the
    reducer and the effects its sink received; with [NoSink] they are lost ([quietly]).  Dropping a
    value that owns a lease refunds it, which the model does explicitly.  The return codes
    are parameters ([RvCodes], [EdgeCodes]) and so is the function catalog. *)
From S2P Require Import Prelude ObjectPolicy Semantics Kinds Pool.

Definition MAX_EDGE_SESSIONS : nat := 1024.
Definition MAX_EDGE_MECHANISMS : nat := 256.
Definition MAX_EDGE_ACTIVE_OPS : nat := 2048.
Definition MAX_EDGE_PENDING : nat := 256.
Definition MAX_EDGE_PROVENANCE_FUNCTIONS : nat := 64.
Definition MAX_EDGE_PROVENANCE_RETURNS : nat := 32.

(** ** Calls, operations and effects *)

Record SemanticCall := mkCall {
  function : string;
  rv : Z;
  session : Z;
  mechanism : Z;
  call_capture : Z;
  slot_id : Z;
  target_function : Z;
  async_value : Z;
  flags : Z;
  user_type : Z;
  authorized : bool;
  unambiguous : bool;
  count_only : bool;
  attributable : bool;
  ts_ns : Z;
}.

Definition mechanism_capture (call : SemanticCall) : Z := call_capture call &' capture.MECHANISM_MASK.

Inductive OpState := Initialized | InProgress.

Inductive OperationOutcome := OutcomeCompleted | OutcomeCancelled | OutcomeFailed | OutcomeUnknown.

Record EffectOrigin := mkOrigin {
  origin_function : string;
  origin_session : Z;
  origin_ts_ns : Z;
}.

Inductive KeyRole :=
| OperationKey | WrappingKey | WrappedKey | BaseKey | UnwrappingKey | EncapsulationKey | DecapsulationKey | OtherRole.

Record KeyMetadataFlags := mkFlags {
  meta_requested : Z;
  meta_established : Z;
  meta_conflicted : Z;
}.

Inductive KeyLabel := Aes (value_len : Z) | Rsa (modulus_bits : Z) | Ec (curve : SafeCurve).

Record KeyReceipt := mkReceipt {
  receipt_key : Z;
  receipt_function : Z;
  receipt_input : Z;
  receipt_role : KeyRole;
  receipt_position : Z;
  receipt_metadata : KeyMetadataFlags;
  receipt_label : option KeyLabel;
  attribution_valid : bool;
  first_observed : bool;
  receipt_lost : bool;
}.

Record OpMachine := mkMachine {
  machine_mechanism : option Z;
  machine_state : OpState;
  generation : Z;
  machine_key : option KeyReceipt;
}.

Inductive OperationEffect :=
| Started (id : Z) (category : string) (mechanism : option Z) (key_receipt : option KeyReceipt) (origin : EffectOrigin)
| Ended (id : Z) (category : string) (outcome : OperationOutcome) (origin : EffectOrigin)
| DirectCompleted (id : Z) (category : string) (mechanism : option Z) (key_receipts : list KeyReceipt)
    (origin : EffectOrigin).

(** [EffectOrigin::from(&call)] *)
Definition origin_from (call : SemanticCall) : EffectOrigin := mkOrigin (function call) (session call) (ts_ns call).

Definition placeholder : EffectOrigin := mkOrigin EmptyString SESSION_NONE 0.

(** One (operation bit, queue-time generation) pair per affected bit. *)
Definition CallOrigin : Type := list (Z * option Z).

Record PendingCall := mkPendingCall {
  pending_call : SemanticCall;
  pending_origin : CallOrigin;
  pending_pos : option Z;
  pending_sequence : Z;
  pending_resource : option ResourceLease;
}.

Record AsyncId := mkAsyncId {
  async_owner : option Z;
  async_call : SemanticCall;
  async_origin : CallOrigin;
  async_pos : option Z;
  async_sequence : Z;
  async_resource : option ResourceLease;
}.

Definition same_origin_position (stored redeemed : option Z) : bool :=
  match stored, redeemed with Some a, Some b => a =? b | _, _ => false end.

Inductive PendingRoute :=
| Unroutable
| DuplicateRoute
| Fresh (function : Z) (descriptor : SlotSemantics) (charge : Z).

Inductive CompleteEligible :=
| Zero
| Many
| PendingRecord (key : Z * Z)
| DetachedRecord (key : Z * Z * Z).

Record EdgeMechStat := mkStat {
  stat_calls : Z;
  stat_errors : Z;
  stat_ops : gset string;
  stat_last_seen_ns : Z;
  stat_functions : gset string;
  stat_returns : gset Z;
  stat_truncated : bool;
}.

Definition EdgeMechStat_default : EdgeMechStat := mkStat 0 0 ∅ 0 ∅ ∅ false.

Record EdgeEvidence := mkEdgeEvidence {
  state_reconciliations : Z;
  session_cancel_ambiguities : Z;
  session_cancel_unknown_flags : Z;
  operation_state_imports : Z;
  auth_state_ambiguities : Z;
  semantic_capture_failures : Z;
  async_duplicates : Z;
  async_evictions : Z;
  unmatched_closes : Z;
}.

(** Field updates. *)

Definition set_state_reconciliations (g : Z → Z) (c : EdgeEvidence) : EdgeEvidence :=
  mkEdgeEvidence (g (state_reconciliations c)) (session_cancel_ambiguities c)
    (session_cancel_unknown_flags c) (operation_state_imports c) (auth_state_ambiguities c)
    (semantic_capture_failures c) (async_duplicates c) (async_evictions c) (unmatched_closes c).

Definition set_session_cancel_ambiguities (g : Z → Z) (c : EdgeEvidence) : EdgeEvidence :=
  mkEdgeEvidence (state_reconciliations c) (g (session_cancel_ambiguities c))
    (session_cancel_unknown_flags c) (operation_state_imports c) (auth_state_ambiguities c)
    (semantic_capture_failures c) (async_duplicates c) (async_evictions c) (unmatched_closes c).

Definition set_session_cancel_unknown_flags (g : Z → Z) (c : EdgeEvidence) : EdgeEvidence :=
  mkEdgeEvidence (state_reconciliations c) (session_cancel_ambiguities c) (g
    (session_cancel_unknown_flags c)) (operation_state_imports c) (auth_state_ambiguities c)
    (semantic_capture_failures c) (async_duplicates c) (async_evictions c) (unmatched_closes c).

Definition set_operation_state_imports (g : Z → Z) (c : EdgeEvidence) : EdgeEvidence :=
  mkEdgeEvidence (state_reconciliations c) (session_cancel_ambiguities c)
    (session_cancel_unknown_flags c) (g (operation_state_imports c)) (auth_state_ambiguities c)
    (semantic_capture_failures c) (async_duplicates c) (async_evictions c) (unmatched_closes c).

Definition set_auth_state_ambiguities (g : Z → Z) (c : EdgeEvidence) : EdgeEvidence :=
  mkEdgeEvidence (state_reconciliations c) (session_cancel_ambiguities c)
    (session_cancel_unknown_flags c) (operation_state_imports c) (g (auth_state_ambiguities c))
    (semantic_capture_failures c) (async_duplicates c) (async_evictions c) (unmatched_closes c).

Definition set_semantic_capture_failures (g : Z → Z) (c : EdgeEvidence) : EdgeEvidence :=
  mkEdgeEvidence (state_reconciliations c) (session_cancel_ambiguities c)
    (session_cancel_unknown_flags c) (operation_state_imports c) (auth_state_ambiguities c) (g
    (semantic_capture_failures c)) (async_duplicates c) (async_evictions c) (unmatched_closes c).

Definition set_async_duplicates (g : Z → Z) (c : EdgeEvidence) : EdgeEvidence :=
  mkEdgeEvidence (state_reconciliations c) (session_cancel_ambiguities c)
    (session_cancel_unknown_flags c) (operation_state_imports c) (auth_state_ambiguities c)
    (semantic_capture_failures c) (g (async_duplicates c)) (async_evictions c) (unmatched_closes
    c).

Definition set_async_evictions (g : Z → Z) (c : EdgeEvidence) : EdgeEvidence :=
  mkEdgeEvidence (state_reconciliations c) (session_cancel_ambiguities c)
    (session_cancel_unknown_flags c) (operation_state_imports c) (auth_state_ambiguities c)
    (semantic_capture_failures c) (async_duplicates c) (g (async_evictions c)) (unmatched_closes
    c).

Definition set_unmatched_closes (g : Z → Z) (c : EdgeEvidence) : EdgeEvidence :=
  mkEdgeEvidence (state_reconciliations c) (session_cancel_ambiguities c)
    (session_cancel_unknown_flags c) (operation_state_imports c) (auth_state_ambiguities c)
    (semantic_capture_failures c) (async_duplicates c) (async_evictions c) (g (unmatched_closes
    c)).

Record EdgeSemantics := mkEdge {
  open : gmap Z Z;
  active : gmap (Z * Z) OpMachine;
  mechs : gmap Z EdgeMechStat;
  pending : gmap (Z * Z) PendingCall;
  detached : gmap (Z * Z * Z) AsyncId;
  sequence : Z;
  machine_seq : Z;
  id_exhaustions : Z;
  calls : Z;
  started : Z;
  completed : Z;
  cancelled : Z;
  failed : Z;
  unknown : Z;
  orphans : Z;
  dropped : Z;
  last_seen_ns : Z;
  evidence : EdgeEvidence;
  unauthorized_calls : Z;
  ambiguous_calls : Z;
  count_only_calls : Z;
  unattributable_calls : Z;
  double_load_detected : bool;
  seen_claim_capable : bool;
  resource_transition : option ResourceLease;
  resource_owner : option ResourceLease;
}.

(** Field updates. *)

Definition set_open (g : gmap Z Z → gmap Z Z) (c : EdgeSemantics) : EdgeSemantics :=
  mkEdge (g (open c)) (active c) (mechs c) (pending c) (detached c) (sequence c) (machine_seq c)
    (id_exhaustions c) (calls c) (started c) (completed c) (cancelled c) (failed c) (unknown c)
    (orphans c) (dropped c) (last_seen_ns c) (evidence c) (unauthorized_calls c) (ambiguous_calls
    c) (count_only_calls c) (unattributable_calls c) (double_load_detected c) (seen_claim_capable
    c) (resource_transition c) (resource_owner c).

Definition set_active (g : gmap (Z * Z) OpMachine → gmap (Z * Z) OpMachine) (c : EdgeSemantics) : EdgeSemantics :=
  mkEdge (open c) (g (active c)) (mechs c) (pending c) (detached c) (sequence c) (machine_seq c)
    (id_exhaustions c) (calls c) (started c) (completed c) (cancelled c) (failed c) (unknown c)
    (orphans c) (dropped c) (last_seen_ns c) (evidence c) (unauthorized_calls c) (ambiguous_calls
    c) (count_only_calls c) (unattributable_calls c) (double_load_detected c) (seen_claim_capable
    c) (resource_transition c) (resource_owner c).

Definition set_mechs (g : gmap Z EdgeMechStat → gmap Z EdgeMechStat) (c : EdgeSemantics) : EdgeSemantics :=
  mkEdge (open c) (active c) (g (mechs c)) (pending c) (detached c) (sequence c) (machine_seq c)
    (id_exhaustions c) (calls c) (started c) (completed c) (cancelled c) (failed c) (unknown c)
    (orphans c) (dropped c) (last_seen_ns c) (evidence c) (unauthorized_calls c) (ambiguous_calls
    c) (count_only_calls c) (unattributable_calls c) (double_load_detected c) (seen_claim_capable
    c) (resource_transition c) (resource_owner c).

Definition set_pending (g : gmap (Z * Z) PendingCall → gmap (Z * Z) PendingCall) (c : EdgeSemantics) : EdgeSemantics :=
  mkEdge (open c) (active c) (mechs c) (g (pending c)) (detached c) (sequence c) (machine_seq c)
    (id_exhaustions c) (calls c) (started c) (completed c) (cancelled c) (failed c) (unknown c)
    (orphans c) (dropped c) (last_seen_ns c) (evidence c) (unauthorized_calls c) (ambiguous_calls
    c) (count_only_calls c) (unattributable_calls c) (double_load_detected c) (seen_claim_capable
    c) (resource_transition c) (resource_owner c).

Definition set_detached (g : gmap (Z * Z * Z) AsyncId → gmap (Z * Z * Z) AsyncId) (c : EdgeSemantics) : EdgeSemantics :=
  mkEdge (open c) (active c) (mechs c) (pending c) (g (detached c)) (sequence c) (machine_seq c)
    (id_exhaustions c) (calls c) (started c) (completed c) (cancelled c) (failed c) (unknown c)
    (orphans c) (dropped c) (last_seen_ns c) (evidence c) (unauthorized_calls c) (ambiguous_calls
    c) (count_only_calls c) (unattributable_calls c) (double_load_detected c) (seen_claim_capable
    c) (resource_transition c) (resource_owner c).

Definition set_sequence (g : Z → Z) (c : EdgeSemantics) : EdgeSemantics :=
  mkEdge (open c) (active c) (mechs c) (pending c) (detached c) (g (sequence c)) (machine_seq c)
    (id_exhaustions c) (calls c) (started c) (completed c) (cancelled c) (failed c) (unknown c)
    (orphans c) (dropped c) (last_seen_ns c) (evidence c) (unauthorized_calls c) (ambiguous_calls
    c) (count_only_calls c) (unattributable_calls c) (double_load_detected c) (seen_claim_capable
    c) (resource_transition c) (resource_owner c).

Definition set_machine_seq (g : Z → Z) (c : EdgeSemantics) : EdgeSemantics :=
  mkEdge (open c) (active c) (mechs c) (pending c) (detached c) (sequence c) (g (machine_seq c))
    (id_exhaustions c) (calls c) (started c) (completed c) (cancelled c) (failed c) (unknown c)
    (orphans c) (dropped c) (last_seen_ns c) (evidence c) (unauthorized_calls c) (ambiguous_calls
    c) (count_only_calls c) (unattributable_calls c) (double_load_detected c) (seen_claim_capable
    c) (resource_transition c) (resource_owner c).

Definition set_id_exhaustions (g : Z → Z) (c : EdgeSemantics) : EdgeSemantics :=
  mkEdge (open c) (active c) (mechs c) (pending c) (detached c) (sequence c) (machine_seq c) (g
    (id_exhaustions c)) (calls c) (started c) (completed c) (cancelled c) (failed c) (unknown c)
    (orphans c) (dropped c) (last_seen_ns c) (evidence c) (unauthorized_calls c) (ambiguous_calls
    c) (count_only_calls c) (unattributable_calls c) (double_load_detected c) (seen_claim_capable
    c) (resource_transition c) (resource_owner c).

Definition set_calls (g : Z → Z) (c : EdgeSemantics) : EdgeSemantics :=
  mkEdge (open c) (active c) (mechs c) (pending c) (detached c) (sequence c) (machine_seq c)
    (id_exhaustions c) (g (calls c)) (started c) (completed c) (cancelled c) (failed c) (unknown
    c) (orphans c) (dropped c) (last_seen_ns c) (evidence c) (unauthorized_calls c)
    (ambiguous_calls c) (count_only_calls c) (unattributable_calls c) (double_load_detected c)
    (seen_claim_capable c) (resource_transition c) (resource_owner c).

Definition set_started (g : Z → Z) (c : EdgeSemantics) : EdgeSemantics :=
  mkEdge (open c) (active c) (mechs c) (pending c) (detached c) (sequence c) (machine_seq c)
    (id_exhaustions c) (calls c) (g (started c)) (completed c) (cancelled c) (failed c) (unknown
    c) (orphans c) (dropped c) (last_seen_ns c) (evidence c) (unauthorized_calls c)
    (ambiguous_calls c) (count_only_calls c) (unattributable_calls c) (double_load_detected c)
    (seen_claim_capable c) (resource_transition c) (resource_owner c).

Definition set_completed (g : Z → Z) (c : EdgeSemantics) : EdgeSemantics :=
  mkEdge (open c) (active c) (mechs c) (pending c) (detached c) (sequence c) (machine_seq c)
    (id_exhaustions c) (calls c) (started c) (g (completed c)) (cancelled c) (failed c) (unknown
    c) (orphans c) (dropped c) (last_seen_ns c) (evidence c) (unauthorized_calls c)
    (ambiguous_calls c) (count_only_calls c) (unattributable_calls c) (double_load_detected c)
    (seen_claim_capable c) (resource_transition c) (resource_owner c).

Definition set_cancelled (g : Z → Z) (c : EdgeSemantics) : EdgeSemantics :=
  mkEdge (open c) (active c) (mechs c) (pending c) (detached c) (sequence c) (machine_seq c)
    (id_exhaustions c) (calls c) (started c) (completed c) (g (cancelled c)) (failed c) (unknown
    c) (orphans c) (dropped c) (last_seen_ns c) (evidence c) (unauthorized_calls c)
    (ambiguous_calls c) (count_only_calls c) (unattributable_calls c) (double_load_detected c)
    (seen_claim_capable c) (resource_transition c) (resource_owner c).

Definition set_failed (g : Z → Z) (c : EdgeSemantics) : EdgeSemantics :=
  mkEdge (open c) (active c) (mechs c) (pending c) (detached c) (sequence c) (machine_seq c)
    (id_exhaustions c) (calls c) (started c) (completed c) (cancelled c) (g (failed c)) (unknown
    c) (orphans c) (dropped c) (last_seen_ns c) (evidence c) (unauthorized_calls c)
    (ambiguous_calls c) (count_only_calls c) (unattributable_calls c) (double_load_detected c)
    (seen_claim_capable c) (resource_transition c) (resource_owner c).

Definition set_unknown (g : Z → Z) (c : EdgeSemantics) : EdgeSemantics :=
  mkEdge (open c) (active c) (mechs c) (pending c) (detached c) (sequence c) (machine_seq c)
    (id_exhaustions c) (calls c) (started c) (completed c) (cancelled c) (failed c) (g (unknown
    c)) (orphans c) (dropped c) (last_seen_ns c) (evidence c) (unauthorized_calls c)
    (ambiguous_calls c) (count_only_calls c) (unattributable_calls c) (double_load_detected c)
    (seen_claim_capable c) (resource_transition c) (resource_owner c).

Definition set_orphans (g : Z → Z) (c : EdgeSemantics) : EdgeSemantics :=
  mkEdge (open c) (active c) (mechs c) (pending c) (detached c) (sequence c) (machine_seq c)
    (id_exhaustions c) (calls c) (started c) (completed c) (cancelled c) (failed c) (unknown c) (g
    (orphans c)) (dropped c) (last_seen_ns c) (evidence c) (unauthorized_calls c) (ambiguous_calls
    c) (count_only_calls c) (unattributable_calls c) (double_load_detected c) (seen_claim_capable
    c) (resource_transition c) (resource_owner c).

Definition set_dropped (g : Z → Z) (c : EdgeSemantics) : EdgeSemantics :=
  mkEdge (open c) (active c) (mechs c) (pending c) (detached c) (sequence c) (machine_seq c)
    (id_exhaustions c) (calls c) (started c) (completed c) (cancelled c) (failed c) (unknown c)
    (orphans c) (g (dropped c)) (last_seen_ns c) (evidence c) (unauthorized_calls c)
    (ambiguous_calls c) (count_only_calls c) (unattributable_calls c) (double_load_detected c)
    (seen_claim_capable c) (resource_transition c) (resource_owner c).

Definition set_last_seen_ns (g : Z → Z) (c : EdgeSemantics) : EdgeSemantics :=
  mkEdge (open c) (active c) (mechs c) (pending c) (detached c) (sequence c) (machine_seq c)
    (id_exhaustions c) (calls c) (started c) (completed c) (cancelled c) (failed c) (unknown c)
    (orphans c) (dropped c) (g (last_seen_ns c)) (evidence c) (unauthorized_calls c)
    (ambiguous_calls c) (count_only_calls c) (unattributable_calls c) (double_load_detected c)
    (seen_claim_capable c) (resource_transition c) (resource_owner c).

Definition set_evidence (g : EdgeEvidence → EdgeEvidence) (c : EdgeSemantics) : EdgeSemantics :=
  mkEdge (open c) (active c) (mechs c) (pending c) (detached c) (sequence c) (machine_seq c)
    (id_exhaustions c) (calls c) (started c) (completed c) (cancelled c) (failed c) (unknown c)
    (orphans c) (dropped c) (last_seen_ns c) (g (evidence c)) (unauthorized_calls c)
    (ambiguous_calls c) (count_only_calls c) (unattributable_calls c) (double_load_detected c)
    (seen_claim_capable c) (resource_transition c) (resource_owner c).

Definition set_unauthorized_calls (g : Z → Z) (c : EdgeSemantics) : EdgeSemantics :=
  mkEdge (open c) (active c) (mechs c) (pending c) (detached c) (sequence c) (machine_seq c)
    (id_exhaustions c) (calls c) (started c) (completed c) (cancelled c) (failed c) (unknown c)
    (orphans c) (dropped c) (last_seen_ns c) (evidence c) (g (unauthorized_calls c))
    (ambiguous_calls c) (count_only_calls c) (unattributable_calls c) (double_load_detected c)
    (seen_claim_capable c) (resource_transition c) (resource_owner c).

Definition set_ambiguous_calls (g : Z → Z) (c : EdgeSemantics) : EdgeSemantics :=
  mkEdge (open c) (active c) (mechs c) (pending c) (detached c) (sequence c) (machine_seq c)
    (id_exhaustions c) (calls c) (started c) (completed c) (cancelled c) (failed c) (unknown c)
    (orphans c) (dropped c) (last_seen_ns c) (evidence c) (unauthorized_calls c) (g
    (ambiguous_calls c)) (count_only_calls c) (unattributable_calls c) (double_load_detected c)
    (seen_claim_capable c) (resource_transition c) (resource_owner c).

Definition set_count_only_calls (g : Z → Z) (c : EdgeSemantics) : EdgeSemantics :=
  mkEdge (open c) (active c) (mechs c) (pending c) (detached c) (sequence c) (machine_seq c)
    (id_exhaustions c) (calls c) (started c) (completed c) (cancelled c) (failed c) (unknown c)
    (orphans c) (dropped c) (last_seen_ns c) (evidence c) (unauthorized_calls c) (ambiguous_calls
    c) (g (count_only_calls c)) (unattributable_calls c) (double_load_detected c)
    (seen_claim_capable c) (resource_transition c) (resource_owner c).

Definition set_unattributable_calls (g : Z → Z) (c : EdgeSemantics) : EdgeSemantics :=
  mkEdge (open c) (active c) (mechs c) (pending c) (detached c) (sequence c) (machine_seq c)
    (id_exhaustions c) (calls c) (started c) (completed c) (cancelled c) (failed c) (unknown c)
    (orphans c) (dropped c) (last_seen_ns c) (evidence c) (unauthorized_calls c) (ambiguous_calls
    c) (count_only_calls c) (g (unattributable_calls c)) (double_load_detected c)
    (seen_claim_capable c) (resource_transition c) (resource_owner c).

Definition set_double_load_detected (g : bool → bool) (c : EdgeSemantics) : EdgeSemantics :=
  mkEdge (open c) (active c) (mechs c) (pending c) (detached c) (sequence c) (machine_seq c)
    (id_exhaustions c) (calls c) (started c) (completed c) (cancelled c) (failed c) (unknown c)
    (orphans c) (dropped c) (last_seen_ns c) (evidence c) (unauthorized_calls c) (ambiguous_calls
    c) (count_only_calls c) (unattributable_calls c) (g (double_load_detected c))
    (seen_claim_capable c) (resource_transition c) (resource_owner c).

Definition set_seen_claim_capable (g : bool → bool) (c : EdgeSemantics) : EdgeSemantics :=
  mkEdge (open c) (active c) (mechs c) (pending c) (detached c) (sequence c) (machine_seq c)
    (id_exhaustions c) (calls c) (started c) (completed c) (cancelled c) (failed c) (unknown c)
    (orphans c) (dropped c) (last_seen_ns c) (evidence c) (unauthorized_calls c) (ambiguous_calls
    c) (count_only_calls c) (unattributable_calls c) (double_load_detected c) (g
    (seen_claim_capable c)) (resource_transition c) (resource_owner c).

Definition set_resource_transition (g : option ResourceLease → option ResourceLease) (c : EdgeSemantics) : EdgeSemantics :=
  mkEdge (open c) (active c) (mechs c) (pending c) (detached c) (sequence c) (machine_seq c)
    (id_exhaustions c) (calls c) (started c) (completed c) (cancelled c) (failed c) (unknown c)
    (orphans c) (dropped c) (last_seen_ns c) (evidence c) (unauthorized_calls c) (ambiguous_calls
    c) (count_only_calls c) (unattributable_calls c) (double_load_detected c) (seen_claim_capable
    c) (g (resource_transition c)) (resource_owner c).

Definition set_resource_owner (g : option ResourceLease → option ResourceLease) (c : EdgeSemantics) : EdgeSemantics :=
  mkEdge (open c) (active c) (mechs c) (pending c) (detached c) (sequence c) (machine_seq c)
    (id_exhaustions c) (calls c) (started c) (completed c) (cancelled c) (failed c) (unknown c)
    (orphans c) (dropped c) (last_seen_ns c) (evidence c) (unauthorized_calls c) (ambiguous_calls
    c) (count_only_calls c) (unattributable_calls c) (double_load_detected c) (seen_claim_capable
    c) (resource_transition c) (g (resource_owner c)).

Definition EdgeSemantics_default : EdgeSemantics :=
  mkEdge ∅ ∅ ∅ ∅ ∅ 0 0 0 0 0 0 0 0 0 0 0 0 (mkEdgeEvidence 0 0 0 0 0 0 0 0 0) 0 0 0 0 false false None None.

(** The return codes [semantics_edge.rs] reads beside those of [RvCodes]. *)
Class EdgeCodes := {
  rv_SESSION_CLOSED : Z;
  rv_SESSION_HANDLE_INVALID : Z;
}.

(** ** Runs *)

(** A refusal of the pool, or a failed [expect] or assertion. *)
Inductive Stop := Refuse (e : SemanticResourceRefusal) | Panic.

Record Run := mkRun {
  pool : SharedPool;
  edge : EdgeSemantics;
  sink : list OperationEffect;
}.

Abbreviation Edge := (SE Run Stop).

Definition get : Edge EdgeSemantics := λ r, (inr (edge r), r).

Definition modify (f : EdgeSemantics → EdgeSemantics) : Edge () := λ r, (inr tt, mkRun (pool r) (f (edge r)) (sink r)).

Definition or_panic {A} (o : option A) : Edge A := se_some Panic o.

Definition emit (e : OperationEffect) : Edge () := λ r, (inr tt, mkRun (pool r) (edge r) (sink r ++ [e])).

(** A pool operation that may refuse, and one that may fail an assertion. *)
Definition on_pool {A} (f : SharedPool → result SemanticResourceRefusal A * SharedPool) : Edge A := λ r,
  let '(a, p) := f (pool r) in
  (match a with Ok a => inr a | Err e => inl (Refuse e) end, mkRun p (edge r) (sink r)).

Definition set_pool (f : SharedPool → option SharedPool) : Edge () := λ r,
  match f (pool r) with Some p => (inr tt, mkRun p (edge r) (sink r)) | None => (inl Panic, r) end.

(** [counter = counter.saturating_add(n)] *)
Definition add (set_field : (Z → Z) → EdgeSemantics → EdgeSemantics) (n : Z) : Edge () :=
  modify (set_field (λ v, saturating_add 64 v n)).

Definition note (set_field : (Z → Z) → EdgeEvidence → EdgeEvidence) : Edge () :=
  modify (set_evidence (set_field (λ v, saturating_add 64 v 1))).

(** With [NoSink] for a sink: what is emitted is lost. *)
Definition quietly {A} (m : Edge A) : Edge A := λ r, let '(a, r') := m r in (a, mkRun (pool r') (edge r') (sink r)).

Fixpoint for_each {A} (f : A → Edge ()) (l : list A) : Edge () :=
  match l with [] => mret tt | x :: l => f x ;; for_each f l end.

(** [changed |= f(x)] over a loop. *)
Fixpoint any_each {A} (f : A → Edge bool) (l : list A) : Edge bool :=
  match l with [] => mret false | x :: l => a ← f x; b ← any_each f l; mret (a || b) end.

Definition when (b : bool) (m : Edge ()) : Edge () := if b then m else mret tt.

(** ** Charges *)

Definition drop_lease (l : option ResourceLease) : Edge () :=
  match l with None => mret tt | Some l => set_pool (lease_drop l) end.

Definition take_resource_charge (bytes : Z) : Edge (option ResourceLease) :=
  e ← get;
  match resource_transition e with
  | None => mret None
  | Some reservation =>
      p ← or_panic (split bytes reservation);
      modify (set_resource_transition (λ _, Some p.1)) ;; mret (Some p.2)
  end.

Definition retain_resource_charge (bytes : Z) : Edge () :=
  lease ← take_resource_charge bytes;
  match lease with
  | None => mret tt
  | Some lease =>
      e ← get;
      owner ← or_panic (resource_owner e);
      total ← or_panic (absorb owner lease);
      modify (set_resource_owner (λ _, Some total))
  end.

Definition release_resource_charge (bytes : Z) : Edge () := λ r,
  match resource_owner (edge r) with
  | None => (inr tt, r)
  | Some owner =>
      match lease_release bytes owner (pool r) with
      | Some (owner, p) => (inr tt, mkRun p (set_resource_owner (λ _, Some owner) (edge r)) (sink r))
      | None => (inl Panic, r)
      end
  end.

Section Reducer.
Context {RV : RvCodes} {EC : EdgeCodes} {Catalog : FunctionCatalog}.

(** [crate::kinds::descriptor(name).unwrap_or(SlotSemantics::COUNT_ONLY)] *)
Definition descriptor_of (name : string) : SlotSemantics := default COUNT_ONLY (descriptor name).

(** ** Preflight *)

Definition text_len (s : string) : Z := Z.of_nat (String.length s).

Definition next_power_of_two (n : Z) : Z := if n <=? 1 then 1 else 2 ^ (Z.log2 (n - 1) + 1).

Definition async_charge (call : SemanticCall) (d : SlotSemantics) : Z :=
  let count := count_ones (operations d) in
  let origin := if count =? 0 then 0 else Z.max (next_power_of_two count) 4 * 24 + OWNED_ALLOCATION_PADDING in
  ASYNC_FACT_CHARGE + text_len (function call) + OWNED_ALLOCATION_PADDING + origin.

Definition route_pending (call : SemanticCall) (e : EdgeSemantics) : PendingRoute :=
  let d := descriptor_of (function call) in
  match function_id (function call) with
  | None => Unroutable
  | Some id =>
      if (lifecycle_ d =? lifecycle.OPEN_SESSION) && (session call =? SESSION_NONE) then Unroutable
      else if bool_decide (is_Some (pending e !! (session call, id))) then DuplicateRoute
      else Fresh id d (async_charge call d)
  end.

Definition owned_ids (session target : Z) (e : EdgeSemantics) : list (Z * Z * Z) :=
  fst <$> List.filter (λ kv, bool_decide (async_owner kv.2 = Some session) && (kv.1.1.2 =? target))
            (in_order (λ kv, [kv.1.1.1; kv.1.1.2; kv.1.2]) (map_to_list (detached e))).

Definition complete_eligible (session target : Z) (e : EdgeSemantics) : CompleteEligible :=
  let has_pending := bool_decide (is_Some (pending e !! (session, target))) in
  match has_pending, owned_ids session target e with
  | true, [] => PendingRecord (session, target)
  | false, [key] => DetachedRecord key
  | false, [] => Zero
  | _, _ => Many
  end.

Definition live_generation (e : EdgeSemantics) (session bit : Z) : option Z :=
  generation <$> active e !! (session, bit).

Definition origin_matches (session : Z) (origin : CallOrigin) (e : EdgeSemantics) : bool :=
  forallb (λ p, bool_decide (live_generation e session p.1 = p.2)) origin.

Definition provenance_growth (mechanism : Z) (call : SemanticCall) (rv : Z) (e : EdgeSemantics) : Z :=
  let stat := mechs e !! mechanism in
  if bool_decide (stat = None) && (MAX_EDGE_MECHANISMS <=? size (mechs e))%nat then 0
  else
    (if bool_decide (stat = None) then MECHANISM_CHARGE else 0)
    + (if match stat with
          | None => true
          | Some s => bool_decide (function call ∉ stat_functions s)
                      && (size (stat_functions s) <? MAX_EDGE_PROVENANCE_FUNCTIONS)%nat
          end
       then FUNCTION_CHARGE + text_len (function call) + OWNED_ALLOCATION_PADDING else 0)
    + (if match stat with
          | None => true
          | Some s => bool_decide (rv ∉ stat_returns s)
                      && (size (stat_returns s) <? MAX_EDGE_PROVENANCE_RETURNS)%nat
          end
       then RETURN_CHARGE else 0).

(** The categories a claim adds to the row of [mechanism]. *)
Definition category_growth (mechanism : Z) (d : SlotSemantics) (e : EdgeSemantics) : Z :=
  let stat := mechs e !! mechanism in
  let missing name := match stat with None => true | Some s => bool_decide (name ∉ stat_ops s) end in
  zsum (λ p, if missing p.2 then CATEGORY_CHARGE else 0) (operation_bits (operations d))
  + match direct_name (direct_ d) with
    | Some name => if missing name then CATEGORY_CHARGE else 0
    | None => 0
    end.

(** The loop over the bits of a starting call: [additions] so far, and the bytes. *)
Definition machine_growth (session : Z) (d : SlotSemantics) (e : EdgeSemantics) : Z :=
  snd (foldl (λ acc p,
    if bool_decide (active e !! (session, p.1) = None) && (size (active e) + acc.1 <? MAX_EDGE_ACTIVE_OPS)%nat
    then (S acc.1, acc.2 + ACTIVE_MACHINE_CHARGE) else acc) (O, 0) (operation_bits (operations d))).

(** The loop over the bits of an operational call: the mechanisms seen, and the bytes. *)
Definition attributed_growth (call : SemanticCall) (session rv : Z) (d : SlotSemantics) (e : EdgeSemantics) : Z :=
  snd (foldl (λ acc p,
    match active e !! (session, p.1) ≫= machine_mechanism with
    | Some mechanism =>
        if bool_decide (mechanism ∈ acc.1) then acc
        else (acc.1 ++ [mechanism], acc.2 + provenance_growth mechanism call rv e)
    | None => acc
    end) ([], 0) (operation_bits (operations d))).

Definition reconciles (rv : Z) : bool :=
  (rv =? rv_OPERATION_NOT_INITIALIZED) || (rv =? rv_SESSION_CLOSED) || (rv =? rv_SESSION_HANDLE_INVALID)
  || (rv =? rv_CRYPTOKI_NOT_INITIALIZED).

Definition null_cancels (call : SemanticCall) (d : SlotSemantics) : bool :=
  (mechanism_capture call =? capture.MECHANISM_NULL) && nz (semantic_flags d &' NULL_MECHANISM_CANCEL).

Definition completed_growth (call : SemanticCall) (session rv : Z) (e : EdgeSemantics) : Z :=
  let d := descriptor_of (function call) in
  let init := transition_ d =? transition.INITIALIZE in
  let claim :=
    if (init || negb (direct_ d =? direct.NONE)) && (rv =? rv_OK)
       && (mechanism_capture call =? capture.MECHANISM_VALUE)
       && (bool_decide (is_Some (mechs e !! mechanism call)) || (size (mechs e) <? MAX_EDGE_MECHANISMS)%nat)
    then provenance_growth (mechanism call) call rv e + category_growth (mechanism call) d e else 0 in
  if reconciles rv then claim
  else
    claim
    + (if (lifecycle_ d =? lifecycle.OPEN_SESSION) && (rv =? rv_OK) && negb (session =? SESSION_NONE)
          && (bool_decide (is_Some (open e !! session)) || (size (open e) <? MAX_EDGE_SESSIONS)%nat)
       then OPEN_BINDING_CHARGE else 0)
    + (if init && (rv =? rv_OK) && negb (session =? SESSION_NONE) && negb (null_cancels call d)
       then machine_growth session d e
       else if negb init && (direct_ d =? direct.NONE) && negb (operations d =? 0)
       then attributed_growth call session rv d e else 0).

Definition preflight_growth (call : SemanticCall) (e : EdgeSemantics) : Z :=
  if negb (attributable call) || negb (authorized call) || negb (unambiguous call) || count_only call then 0
  else
    let d := descriptor_of (function call) in
    if bool_decide (d = COUNT_ONLY) then 0
    else if lifecycle_ d =? lifecycle.ASYNC_COMPLETE then
      if (rv call =? rv_PENDING) || (target_function call =? FUNCTION_NONE)
         || nz (call_capture call &' capture.ASYNC_VALUE_UNREADABLE) then 0
      else
        match (match complete_eligible (session call) (target_function call) e with
               | PendingRecord key => (λ p, (pending_call p, pending_origin p)) <$> pending e !! key
               | DetachedRecord key => (λ i, (async_call i, async_origin i)) <$> detached e !! key
               | Zero | Many => None
               end) with
        | None => 0
        | Some (original, origin) =>
            if negb (origin_matches (session call) origin e) then 0
            else completed_growth original (session call) (rv call) e
        end
    else if (lifecycle_ d =? lifecycle.ASYNC_GET_ID) || (lifecycle_ d =? lifecycle.ASYNC_JOIN) then 0
    else if rv call =? rv_PENDING then
      match route_pending call e with Fresh _ _ charge => charge | Unroutable | DuplicateRoute => 0 end
    else completed_growth call (session call) (rv call) e.

(** ** Ending *)

Inductive EndState := EndCompleted | EndCancelled | EndFailed | EndUnknown.

Definition outcome_of (s : EndState) : OperationOutcome :=
  match s with
  | EndCompleted => OutcomeCompleted
  | EndCancelled => OutcomeCancelled
  | EndFailed => OutcomeFailed
  | EndUnknown => OutcomeUnknown
  end.

Definition count_end (s : EndState) : Edge () :=
  match s with
  | EndCompleted => add set_completed 1
  | EndCancelled => add set_cancelled 1
  | EndFailed => add set_failed 1
  | EndUnknown => add set_unknown 1
  end.

Definition operation_name (bit : Z) : option string := snd <$> List.find (λ p, p.1 =? bit) OPERATIONS.

Definition category_name (bit : Z) : string := default "operation"%string (operation_name bit).

Definition end_machine (session bit : Z) (category : string) (end_ : EndState) (origin : EffectOrigin) : Edge bool :=
  e ← get;
  match active e !! (session, bit) with
  | Some machine =>
      modify (set_active (delete (session, bit))) ;;
      release_resource_charge ACTIVE_MACHINE_CHARGE ;;
      count_end end_ ;;
      emit (Ended (generation machine) category (outcome_of end_) origin) ;;
      mret true
  | None => mret false
  end.

(** The keys of [active] that satisfy [P], in order. *)
Definition machine_keys (P : Z * Z → bool) (e : EdgeSemantics) : list (Z * Z) :=
  in_order (λ k, [k.1; k.2]) (List.filter P (fst <$> map_to_list (active e))).

Definition end_machines (keys : list (Z * Z)) (end_ : EndState) (origin : EffectOrigin) : Edge () :=
  for_each (λ k, end_machine k.1 k.2 (category_name k.2) end_ origin ;; mret tt) keys.

Definition end_session_machines (session : Z) (end_ : EndState) (origin : EffectOrigin) : Edge bool :=
  e ← get;
  let doomed := machine_keys (λ k, k.1 =? session) e in
  end_machines doomed end_ origin ;;
  mret (negb (bool_decide (doomed = []))).

(** [pop_first] until the map is empty. *)
Definition end_session_machines_all (end_ : EndState) (origin : EffectOrigin) : Edge bool :=
  e ← get;
  let doomed := machine_keys (λ _, true) e in
  end_machines doomed end_ origin ;;
  mret (negb (bool_decide (doomed = []))).

Definition float_session_async (session : Z) : Edge bool :=
  e ← get;
  modify (set_detached (fmap (λ i,
    if bool_decide (async_owner i = Some session)
    then mkAsyncId None (async_call i) (async_origin i) (async_pos i) (async_sequence i) (async_resource i) else i))) ;;
  mret (map_any (λ _ i, bool_decide (async_owner i = Some session)) (detached e)).

(** [pending.retain(keep)] and [detached.retain(keep)], with the leases of what goes. *)
Definition retain_pending (keep : Z * Z → PendingCall → bool) : Edge () :=
  e ← get;
  modify (set_pending (filter (λ kv, keep kv.1 kv.2 = true))) ;;
  for_each (λ kv, drop_lease (pending_resource kv.2))
    (map_to_list (filter (λ kv, keep kv.1 kv.2 ≠ true) (pending e))).

Definition retain_detached (keep : Z * Z * Z → AsyncId → bool) : Edge () :=
  e ← get;
  modify (set_detached (filter (λ kv, keep kv.1 kv.2 = true))) ;;
  for_each (λ kv, drop_lease (async_resource kv.2))
    (map_to_list (filter (λ kv, keep kv.1 kv.2 ≠ true) (detached e))).

(** [self.pending.retain(|(owner, _), _| *owner != session)]: whether any went. *)
Definition drop_session_pending (session : Z) : Edge bool :=
  e ← get;
  retain_pending (λ k _, negb (k.1 =? session)) ;;
  mret (map_any (λ k _, k.1 =? session) (pending e)).

Definition clear_async_payloads : Edge () :=
  retain_pending (λ _ _, false) ;; retain_detached (λ _ _, false).

(** [self.open.remove(&session).is_some()] with the refund. *)
Definition forget_open (session : Z) : Edge bool :=
  e ← get;
  let existed := bool_decide (is_Some (open e !! session)) in
  modify (set_open (delete session)) ;;
  when existed (release_resource_charge OPEN_BINDING_CHARGE) ;;
  mret existed.

Definition retire_session (session : Z) (end_ : EndState) (origin : EffectOrigin) : Edge bool :=
  a ← forget_open session;
  b ← end_session_machines session end_ origin;
  c ← drop_session_pending session;
  d ← float_session_async session;
  mret (a || b || c || d).

Definition clear_open : Edge () :=
  e ← get;
  modify (set_open (λ _, ∅)) ;;
  release_resource_charge (Z.of_nat (size (open e)) * OPEN_BINDING_CHARGE).

Definition retire_all (session_end : EndState) (origin : EffectOrigin) : Edge bool :=
  e ← get;
  clear_open ;;
  b ← end_session_machines_all session_end origin;
  clear_async_payloads ;;
  mret (negb (bool_decide (open e = ∅)) || b || negb (bool_decide (pending e = ∅)) || negb (bool_decide (detached e = ∅))).

Definition invalidate_with_effects : Edge () :=
  e ← get;
  end_session_machines_all EndUnknown (mkOrigin "loss"%string SESSION_NONE (last_seen_ns e)) ;;
  clear_async_payloads ;;
  clear_open.

Definition invalidate : Edge () := quietly invalidate_with_effects.

Definition mark_double_load : Edge () := invalidate ;; modify (set_double_load_detected (λ _, true)).

Definition clear_double_load : Edge () := modify (set_double_load_detected (λ _, false)).

(** ** Starting and attributing *)

Definition alloc_generation : Edge (option Z) :=
  e ← get;
  match checked_add 64 (machine_seq e) 1 with
  | None => mret None
  | Some next => modify (set_machine_seq (λ _, next)) ;; mret (Some next)
  end.

Definition gate (call : SemanticCall) : Edge (option SlotSemantics) :=
  if negb (attributable call) then add set_unattributable_calls 1 ;; mret None
  else if negb (authorized call) then add set_unauthorized_calls 1 ;; mret None
  else if negb (unambiguous call) then add set_ambiguous_calls 1 ;; mret None
  else if count_only call then add set_count_only_calls 1 ;; mret None
  else
    let d := descriptor_of (function call) in
    if bool_decide (d = COUNT_ONLY) then add set_count_only_calls 1 ;; mret None
    else modify (set_seen_claim_capable (λ _, true)) ;; mret (Some d).

Definition record_provenance (call : SemanticCall) (s : EdgeMechStat) : EdgeMechStat :=
  let known_f := bool_decide (function call ∈ stat_functions s) in
  let full_f := (MAX_EDGE_PROVENANCE_FUNCTIONS <=? size (stat_functions s))%nat in
  let known_r := bool_decide (rv call ∈ stat_returns s) in
  let full_r := (MAX_EDGE_PROVENANCE_RETURNS <=? size (stat_returns s))%nat in
  mkStat (stat_calls s) (stat_errors s) (stat_ops s) (stat_last_seen_ns s)
    (if known_f || full_f then stat_functions s else {[function call]} ∪ stat_functions s)
    (if known_r || full_r then stat_returns s else {[rv call]} ∪ stat_returns s)
    (stat_truncated s || (negb known_f && full_f) || (negb known_r && full_r)).

(** One attributed call on a row. *)
Definition stat_call (errors : Z) (call : SemanticCall) (ops : list string) (s : EdgeMechStat) : EdgeMechStat :=
  record_provenance call
    (mkStat (saturating_add 64 (stat_calls s) 1) (saturating_add 64 (stat_errors s) errors)
       (list_to_set ops ∪ stat_ops s) (Z.max (stat_last_seen_ns s) (ts_ns call))
       (stat_functions s) (stat_returns s) (stat_truncated s)).

Definition put_mech (mechanism : Z) (f : EdgeMechStat → EdgeMechStat) : Edge () :=
  modify (set_mechs (λ m, <[mechanism := f (default EdgeMechStat_default (m !! mechanism))]> m)).

(** Whether the row of [mechanism] exists or may be added. *)
Definition mech_room (mechanism : Z) (e : EdgeSemantics) : bool :=
  bool_decide (is_Some (mechs e !! mechanism)) || negb (MAX_EDGE_MECHANISMS <=? size (mechs e))%nat.

Definition record_init_mechanism (call : SemanticCall) (d : SlotSemantics) : Edge () :=
  if negb (rv call =? rv_OK) || negb (mechanism_capture call =? capture.MECHANISM_VALUE) then mret tt
  else
    e ← get;
    if negb (mech_room (mechanism call) e) then add set_dropped 1
    else
      retain_resource_charge (provenance_growth (mechanism call) call (rv call) e + category_growth (mechanism call) d e) ;;
      put_mech (mechanism call)
        (stat_call 0 call ((snd <$> operation_bits (operations d)) ++ option_list (direct_name (direct_ d)))).

Definition attribute_op_call (call : SemanticCall) (mechanism : Z) : Edge () :=
  e ← get;
  if negb (mech_room mechanism e) then add set_dropped 1
  else
    retain_resource_charge (provenance_growth mechanism call (rv call) e) ;;
    put_mech mechanism (stat_call (if rv call =? rv_OK then 0 else 1) call []).

Definition start_machine (session bit : Z) (category : string) (mechanism : option Z) (key_receipt : option KeyReceipt)
    (origin : EffectOrigin) : Edge () :=
  e ← get;
  let replaced := active e !! (session, bit) in
  if bool_decide (replaced = None) && (MAX_EDGE_ACTIVE_OPS <=? size (active e))%nat then add set_dropped 1
  else
    allocated ← alloc_generation;
    match allocated with
    | None =>
        end_machine session bit category EndCancelled origin ;;
        add set_started 1 ;; add set_unknown 1 ;; add set_id_exhaustions 1
    | Some g =>
        when (bool_decide (replaced = None)) (retain_resource_charge ACTIVE_MACHINE_CHARGE) ;;
        modify (set_active (<[(session, bit) := mkMachine mechanism Initialized g key_receipt]>)) ;;
        match replaced with
        | Some old => add set_cancelled 1 ;; emit (Ended (generation old) category OutcomeCancelled origin)
        | None => mret tt
        end ;;
        add set_started 1 ;;
        emit (Started g category mechanism key_receipt origin)
    end.

(** ** The pipeline of a completed call *)

Definition reconcile_conclusive (call : SemanticCall) (d : SlotSemantics) (origin : EffectOrigin) : Edge bool :=
  if rv call =? rv_OPERATION_NOT_INITIALIZED then
    changed ← any_each (λ p, end_machine (session call) p.1 p.2 EndUnknown origin) (operation_bits (operations d));
    when changed (note set_state_reconciliations) ;; mret true
  else if (rv call =? rv_SESSION_CLOSED) || (rv call =? rv_SESSION_HANDLE_INVALID) then
    changed ← retire_session (session call) EndCancelled origin;
    when changed (note set_state_reconciliations) ;; mret true
  else if rv call =? rv_CRYPTOKI_NOT_INITIALIZED then
    changed ← retire_all EndCancelled origin;
    when changed (note set_state_reconciliations) ;; mret true
  else mret false.

Definition sessions_on (slot : Z) (e : EdgeSemantics) : list Z :=
  in_order (λ s, [s]) (fst <$> List.filter (λ kv, kv.2 =? slot) (map_to_list (open e))).

Definition apply_auth (call : SemanticCall) (origin : EffectOrigin) : Edge () :=
  if bool_decide (function call = "C_Login"%string) && (user_type call =? 2) && (rv call =? rv_OK) then mret tt
  else if negb (rv call =? rv_OK) && negb (rv call =? rv_PIN_LOCKED) then mret tt
  else
    e ← get;
    match open e !! session call with
    | None => mret tt
    | Some slot =>
        changed ← any_each (λ s,
          a ← end_session_machines s EndCancelled origin;
          b ← drop_session_pending s;
          c ← float_session_async s;
          mret (a || b || c)) (sessions_on slot e);
        when changed (note set_auth_state_ambiguities)
    end.

(** The descriptor of a retained call meets neither the mask nor the flags. *)
Definition spared (mask flags : Z) (call : SemanticCall) : bool :=
  let d := descriptor_of (function call) in
  (operations d &' mask =? 0) && (direct_cancel_flag (direct_ d) &' flags =? 0).

Definition clear_selected (session flags : Z) (origin : EffectOrigin) : Edge () :=
  let mask := cancel_operation_mask flags in
  e ← get;
  end_machines (machine_keys (λ k, (k.1 =? session) && nz (mask &' k.2)) e) EndCancelled origin ;;
  retain_pending (λ k p, negb (k.1 =? session) || spared mask flags (pending_call p)) ;;
  retain_detached (λ _ i, negb (bool_decide (async_owner i = Some session)) || spared mask flags (async_call i)).

Definition apply_session_cancel (call : SemanticCall) (origin : EffectOrigin) : Edge () :=
  when (nz (flags call &~ KNOWN_CANCEL_FLAGS)) (note set_session_cancel_unknown_flags) ;;
  let selected := count_ones (flags call &' KNOWN_CANCEL_FLAGS) in
  if (rv call =? rv_OPERATION_CANCEL_FAILED) && (1 <? selected) then
    clear_selected (session call) (flags call) origin ;; note set_session_cancel_ambiguities
  else when (rv call =? rv_OK) (clear_selected (session call) (flags call) origin).

(** The end of a session by an observed close; whether it was open. *)
Definition close_session (s : Z) (origin : EffectOrigin) : Edge bool :=
  existed ← forget_open s;
  end_session_machines s EndCancelled origin ;;
  drop_session_pending s ;;
  float_session_async s ;;
  mret existed.

(** The tracked sessions with no observed open. *)
Definition unproven_sessions (e : EdgeSemantics) : list Z :=
  let tracked : gset Z :=
    list_to_set (((λ kv, kv.1.1) <$> map_to_list (active e)) ++ ((λ kv, kv.1.1) <$> map_to_list (pending e))
                 ++ omap (λ kv, async_owner kv.2) (map_to_list (detached e))) in
  in_order (λ s, [s]) (List.filter (λ s, bool_decide (open e !! s = None)) (elements tracked)).

Definition apply_lifecycle (call : SemanticCall) (d : SlotSemantics) (origin : EffectOrigin) : Edge () :=
  let action := lifecycle_ d in
  let ok := rv call =? rv_OK in
  if (action =? lifecycle.OPEN_SESSION) && ok && negb (session call =? SESSION_NONE) then
    stale ← retire_session (session call) EndUnknown origin;
    when stale (note set_state_reconciliations) ;;
    e ← get;
    if bool_decide (open e !! session call = None) && (MAX_EDGE_SESSIONS <=? size (open e))%nat then add set_dropped 1
    else
      retain_resource_charge OPEN_BINDING_CHARGE ;;
      modify (set_open (<[session call := slot_id call]>))
  else if (action =? lifecycle.CLOSE_SESSION) && ok then
    existed ← close_session (session call) origin;
    when (negb existed) (note set_unmatched_closes)
  else if (action =? lifecycle.CLOSE_ALL_SESSIONS) && ok then
    e ← get;
    for_each (λ s, close_session s origin ;; mret tt) (sessions_on (slot_id call) e) ;;
    for_each (λ s, retire_session s EndUnknown origin ;; mret tt) (unproven_sessions e)
  else if (action =? lifecycle.FINALIZE) && ok then retire_all EndCancelled origin ;; mret tt
  else if (action =? lifecycle.LOGIN) || (action =? lifecycle.LOGOUT) then apply_auth call origin
  else if action =? lifecycle.SESSION_CANCEL then apply_session_cancel call origin
  else if (action =? lifecycle.SET_OPERATION_STATE) && ok then
    end_session_machines (session call) EndCancelled origin ;; note set_operation_state_imports
  else mret tt.

Definition apply_init (call : SemanticCall) (d : SlotSemantics) (origin : EffectOrigin) (keys : list KeyReceipt)
    : Edge () :=
  if negb (rv call =? rv_OK) || (session call =? SESSION_NONE) then mret tt
  else
    let key := head keys in
    for_each (λ p,
      let '(bit, name) := p in
      let c := mechanism_capture call in
      if c =? capture.MECHANISM_VALUE then start_machine (session call) bit name (Some (mechanism call)) key origin
      else if (c =? capture.MECHANISM_NULL) && nz (semantic_flags d &' NULL_MECHANISM_CANCEL) then
        end_machine (session call) bit name EndCancelled origin ;; mret tt
      else if c =? capture.MECHANISM_NULL then
        note set_semantic_capture_failures ;; start_machine (session call) bit name None key origin
      else start_machine (session call) bit name None key origin) (operation_bits (operations d)).

Definition retains (call : SemanticCall) (d : SlotSemantics) : bool :=
  let t := transition_ d in
  let ok := rv call =? rv_OK in
  if t =? transition.CONTINUE then ok
  else if t =? transition.UPDATE_WITH_OUTPUT then ok || (rv call =? rv_BUFFER_TOO_SMALL)
  else if t =? transition.FINISH_WITH_OUTPUT then
    (rv call =? rv_BUFFER_TOO_SMALL) || (ok && (call_capture call &' capture.OUTPUT_MASK =? capture.OUTPUT_NULL))
  else if t =? transition.FINISH_ALWAYS then false
  else if t =? transition.RETAIN_ALWAYS then true
  else if t =? transition.FINISH_ON_SUCCESS then negb ok
  else true.

Definition advance (m : OpMachine) : OpMachine :=
  mkMachine (machine_mechanism m) InProgress (generation m) (machine_key m).

(** The mechanisms bound to the bits of a call, in order and without repetition. *)
Definition bound_mechanisms (session : Z) (d : SlotSemantics) (e : EdgeSemantics) : list Z :=
  in_order (λ m, [m]) (elements (list_to_set (C := gset Z)
    (omap (λ p, active e !! (session, p.1) ≫= machine_mechanism) (operation_bits (operations d))))).

Definition apply_operations (call : SemanticCall) (d : SlotSemantics) (origin : EffectOrigin) : Edge () :=
  e ← get;
  for_each (λ p, when (bool_decide (active e !! (session call, p.1) = None)) (add set_orphans 1))
    (operation_bits (operations d)) ;;
  for_each (attribute_op_call call) (bound_mechanisms (session call) d e) ;;
  if negb (retains call d) then
    let end_ := if rv call =? rv_OK then EndCompleted else EndFailed in
    for_each (λ p, end_machine (session call) p.1 p.2 end_ origin ;; mret tt) (operation_bits (operations d))
  else
    for_each (λ p, modify (set_active (alter advance (session call, p.1)))) (operation_bits (operations d)).

Definition apply_direct (call : SemanticCall) (d : SlotSemantics) (origin : EffectOrigin) (keys : list KeyReceipt)
    : Edge () :=
  if negb (rv call =? rv_OK) then mret tt
  else
    add set_started 1 ;;
    add set_completed 1 ;;
    allocated ← alloc_generation;
    match allocated with
    | None => add set_id_exhaustions 1
    | Some g =>
        emit (DirectCompleted g (default "direct"%string (direct_name (direct_ d)))
                (if mechanism_capture call =? capture.MECHANISM_VALUE then Some (mechanism call) else None) keys origin)
    end.

Definition apply_completed (call : SemanticCall) (d : SlotSemantics) (origin : EffectOrigin) (keys : list KeyReceipt)
    : Edge () :=
  when ((transition_ d =? transition.INITIALIZE) || negb (direct_ d =? direct.NONE)) (record_init_mechanism call d) ;;
  conclusive ← reconcile_conclusive call d origin;
  if conclusive : bool then mret tt
  else
    apply_lifecycle call d origin ;;
    if transition_ d =? transition.INITIALIZE then apply_init call d origin keys
    else if (direct_ d =? direct.NONE) && negb (operations d =? 0) then apply_operations call d origin
    else when (negb (direct_ d =? direct.NONE)) (apply_direct call d origin keys).

(** ** Asynchronous calls *)

Definition capture_origin (session : Z) (d : SlotSemantics) (e : EdgeSemantics) : CallOrigin :=
  (λ p, (p.1, live_generation e session p.1)) <$> operation_bits (operations d).

Definition completed_call (completion pending : SemanticCall) : SemanticCall :=
  mkCall (function pending) (rv completion) (session completion) (mechanism pending) (call_capture pending)
    (slot_id pending) (target_function pending) (async_value pending) (flags pending) (user_type pending)
    (authorized pending) (unambiguous pending) (count_only pending) (attributable pending) (ts_ns completion).

Definition complete_pending (completion pending : SemanticCall) (origin : CallOrigin) : Edge () :=
  e ← get;
  if negb (origin_matches (session completion) origin e) then
    add set_orphans (Z.max (Z.of_nat (length origin)) 1)
  else
    apply_completed (completed_call completion pending) (descriptor_of (function pending)) (origin_from pending) [].

(** The record that goes: its session, call, origin and lease. *)
Definition evict_candidate (e : EdgeSemantics) : option (Z * SemanticCall * CallOrigin * option ResourceLease * EdgeSemantics) :=
  let p := least (λ kv, [pending_sequence kv.2; kv.1.1; kv.1.2]) (map_to_list (pending e)) in
  let d := least (λ kv, [async_sequence kv.2; kv.1.1.1; kv.1.1.2; kv.1.2]) (map_to_list (detached e)) in
  let from_pending kv :=
    Some (kv.1.1, pending_call kv.2, pending_origin kv.2, pending_resource kv.2, set_pending (delete kv.1) e) in
  let from_detached kv :=
    Some (session (async_call kv.2), async_call kv.2, async_origin kv.2, async_resource kv.2,
          set_detached (delete kv.1) e) in
  match p, d with
  | Some p, Some d => if pending_sequence p.2 <=? async_sequence d.2 then from_pending p else from_detached d
  | Some p, None => from_pending p
  | None, Some d => from_detached d
  | None, None => None
  end.

Definition evict_async_if_needed : Edge () :=
  e ← get;
  if (size (pending e) + size (detached e) <=? MAX_EDGE_PENDING)%nat then mret tt
  else
    match evict_candidate e with
    | None => mret tt
    | Some (s, call, origin, resource, e') =>
        modify (λ _, e') ;;
        for_each (λ p,
          e ← get;
          when (bool_decide (is_Some p.2) && bool_decide (live_generation e s p.1 = p.2))
            (end_machine s p.1 (category_name p.1) EndUnknown (origin_from call) ;; mret tt)) origin ;;
        note set_async_evictions ;;
        drop_lease resource
    end.

Definition next_sequence : Edge Z :=
  modify (set_sequence (λ n, as_u64 (n + 1))) ;; e ← get; mret (sequence e).

Definition queue_pending (call : SemanticCall) : Edge () :=
  e ← get;
  match route_pending call e with
  | Unroutable => add set_orphans 1
  | DuplicateRoute => note set_async_duplicates ;; add set_orphans 1
  | Fresh id d charge =>
      sequence ← next_sequence;
      resource ← take_resource_charge charge;
      e ← get;
      modify (set_pending (<[(session call, id) :=
        mkPendingCall call (capture_origin (session call) d e) None sequence resource]>)) ;;
      evict_async_if_needed
  end.

Definition async_complete (call : SemanticCall) : Edge () :=
  if rv call =? rv_PENDING then mret tt
  else
    e ← get;
    match complete_eligible (session call) (target_function call) e with
    | Zero => add set_orphans 1
    | Many => add set_orphans 1 ;; note set_async_duplicates
    | PendingRecord key =>
        p ← or_panic (pending e !! key);
        modify (set_pending (delete key)) ;;
        complete_pending call (pending_call p) (pending_origin p) ;;
        drop_lease (pending_resource p)
    | DetachedRecord key =>
        i ← or_panic (detached e !! key);
        modify (set_detached (delete key)) ;;
        complete_pending call (async_call i) (async_origin i) ;;
        drop_lease (async_resource i)
    end.

Definition async_get_id (call : SemanticCall) : Edge () :=
  e ← get;
  match open e !! session call with
  | None => add set_orphans 1
  | Some slot =>
      let key := (slot, target_function call, async_value call) in
      if bool_decide (is_Some (detached e !! key)) then add set_orphans 1 ;; note set_async_duplicates
      else
        match pending e !! (session call, target_function call) with
        | None => add set_orphans 1
        | Some p =>
            modify (set_pending (delete (session call, target_function call))) ;;
            sequence ← next_sequence;
            modify (set_detached (<[key :=
              mkAsyncId (Some (session call)) (pending_call p) (pending_origin p) (pending_pos p) sequence
                (pending_resource p)]>)) ;;
            evict_async_if_needed
        end
  end.

Definition async_join (call : SemanticCall) : Edge () :=
  e ← get;
  match open e !! session call with
  | None => add set_orphans 1
  | Some slot =>
      let key := (slot, target_function call, async_value call) in
      match detached e !! key with
      | Some i =>
          modify (set_detached (<[key :=
            mkAsyncId (Some (session call)) (async_call i) (async_origin i) (async_pos i) (async_sequence i)
              (async_resource i)]>))
      | None => add set_orphans 1
      end
  end.

Definition observe_async (call : SemanticCall) : Edge () :=
  if target_function call =? FUNCTION_NONE then add set_orphans 1
  else if nz (call_capture call &' capture.ASYNC_VALUE_UNREADABLE) then add set_orphans 1
  else
    let action := lifecycle_ (descriptor_of (function call)) in
    if action =? lifecycle.ASYNC_COMPLETE then async_complete call
    else if (action =? lifecycle.ASYNC_GET_ID) && (rv call =? rv_OK) then async_get_id call
    else if (action =? lifecycle.ASYNC_JOIN) && (rv call =? rv_OK) then async_join call
    else mret tt.

(** ** Observing *)

Definition observe_inner (call : SemanticCall) (origin : EffectOrigin) (keys : list KeyReceipt) : Edge Z :=
  e ← get;
  let dropped_before := dropped e in
  gated ← gate call;
  match gated with
  | None => mret 0
  | Some d =>
      add set_calls 1 ;;
      modify (set_last_seen_ns (λ n, Z.max n (ts_ns call))) ;;
      (if (lifecycle_ d =? lifecycle.ASYNC_COMPLETE) || (lifecycle_ d =? lifecycle.ASYNC_GET_ID)
          || (lifecycle_ d =? lifecycle.ASYNC_JOIN) then observe_async call
       else if rv call =? rv_PENDING then queue_pending call
       else apply_completed call d origin keys) ;;
      e ← get;
      mret (saturating_sub (dropped e) dropped_before)
  end.

Definition observe_with_effects (call : SemanticCall) (origin : EffectOrigin) : Edge Z := observe_inner call origin [].

Definition observe_joint (call : SemanticCall) (origin : EffectOrigin) (keys : list KeyReceipt) : Edge Z :=
  observe_inner call origin keys.

Definition observe (call : SemanticCall) : Edge Z := quietly (observe_with_effects call placeholder).

(** The reservation of the growth; refused, the scratch just borrowed is dropped. *)
Definition reserve_growth (call : SemanticCall) : Edge ResourceLease := λ r,
  match acquire (preflight_growth call (edge r)) (pool r) with
  | (Ok reservation, p) => (inr reservation, mkRun p (edge r) (sink r))
  | (Err refusal, p) =>
      match scratch_drop p with
      | Some p => (inl (Refuse refusal), mkRun p (edge r) (sink r))
      | None => (inl Panic, r)
      end
  end.

Definition prepare_resource_transition (call : SemanticCall) : Edge ResourceLease :=
  e ← get;
  or_panic (resource_owner e) ;;
  on_pool scratch ;;
  reserve_growth call.

(** [drop(self.resource_transition.take())] *)
Definition drop_transition : Edge () :=
  e ← get;
  match resource_transition e with
  | None => mret tt
  | Some reservation =>
      modify (set_resource_transition (λ _, None)) ;;
      set_pool (lease_drop reservation) ;;
      set_pool scratch_drop
  end.

(** The observation under an installed reservation. *)
Definition observe_prepared (call : SemanticCall) (origin : EffectOrigin) (keys : list KeyReceipt)
    (prepared : ResourceLease) : Edge Z :=
  e ← get;
  or_panic (match resource_transition e with None => Some tt | Some _ => None end) ;;
  modify (set_resource_transition (λ _, Some prepared)) ;;
  refused ← observe_inner call origin keys;
  drop_transition ;;
  mret refused.

Definition observe_with_resources_and_effects (call : SemanticCall) (origin : EffectOrigin) : Edge Z := λ r,
  match prepare_resource_transition call r with
  | (inr prepared, r) => observe_prepared call origin [] prepared r
  | (inl (Refuse refusal), r) => (invalidate ;; se_err (Refuse refusal)) r
  | (inl Panic, r) => (inl Panic, r)
  end.

Definition observe_with_resources (call : SemanticCall) : Edge Z := quietly (observe_with_resources_and_effects call placeholder).

Definition observe_joint_with_resources (call : SemanticCall) (origin : EffectOrigin) (keys : list KeyReceipt) : Edge Z :=
  e ← get;
  match resource_owner e with
  | None => observe_inner call origin keys
  | Some _ => prepared ← prepare_resource_transition call; observe_prepared call origin keys prepared
  end.

(** ** Construction and destruction *)

Definition with_resources (p : SharedPool) : result SemanticResourceRefusal EdgeSemantics * SharedPool :=
  match acquire REDUCER_BASE_CHARGE p with
  | (Ok owner, p) => (Ok (set_resource_owner (λ _, Some owner) EdgeSemantics_default), p)
  | (Err e, p) => (Err e, p)
  end.

(** [Drop for EdgeSemantics], and the drop of its fields. *)
Definition edge_drop : Edge () :=
  invalidate ;;
  modify (set_mechs (λ _, ∅)) ;;
  drop_transition ;;
  e ← get;
  modify (set_resource_owner (λ _, None)) ;;
  drop_lease (resource_owner e).

(** ** The published label *)

Definition has_claims (e : EdgeSemantics) : bool := negb (bool_decide (mechs e = ∅)) || (0 <? started e).

Definition label (e : EdgeSemantics) : string :=
  if double_load_detected e then "unknown (same-file double-load)"
  else if has_claims e then "observed"
  else if 0 <? unattributable_calls e then "unknown (same-file double-load)"
  else if seen_claim_capable e then "unknown (no operation evidence)"
  else if 0 <? unauthorized_calls e then "unknown (unauthoritative module)"
  else if 0 <? ambiguous_calls e then "unknown (ambiguous descriptor)"
  else "unknown (count-only slot)".

Definition has_live_operations (e : EdgeSemantics) : bool := negb (bool_decide (active e = ∅)).
End Reducer.
