(* ===== verification/EdgeInv.v ===== *)
(** * The per-edge reducer: invariant

    What holds of a run of [Edge] between calls: the leases of the reducer equal what it
    retains, to the byte ([funded]); its tables are bounded and its counters balance
    ([tracked]); and the effects it emitted replay to the operations that are live
    ([logged]).  Every method that ends things keeps the invariant and only removes
    ([ends]). *)
From S2P Require Import Prelude ObjectPolicy Semantics Kinds Pool Edge.

(** ** Replaying effects *)

(** The last identity handed out and the live operations with their categories. *)
Definition replay_step (st : Z * gmap Z string) (e : OperationEffect) : option (Z * gmap Z string) :=
  let '(last, live) := st in
  match e with
  | Started id category _ _ _ => if last <? id then Some (id, <[id := category]> live) else None
  | Ended id category _ _ => if bool_decide (live !! id = Some category) then Some (last, delete id live) else None
  | DirectCompleted id _ _ _ _ => if last <? id then Some (id, live) else None
  end.

Definition replay (l : list OperationEffect) : option (Z * gmap Z string) :=
  foldl (λ st e, st ← st; replay_step st e) (Some (0, ∅)) l.

Lemma replay_snoc l e : replay (l ++ [e]) = replay l ≫= λ st, replay_step st e.
Proof. unfold replay. by rewrite foldl_app. Qed.

(** The operations a log started, direct ones included. *)
Definition starts (l : list OperationEffect) : Z :=
  zsum (λ e, match e with Ended _ _ _ _ => 0 | _ => 1 end) l.

Lemma starts_snoc l e : starts (l ++ [e]) = starts l + match e with Ended _ _ _ _ => 0 | _ => 1 end.
Proof. unfold starts. rewrite zsum_app. simpl. lia. Qed.

(** ** Charges *)

Definition held (l : option ResourceLease) : Z := match l with Some l => lease_bytes l | None => 0 end.

Definition name_charge (f : string) : Z := FUNCTION_CHARGE + text_len f + OWNED_ALLOCATION_PADDING.

Definition stat_charge (s : EdgeMechStat) : Z :=
  MECHANISM_CHARGE + CATEGORY_CHARGE * Z.of_nat (size (stat_ops s)) + zsum name_charge (elements (stat_functions s))
  + RETURN_CHARGE * Z.of_nat (size (stat_returns s)).

(** What the owner lease of a reducer pays for. *)
Definition owned (e : EdgeSemantics) : Z :=
  REDUCER_BASE_CHARGE + OPEN_BINDING_CHARGE * Z.of_nat (size (open e))
  + ACTIVE_MACHINE_CHARGE * Z.of_nat (size (active e)) + sum_by stat_charge (mechs e).

(** The leases its asynchronous records hold. *)
Definition async_held (e : EdgeSemantics) : Z :=
  sum_by (λ p, held (pending_resource p)) (pending e) + sum_by (λ i, held (async_resource i)) (detached e).

Definition leased (l : option ResourceLease) : Prop := ∃ b, l = Some (mkLease b) ∧ 0 <= b.

(** [rest] is what the other owners of the pool hold. *)
Record funded (rest : Z) (r : Run) : Prop := mkFunded {
  fu_owner : resource_owner (edge r) = Some (mkLease (owned (edge r)));
  fu_charged : charged (pool r) = SEMANTIC_TRANSITION_SCRATCH + rest + owned (edge r) + async_held (edge r)
    + held (resource_transition (edge r));
  fu_limit : charged (pool r) <= limit (pool r) < 2 ^ 64;
  fu_rest : 0 <= rest;
  fu_pending : map_Forall (λ _ p, leased (pending_resource p)) (pending (edge r));
  fu_detached : map_Forall (λ _ i, leased (async_resource i)) (detached (edge r));
  fu_transition : resource_transition (edge r) = None ∨ leased (resource_transition (edge r));
  fu_scratch : scratch_borrowed (pool r) = bool_decide (is_Some (resource_transition (edge r)));
}.

(** Started operations are ended or live, unless the counter is saturated. *)
Record balanced (e : EdgeSemantics) : Prop := mkBalanced {
  ba_started : 0 <= started e <= U64_MAX;
  ba_ends : 0 <= completed e ∧ 0 <= cancelled e ∧ 0 <= failed e ∧ 0 <= unknown e;
  ba_sum : started e < U64_MAX →
    started e = completed e + cancelled e + failed e + unknown e + Z.of_nat (size (active e));
}.

(** The structure of a reducer with at most [n] asynchronous records. *)
Record tracked (n : nat) (e : EdgeSemantics) : Prop := mkTracked {
  tr_open : (size (open e) <= MAX_EDGE_SESSIONS)%nat;
  tr_active : (size (active e) <= MAX_EDGE_ACTIVE_OPS)%nat;
  tr_mechs : (size (mechs e) <= MAX_EDGE_MECHANISMS)%nat;
  tr_async : (size (pending e) + size (detached e) <= n)%nat;
  tr_stats : map_Forall (λ _ s, (size (stat_functions s) <= MAX_EDGE_PROVENANCE_FUNCTIONS)%nat ∧
    (size (stat_returns s) <= MAX_EDGE_PROVENANCE_RETURNS)%nat) (mechs e);
  tr_seq : 0 <= machine_seq e < 2 ^ 64;
  tr_bits : map_Forall (λ k _, is_Some (operation_name k.2)) (active e);
  tr_gen : map_Forall (λ _ m, 1 <= generation m <= machine_seq e) (active e);
  tr_inj : ∀ k k' m m', active e !! k = Some m → active e !! k' = Some m' → generation m = generation m' → k = k';
  tr_balanced : balanced e;
}.

(** The live operations of a reducer are those its log leaves live. *)
Record logged (r : Run) : Prop := mkLogged {
  lo_replay : ∃ last live, replay (sink r) = Some (last, live) ∧ last <= machine_seq (edge r) ∧
    ∀ id c, live !! id = Some c ↔
      ∃ k m, active (edge r) !! k = Some m ∧ generation m = id ∧ category_name k.2 = c;
  lo_exhaustions : 0 <= id_exhaustions (edge r);
  lo_starts : started (edge r) < U64_MAX → started (edge r) = starts (sink r) + id_exhaustions (edge r);
}.

(** [b]: whether the effects are listened to. *)
Record inv (b : bool) (n : nat) (rest : Z) (r : Run) : Prop := mkInv {
  iv_funded : funded rest r;
  iv_tracked : tracked n (edge r);
  iv_logged : b = true → logged r;
}.

(** ** Non-negative charges *)

Lemma text_len_nonneg s : 0 <= text_len s.
Proof. unfold text_len. lia. Qed.

Lemma stat_charge_nonneg s : 0 <= stat_charge s.
Proof.
  unfold stat_charge, MECHANISM_CHARGE, CATEGORY_CHARGE, RETURN_CHARGE.
  pose proof (zsum_nonneg name_charge (elements (stat_functions s))) as H.
  assert (0 <= zsum name_charge (elements (stat_functions s))); [|lia].
  apply H. intros f. unfold name_charge, FUNCTION_CHARGE, OWNED_ALLOCATION_PADDING. pose proof (text_len_nonneg f). lia.
Qed.

Lemma owned_at_least e :
  REDUCER_BASE_CHARGE + OPEN_BINDING_CHARGE * Z.of_nat (size (open e))
  + ACTIVE_MACHINE_CHARGE * Z.of_nat (size (active e)) <= owned e.
Proof. unfold owned. pose proof (sum_by_nonneg stat_charge (mechs e) stat_charge_nonneg). lia. Qed.

Lemma held_leased l : leased l → 0 <= held l.
Proof. by intros (b & -> & Hb). Qed.

(** A sum of leases that are all held. *)
Lemma sum_leased {K A} `{Countable K} (f : A → option ResourceLease) (m : gmap K A) :
  map_Forall (λ _ x, leased (f x)) m → 0 <= sum_by (λ x, held (f x)) m.
Proof.
  induction m as [|i x m Hi IH] using map_ind; intros Hm; [by rewrite sum_by_empty|].
  apply map_Forall_insert in Hm as [Hx Hm]; [|done]. rewrite sum_by_insert_new by done.
  apply held_leased in Hx. specialize (IH Hm). lia.
Qed.

Lemma async_held_nonneg rest r : funded rest r → 0 <= async_held (edge r).
Proof.
  intros [_ _ _ _ Hp Hd _ _]. unfold async_held. pose proof (sum_leased pending_resource _ Hp).
  pose proof (sum_leased async_resource _ Hd). lia.
Qed.

Lemma transition_nonneg rest r : funded rest r → 0 <= held (resource_transition (edge r)).
Proof. intros [_ _ _ _ _ _ [->|H] _]; [done|by apply held_leased]. Qed.

(** ** Ending *)

(** What a run that only ends things leaves. *)
Record ending (r r' : Run) : Prop := mkEnding {
  en_open : open (edge r') ⊆ open (edge r);
  en_active : active (edge r') ⊆ active (edge r);
  en_mechs : mechs (edge r') = mechs (edge r);
  en_seq : machine_seq (edge r') = machine_seq (edge r);
  en_transition : resource_transition (edge r') = resource_transition (edge r);
}.

#[export] Instance ending_preorder : PreOrder ending.
Proof.
  split; [intros r; by constructor|]. intros r1 r2 r3 [H1 H2 H3 H4 H5] [K1 K2 K3 K4 K5].
  constructor; [by etrans|by etrans|congruence..].
Qed.

(** [m] succeeds from every state of the invariant, keeps it and only ends things. *)
Definition ends {A} (m : Edge A) : Prop := ∀ b n rest r,
  inv b n rest r → ∃ a r', m r = (inr a, r') ∧ inv b n rest r' ∧ ending r r'.

Create HintDb edge.

Lemma ends_ret {A} (a : A) : ends (mret a).
Proof. intros b n rest r H. by exists a, r. Qed.

Lemma ends_bind {A B} (m : Edge A) (k : A → Edge B) : ends m → (∀ a, ends (k a)) → ends (m ≫= k).
Proof.
  intros Hm Hk b n rest r Hi. destruct (Hm b n rest r Hi) as (a & r1 & E1 & Hi1 & He1).
  destruct (Hk a b n rest r1 Hi1) as (c & r2 & E2 & Hi2 & He2). exists c, r2. split_and!; [|done|by etrans].
  by rewrite (bind_ok _ _ _ _ _ E1).
Qed.

Lemma ends_get {B} (k : EdgeSemantics → Edge B) : (∀ e, ends (k e)) → ends (get ≫= k).
Proof. intros Hk b n rest r Hi. exact (Hk (edge r) b n rest r Hi). Qed.

Lemma ends_for_each {A} (f : A → Edge ()) l : (∀ x, x ∈ l → ends (f x)) → ends (for_each f l).
Proof.
  intros Hf. induction l as [|x l IH]; simpl; [apply ends_ret|].
  apply ends_bind; [apply Hf; by left|]. intros _. apply IH. intros y Hy. apply Hf. by right.
Qed.

Lemma ends_any_each {A} (f : A → Edge bool) l : (∀ x, x ∈ l → ends (f x)) → ends (any_each f l).
Proof.
  intros Hf. induction l as [|x l IH]; simpl; [apply ends_ret|].
  apply ends_bind; [apply Hf; by left|]. intros b. apply ends_bind; [|intros; apply ends_ret].
  apply IH. intros y Hy. apply Hf. by right.
Qed.

Lemma ends_when b m : ends m → ends (when b m).
Proof. intros H. destruct b; [done|apply ends_ret]. Qed.

(** An update of counters and evidence that the invariant does not read. *)
Definition inert (f : EdgeSemantics → EdgeSemantics) : Prop := ∀ e,
  open (f e) = open e ∧ active (f e) = active e ∧ mechs (f e) = mechs e ∧ pending (f e) = pending e ∧
  detached (f e) = detached e ∧ machine_seq (f e) = machine_seq e ∧ id_exhaustions (f e) = id_exhaustions e ∧
  started (f e) = started e ∧ completed (f e) = completed e ∧ cancelled (f e) = cancelled e ∧
  failed (f e) = failed e ∧ unknown (f e) = unknown e ∧ resource_transition (f e) = resource_transition e ∧
  resource_owner (f e) = resource_owner e.

Lemma inert_inv f b n rest p e l : inert f → inv b n rest (mkRun p e l) → inv b n rest (mkRun p (f e) l).
Proof.
  intros Hf [Hfu Htr Hlo]. destruct (Hf e) as (E1 & E2 & E3 & E4 & E5 & E6 & E7 & E8 & E9 & E10 & E11 & E12 & E13 & E14).
  constructor.
  - destruct Hfu. constructor; unfold owned, async_held in *; simpl in *; by rewrite ?E1, ?E2, ?E3, ?E4, ?E5, ?E13, ?E14.
  - destruct Htr as [? ? ? ? ? ? ? ? ? [? ? ?]].
    constructor; simpl in *; rewrite ?E1, ?E2, ?E3, ?E4, ?E5, ?E6; try done.
    constructor; by rewrite ?E2, ?E8, ?E9, ?E10, ?E11, ?E12.
  - intros Hb. destruct (Hlo Hb). constructor; simpl in *; by rewrite ?E2, ?E6, ?E7, ?E8.
Qed.

Lemma inert_ends f : inert f → ends (modify f).
Proof.
  intros Hf b n rest [p e l] Hi. exists tt, (mkRun p (f e) l). split_and!; [done|by apply inert_inv|].
  destruct (Hf e) as (E1 & E2 & E3 & E4 & E5 & E6 & _ & _ & _ & _ & _ & _ & E13 & _).
  constructor; simpl; by rewrite ?E1, ?E2, ?E3, ?E6, ?E13.
Qed.

Ltac inert := apply inert_ends; intros ?; by split_and!.

Lemma note_ends f : ends (note f).
Proof. inert. Qed.

Lemma add_orphans_ends k : ends (add set_orphans k).
Proof. inert. Qed.

Lemma add_dropped_ends k : ends (add set_dropped k).
Proof. inert. Qed.

#[export] Hint Resolve ends_ret note_ends add_orphans_ends add_dropped_ends : edge.

Lemma map_Forall_sub {K A} `{Countable K} (P : K → A → Prop) (m m' : gmap K A) :
  m' ⊆ m → map_Forall P m → map_Forall P m'.
Proof. intros Hs Hm k x Hk. apply Hm. by eapply lookup_weaken. Qed.

(** ** Refunds *)

Lemma release_ok bytes o p e l :
  resource_owner e = Some (mkLease o) → 0 <= bytes <= o → o < 2 ^ 64 → bytes <= charged p < 2 ^ 64 →
  release_resource_charge bytes (mkRun p e l) =
    (inr tt, mkRun (set_charged (charged p - bytes) p) (set_resource_owner (λ _, Some (mkLease (o - bytes))) e) l).
Proof.
  intros Ho Hb Ho' Hc. unfold release_resource_charge. simpl. rewrite Ho. unfold lease_release, checked_sub. simpl.
  rewrite (checked_small 64 (o - bytes)) by (unfold in_width; lia). simpl.
  by rewrite (checked_small 64 (charged p - bytes)) by (unfold in_width; lia).
Qed.

(** The bounds a funded run gives to its parts. *)
Lemma funded_bounds rest r :
  funded rest r →
  owned (edge r) + async_held (edge r) + held (resource_transition (edge r)) <= charged (pool r) < 2 ^ 64 ∧
  0 <= async_held (edge r) ∧ 0 <= held (resource_transition (edge r)).
Proof.
  intros Hf. pose proof (async_held_nonneg _ _ Hf). pose proof (transition_nonneg _ _ Hf). destruct Hf.
  unfold SEMANTIC_TRANSITION_SCRATCH in *. lia.
Qed.

(** [funded] when the owner refunded [k] bytes. *)
Lemma funded_refund rest p e l k e' l' :
  funded rest (mkRun p e l) → owned e' = owned e - k → 0 <= k →
  resource_owner e' = Some (mkLease (owned e - k)) → pending e' = pending e → detached e' = detached e →
  resource_transition e' = resource_transition e → funded rest (mkRun (set_charged (charged p - k) p) e' l').
Proof.
  intros [Ho Hc Hl Hr Hp Hd Ht Hs] Hk Hk0 Ho' Ep Ed Et. simpl in *.
  constructor; simpl; unfold async_held in *; rewrite ?Ep, ?Ed, ?Et, ?Hk; try done; [|lia]. rewrite Hc. lia.
Qed.

(** ** Ending a machine *)

(** The counter an end state adds to. *)
Definition ended_count (s : EndState) : EdgeSemantics → EdgeSemantics :=
  match s with
  | EndCompleted => set_completed (λ v, saturating_add 64 v 1)
  | EndCancelled => set_cancelled (λ v, saturating_add 64 v 1)
  | EndFailed => set_failed (λ v, saturating_add 64 v 1)
  | EndUnknown => set_unknown (λ v, saturating_add 64 v 1)
  end.

Definition ended_edge (k : Z * Z) (s : EndState) (e : EdgeSemantics) : EdgeSemantics :=
  ended_count s (set_resource_owner (λ _, Some (mkLease (owned e - ACTIVE_MACHINE_CHARGE))) (set_active (delete k) e)).

Lemma owned_delete_machine e k m :
  active e !! k = Some m → owned (set_active (delete k) e) = owned e - ACTIVE_MACHINE_CHARGE.
Proof.
  intros Hk. unfold owned, ACTIVE_MACHINE_CHARGE. simpl. rewrite map_size_delete_Some by done.
  assert (size (active e) ≠ 0%nat); [|lia]. by eapply map_size_ne_0_lookup_2.
Qed.

Lemma end_machine_eq s b c st o rest p e l m :
  funded rest (mkRun p e l) → active e !! (s, b) = Some m →
  end_machine s b c st o (mkRun p e l) =
    (inr true, mkRun (set_charged (charged p - ACTIVE_MACHINE_CHARGE) p) (ended_edge (s, b) st e)
                 (l ++ [Ended (generation m) c (outcome_of st) o])).
Proof.
  intros Hf Hm. destruct (funded_bounds _ _ Hf) as (Hb & Ha & Ht). cbn [edge pool] in *. pose proof (owned_at_least e).
  assert (1 <= Z.of_nat (size (active e))).
  { assert (size (active e) ≠ 0%nat); [|lia]. by eapply map_size_ne_0_lookup_2. }
  unfold REDUCER_BASE_CHARGE, OPEN_BINDING_CHARGE, ACTIVE_MACHINE_CHARGE in *.
  unfold end_machine. rewrite (bind_ok _ _ _ _ _ (eq_refl : get (mkRun p e l) = (inr e, _))), Hm.
  rewrite (bind_ok (modify _) _ _ tt _ eq_refl).
  cbn [pool edge sink]. unfold ACTIVE_MACHINE_CHARGE.
  rewrite (bind_ok _ _ _ _ _ (release_ok 1024 (owned e) p (set_active (delete (s, b)) e) l (fu_owner _ _ Hf)
    ltac:(lia) ltac:(lia) ltac:(lia))).
  by destruct st.
Qed.

Lemma balanced_end e k m s : balanced e → active e !! k = Some m → balanced (ended_edge k s e).
Proof.
  intros [[Hs0 Hs] He Hsum] Hk. assert (size (delete k (active e)) = pred (size (active e))) as Hsz by (by apply map_size_delete_Some).
  assert (size (active e) ≠ 0%nat) as Hne by (by eapply map_size_ne_0_lookup_2).
  constructor; [by destruct s|destruct s; simpl; unfold saturating_add; lia|].
  intros Hlt. assert (started e < U64_MAX) as Hlt' by (by destruct s). specialize (Hsum Hlt').
  unfold U64_MAX in *. destruct s; simpl in *; rewrite Hsz; unfold saturating_add; lia.
Qed.

(** The log after a machine with its category ended. *)
Lemma logged_end n p p' e l k m s o :
  tracked n e → logged (mkRun p e l) → active e !! k = Some m →
  logged (mkRun p' (ended_edge k s e) (l ++ [Ended (generation m) (category_name k.2) (outcome_of s) o])).
Proof.
  intros Ht [(last & live & Hr & Hlast & Hlive) Hx Hst] Hk. simpl in *. constructor; simpl.
  - exists last, (delete (generation m) live). rewrite replay_snoc, Hr. simpl.
    rewrite bool_decide_eq_true_2 by (apply Hlive; by exists k, m). split_and!; [done|by destruct s|].
    intros id c. rewrite lookup_delete_Some, Hlive.
    assert (active (ended_edge k s e) = delete k (active e)) as -> by (by destruct s). split.
    + intros (Hne & k' & m' & Hk' & <- & <-). exists k', m'. split_and!; [|done..].
      apply lookup_delete_Some. split; [|done]. intros <-. congruence.
    + intros (k' & m' & [Hne Hk']%lookup_delete_Some & <- & <-). split; [|by exists k', m'].
      intros Heq. by apply Hne, (tr_inj _ _ Ht k k' m m').
  - by destruct s.
  - rewrite starts_snoc. intros H. assert (started e < U64_MAX) by (by destruct s).
    assert (started (ended_edge k s e) = started e ∧ id_exhaustions (ended_edge k s e) = id_exhaustions e) as [-> ->]
      by (by destruct s). rewrite Hst by done. lia.
Qed.

Lemma tracked_end n e k m s : tracked n e → active e !! k = Some m → tracked n (ended_edge k s e).
Proof.
  intros [Ho Ha Hm Hy Hst Hq Hb Hg Hi Hba] Hk.
  assert (active (ended_edge k s e) = delete k (active e)) as Ea by (by destruct s).
  assert (delete k (active e) ⊆ active e) as Hsub by apply delete_subseteq.
  constructor; rewrite ?Ea; try (by destruct s).
  - etrans; [apply map_subseteq_size, Hsub|done].
  - by eapply map_Forall_sub.
  - replace (machine_seq (ended_edge k s e)) with (machine_seq e) by (by destruct s). by eapply map_Forall_sub.
  - intros k1 k2 m1 m2 H1 H2. apply Hi; by eapply lookup_weaken.
  - by eapply balanced_end.
Qed.

Lemma end_machine_ends s b c st o : c = category_name b → ends (end_machine s b c st o).
Proof.
  intros -> bb n rest [p e l] [Hf Ht Hl]. destruct (active e !! (s, b)) as [m|] eqn:Hm.
  - eexists _, _. split; [by eapply end_machine_eq|]. split.
    + constructor; simpl.
      * eapply funded_refund; [exact Hf|..]; try by destruct st.
        -- pose proof (owned_delete_machine _ _ _ Hm) as H. by destruct st.
      * by eapply tracked_end.
      * intros Hb. by apply (logged_end n p _ e l (s, b) m st o), Hm; [|apply Hl].
    + constructor; simpl; try by destruct st.
      assert (active (ended_edge (s, b) st e) = delete (s, b) (active e)) as -> by (by destruct st). apply delete_subseteq.
  - exists false, (mkRun p e l). split_and!; [|done|done].
    unfold end_machine. rewrite (bind_ok get _ _ _ _ eq_refl). simpl. by rewrite Hm.
Qed.

#[export] Hint Resolve end_machine_ends : edge.

(** ** Ending many things *)

Lemma end_machines_ends keys st o : ends (end_machines keys st o).
Proof. apply ends_for_each. intros k _. apply ends_bind; [by apply end_machine_ends|]. auto with edge. Qed.

Lemma end_session_machines_ends s st o : ends (end_session_machines s st o).
Proof. apply ends_get. intros e. apply ends_bind; [apply end_machines_ends|]. auto with edge. Qed.

Lemma end_session_machines_all_ends st o : ends (end_session_machines_all st o).
Proof. apply ends_get. intros e. apply ends_bind; [apply end_machines_ends|]. auto with edge. Qed.

(** Fewer open sessions, and the refund of the ones that went. *)
Lemma tracked_open n e g : tracked n e → g (open e) ⊆ open e → tracked n (set_open g e).
Proof.
  intros [Ho Ha Hm Hy Hst Hq Hb Hg Hi [H1 H2 H3]] Hs. constructor; try done.
  simpl. etrans; [apply map_subseteq_size, Hs|done].
Qed.

Lemma forget_many g b n rest p e l :
  inv b n rest (mkRun p e l) → g (open e) ⊆ open e →
  let k := (Z.of_nat (size (open e)) - Z.of_nat (size (g (open e)))) * OPEN_BINDING_CHARGE in
  ∃ r', release_resource_charge k (mkRun p (set_open g e) l) = (inr tt, r') ∧ inv b n rest r' ∧ ending (mkRun p e l) r'.
Proof.
  intros [Hf Ht Hl] Hs k. destruct (funded_bounds _ _ Hf) as (Hb & Ha & Htr). cbn [edge pool] in *.
  pose proof (owned_at_least e). pose proof (map_subseteq_size _ _ Hs) as Hsz.
  assert (0 <= k <= owned e) as Hk.
  { unfold k, REDUCER_BASE_CHARGE, OPEN_BINDING_CHARGE, ACTIVE_MACHINE_CHARGE in *. lia. }
  eexists. split; [apply (release_ok k (owned e)); [exact (fu_owner _ _ Hf)|lia..]|]. split; [|by constructor].
  constructor.
  - eapply funded_refund; [exact Hf| |lia|done..]. unfold k, owned, OPEN_BINDING_CHARGE. simpl. lia.
  - apply (tracked_open n e g) in Ht; [|done]. destruct Ht as [? ? ? ? ? ? ? ? ? [? ? ?]]. by constructor.
  - intros Hbt. destruct (Hl Hbt). by constructor.
Qed.

Lemma set_open_same g e : g (open e) = open e → set_open g e = e.
Proof. intros H. destruct e. unfold set_open. simpl in *. by rewrite H. Qed.

Lemma forget_open_ends s : ends (forget_open s).
Proof.
  intros b n rest [p e l] Hi. unfold forget_open. rewrite (bind_ok get _ _ _ _ eq_refl).
  cbn [edge]. rewrite (bind_ok (modify _) _ _ tt _ eq_refl). cbn [pool edge sink]. case_bool_decide as Hs.
  - assert (delete s (open e) ⊆ open e) as Hsub by apply delete_subseteq.
    destruct (forget_many (delete s) _ _ _ _ _ _ Hi Hsub) as (r' & Hr & Hi' & He).
    assert (size (delete s (open e)) = pred (size (open e))) as Hsz by (by apply map_size_delete_Some).
    assert (size (open e) ≠ 0%nat) by (destruct Hs; by eapply map_size_ne_0_lookup_2).
    rewrite Hsz in Hr. replace ((_ - _) * _) with OPEN_BINDING_CHARGE in Hr by (unfold OPEN_BINDING_CHARGE; lia).
    exists true, r'. split_and!; [|done|done]. simpl when. by rewrite (bind_ok _ _ _ _ _ Hr).
  - exists false, (mkRun p e l). split_and!; [|done|done]. simpl when. rewrite set_open_same; [done|].
    apply delete_id. by apply eq_None_not_Some.
Qed.

Lemma clear_open_ends : ends clear_open.
Proof.
  intros b n rest [p e l] Hi. unfold clear_open. rewrite (bind_ok get _ _ _ _ eq_refl).
  cbn [edge]. rewrite (bind_ok (modify _) _ _ tt _ eq_refl). cbn [pool edge sink].
  destruct (forget_many (λ _, ∅) _ _ _ _ _ _ Hi (map_empty_subseteq _)) as (r' & Hr & Hi' & He).
  rewrite map_size_empty in Hr. replace (Z.of_nat (size (open e)) - Z.of_nat 0) with (Z.of_nat (size (open e))) in Hr by lia.
  exists tt, r'. by rewrite Hr.
Qed.

(** Leases dropped one after the other. *)
Lemma drop_leases {A} (f : A → option ResourceLease) xs p e l :
  Forall (λ x, leased (f x)) xs → zsum (λ x, held (f x)) xs <= charged p < 2 ^ 64 →
  for_each (λ x, drop_lease (f x)) xs (mkRun p e l) =
    (inr tt, mkRun (set_charged (charged p - zsum (λ x, held (f x)) xs) p) e l).
Proof.
  intros Hx. revert p. induction Hx as [|x xs (b & Hb & Hb0) Hx IH]; intros p Hc.
  { simpl. replace (charged p - 0) with (charged p) by lia. by destruct p. }
  assert (0 <= zsum (λ x, held (f x)) xs) as H0.
  { clear -Hx. induction Hx as [|y ys Hy Hys IH]; simpl; [lia|]. apply held_leased in Hy. lia. }
  cbn [for_each zsum foldr] in *. fold (zsum (λ x, held (f x)) xs) in *. rewrite Hb in *. cbn [drop_lease held lease_bytes] in *.
  assert (set_pool (lease_drop (mkLease b)) (mkRun p e l) = (inr tt, mkRun (set_charged (charged p - b) p) e l)) as E.
  { unfold set_pool, lease_drop, checked_sub. cbn [pool lease_bytes]. by rewrite checked_small by (unfold in_width; lia). }
  rewrite (bind_ok _ _ _ _ _ E), IH by (simpl charged; lia). simpl charged. unfold set_charged. simpl. do 3 f_equal. lia.
Qed.

Lemma sum_by_to_list {K A} `{Countable K} (f : A → Z) (m : gmap K A) : sum_by f m = zsum (λ kv, f kv.2) (map_to_list m).
Proof. unfold sum_by, zsum. rewrite map_fold_foldr. by apply foldr_ext; [intros []|..]. Qed.

Lemma map_to_list_Forall {K A} `{Countable K} (P : A → Prop) (m : gmap K A) :
  map_Forall (λ _ x, P x) m → Forall (λ kv, P kv.2) (map_to_list m).
Proof. intros Hm. apply Forall_forall. intros [k x] Hk%elem_of_map_to_list. by eapply Hm. Qed.

(** The leases of the entries that [retain] removes. *)
Lemma drop_part {K A} `{Countable K} (f : A → option ResourceLease) (keep : K → A → bool) (m : gmap K A) p e l :
  map_Forall (λ _ x, leased (f x)) m → sum_by (λ x, held (f x)) m <= charged p < 2 ^ 64 →
  let kept := filter (λ kv, keep kv.1 kv.2 = true) m in
  let k := sum_by (λ x, held (f x)) m - sum_by (λ x, held (f x)) kept in
  for_each (λ kv, drop_lease (f kv.2)) (map_to_list (filter (λ kv, keep kv.1 kv.2 ≠ true) m)) (mkRun p e l) =
    (inr tt, mkRun (set_charged (charged p - k) p) e l) ∧
  map_Forall (λ _ x, leased (f x)) kept ∧ 0 <= k ∧ (size kept <= size m)%nat.
Proof.
  intros Hm Hc kept k. set (gone := filter (λ kv, keep kv.1 kv.2 ≠ true) m).
  assert (sum_by (λ x, held (f x)) kept + sum_by (λ x, held (f x)) gone = sum_by (λ x, held (f x)) m) as Hsum
    by (exact (sum_by_filter _ (λ kv, keep kv.1 kv.2 = true) m)).
  assert (map_Forall (λ _ x, leased (f x)) kept) as Hkept by (eapply map_Forall_sub, Hm; apply map_filter_subseteq).
  assert (map_Forall (λ _ x, leased (f x)) gone) as Hgone by (eapply map_Forall_sub, Hm; apply map_filter_subseteq).
  pose proof (sum_leased f _ Hkept). pose proof (sum_leased f _ Hgone).
  split_and!; [|done|lia|apply map_subseteq_size, map_filter_subseteq].
  rewrite (drop_leases (λ kv : K * A, f kv.2)); rewrite <- ?(sum_by_to_list (λ x, held (f x)) gone).
  - do 4 f_equal. lia.
  - by apply (map_to_list_Forall (λ x, leased (f x))).
  - lia.
Qed.

Lemma retain_pending_ends keep : ends (retain_pending keep).
Proof.
  intros b n rest [p e l] [Hf Ht Hl]. unfold retain_pending. rewrite (bind_ok get _ _ _ _ eq_refl).
  cbn [edge]. rewrite (bind_ok (modify _) _ _ tt _ eq_refl). cbn [pool edge sink].
  destruct (funded_bounds _ _ Hf) as (Hb & Ha & Htr). pose proof (owned_at_least e).
  pose proof (sum_leased async_resource _ (fu_detached _ _ Hf)). unfold async_held in *. cbn [edge pool] in *.
  destruct (drop_part pending_resource keep (pending e) p (set_pending (filter (λ kv, keep kv.1 kv.2 = true)) e) l
    (fu_pending _ _ Hf)) as (Hdrop & Hkept & Hk & Hsz).
  { unfold REDUCER_BASE_CHARGE, OPEN_BINDING_CHARGE, ACTIVE_MACHINE_CHARGE in *. lia. }
  exists tt. eexists. split; [exact Hdrop|]. split; [|by constructor]. constructor.
  - destruct Hf as [Ho Hc Hlm Hr Hp Hd Htt Hs]. constructor; try done; unfold async_held in *; cbn [pool edge set_charged charged limit] in *; [|lia].
    rewrite Hc. unfold owned. simpl. lia.
  - destruct Ht as [? ? ? ? ? ? ? ? ? [? ? ?]]. constructor; try done. simpl. lia.
  - intros Hbt. destruct (Hl Hbt). by constructor.
Qed.

Lemma retain_detached_ends keep : ends (retain_detached keep).
Proof.
  intros b n rest [p e l] [Hf Ht Hl]. unfold retain_detached. rewrite (bind_ok get _ _ _ _ eq_refl).
  cbn [edge]. rewrite (bind_ok (modify _) _ _ tt _ eq_refl). cbn [pool edge sink].
  destruct (funded_bounds _ _ Hf) as (Hb & Ha & Htr). pose proof (owned_at_least e).
  pose proof (sum_leased pending_resource _ (fu_pending _ _ Hf)). unfold async_held in *. cbn [edge pool] in *.
  destruct (drop_part async_resource keep (detached e) p (set_detached (filter (λ kv, keep kv.1 kv.2 = true)) e) l
    (fu_detached _ _ Hf)) as (Hdrop & Hkept & Hk & Hsz).
  { unfold REDUCER_BASE_CHARGE, OPEN_BINDING_CHARGE, ACTIVE_MACHINE_CHARGE in *. lia. }
  exists tt. eexists. split; [exact Hdrop|]. split; [|by constructor]. constructor.
  - destruct Hf as [Ho Hc Hlm Hr Hp Hd Htt Hs]. constructor; try done; unfold async_held in *; cbn [pool edge set_charged charged limit] in *; [|lia].
    rewrite Hc. unfold owned. simpl. lia.
  - destruct Ht as [? ? ? ? ? ? ? ? ? [? ? ?]]. constructor; try done. simpl. lia.
  - intros Hbt. destruct (Hl Hbt). by constructor.
Qed.

(** A change of the owners of async ids. *)
Lemma reown_inv b n rest p e l g :
  (∀ i, async_resource (g i) = async_resource i) → inv b n rest (mkRun p e l) →
  inv b n rest (mkRun p (set_detached (fmap g) e) l).
Proof.
  intros Hg [Hf Ht Hl]. constructor.
  - destruct Hf as [Ho Hc Hlm Hr Hp Hd Htt Hs]. constructor; try done; simpl in *.
    + unfold async_held in *. simpl. rewrite (sum_by_fmap (λ i, held (async_resource i))); [done|]. intros i. by rewrite Hg.
    + intros k i (j & <- & Hj)%lookup_fmap_Some. rewrite Hg. by eapply Hd.
  - destruct Ht as [? ? ? ? ? ? ? ? ? [? ? ?]]. constructor; try done. simpl. by rewrite map_size_fmap.
  - intros Hbt. destruct (Hl Hbt). by constructor.
Qed.

Lemma float_session_async_ends s : ends (float_session_async s).
Proof.
  intros b n rest [p e l] Hi. eexists _, (mkRun p (set_detached (fmap _) e) l). split; [reflexivity|].
  split; [|by constructor]. apply reown_inv; [|done]. intros i. by case_bool_decide.
Qed.

#[export] Hint Resolve end_machines_ends end_session_machines_ends end_session_machines_all_ends forget_open_ends
  clear_open_ends retain_pending_ends retain_detached_ends float_session_async_ends : edge.

(** Compose the methods that end things. *)
Ltac ends :=
  repeat (try solve [auto with edge];
    lazymatch goal with
    | |- ends (get ≫= _) => apply ends_get; intros
    | |- ends (_ ≫= _) => apply ends_bind; [|intros]
    | |- ends (for_each _ _) => apply ends_for_each; intros
    | |- ends (any_each _ _) => apply ends_any_each; intros
    | |- ends (when _ _) => apply ends_when
    end).

Lemma drop_session_pending_ends s : ends (drop_session_pending s).
Proof. unfold drop_session_pending. ends. Qed.

Lemma clear_async_payloads_ends : ends clear_async_payloads.
Proof. unfold clear_async_payloads. ends. Qed.

#[export] Hint Resolve drop_session_pending_ends clear_async_payloads_ends : edge.

Lemma retire_session_ends s st o : ends (retire_session s st o).
Proof. unfold retire_session. ends. Qed.

Lemma retire_all_ends st o : ends (retire_all st o).
Proof. unfold retire_all. ends. Qed.

Lemma close_session_ends s o : ends (close_session s o).
Proof. unfold close_session. ends. Qed.

Lemma invalidate_with_effects_ends : ends invalidate_with_effects.
Proof. unfold invalidate_with_effects. ends. Qed.

#[export] Hint Resolve retire_session_ends retire_all_ends close_session_ends : edge.

Section Ending.
Context {RV : RvCodes} {EC : EdgeCodes}.

(** The names of [operation_bits] are the categories of their bits. *)
Lemma operation_bits_name mask p : p ∈ operation_bits mask → p.2 = category_name p.1 ∧ is_Some (operation_name p.1).
Proof.
  unfold operation_bits. rewrite list_elem_of_In, filter_In. intros [Hin _]. revert p Hin. apply List.Forall_forall.
  repeat constructor; by eexists.
Qed.

Lemma end_bit_ends s mask p st o : p ∈ operation_bits mask → ends (end_machine s p.1 p.2 st o).
Proof. intros Hp. apply end_machine_ends. by apply operation_bits_name in Hp as [? _]. Qed.

Lemma reconcile_conclusive_ends call d o : ends (reconcile_conclusive call d o).
Proof.
  unfold reconcile_conclusive. repeat case_match; ends.
  by eapply end_bit_ends.
Qed.

Lemma apply_auth_ends call o : ends (apply_auth call o).
Proof. unfold apply_auth. repeat case_match; ends. case_match; ends. Qed.

Lemma clear_selected_ends s f o : ends (clear_selected s f o).
Proof. unfold clear_selected. ends. Qed.

Lemma apply_session_cancel_ends call o : ends (apply_session_cancel call o).
Proof.
  unfold apply_session_cancel. apply ends_bind; [ends|]. intros _. simpl. case_match.
  - apply ends_bind; [apply clear_selected_ends|ends].
  - apply ends_when, clear_selected_ends.
Qed.
End Ending.
#[export] Hint Resolve reconcile_conclusive_ends apply_auth_ends apply_session_cancel_ends : edge.
