(* ===== verification/EdgeFrame.v ===== *)
(** * The per-edge reducer: what methods leave alone

    [stable P m]: whatever [m] does, [P] of the run before is [P] of the run after.  The
    combinators of [Edge] are closed under it for every [P]. *)
From stdpp Require Import sorting.
From S2P Require Import Prelude ObjectPolicy Semantics Kinds Pool Edge EdgeInv.

Definition stable {A} (P : Run → Prop) (m : Edge A) : Prop := ∀ r a r', P r → m r = (a, r') → P r'.

Section Closure.
Context (P : Run → Prop).

Lemma stable_ret {A} (a : A) : stable P (mret a).
Proof. intros r a' r' Hr [= <- <-]. done. Qed.

Lemma stable_err {A} x : stable P (se_err x : Edge A).
Proof. intros r a' r' Hr [= <- <-]. done. Qed.

Lemma stable_bind {A B} (m : Edge A) (k : A → Edge B) : stable P m → (∀ a, stable P (k a)) → stable P (m ≫= k).
Proof.
  intros Hm Hk r c r' Hr E. destruct (m r) as [[x|a] r1] eqn:E1.
  - rewrite (bind_err _ _ _ _ _ E1) in E. injection E as <- <-. by eapply Hm.
  - rewrite (bind_ok _ _ _ _ _ E1) in E. eapply Hk, E. by eapply Hm.
Qed.

Lemma stable_get {B} (k : EdgeSemantics → Edge B) :
  (∀ r, P r → ∀ a r', k (edge r) r = (a, r') → P r') → stable P (get ≫= k).
Proof. intros Hk r a r' Hr E. rewrite (bind_ok get _ _ _ _ eq_refl) in E. by eapply Hk. Qed.

Lemma stable_modify f : (∀ p e l, P (mkRun p e l) → P (mkRun p (f e) l)) → stable P (modify f).
Proof. intros Hf [p e l] a r' Hr [= <- <-]. by apply Hf. Qed.

Lemma stable_emit x : (∀ p e l, P (mkRun p e l) → P (mkRun p e (l ++ [x]))) → stable P (emit x).
Proof. intros Hf [p e l] a r' Hr [= <- <-]. by apply Hf. Qed.

Lemma stable_or_panic {A} (o : option A) : stable P (or_panic o).
Proof. intros r a r' Hr. destruct o; by intros [= <- <-]. Qed.

Lemma stable_for_each {A} (f : A → Edge ()) l : (∀ x, x ∈ l → stable P (f x)) → stable P (for_each f l).
Proof.
  intros Hf. induction l as [|x l IH]; simpl; [apply stable_ret|].
  apply stable_bind; [apply Hf; by left|]. intros _. apply IH. intros y Hy. apply Hf. by right.
Qed.

Lemma stable_any_each {A} (f : A → Edge bool) l : (∀ x, x ∈ l → stable P (f x)) → stable P (any_each f l).
Proof.
  intros Hf. induction l as [|x l IH]; simpl; [apply stable_ret|].
  apply stable_bind; [apply Hf; by left|]. intros b. apply stable_bind; [|intros; apply stable_ret].
  apply IH. intros y Hy. apply Hf. by right.
Qed.

Lemma stable_when b m : stable P m → stable P (when b m).
Proof. intros H. destruct b; [done|apply stable_ret]. Qed.

(** [P] reads only the reducer: charges may move. *)
Lemma stable_set_pool f :
  (∀ p e l p', f p = Some p' → P (mkRun p e l) → P (mkRun p' e l)) → stable P (set_pool f).
Proof. intros Hf [p e l] a r' Hr. unfold set_pool. simpl. case_match; intros [= <- <-]; [by eapply Hf|done]. Qed.
End Closure.

Create HintDb frame.
#[export] Hint Resolve stable_ret stable_err stable_or_panic : frame.

(** Compose methods that keep [P]. *)
Ltac stable :=
  repeat (try solve [auto with frame];
    lazymatch goal with
    | |- stable _ (get ≫= _) => apply stable_bind; [by intros ? ? ? ? [= <- <-]|intros]
    | |- stable _ (_ ≫= _) => apply stable_bind; [|intros]
    | |- stable _ (for_each _ _) => apply stable_for_each; intros
    | |- stable _ (any_each _ _) => apply stable_any_each; intros
    | |- stable _ (when _ _) => apply stable_when
    | |- stable _ (match ?x with _ => _ end) => destruct x eqn:?
    end).

(** ** Charges *)

(** [P] is not about the pool's counters, the reservation or the owner's lease. *)
Class Chargeless (P : Run → Prop) := {
  chargeless_pool p e l p' : limit p' = limit p → P (mkRun p e l) → P (mkRun p' e l);
  chargeless_transition p e l g : P (mkRun p e l) → P (mkRun p (set_resource_transition g e) l);
  chargeless_owner p e l g : P (mkRun p e l) → P (mkRun p (set_resource_owner g e) l);
}.

Section Charges.
Context (P : Run → Prop) `{!Chargeless P}.

Lemma stable_drop_lease l : stable P (drop_lease l).
Proof.
  destruct l as [x|]; [|apply stable_ret]. apply stable_set_pool. intros p e l p'. unfold lease_drop.
  intros (n & _ & [= <-])%bind_Some. by apply chargeless_pool.
Qed.

Lemma stable_release k : stable P (release_resource_charge k).
Proof.
  intros [p e l] a r' Hr. unfold release_resource_charge. simpl. case_match; [|by intros [= <- <-]].
  case_match eqn:E; [|by intros [= <- <-]]. case_match; intros [= <- <-]. apply chargeless_owner.
  unfold lease_release in E. apply bind_Some in E as (? & _ & (? & _ & [= <- <-])%bind_Some). by apply (chargeless_pool p).
Qed.

Lemma stable_take k : stable P (take_resource_charge k).
Proof.
  unfold take_resource_charge. stable. apply stable_modify. intros. by apply chargeless_transition.
Qed.

Lemma stable_retain k : stable P (retain_resource_charge k).
Proof.
  unfold retain_resource_charge. apply stable_bind; [apply stable_take|]. intros [x|]; stable.
  apply stable_modify. intros. by apply chargeless_owner.
Qed.
End Charges.
#[export] Hint Extern 1 (stable _ (drop_lease _)) => (apply stable_drop_lease; apply _) : frame.
#[export] Hint Extern 1 (stable _ (release_resource_charge _)) => (apply stable_release; apply _) : frame.
#[export] Hint Extern 1 (stable _ (take_resource_charge _)) => (apply stable_take; apply _) : frame.
#[export] Hint Extern 1 (stable _ (retain_resource_charge _)) => (apply stable_retain; apply _) : frame.
#[export] Hint Extern 1 (stable _ (modify _)) => (apply stable_modify; intros ? ? ? Hstable; exact Hstable) : frame.
#[export] Hint Extern 1 (stable _ (add _ _)) => (apply stable_modify; intros ? ? ? Hstable; exact Hstable) : frame.
#[export] Hint Extern 1 (stable _ (note _)) => (apply stable_modify; intros ? ? ? Hstable; exact Hstable) : frame.
#[export] Hint Extern 1 (stable _ (count_end ?st)) =>
  (destruct st; apply stable_modify; intros ? ? ? Hstable; exact Hstable) : frame.
#[export] Hint Extern 1 (stable _ (emit _)) => (apply stable_emit; intros ? ? ? Hstable; exact Hstable) : frame.

Section Sound.
Context {RV : RvCodes} {EC : EdgeCodes} {Catalog : FunctionCatalog}.

(** The origin of a retained call covers the operations the call names. *)
Definition captured (call : SemanticCall) (origin : CallOrigin) : Prop :=
  origin.*1 = (operation_bits (operations (descriptor_of (function call)))).*1.

(** The limit of the pool, and the origins of the asynchronous records. *)
Definition sound (L : Z) (r : Run) : Prop :=
  limit (pool r) = L ∧
  map_Forall (λ _ p, captured (pending_call p) (pending_origin p)) (pending (edge r)) ∧
  map_Forall (λ _ i, captured (async_call i) (async_origin i)) (detached (edge r)).

#[export] Instance sound_chargeless L : Chargeless (sound L).
Proof. split; intros *; unfold sound; simpl; by intros; split_and!; intuition congruence. Qed.

Context (L : Z).
Local Abbreviation stays := (stable (sound L)).

Lemma sound_pending f p e l : f (pending e) ⊆ pending e → sound L (mkRun p e l) → sound L (mkRun p (set_pending f e) l).
Proof. intros Hs (H1 & H2 & H3). split_and!; [done| |done]. by eapply map_Forall_sub. Qed.

Lemma sound_detached f p e l : f (detached e) ⊆ detached e → sound L (mkRun p e l) → sound L (mkRun p (set_detached f e) l).
Proof. intros Hs (H1 & H2 & H3). split_and!; [done|done|]. by eapply map_Forall_sub. Qed.

Lemma end_machine_stays s b c st o : stays (end_machine s b c st o).
Proof. unfold end_machine. stable. Qed.
Hint Resolve end_machine_stays : frame.

Lemma end_session_machines_stays s st o : stays (end_session_machines s st o).
Proof. unfold end_session_machines, end_machines. stable. Qed.

Lemma end_session_machines_all_stays st o : stays (end_session_machines_all st o).
Proof. unfold end_session_machines_all, end_machines. stable. Qed.

Lemma float_session_async_stays s : stays (float_session_async s).
Proof.
  unfold float_session_async. stable. apply stable_modify. intros p e l (H1 & H2 & H3). split_and!; [done..|]. simpl.
  intros k i (j & <- & Hj)%lookup_fmap_Some. case_bool_decide; exact (H3 k j Hj).
Qed.

Lemma retain_pending_stays keep : stays (retain_pending keep).
Proof. unfold retain_pending. stable. apply stable_modify. intros p e l. apply sound_pending, map_filter_subseteq. Qed.

Lemma retain_detached_stays keep : stays (retain_detached keep).
Proof. unfold retain_detached. stable. apply stable_modify. intros p e l. apply sound_detached, map_filter_subseteq. Qed.
Hint Resolve end_session_machines_stays end_session_machines_all_stays float_session_async_stays retain_pending_stays
  retain_detached_stays : frame.

Lemma forget_open_stays s : stays (forget_open s).
Proof. unfold forget_open. stable. Qed.

Lemma drop_session_pending_stays s : stays (drop_session_pending s).
Proof. unfold drop_session_pending. stable. Qed.

Lemma clear_async_payloads_stays : stays clear_async_payloads.
Proof. unfold clear_async_payloads. stable. Qed.

Lemma clear_open_stays : stays clear_open.
Proof. unfold clear_open. stable. Qed.
Hint Resolve forget_open_stays drop_session_pending_stays clear_async_payloads_stays clear_open_stays : frame.

Lemma retire_session_stays s st o : stays (retire_session s st o).
Proof. unfold retire_session. stable. Qed.

Lemma retire_all_stays st o : stays (retire_all st o).
Proof. unfold retire_all. stable. Qed.

Lemma close_session_stays s o : stays (close_session s o).
Proof. unfold close_session. stable. Qed.

Lemma invalidate_with_effects_stays : stays invalidate_with_effects.
Proof. unfold invalidate_with_effects. stable. Qed.
Hint Resolve retire_session_stays retire_all_stays close_session_stays invalidate_with_effects_stays : frame.

Lemma quietly_stays {A} (m : Edge A) : stays m → stays (quietly m).
Proof.
  intros Hm r a r' Hr. unfold quietly. destruct (m r) as [a1 r1] eqn:E. intros [= <- <-]. exact (Hm r a1 r1 Hr E).
Qed.

Lemma invalidate_stays : stays invalidate.
Proof. apply quietly_stays. stable. Qed.

Lemma put_mech_stays m f : stays (put_mech m f).
Proof. unfold put_mech. stable. Qed.

Lemma alloc_generation_stays : stays alloc_generation.
Proof. unfold alloc_generation. stable. Qed.
Hint Resolve invalidate_stays put_mech_stays alloc_generation_stays : frame.

Lemma record_init_mechanism_stays call d : stays (record_init_mechanism call d).
Proof. unfold record_init_mechanism. stable. Qed.

Lemma attribute_op_call_stays call m : stays (attribute_op_call call m).
Proof. unfold attribute_op_call. stable. Qed.

Lemma start_machine_stays s b c mech key o : stays (start_machine s b c mech key o).
Proof. unfold start_machine. stable. Qed.
Hint Resolve record_init_mechanism_stays attribute_op_call_stays start_machine_stays : frame.

Lemma reconcile_conclusive_stays call d o : stays (reconcile_conclusive call d o).
Proof. unfold reconcile_conclusive. stable. Qed.

Lemma apply_auth_stays call o : stays (apply_auth call o).
Proof. unfold apply_auth. stable. Qed.

Lemma clear_selected_stays s f o : stays (clear_selected s f o).
Proof. unfold clear_selected, end_machines. stable. Qed.
Hint Resolve reconcile_conclusive_stays apply_auth_stays clear_selected_stays : frame.

Lemma apply_session_cancel_stays call o : stays (apply_session_cancel call o).
Proof. unfold apply_session_cancel. stable. Qed.
Hint Resolve apply_session_cancel_stays : frame.

Lemma apply_lifecycle_stays call d o : stays (apply_lifecycle call d o).
Proof. unfold apply_lifecycle. stable. Qed.

Lemma apply_init_stays call d o keys : stays (apply_init call d o keys).
Proof. unfold apply_init. stable. Qed.

Lemma apply_operations_stays call d o : stays (apply_operations call d o).
Proof. unfold apply_operations. stable. Qed.

Lemma apply_direct_stays call d o keys : stays (apply_direct call d o keys).
Proof. unfold apply_direct. stable. Qed.
Hint Resolve apply_lifecycle_stays apply_init_stays apply_operations_stays apply_direct_stays : frame.

Lemma apply_completed_stays call d o keys : stays (apply_completed call d o keys).
Proof. unfold apply_completed. stable. Qed.
Hint Resolve apply_completed_stays : frame.

Lemma complete_pending_stays c q o : stays (complete_pending c q o).
Proof. unfold complete_pending. stable. Qed.
Hint Resolve complete_pending_stays : frame.

Lemma evict_async_stays : stays evict_async_if_needed.
Proof.
  apply stable_get. intros [p e l] Hr a r'. cbn [edge]. case_match; [by intros [= <- <-]|].
  destruct (evict_candidate e) as [[[[[s call] origin] resource] e']|] eqn:Ec; [|by intros [= <- <-]].
  rewrite (bind_ok (modify _) _ _ tt _ eq_refl). cbn [pool edge sink]. set (m := for_each _ _ ≫= _).
  assert (stays m) as Hm by (unfold m; stable). intros E. eapply Hm, E.
  unfold evict_candidate in Ec. destruct (least _ _) in Ec; destruct (least _ _) in Ec; try case_match; simplify_eq;
    (apply sound_pending || apply sound_detached); (apply delete_subseteq || done).
Qed.
Hint Resolve evict_async_stays : frame.

Lemma next_sequence_stays : stays next_sequence.
Proof. unfold next_sequence. stable. Qed.
Hint Resolve next_sequence_stays : frame.

Lemma capture_origin_captured call e :
  captured call (capture_origin (session call) (descriptor_of (function call)) e).
Proof. unfold captured, capture_origin. rewrite <- list_fmap_compose. done. Qed.

Lemma queue_pending_stays call : stays (queue_pending call).
Proof.
  unfold queue_pending. stable. apply stable_modify. intros p e l (H1 & H2 & H3). split_and!; [done| |done]. simpl.
  apply map_Forall_insert_2; [|done]. unfold route_pending in *. repeat case_match; simplify_eq. apply capture_origin_captured.
Qed.

Lemma async_complete_stays call : stays (async_complete call).
Proof.
  unfold async_complete. stable; apply stable_modify; intros p e l; [apply sound_pending|apply sound_detached]; apply delete_subseteq.
Qed.
Hint Resolve queue_pending_stays async_complete_stays : frame.

Lemma async_get_id_stays call : stays (async_get_id call).
Proof.
  apply stable_get. intros [p e l] Hr a r'. cbn [edge]. set (m := match open e !! _ with None => _ | Some _ => _ end).
  assert (stays m) as Hm; [|intros E; by eapply Hm, E]. destruct Hr as (_ & Hp & _). unfold m. stable.
  - apply stable_modify. intros p' e' l'. apply sound_pending, delete_subseteq.
  - apply stable_modify. intros p' e' l' (H1 & H2 & H3). split_and!; [done..|]. simpl. apply map_Forall_insert_2; [|done].
    simpl. by eapply Hp.
Qed.

Lemma async_join_stays call : stays (async_join call).
Proof.
  apply stable_get. intros [p e l] Hr a r'. cbn [edge]. set (m := match open e !! _ with None => _ | Some _ => _ end).
  assert (stays m) as Hm; [|intros E; by eapply Hm, E]. destruct Hr as (_ & _ & Hd). unfold m. stable.
  apply stable_modify. intros p' e' l' (H1 & H2 & H3). split_and!; [done..|]. simpl. apply map_Forall_insert_2; [|done].
  simpl. by eapply Hd.
Qed.
Hint Resolve async_get_id_stays async_join_stays : frame.

Lemma observe_async_stays call : stays (observe_async call).
Proof. unfold observe_async. stable. Qed.

Lemma gate_stays call : stays (gate call).
Proof. unfold gate. stable. Qed.
Hint Resolve observe_async_stays gate_stays : frame.

Lemma observe_inner_stays call o keys : stays (observe_inner call o keys).
Proof. unfold observe_inner. stable. Qed.
Hint Resolve observe_inner_stays : frame.

Lemma acquire_limit n p x p' : acquire n p = (x, p') → limit p' = limit p.
Proof. unfold acquire, pool_refuse. repeat case_match; by intros [= <- <-]. Qed.

Lemma prepare_stays call : stays (prepare_resource_transition call).
Proof.
  unfold prepare_resource_transition. stable.
  - intros [p e l] x r' Hr. unfold on_pool, scratch, pool_refuse. simpl.
    destruct (scratch_borrowed p); intros [= <- <-]; exact Hr.
  - intros [p e l] x r' Hr. unfold reserve_growth. simpl. destruct (acquire _ p) as [y p1] eqn:E. apply acquire_limit in E.
    destruct y; [intros [= <- <-]; by eapply chargeless_pool|]. unfold scratch_drop.
    destruct (scratch_borrowed p1); intros [= <- <-]; [by eapply (chargeless_pool p)|done].
Qed.

Lemma drop_transition_stays : stays drop_transition.
Proof.
  unfold drop_transition. stable; apply stable_set_pool; intros p e l p'.
  - unfold lease_drop. intros (n & _ & [= <-])%bind_Some. by apply chargeless_pool.
  - unfold scratch_drop. case_match; intros [= <-]. by apply chargeless_pool.
Qed.
Hint Resolve prepare_stays drop_transition_stays : frame.

Lemma observe_prepared_stays call o keys l : stays (observe_prepared call o keys l).
Proof. unfold observe_prepared. stable. Qed.
Hint Resolve observe_prepared_stays : frame.

Lemma observe_with_resources_and_effects_stays call o : stays (observe_with_resources_and_effects call o).
Proof.
  intros r a r' Hr. unfold observe_with_resources_and_effects.
  destruct (prepare_resource_transition call r) as [[[x|]|y] r1] eqn:E; apply prepare_stays in E; try done.
  - assert (stays (invalidate ;; (se_err (Refuse x) : Edge Z))) as Hm by stable. by apply Hm.
  - by intros [= <- <-].
  - by apply observe_prepared_stays.
Qed.

Lemma observe_joint_with_resources_stays call o keys : stays (observe_joint_with_resources call o keys).
Proof. unfold observe_joint_with_resources. stable. Qed.

Lemma edge_drop_stays : stays edge_drop.
Proof. unfold edge_drop. stable. Qed.
End Sound.
