(* ===== verification/EdgeGrow.v ===== *)
(** * The per-edge reducer: growth

    The methods of [Edge] that retain more: each pays for what it adds out of the
    reservation of the transition, and what [preflight_growth] reserved covers all of it. *)
From S2P Require Import Prelude ObjectPolicy Semantics Kinds Pool Edge EdgeInv.

(** ** Paying *)

Lemma take_ok k l0 p e l :
  resource_transition e = Some (mkLease l0) → 0 <= k <= l0 → l0 < 2 ^ 64 →
  take_resource_charge k (mkRun p e l) =
    (inr (Some (mkLease k)), mkRun p (set_resource_transition (λ _, Some (mkLease (l0 - k))) e) l).
Proof.
  intros Ht Hk Hl. unfold take_resource_charge. rewrite (bind_ok get _ _ _ _ eq_refl). cbn [edge]. rewrite Ht.
  unfold Pool.split, checked_sub. cbn [lease_bytes]. by rewrite checked_small by (unfold in_width; lia).
Qed.

(** The reducer that paid [k] bytes to its owner lease. *)
Definition paid (k l0 : Z) (e : EdgeSemantics) : EdgeSemantics :=
  set_resource_owner (λ _, Some (mkLease (owned e + k))) (set_resource_transition (λ _, Some (mkLease (l0 - k))) e).

Lemma retain_ok k l0 rest p e l :
  funded rest (mkRun p e l) → resource_transition e = Some (mkLease l0) → 0 <= k <= l0 →
  retain_resource_charge k (mkRun p e l) = (inr tt, mkRun p (paid k l0 e) l).
Proof.
  intros Hf Ht Hk. destruct (funded_bounds _ _ Hf) as (Hb & Ha & _). cbn [edge pool] in *. rewrite Ht in Hb. simpl held in Hb.
  pose proof (owned_at_least e). unfold REDUCER_BASE_CHARGE, OPEN_BINDING_CHARGE, ACTIVE_MACHINE_CHARGE in *.
  unfold retain_resource_charge. rewrite (bind_ok _ _ _ _ _ (take_ok k l0 p e l Ht Hk ltac:(lia))).
  rewrite (bind_ok get _ _ _ _ eq_refl). cbn [edge].
  assert (or_panic (resource_owner (set_resource_transition (λ _, Some (mkLease (l0 - k))) e))
            (mkRun p (set_resource_transition (λ _, Some (mkLease (l0 - k))) e) l)
          = (inr (mkLease (owned e)), mkRun p (set_resource_transition (λ _, Some (mkLease (l0 - k))) e) l)) as Ho.
  { pose proof (fu_owner _ _ Hf) as E. cbn [edge] in E. simpl. by rewrite E. }
  rewrite (bind_ok _ _ _ _ _ Ho). unfold absorb, checked_add. cbn [lease_bytes].
  by rewrite checked_small by (unfold in_width; lia).
Qed.

(** [funded] when the reducer grew by what it paid. *)
Lemma funded_paid rest p e l k l0 e' l' :
  funded rest (mkRun p e l) → resource_transition e = Some (mkLease l0) → 0 <= k <= l0 →
  owned e' = owned e + k → resource_owner e' = Some (mkLease (owned e + k)) →
  resource_transition e' = Some (mkLease (l0 - k)) → pending e' = pending e → detached e' = detached e →
  funded rest (mkRun p e' l').
Proof.
  intros [Ho Hc Hl Hr Hp Hd Ht Hs] Htr Hk Hw Ho' Htr' Ep Ed. simpl in *. rewrite Htr in *.
  constructor; simpl; unfold async_held in *; rewrite ?Ep, ?Ed, ?Htr', ?Hw; try done.
  - rewrite Hc. simpl. lia.
  - right. exists (l0 - k). split; [done|lia].
Qed.

(** ** Mechanism rows *)

(** The names a claim adds to a row. *)
Definition names_growth (mechanism : Z) (names : list string) (e : EdgeSemantics) : Z :=
  zsum (λ name, if match mechs e !! mechanism with None => true | Some s => bool_decide (name ∉ stat_ops s) end
                then CATEGORY_CHARGE else 0) names.

Definition claim_names (d : SlotSemantics) : list string :=
  (snd <$> operation_bits (operations d)) ++ option_list (direct_name (direct_ d)).

Lemma category_growth_names m d e : category_growth m d e = names_growth m (claim_names d) e.
Proof.
  unfold category_growth, names_growth, claim_names. rewrite zsum_app. f_equal.
  - unfold zsum. induction (operation_bits (operations d)) as [|x l IH]; simpl; [done|]. by rewrite IH.
  - destruct (direct_name (direct_ d)); simpl; lia.
Qed.

Lemma NoDup_claim_names d : NoDup (claim_names d).
Proof.
  unfold claim_names. apply NoDup_app. split_and!.
  - assert (NoDup (snd <$> OPERATIONS)) as H by (apply (bool_decide_unpack _); vm_compute; done).
    revert H. unfold operation_bits. generalize OPERATIONS. intros l. induction l as [|x l IH]; simpl; [done|].
    intros [Hx Hl]%NoDup_cons. destruct (nz _); [|by apply IH]. simpl. apply NoDup_cons. split; [|by apply IH].
    intros (y & Hy & Hin)%list_elem_of_fmap. apply Hx. rewrite Hy. apply list_elem_of_fmap_2.
    by apply list_elem_of_In, filter_In in Hin as [Hin%list_elem_of_In _].
  - intros name (p & -> & Hp)%list_elem_of_fmap Hd.
    assert (p ∈ OPERATIONS) as Hin by (apply list_elem_of_In; apply list_elem_of_In, filter_In in Hp; tauto).
    assert (∀ v q, direct_name v = Some q.2 → q ∉ OPERATIONS) as Hdis.
    { intros v [b q] Hq. unfold direct_name in Hq. simpl in Hq.
      repeat (destruct (v =? _) in Hq; [injection Hq as <-; unfold OPERATIONS; set_solver|]). done. }
    destruct (direct_name (direct_ d)) as [q|] eqn:E; simpl in Hd; [|set_solver].
    apply list_elem_of_singleton in Hd as <-. by apply (Hdis (direct_ d) p).
  - destruct (direct_name (direct_ d)); simpl; [apply NoDup_singleton|constructor].
Qed.

Lemma size_add_names (names : list string) (X : gset string) :
  NoDup names →
  CATEGORY_CHARGE * Z.of_nat (size (list_to_set names ∪ X)) =
    CATEGORY_CHARGE * Z.of_nat (size X) + zsum (λ name, if bool_decide (name ∉ X) then CATEGORY_CHARGE else 0) names.
Proof.
  unfold CATEGORY_CHARGE. induction names as [|a names IH]; intros Hnd; simpl; [rewrite (left_id_L ∅ (∪)); lia|].
  apply NoDup_cons in Hnd as [Ha Hnd]. specialize (IH Hnd). rewrite <- (assoc_L (∪)), size_set_insert.
  case_bool_decide as H1; case_bool_decide as H2; simpl; set_solver || lia.
Qed.

Lemma functions_charge (f : string) (X : gset string) :
  f ∉ X → zsum name_charge (elements ({[f]} ∪ X)) = name_charge f + zsum name_charge (elements X).
Proof. intros Hf. by rewrite elements_union_singleton. Qed.

(** The charge of a row after one more call, from what it was. *)
Lemma stat_charge_call errs call ops s :
  NoDup ops →
  stat_charge (stat_call errs call ops s) = stat_charge s
    + zsum (λ name, if bool_decide (name ∉ stat_ops s) then CATEGORY_CHARGE else 0) ops
    + (if bool_decide (function call ∉ stat_functions s) && (size (stat_functions s) <? MAX_EDGE_PROVENANCE_FUNCTIONS)%nat
       then name_charge (function call) else 0)
    + (if bool_decide (rv call ∉ stat_returns s) && (size (stat_returns s) <? MAX_EDGE_PROVENANCE_RETURNS)%nat
       then RETURN_CHARGE else 0).
Proof.
  intros Hnd. unfold stat_charge, stat_call, record_provenance.
  cbn [stat_ops stat_functions stat_returns]. rewrite size_add_names by done.
  assert (∀ n m : nat, (n <=? m)%nat = negb (m <? n)%nat) as Hle by (intros; apply Nat.leb_antisym).
  rewrite !Hle. clear Hle.
  assert (zsum name_charge (elements (if bool_decide (function call ∈ stat_functions s)
      || negb (size (stat_functions s) <? MAX_EDGE_PROVENANCE_FUNCTIONS)%nat then stat_functions s
      else {[function call]} ∪ stat_functions s))
    = zsum name_charge (elements (stat_functions s))
      + (if bool_decide (function call ∉ stat_functions s) && (size (stat_functions s) <? MAX_EDGE_PROVENANCE_FUNCTIONS)%nat
         then name_charge (function call) else 0)) as ->.
  { case_bool_decide; [rewrite bool_decide_eq_false_2 by tauto; simpl; lia|]. rewrite bool_decide_eq_true_2 by done.
    simpl. destruct (_ <? _)%nat; simpl; [rewrite functions_charge by done|]; lia. }
  assert (RETURN_CHARGE * Z.of_nat (size (if bool_decide (rv call ∈ stat_returns s)
      || negb (size (stat_returns s) <? MAX_EDGE_PROVENANCE_RETURNS)%nat then stat_returns s else {[rv call]} ∪ stat_returns s))
    = RETURN_CHARGE * Z.of_nat (size (stat_returns s))
      + (if bool_decide (rv call ∉ stat_returns s) && (size (stat_returns s) <? MAX_EDGE_PROVENANCE_RETURNS)%nat
         then RETURN_CHARGE else 0)) as ->.
  { unfold RETURN_CHARGE. case_bool_decide; [rewrite bool_decide_eq_false_2 by tauto; simpl; lia|].
    rewrite bool_decide_eq_true_2 by done. simpl. destruct (_ <? _)%nat; simpl; [|lia].
    rewrite size_set_insert, bool_decide_eq_false_2 by done. simpl. lia. }
  lia.
Qed.

Lemma bounded_add {K} `{Countable K} (k : K) (X : gset K) (m : nat) :
  (size X <= m)%nat → (size (if bool_decide (k ∈ X) || (m <=? size X)%nat then X else {[k]} ∪ X) <= m)%nat.
Proof.
  intros HX. case_bool_decide; simpl; [done|]. destruct (m <=? size X)%nat eqn:E; [done|].
  apply Nat.leb_gt in E. pose proof (size_set_insert X k) as Hs. rewrite bool_decide_eq_false_2 in Hs by done. simpl in Hs. lia.
Qed.

Lemma provenance_growth_nonneg m call v e : 0 <= provenance_growth m call v e.
Proof.
  unfold provenance_growth, MECHANISM_CHARGE, FUNCTION_CHARGE, OWNED_ALLOCATION_PADDING, RETURN_CHARGE.
  pose proof (text_len_nonneg (function call)). destruct (bool_decide _ && _)%bool; [lia|]. repeat case_match; lia.
Qed.

Lemma names_growth_nonneg m ops e : 0 <= names_growth m ops e.
Proof. apply zsum_nonneg. intros x. unfold CATEGORY_CHARGE. case_match; lia. Qed.

(** What one more attributed call adds to the owner's charge. *)
Lemma owned_put_mech m errs call ops e :
  mech_room m e = true → NoDup ops →
  owned (set_mechs (λ M, <[m := stat_call errs call ops (default EdgeMechStat_default (M !! m))]> M) e) =
    owned e + (provenance_growth m call (rv call) e + names_growth m ops e).
Proof.
  intros Hroom Hnd. unfold owned, provenance_growth, names_growth. simpl. unfold mech_room in Hroom.
  destruct (mechs e !! m) as [s|] eqn:Hm; simpl.
  - rewrite (sum_by_insert_old _ _ _ _ _ Hm), stat_charge_call by done. fold (name_charge (function call)). lia.
  - rewrite bool_decide_eq_false_2 in Hroom by by intros [? ?]. simpl in Hroom. apply negb_true_iff in Hroom.
    rewrite Hroom. simpl. rewrite sum_by_insert_new, stat_charge_call by done. fold (name_charge (function call)).
    rewrite (bool_decide_eq_true_2 (function call ∉ _)), (bool_decide_eq_true_2 (rv call ∉ _)) by set_solver.
    assert (∀ X : gset string, X = ∅ →
      zsum (λ name, if bool_decide (name ∉ X) then CATEGORY_CHARGE else 0) ops = zsum (λ _, CATEGORY_CHARGE) ops) as Hz.
    { intros X ->. unfold zsum. apply foldr_ext; [|done..]. intros x a. by rewrite bool_decide_eq_true_2 by set_solver. }
    rewrite (Hz (stat_ops EdgeMechStat_default) eq_refl).
    assert (stat_charge EdgeMechStat_default = MECHANISM_CHARGE) as -> by done.
    assert ((size (stat_functions EdgeMechStat_default) <? MAX_EDGE_PROVENANCE_FUNCTIONS)%nat = true) as -> by done.
    assert ((size (stat_returns EdgeMechStat_default) <? MAX_EDGE_PROVENANCE_RETURNS)%nat = true) as -> by done.
    simpl. lia.
Qed.

Lemma tracked_put_mech n m errs call ops e :
  tracked n e → mech_room m e = true →
  tracked n (set_mechs (λ M, <[m := stat_call errs call ops (default EdgeMechStat_default (M !! m))]> M) e).
Proof.
  intros [Ho Ha Hm Hy Hst Hq Hb Hg Hi [B1 B2 B3]] Hroom. constructor; try done; simpl.
  - unfold mech_room in Hroom. pose proof (size_insert (mechs e) m (stat_call errs call ops (default EdgeMechStat_default (mechs e !! m)))) as Hs.
    case_bool_decide; cbn [negb orb Z.b2z] in *; [lia|]. apply negb_true_iff, Nat.leb_gt in Hroom. lia.
  - apply map_Forall_insert_2; [|done]. unfold stat_call, record_provenance. cbn [stat_functions stat_returns].
    destruct (mechs e !! m) as [s|] eqn:Es; simpl default; cbn [stat_functions stat_returns EdgeMechStat_default];
      (split; apply bounded_add); try (by apply (Hst _ _ Es)); rewrite size_empty; lia.
Qed.

(** What a run that pays and records a call leaves. *)
Lemma pay_put_mech b n rest m errs call ops k l0 p e l :
  inv b n rest (mkRun p e l) → mech_room m e = true → NoDup ops →
  k = provenance_growth m call (rv call) e + names_growth m ops e →
  resource_transition e = Some (mkLease l0) → k <= l0 →
  ∃ e', (retain_resource_charge k ;; put_mech m (stat_call errs call ops)) (mkRun p e l) = (inr tt, mkRun p e' l) ∧
    inv b n rest (mkRun p e' l) ∧ resource_transition e' = Some (mkLease (l0 - k)) ∧
    open e' = open e ∧ active e' = active e ∧ is_Some (mechs e' !! m) ∧ (∀ m', m' ≠ m → mechs e' !! m' = mechs e !! m') ∧
    (size (mechs e) <= size (mechs e'))%nat.
Proof.
  intros [Hf Ht Hl] Hroom Hnd Hk Htr Hle.
  pose proof (provenance_growth_nonneg m call (rv call) e). pose proof (names_growth_nonneg m ops e).
  rewrite (bind_ok _ _ _ _ _ (retain_ok k l0 rest p e l Hf Htr ltac:(lia))).
  eexists. split; [reflexivity|]. cbn [pool edge sink]. split_and!.
  - constructor.
    + apply (funded_paid rest p e l k l0); try done; [lia|].
      rewrite Hk. exact (owned_put_mech m errs call ops e Hroom Hnd).
    + destruct (tracked_put_mech n m errs call ops e Ht Hroom) as [? ? ? ? ? ? ? ? ? [? ? ?]]. by constructor.
    + intros Hb. destruct (Hl Hb). by constructor.
  - done.
  - done.
  - done.
  - simpl. rewrite lookup_insert_eq. done.
  - intros m' Hm'. simpl. by rewrite lookup_insert_ne.
  - simpl. pose proof (size_insert (mechs e) m (stat_call errs call ops (default EdgeMechStat_default (mechs e !! m)))).
    destruct (negb _) in *; simpl in *; lia.
Qed.

(** ** Starting a machine *)

Definition started_edge (k : Z * Z) (m : OpMachine) (e : EdgeSemantics) : EdgeSemantics :=
  set_started (λ v, saturating_add 64 v 1) (set_active (<[k := m]>) (set_machine_seq (λ _, generation m) e)).

Lemma tracked_start n e k m :
  tracked n e → active e !! k = None → (size (active e) < MAX_EDGE_ACTIVE_OPS)%nat → is_Some (operation_name k.2) →
  generation m = machine_seq e + 1 → generation m < 2 ^ 64 → tracked n (started_edge k m e).
Proof.
  intros [Ho Ha Hm Hy Hst Hq Hb Hg Hi [B1 B2 B3]] Hk Hsz Hn Hgen Hlt. constructor; try done; simpl.
  - rewrite map_size_insert_None by done. lia.
  - lia.
  - by apply map_Forall_insert_2.
  - apply map_Forall_insert_2; [lia|]. intros k' m' Hk'. pose proof (Hg k' m' Hk') as H. simpl in H. lia.
  - assert (∀ k' m', active e !! k' = Some m' → generation m' ≠ generation m) as Hfresh.
    { intros k' m' Hk' Heq. pose proof (Hg k' m' Hk') as H. simpl in H. lia. }
    intros k1 k2 m1 m2 [[<- <-]|[Hn1 H1]]%lookup_insert_Some [[<- <-]|[Hn2 H2]]%lookup_insert_Some Heq; try done.
    + by destruct (Hfresh _ _ H2).
    + by destruct (Hfresh _ _ H1).
    + by apply (Hi k1 k2 m1 m2).
  - constructor; simpl; [unfold saturating_add, U64_MAX in *; lia|done|].
    intros Hlt'. rewrite map_size_insert_None by done. unfold saturating_add, U64_MAX in *. lia.
Qed.

Lemma logged_start n p p' e l k m mech key o :
  tracked n e → logged (mkRun p e l) → active e !! k = None → generation m = machine_seq e + 1 →
  logged (mkRun p' (started_edge k m e) (l ++ [Started (generation m) (category_name k.2) mech key o])).
Proof.
  intros Ht [(last & live & Hr & Hlast & Hlive) Hx Hst] Hk Hgen. cbn [edge sink] in *.
  assert (∀ k' m', active e !! k' = Some m' → generation m' ≠ generation m) as Hfresh.
  { intros k' m' Hk' Heq. pose proof (tr_gen _ _ Ht k' m' Hk') as H. simpl in H. lia. }
  constructor; cbn [edge sink].
  - exists (generation m), (<[generation m := category_name k.2]> live). rewrite replay_snoc, Hr. simpl.
    rewrite (proj2 (Z.ltb_lt last (generation m))) by lia. split_and!; [done|simpl; lia|].
    intros id c. rewrite lookup_insert_Some, Hlive. split.
    + intros [[<- <-]|(Hne & k' & m' & Hk' & <- & <-)]; [exists k, m; by rewrite lookup_insert_eq|].
      exists k', m'. split_and!; [|done..]. apply lookup_insert_Some. right. split; [|done]. intros <-. congruence.
    + intros (k' & m' & [[<- <-]|[Hne Hk']]%lookup_insert_Some & <- & <-); [by left|]. right.
      split; [|by exists k', m']. intros Heq. by apply (Hfresh k' m').
  - done.
  - rewrite starts_snoc. simpl. intros Hlt. pose proof (ba_started _ (tr_balanced _ _ Ht)).
    unfold saturating_add, U64_MAX in *. lia.
Qed.

(** A step that leaves everything but the owner as [e'] does. *)
Lemma tracked_view n e e' :
  open e = open e' → active e = active e' → mechs e = mechs e' → pending e = pending e' → detached e = detached e' →
  machine_seq e = machine_seq e' → started e = started e' → completed e = completed e' → cancelled e = cancelled e' →
  failed e = failed e' → unknown e = unknown e' → tracked n e' → tracked n e.
Proof.
  intros E1 E2 E3 E4 E5 E6 E7 E8 E9 E10 E11 [? ? ? ? ? ? ? ? ? [? ? ?]].
  constructor; rewrite ?E1, ?E2, ?E3, ?E4, ?E5, ?E6; try done. constructor; by rewrite ?E2, ?E7, ?E8, ?E9, ?E10, ?E11.
Qed.

Lemma logged_view p p' e e' l :
  active e = active e' → machine_seq e = machine_seq e' → id_exhaustions e = id_exhaustions e' → started e = started e' →
  logged (mkRun p' e' l) → logged (mkRun p e l).
Proof. intros E1 E2 E3 E4 [? ? ?]. constructor; simpl in *; by rewrite ?E1, ?E2, ?E3, ?E4. Qed.

Definition leaves (l : Z) (e : EdgeSemantics) : Prop := ∃ l', resource_transition e = Some (mkLease l') ∧ l <= l'.

Definition machine_cost (k : Z * Z) (e : EdgeSemantics) : Z :=
  if bool_decide (active e !! k = None) && (size (active e) <? MAX_EDGE_ACTIVE_OPS)%nat then ACTIVE_MACHINE_CHARGE else 0.

Lemma alloc_some p e l : 0 <= machine_seq e → machine_seq e + 1 < 2 ^ 64 →
  alloc_generation (mkRun p e l) =
    (inr (Some (machine_seq e + 1)), mkRun p (set_machine_seq (λ _, machine_seq e + 1) e) l).
Proof.
  intros H0 H. unfold alloc_generation, checked_add. rewrite (bind_ok get _ _ _ _ eq_refl). cbn [edge].
  by rewrite checked_small by (unfold in_width; lia).
Qed.

Lemma alloc_none p e l : 2 ^ 64 <= machine_seq e + 1 → alloc_generation (mkRun p e l) = (inr None, mkRun p e l).
Proof.
  intros H. unfold alloc_generation, checked_add. rewrite (bind_ok get _ _ _ _ eq_refl). cbn [edge].
  destruct (checked 64 _) eqn:E; [|done]. apply checked_Some in E. unfold in_width in E. lia.
Qed.

(** An operation that had no identity to take. *)
Lemma exhausted_inv b n rest p e l :
  inv b n rest (mkRun p e l) →
  inv b n rest (mkRun p (set_id_exhaustions (λ v, saturating_add 64 v 1) (set_unknown (λ v, saturating_add 64 v 1)
    (set_started (λ v, saturating_add 64 v 1) e))) l).
Proof.
  intros [Hf Ht Hl]. constructor.
  - destruct Hf. by constructor.
  - destruct Ht as [? ? ? ? ? ? ? ? ? [B1 B2 B3]]. constructor; try done.
    cbn [edge] in *. constructor; simpl; unfold saturating_add, U64_MAX in *; lia.
  - intros Hb. destruct (Hl Hb) as [H1 H2 H3]. pose proof (ba_started _ (tr_balanced _ _ Ht)).
    pose proof (ba_ends _ (tr_balanced _ _ Ht)). cbn [edge sink] in *.
    constructor; cbn [edge sink]; simpl; [done|unfold saturating_add; lia|].
    intros Hlt. assert (started e < U64_MAX) as Hs by (unfold saturating_add, U64_MAX in *; lia). specialize (H3 Hs).
    assert (0 <= starts l) by (apply zsum_nonneg; intros []; lia). unfold saturating_add, U64_MAX in *. lia.
Qed.

Lemma start_new b n rest p e l s bit mech key o l0 :
  inv b n rest (mkRun p e l) → is_Some (operation_name bit) → active e !! (s, bit) = None →
  (size (active e) < MAX_EDGE_ACTIVE_OPS)%nat → machine_seq e + 1 < 2 ^ 64 →
  resource_transition e = Some (mkLease l0) → ACTIVE_MACHINE_CHARGE <= l0 →
  ∃ r', start_machine s bit (category_name bit) mech key o (mkRun p e l) = (inr tt, r') ∧ inv b n rest r' ∧
    resource_transition (edge r') = Some (mkLease (l0 - ACTIVE_MACHINE_CHARGE)).
Proof.
  intros [Hf Ht Hl] Hn Hk Hsz Hseq Htr Hle. pose proof (tr_seq _ _ Ht). cbn [edge] in *.
  set (m := mkMachine mech Initialized (machine_seq e + 1) key).
  pose proof (tracked_start n e (s, bit) m Ht Hk Hsz Hn eq_refl Hseq) as Ht'.
  assert (funded rest (mkRun p (set_machine_seq (λ _, machine_seq e + 1) e) l)) as Hf1 by (destruct Hf; by constructor).
  exists (mkRun p (set_resource_owner (λ _, Some (mkLease (owned e + ACTIVE_MACHINE_CHARGE)))
    (set_resource_transition (λ _, Some (mkLease (l0 - ACTIVE_MACHINE_CHARGE))) (started_edge (s, bit) m e)))
    (l ++ [Started (generation m) (category_name bit) mech key o])). split_and!; [| |done].
  - unfold start_machine. rewrite (bind_ok get _ _ _ _ eq_refl). cbn [edge]. rewrite Hk.
    rewrite (proj2 (Nat.leb_gt _ _) Hsz). cbn [andb bool_decide]. rewrite andb_false_r.
    rewrite (bind_ok _ _ _ _ _ (alloc_some p e l ltac:(lia) Hseq)). rewrite bool_decide_eq_true_2 by done. cbn [when].
    rewrite (bind_ok _ _ _ _ _ (retain_ok ACTIVE_MACHINE_CHARGE l0 rest p _ l Hf1 Htr ltac:(unfold ACTIVE_MACHINE_CHARGE in *; lia))).
    reflexivity.
  - constructor.
    + apply (funded_paid rest p e l ACTIVE_MACHINE_CHARGE l0); [done|done|by unfold ACTIVE_MACHINE_CHARGE in *| |done..].
      unfold owned. simpl. rewrite map_size_insert_None by done. unfold ACTIVE_MACHINE_CHARGE. lia.
    + by eapply tracked_view; [..|exact Ht'].
    + intros Hb. apply (logged_view _ p _ (started_edge (s, bit) m e)); try done.
      by apply (logged_start n p p e l (s, bit) m mech key o Ht (Hl Hb)).
Qed.

Lemma start_again b n rest p e l s bit mech key o old :
  inv b n rest (mkRun p e l) → is_Some (operation_name bit) → active e !! (s, bit) = Some old →
  machine_seq e + 1 < 2 ^ 64 →
  ∃ r', start_machine s bit (category_name bit) mech key o (mkRun p e l) = (inr tt, r') ∧ inv b n rest r' ∧
    resource_transition (edge r') = resource_transition e.
Proof.
  intros [Hf Ht Hl] Hn Hk Hseq. pose proof (tr_seq _ _ Ht). cbn [edge] in *.
  set (m := mkMachine mech Initialized (machine_seq e + 1) key). set (e1 := ended_edge (s, bit) EndCancelled e).
  assert (active e1 !! (s, bit) = None) as Hk1 by apply lookup_delete_eq.
  assert (size (active e1) = pred (size (active e))) as Hsz by (simpl; by apply map_size_delete_Some).
  assert (size (active e) ≠ 0%nat) as Hne by (by eapply map_size_ne_0_lookup_2).
  assert (size (active e1) < MAX_EDGE_ACTIVE_OPS)%nat as Hsz1 by (pose proof (tr_active _ _ Ht); lia).
  pose proof (tracked_end n e (s, bit) old EndCancelled Ht Hk) as Ht1.
  pose proof (tracked_start n e1 (s, bit) m Ht1 Hk1 Hsz1 Hn eq_refl Hseq) as Ht2.
  exists (mkRun p (set_started (λ v, saturating_add 64 v 1) (set_cancelled (λ v, saturating_add 64 v 1)
      (set_active (<[(s, bit) := m]>) (set_machine_seq (λ _, machine_seq e + 1) e))))
    ((l ++ [Ended (generation old) (category_name bit) OutcomeCancelled o])
      ++ [Started (generation m) (category_name bit) mech key o])). split_and!; [| |done].
  - unfold start_machine. rewrite (bind_ok get _ _ _ _ eq_refl). cbn [edge]. rewrite Hk.
    rewrite (bool_decide_eq_false_2 (Some old = None)) by done. cbn [andb].
    rewrite (bind_ok _ _ _ _ _ (alloc_some p e l ltac:(lia) Hseq)). reflexivity.
  - constructor.
    + destruct Hf as [Ho Hc Hlm Hr Hp Hd Htt Hs].
      assert (∀ v, size (<[(s, bit) := v]> (active e)) = size (active e)) as E by (intros; by eapply map_size_insert_Some).
      constructor; try done; unfold owned, async_held in *; simpl in *; by rewrite E.
    + eapply tracked_view; [..|exact Ht2]; try done. simpl. by rewrite insert_delete_eq.
    + intros Hb. pose proof (logged_end n p p e l (s, bit) old EndCancelled o Ht (Hl Hb) Hk) as Hl1.
      pose proof (logged_start n p p e1 _ (s, bit) m mech key o Ht1 Hl1 Hk1 eq_refl) as Hl2.
      eapply logged_view; [..|exact Hl2]; try done. simpl. by rewrite insert_delete_eq.
Qed.

Lemma start_machine_ok b n rest r s bit mech key o k :
  inv b n rest r → is_Some (operation_name bit) → 0 <= k → leaves (machine_cost (s, bit) (edge r) + k) (edge r) →
  ∃ r', start_machine s bit (category_name bit) mech key o r = (inr tt, r') ∧ inv b n rest r' ∧ leaves k (edge r').
Proof.
  destruct r as [p e l]. intros Hi Hn Hk (l0 & Htr & Hle). cbn [edge] in *. unfold machine_cost in Hle.
  pose proof (tr_seq _ _ (iv_tracked _ _ _ _ Hi)) as Hseq. cbn [edge] in Hseq.
  destruct (decide (active e !! (s, bit) = None ∧ (MAX_EDGE_ACTIVE_OPS <= size (active e))%nat)) as [[Hk0 Hfull]|Hroom].
  { destruct (add_dropped_ends 1 b n rest (mkRun p e l) Hi) as ([] & r' & E & Hi' & He). exists r'. split_and!; [|done|].
    - unfold start_machine. rewrite (bind_ok get _ _ _ _ eq_refl). cbn [edge]. rewrite Hk0.
      rewrite (proj2 (Nat.leb_le _ _) Hfull). exact E.
    - exists l0. rewrite (en_transition _ _ He). split; [done|]. destruct (_ && _)%bool; unfold ACTIVE_MACHINE_CHARGE in *; lia. }
  destruct (decide (machine_seq e + 1 < 2 ^ 64)) as [Hlt|Hge].
  - destruct (active e !! (s, bit)) as [old|] eqn:Hold.
    + destruct (start_again b n rest p e l s bit mech key o old Hi Hn Hold Hlt) as (r' & E & Hi' & Et).
      exists r'. split_and!; [done..|]. exists l0. rewrite Et. split; [done|]. simpl in Hle. lia.
    + assert (size (active e) < MAX_EDGE_ACTIVE_OPS)%nat as Hsz.
      { destruct (Nat.lt_ge_cases (size (active e)) MAX_EDGE_ACTIVE_OPS); [done|]. by destruct Hroom. }
      rewrite (proj2 (Nat.ltb_lt _ _) Hsz) in Hle. cbn in Hle. fold ACTIVE_MACHINE_CHARGE in Hle.
      destruct (start_new b n rest p e l s bit mech key o l0 Hi Hn Hold Hsz Hlt Htr ltac:(lia)) as (r' & E & Hi' & Et).
      exists r'. split_and!; [done..|]. exists (l0 - ACTIVE_MACHINE_CHARGE). split; [done|lia].
  - destruct (end_machine_ends s bit (category_name bit) EndCancelled o eq_refl _ _ _ _ Hi) as (a & [p' e' l'] & E & Hi' & He).
    eexists. split_and!; [|by apply exhausted_inv, Hi'|].
    + unfold start_machine. rewrite (bind_ok get _ _ _ _ eq_refl). cbn [edge].
      assert (bool_decide (active e !! (s, bit) = None) && (MAX_EDGE_ACTIVE_OPS <=? size (active e))%nat = false) as ->.
      { apply not_true_iff_false. intros [H1%bool_decide_eq_true_1 H2%Nat.leb_le]%andb_true_iff. by apply Hroom. }
      rewrite (bind_ok _ _ _ _ _ (alloc_none p e l ltac:(lia))), (bind_ok _ _ _ _ _ E). reflexivity.
    + exists l0. cbn [edge]. pose proof (en_transition _ _ He) as Et. cbn [edge] in Et. split; [simpl; by rewrite Et|].
      destruct (_ && _)%bool; unfold ACTIVE_MACHINE_CHARGE in *; lia.
Qed.
