(* ===== verification/EdgeStep.v ===== *)
(** * The per-edge reducer: one observed call

    Every observed call keeps the invariant of [EdgeInv]: what [preflight_growth]
    reserved pays for all the call adds, on every branch, so no [expect] of the reducer
    can fail and no charge is lost. *)
From stdpp Require Import sorting.
From S2P Require Import Prelude ObjectPolicy Semantics Kinds Pool Edge EdgeInv EdgeFrame EdgeGrow.

Section Step.
Context {RV : RvCodes} {EC : EdgeCodes} {Catalog : FunctionCatalog}.

(** ** The table of descriptors *)

Lemma descriptor_of_arm (P : SlotSemantics → bool) name :
  forallb (λ arm, P arm.2) arms = true → P COUNT_ONLY = true → P (descriptor_of name) = true.
Proof.
  intros Ha Hc. unfold descriptor_of. destruct (descriptor name) as [v|] eqn:E; simpl; [|done]. by eapply descriptor_arm.
Qed.

(** A starting call starts one operation, and neither changes sessions nor is direct. *)
Lemma initialize_shape name :
  transition_ (descriptor_of name) = transition.INITIALIZE →
  lifecycle_ (descriptor_of name) = lifecycle.NONE ∧ ∃ p, operation_bits (operations (descriptor_of name)) = [p].
Proof.
  pose proof (descriptor_of_arm (λ v, negb (transition_ v =? transition.INITIALIZE)
    || ((lifecycle_ v =? lifecycle.NONE) && (length (operation_bits (operations v)) =? 1)%nat)) name eq_refl eq_refl) as H.
  cbv beta in H. intros E. rewrite E in H. simpl in H. apply andb_true_iff in H as [H1%Z.eqb_eq H2%Nat.eqb_eq]. split; [done|].
  destruct (operation_bits _) as [|x [|]]; try done. by exists x.
Qed.

(** A call that operates on live machines changes no sessions. *)
Lemma operations_shape name :
  operations (descriptor_of name) ≠ 0 → lifecycle_ (descriptor_of name) = lifecycle.NONE.
Proof.
  pose proof (descriptor_of_arm (λ v, (operations v =? 0) || (lifecycle_ v =? lifecycle.NONE)) name eq_refl eq_refl) as H.
  cbv beta in H. intros Hne. apply orb_true_iff in H as [H%Z.eqb_eq|H%Z.eqb_eq]; done.
Qed.

(** ** Claims *)

Definition claim_cost (call : SemanticCall) (v : Z) (e : EdgeSemantics) : Z :=
  let d := descriptor_of (function call) in
  if ((transition_ d =? transition.INITIALIZE) || negb (direct_ d =? direct.NONE)) && (v =? rv_OK)
     && (mechanism_capture call =? capture.MECHANISM_VALUE)
     && (bool_decide (is_Some (mechs e !! mechanism call)) || (size (mechs e) <? MAX_EDGE_MECHANISMS)%nat)
  then provenance_growth (mechanism call) call v e + category_growth (mechanism call) d e else 0.

Definition open_cost (call : SemanticCall) (s v : Z) (e : EdgeSemantics) : Z :=
  if (lifecycle_ (descriptor_of (function call)) =? lifecycle.OPEN_SESSION) && (v =? rv_OK) && negb (s =? SESSION_NONE)
     && (bool_decide (is_Some (open e !! s)) || (size (open e) <? MAX_EDGE_SESSIONS)%nat)
  then OPEN_BINDING_CHARGE else 0.

Definition operate_cost (call : SemanticCall) (s v : Z) (e : EdgeSemantics) : Z :=
  let d := descriptor_of (function call) in
  let init := transition_ d =? transition.INITIALIZE in
  if init && (v =? rv_OK) && negb (s =? SESSION_NONE) && negb (null_cancels call d) then machine_growth s d e
  else if negb init && (direct_ d =? direct.NONE) && negb (operations d =? 0) then attributed_growth call s v d e else 0.

Lemma completed_growth_split call s v e :
  completed_growth call s v e =
    if reconciles v then claim_cost call v e else claim_cost call v e + open_cost call s v e + operate_cost call s v e.
Proof. reflexivity. Qed.

Lemma category_growth_nonneg m d e : 0 <= category_growth m d e.
Proof. rewrite category_growth_names. apply names_growth_nonneg. Qed.

Lemma claim_cost_nonneg call v e : 0 <= claim_cost call v e.
Proof.
  unfold claim_cost. case_match; [|lia].
  pose proof (provenance_growth_nonneg (mechanism call) call v e).
  pose proof (category_growth_nonneg (mechanism call) (descriptor_of (function call)) e). lia.
Qed.

Lemma open_cost_nonneg call s v e : 0 <= open_cost call s v e.
Proof. unfold open_cost, OPEN_BINDING_CHARGE. case_match; lia. Qed.

Lemma leaves_le k k' e : leaves k e → k' <= k → leaves k' e.
Proof. intros (l & E & H) Hk. exists l. split; [done|lia]. Qed.

Lemma ends_leaves {A} (m : Edge A) b n rest r k :
  ends m → inv b n rest r → leaves k (edge r) →
  ∃ a r', m r = (inr a, r') ∧ inv b n rest r' ∧ ending r r' ∧ leaves k (edge r').
Proof.
  intros Hm Hi (l & E & Hk). destruct (Hm _ _ _ _ Hi) as (a & r' & Er & Hi' & He). exists a, r'. split_and!; [done..|].
  exists l. by rewrite (en_transition _ _ He).
Qed.

Lemma record_init_ok b n rest r call k :
  let d := descriptor_of (function call) in
  inv b n rest r → 0 <= k → leaves (claim_cost call (rv call) (edge r) + k) (edge r) →
  ∃ r', when ((transition_ d =? transition.INITIALIZE) || negb (direct_ d =? direct.NONE)) (record_init_mechanism call d) r
      = (inr tt, r') ∧
    inv b n rest r' ∧ leaves k (edge r') ∧ open (edge r') = open (edge r) ∧ active (edge r') = active (edge r).
Proof.
  destruct r as [p e l]. intros d Hi Hk (l0 & Htr & Hle). cbn [edge] in *. pose proof (claim_cost_nonneg call (rv call) e).
  assert (∀ r', r' = mkRun p e l → inv b n rest r' ∧ leaves k (edge r') ∧ open (edge r') = open e ∧ active (edge r') = active e)
    as Hid by (intros r' ->; split_and!; [done| |done..]; exists l0; split; [done|lia]).
  unfold claim_cost in Hle. fold d in Hle.
  destruct (_ || negb (direct_ d =? _)) eqn:Ei; [|eexists; split; [reflexivity|by apply Hid]].
  cbn [when]. unfold record_init_mechanism. destruct (rv call =? rv_OK) eqn:Er; [|eexists; split; [reflexivity|by apply Hid]].
  destruct (mechanism_capture call =? _) eqn:Ec; [|eexists; split; [reflexivity|by apply Hid]]. cbn [negb orb andb] in *.
  rewrite (bind_ok get _ _ _ _ eq_refl). cbn [edge].
  assert (mech_room (mechanism call) e
    = bool_decide (is_Some (mechs e !! mechanism call)) || (size (mechs e) <? MAX_EDGE_MECHANISMS)%nat) as Hroom
    by (unfold mech_room; by rewrite Nat.leb_antisym, negb_involutive).
  rewrite <- Hroom in Hle. destruct (mech_room (mechanism call) e) eqn:Em; cbn [negb] in *.
  - destruct (pay_put_mech b n rest (mechanism call) 0 call (claim_names d) _ l0 p e l Hi Em (NoDup_claim_names d) eq_refl Htr)
      as (e' & E & Hi' & Htr' & Eo & Ea & _); [rewrite <- category_growth_names; lia|].
    rewrite <- category_growth_names in *. exists (mkRun p e' l). split_and!; [exact E|done| |done..].
    eexists. split; [exact Htr'|lia].
  - destruct (add_dropped_ends 1 _ _ _ _ Hi) as ([] & r' & E & Hi' & He). exists r'. split_and!; [done..| | |].
    + exists l0. rewrite (en_transition _ _ He). split; [done|lia].
    + by inversion E.
    + by inversion E.
Qed.

(** ** Attribution *)

Lemma provenance_growth_later m m' call v e e' :
  (∀ x, x ≠ m → mechs e' !! x = mechs e !! x) → (size (mechs e) <= size (mechs e'))%nat → m' ≠ m →
  provenance_growth m' call v e' <= provenance_growth m' call v e.
Proof.
  intros Hsame Hsz Hne. pose proof (provenance_growth_nonneg m' call v e). unfold provenance_growth in *.
  rewrite (Hsame m' Hne). destruct (mechs e !! m') eqn:E; [simpl; lia|].
  rewrite bool_decide_eq_true_2 in * by done. cbn [andb] in *.
  destruct (MAX_EDGE_MECHANISMS <=? size (mechs e'))%nat eqn:E1; [done|].
  assert ((MAX_EDGE_MECHANISMS <=? size (mechs e))%nat = false) as ->; [|lia].
  apply Nat.leb_gt. apply Nat.leb_gt in E1. lia.
Qed.

Lemma zsum_mono {A} (f g : A → Z) l : (∀ x, x ∈ l → f x <= g x) → zsum f l <= zsum g l.
Proof.
  unfold zsum. induction l as [|x l IH]; simpl; intros H; [lia|].
  pose proof (H x ltac:(by left)). specialize (IH ltac:(intros y Hy; apply H; by right)). lia.
Qed.

Lemma attribute_ok b n rest r call m k :
  inv b n rest r → 0 <= k → leaves (provenance_growth m call (rv call) (edge r) + k) (edge r) →
  ∃ r', attribute_op_call call m r = (inr tt, r') ∧ inv b n rest r' ∧ leaves k (edge r') ∧
    active (edge r') = active (edge r) ∧ (∀ x, x ≠ m → mechs (edge r') !! x = mechs (edge r) !! x) ∧
    (size (mechs (edge r)) <= size (mechs (edge r')))%nat.
Proof.
  destruct r as [p e l]. intros Hi Hk (l0 & Htr & Hle). cbn [edge] in *. pose proof (provenance_growth_nonneg m call (rv call) e).
  unfold attribute_op_call. rewrite (bind_ok get _ _ _ _ eq_refl). cbn [edge]. destruct (mech_room m e) eqn:Em; cbn [negb].
  - destruct (pay_put_mech b n rest m (if rv call =? rv_OK then 0 else 1) call [] (provenance_growth m call (rv call) e) l0 p e l Hi Em
      (NoDup_nil_2)) as (e' & E & Hi' & Htr' & Eo & Ea & _ & Hm & Hs); [simpl; unfold names_growth; simpl; lia|done|lia|].
    exists (mkRun p e' l). split_and!; [exact E|done| |done..]. eexists. split; [exact Htr'|lia].
  - destruct (add_dropped_ends 1 _ _ _ _ Hi) as ([] & r' & E & Hi' & He). exists r'. split_and!; [done..| | | |].
    + exists l0. rewrite (en_transition _ _ He). split; [done|lia].
    + by inversion E.
    + by inversion E.
    + by inversion E.
Qed.

Lemma attribute_each b n rest call ms k :
  NoDup ms → ∀ r, inv b n rest r → 0 <= k →
  leaves (zsum (λ m, provenance_growth m call (rv call) (edge r)) ms + k) (edge r) →
  ∃ r', for_each (attribute_op_call call) ms r = (inr tt, r') ∧ inv b n rest r' ∧ leaves k (edge r') ∧
    active (edge r') = active (edge r).
Proof.
  induction ms as [|m ms IH]; intros Hnd r Hi Hk Hl; [by exists r|].
  apply NoDup_cons in Hnd as [Hm Hnd]. simpl zsum in Hl. fold (zsum (λ m, provenance_growth m call (rv call) (edge r)) ms) in Hl.
  assert (0 <= zsum (λ m, provenance_growth m call (rv call) (edge r)) ms) as H0
    by (apply zsum_nonneg; intros; apply provenance_growth_nonneg).
  destruct (attribute_ok b n rest r call m (zsum (λ m, provenance_growth m call (rv call) (edge r)) ms + k) Hi) as
    (r1 & E1 & Hi1 & Hl1 & Ha1 & Hm1 & Hs1); [lia|by eapply leaves_le; [exact Hl|lia]|].
  destruct (IH Hnd r1 Hi1 Hk) as (r2 & E2 & Hi2 & Hl2 & Ha2).
  - eapply leaves_le; [exact Hl1|]. apply Z.add_le_mono_r, zsum_mono. intros x Hx.
    apply (provenance_growth_later m); [done..|]. by intros ->.
  - exists r2. split_and!; [|done..|congruence]. simpl. by rewrite (bind_ok _ _ _ _ _ E1).
Qed.
(** The mechanisms the preflight counts are those the execution visits. *)
Lemma dedup_fold {A} (g : A → option Z) (f : Z → Z) l acc :
  NoDup acc →
  let out := foldl (λ acc x, match g x with
      | Some m => if bool_decide (m ∈ acc.1) then acc else (acc.1 ++ [m], acc.2 + f m)
      | None => acc
      end) (acc, zsum f acc) l in
  out.2 = zsum f out.1 ∧ NoDup out.1 ∧ ∀ m, m ∈ out.1 ↔ m ∈ acc ∨ m ∈ omap g l.
Proof.
  revert acc. induction l as [|x l IH]; intros acc Hnd; simpl.
  { split_and!; [done..|]. intros m. set_solver. }
  destruct (g x) as [m|] eqn:Eg.
  - case_bool_decide as Hm.
    + destruct (IH acc Hnd) as (H1 & H2 & H3). split_and!; [done..|]. intros y. rewrite H3. set_solver.
    + assert (NoDup (acc ++ [m])) as Hnd'.
      { apply NoDup_app. split_and!; [done| |apply NoDup_singleton]. intros y Hy ->%list_elem_of_singleton. done. }
      specialize (IH (acc ++ [m]) Hnd'). rewrite zsum_app in IH. simpl in IH. rewrite Z.add_0_r in IH.
      destruct IH as (H1 & H2 & H3). split_and!; [done..|]. intros y. rewrite H3. set_solver.
  - destruct (IH acc Hnd) as (H1 & H2 & H3). by split_and!.
Qed.

Lemma bound_mechanisms_NoDup s d e : NoDup (bound_mechanisms s d e).
Proof. unfold bound_mechanisms, in_order. rewrite merge_sort_Permutation. apply NoDup_elements. Qed.

Lemma attributed_growth_sum call s v d e :
  attributed_growth call s v d e = zsum (λ m, provenance_growth m call v e) (bound_mechanisms s d e).
Proof.
  unfold attributed_growth.
  destruct (dedup_fold (λ p : Z * string, active e !! (s, p.1) ≫= machine_mechanism) (λ m, provenance_growth m call v e)
    (operation_bits (operations d)) [] NoDup_nil_2) as (H1 & H2 & H3).
  etrans; [exact H1|]. apply zsum_proper. unfold bound_mechanisms, in_order. rewrite merge_sort_Permutation.
  apply NoDup_Permutation; [done|apply NoDup_elements|]. intros m. rewrite H3. set_solver.
Qed.

(** ** Operating *)

Lemma size_alter {K A} `{Countable K} (f : A → A) (k : K) (m : gmap K A) : size (alter f k m) = size m.
Proof. rewrite <- !(size_dom (D := gset K)). by rewrite dom_alter_L. Qed.

Lemma advance_inv b n rest p e l k :
  inv b n rest (mkRun p e l) → inv b n rest (mkRun p (set_active (alter advance k) e) l).
Proof.
  intros [Hf Ht Hl].
  assert (∀ k' m', alter advance k (active e) !! k' = Some m' → ∃ m, active e !! k' = Some m ∧ generation m' = generation m) as Hback.
  { intros k' m'. destruct (decide (k = k')) as [<-|Hne].
    - rewrite lookup_alter_eq. intros (m & Hm & ->)%fmap_Some_1. by exists m.
    - rewrite lookup_alter_ne by done. intros Hm. by exists m'. }
  constructor.
  - destruct Hf as [Ho Hc Hlm Hr Hp Hd Htt Hs]. unfold owned in *. simpl in *.
    constructor; try done; unfold owned in *; simpl; by rewrite size_alter.
  - destruct Ht as [Ho Ha Hm Hy Hst Hq Hb Hg Hi [B1 B2 B3]]. cbn [edge] in *.
    constructor; try done; simpl; rewrite ?size_alter; try done.
    + intros k' m' (m & Hm' & _)%Hback. by eapply (Hb k').
    + intros k' m' (m & Hm' & ->)%Hback. by eapply (Hg k').
    + intros k1 k2 m1 m2 (x1 & H1 & ->)%Hback (x2 & H2 & ->)%Hback. by apply Hi.
    + constructor; try done. simpl. by rewrite size_alter.
  - intros Hbt. destruct (Hl Hbt) as [(last & live & Hrp & Hlast & Hlive) Hx Hst]. constructor; try done. cbn [edge sink] in *.
    exists last, live. split_and!; [done..|]. intros id c. rewrite Hlive. split.
    + intros (k' & m & Hm & Hg & Hc). destruct (decide (k = k')) as [<-|Hne].
      * exists k, (advance m). simpl. rewrite lookup_alter_eq, Hm. done.
      * exists k', m. simpl. by rewrite lookup_alter_ne.
    + intros (k' & m' & (m & Hm & ->)%Hback & Hg & Hc). by exists k', m.
Qed.

Lemma advance_ok b n rest l r s k :
  inv b n rest r → leaves k (edge r) →
  ∃ r', for_each (λ p : Z * string, modify (set_active (alter advance (s, p.1)))) l r = (inr tt, r') ∧
    inv b n rest r' ∧ leaves k (edge r').
Proof.
  revert r. induction l as [|x l IH]; intros [p e s'] Hi Hk; simpl; [by exists (mkRun p e s')|].
  apply (IH (mkRun p (set_active (alter advance (s, x.1)) e) s')); [by apply advance_inv|done].
Qed.

Lemma apply_operations_ok b n rest r call o k :
  let d := descriptor_of (function call) in
  inv b n rest r → 0 <= k → leaves (attributed_growth call (session call) (rv call) d (edge r) + k) (edge r) →
  ∃ r', apply_operations call d o r = (inr tt, r') ∧ inv b n rest r' ∧ leaves k (edge r').
Proof.
  intros d Hi Hk Hl. unfold apply_operations. rewrite (bind_ok get _ _ _ _ eq_refl).
  rewrite attributed_growth_sum in Hl.
  set (orphaned := for_each (λ p : Z * string,
    when (bool_decide (active (edge r) !! (session call, p.1) = None)) (add set_orphans 1)) (operation_bits (operations d))).
  assert (ends orphaned) as Ho by (unfold orphaned; ends).
  destruct (ends_leaves orphaned b n rest r _ Ho Hi Hl) as ([] & r1 & E1 & Hi1 & He1 & Hl1).
  rewrite (bind_ok _ _ _ _ _ E1).
  destruct (attribute_each b n rest call (bound_mechanisms (session call) d (edge r)) k (bound_mechanisms_NoDup _ _ _) r1 Hi1 Hk)
    as (r2 & E2 & Hi2 & Hl2 & _).
  { eapply leaves_le; [exact Hl1|]. apply Z.add_le_mono_r, zsum_mono. intros m _. unfold provenance_growth.
    by rewrite (en_mechs _ _ He1). }
  rewrite (bind_ok _ _ _ _ _ E2). destruct (negb (retains call d)); [|by apply advance_ok].
  set (finish := for_each _ _). assert (ends finish) as Hfin.
  { unfold finish. apply ends_for_each. intros p Hp. apply ends_bind; [by eapply end_bit_ends|ends]. }
  destruct (ends_leaves finish b n rest r2 k Hfin Hi2 Hl2) as ([] & r3 & E3 & Hi3 & _ & Hl3). by exists r3.
Qed.
(** ** Sessions *)

#[local] Instance open_chargeless O : Chargeless (λ r, open (edge r) = O).
Proof. by split. Qed.

Lemma retire_session_forgets s st o r a r' : retire_session s st o r = (inr a, r') → open (edge r') = delete s (open (edge r)).
Proof.
  unfold retire_session. destruct (forget_open s r) as [[x|ex] r1] eqn:E1; [by rewrite (bind_err _ _ _ _ _ E1)|].
  rewrite (bind_ok _ _ _ _ _ E1). set (O := delete s (open (edge r))). set (P := λ r, open (edge r) = O).
  assert (P r1) as H1.
  { unfold forget_open in E1. rewrite (bind_ok get _ _ _ _ eq_refl), (bind_ok (modify _) _ _ tt _ eq_refl) in E1.
    set (w := _ ;; _) in E1. assert (stable P w) as Hw by (unfold w, P; stable). by eapply Hw, E1. }
  intros E2. revert H1 E2. set (m := end_session_machines s st o ≫= _).
  assert (stable P m) as Hm; [|intros H1 E; by eapply Hm, E]. unfold m, P.
  unfold end_session_machines, end_machines, end_machine, drop_session_pending, retain_pending, float_session_async. stable.
Qed.

(** The lifecycle of every call but an observed open. *)
Lemma apply_lifecycle_ends call d o :
  (lifecycle_ d =? lifecycle.OPEN_SESSION) && (rv call =? rv_OK) && negb (session call =? SESSION_NONE) = false →
  ends (apply_lifecycle call d o).
Proof.
  intros H. unfold apply_lifecycle. rewrite H. repeat (case_match; [ends; fail|]); ends.
Qed.

Lemma open_inv b n rest p e l s slot l0 :
  inv b n rest (mkRun p e l) → open e !! s = None → (size (open e) < MAX_EDGE_SESSIONS)%nat →
  resource_transition e = Some (mkLease l0) → OPEN_BINDING_CHARGE <= l0 →
  ∃ e', (retain_resource_charge OPEN_BINDING_CHARGE ;; modify (set_open (<[s := slot]>))) (mkRun p e l) = (inr tt, mkRun p e' l) ∧
    inv b n rest (mkRun p e' l) ∧ resource_transition e' = Some (mkLease (l0 - OPEN_BINDING_CHARGE)) ∧ active e' = active e.
Proof.
  intros [Hf Ht Hl] Hs Hsz Htr Hle. assert (0 <= OPEN_BINDING_CHARGE) by (unfold OPEN_BINDING_CHARGE; lia).
  rewrite (bind_ok _ _ _ _ _ (retain_ok OPEN_BINDING_CHARGE l0 rest p e l Hf Htr ltac:(lia))).
  eexists. split; [reflexivity|]. cbn [pool edge sink]. split_and!; [|done..]. constructor.
  - apply (funded_paid rest p e l OPEN_BINDING_CHARGE l0); [done|done|lia| |done..].
    unfold owned. simpl. rewrite map_size_insert_None by done. unfold OPEN_BINDING_CHARGE. lia.
  - destruct Ht as [? ? ? ? ? ? ? ? ? [? ? ?]]. constructor; try done. simpl. rewrite map_size_insert_None by done. lia.
  - intros Hb. destruct (Hl Hb). by constructor.
Qed.

Lemma apply_lifecycle_ok b n rest r call o k :
  let d := descriptor_of (function call) in
  inv b n rest r → 0 <= k → leaves (open_cost call (session call) (rv call) (edge r) + k) (edge r) →
  ∃ r', apply_lifecycle call d o r = (inr tt, r') ∧ inv b n rest r' ∧ leaves k (edge r') ∧
    (lifecycle_ d = lifecycle.NONE → r' = r).
Proof.
  intros d Hi Hk Hl. unfold open_cost in Hl. fold d in Hl.
  destruct ((lifecycle_ d =? lifecycle.OPEN_SESSION) && (rv call =? rv_OK) && negb (session call =? SESSION_NONE)) eqn:Eo.
  2:{ simpl in Hl. destruct (ends_leaves _ b n rest r _ (apply_lifecycle_ends call d o Eo) Hi Hl) as ([] & r' & E & Hi' & _ & Hl').
      exists r'. split_and!; [done..|]. intros Hn. unfold apply_lifecycle in E. rewrite Hn in E. simpl in E. by inversion E. }
  unfold apply_lifecycle. rewrite Eo. simpl andb in Hl.
  destruct (ends_leaves _ b n rest r _ (retire_session_ends (session call) EndUnknown o) Hi Hl) as (st & r1 & E1 & Hi1 & He1 & Hl1).
  rewrite (bind_ok _ _ _ _ _ E1). pose proof (retire_session_forgets _ _ _ _ _ _ E1) as Ho1.
  assert (ends (when st (note set_state_reconciliations))) as Hw by ends.
  destruct (ends_leaves _ b n rest r1 _ Hw Hi1 Hl1) as ([] & [p e l] & E2 & Hi2 & He2 & (l0 & Htr & Hle)).
  rewrite (bind_ok _ _ _ _ _ E2). rewrite (bind_ok get _ _ _ _ eq_refl). cbn [edge] in *.
  assert (open e = delete (session call) (open (edge r))) as Ho.
  { rewrite <- Ho1. destruct st; simpl in E2; by inversion E2. }
  assert (open e !! session call = None) as Hnone by (rewrite Ho; apply lookup_delete_eq).
  assert (lifecycle_ d ≠ lifecycle.NONE) as Hne.
  { intros E. by rewrite E in Eo. }
  rewrite bool_decide_eq_true_2 by done. cbn [andb].
  destruct (MAX_EDGE_SESSIONS <=? size (open e))%nat eqn:Efull.
  - destruct (add_dropped_ends 1 b n rest _ Hi2) as ([] & r' & E & Hi' & He). exists r'. split_and!; [done..| |done].
    exists l0. rewrite (en_transition _ _ He). split; [done|]. destruct (_ || _)%bool; unfold OPEN_BINDING_CHARGE in *; lia.
  - apply Nat.leb_gt in Efull.
    assert (bool_decide (is_Some (open (edge r) !! session call)) || (size (open (edge r)) <? MAX_EDGE_SESSIONS)%nat = true) as Hroom.
    { case_bool_decide as Hs; [done|]. apply Nat.ltb_lt. apply eq_None_not_Some in Hs. rewrite Ho, delete_id in Efull by done. done. }
    rewrite Hroom in Hle.
    destruct (open_inv b n rest p e l (session call) (slot_id call) l0 Hi2 Hnone Efull Htr ltac:(lia)) as (e' & E & Hi' & Et & _).
    exists (mkRun p e' l). split_and!; [done..| |done]. eexists. split; [exact Et|lia].
Qed.
(** ** The pipeline *)

Lemma machine_growth_one s d e p : operation_bits (operations d) = [p] → machine_growth s d e = machine_cost (s, p.1) e.
Proof.
  intros Hp. unfold machine_growth, machine_cost. rewrite Hp. cbn [foldl fst snd]. rewrite Nat.add_0_r. by case_match.
Qed.

Lemma machine_growth_nonneg s d e : 0 <= machine_growth s d e.
Proof.
  unfold machine_growth. assert (∀ l (acc : nat * Z), 0 <= acc.2 → 0 <= (foldl (λ acc (p : Z * string),
    if bool_decide (active e !! (s, p.1) = None) && (size (active e) + acc.1 <? MAX_EDGE_ACTIVE_OPS)%nat
    then (S acc.1, acc.2 + ACTIVE_MACHINE_CHARGE) else acc) acc l).2) as H; [|by apply H].
  induction l as [|p l IH]; intros acc Hacc; [done|]. apply IH. case_match; [|done]. unfold ACTIVE_MACHINE_CHARGE. simpl. lia.
Qed.

Lemma operate_cost_nonneg call s v e : 0 <= operate_cost call s v e.
Proof.
  unfold operate_cost. case_match; [apply machine_growth_nonneg|]. case_match; [|lia].
  rewrite attributed_growth_sum. apply zsum_nonneg. intros. apply provenance_growth_nonneg.
Qed.

Lemma apply_init_ok b n rest r call o keys k :
  let d := descriptor_of (function call) in
  transition_ d = transition.INITIALIZE → inv b n rest r → 0 <= k →
  leaves (operate_cost call (session call) (rv call) (edge r) + k) (edge r) →
  ∃ r', apply_init call d o keys r = (inr tt, r') ∧ inv b n rest r' ∧ leaves k (edge r').
Proof.
  intros d Hd Hi Hk Hl. destruct (initialize_shape _ Hd) as (_ & [bit name] & Hp). fold d in Hp.
  unfold operate_cost in Hl. fold d in Hl. rewrite Hd in Hl. cbn [Z.eqb Pos.eqb andb negb] in Hl.
  destruct (operation_bits_name (operations d) (bit, name)) as [Hname Hn]; [rewrite Hp; by left|]. simpl in Hname, Hn. subst name.
  unfold apply_init. destruct (rv call =? rv_OK); [|by exists r]. destruct (session call =? SESSION_NONE); [by exists r|].
  cbn [negb orb andb] in *. rewrite Hp. cbn [for_each]. rewrite (machine_growth_one _ _ _ _ Hp) in Hl. cbn [fst] in Hl.
  assert (∀ m : Edge (), ends m → leaves k (edge r) →
    ∃ r', (m ;; mret tt) r = (inr tt, r') ∧ inv b n rest r' ∧ leaves k (edge r')) as Hend.
  { intros m Hm Hlk. destruct (ends_leaves m b n rest r k Hm Hi Hlk) as ([] & r' & E & Hi' & _ & Hl'). exists r'.
    by rewrite (bind_ok _ _ _ _ _ E). }
  assert (∀ mech key r, inv b n rest r → leaves (machine_cost (session call, bit) (edge r) + k) (edge r) →
    ∃ r', (start_machine (session call) bit (category_name bit) mech key o ;; mret tt) r = (inr tt, r') ∧
      inv b n rest r' ∧ leaves k (edge r')) as Hstart.
  { intros mech key r1 Hi1 Hl1. destruct (start_machine_ok b n rest r1 (session call) bit mech key o k Hi1 Hn Hk Hl1)
      as (r' & E & Hi' & Hl'). exists r'. by rewrite (bind_ok _ _ _ _ _ E). }
  unfold null_cancels in Hl. destruct (mechanism_capture call =? capture.MECHANISM_VALUE) eqn:Ev.
  { apply Hstart; [done|]. apply Z.eqb_eq in Ev. rewrite Ev in Hl. exact Hl. }
  destruct (mechanism_capture call =? capture.MECHANISM_NULL) eqn:En; [|by apply Hstart].
  destruct (nz _) eqn:Ef; cbn [andb negb] in *.
  - apply Hend; [|done]. apply ends_bind; [by apply end_machine_ends|ends].
  - destruct (note_ends set_semantic_capture_failures b n rest r Hi) as ([] & r1 & E1 & Hi1 & He1).
    destruct (Hstart None (head keys) r1 Hi1) as (r' & E' & Hi' & Hl').
    { inversion E1; subst. exact Hl. }
    exists r'. split_and!; [|done..]. rewrite <- E'. inversion E1. reflexivity.
Qed.

(** A direct operation: started and completed at once. *)
Definition direct_edge (e : EdgeSemantics) : EdgeSemantics :=
  set_completed (λ v, saturating_add 64 v 1) (set_started (λ v, saturating_add 64 v 1) e).

Lemma direct_balanced e : balanced e → balanced (direct_edge e).
Proof. intros [B1 B2 B3]. constructor; simpl; unfold saturating_add, U64_MAX in *; lia. Qed.

Lemma direct_some b n rest p e l c mech keys o :
  inv b n rest (mkRun p e l) → machine_seq e + 1 < 2 ^ 64 →
  inv b n rest (mkRun p (set_machine_seq (λ _, machine_seq e + 1) (direct_edge e))
    (l ++ [DirectCompleted (machine_seq e + 1) c mech keys o])).
Proof.
  intros [Hf Ht Hl] Hlt. cbn [edge] in Ht. pose proof (direct_balanced e (tr_balanced _ _ Ht)) as [B1 B2 B3].
  pose proof (tr_balanced _ _ Ht) as [C1 _ _]. constructor.
  - destruct Hf. by constructor.
  - destruct Ht as [? ? ? ? ? Hseq ? Hgen ? _]. constructor; try done; simpl.
    + lia.
    + intros k m Hm. specialize (Hgen k m Hm). simpl in Hgen. lia.
  - intros Hb. destruct (Hl Hb) as [(last & live & Hr & Hlast & Hlive) Hx Hst]. cbn [edge sink] in *.
    constructor; cbn [edge sink].
    + exists (machine_seq e + 1), live. rewrite replay_snoc, Hr. simpl. rewrite (proj2 (Z.ltb_lt _ _)) by lia. by split_and!.
    + done.
    + rewrite starts_snoc. simpl. intros H. unfold saturating_add, U64_MAX in *. lia.
Qed.

Lemma direct_none b n rest p e l :
  inv b n rest (mkRun p e l) → inv b n rest (mkRun p (set_id_exhaustions (λ v, saturating_add 64 v 1) (direct_edge e)) l).
Proof.
  intros [Hf Ht Hl]. cbn [edge] in Ht. pose proof (direct_balanced e (tr_balanced _ _ Ht)) as [B1 B2 B3].
  pose proof (tr_balanced _ _ Ht) as [C1 _ _]. constructor.
  - destruct Hf. by constructor.
  - destruct Ht. by constructor.
  - intros Hb. destruct (Hl Hb) as [H1 H2 H3]. cbn [edge sink] in *. constructor; cbn [edge sink]; [done|simpl; unfold saturating_add; lia|].
    assert (0 <= starts l) by (apply zsum_nonneg; intros []; lia). simpl. intros Hlt. unfold saturating_add, U64_MAX in *. lia.
Qed.

Lemma apply_direct_ok b n rest r call d o keys k :
  inv b n rest r → leaves k (edge r) →
  ∃ r', apply_direct call d o keys r = (inr tt, r') ∧ inv b n rest r' ∧ leaves k (edge r').
Proof.
  destruct r as [p e l]. intros Hi Hl. unfold apply_direct. destruct (rv call =? rv_OK); [|by exists (mkRun p e l)].
  cbn [negb]. rewrite (bind_ok (add _ _) _ _ tt _ eq_refl), (bind_ok (add _ _) _ _ tt _ eq_refl). cbn [pool edge sink].
  pose proof (tr_seq _ _ (iv_tracked _ _ _ _ Hi)) as Hseq. cbn [edge] in Hseq.
  destruct (decide (machine_seq e + 1 < 2 ^ 64)) as [Hlt|Hge].
  - rewrite (bind_ok _ _ _ _ _ (alloc_some p (direct_edge e) l (proj1 Hseq) Hlt)).
    eexists. split_and!; [reflexivity|exact (direct_some b n rest p e l _ _ _ _ Hi Hlt)|done].
  - rewrite (bind_ok _ _ _ _ _ (alloc_none p (direct_edge e) l ltac:(simpl machine_seq; lia))).
    eexists. split_and!; [reflexivity|exact (direct_none b n rest p e l Hi)|done].
Qed.

Lemma reconcile_conclusive_stop call d o r :
  reconciles (rv call) = false → reconcile_conclusive call d o r = (inr false, r).
Proof.
  unfold reconciles, reconcile_conclusive. intros [[[H1 H2]%orb_false_iff H3]%orb_false_iff H4]%orb_false_iff.
  by rewrite H1, H2, H3, H4.
Qed.

Lemma reconcile_conclusive_true call d o b n rest r :
  reconciles (rv call) = true → inv b n rest r →
  ∃ r', reconcile_conclusive call d o r = (inr true, r') ∧ inv b n rest r' ∧ ending r r'.
Proof.
  intros Hr Hi. destruct (reconcile_conclusive_ends call d o b n rest r Hi) as (c & r' & E & Hi' & He). exists r'.
  split_and!; [|done..]. rewrite E. do 2 f_equal. revert E. unfold reconcile_conclusive, reconciles in *.
  assert (∀ (m : Edge bool), (c0 ← m; when c0 (note set_state_reconciliations) ;; mret true) r = (inr c, r') → c = true) as Hc.
  { intros m. destruct (m r) as [[x|c0] r1] eqn:E1; [by rewrite (bind_err _ _ _ _ _ E1)|].
    rewrite (bind_ok _ _ _ _ _ E1). destruct c0; by intros [= <- _]. }
  destruct (rv call =? rv_OPERATION_NOT_INITIALIZED); [apply Hc|].
  destruct ((rv call =? rv_SESSION_CLOSED) || (rv call =? rv_SESSION_HANDLE_INVALID)) eqn:E2; [apply Hc|].
  destruct (rv call =? rv_CRYPTOKI_NOT_INITIALIZED); [apply Hc|]. cbn [orb] in Hr. by rewrite E2 in Hr.
Qed.

Lemma apply_completed_ok b n rest r call o keys k :
  inv b n rest r → 0 <= k → leaves (completed_growth call (session call) (rv call) (edge r) + k) (edge r) →
  ∃ r', apply_completed call (descriptor_of (function call)) o keys r = (inr tt, r') ∧ inv b n rest r' ∧ leaves k (edge r').
Proof.
  intros Hi Hk Hl. rewrite completed_growth_split in Hl. set (d := descriptor_of (function call)). unfold apply_completed.
  pose proof (open_cost_nonneg call (session call) (rv call) (edge r)).
  pose proof (operate_cost_nonneg call (session call) (rv call) (edge r)).
  set (after := if reconciles (rv call) then 0
    else open_cost call (session call) (rv call) (edge r) + operate_cost call (session call) (rv call) (edge r)).
  assert (leaves (claim_cost call (rv call) (edge r) + (after + k)) (edge r)) as Hl0.
  { eapply leaves_le; [exact Hl|]. unfold after. destruct (reconciles _); lia. }
  destruct (record_init_ok b n rest r call (after + k) Hi) as (r1 & E1 & Hi1 & Hl1 & Ho1 & Ha1); [unfold after; case_match; lia|done|].
  rewrite (bind_ok _ _ _ _ _ E1). unfold after in Hl1. destruct (reconciles (rv call)) eqn:Er.
  { destruct (reconcile_conclusive_true call d o b n rest r1 Er Hi1) as (r2 & E2 & Hi2 & He2).
    rewrite (bind_ok _ _ _ _ _ E2). exists r2. split_and!; [done..|].
    destruct Hl1 as (l1 & Et & Hle). exists l1. rewrite (en_transition _ _ He2). split; [done|lia]. }
  rewrite (bind_ok _ _ _ _ _ (reconcile_conclusive_stop call d o r1 Er)).
  assert (open_cost call (session call) (rv call) (edge r) = open_cost call (session call) (rv call) (edge r1)) as Hoc
    by (unfold open_cost; by rewrite Ho1).
  destruct (apply_lifecycle_ok b n rest r1 call o (operate_cost call (session call) (rv call) (edge r) + k) Hi1)
    as (r2 & E2 & Hi2 & Hl2 & Hn2); [lia|by eapply leaves_le; [exact Hl1|lia]|].
  rewrite (bind_ok _ _ _ _ _ E2). fold d in Hn2, E1.
  destruct (transition_ d =? transition.INITIALIZE) eqn:Ei.
  { apply Z.eqb_eq in Ei. destruct (initialize_shape _ Ei) as [Hlc _]. rewrite (Hn2 Hlc) in *.
    apply apply_init_ok; [done..|]. eapply leaves_le; [exact Hl2|]. unfold operate_cost, machine_growth. fold d. rewrite Ei, Ha1.
    rewrite Z.eqb_refl. cbn [negb andb]. lia. }
  destruct ((direct_ d =? direct.NONE) && negb (operations d =? 0)) eqn:Ed.
  { pose proof Ed as [Ed1 Ed2%negb_true_iff%Z.eqb_neq]%andb_true_iff. rewrite (Hn2 (operations_shape _ Ed2)) in *.
    rewrite Ed1 in E1. injection E1 as <-. apply apply_operations_ok; [done..|].
    eapply leaves_le; [exact Hl2|]. unfold operate_cost. fold d. rewrite Ei. cbn [negb andb]. rewrite Ed. fold d. lia. }
  assert (leaves k (edge r2)) as Hl3 by (eapply leaves_le; [exact Hl2|lia]).
  destruct (direct_ d =? direct.NONE); cbn [negb when]; [by exists r2|]. by apply apply_direct_ok.
Qed.
End Step.
