(* ===== verification/EdgeAsync.v ===== *)
(** * The per-edge reducer: asynchronous calls and the pool

    Asynchronous records carry their own leases from the call that queued them to the
    completion, eviction or loss that drops them; an observed call runs under a
    reservation that is returned when the call is done.  The last lemmas are the
    contract of the public methods: construct, observe, invalidate, drop. *)
From stdpp Require Import sorting.
From S2P Require Import Prelude ObjectPolicy Semantics Kinds Pool Edge EdgeInv EdgeGrow EdgeStep.

(** ** Moving leases *)

Lemma inv_weaken b n n' rest r : inv b n rest r → (n <= n')%nat → inv b n' rest r.
Proof. intros [Hf [? ? ? ? ? ? ? ? ? ?] Hl] Hn. constructor; [done| |done]. constructor; try done. lia. Qed.

(** The tracked and logged parts do not see leases. *)
Lemma drop_held b n rest k r :
  inv b n (rest + k) r → 0 <= rest → 0 <= k →
  ∃ r', drop_lease (Some (mkLease k)) r = (inr tt, r') ∧ inv b n rest r' ∧ edge r' = edge r ∧ sink r' = sink r.
Proof.
  destruct r as [p e l]. intros [Hf Ht Hl] Hr Hk. destruct (funded_bounds _ _ Hf) as (Hb & Ha & Htr). cbn [edge pool] in *.
  pose proof (owned_at_least e). unfold REDUCER_BASE_CHARGE, OPEN_BINDING_CHARGE, ACTIVE_MACHINE_CHARGE in *.
  pose proof (fu_charged _ _ Hf) as Hc. cbn [edge pool] in Hc. unfold SEMANTIC_TRANSITION_SCRATCH in Hc.
  exists (mkRun (set_charged (charged p - k) p) e l). split_and!; [|constructor|done..].
  - unfold drop_lease, set_pool, lease_drop, checked_sub. cbn [pool lease_bytes].
    by rewrite checked_small by (unfold in_width; lia).
  - destruct Hf as [Ho Hc' Hlm Hr' Hp Hd Htt Hs]. constructor; cbn [pool edge] in *; simpl in *; try done; lia.
  - done.
  - intros Hbt. destruct (Hl Hbt). by constructor.
Qed.

Lemma take_pending b n rest p e l key q :
  inv b n rest (mkRun p e l) → pending e !! key = Some q →
  ∃ k, pending_resource q = Some (mkLease k) ∧ 0 <= k ∧ inv b (pred n) (rest + k) (mkRun p (set_pending (delete key) e) l).
Proof.
  intros [Hf Ht Hl] Hq. destruct Hf as [Ho Hc Hlm Hr Hp Hd Htt Hs]. cbn [pool edge] in *.
  destruct (Hp _ _ Hq) as (k & Hk & Hk0). exists k. split_and!; [done..|]. constructor.
  - constructor; cbn [pool edge]; try done; [|lia|by apply map_Forall_delete].
    unfold async_held in *. simpl. rewrite (sum_by_delete _ _ _ _ Hq), Hk. simpl. unfold owned in *. simpl. lia.
  - destruct Ht as [? ? ? Hy ? ? ? ? ? [? ? ?]]. constructor; try done. simpl in *.
    rewrite map_size_delete_Some by done. assert (size (pending e) ≠ 0%nat) by (by eapply map_size_ne_0_lookup_2). lia.
  - intros Hbt. destruct (Hl Hbt). by constructor.
Qed.

Lemma take_detached b n rest p e l key i :
  inv b n rest (mkRun p e l) → detached e !! key = Some i →
  ∃ k, async_resource i = Some (mkLease k) ∧ 0 <= k ∧ inv b (pred n) (rest + k) (mkRun p (set_detached (delete key) e) l).
Proof.
  intros [Hf Ht Hl] Hq. destruct Hf as [Ho Hc Hlm Hr Hp Hd Htt Hs]. cbn [pool edge] in *.
  destruct (Hd _ _ Hq) as (k & Hk & Hk0). exists k. split_and!; [done..|]. constructor.
  - constructor; cbn [pool edge]; try done; [|lia|by apply map_Forall_delete].
    unfold async_held in *. simpl. rewrite (sum_by_delete _ _ _ _ Hq), Hk. simpl. unfold owned in *. simpl. lia.
  - destruct Ht as [? ? ? Hy ? ? ? ? ? [? ? ?]]. constructor; try done. simpl in *.
    rewrite map_size_delete_Some by done. assert (size (detached e) ≠ 0%nat) by (by eapply map_size_ne_0_lookup_2). lia.
  - intros Hbt. destruct (Hl Hbt). by constructor.
Qed.

Lemma put_pending b n rest p e l key q k :
  inv b n (rest + k) (mkRun p e l) → 0 <= rest → 0 <= k → pending e !! key = None → pending_resource q = Some (mkLease k) →
  inv b (S n) rest (mkRun p (set_pending (<[key := q]>) e) l).
Proof.
  intros [Hf Ht Hl] Hr Hk0 Hq Hk. destruct Hf as [Ho Hc Hlm _ Hp Hd Htt Hs]. cbn [pool edge] in *. constructor.
  - constructor; cbn [pool edge]; try done; [|apply map_Forall_insert_2; [by exists k|done]].
    unfold async_held in *. simpl. rewrite sum_by_insert_new, Hk by done. simpl. unfold owned in *. simpl. lia.
  - destruct Ht as [? ? ? Hy ? ? ? ? ? [? ? ?]]. constructor; try done. simpl in *. rewrite map_size_insert_None by done. lia.
  - intros Hbt. destruct (Hl Hbt). by constructor.
Qed.

Lemma put_detached b n rest p e l key i k :
  inv b n (rest + k) (mkRun p e l) → 0 <= rest → 0 <= k → detached e !! key = None → async_resource i = Some (mkLease k) →
  inv b (S n) rest (mkRun p (set_detached (<[key := i]>) e) l).
Proof.
  intros [Hf Ht Hl] Hr Hk0 Hq Hk. destruct Hf as [Ho Hc Hlm _ Hp Hd Htt Hs]. cbn [pool edge] in *. constructor.
  - constructor; cbn [pool edge]; try done; [|apply map_Forall_insert_2; [by exists k|done]].
    unfold async_held in *. simpl. rewrite sum_by_insert_new, Hk by done. simpl. unfold owned in *. simpl. lia.
  - destruct Ht as [? ? ? Hy ? ? ? ? ? [? ? ?]]. constructor; try done. simpl in *. rewrite map_size_insert_None by done. lia.
  - intros Hbt. destruct (Hl Hbt). by constructor.
Qed.

(** Part of the reservation taken out for a record. *)
Lemma take_inv b n rest p e l l0 k :
  inv b n rest (mkRun p e l) → resource_transition e = Some (mkLease l0) → 0 <= k <= l0 →
  take_resource_charge k (mkRun p e l) =
    (inr (Some (mkLease k)), mkRun p (set_resource_transition (λ _, Some (mkLease (l0 - k))) e) l) ∧
  inv b n (rest + k) (mkRun p (set_resource_transition (λ _, Some (mkLease (l0 - k))) e) l).
Proof.
  intros [Hf Ht Hl] Htr Hk. destruct (funded_bounds _ _ Hf) as (Hb & Ha & _). cbn [edge pool] in *. pose proof (owned_at_least e).
  unfold REDUCER_BASE_CHARGE, OPEN_BINDING_CHARGE, ACTIVE_MACHINE_CHARGE in *. rewrite Htr in Hb. cbn [held lease_bytes] in Hb.
  split; [apply take_ok; [done|lia|lia]|]. constructor.
  - destruct Hf as [Ho Hc Hlm Hr Hp Hd Htt Hs]. cbn [pool edge] in *. rewrite Htr in *. constructor; cbn [pool edge]; try done; [|lia|].
    + unfold async_held, owned in *. simpl in *. lia.
    + right. exists (l0 - k). split; [done|lia].
  - destruct Ht as [? ? ? ? ? ? ? ? ? [? ? ?]]. by constructor.
  - intros Hbt. destruct (Hl Hbt). by constructor.
Qed.

(** ** Eviction *)

Section Async.
Context {RV : RvCodes} {EC : EdgeCodes} {Catalog : FunctionCatalog}.
#[local] Opaque descriptor_of operation_bits.

(** The candidate is an asynchronous record, taken out with its lease. *)
Lemma evict_candidate_ok b n rest p e l s call origin resource e' :
  inv b n rest (mkRun p e l) → evict_candidate e = Some (s, call, origin, resource, e') →
  ∃ k, resource = Some (mkLease k) ∧ 0 <= k ∧ inv b (pred n) (rest + k) (mkRun p e' l) ∧
    resource_transition e' = resource_transition e.
Proof.
  intros Hi. unfold evict_candidate.
  assert (∀ kv : Z * Z * PendingCall, kv ∈ map_to_list (pending e) → ∃ k, pending_resource kv.2 = Some (mkLease k) ∧ 0 <= k ∧
    inv b (pred n) (rest + k) (mkRun p (set_pending (delete kv.1) e) l)) as Hp.
  { intros [k q] Hq%elem_of_map_to_list. by apply (take_pending b n rest p e l k q). }
  assert (∀ kv : Z * Z * Z * AsyncId, kv ∈ map_to_list (detached e) → ∃ k, async_resource kv.2 = Some (mkLease k) ∧ 0 <= k ∧
    inv b (pred n) (rest + k) (mkRun p (set_detached (delete kv.1) e) l)) as Hd.
  { intros [k i] Hq%elem_of_map_to_list. by apply (take_detached b n rest p e l k i). }
  intros H. destruct (least _ (map_to_list (pending e))) as [kv|] eqn:E1; destruct (least _ (map_to_list (detached e))) as [kw|] eqn:E2;
    try apply least_elem, Hp in E1 as (k & Ek & Hk & Hik); try apply least_elem, Hd in E2 as (k' & Ek' & Hk' & Hik');
    try case_match; simplify_eq; eauto 10.
Qed.

Lemma evict_candidate_None e : evict_candidate e = None → pending e = ∅ ∧ detached e = ∅.
Proof.
  unfold evict_candidate. intros H. destruct (least _ (map_to_list (pending e))) eqn:E1; destruct (least _ (map_to_list (detached e))) eqn:E2;
    try case_match; try done. by apply least_None, map_to_list_empty_iff in E1; apply least_None, map_to_list_empty_iff in E2.
Qed.

Lemma evict_ok b rest r k :
  inv b (S MAX_EDGE_PENDING) rest r → leaves k (edge r) →
  ∃ r', evict_async_if_needed r = (inr tt, r') ∧ inv b MAX_EDGE_PENDING rest r' ∧ leaves k (edge r').
Proof.
  destruct r as [p e l]. intros Hi Hk. unfold evict_async_if_needed. rewrite (bind_ok get _ _ _ _ eq_refl). cbn [edge] in *.
  destruct (_ <=? MAX_EDGE_PENDING)%nat eqn:E.
  { exists (mkRun p e l). split_and!; [done| |done]. apply Nat.leb_le in E. destruct Hi as [Hf [? ? ? ? ? ? ? ? ? ?] Hl]. constructor; [done| |done]. by constructor. }
  destruct (evict_candidate e) as [[[[[s call] origin] resource] e']|] eqn:Ec.
  2:{ apply evict_candidate_None in Ec as [Ep Ed]. rewrite Ep, Ed, !map_size_empty in E. done. }
  destruct (evict_candidate_ok b _ rest p e l _ _ _ _ _ Hi Ec) as (c & -> & Hc & Hi1 & Et). simpl pred in Hi1.
  rewrite (bind_ok (modify _) _ _ tt _ eq_refl). cbn [pool edge sink].
  set (kill := for_each _ origin). assert (ends kill) as Hkill.
  { unfold kill. apply ends_for_each. intros q _. apply ends_get. intros e2. apply ends_when.
    apply ends_bind; [by apply end_machine_ends|ends]. }
  assert (leaves k (edge (mkRun p e' l))) as Hk1 by (unfold leaves in *; cbn [edge]; by rewrite Et).
  destruct (ends_leaves kill _ _ _ _ k Hkill Hi1 Hk1) as ([] & r2 & E2 & Hi2 & _ & Hk2). rewrite (bind_ok _ _ _ _ _ E2).
  destruct (ends_leaves _ _ _ _ _ k (note_ends set_async_evictions) Hi2 Hk2) as ([] & r3 & E3 & Hi3 & _ & Hk3). rewrite (bind_ok _ _ _ _ _ E3).
  destruct (drop_held _ _ _ _ _ Hi3 (fu_rest _ _ (iv_funded _ _ _ _ Hi)) Hc) as (r4 & E4 & Hi4 & Ee & _).
  exists r4. split_and!; [done..|]. by rewrite Ee.
Qed.
(** ** Queueing *)

Lemma async_charge_nonneg call d : 0 <= async_charge call d.
Proof.
  unfold async_charge, ASYNC_FACT_CHARGE, OWNED_ALLOCATION_PADDING. pose proof (text_len_nonneg (function call)). case_match; lia.
Qed.

Lemma route_fresh call e id d c :
  route_pending call e = Fresh id d c → pending e !! (session call, id) = None ∧ 0 <= c.
Proof.
  unfold route_pending. repeat case_match; try done. intros [= <- <- <-]. split; [|apply async_charge_nonneg].
  apply eq_None_not_Some. by eapply bool_decide_eq_false_1.
Qed.

Lemma next_sequence_ok b n rest p e l :
  inv b n rest (mkRun p e l) → ∃ v, next_sequence (mkRun p e l) = (inr v, mkRun p (set_sequence (λ n, as_u64 (n + 1)) e) l) ∧
    inv b n rest (mkRun p (set_sequence (λ n, as_u64 (n + 1)) e) l).
Proof. intros Hi. eexists. split; [reflexivity|]. apply inert_inv; [|done]. intros ?. by split_and!. Qed.

Lemma ends_pending {A} (m : Edge A) b rest r k :
  ends m → inv b MAX_EDGE_PENDING rest r → leaves k (edge r) →
  ∃ a r', m r = (inr a, r') ∧ inv b MAX_EDGE_PENDING rest r' ∧ leaves k (edge r').
Proof. intros Hm Hi Hl. destruct (ends_leaves m _ _ _ _ _ Hm Hi Hl) as (a & r' & E & Hi' & _ & Hl'). by exists a, r'. Qed.

Lemma queue_pending_ok b rest r call k :
  inv b MAX_EDGE_PENDING rest r → 0 <= k →
  leaves (match route_pending call (edge r) with Fresh _ _ c => c | _ => 0 end + k) (edge r) →
  ∃ r', queue_pending call r = (inr tt, r') ∧ inv b MAX_EDGE_PENDING rest r' ∧ leaves k (edge r').
Proof.
  destruct r as [p e l]. intros Hi Hk Hl. unfold queue_pending. rewrite (bind_ok get _ _ _ _ eq_refl). cbn [edge] in *.
  destruct (route_pending call e) as [| |id d c] eqn:Er.
  - by destruct (ends_pending (add set_orphans 1) b rest _ k ltac:(ends) Hi Hl) as ([] & r' & E & Hi' & Hl'); exists r'.
  - assert (ends (note set_async_duplicates ;; add set_orphans 1)) as He by ends.
    by destruct (ends_pending _ b rest _ k He Hi Hl) as ([] & r' & E & Hi' & Hl'); exists r'.
  - apply route_fresh in Er as [Hq Hc]. destruct Hl as (l0 & Htr & Hle).
    destruct (next_sequence_ok b _ rest p e l Hi) as (v & E1 & Hi1). rewrite (bind_ok _ _ _ _ _ E1).
    destruct (take_inv b _ rest p _ l l0 c Hi1 Htr ltac:(lia)) as [E2 Hi2]. rewrite (bind_ok _ _ _ _ _ E2).
    rewrite (bind_ok get _ _ _ _ eq_refl), (bind_ok (modify _) _ _ tt _ eq_refl). cbn [pool edge sink].
    apply evict_ok; [|exists (l0 - c); split; [done|lia]].
    eapply put_pending; [exact Hi2|exact (fu_rest _ _ (iv_funded _ _ _ _ Hi))|done..].
Qed.

(** ** Completing *)

Lemma complete_pending_ok b n rest r completion original origin k :
  inv b n rest r → 0 <= k →
  leaves ((if negb (origin_matches (session completion) origin (edge r)) then 0
           else completed_growth original (session completion) (rv completion) (edge r)) + k) (edge r) →
  ∃ r', complete_pending completion original origin r = (inr tt, r') ∧ inv b n rest r' ∧ leaves k (edge r').
Proof.
  intros Hi Hk Hl. unfold complete_pending. rewrite (bind_ok get _ _ _ _ eq_refl).
  destruct (negb (origin_matches _ _ _)) eqn:Em.
  - destruct (ends_leaves (add set_orphans (Z.max (Z.of_nat (length origin)) 1)) b n rest r k ltac:(ends) Hi Hl)
      as ([] & r' & E & Hi' & _ & Hl'). by exists r'.
  - exact (apply_completed_ok b n rest r (completed_call completion original) (origin_from original) [] k Hi Hk Hl).
Qed.

Lemma complete_then_drop b rest r completion original origin c k :
  inv b (pred MAX_EDGE_PENDING) (rest + c) r → 0 <= rest → 0 <= c → 0 <= k →
  leaves ((if negb (origin_matches (session completion) origin (edge r)) then 0
           else completed_growth original (session completion) (rv completion) (edge r)) + k) (edge r) →
  ∃ r', (complete_pending completion original origin ;; drop_lease (Some (mkLease c))) r = (inr tt, r') ∧
    inv b MAX_EDGE_PENDING rest r' ∧ leaves k (edge r').
Proof.
  intros Hi Hr Hc Hk Hl. destruct (complete_pending_ok b _ _ r completion original origin k Hi Hk Hl) as (r1 & E1 & Hi1 & Hl1).
  rewrite (bind_ok _ _ _ _ _ E1). destruct (drop_held _ _ _ _ _ Hi1 Hr Hc) as (r2 & E2 & Hi2 & Ee & _).
  exists r2. split_and!; [done|by eapply inv_weaken; [exact Hi2|lia]|by rewrite Ee].
Qed.

Lemma eligible_pending s t e key : complete_eligible s t e = PendingRecord key → is_Some (pending e !! key).
Proof.
  unfold complete_eligible. case_bool_decide as Hp; repeat case_match; try done. by intros [= <-].
Qed.

Lemma eligible_detached s t e key : complete_eligible s t e = DetachedRecord key → is_Some (detached e !! key).
Proof.
  unfold complete_eligible. case_bool_decide as Hp; destruct (owned_ids s t e) as [|key' [|]] eqn:Eo; try done.
  intros [= <-]. unfold owned_ids in Eo.
  assert (key' ∈ owned_ids s t e) as Hin by (unfold owned_ids; rewrite Eo; by left).
  unfold owned_ids in Hin. apply list_elem_of_fmap in Hin as ([k i] & -> & Hin). simpl.
  apply list_elem_of_In, filter_In in Hin as [Hin _]. apply list_elem_of_In in Hin. unfold in_order in Hin.
  rewrite merge_sort_Permutation in Hin. apply elem_of_map_to_list in Hin. by exists i.
Qed.

(** What the preflight reserves for a completion. *)
Definition complete_cost (call : SemanticCall) (e : EdgeSemantics) : Z :=
  match (match complete_eligible (session call) (target_function call) e with
         | PendingRecord key => (λ p, (pending_call p, pending_origin p)) <$> pending e !! key
         | DetachedRecord key => (λ i, (async_call i, async_origin i)) <$> detached e !! key
         | Zero | Many => None
         end) with
  | None => 0
  | Some (original, origin) =>
      if negb (origin_matches (session call) origin e) then 0 else completed_growth original (session call) (rv call) e
  end.

Lemma async_complete_ok b rest r call k :
  inv b MAX_EDGE_PENDING rest r → 0 <= k →
  leaves ((if rv call =? rv_PENDING then 0 else complete_cost call (edge r)) + k) (edge r) →
  ∃ r', async_complete call r = (inr tt, r') ∧ inv b MAX_EDGE_PENDING rest r' ∧ leaves k (edge r').
Proof.
  destruct r as [p e l]. intros Hi Hk Hl. unfold async_complete. cbn [edge] in *. pose proof (fu_rest _ _ (iv_funded _ _ _ _ Hi)).
  destruct (rv call =? rv_PENDING); [by exists (mkRun p e l)|]. rewrite (bind_ok get _ _ _ _ eq_refl). cbn [edge].
  unfold complete_cost in Hl. destruct (complete_eligible _ _ e) as [| |key|key] eqn:Ee.
  - by destruct (ends_pending (add set_orphans 1) b rest _ k ltac:(ends) Hi Hl) as ([] & r' & E & Hi' & Hl'); exists r'.
  - assert (ends (add set_orphans 1 ;; note set_async_duplicates)) as He by ends.
    by destruct (ends_pending _ b rest _ k He Hi Hl) as ([] & r' & E & Hi' & Hl'); exists r'.
  - destruct (eligible_pending _ _ _ _ Ee) as [q Hq]. rewrite Hq in *. simpl in Hl.
    destruct (take_pending b _ rest p e l key q Hi Hq) as (c & Ec & Hc & Hi1).
    rewrite (bind_ok (or_panic (Some q)) _ _ q _ eq_refl), (bind_ok (modify _) _ _ tt _ eq_refl). cbn [pool edge sink]. rewrite Ec.
    by apply complete_then_drop.
  - destruct (eligible_detached _ _ _ _ Ee) as [i Hq]. rewrite Hq in *. simpl in Hl.
    destruct (take_detached b _ rest p e l key i Hi Hq) as (c & Ec & Hc & Hi1).
    rewrite (bind_ok (or_panic (Some i)) _ _ i _ eq_refl), (bind_ok (modify _) _ _ tt _ eq_refl). cbn [pool edge sink]. rewrite Ec.
    by apply complete_then_drop.
Qed.

(** ** Identities *)

Lemma async_get_id_ok b rest r call k :
  inv b MAX_EDGE_PENDING rest r → leaves k (edge r) →
  ∃ r', async_get_id call r = (inr tt, r') ∧ inv b MAX_EDGE_PENDING rest r' ∧ leaves k (edge r').
Proof.
  destruct r as [p e l]. intros Hi Hl. unfold async_get_id. rewrite (bind_ok get _ _ _ _ eq_refl). cbn [edge] in *.
  pose proof (fu_rest _ _ (iv_funded _ _ _ _ Hi)) as Hrest.
  assert (∀ m : Edge (), ends m → ∃ r', m (mkRun p e l) = (inr tt, r') ∧ inv b MAX_EDGE_PENDING rest r' ∧ leaves k (edge r')) as Hend.
  { intros m Hm. by destruct (ends_pending m b rest _ k Hm Hi Hl) as ([] & r' & E & Hi' & Hl'); exists r'. }
  destruct (open e !! session call) as [slot|]; [|apply Hend; ends].
  case_bool_decide as Hd; [apply Hend; ends|].
  destruct (pending e !! _) as [q|] eqn:Hq; [|apply Hend; ends].
  destruct (take_pending b _ rest p e l _ q Hi Hq) as (c & Ec & Hc & Hi1).
  rewrite (bind_ok (modify _) _ _ tt _ eq_refl). cbn [pool edge sink].
  destruct (next_sequence_ok b _ _ p _ l Hi1) as (v & E2 & Hi2). rewrite (bind_ok _ _ _ _ _ E2).
  rewrite (bind_ok (modify _) _ _ tt _ eq_refl). cbn [pool edge sink].
  apply evict_ok; [|done]. eapply inv_weaken.
  - eapply put_detached; [exact Hi2|done|done| |exact Ec]. simpl. by apply eq_None_not_Some.
  - lia.
Qed.

Lemma async_join_ok b rest r call k :
  inv b MAX_EDGE_PENDING rest r → leaves k (edge r) →
  ∃ r', async_join call r = (inr tt, r') ∧ inv b MAX_EDGE_PENDING rest r' ∧ leaves k (edge r').
Proof.
  destruct r as [p e l]. intros Hi Hl. unfold async_join. rewrite (bind_ok get _ _ _ _ eq_refl). cbn [edge] in *.
  assert (∀ m : Edge (), ends m → ∃ r', m (mkRun p e l) = (inr tt, r') ∧ inv b MAX_EDGE_PENDING rest r' ∧ leaves k (edge r')) as Hend.
  { intros m Hm. by destruct (ends_pending m b rest _ k Hm Hi Hl) as ([] & r' & E & Hi' & Hl'); exists r'. }
  destruct (open e !! session call) as [slot|]; [|apply Hend; ends].
  destruct (detached e !! _) as [i|] eqn:Hq; [|apply Hend; ends].
  destruct (take_detached b _ rest p e l _ i Hi Hq) as (c & Ec & Hc & Hi1).
  eexists. split_and!; [reflexivity| |done]. cbn [pool edge sink].
  set (key := (slot, target_function call, async_value call)) in *.
  set (i' := mkAsyncId _ _ _ _ _ _).
  assert (set_detached (<[key := i']>) e = set_detached (<[key := i']>) (set_detached (delete key) e)) as ->.
  { unfold set_detached. simpl. by rewrite insert_delete_eq. }
  eapply inv_weaken; [eapply put_detached; [exact Hi1|exact (fu_rest _ _ (iv_funded _ _ _ _ Hi))|done| |exact Ec]|].
  - simpl. apply lookup_delete_eq.
  - unfold MAX_EDGE_PENDING. lia.
Qed.
(** ** Observing *)

(** What the preflight reserves for a call that passed the gate. *)
Definition gated_cost (call : SemanticCall) (e : EdgeSemantics) : Z :=
  let d := descriptor_of (function call) in
  if lifecycle_ d =? lifecycle.ASYNC_COMPLETE then
    if (rv call =? rv_PENDING) || (target_function call =? FUNCTION_NONE)
       || nz (call_capture call &' capture.ASYNC_VALUE_UNREADABLE) then 0
    else complete_cost call e
  else if (lifecycle_ d =? lifecycle.ASYNC_GET_ID) || (lifecycle_ d =? lifecycle.ASYNC_JOIN) then 0
  else if rv call =? rv_PENDING then
    match route_pending call e with Fresh _ _ charge => charge | Unroutable | DuplicateRoute => 0 end
  else completed_growth call (session call) (rv call) e.

Lemma preflight_gated call e :
  preflight_growth call e =
    if negb (attributable call) || negb (authorized call) || negb (unambiguous call) || count_only call then 0
    else if bool_decide (descriptor_of (function call) = COUNT_ONLY) then 0 else gated_cost call e.
Proof. reflexivity. Qed.

Lemma completed_growth_nonneg call s v e : 0 <= completed_growth call s v e.
Proof.
  rewrite completed_growth_split. pose proof (claim_cost_nonneg call v e). pose proof (open_cost_nonneg call s v e).
  pose proof (operate_cost_nonneg call s v e). case_match; lia.
Qed.

Lemma preflight_nonneg call e : 0 <= preflight_growth call e.
Proof.
  rewrite preflight_gated. case_match; [done|]. case_match; [done|]. unfold gated_cost, complete_cost.
  repeat case_match; try done; try apply completed_growth_nonneg. by eapply route_fresh.
Qed.

Lemma observe_async_ok b rest r call :
  let d := descriptor_of (function call) in
  (lifecycle_ d =? lifecycle.ASYNC_COMPLETE) || (lifecycle_ d =? lifecycle.ASYNC_GET_ID)
    || (lifecycle_ d =? lifecycle.ASYNC_JOIN) = true →
  inv b MAX_EDGE_PENDING rest r → leaves (gated_cost call (edge r)) (edge r) → leaves 0 (edge r) →
  ∃ r', observe_async call r = (inr tt, r') ∧ inv b MAX_EDGE_PENDING rest r' ∧ leaves 0 (edge r').
Proof.
  intros d Hd Hi Hl Hl0. unfold observe_async. fold d. unfold gated_cost in Hl. fold d in Hl.
  assert (∀ m : Edge (), ends m → ∃ r', m r = (inr tt, r') ∧ inv b MAX_EDGE_PENDING rest r' ∧ leaves 0 (edge r')) as Hend.
  { intros m Hm. by destruct (ends_pending m b rest _ 0 Hm Hi Hl0) as ([] & r' & E & Hi' & Hl'); exists r'. }
  destruct (target_function call =? FUNCTION_NONE); [apply Hend; ends|].
  destruct (nz _); [apply Hend; ends|]. rewrite !orb_false_r in Hl.
  destruct (lifecycle_ d =? lifecycle.ASYNC_COMPLETE).
  { apply async_complete_ok; [done..|]. by rewrite Z.add_0_r. }
  destruct (_ && _)%bool; [by apply async_get_id_ok|]. destruct (_ && _)%bool; [by apply async_join_ok|]. by exists r.
Qed.

Lemma gate_ok b n rest r call :
  inv b n rest r →
  ∃ x f, gate call r = (inr x, mkRun (pool r) (f (edge r)) (sink r)) ∧ inert f ∧
    match x with
    | None => True
    | Some d => d = descriptor_of (function call) ∧ preflight_growth call (edge r) = gated_cost call (f (edge r))
    end.
Proof.
  intros Hi. unfold gate. rewrite preflight_gated.
  destruct (attributable call); [|eexists None, _; split; [reflexivity|]; split; [|done]; by intros ?; split_and!].
  destruct (authorized call); [|eexists None, _; split; [reflexivity|]; split; [|done]; by intros ?; split_and!].
  destruct (unambiguous call); [|eexists None, _; split; [reflexivity|]; split; [|done]; by intros ?; split_and!].
  destruct (count_only call); [eexists None, _; split; [reflexivity|]; split; [|done]; by intros ?; split_and!|].
  cbn [negb orb]. case_bool_decide as Hd; [eexists None, _; split; [reflexivity|]; split; [|done]; by intros ?; split_and!|].
  eexists (Some _), _. split; [reflexivity|]. split; [by intros ?; split_and!|]. split; reflexivity.
Qed.

Lemma observe_inner_ok b rest r call o keys :
  inv b MAX_EDGE_PENDING rest r → leaves (preflight_growth call (edge r)) (edge r) →
  ∃ v r', observe_inner call o keys r = (inr v, r') ∧ inv b MAX_EDGE_PENDING rest r' ∧ leaves 0 (edge r').
Proof.
  destruct r as [p e l]. intros Hi Hl. unfold observe_inner. rewrite (bind_ok get _ _ _ _ eq_refl). cbn [edge] in *.
  pose proof (preflight_nonneg call e). assert (leaves 0 e) as Hl0 by (eapply leaves_le; [exact Hl|lia]).
  destruct (gate_ok b _ rest (mkRun p e l) call Hi) as (x & f & E & Hf & Hx). rewrite (bind_ok _ _ _ _ _ E). cbn [pool edge sink] in *.
  pose proof (inert_inv f b _ rest p e l Hf Hi) as Hi1.
  assert (resource_transition (f e) = resource_transition e) as Et by (by destruct (Hf e) as (_ & _ & _ & _ & _ & _ & _ & _ & _ & _ & _ & _ & ? & _)).
  destruct x as [d|]; [|by eexists _, _; split_and!; [done..|unfold leaves in *; cbn [edge]; rewrite Et]].
  destruct Hx as [-> Hpf]. set (d := descriptor_of (function call)) in *.
  rewrite (bind_ok (add _ _) _ _ tt _ eq_refl), (bind_ok (modify _) _ _ tt _ eq_refl). cbn [pool edge sink].
  set (e1 := set_last_seen_ns _ _). assert (inv b MAX_EDGE_PENDING rest (mkRun p e1 l)) as Hi2.
  { apply (inert_inv (λ e, set_last_seen_ns _ (set_calls _ e))); [intros ?; by split_and!|done]. }
  assert (leaves 0 e1) as Hl1 by (unfold leaves in *; simpl; by rewrite Et).
  assert (leaves (gated_cost call e1) e1) as Hl2.
  { change (gated_cost call e1) with (gated_cost call (f e)). rewrite <- Hpf. unfold leaves in *. simpl. by rewrite Et. }
  set (body := if _ || _ || _ then _ else _).
  assert (∃ r', body (mkRun p e1 l) = (inr tt, r') ∧ inv b MAX_EDGE_PENDING rest r' ∧ leaves 0 (edge r')) as (r' & Eb & Hi' & Hl').
  { unfold body. destruct (_ || _ || _)%bool eqn:Ea; [by apply observe_async_ok|].
    apply orb_false_iff in Ea as [[Ea1 Ea2]%orb_false_iff Ea3]. unfold gated_cost in Hl2. fold d in Hl2. rewrite Ea1, Ea2, Ea3 in Hl2.
    cbn [orb] in Hl2. destruct (rv call =? rv_PENDING); [apply queue_pending_ok|apply apply_completed_ok]; try done; by rewrite Z.add_0_r. }
  rewrite (bind_ok _ _ _ _ _ Eb). eexists _, r'. by split_and!.
Qed.
End Async.
