(* ===== verification/EdgeContract.v ===== *)
(** * The per-edge reducer: its public methods

    Construction, observation, invalidation and destruction, each from the invariant of
    [EdgeInv] to the invariant: what a caller may rely on. *)
From S2P Require Import Prelude ObjectPolicy Semantics Kinds Pool Edge EdgeInv EdgeFrame EdgeGrow EdgeStep EdgeAsync.

(** ** Without a sink *)

Lemma inv_quiet b n rest r : inv b n rest r → inv false n rest r.
Proof. intros [Hf Ht Hl]. by constructor. Qed.

(** The accounts do not see the sink. *)
Lemma inv_mute n rest p e l l' : inv false n rest (mkRun p e l) → inv false n rest (mkRun p e l').
Proof. intros [[? ? ? ? ? ? ? ?] Ht _]. constructor; [|done|done]. by constructor. Qed.

Lemma quietly_ok {A} (m : Edge A) n rest r a r' :
  m r = (inr a, r') → inv false n rest r' →
  quietly m r = (inr a, mkRun (pool r') (edge r') (sink r)) ∧ inv false n rest (mkRun (pool r') (edge r') (sink r)).
Proof. intros E Hi. unfold quietly. rewrite E. split; [done|]. destruct r'. by eapply inv_mute. Qed.

(** ** Invalidation *)

#[local] Instance active_chargeless X : Chargeless (λ r, active (edge r) = X).
Proof. by split. Qed.

#[local] Instance async_chargeless X Y : Chargeless (λ r, pending (edge r) = X ∧ detached (edge r) = Y).
Proof. by split. Qed.

#[local] Instance pending_chargeless X : Chargeless (λ r, pending (edge r) = X).
Proof. by split. Qed.

Lemma end_machine_gone s b c st o bb n rest r :
  c = category_name b → inv bb n rest r →
  ∃ a r', end_machine s b c st o r = (inr a, r') ∧ inv bb n rest r' ∧ ending r r' ∧ active (edge r') !! (s, b) = None.
Proof.
  intros Hc Hi. destruct (end_machine_ends s b c st o Hc bb n rest r Hi) as (a & r' & E & Hi' & He). exists a, r'.
  split_and!; [done..|]. destruct r as [p e l]. cbn [edge]. destruct (active e !! (s, b)) as [m|] eqn:Hm.
  - rewrite (end_machine_eq s b c st o rest p e l m (iv_funded _ _ _ _ Hi) Hm) in E. injection E as _ <-.
    destruct st; apply lookup_delete_eq.
  - apply eq_None_not_Some. intros [x Hx]. pose proof (lookup_weaken _ _ _ _ Hx (en_active _ _ He)) as Hx'. cbn [edge] in Hx'. congruence.
Qed.

Lemma end_machines_gone keys st o b n rest r :
  inv b n rest r →
  ∃ r', end_machines keys st o r = (inr tt, r') ∧ inv b n rest r' ∧ ending r r' ∧ ∀ k, k ∈ keys → active (edge r') !! k = None.
Proof.
  revert r. induction keys as [|[s k] keys IH]; intros r Hi.
  { exists r. split_and!; [done..|]. intros k Hk. by apply not_elem_of_nil in Hk. }
  destruct (end_machine_gone s k (category_name k) st o b n rest r eq_refl Hi) as (a & r1 & E1 & Hi1 & He1 & Hg1).
  destruct (IH r1 Hi1) as (r2 & E2 & Hi2 & He2 & Hg2). exists r2. split_and!; [|done|by etrans|].
  - unfold end_machines in *. cbn [for_each fst snd].
    assert ((end_machine s k (category_name k) st o ;; mret tt) r = (inr tt, r1)) as E by (by rewrite (bind_ok _ _ _ _ _ E1)).
    by rewrite (bind_ok _ _ _ _ _ E).
  - intros k' [->|Hk']%elem_of_cons; [|by apply Hg2].
    apply eq_None_not_Some. intros [x Hx]. pose proof (lookup_weaken _ _ _ _ Hx (en_active _ _ He2)). congruence.
Qed.

Lemma retain_pending_gone P r a r' :
  retain_pending P r = (a, r') → pending (edge r') = filter (λ kv, P kv.1 kv.2 = true) (pending (edge r)).
Proof.
  unfold retain_pending. rewrite (bind_ok get _ _ _ _ eq_refl), (bind_ok (modify _) _ _ tt _ eq_refl).
  set (m := for_each _ _). set (Q := λ r0, pending (edge r0) = filter (λ kv, P kv.1 kv.2 = true) (pending (edge r))).
  assert (stable Q m) as Hm by (unfold m, Q; stable). intros E. by eapply Hm, E.
Qed.

Lemma retain_detached_gone P r a r' :
  retain_detached P r = (a, r') →
  pending (edge r') = pending (edge r) ∧ detached (edge r') = filter (λ kv, P kv.1 kv.2 = true) (detached (edge r)).
Proof.
  unfold retain_detached. rewrite (bind_ok get _ _ _ _ eq_refl), (bind_ok (modify _) _ _ tt _ eq_refl).
  set (m := for_each _ _).
  set (Q := λ r0, pending (edge r0) = pending (edge r) ∧
    detached (edge r0) = filter (λ kv, P kv.1 kv.2 = true) (detached (edge r))).
  assert (stable Q m) as Hm by (unfold m, Q; stable). intros E. by eapply Hm, E.
Qed.

Lemma filter_none {K A} `{Countable K} (m : gmap K A) : filter (λ kv : K * A, false = true) m = ∅.
Proof. apply map_empty. intros i. apply map_lookup_filter_None. by right. Qed.

(** Nothing is left of the sessions, operations and asynchronous calls of a reducer. *)
Record emptied (e : EdgeSemantics) : Prop := mkEmptied {
  em_open : open e = ∅;
  em_active : active e = ∅;
  em_pending : pending e = ∅;
  em_detached : detached e = ∅;
}.

Lemma invalidate_ok b n rest r :
  inv b n rest r →
  ∃ r', invalidate_with_effects r = (inr tt, r') ∧ inv b n rest r' ∧ ending r r' ∧ emptied (edge r').
Proof.
  intros Hi. unfold invalidate_with_effects. rewrite (bind_ok get _ _ _ _ eq_refl). set (o := mkOrigin _ _ _).
  destruct (end_machines_gone (machine_keys (λ _, true) (edge r)) EndUnknown o b n rest r Hi) as (r1 & E1 & Hi1 & He1 & Hg1).
  assert (∃ x, end_session_machines_all EndUnknown o r = (inr x, r1)) as [x E1'].
  { eexists. unfold end_session_machines_all. rewrite (bind_ok get _ _ _ _ eq_refl), (bind_ok _ _ _ _ _ E1). reflexivity. }
  rewrite (bind_ok _ _ _ _ _ E1').
  assert (active (edge r1) = ∅) as Ha1.
  { apply map_empty. intros k. apply eq_None_not_Some. intros [m Hm]. rewrite Hg1 in Hm; [done|].
    pose proof (lookup_weaken _ _ _ _ Hm (en_active _ _ He1)) as Hm'. unfold machine_keys, in_order.
    rewrite sorting.merge_sort_Permutation. apply list_elem_of_In, filter_In. split; [|done]. apply list_elem_of_In.
    apply list_elem_of_fmap. exists (k, m). split; [done|]. by apply elem_of_map_to_list. }
  destruct (clear_async_payloads_ends b n rest r1 Hi1) as ([] & r2 & E2 & Hi2 & He2). rewrite (bind_ok _ _ _ _ _ E2).
  assert (pending (edge r2) = ∅ ∧ detached (edge r2) = ∅) as Ha2.
  { unfold clear_async_payloads in E2. destruct (retain_pending (λ _ _, false) r1) as [[y|[]] r3] eqn:E3; [by rewrite (bind_err _ _ _ _ _ E3) in E2|].
    rewrite (bind_ok _ _ _ _ _ E3) in E2. apply retain_pending_gone in E3. apply retain_detached_gone in E2 as [E4 E5].
    rewrite E4, E5, E3. by rewrite !filter_none. }
  destruct (clear_open_ends b n rest r2 Hi2) as ([] & r3 & E3 & Hi3 & He3). exists r3. split_and!; [done..| |].
  { etrans; [exact He1|]. by etrans. }
  set (P := λ r, pending (edge r) = ∅ ∧ detached (edge r) = ∅).
  assert (stable P clear_open) as Hst by (unfold clear_open, P; stable).
  destruct (Hst r2 _ r3 Ha2 E3) as [Ep Ed]. constructor; [| |done|done].
  - unfold clear_open in E3. rewrite (bind_ok get _ _ _ _ eq_refl), (bind_ok (modify _) _ _ tt _ eq_refl) in E3.
    revert E3. unfold release_resource_charge. cbn [edge pool sink]. repeat case_match; intros [= <-]; done.
  - apply (anti_symm (⊆)); [|apply map_empty_subseteq]. rewrite <- Ha1. etrans; [exact (en_active _ _ He3)|exact (en_active _ _ He2)].
Qed.

(** ** Reservations *)

(** The same accounts with other statistics of the pool. *)
Lemma inv_pool b n rest p p' e l :
  inv b n rest (mkRun p e l) → charged p' = charged p → limit p' = limit p → scratch_borrowed p' = scratch_borrowed p →
  inv b n rest (mkRun p' e l).
Proof.
  intros [[? ? ? ? ? ? ? ?] Ht Hl] Ec El Es. constructor; [| |intros Hb; destruct (Hl Hb); by constructor].
  - constructor; simpl in *; by rewrite ?Ec, ?El, ?Es.
  - done.
Qed.

(** A reservation installed, and one given back. *)
Lemma install_inv b n rest p e l p' k :
  inv b n rest (mkRun p e l) → resource_transition e = None → 0 <= k → charged p + k <= limit p →
  charged p' = charged p + k → limit p' = limit p → scratch_borrowed p' = true →
  inv b n rest (mkRun p' (set_resource_transition (λ _, Some (mkLease k)) e) l).
Proof.
  intros [[Ho Hc Hlm Hr Hp Hd Htt Hs] Ht Hl] Htr Hk Hle Ec El Es. cbn [pool edge] in *. rewrite Htr in *. constructor.
  - constructor; cbn [pool edge]; rewrite ?Ec, ?El; try done; [|lia|right; by exists k].
    unfold async_held, owned in *. simpl in *. lia.
  - destruct Ht as [? ? ? ? ? ? ? ? ? [? ? ?]]. by constructor.
  - intros Hb. destruct (Hl Hb). by constructor.
Qed.

Lemma drop_transition_ok b n rest r :
  inv b n rest r → leaves 0 (edge r) →
  ∃ r', drop_transition r = (inr tt, r') ∧ inv b n rest r' ∧ resource_transition (edge r') = None.
Proof.
  destruct r as [p e l]. intros Hi (k & Htr & Hk). cbn [edge] in *. destruct (funded_bounds _ _ (iv_funded _ _ _ _ Hi)) as (Hb & Ha & _).
  pose proof (owned_at_least e). unfold REDUCER_BASE_CHARGE, OPEN_BINDING_CHARGE, ACTIVE_MACHINE_CHARGE in *.
  destruct Hi as [[Ho Hc Hlm Hr Hp Hd Htt Hs] Ht Hl]. cbn [pool edge] in *. rewrite Htr in *. cbn [held lease_bytes] in *.
  rewrite bool_decide_eq_true_2 in Hs by done.
  unfold drop_transition. rewrite (bind_ok get _ _ _ _ eq_refl). cbn [edge]. rewrite Htr.
  rewrite (bind_ok (modify _) _ _ tt _ eq_refl). cbn [pool edge sink].
  assert (∀ e' l', set_pool (lease_drop (mkLease k)) (mkRun p e' l') = (inr tt, mkRun (set_charged (charged p - k) p) e' l')) as E.
  { intros e' l'. unfold set_pool, lease_drop, checked_sub. cbn [pool lease_bytes]. by rewrite checked_small by (unfold in_width; lia). }
  rewrite (bind_ok _ _ _ _ _ (E _ _)). eexists. split_and!.
  - unfold set_pool, scratch_drop. cbn [pool set_charged scratch_borrowed]. rewrite Hs. reflexivity.
  - constructor.
    + constructor; cbn [pool edge]; simpl in *; try done; [|lia|by left]. unfold async_held, owned in *. simpl in *. lia.
    + destruct Ht as [? ? ? ? ? ? ? ? ? [? ? ?]]. by constructor.
    + intros Hbt. destruct (Hl Hbt). by constructor.
  - done.
Qed.

Section Contract.
Context {RV : RvCodes} {EC : EdgeCodes} {Catalog : FunctionCatalog}.
#[local] Opaque descriptor_of operation_bits.

(** A call is prepared when its growth fits, and refused with nothing changed otherwise. *)
Lemma prepare_ok b n rest r call :
  inv b n rest r → resource_transition (edge r) = None →
  let k := preflight_growth call (edge r) in
  (charged (pool r) + k <= limit (pool r) ∧
   ∃ p', prepare_resource_transition call r = (inr (mkLease k), mkRun p' (edge r) (sink r)) ∧
     charged p' = charged (pool r) + k ∧ limit p' = limit (pool r) ∧ scratch_borrowed p' = true)
  ∨ (limit (pool r) < charged (pool r) + k ∧
     ∃ x p', prepare_resource_transition call r = (inl (Refuse x), mkRun p' (edge r) (sink r)) ∧
       inv b n rest (mkRun p' (edge r) (sink r))).
Proof.
  destruct r as [p e l]. intros Hi Htr k. cbn [pool edge sink] in *. pose proof (preflight_nonneg call e) as Hk.
  destruct (funded_bounds _ _ (iv_funded _ _ _ _ Hi)) as (Hb & Ha & Hh). pose proof (owned_at_least e).
  unfold REDUCER_BASE_CHARGE, OPEN_BINDING_CHARGE, ACTIVE_MACHINE_CHARGE in *. cbn [pool edge] in *.
  pose proof (fu_limit _ _ (iv_funded _ _ _ _ Hi)) as Hlm. pose proof (fu_scratch _ _ (iv_funded _ _ _ _ Hi)) as Hs.
  cbn [pool edge] in *. rewrite Htr in Hs. rewrite bool_decide_eq_false_2 in Hs by by intros [].
  unfold prepare_resource_transition. rewrite (bind_ok get _ _ _ _ eq_refl). cbn [edge].
  pose proof (fu_owner _ _ (iv_funded _ _ _ _ Hi)) as Ho. cbn [edge] in Ho. rewrite Ho.
  rewrite (bind_ok (or_panic (Some _)) _ _ (mkLease (owned e)) _ eq_refl).
  assert (on_pool scratch (mkRun p e l) = (inr tt, mkRun (set_scratch true p) e l)) as Es
    by (unfold on_pool, scratch; cbn [pool]; by rewrite Hs).
  rewrite (bind_ok _ _ _ _ _ Es). unfold reserve_growth. cbn [pool edge sink]. fold k.
  destruct (acquire_ok k (set_scratch true p)) as [[Hle E]|(Hgt & x & E)]; [done|simpl; lia|simpl; lia| |]; rewrite E.
  - left. split; [exact Hle|]. eexists. split; [reflexivity|]. done.
  - right. split; [exact Hgt|]. eexists x, _. split; [reflexivity|]. apply (inv_pool _ _ _ p); try done.
Qed.

(** An observed call: it runs to its end, or the pool refuses it. *)
Lemma observe_prepared_ok b rest p e l p' call o keys :
  inv b MAX_EDGE_PENDING rest (mkRun p e l) → resource_transition e = None →
  charged p + preflight_growth call e <= limit p →
  charged p' = charged p + preflight_growth call e → limit p' = limit p → scratch_borrowed p' = true →
  ∃ v r', observe_prepared call o keys (mkLease (preflight_growth call e)) (mkRun p' e l) = (inr v, r') ∧
    inv b MAX_EDGE_PENDING rest r' ∧ resource_transition (edge r') = None.
Proof.
  intros Hi Htr Hle Ec El Es. pose proof (preflight_nonneg call e) as Hk.
  pose proof (install_inv b _ rest p e l p' _ Hi Htr Hk Hle Ec El Es) as Hi1.
  unfold observe_prepared. rewrite (bind_ok get _ _ _ _ eq_refl). cbn [edge]. rewrite Htr.
  rewrite (bind_ok (or_panic (Some tt)) _ _ tt _ eq_refl), (bind_ok (modify _) _ _ tt _ eq_refl). cbn [pool edge sink].
  destruct (observe_inner_ok b rest _ call o keys Hi1) as (v & r1 & E1 & Hi2 & Hl2).
  { eexists. split; [reflexivity|]. cbn [edge]. apply Z.eq_le_incl.
    rewrite !preflight_gated. reflexivity. }
  rewrite (bind_ok _ _ _ _ _ E1). destruct (drop_transition_ok b _ rest r1 Hi2 Hl2) as (r2 & E2 & Hi3 & Ht3).
  rewrite (bind_ok _ _ _ _ _ E2). by exists v, r2.
Qed.
Lemma observe_ok b rest r call o :
  inv b MAX_EDGE_PENDING rest r → resource_transition (edge r) = None →
  (charged (pool r) + preflight_growth call (edge r) <= limit (pool r) ∧
   ∃ v r', observe_with_resources_and_effects call o r = (inr v, r') ∧
     inv b MAX_EDGE_PENDING rest r' ∧ resource_transition (edge r') = None)
  ∨ (limit (pool r) < charged (pool r) + preflight_growth call (edge r) ∧
     ∃ x r', observe_with_resources_and_effects call o r = (inl (Refuse x), r') ∧
       inv false MAX_EDGE_PENDING rest r' ∧ resource_transition (edge r') = None ∧ emptied (edge r') ∧ sink r' = sink r).
Proof.
  intros Hi Htr. unfold observe_with_resources_and_effects.
  destruct (prepare_ok b _ rest r call Hi Htr) as [(Hle & p' & E & Ec & El & Es)|(Hgt & x & p' & E & Hi')]; rewrite E.
  - left. split; [done|]. destruct r as [p e l]. by apply (observe_prepared_ok b rest p e l p' call o []).
  - right. split; [done|]. destruct (invalidate_ok _ _ _ _ Hi') as (r1 & E1 & Hi1 & He1 & Hem).
    destruct (quietly_ok _ _ _ _ _ _ E1 (inv_quiet _ _ _ _ Hi1)) as [E2 Hi2].
    exists x. eexists. split; [unfold invalidate; rewrite (bind_ok _ _ _ _ _ E2); reflexivity|].
    split_and!; [done| |done|done]. cbn [edge]. by rewrite (en_transition _ _ He1).
Qed.

(** The joint form refuses without losing anything. *)
Lemma observe_joint_ok b rest r call o keys :
  inv b MAX_EDGE_PENDING rest r → resource_transition (edge r) = None →
  (∃ v r', observe_joint_with_resources call o keys r = (inr v, r') ∧
     inv b MAX_EDGE_PENDING rest r' ∧ resource_transition (edge r') = None)
  ∨ (limit (pool r) < charged (pool r) + preflight_growth call (edge r) ∧
     ∃ x r', observe_joint_with_resources call o keys r = (inl (Refuse x), r') ∧
       inv b MAX_EDGE_PENDING rest r' ∧ edge r' = edge r ∧ sink r' = sink r).
Proof.
  intros Hi Htr. unfold observe_joint_with_resources. rewrite (bind_ok get _ _ _ _ eq_refl).
  rewrite (fu_owner _ _ (iv_funded _ _ _ _ Hi)).
  destruct (prepare_ok b _ rest r call Hi Htr) as [(Hle & p' & E & Ec & El & Es)|(Hgt & x & p' & E & Hi')].
  - left. rewrite (bind_ok _ _ _ _ _ E). destruct r as [p e l]. by apply (observe_prepared_ok b rest p e l p' call o keys).
  - right. split; [done|]. rewrite (bind_err _ _ _ _ _ E). eexists x, _. by split_and!.
Qed.

(** ** Construction and destruction *)

Lemma with_resources_ok p rest :
  charged p = SEMANTIC_TRANSITION_SCRATCH + rest → 0 <= rest → charged p <= limit p < 2 ^ 64 → scratch_borrowed p = false →
  (∃ e p', with_resources p = (Ok e, p') ∧ limit p' = limit p ∧ inv true 0 rest (mkRun p' e []) ∧ resource_transition e = None ∧
     sound (limit p) (mkRun p' e []))
  ∨ (∃ x p', with_resources p = (Err x, p') ∧ charged p' = charged p ∧ limit p' = limit p ∧ scratch_borrowed p' = false).
Proof.
  intros Hc Hr Hlm Hs. unfold with_resources. unfold SEMANTIC_TRANSITION_SCRATCH in Hc.
  destruct (acquire_ok REDUCER_BASE_CHARGE p) as [[Hle E]|(Hgt & x & E)]; [unfold REDUCER_BASE_CHARGE; lia|lia|lia| |]; rewrite E.
  - left. eexists _, _. split; [reflexivity|]. split_and!; [done| |done|split; [done|split; apply map_Forall_empty]]. constructor.
    + constructor; cbn [pool edge]; try done; try (by apply map_Forall_empty); [|simpl; lia|by left].
      set (e := set_resource_owner _ EdgeSemantics_default).
      assert (owned e = REDUCER_BASE_CHARGE) as -> by done. assert (async_held e = 0) as -> by done.
      change (resource_transition e) with (@None ResourceLease). cbn [charged held]. unfold SEMANTIC_TRANSITION_SCRATCH. lia.
    + constructor; try done; try (by apply map_Forall_empty); simpl; rewrite ?map_size_empty; try lia.
    + intros _. constructor; [|done|done]. exists 0, ∅. split_and!; [done..|]. intros id c. split; [done|].
      intros (k & m & Hm & _). done.
  - right. by eexists x, _.
Qed.

(** A dropped reducer gives back all it held. *)
Lemma edge_drop_ok b n rest r :
  inv b n rest r → resource_transition (edge r) = None →
  ∃ r', edge_drop r = (inr tt, r') ∧ charged (pool r') = SEMANTIC_TRANSITION_SCRATCH + rest ∧ scratch_borrowed (pool r') = false.
Proof.
  intros Hi Htr. unfold edge_drop, invalidate. destruct (invalidate_ok _ _ _ _ Hi) as (r1 & E1 & Hi1 & He1 & Hem).
  destruct (quietly_ok _ _ _ _ _ _ E1 (inv_quiet _ _ _ _ Hi1)) as [E2 [Hf2 _ _]]. rewrite (bind_ok _ _ _ _ _ E2).
  destruct r1 as [p e l]. cbn [pool edge sink] in *. rewrite (bind_ok (modify _) _ _ tt _ eq_refl). cbn [pool edge sink].
  pose proof (en_transition _ _ He1) as Et. cbn [edge] in Et. rewrite Htr in Et.
  assert (∀ e', resource_transition e' = None → drop_transition (mkRun p e' (sink r)) = (inr tt, mkRun p e' (sink r))) as Ed.
  { intros e' H. unfold drop_transition. rewrite (bind_ok get _ _ _ _ eq_refl). cbn [edge]. by rewrite H. }
  rewrite (bind_ok _ _ _ _ _ (Ed (set_mechs (λ _, ∅) e) Et)).
  rewrite (bind_ok get _ _ _ _ eq_refl), (bind_ok (modify _) _ _ tt _ eq_refl). cbn [pool edge sink].
  destruct (funded_bounds _ _ Hf2) as (Hb & Ha & _). pose proof (owned_at_least e).
  unfold REDUCER_BASE_CHARGE, OPEN_BINDING_CHARGE, ACTIVE_MACHINE_CHARGE in *.
  destruct Hf2 as [Ho Hc Hlm Hr Hp Hd _ Hs]. cbn [pool edge] in *. rewrite Et in *.
  cbn [held] in *. rewrite bool_decide_eq_false_2 in Hs by by intros [].
  assert (resource_owner (set_mechs (λ _, ∅) e) = Some (mkLease (owned e))) as -> by exact Ho.
  eexists (mkRun (set_charged (charged p - owned e) p) _ _). split_and!.
  - unfold drop_lease, set_pool, lease_drop, checked_sub. cbn [pool lease_bytes].
    rewrite checked_small by (unfold in_width; lia). reflexivity.
  - simpl. rewrite Hc. unfold async_held. destruct Hem as [_ _ -> ->]. rewrite !sum_by_empty. lia.
  - done.
Qed.
End Contract.
