(* ===== verification/EdgeProps.v ===== *)
(** * Reducers on one pool

    Any number of per-edge reducers share one resource pool, as the reducers of a capture
    do.  A history is a list of [Event]s, each a public method of [semantics_edge.rs] on
    one of them; the theorems are about every history: the pool's account is exact to the
    byte and no assertion fails, the tables stay bounded, the effects tell which
    operations are live, and an asynchronous completion reaches only the operations its
    call was made for. *)
From S2P Require Import Prelude ObjectPolicy Semantics Kinds Pool Edge EdgeInv EdgeFrame EdgeGrow EdgeStep EdgeAsync EdgeContract.

(** A reducer, what reached its sink, and whether everything it emitted did. *)
Record Member := mkMember {
  reducer : EdgeSemantics;
  effects : list OperationEffect;
  heard : bool;
}.

Record World := mkWorld {
  wpool : SharedPool;
  members : gmap Z Member;
}.

Inductive Event :=
| Create (i : Z)
| Observe (i : Z) (call : SemanticCall) (origin : EffectOrigin)
| ObserveSilently (i : Z) (call : SemanticCall)
| ObserveJointly (i : Z) (call : SemanticCall) (origin : EffectOrigin) (keys : list KeyReceipt)
| Lose (i : Z)
| LoseSilently (i : Z)
| MarkDouble (i : Z)
| ClearDouble (i : Z)
| Remove (i : Z).

Section World.
Context {RV : RvCodes} {EC : EdgeCodes} {Catalog : FunctionCatalog}.
#[local] Opaque descriptor_of operation_bits.

(** A method on one reducer; [loud] tells from its result whether all its effects were heard. *)
Definition on_member {A} (i : Z) (loud : Stop + A → bool) (m : Edge A) (w : World) : option World :=
  match members w !! i with
  | None => Some w
  | Some x =>
      match m (mkRun (wpool w) (reducer x) (effects x)) with
      | (inl Panic, _) => None
      | (a, r) => Some (mkWorld (pool r) (<[i := mkMember (edge r) (sink r) (heard x && loud a)]> (members w)))
      end
  end.

Definition accepted {A} (a : Stop + A) : bool := match a with inr _ => true | inl _ => false end.

(** [None] is a panic. *)
Definition step (w : World) (ev : Event) : option World :=
  match ev with
  | Create i =>
      match members w !! i with
      | Some _ => Some w
      | None =>
          match with_resources (wpool w) with
          | (Ok e, p) => Some (mkWorld p (<[i := mkMember e [] true]> (members w)))
          | (Err _, p) => Some (mkWorld p (members w))
          end
      end
  | Observe i call origin => on_member i accepted (observe_with_resources_and_effects call origin) w
  | ObserveSilently i call => on_member i (λ _, false) (observe_with_resources call) w
  | ObserveJointly i call origin keys => on_member i (λ _, true) (observe_joint_with_resources call origin keys) w
  | Lose i => on_member i (λ _, true) invalidate_with_effects w
  | LoseSilently i => on_member i (λ _, false) invalidate w
  | MarkDouble i => on_member i (λ _, false) mark_double_load w
  | ClearDouble i => on_member i (λ _, true) clear_double_load w
  | Remove i =>
      match members w !! i with
      | None => Some w
      | Some x =>
          match edge_drop (mkRun (wpool w) (reducer x) (effects x)) with
          | (inl _, _) => None
          | (inr _, r) => Some (mkWorld (pool r) (delete i (members w)))
          end
      end
  end.

Definition exec (w : World) (evs : list Event) : option World := foldl (λ w ev, w ← w; step w ev) (Some w) evs.

(** What a reducer holds of the pool. *)
Definition footprint (x : Member) : Z := owned (reducer x) + async_held (reducer x).

(** ** The invariant of the pool and its reducers *)

Record member_ok (x : Member) : Prop := mkMemberOk {
  mo_owner : resource_owner (reducer x) = Some (mkLease (owned (reducer x)));
  mo_pending : map_Forall (λ _ p, leased (pending_resource p)) (pending (reducer x));
  mo_detached : map_Forall (λ _ i, leased (async_resource i)) (detached (reducer x));
  mo_transition : resource_transition (reducer x) = None;
  mo_tracked : tracked MAX_EDGE_PENDING (reducer x);
  mo_logged : heard x = true → ∀ p, logged (mkRun p (reducer x) (effects x));
  mo_sound : ∀ p, sound (limit p) (mkRun p (reducer x) (effects x));
}.

Record winv (lim : Z) (w : World) : Prop := mkWinv {
  wi_charged : charged (wpool w) = SEMANTIC_TRANSITION_SCRATCH + sum_by footprint (members w);
  wi_limit : charged (wpool w) <= limit (wpool w);
  wi_lim : limit (wpool w) = lim;
  wi_width : lim < 2 ^ 64;
  wi_scratch : scratch_borrowed (wpool w) = false;
  wi_members : map_Forall (λ _ x, member_ok x) (members w);
}.

Lemma footprint_nonneg x : member_ok x → 0 <= footprint x.
Proof.
  intros [_ Hp Hd _ _ _ _]. unfold footprint, async_held. pose proof (owned_at_least (reducer x)).
  unfold REDUCER_BASE_CHARGE, OPEN_BINDING_CHARGE, ACTIVE_MACHINE_CHARGE in *.
  pose proof (sum_leased pending_resource _ Hp). pose proof (sum_leased async_resource _ Hd). lia.
Qed.

Lemma footprints_nonneg (m : gmap Z Member) : map_Forall (λ _ x, member_ok x) m → 0 <= sum_by footprint m.
Proof.
  induction m as [|i x m Hi IH] using map_ind; intros Hm; [by rewrite sum_by_empty|].
  apply map_Forall_insert in Hm as [Hx Hm]; [|done]. rewrite sum_by_insert_new by done.
  pose proof (footprint_nonneg x Hx). specialize (IH Hm). lia.
Qed.

Lemma member_inv p x rest :
  member_ok x → charged p = SEMANTIC_TRANSITION_SCRATCH + rest + footprint x → 0 <= rest → charged p <= limit p < 2 ^ 64 →
  scratch_borrowed p = false → inv (heard x) MAX_EDGE_PENDING rest (mkRun p (reducer x) (effects x)).
Proof.
  intros [Ho Hp Hd Htr Ht Hl Hs] Hc Hr Hlm Hb. constructor; [|done|intros; by apply Hl].
  constructor; cbn [pool edge]; rewrite ?Htr; try done; [|by left]. rewrite Hc. unfold footprint. simpl. lia.
Qed.

Lemma focus lim w i x :
  winv lim w → members w !! i = Some x →
  let rest := sum_by footprint (delete i (members w)) in
  let r := mkRun (wpool w) (reducer x) (effects x) in
  inv (heard x) MAX_EDGE_PENDING rest r ∧ resource_transition (edge r) = None ∧ sound lim r.
Proof.
  intros [Hc Hl El Hw Hs Hm] Hx rest r. pose proof (Hm i x Hx) as Hok. split_and!.
  - apply member_inv; [done| |apply footprints_nonneg; by apply map_Forall_delete|lia|done].
    rewrite Hc. unfold rest. rewrite (sum_by_delete _ _ _ _ Hx). lia.
  - apply (mo_transition _ Hok).
  - rewrite <- El. apply (mo_sound _ Hok).
Qed.

Lemma unfocus lim w i b r :
  winv lim w → inv b MAX_EDGE_PENDING (sum_by footprint (delete i (members w))) r → resource_transition (edge r) = None →
  sound lim r → winv lim (mkWorld (pool r) (<[i := mkMember (edge r) (sink r) b]> (members w))).
Proof.
  intros [_ _ _ Hw _ Hm] [[Ho Hc Hlm Hr Hp Hd _ Hs] Ht Hl] Htr (El & Hsp & Hsd). constructor; cbn [wpool members].
  - rewrite <- insert_delete_eq, sum_by_insert_new by apply lookup_delete_eq. rewrite Hc, Htr. unfold footprint. simpl. lia.
  - lia.
  - done.
  - done.
  - rewrite Hs, Htr. by rewrite bool_decide_eq_false_2 by by intros [].
  - apply map_Forall_insert_2; [|done]. constructor; cbn [reducer effects heard]; try done.
    intros Hb p. destruct (Hl Hb). by constructor.
Qed.

(** A method that keeps the invariant of its reducer keeps that of the world. *)
Lemma on_member_ok {A} lim w i (loud : Stop + A → bool) (m : Edge A) :
  winv lim w → stable (sound lim) m →
  (∀ b rest r, inv b MAX_EDGE_PENDING rest r → resource_transition (edge r) = None →
    ∃ a r', m r = (a, r') ∧ a ≠ inl Panic ∧ inv (b && loud a) MAX_EDGE_PENDING rest r' ∧ resource_transition (edge r') = None) →
  ∃ w', on_member i loud m w = Some w' ∧ winv lim w'.
Proof.
  intros Hw Hst Hm. unfold on_member. destruct (members w !! i) as [x|] eqn:Hx; [|by exists w].
  destruct (focus lim w i x Hw Hx) as (Hi & Htr & Hs). destruct (Hm _ _ _ Hi Htr) as (a & r' & E & Ha & Hi' & Htr').
  rewrite E. pose proof (Hst _ _ _ Hs E) as Hs'. destruct a as [[y|]|a]; [|done|]; eexists; (split; [reflexivity|]); by apply unfocus.
Qed.
Lemma observe_member b rest r call o :
  inv b MAX_EDGE_PENDING rest r → resource_transition (edge r) = None →
  ∃ a r', observe_with_resources_and_effects call o r = (a, r') ∧ a ≠ inl Panic ∧
    inv (b && accepted a) MAX_EDGE_PENDING rest r' ∧ resource_transition (edge r') = None.
Proof.
  intros Hi Htr. destruct (observe_ok b rest r call o Hi Htr) as [(_ & v & r' & E & Hi' & Ht')|(_ & x & r' & E & Hi' & Ht' & _)];
    eexists _, r'; split_and!; try done; simpl; by rewrite ?andb_true_r, ?andb_false_r.
Qed.

Lemma silent_member {A} (m : Edge A) :
  (∀ b rest r, inv b MAX_EDGE_PENDING rest r → resource_transition (edge r) = None →
    ∃ a r' b', m r = (a, r') ∧ a ≠ inl Panic ∧ inv b' MAX_EDGE_PENDING rest r' ∧ resource_transition (edge r') = None) →
  ∀ b rest r, inv b MAX_EDGE_PENDING rest r → resource_transition (edge r) = None →
    ∃ a r', quietly m r = (a, r') ∧ a ≠ inl Panic ∧ inv (b && false) MAX_EDGE_PENDING rest r' ∧ resource_transition (edge r') = None.
Proof.
  intros Hm b rest r Hi Htr. destruct (Hm b rest r Hi Htr) as (a & [p e l] & b' & E & Ha & Hi' & Ht').
  exists a, (mkRun p e (sink r)). unfold quietly. rewrite E, andb_false_r. split_and!; [done..| |done].
  eapply inv_mute, inv_quiet, Hi'.
Qed.

Lemma invalidate_member b rest r :
  inv b MAX_EDGE_PENDING rest r → resource_transition (edge r) = None →
  ∃ r', invalidate_with_effects r = (inr tt, r') ∧ inv b MAX_EDGE_PENDING rest r' ∧ resource_transition (edge r') = None.
Proof.
  intros Hi Htr. destruct (invalidate_ok b _ rest r Hi) as (r' & E & Hi' & He & _). exists r'. split_and!; [done..|].
  by rewrite (en_transition _ _ He).
Qed.

Lemma create_ok lim w i : winv lim w → members w !! i = None → ∃ w', step w (Create i) = Some w' ∧ winv lim w'.
Proof.
  intros [Hc Hl El Hw Hs Hm] Hi. simpl. rewrite Hi. rewrite <- El in *.
  destruct (with_resources_ok (wpool w) (sum_by footprint (members w)) Hc (footprints_nonneg _ Hm) ltac:(lia) Hs)
    as [(e & p & E & Elp & Hinv & Htr & Hsd)|(x & p & E & Ec & Elp & Hsp)]; rewrite E; eexists; (split; [reflexivity|]).
  - destruct Hinv as [[Ho Hc' Hl' _ Hp Hd _ Hsp] Ht Hlog]. cbn [pool edge] in *. rewrite Htr in *.
    constructor; cbn [wpool members]; try done; [rewrite sum_by_insert_new by done; rewrite Hc'; unfold footprint; simpl; lia|lia|].
    apply map_Forall_insert_2; [|done]. constructor; cbn [reducer effects heard]; try done.
    + destruct Ht as [? ? ? ? ? ? ? ? ? ?]. constructor; try done. lia.
    + intros _ q. destruct (Hlog eq_refl). by constructor.
    + intros q. destruct Hsd as (_ & H1 & H2). by split_and!.
  - constructor; cbn [wpool members]; try done; [by rewrite Ec|lia].
Qed.

Lemma remove_ok lim w i x :
  winv lim w → members w !! i = Some x → ∃ w', step w (Remove i) = Some w' ∧ winv lim w'.
Proof.
  intros Hw Hx. destruct (focus lim w i x Hw Hx) as (Hi & Htr & Hs). cbn [step]. rewrite Hx.
  destruct (edge_drop_ok _ _ _ _ Hi Htr) as (r' & E & Hc & Hsc). rewrite E. eexists. split; [reflexivity|].
  destruct (edge_drop_stays lim _ _ _ Hs E) as (El & _). destruct Hw as [Hc0 Hl0 El0 Hw0 Hs0 Hm0].
  pose proof (footprint_nonneg x (Hm0 i x Hx)). pose proof (sum_by_delete footprint _ _ _ Hx).
  constructor; cbn [wpool members]; try done; [lia|by apply map_Forall_delete].
Qed.

(** No event panics, and each keeps the invariant. *)
Lemma world_step_ok lim w ev : winv lim w → ∃ w', step w ev = Some w' ∧ winv lim w'.
Proof.
  intros Hw. destruct ev as [i|i call o|i call|i call o keys|i|i|i|i|i]; cbn [step].
  - destruct (members w !! i) eqn:Hi; [by exists w|]. destruct (create_ok lim w i Hw Hi) as (w' & E & Hw').
    cbn [step] in E. rewrite Hi in E. by exists w'.
  - apply (on_member_ok lim); [done|apply observe_with_resources_and_effects_stays|]. intros. by apply observe_member.
  - apply (on_member_ok lim); [done|apply quietly_stays, observe_with_resources_and_effects_stays|]. apply silent_member.
    intros b rest r Hi Htr. destruct (observe_member b rest r call placeholder Hi Htr) as (a & r' & ?). by exists a, r', (b && accepted a).
  - apply (on_member_ok lim); [done|apply observe_joint_with_resources_stays|]. intros b rest r Hi Htr. rewrite andb_true_r.
    destruct (observe_joint_ok b rest r call o keys Hi Htr) as [(v & r' & E & Hi' & Ht')|(_ & x & r' & E & Hi' & Ee & _)];
      eexists _, r'; split_and!; try done. by rewrite Ee.
  - apply (on_member_ok lim); [done|apply invalidate_with_effects_stays|]. intros b rest r Hi Htr. rewrite andb_true_r.
    destruct (invalidate_member b rest r Hi Htr) as (r' & E & ?). by exists (inr tt), r'.
  - apply (on_member_ok lim); [done|apply invalidate_stays|]. apply silent_member.
    intros b rest r Hi Htr. destruct (invalidate_member b rest r Hi Htr) as (r' & E & ?). by exists (inr tt), r', b.
  - apply (on_member_ok lim); [done| |].
    + apply stable_bind; [apply invalidate_stays|]. intros _. auto with frame.
    + intros b rest r Hi Htr. destruct (silent_member invalidate_with_effects) with b rest r as (a & r' & E & Ha & Hi' & Ht'); try done.
      { intros b0 rest0 r0 Hi0 Htr0. destruct (invalidate_member b0 rest0 r0 Hi0 Htr0) as (r' & E & ?). by exists (inr tt), r', b0. }
      unfold mark_double_load, invalidate. destruct a as [[y|]|[]]; [|done|].
      * exists (inl (Refuse y)), r'. by rewrite (bind_err _ _ _ _ _ E).
      * exists (inr tt). eexists. rewrite (bind_ok _ _ _ _ _ E). split_and!; [done|done| |done]. destruct r' as [p e l].
        apply inert_inv; [|done]. intros ?. by split_and!.
  - apply (on_member_ok lim); [done|unfold clear_double_load; auto with frame|]. intros b rest [p e l] Hi Htr. rewrite andb_true_r.
    exists (inr tt). eexists. split_and!; [done|done| |done]. apply inert_inv; [|done]. intros ?. by split_and!.
  - destruct (members w !! i) as [x|] eqn:Hx; [|by exists w]. destruct (remove_ok lim w i x Hw Hx) as (w' & E & Hw').
    cbn [step] in E. rewrite Hx in E. by exists w'.
Qed.

Lemma exec_cons w ev evs : exec w (ev :: evs) = step w ev ≫= λ w, exec w evs.
Proof.
  unfold exec. simpl. destruct (step w ev) as [w'|]; [done|]. simpl. induction evs; simpl; auto.
Qed.

Lemma exec_ok lim evs w : winv lim w → ∃ w', exec w evs = Some w' ∧ winv lim w'.
Proof.
  revert w. induction evs as [|ev evs IH]; intros w Hw; [by exists w|].
  destruct (world_step_ok lim w ev Hw) as (w1 & E1 & Hw1). destruct (IH w1 Hw1) as (w2 & E2 & Hw2).
  exists w2. split; [|done]. rewrite exec_cons, E1. exact E2.
Qed.

Lemma winv_start lim p : pool_new lim = Some p → lim < 2 ^ 64 → winv lim (mkWorld p ∅).
Proof.
  unfold pool_new. destruct (lim <? SEMANTIC_TRANSITION_SCRATCH) eqn:E; [done|]. intros [= <-] Hl. apply Z.ltb_ge in E.
  constructor; cbn; rewrite ?sum_by_empty; try done; try lia.
Qed.
(** ** The reach of a completion *)

(** The machines that [d] on session [s] is not about. *)
Definition apart (s : Z) (d : SlotSemantics) (k : Z * Z) : Prop := k.1 = s → k.2 ∉ (operation_bits (operations d)).*1.

Definition untouched (s : Z) (d : SlotSemantics) (A : gmap (Z * Z) OpMachine) (r : Run) : Prop :=
  ∀ k, apart s d k → active (edge r) !! k = A !! k.

#[local] Instance untouched_chargeless s d A : Chargeless (untouched s d A).
Proof. by split. Qed.

Section Reach.
Context (s : Z) (d : SlotSemantics) (A : gmap (Z * Z) OpMachine).
Local Abbreviation stays := (stable (untouched s d A)).

Lemma apart_ne k bit : apart s d k → bit ∈ (operation_bits (operations d)).*1 → (s, bit) ≠ k.
Proof. intros Hk Hb <-. by apply Hk. Qed.

Lemma bit_elem p : p ∈ operation_bits (operations d) → p.1 ∈ (operation_bits (operations d)).*1.
Proof. intros Hp. apply list_elem_of_fmap. by exists p. Qed.

Lemma touch_stays f bit :
  bit ∈ (operation_bits (operations d)).*1 → (∀ M k, k ≠ (s, bit) → f M !! k = M !! k) → stays (modify (set_active f)).
Proof.
  intros Hb Hf. apply stable_modify. intros p e l Hr k Hk. simpl. rewrite Hf; [by apply Hr|].
  apply not_eq_sym. by apply apart_ne.
Qed.

Lemma end_machine_reach bit c st o : bit ∈ (operation_bits (operations d)).*1 → stays (end_machine s bit c st o).
Proof. intros Hb. unfold end_machine. stable. apply (touch_stays _ bit); [done|]. intros M k Hk. by apply lookup_delete_ne. Qed.

Lemma start_machine_reach bit c mech key o : bit ∈ (operation_bits (operations d)).*1 → stays (start_machine s bit c mech key o).
Proof.
  intros Hb. unfold start_machine, alloc_generation. stable; [|by apply end_machine_reach].
  apply (touch_stays _ bit); [done|]. intros M k Hk. by apply lookup_insert_ne.
Qed.

Lemma apply_init_reach call o keys : session call = s → stays (apply_init call d o keys).
Proof.
  intros Hs. unfold apply_init. rewrite Hs. destruct (_ || _)%bool; [apply stable_ret|]. apply stable_for_each.
  intros [bit c] Hp%bit_elem. cbn [fst] in Hp.
  stable; first [by apply start_machine_reach|by apply end_machine_reach].
Qed.

Lemma apply_operations_reach call o : session call = s → stays (apply_operations call d o).
Proof.
  intros Hs. unfold apply_operations. rewrite Hs. stable.
  - unfold attribute_op_call, put_mech. stable.
  - apply end_machine_reach. by apply bit_elem.
  - apply (touch_stays _ x.1); [by apply bit_elem|]. intros M k Hk. by apply lookup_alter_ne.
Qed.

Lemma apply_completed_reach call o keys :
  session call = s → reconciles (rv call) = false → lifecycle_ d = lifecycle.NONE → stays (apply_completed call d o keys).
Proof.
  intros Hs Hr Hd. unfold apply_completed. apply stable_bind.
  { apply stable_when. unfold record_init_mechanism, put_mech. stable. }
  intros _ r a r' Hp. rewrite (bind_ok _ _ _ _ _ (reconcile_conclusive_stop call d o r Hr)).
  assert (apply_lifecycle call d o r = (inr tt, r)) as El by (unfold apply_lifecycle; by rewrite Hd).
  rewrite (bind_ok _ _ _ _ _ El). destruct (transition_ d =? _); [by eapply apply_init_reach|].
  destruct (_ && _)%bool; [by eapply apply_operations_reach|].
  assert (stays (when (negb (direct_ d =? direct.NONE)) (apply_direct call d o keys))) as Hm
    by (unfold apply_direct, alloc_generation; stable). by eapply Hm.
Qed.
End Reach.

(** The call an asynchronous completion redeems, with its origin. *)
Definition redeemed (call : SemanticCall) (e : EdgeSemantics) : option (SemanticCall * CallOrigin) :=
  match complete_eligible (session call) (target_function call) e with
  | PendingRecord key => (λ p, (pending_call p, pending_origin p)) <$> pending e !! key
  | DetachedRecord key => (λ i, (async_call i, async_origin i)) <$> detached e !! key
  | Zero | Many => None
  end.

Lemma complete_pending_reach completion original origin r a r' k m :
  captured original origin → reconciles (rv completion) = false →
  lifecycle_ (descriptor_of (function original)) = lifecycle.NONE →
  complete_pending completion original origin r = (a, r') → active (edge r) !! k = Some m →
  active (edge r') !! k = Some m ∨ (k.1 = session completion ∧ (k.2, Some (generation m)) ∈ origin).
Proof.
  intros Hc Hr Hd. unfold complete_pending. rewrite (bind_ok get _ _ _ _ eq_refl).
  destruct (origin_matches (session completion) origin (edge r)) eqn:Em; cbn [negb].
  2:{ intros [= <- <-] Hk. by left. }
  intros E Hk. destruct (decide (apart (session completion) (descriptor_of (function original)) k)) as [Hap|Hap].
  - left. rewrite <- Hk. pose proof (apply_completed_reach (session completion) _ (active (edge r))
      (completed_call completion original) (origin_from original) [] eq_refl Hr Hd) as Hm.
    exact (Hm r a r' (λ _ _, eq_refl) E k Hap).
  - right. unfold apart in Hap. destruct (decide (k.1 = session completion)) as [Hs|Hs]; [|by destruct Hap].
    split; [done|]. destruct (decide (k.2 ∈ (operation_bits (operations (descriptor_of (function original)))).*1)) as [Hin|Hin];
      [|by destruct Hap]. unfold captured in Hc. rewrite <- Hc in Hin. apply list_elem_of_fmap in Hin as ([bit g] & Ek & Hin).
    unfold origin_matches in Em. rewrite forallb_forall in Em. specialize (Em _ (proj1 (list_elem_of_In _ _) Hin)).
    apply bool_decide_eq_true_1 in Em. cbn [fst snd] in *. destruct k as [k1 k2]. cbn [fst snd] in *. subst k1 k2.
    unfold live_generation in Em. rewrite Hk in Em. simpl in Em. by rewrite Em.
Qed.
Lemma complete_drop_reach completion original origin l r a r' k m :
  captured original origin → reconciles (rv completion) = false →
  lifecycle_ (descriptor_of (function original)) = lifecycle.NONE →
  (complete_pending completion original origin ;; drop_lease l) r = (a, r') → active (edge r) !! k = Some m →
  active (edge r') !! k = Some m ∨ (k.1 = session completion ∧ (k.2, Some (generation m)) ∈ origin).
Proof.
  intros Hc Hr Hd E Hk. destruct (complete_pending completion original origin r) as [[y|[]] r1] eqn:E1;
    destruct (complete_pending_reach _ _ _ _ _ _ k m Hc Hr Hd E1 Hk) as [Hm|Hm]; try (by right); left.
  - rewrite (bind_err _ _ _ _ _ E1) in E. by injection E as <- <-.
  - rewrite (bind_ok _ _ _ _ _ E1) in E. set (P := λ r, active (edge r) !! k = Some m). assert (Chargeless P) by by split.
    exact (stable_drop_lease P l r1 a r' Hm E).
Qed.

(** An emptied reducer has no machine to end. *)
Lemma invalidate_emptied r r' :
  emptied (edge r) → invalidate_with_effects r = (inr tt, r') → sink r' = sink r.
Proof.
  intros [Ho Ha Hpe Hde]. unfold invalidate_with_effects. rewrite (bind_ok get _ _ _ _ eq_refl). set (o := mkOrigin _ _ _).
  assert (end_session_machines_all EndUnknown o r = (inr false, r)) as E.
  { unfold end_session_machines_all. rewrite (bind_ok get _ _ _ _ eq_refl). unfold machine_keys. by rewrite Ha, map_to_list_empty. }
  rewrite (bind_ok _ _ _ _ _ E). set (m := clear_async_payloads ;; clear_open).
  set (P := λ r0, sink r0 = sink r). assert (Chargeless P) by by split.
  assert (stable P m) as Hm; [|intros E2; by eapply Hm, E2].
  unfold m, clear_async_payloads, retain_pending, retain_detached, clear_open. stable.
Qed.

(** ** Theorems *)

Section Theorems.
Context (lim : Z) (p : SharedPool) (Hp : pool_new lim = Some p) (Hlim : lim < 2 ^ 64).

(** C5: Whatever calls arrive at any number of reducers on one pool, in any order, refused
    or not, nothing panics ([exec] never fails): no reservation is overspent and no lease
    is released twice.  Afterwards the pool's charge is exactly its scratch plus what the
    reducers and their asynchronous records retain, and never exceeds the limit, so a
    pool whose reducers are all gone has leaked nothing. *)
Theorem semantic_pool_exact evs :
  ∃ w, exec (mkWorld p ∅) evs = Some w ∧
    charged (wpool w) = SEMANTIC_TRANSITION_SCRATCH + sum_by footprint (members w) ∧
    charged (wpool w) <= lim ∧
    map_Forall (λ _ x, resource_owner (reducer x) = Some (mkLease (owned (reducer x))) ∧
                       resource_transition (reducer x) = None) (members w).
Proof.
  destruct (exec_ok lim evs _ (winv_start lim p Hp Hlim)) as (w & E & [Hc Hl El _ _ Hm]). exists w. split_and!; [done|done|lia|].
  intros i x Hx. destruct (Hm i x Hx). done.
Qed.

Context (evs : list Event) (w : World) (Hexec : exec (mkWorld p ∅) evs = Some w).
Context (i : Z) (x : Member) (Hx : members w !! i = Some x).

Lemma reached : winv lim w.
Proof.
  destruct (exec_ok lim evs _ (winv_start lim p Hp Hlim)) as (w' & E & Hw). rewrite Hexec in E. by injection E as <-.
Qed.

(** C6: As long as every call of a reducer was heard, none refused and none observed
    without a sink, its effects are an exact account of its operations.  Replaying them
    succeeds: identities are fresh and increasing, and every end names an operation that
    is live under its category.  What is live after the replay is what the reducer has
    active.  Unless a counter is saturated, every started operation is ended or active,
    and the log has one start for each but those that found no identity. *)
Theorem semantic_effects_exact :
  heard x = true →
  ∃ last live, replay (effects x) = Some (last, live) ∧
    (∀ id c, live !! id = Some c ↔
       ∃ k m, active (reducer x) !! k = Some m ∧ generation m = id ∧ category_name k.2 = c) ∧
    (started (reducer x) < U64_MAX →
       started (reducer x) = completed (reducer x) + cancelled (reducer x) + failed (reducer x) + unknown (reducer x)
                             + Z.of_nat (size (active (reducer x))) ∧
       started (reducer x) = starts (effects x) + id_exhaustions (reducer x)).
Proof.
  intros Hh. destruct (wi_members _ _ reached i x Hx) as [_ _ _ _ Ht Hl _].
  destruct (Hl Hh p) as [(last & live & Hr & _ & Hlive) _ Hst]. exists last, live. split_and!; [done..|].
  intros Hlt. split; [by apply (ba_sum _ (tr_balanced _ _ Ht))|by apply Hst].
Qed.

(** C28: The tables of a reducer keep their bounds: sessions, live operations, mechanism
    rows with their provenance, and asynchronous records, pending and detached together. *)
Theorem semantic_tables_bounded :
  (size (open (reducer x)) <= MAX_EDGE_SESSIONS)%nat ∧ (size (active (reducer x)) <= MAX_EDGE_ACTIVE_OPS)%nat ∧
  (size (mechs (reducer x)) <= MAX_EDGE_MECHANISMS)%nat ∧
  (size (pending (reducer x)) + size (detached (reducer x)) <= MAX_EDGE_PENDING)%nat ∧
  map_Forall (λ _ s, (size (stat_functions s) <= MAX_EDGE_PROVENANCE_FUNCTIONS)%nat ∧
                     (size (stat_returns s) <= MAX_EDGE_PROVENANCE_RETURNS)%nat) (mechs (reducer x)).
Proof. by destruct (mo_tracked _ (wi_members _ _ reached i x Hx)). Qed.

(** C10: A call is observed exactly when its preflighted growth fits the budget that is
    left, and otherwise refused; the preflight never under-reserves, so an accepted call
    always runs to its end. *)
Theorem semantic_refusal_exact call origin :
  let r := mkRun (wpool w) (reducer x) (effects x) in
  ((∃ v r', observe_with_resources_and_effects call origin r = (inr v, r')) ↔
   charged (wpool w) + preflight_growth call (reducer x) <= lim) ∧
  ((∃ e r', observe_with_resources_and_effects call origin r = (inl (Refuse e), r')) ↔
   lim < charged (wpool w) + preflight_growth call (reducer x)).
Proof.
  intros r. destruct (focus lim w i x reached Hx) as (Hi & Htr & _). pose proof (wi_lim _ _ reached) as El.
  destruct (observe_ok _ _ r call origin Hi Htr) as [(Hle & v & r' & E & _)|(Hgt & e & r' & E & _)]; cbn [r pool edge] in *; rewrite E.
  - split; (split; [intros (? & ? & ?)|intros]); try done; try lia; by eexists _, _.
  - split; (split; [intros (? & ? & ?)|intros]); try done; try lia; by eexists _, _.
Qed.

(** C9: A delayed completion reaches only the operations its call was made for.  When an
    asynchronous completion redeems a call that is no session call, with a return value
    that is not conclusive about the session, every live machine that it changes or ends
    is on the session of the completion and is the very machine, by generation, that the
    call found there when it was queued. *)
Theorem async_completion_isolated call original origin k m a r' :
  redeemed call (reducer x) = Some (original, origin) → reconciles (rv call) = false →
  lifecycle_ (descriptor_of (function original)) = lifecycle.NONE →
  async_complete call (mkRun (wpool w) (reducer x) (effects x)) = (a, r') →
  active (reducer x) !! k = Some m →
  active (edge r') !! k = Some m ∨ (k.1 = session call ∧ (k.2, Some (generation m)) ∈ origin).
Proof.
  intros Hrd Hrc Hd. destruct (focus lim w i x reached Hx) as (_ & _ & Hs). destruct Hs as (_ & Hsp & Hsd). cbn [edge] in *.
  unfold async_complete. destruct (rv call =? rv_PENDING); [intros [= <- <-] Hk; by left|].
  rewrite (bind_ok get _ _ _ _ eq_refl). cbn [edge]. unfold redeemed in Hrd.
  destruct (complete_eligible _ _ _) as [| |key|key]; try done.
  - apply fmap_Some in Hrd as (q & Hq & [= -> ->]). rewrite Hq. rewrite (bind_ok (or_panic (Some q)) _ _ q _ eq_refl),
      (bind_ok (modify _) _ _ tt _ eq_refl). intros E. by apply (complete_drop_reach _ _ _ _ _ _ _ k m (Hsp _ _ Hq) Hrc Hd E).
  - apply fmap_Some in Hrd as (q & Hq & [= -> ->]). rewrite Hq. rewrite (bind_ok (or_panic (Some q)) _ _ q _ eq_refl),
      (bind_ok (modify _) _ _ tt _ eq_refl). intros E. by apply (complete_drop_reach _ _ _ _ _ _ _ k m (Hsd _ _ Hq) Hrc Hd E).
Qed.

(** C37: A refused call ends every live operation of the reducer without an effect.  The
    sink, exact until then, keeps the operation as live for good: even the invalidation
    that the caller runs next, to report the losses, emits nothing for it. *)
Theorem refused_call_strands_operations call origin k m :
  heard x = true → active (reducer x) !! k = Some m → lim < charged (wpool w) + preflight_growth call (reducer x) →
  ∃ e r1 r2, observe_with_resources_and_effects call origin (mkRun (wpool w) (reducer x) (effects x)) = (inl (Refuse e), r1) ∧
    invalidate_with_effects r1 = (inr tt, r2) ∧ active (edge r2) = ∅ ∧ sink r2 = effects x ∧
    ∃ last live, replay (sink r2) = Some (last, live) ∧ live !! generation m = Some (category_name k.2).
Proof.
  intros Hh Hk Hgt. destruct (focus lim w i x reached Hx) as (Hi & Htr & _). pose proof (wi_lim _ _ reached) as El.
  destruct (observe_ok _ _ _ call origin Hi Htr) as [(Hle & _)|(_ & e & r1 & E & Hi1 & Htr1 & Hem & Hs)]; cbn [pool edge sink] in *; [lia|].
  destruct (invalidate_ok _ _ _ _ Hi1) as (r2 & E2 & _ & _ & Hem2). exists e, r1, r2.
  assert (sink r2 = sink r1) as Hs2 by (by eapply invalidate_emptied). split_and!; [done|done|apply Hem2|congruence|].
  rewrite Hs2, Hs. destruct (wi_members _ _ reached i x Hx) as [_ _ _ _ _ Hl _].
  destruct (Hl Hh p) as [(last & live & Hr & _ & Hlive) _ _]. exists last, live. split; [done|]. apply Hlive. by exists k, m.
Qed.
End Theorems.
End World.

(** ** Instances of the theorems *)

Section Demo.
#[local] Instance edge_rv : RvCodes := Build_RvCodes 0x205 0x150 0x91 0x190 0xa4 0x202.
#[local] Instance edge_codes : EdgeCodes := Build_EdgeCodes 0xb0 0xb3.
#[local] Instance edge_catalog : FunctionCatalog := ["C_OpenSession"; "C_EncryptInit"; "C_Encrypt"; "C_AsyncComplete"]%string.

Definition demo_call (f : string) (v s cap target : Z) : SemanticCall :=
  mkCall f v s 4226 cap 3 target 0 0 0 true true false true 10.

Definition demo_from : EffectOrigin := mkOrigin "demo" 7 10.

(** Two reducers; on the first, a session, a started encryption and its pending data call. *)
Definition demo_history : list Event :=
  [Create 1; Create 2;
   Observe 1 (demo_call "C_OpenSession" 0 7 0 FUNCTION_NONE) demo_from;
   Observe 1 (demo_call "C_EncryptInit" 0 7 capture.MECHANISM_VALUE FUNCTION_NONE) demo_from;
   Observe 1 (demo_call "C_Encrypt" rv_PENDING 7 0 FUNCTION_NONE) demo_from].

Definition demo_completion : SemanticCall := demo_call "C_AsyncComplete" 0 7 0 2.

Definition demo_pool : SharedPool := mkPool 1075000 SEMANTIC_TRANSITION_SCRATCH SEMANTIC_TRANSITION_SCRATCH 0 false.

Definition demo_world : World := default (mkWorld demo_pool ∅) (exec (mkWorld demo_pool ∅) demo_history).

Definition demo_member : Member := default (mkMember EdgeSemantics_default [] false) (members demo_world !! 1).

Lemma demo_exec : exec (mkWorld demo_pool ∅) demo_history = Some demo_world.
Proof. vm_compute. reflexivity. Qed.

Lemma demo_lookup : members demo_world !! 1 = Some demo_member.
Proof. vm_compute. reflexivity. Qed.

Lemma semantic_pool_exact_witness : charged (wpool demo_world) = 1074134 ∧ charged (wpool demo_world) <= 1075000.
Proof.
  destruct (semantic_pool_exact 1075000 demo_pool eq_refl ltac:(lia) demo_history) as (w & E & _ & Hl & _).
  rewrite demo_exec in E. apply (inj Some) in E as <-. split; [vm_compute; reflexivity|exact Hl].
Defined.

Lemma semantic_effects_exact_witness :
  heard demo_member = true ∧ ∃ last live, replay (effects demo_member) = Some (last, live) ∧ live !! 1 = Some "encrypt"%string.
Proof.
  split; [vm_compute; reflexivity|].
  destruct (semantic_effects_exact 1075000 demo_pool eq_refl ltac:(lia) demo_history demo_world demo_exec 1 demo_member demo_lookup)
    as (last & live & Hr & Hlive & _); [vm_compute; reflexivity|].
  exists last, live. split; [exact Hr|]. apply Hlive. exists (7, 8). eexists. split; [vm_compute; reflexivity|].
  split; vm_compute; reflexivity.
Defined.

Lemma semantic_tables_bounded_witness :
  size (active (reducer demo_member)) = 1%nat ∧ (size (active (reducer demo_member)) <= MAX_EDGE_ACTIVE_OPS)%nat.
Proof.
  split; [vm_compute; reflexivity|].
  destruct (semantic_tables_bounded 1075000 demo_pool eq_refl ltac:(lia) demo_history demo_world demo_exec 1 demo_member demo_lookup)
    as (_ & Ha & _). exact Ha.
Defined.

Lemma semantic_refusal_exact_witness :
  ∃ e r', observe_with_resources_and_effects (demo_call "C_EncryptInit" 0 8 capture.MECHANISM_VALUE FUNCTION_NONE) demo_from
            (mkRun (wpool demo_world) (reducer demo_member) (effects demo_member)) = (inl (Refuse e), r').
Proof.
  destruct (semantic_refusal_exact 1075000 demo_pool eq_refl ltac:(lia) demo_history demo_world demo_exec 1 demo_member demo_lookup
    (demo_call "C_EncryptInit" 0 8 capture.MECHANISM_VALUE FUNCTION_NONE) demo_from) as [_ [_ Hr]].
  apply Hr. vm_compute. reflexivity.
Defined.

Lemma async_completion_isolated_witness :
  ∃ r', async_complete demo_completion (mkRun (wpool demo_world) (reducer demo_member) (effects demo_member)) = (inr tt, r') ∧
    active (edge r') = ∅ ∧
    (active (edge r') !! (7, 8) = active (reducer demo_member) !! (7, 8) ∨
     (7 = session demo_completion ∧ (8, Some 1) ∈ [(8, Some 1)])).
Proof.
  destruct (async_complete demo_completion (mkRun (wpool demo_world) (reducer demo_member) (effects demo_member))) as [a r'] eqn:E.
  assert (a = inr tt ∧ active (edge r') = ∅) as [-> Ha] by (revert E; vm_compute; intros [= <- <-]; split; reflexivity).
  exists r'. split; [reflexivity|]. split; [exact Ha|].
  destruct (active (reducer demo_member) !! (7, 8)) as [m|] eqn:Em; [|vm_compute in Em; discriminate].
  assert (generation m = 1) as Hg by (revert Em; vm_compute; intros [= <-]; reflexivity). rewrite <- Hg.
  apply (async_completion_isolated 1075000 demo_pool eq_refl ltac:(lia) demo_history demo_world demo_exec 1 demo_member demo_lookup
    demo_completion (demo_call "C_Encrypt" rv_PENDING 7 0 FUNCTION_NONE) _ (7, 8) m (inr tt)).
  - rewrite Hg. vm_compute. reflexivity.
  - vm_compute. reflexivity.
  - vm_compute. reflexivity.
  - exact E.
  - exact Em.
Defined.

Lemma refused_call_strands_operations_witness :
  ∃ e r1 r2, observe_with_resources_and_effects (demo_call "C_EncryptInit" 0 8 capture.MECHANISM_VALUE FUNCTION_NONE) demo_from
      (mkRun (wpool demo_world) (reducer demo_member) (effects demo_member)) = (inl (Refuse e), r1) ∧
    invalidate_with_effects r1 = (inr tt, r2) ∧ active (edge r2) = ∅ ∧ sink r2 = effects demo_member ∧
    ∃ last live, replay (sink r2) = Some (last, live) ∧ live !! 1 = Some "encrypt"%string.
Proof.
  refine (refused_call_strands_operations 1075000 demo_pool eq_refl _ demo_history demo_world demo_exec 1 demo_member
    demo_lookup (demo_call "C_EncryptInit" 0 8 capture.MECHANISM_VALUE FUNCTION_NONE) demo_from (7, 8)
    (mkMachine (Some 4226) Initialized 1 None) _ _ _); vm_compute; reflexivity.
Defined.
End Demo.
